(* ===== verification/_CoqProject ===== *)
-Q . S2P
Prelude.v
Monad.v
Crc.v
Key.v
RowKey.v
OrdMap.v
Store.v
Page.v
Pager.v
PagerSpec.v
PagerSim.v
PagerRefine.v
PagerCrash.v
PagerTrace.v
PagerMem.v
KvNode.v
BTree.v
BTreeRep.v
BTreeStep.v
BTreeProof.v
BTreeSpec.v
KvSpec.v
KvTree.v
GoRuntime.v
HeapValue.v
Heap.v
HeapRows.v
HeapProof.v
HeapScan.v
HeapVacuum.v
HeapSpec.v
BTreeMaint.v
BTreeMaintProof.v
Examples.v
GoFmt.v
Datum.v
Expr.v
Operator.v
Nodes.v
Sort.v
Join.v
JoinProof.v
Agg.v
PlannerSpec.v
HeapManager.v
SchemaCodec.v
TxManager.v
Binder.v
PlanCache.v
Translate.v
SqlText.v
DmlRow.v
VacuumManager.v
SqlEngine.v
SqlEngineProof.v
ExamplesEngine.v
Gorilla.v
PagerFile.v
FlatStore.v
FlatList.v
MetricsPoint.v
Metrics.v
TagIndexProof.v
Rollup.v
LogRecord.v
Logs.v
LogQuery.v
LogBlock.v
MetricsEngine.v
LogsEngine.v
SystemHeap.v
Catalog.v
CatalogProof.v
Lifecycle.v
Router.v
Config.v
Server.v
ExamplesMetrics.v
ExamplesLogs.v
ExamplesCatalog.v
