(* ===== verification/Prelude.v ===== *)
(** * Plomvix: storage, tables and queries, modelled and verified

    Plomvix is a database server in Go.  This library models the part that keeps and
    finds data, from bytes in two files up to versioned table rows and the plans of
    queries over them, with the catalog, the router, the wire protocol and the lifecycle above,
    as executable functions, and proves what each layer promises to the one above.

    ** The layers, and where they are

    - [internal/storage/pager]: a file of 4096-byte pages with a write-ahead log.
      [Page.v] has the formats (data pages, the two header pages, log records, CRC-32
      from [Crc.v]); [Pager.v] the operations over a main file and a log whose I/O
      calls may fail, be cut short or be the last before a crash.  [PagerSpec.v] says
      what a pager promises ([PagerOps], [PagerSpec]); [PagerSim.v] and
      [PagerRefine.v] prove it of [Pager.v], [PagerMem.v] of a simple page map.
      [PagerCrash.v] is about crashes, [PagerTrace.v] about whole runs and about
      defects found.
    - [internal/engine/sql/kv]: a B+ tree over a pager.  [KvNode.v] has the node
      formats, [BTree.v] Open, Get, Set, Delete, Scan and Close, [BTreeMaint.v] Check
      and Compact.  [BTreeRep.v] ties pages to an ordered map, [BTreeStep.v] and
      [BTreeProof.v] carry the proofs, [BTreeSpec.v] and [BTreeMaintProof.v] the
      theorems.
    - [internal/engine/sql/key]: [Key.v] and [RowKey.v], the encodings of keys.
    - [internal/engine/sql/store]: [Store.v], the in-memory ordered store.
    - [internal/engine/sql/heap]: [HeapValue.v] (schemas, the value of a row
      version), [Heap.v] (Insert, Update, Delete, Get, Scan, Vacuum and the row
      iterator) over any store that satisfies [KvSpec.v], which [KvTree.v] proves of
      the B+ tree.  [HeapRows.v], [HeapProof.v], [HeapScan.v] and [HeapVacuum.v] carry
      the proofs, [HeapSpec.v] the theorems.

    - [internal/engine/engine.go]: [Datum.v], typed values, rows and row numbers;
      [SchemaCodec.v] the schemas in the catalog ([sql/schema]); [TxManager.v] the
      transaction numbers ([sql/tx]), as steps of any number of goroutines.
    - [internal/engine/sql/planner]: [Expr.v] bound expressions and their evaluation,
      [Binder.v] names and literals to bound expressions, [Operator.v] the interface of
      plan nodes and its contract, [Nodes.v], [Sort.v], [Join.v], [Agg.v] the nodes,
      [PlanCache.v] the cache, [Translate.v] from statements to plans.  [JoinProof.v] and
      [PlannerSpec.v] have theorems on them together; the others are in the files of
      their definitions.
    - [internal/engine/sql/heap_manager.go], [mutable_heap.go]: [HeapManager.v], the
      tables as the planner's heaps, and of a scan what the planner's theorems assume.
    - [internal/engine/sql/engine.go] and the [dml_] files: [SqlEngine.v], the statements
      over the heap manager, the plan cache, the transaction numbers and an interface of
      the catalog, with the rows of an INSERT in [DmlRow.v]; [SqlEngineProof.v] has the
      theorems.  [VacuumManager.v] is the background deletion of heap files
      ([sql/vacuum]), its workers as steps.
    - [internal/sqlparser/normalize.go]: [SqlText.v], comments, redaction, fingerprints.
    - [internal/engine/metrics], [internal/engine/logs]: append-only stores of points and
      of log records over a pager of their own.  [FlatStore.v] has the code the three
      stores share, over what [PagerFile.v] promises of a pager (both pagers have it) and
      images of pages; [FlatList.v] its refinement of lists of records.
      [MetricsPoint.v] has points, tags and the tag index, [Metrics.v] the store, [Rollup.v]
      the buckets of downsampled points, [Gorilla.v] the bit streams.  [LogRecord.v] has
      records, the tokenizer and the token index, [Logs.v] the store and its retention,
      [LogBlock.v] compressed blocks.  Each has its theorems; those of the
      indexes are in [TagIndexProof.v] and [LogQuery.v].  [MetricsEngine.v] and
      [LogsEngine.v] are the SQL in front of the stores.
    - [internal/engine/sql/system], [internal/systemids]: [SystemHeap.v], the stores of the
      system tables, over any key-value store.
    - [internal/catalog]: [Catalog.v], tables, users, roles and grants in heap tables and in
      a cache; [CatalogProof.v] relates the cache to an abstract policy.
    - [internal/lifecycle], [internal/runtime]: [Lifecycle.v], the manager of the parts of
      the server, its calls also as interleaved steps, and the runtime over it.
    - [internal/router]: [Router.v], over the interface [RouterCatalog], which the catalog
      implements.
    - [internal/server]: [Server.v], the PostgreSQL wire protocol: messages, sessions over
      any parser and router ([Backend]), the throttle of connections, and the server over
      the router and the catalog.
    - [internal/config], [internal/logger]: [Config.v].

    [OrdMap.v] is the ordered map that both stores implement, [Monad.v] the
    state-and-error monad of the stateful components, [GoRuntime.v] what Go leaves
    open (map iteration order, ties in [sort.Slice]), [GoFmt.v] what the
    code uses of [fmt], and [Examples.v], [ExamplesEngine.v],
    [ExamplesMetrics.v], [ExamplesLogs.v], [ExamplesCatalog.v] the
    theorems at concrete inputs.

    ** How code becomes definitions

    A Go method that reads or writes state is a function [st S E A] from the state to
    a result or error and the new state; what it changed before failing stays changed.
    Integers are [Z] with the wrap-around of their width where it can occur; slices are
    lists with Go's slice expressions [slice], [copy_into] from this file; maps are
    [gmap]s, visited in an order that [MapRange] or [GoRuntime] leaves open.  Locks are
    not modelled: most exported methods take one for their whole run, so each is one
    atomic step.  [TxManager.v], [VacuumManager.v], the manager of [Lifecycle.v] and the
    throttle of [Server.v] are step relations of goroutines; the catalog lets go of its lock during I/O, of which
    [CatalogProof.create_role_races] shows a consequence, and is atomic otherwise.
    Statements run one at a time.  A [context.Context] is its error, [None] while it is not cancelled.

    ** What the theorems show

    - Files to maps: [BTreeSpec.kv_end_to_end], [PagerTrace.pager_run_refines],
      [BTreeSpec.kv_run_refines]: runs of requests get the answers of an abstract page
      store and of an ordered map.
    - Crashes: [PagerCrash.commit_crash_atomic] (a commit whose I/O fails anywhere is
      all or nothing), [crash_recovers_committed], [txn_write_crash_safe],
      [BTreeSpec.kv_crash_durable], [HeapSpec.heap_end_to_end].
    - Tables: [HeapSpec.heap_run_refines] (several tables in one store are independent
      multi-version maps), [insert_snapshot], [scan_visible_rows], [vacuum_invisible].
    - Formats: round trips and damage detection in [Page.v], [KvNode.v], [Key.v],
      [RowKey.v], [HeapValue.v]; key order in [Key.v] and [RowKey.v].
    - Queries: [Translate.translated_query_returns] (from a SELECT statement to its
      rows), the joins and grouping in [PlannerSpec.v], type soundness of expressions in
      [Expr.v] and of their binding in [Binder.v].
    - Statements: [SqlEngineProof.select_end_to_end] (a SELECT from its statement to the
      rows in the store) and [insert_values_rows]; [VacuumManager.deletions_carried_out].
    - Metrics and logs: [Metrics.store_refines_list] and [Logs.logs_refine_list]
      (a store is a list, through restarts and crashes), [TagIndexProof.index_answers_as_scan]
      and [LogQuery.index_answers_tokens] (answers from the indexes),
      [Rollup.downsample_then_scan], [Logs.sweep_frees_expired],
      [Gorilla.gorilla_roundtrip], [LogBlock.block_pages_roundtrip].
    - The catalog: [CatalogProof.catalog_run_refines] (runs of requests get the answers of a
      policy), [check_permission_policy], [authenticate_keeps_password];
      [SystemHeap.system_table_refines] (a system table is a map);
      [Router.route_checks_permission] (what reaches an engine is permitted, except what
      an INSERT ... SELECT reads, [Router.insert_select_reads_unchecked]);
      [Lifecycle.lifecycle_order] (the order of starts and stops under interleaving).
    - The wire protocol: [Server.query_reply] (what a client reads of a query),
      [Server.session_ends], [Server.throttle_bounds]; a loaded configuration is a valid one
      ([Config.loaded_config_valid]).
    - SQL on points and logs: [MetricsEngine.metrics_insert_select],
      [LogsEngine.logs_insert_select].
    - The server as it is put together: [CatalogProof.catalog_without_heap_stays_empty],
      [MetricsEngine.wired_metrics_store_nothing], [Lifecycle.run_stops_at_once],
      [Server.server_denies_everyone].
    - Defects: theorems that exhibit them, such as [SqlEngineProof.cached_plan_ignores_literals],
      [BTreeMaintProof.compact_loses_keys], [BTreeMaintProof.compact_loses_large_value],
      [Router.insert_select_reads_unchecked], [PagerTrace.alloc_crash_destroys_file].

    ** Bounds and fuel

    Loops that follow page pointers take fuel.  [walk_bound], one step per page a
    pager can have, is always enough (a walk never meets a page twice), which
    [BTreeSpec.kv_scan_refines] and [KvTree.v] prove; other theorems give the height of
    the tree as the bound.  Page numbers stay below [max_pages] = 2^51, where byte
    offsets still fit an [int64]; the theorems about growing state take the room left
    as a hypothesis.  The theorems about Set are for values of at most [MaxValSize] =
    512 bytes, which the tree keeps in its leaves; larger values go to overflow
    chains, whose operations are modelled but lose data ([KvNode.reencode_loses_overflow],
    [BTreeSpec.set_loses_large_value]).  Compact is proved for at most 399 entries and
    values of at most 512 bytes, and shown wrong for 400 entries and for a larger value
    ([BTreeMaintProof.compact_loses_keys], [compact_loses_large_value]).  Tables are proved
    for primary keys without [KindBytes] columns, key strings without NUL and rows of at
    most 512 encoded bytes, and shown wrong without the first two
    ([HeapSpec.bytes_keys_overlap], [nul_keys_overlap]).

    Plans are proved for rows without NULL (grouping allows it), for conditions built with
    AND and OR from =, <, >, IN and BETWEEN (the other comparisons fail on every row,
    [Binder.other_comparison_never_evaluates]), for sorting by integers and strings and for
    groups that are not floats.  LIMIT 0 returns all rows
    ([Translate.translated_query_returns]); SUM over unsigned integers is the first of them
    ([Agg.summed]).  The engine runs the plan that its cache has under the fingerprint of a
    statement, so that [SqlEngineProof.select_end_to_end] names the statement whose plan is
    used.  The end of a session is proved for streams of rows that end
    ([Server.session_ends]), and the answers of the tag index against the scan for queries
    with an upper time bound; without one the two differ
    ([TagIndexProof.index_answers_as_scan] says how).

    ** Not modelled

    The goroutines of the rollups and of the retention only repeat [Rollup.tick] and
    [Logs.sweep].  Parsing is the Vitess library's, whose source is not in the repository;
    [json], bcrypt and SHA-256, [strconv.ParseFloat] and Unicode tables are interfaces.
    Of [runtime.New] the order of the parts is modelled, the construction of each is a
    parameter; what it wires together is in the theorems named above.  Of the server
    the listener and its goroutines are left out and TLS is a parameter; log output and the command are
    process input and output around these parts. *)

From Stdlib Require Import ZArith Lia Bool.
From Stdlib Require Export Strings.Byte.
From stdpp Require Export base numbers list.
Open Scope Z_scope.

Create HintDb plomvix.

(** * Results: Go's [(value, error)] pairs *)

Inductive res (E A : Type) : Type :=
| Ok (a : A)
| Err (e : E).
Arguments Ok {E A} a.
Arguments Err {E A} e.

#[export] Instance res_ret {E} : MRet (res E) := fun A a => Ok a.
#[export] Instance res_bind {E} : MBind (res E) :=
  fun A B f r => match r with Ok a => f a | Err e => Err e end.

Lemma res_bind_ok {E A B} (a : A) (f : A -> res E B) : (Ok a ≫= f) = f a.
Proof. done. Qed.

Lemma res_bind_err {E A B} (e : E) (f : A -> res E B) : (Err e ≫= f) = Err e.
Proof. done. Qed.

Definition is_ok {E A} (r : res E A) : bool :=
  match r with Ok _ => true | Err _ => false end.

(** * Bytes *)

(** The value of a Go [byte]. *)
Definition b2z (b : byte) : Z := Z.of_N (Byte.to_N b).

(** Go's conversion [byte(x)]: the low eight bits. *)
Definition z2b (z : Z) : byte :=
  match Byte.of_N (Z.to_N (z mod 256)) with Some b => b | None => x00 end.

#[export] Instance byte_eq_dec : EqDecision byte.
Proof. intros a b. destruct (Byte.eqb a b) eqn:E.
  - left. by apply Byte.byte_dec_bl.
  - right. intros ->. by rewrite Byte.byte_dec_lb in E.
Defined.

Lemma b2z_range b : 0 <= b2z b < 256.
Proof. unfold b2z. pose proof (Byte.to_N_bounded b). lia. Qed.

Lemma z2b_b2z b : z2b (b2z b) = b.
Proof.
  unfold z2b. rewrite Z.mod_small by apply b2z_range.
  unfold b2z. rewrite N2Z.id. by rewrite Byte.of_to_N.
Qed.

Lemma b2z_z2b z : b2z (z2b z) = z mod 256.
Proof.
  unfold z2b, b2z. pose proof (Z.mod_pos_bound z 256 ltac:(lia)).
  destruct (Byte.of_N (Z.to_N (z mod 256))) eqn:E.
  - apply Byte.to_of_N in E. rewrite E. lia.
  - apply Byte.of_N_None_iff in E. lia.
Qed.

(** * Go integers *)

(** [uint64(x)], [uint32(x)], [uint16(x)]: reduction modulo the width. *)
Definition wrap64 (z : Z) : Z := z mod 2 ^ 64.
Definition wrap32 (z : Z) : Z := z mod 2 ^ 32.
Definition wrap16 (z : Z) : Z := z mod 2 ^ 16.

(** [int64(x)]: two's complement reading of the low 64 bits. *)
Definition swrap64 (z : Z) : Z := (z + 2 ^ 63) mod 2 ^ 64 - 2 ^ 63.

(** The ranges of the Go types. *)
Definition u64 (z : Z) : Prop := 0 <= z < 2 ^ 64.
Definition i64 (z : Z) : Prop := - 2 ^ 63 <= z < 2 ^ 63.

Lemma wrap64_id z : u64 z -> wrap64 z = z.
Proof. apply Z.mod_small. Qed.

Lemma swrap64_id z : i64 z -> swrap64 z = z.
Proof. unfold i64, swrap64. intros. rewrite Z.mod_small by lia. lia. Qed.

Lemma swrap64_wrap64 z : i64 z -> swrap64 (wrap64 z) = z.
Proof.
  unfold i64, swrap64, wrap64. intros.
  rewrite Zplus_mod_idemp_l, Z.mod_small by lia. lia.
Qed.

Lemma wrap64_range z : u64 (wrap64 z).
Proof. apply Z.mod_pos_bound. lia. Qed.

Lemma compare_add_r c x y : Z.compare (x + c) (y + c) = Z.compare x y.
Proof. rewrite !(Z.add_comm _ c). apply Z.add_compare_mono_l. Qed.

(** * Slices: lists indexed by Go's [int] *)

Section slices.
Context {A : Type}.
Implicit Types (l d : list A) (a b n x y : Z).

Definition zlen l : Z := Z.of_nat (length l).
Definition ztake n l : list A := take (Z.to_nat n) l.
Definition zdrop n l : list A := drop (Z.to_nat n) l.

(** [l[a:b]] *)
Definition slice l a b : list A := ztake (b - a) (zdrop a l).

(** [l] with the elements from [a] on overwritten by [d], as [copy(l[a:], d)]
    does when [d] fits. *)
Definition splice l a d : list A := ztake a l ++ d ++ zdrop (a + zlen d) l.

(** [copy(l[a:b], d)]: as many elements as both sides have. *)
Definition copy_into l a b d : list A := splice l a (ztake (b - a) d).

Definition zrep n (x : A) : list A := replicate (Z.to_nat n) x.

Lemma zlen_nonneg l : 0 <= zlen l.
Proof. unfold zlen. lia. Qed.

Lemma zlen_nil : zlen [] = 0.
Proof. done. Qed.

Lemma zlen_cons (e : A) l : zlen (e :: l) = 1 + zlen l.
Proof. unfold zlen. simpl length. lia. Qed.

Lemma zlen_app l d : zlen (l ++ d) = zlen l + zlen d.
Proof. unfold zlen. rewrite length_app. lia. Qed.

Lemma zlen_rep n (e : A) : 0 <= n -> zlen (zrep n e) = n.
Proof. unfold zlen, zrep. rewrite length_replicate. lia. Qed.

Lemma zlen_ztake n l : 0 <= n <= zlen l -> zlen (ztake n l) = n.
Proof. unfold zlen, ztake. rewrite length_take. lia. Qed.

Lemma zlen_ztake_min n l : 0 <= n -> zlen (ztake n l) = Z.min n (zlen l).
Proof. unfold zlen, ztake. rewrite length_take. lia. Qed.

Lemma zlen_zdrop n l : 0 <= n <= zlen l -> zlen (zdrop n l) = zlen l - n.
Proof. unfold zlen, zdrop. rewrite length_drop. lia. Qed.

Lemma zlen_slice l a b : 0 <= a <= b -> b <= zlen l -> zlen (slice l a b) = b - a.
Proof. intros. unfold slice. rewrite zlen_ztake; [done|]. rewrite zlen_zdrop; lia. Qed.

Lemma zlen_splice l a d : 0 <= a -> a + zlen d <= zlen l -> zlen (splice l a d) = zlen l.
Proof.
  intros. pose proof (zlen_nonneg d). unfold splice.
  rewrite !zlen_app, zlen_ztake, zlen_zdrop by lia. lia.
Qed.

Lemma zlen_copy_into l a b d :
  0 <= a <= b -> b <= zlen l -> zlen (copy_into l a b d) = zlen l.
Proof.
  intros. unfold copy_into. apply zlen_splice; [lia|].
  rewrite zlen_ztake_min by lia. lia.
Qed.

Lemma ztake_all n l : zlen l <= n -> ztake n l = l.
Proof. unfold zlen, ztake. intros. apply take_ge. lia. Qed.

Lemma zdrop_0 l : zdrop 0 l = l.
Proof. done. Qed.

Lemma ztake_0 l : ztake 0 l = [].
Proof. done. Qed.

Lemma zdrop_all n l : zlen l <= n -> zdrop n l = [].
Proof. unfold zlen, zdrop. intros. apply drop_ge. lia. Qed.

Lemma ztake_zdrop n l : ztake n l ++ zdrop n l = l.
Proof. apply take_drop. Qed.

Lemma ztake_app_l n l d : n <= zlen l -> ztake n (l ++ d) = ztake n l.
Proof. unfold zlen, ztake. intros. apply take_app_le. lia. Qed.

Lemma ztake_app_eq n l d : n = zlen l -> ztake n (l ++ d) = l.
Proof. intros ->. rewrite ztake_app_l, ztake_all; done || lia. Qed.

Lemma ztake_app_r n l d : zlen l <= n -> ztake n (l ++ d) = l ++ ztake (n - zlen l) d.
Proof.
  unfold zlen, ztake. intros. rewrite take_app_ge by lia.
  do 2 f_equal. lia.
Qed.

Lemma zdrop_app_l n l d : n <= zlen l -> zdrop n (l ++ d) = zdrop n l ++ d.
Proof. unfold zlen, zdrop. intros. apply drop_app_le. lia. Qed.

Lemma zdrop_app_r n l d : zlen l <= n -> zdrop n (l ++ d) = zdrop (n - zlen l) d.
Proof. unfold zlen, zdrop. intros. rewrite drop_app_ge by lia. f_equal. lia. Qed.

Lemma zdrop_app_eq n l d : n = zlen l -> zdrop n (l ++ d) = d.
Proof. intros ->. rewrite zdrop_app_r, Z.sub_diag by lia. done. Qed.

Lemma zdrop_zdrop m n l : 0 <= m -> 0 <= n -> zdrop m (zdrop n l) = zdrop (n + m) l.
Proof. unfold zdrop. intros. rewrite drop_drop. f_equal. lia. Qed.

Lemma ztake_ztake m n l : ztake m (ztake n l) = ztake (Z.min m n) l.
Proof. unfold ztake. rewrite take_take. f_equal. lia. Qed.

Lemma zdrop_ztake m n l : 0 <= m -> zdrop m (ztake n l) = ztake (n - m) (zdrop m l).
Proof.
  unfold zdrop, ztake. intros. rewrite skipn_firstn_comm. f_equal. lia.
Qed.

Lemma slice_full l a b : a = 0 -> b = zlen l -> slice l a b = l.
Proof. intros -> ->. unfold slice. rewrite zdrop_0. apply ztake_all. lia. Qed.

Lemma slice_slice l a b x y :
  0 <= a -> 0 <= x -> y <= b - a -> slice (slice l a b) x y = slice l (a + x) (a + y).
Proof.
  intros. unfold slice. rewrite zdrop_ztake, ztake_ztake, zdrop_zdrop by lia.
  f_equal. lia.
Qed.

Lemma slice_app_l l d a b : 0 <= a -> b <= zlen l -> slice (l ++ d) a b = slice l a b.
Proof.
  intros. unfold slice. destruct (decide (a <= zlen l)).
  - rewrite zdrop_app_l by lia. apply ztake_app_l. rewrite zlen_zdrop; lia.
  - unfold ztake. replace (Z.to_nat (b - a)) with 0%nat by lia. done.
Qed.

Lemma slice_app_r l d a b :
  zlen l <= a -> slice (l ++ d) a b = slice d (a - zlen l) (b - zlen l).
Proof. intros. unfold slice. rewrite zdrop_app_r by lia. f_equal. lia. Qed.

Lemma slice_nil a b : slice (@nil A) a b = [].
Proof. unfold slice, ztake, zdrop. rewrite drop_nil, take_nil. done. Qed.

Lemma slice_split l a b x : 0 <= a <= x -> x <= b -> slice l a b = slice l a x ++ slice l x b.
Proof.
  intros. unfold slice. rewrite <- (ztake_zdrop (x - a) (ztake (b - a) (zdrop a l))).
  rewrite ztake_ztake, zdrop_ztake, zdrop_zdrop by lia.
  f_equal; [f_equal; lia|]. replace (a + (x - a)) with x by lia. f_equal. lia.
Qed.

Lemma slice_to_end l a b : zlen l <= b -> 0 <= a -> slice l a b = zdrop a l.
Proof.
  intros. unfold slice, ztake, zdrop, zlen in *. apply take_ge.
  rewrite length_drop. lia.
Qed.

Lemma slice_splice_eq l a b d :
  0 <= a -> a + zlen d <= zlen l -> b = a + zlen d -> slice (splice l a d) a b = d.
Proof.
  intros ? ? ->. unfold splice.
  rewrite slice_app_r; rewrite zlen_ztake by (pose proof (zlen_nonneg d); lia); [|lia].
  rewrite slice_app_l by lia. apply slice_full; lia.
Qed.

Lemma slice_splice_in l a d x y :
  0 <= a -> a + zlen d <= zlen l -> a <= x -> y <= a + zlen d ->
  slice (splice l a d) x y = slice d (x - a) (y - a).
Proof.
  intros. unfold splice.
  rewrite slice_app_r; rewrite zlen_ztake by (pose proof (zlen_nonneg d); lia); [|lia].
  by rewrite slice_app_l by lia.
Qed.

Lemma slice_splice_l l a d x y :
  0 <= x -> y <= a -> a <= zlen l -> slice (splice l a d) x y = slice l x y.
Proof.
  intros. unfold splice. destruct (decide (x <= a)).
  - rewrite slice_app_l; [|lia|rewrite zlen_ztake; lia].
    unfold slice. rewrite zdrop_ztake, ztake_ztake by lia. f_equal. lia.
  - unfold slice, ztake. replace (Z.to_nat (y - x)) with 0%nat by lia. done.
Qed.

Lemma slice_splice_r l a d x y :
  0 <= a -> a + zlen d <= zlen l -> a + zlen d <= x -> slice (splice l a d) x y = slice l x y.
Proof.
  intros. pose proof (zlen_nonneg d). unfold splice.
  rewrite slice_app_r; rewrite zlen_ztake by lia; [|lia].
  rewrite slice_app_r by lia. unfold slice.
  rewrite zdrop_zdrop by lia. f_equal; [lia|]. f_equal. lia.
Qed.

(** Two ways to cut one list. *)
Lemma app_split l d l' d' :
  l ++ d = l' ++ d' -> zlen l <= zlen l' -> exists c, l' = l ++ c /\ d = c ++ d'.
Proof.
  intros H Hl. exists (zdrop (zlen l) l').
  assert (ztake (zlen l) (l ++ d) = ztake (zlen l) (l' ++ d')) as Ht by (by rewrite H).
  assert (zdrop (zlen l) (l ++ d) = zdrop (zlen l) (l' ++ d')) as Hd by (by rewrite H).
  rewrite ztake_app_eq, ztake_app_l in Ht by done. rewrite zdrop_app_eq, zdrop_app_l in Hd by done.
  split; [|done]. rewrite Ht at 1. symmetry. apply ztake_zdrop.
Qed.

Lemma zrep_slice n (e : A) a b : 0 <= a <= b -> b <= n -> slice (zrep n e) a b = zrep (b - a) e.
Proof.
  intros. unfold slice, ztake, zdrop, zrep.
  rewrite drop_replicate, take_replicate. f_equal. lia.
Qed.

Lemma zrep_nil n (e : A) : n <= 0 -> zrep n e = [].
Proof. intros. unfold zrep. by replace (Z.to_nat n) with 0%nat by lia. Qed.

Lemma zdrop_zrep a n (e : A) : 0 <= a <= n -> zdrop a (zrep n e) = zrep (n - a) e.
Proof. intros. unfold zdrop, zrep. rewrite drop_replicate. f_equal. lia. Qed.

Lemma ztake_zrep a n (e : A) : 0 <= a <= n -> ztake a (zrep n e) = zrep a e.
Proof. intros. unfold ztake, zrep. rewrite take_replicate. f_equal. lia. Qed.

(** Writing into a zero-filled buffer, and behind what was written before. *)
Lemma splice_zrep n (e : A) a d :
  0 <= a -> a + zlen d <= n -> splice (zrep n e) a d = zrep a e ++ d ++ zrep (n - a - zlen d) e.
Proof.
  intros. pose proof (zlen_nonneg d). unfold splice.
  rewrite ztake_zrep, zdrop_zrep by lia. do 2 f_equal. f_equal. lia.
Qed.

Lemma splice_app_r l r a d :
  zlen l <= a -> splice (l ++ r) a d = l ++ splice r (a - zlen l) d.
Proof.
  intros. pose proof (zlen_nonneg d). unfold splice.
  rewrite ztake_app_r, zdrop_app_r, <- app_assoc by lia. do 3 f_equal. f_equal. lia.
Qed.

Lemma zrep_app n m (e : A) : 0 <= n -> 0 <= m -> zrep n e ++ zrep m e = zrep (n + m) e.
Proof. intros. unfold zrep. rewrite <- replicate_add. f_equal. lia. Qed.

End slices.

(** [zlia]: linear arithmetic after computing the lengths of the lists that
    occur, by their head constructor only (unification would unfold them). *)
Ltac znil :=
  repeat match goal with
  | |- context [zlen (@nil ?A)] => change (zlen (@nil A)) with 0
  | H : context [zlen (@nil ?A)] |- _ => change (zlen (@nil A)) with 0 in H
  end.

(** * encoding/binary: big- and little-endian integers *)

(** [PutUintN]: the [n] low bytes of [z], most significant first. *)
Fixpoint be_encode (n : nat) (z : Z) : list byte :=
  match n with
  | O => []
  | S n' => z2b (Z.shiftr z (8 * Z.of_nat n')) :: be_encode n' z
  end.

(** [UintN]: the number a big-endian byte string denotes. *)
Fixpoint be_decode_acc (acc : Z) (l : list byte) : Z :=
  match l with
  | [] => acc
  | b :: l' => be_decode_acc (acc * 256 + b2z b) l'
  end.

Definition be_decode (l : list byte) : Z := be_decode_acc 0 l.

(** The little-endian variants. *)
Definition le_encode (n : nat) (z : Z) : list byte := rev (be_encode n z).
Definition le_decode (l : list byte) : Z := be_decode (rev l).

Lemma zlen_be_encode n z : zlen (be_encode n z) = Z.of_nat n.
Proof. induction n; simpl; [done|]. rewrite zlen_cons. lia. Qed.

Lemma length_be_encode n z : length (be_encode n z) = n.
Proof. pose proof (zlen_be_encode n z). unfold zlen in *. lia. Qed.

Lemma zlen_le_encode n z : zlen (le_encode n z) = Z.of_nat n.
Proof. unfold le_encode, zlen. rewrite length_rev. apply zlen_be_encode. Qed.

Ltac zlen_goal t side :=
  lazymatch t with
  | ?a ++ ?b => rewrite (zlen_app a b)
  | ?a :: ?b => rewrite (zlen_cons a b)
  | be_encode ?n ?z => rewrite (zlen_be_encode n z)
  | le_encode ?n ?z => rewrite (zlen_le_encode n z)
  | zrep ?n ?e => rewrite (zlen_rep n e) by side
  | ztake ?n ?l => rewrite (zlen_ztake n l) by side
  | zdrop ?n ?l => rewrite (zlen_zdrop n l) by side
  | slice ?l ?a ?b => rewrite (zlen_slice l a b) by side
  | splice ?l ?a ?d => rewrite (zlen_splice l a d) by side
  | copy_into ?l ?a ?b ?d => rewrite (zlen_copy_into l a b d) by side
  end.

Ltac zlen_hyp H t side :=
  lazymatch t with
  | ?a ++ ?b => rewrite (zlen_app a b) in H
  | ?a :: ?b => rewrite (zlen_cons a b) in H
  | be_encode ?n ?z => rewrite (zlen_be_encode n z) in H
  | le_encode ?n ?z => rewrite (zlen_le_encode n z) in H
  | zrep ?n ?e => rewrite (zlen_rep n e) in H by side
  | ztake ?n ?l => rewrite (zlen_ztake n l) in H by side
  | zdrop ?n ?l => rewrite (zlen_zdrop n l) in H by side
  | slice ?l ?a ?b => rewrite (zlen_slice l a b) in H by side
  | splice ?l ?a ?d => rewrite (zlen_splice l a d) in H by side
  | copy_into ?l ?a ?b ?d => rewrite (zlen_copy_into l a b d) in H by side
  end.

Ltac znonneg :=
  repeat match goal with l : list _ |- _ =>
    match goal with H : 0 <= zlen l |- _ => fail 1 | _ => pose proof (zlen_nonneg l) end end.

(** For the side conditions: the lengths in the goal only. *)
Ltac zside :=
  znil; repeat match goal with |- context [zlen ?t] => zlen_goal t zside; znil end; lia.

Ltac zlia :=
  znonneg; znil;
  repeat match goal with
  | |- context [zlen ?t] => zlen_goal t zside; znil
  | H : context [zlen ?t] |- _ => zlen_hyp H t zside; znil
  end; lia.

Lemma be_decode_acc_encode n z acc :
  be_decode_acc acc (be_encode n z) = acc * 2 ^ (8 * Z.of_nat n) + z mod 2 ^ (8 * Z.of_nat n).
Proof.
  revert acc. induction n as [|n IH]; intros acc; cbn [be_encode be_decode_acc].
  { change (2 ^ (8 * Z.of_nat 0)) with 1. rewrite Z.mod_1_r. lia. }
  rewrite IH, b2z_z2b, Z.shiftr_div_pow2 by lia.
  replace (8 * Z.of_nat (S n)) with (8 * Z.of_nat n + 8) by lia.
  rewrite Z.pow_add_r by lia. change (2 ^ 8) with 256.
  pose proof (Z.pow_pos_nonneg 2 (8 * Z.of_nat n) ltac:(lia) ltac:(lia)).
  rewrite (Z.rem_mul_r z) by lia. lia.
Qed.

Lemma be_decode_encode n z :
  0 <= z < 2 ^ (8 * Z.of_nat n) -> be_decode (be_encode n z) = z.
Proof.
  intros. unfold be_decode. rewrite be_decode_acc_encode, Z.mod_small by lia. lia.
Qed.

Lemma le_decode_encode n z :
  0 <= z < 2 ^ (8 * Z.of_nat n) -> le_decode (le_encode n z) = z.
Proof.
  intros. unfold le_decode, le_encode. rewrite rev_involutive. by apply be_decode_encode.
Qed.

Lemma be_decode_acc_range l acc m :
  0 <= acc < m -> 0 <= be_decode_acc acc l < m * 2 ^ (8 * zlen l).
Proof.
  revert acc m. induction l as [|b l IH]; intros acc m H; cbn [be_decode_acc].
  { znil. change (2 ^ (8 * 0)) with 1. lia. }
  pose proof (b2z_range b).
  specialize (IH (acc * 256 + b2z b) (m * 256) ltac:(lia)).
  rewrite zlen_cons. pose proof (zlen_nonneg l).
  replace (8 * (1 + zlen l)) with (8 + 8 * zlen l) by lia.
  rewrite Z.pow_add_r by lia. lia.
Qed.

Lemma be_decode_range l : 0 <= be_decode l < 2 ^ (8 * zlen l).
Proof. pose proof (be_decode_acc_range l 0 1 ltac:(lia)). unfold be_decode. lia. Qed.

Lemma be_decode_u64 l : zlen l = 8 -> u64 (be_decode l).
Proof. intros H. pose proof (be_decode_range l). rewrite H in *. done. Qed.

Lemma be_decode_acc_shift l acc :
  be_decode_acc acc l = acc * 2 ^ (8 * zlen l) + be_decode_acc 0 l.
Proof.
  revert acc. induction l as [|c l IH]; intros acc; cbn [be_decode_acc].
  { znil. change (2 ^ (8 * 0)) with 1. lia. }
  rewrite IH, (IH (0 * 256 + b2z c)), zlen_cons. pose proof (zlen_nonneg l).
  replace (8 * (1 + zlen l)) with (8 + 8 * zlen l) by lia.
  rewrite Z.pow_add_r by lia. lia.
Qed.

Lemma be_encode_decode_acc l acc n :
  n = length l -> be_encode n (be_decode_acc acc l) = l.
Proof.
  revert acc n. induction l as [|b l IH]; intros acc n ->; [done|].
  cbn [length be_encode be_decode_acc]. rewrite IH by done. f_equal.
  rewrite (be_decode_acc_shift l (acc * 256 + b2z b)).
  fold (zlen l). rewrite Z.shiftr_div_pow2 by (pose proof (zlen_nonneg l); lia).
  pose proof (be_decode_range l) as Hr. unfold be_decode in Hr.
  rewrite Z.div_add_l by lia. rewrite (Z.div_small (be_decode_acc 0 l)) by lia.
  rewrite Z.add_0_r. transitivity (z2b (b2z b)); [|apply z2b_b2z].
  unfold z2b. f_equal. rewrite Z.add_comm, Z_mod_plus_full. done.
Qed.

Lemma be_encode_decode l n : n = length l -> be_encode n (be_decode l) = l.
Proof. apply be_encode_decode_acc. Qed.

Lemma be_encode_inj n x y :
  0 <= x < 2 ^ (8 * Z.of_nat n) -> 0 <= y < 2 ^ (8 * Z.of_nat n) ->
  be_encode n x = be_encode n y -> x = y.
Proof.
  intros Hx Hy H. rewrite <- (be_decode_encode n x Hx), <- (be_decode_encode n y Hy).
  by rewrite H.
Qed.

(** * bytes.Compare *)

(** Lexicographic comparison; [Lt], [Eq], [Gt] stand for Go's -1, 0, 1. *)
Fixpoint bytes_compare (a b : list byte) : comparison :=
  match a, b with
  | [], [] => Eq
  | [], _ :: _ => Lt
  | _ :: _, [] => Gt
  | x :: a', y :: b' =>
      match Z.compare (b2z x) (b2z y) with
      | Eq => bytes_compare a' b'
      | c => c
      end
  end.

Definition bytes_lt (a b : list byte) : Prop := bytes_compare a b = Lt.
Definition bytes_le (a b : list byte) : Prop := bytes_compare a b <> Gt.

Lemma b2z_inj a b : b2z a = b2z b -> a = b.
Proof. intros H. by rewrite <- (z2b_b2z a), <- (z2b_b2z b), H. Qed.

Lemma bytes_compare_refl a : bytes_compare a a = Eq.
Proof. induction a; simpl; [done|]. by rewrite Z.compare_refl. Qed.

Lemma bytes_compare_eq a b : bytes_compare a b = Eq <-> a = b.
Proof.
  split; [|intros ->; apply bytes_compare_refl].
  revert b. induction a as [|x a IH]; intros [|y b]; simpl; try done.
  destruct (Z.compare_spec (b2z x) (b2z y)) as [H| |]; try done.
  intros Hc. f_equal; [by apply b2z_inj|by apply IH].
Qed.

Lemma bytes_compare_antisym a b : bytes_compare b a = CompOpp (bytes_compare a b).
Proof.
  revert b. induction a as [|x a IH]; intros [|y b]; simpl; try done.
  rewrite (Z.compare_antisym (b2z x) (b2z y)).
  destruct (Z.compare (b2z x) (b2z y)); simpl; done || apply IH.
Qed.

Lemma bytes_lt_trans a b c : bytes_lt a b -> bytes_lt b c -> bytes_lt a c.
Proof.
  unfold bytes_lt. revert b c.
  induction a as [|x a IH]; intros [|y b] [|z c]; simpl; try done.
  destruct (Z.compare_spec (b2z x) (b2z y)), (Z.compare_spec (b2z y) (b2z z)),
    (Z.compare_spec (b2z x) (b2z z)); try done; try lia. apply IH.
Qed.

Lemma bytes_lt_irrefl a : ~ bytes_lt a a.
Proof. unfold bytes_lt. by rewrite bytes_compare_refl. Qed.

Lemma bytes_le_lt_trans a b c : bytes_le a b -> bytes_lt b c -> bytes_lt a c.
Proof.
  unfold bytes_le. intros Hab. destruct (bytes_compare a b) eqn:E; [|by apply bytes_lt_trans|done].
  apply bytes_compare_eq in E as ->. done.
Qed.

Lemma bytes_lt_le_trans a b c : bytes_lt a b -> bytes_le b c -> bytes_lt a c.
Proof.
  intros Hab Hbc. unfold bytes_le in Hbc.
  destruct (bytes_compare b c) eqn:E; [|by eapply bytes_lt_trans|done].
  apply bytes_compare_eq in E as ->. done.
Qed.

Lemma bytes_lt_le a b : bytes_lt a b -> bytes_le a b.
Proof. unfold bytes_lt, bytes_le. by intros ->. Qed.

Lemma bytes_le_trans a b c : bytes_le a b -> bytes_le b c -> bytes_le a c.
Proof.
  intros Hab Hbc. unfold bytes_le in Hab. destruct (bytes_compare a b) eqn:E; [| |done].
  - by apply bytes_compare_eq in E as ->.
  - apply bytes_lt_le. by eapply bytes_lt_le_trans.
Qed.

Lemma bytes_le_refl a : bytes_le a a.
Proof. unfold bytes_le. by rewrite bytes_compare_refl. Qed.

Lemma bytes_not_lt a b : bytes_compare a b <> Lt <-> bytes_le b a.
Proof. unfold bytes_le. rewrite (bytes_compare_antisym a b). by destruct (bytes_compare a b). Qed.

Lemma bytes_gt_lt a b : bytes_compare a b = Gt <-> bytes_lt b a.
Proof. unfold bytes_lt. rewrite (bytes_compare_antisym a b). by destruct (bytes_compare a b). Qed.

#[export] Hint Resolve bytes_le_refl bytes_lt_le bytes_lt_trans bytes_le_lt_trans
  bytes_lt_le_trans bytes_le_trans : plomvix.

(** A common prefix does not change a comparison. *)
Lemma bytes_compare_app p a b : bytes_compare (p ++ a) (p ++ b) = bytes_compare a b.
Proof. induction p; simpl; [done|]. by rewrite Z.compare_refl. Qed.

(** Two different strings of one length decide the comparison of whatever follows. *)
Lemma bytes_compare_app_len p q a b :
  length p = length q -> p <> q -> bytes_compare (p ++ a) (q ++ b) = bytes_compare p q.
Proof.
  revert q. induction p as [|x p IH]; intros [|y q]; simpl; try done.
  intros Hl Hne. destruct (Z.compare_spec (b2z x) (b2z y)) as [E| |]; try done.
  apply IH; [lia|]. intros ->. apply b2z_inj in E as ->. done.
Qed.

(** Big-endian encodings of one width compare as the numbers do. *)
Lemma bytes_compare_be_encode n x y :
  0 <= x < 2 ^ (8 * Z.of_nat n) -> 0 <= y < 2 ^ (8 * Z.of_nat n) ->
  bytes_compare (be_encode n x) (be_encode n y) = Z.compare x y.
Proof.
  assert (forall n x y, bytes_compare (be_encode n x) (be_encode n y)
     = Z.compare (x mod 2 ^ (8 * Z.of_nat n)) (y mod 2 ^ (8 * Z.of_nat n))) as H.
  { clear. induction n as [|n IH]; intros x y; cbn [be_encode bytes_compare].
    { change (2 ^ (8 * Z.of_nat 0)) with 1. by rewrite !Z.mod_1_r. }
    rewrite IH, !b2z_z2b, !Z.shiftr_div_pow2 by lia.
    replace (8 * Z.of_nat (S n)) with (8 * Z.of_nat n + 8) by lia.
    rewrite Z.pow_add_r by lia. change (2 ^ 8) with 256.
    pose proof (Z.pow_pos_nonneg 2 (8 * Z.of_nat n) ltac:(lia) ltac:(lia)) as Hp.
    rewrite !(Z.rem_mul_r _ (2 ^ (8 * Z.of_nat n))) by lia.
    pose proof (Z.mod_pos_bound x (2 ^ (8 * Z.of_nat n)) Hp).
    pose proof (Z.mod_pos_bound y (2 ^ (8 * Z.of_nat n)) Hp).
    set (p := 2 ^ (8 * Z.of_nat n)) in *.
    destruct (Z.compare_spec ((x / p) mod 256) ((y / p) mod 256)) as [E|E|E].
    - rewrite E. destruct (Z.compare_spec (x mod p) (y mod p)); symmetry.
      + apply Z.compare_eq_iff. lia.
      + apply Z.compare_lt_iff. lia.
      + apply Z.compare_gt_iff. lia.
    - symmetry. apply Z.compare_lt_iff. nia.
    - symmetry. apply Z.compare_gt_iff. nia. }
  intros. by rewrite H, !Z.mod_small.
Qed.

#[global] Arguments be_encode : simpl never.
#[global] Arguments be_decode : simpl never.
#[global] Arguments le_encode : simpl never.
#[global] Arguments le_decode : simpl never.
#[global] Arguments zlen {A} l : simpl never.
#[global] Arguments ztake {A} n l : simpl never.
#[global] Arguments zdrop {A} n l : simpl never.
#[global] Arguments zrep {A} n x : simpl never.
#[global] Arguments slice {A} l a b : simpl never.
#[global] Arguments splice {A} l a d : simpl never.
#[global] Arguments copy_into {A} l a b d : simpl never.
#[global] Arguments Z.pow : simpl never.
#[global] Opaque b2z z2b be_encode be_decode zrep.

(** Strings of one length compare as the numbers they denote. *)
Lemma bytes_compare_be_decode p q :
  length p = length q -> bytes_compare p q = Z.compare (be_decode p) (be_decode q).
Proof.
  intros Hl. rewrite <- (be_encode_decode p (length p)) at 1 by done.
  rewrite <- (be_encode_decode q (length p)) at 1 by done.
  pose proof (be_decode_range p). pose proof (be_decode_range q).
  unfold zlen in *. rewrite <- Hl in *. by apply bytes_compare_be_encode.
Qed.

Lemma be_decode_inj p q : length p = length q -> be_decode p = be_decode q -> p = q.
Proof.
  intros Hl E. apply bytes_compare_eq. by rewrite bytes_compare_be_decode, E, Z.compare_refl.
Qed.

Transparent be_decode.
Lemma be_decode_snoc p x : be_decode (p ++ [x]) = be_decode p * 256 + b2z x.
Proof.
  unfold be_decode. generalize 0. induction p as [|y p IH]; intros z; simpl; [done|]. apply IH.
Qed.
Opaque be_decode.

(** A prefix is not greater than its extensions. *)
Lemma bytes_le_app p r : bytes_le p (p ++ r).
Proof.
  unfold bytes_le. replace p with (p ++ []) at 1 by apply app_nil_r.
  rewrite bytes_compare_app. by destruct r.
Qed.
