(* ===== verification/Monad.v ===== *)
(** The state-and-error monad of the components that keep state: a computation
    returns a value or an error, and the new state in both cases, because a Go
    method that fails keeps the changes it made before failing. *)

From Stdlib Require Import ZArith Lia.
From stdpp Require Import base.
From S2P Require Import Prelude.

Section state_error.
Context {S E : Type}.

Definition st (A : Type) : Type := S -> res E A * S.

Definition ret {A} (a : A) : st A := fun s => (Ok a, s).
Definition fail {A} (e : E) : st A := fun s => (Err e, s).
Definition bind {A B} (c : st A) (k : A -> st B) : st B :=
  fun s => match c s with (Ok a, s') => k a s' | (Err e, s') => (Err e, s') end.
Definition gets {A} (f : S -> A) : st A := fun s => (Ok (f s), s).
Definition modify (f : S -> S) : st unit := fun s => (Ok tt, f s).
Definition lift {A} (r : res E A) : st A := fun s => (r, s).

(** [if err := c; err != nil { h(); return err }]: the effects of [h] stay, its
    result does not. *)
Definition cleanup {A B} (c : st A) (h : st B) : st A :=
  fun s => match c s with (Ok a, s') => (Ok a, s') | (Err e, s') => (Err e, snd (h s')) end.

(** The result of [c] is dropped, its effects stay. *)
Definition ignore {A} (c : st A) : st unit := fun s => (Ok tt, snd (c s)).

Fixpoint for_each {A} (l : list A) (f : A -> st unit) : st unit :=
  match l with [] => ret tt | x :: l' => bind (f x) (fun _ => for_each l' f) end.

(** ** Laws *)

Lemma bind_ok {A B} (c : st A) (k : A -> st B) s a s' :
  c s = (Ok a, s') -> bind c k s = k a s'.
Proof. intros E0. unfold bind. by rewrite E0. Qed.

Lemma bind_err {A B} (c : st A) (k : A -> st B) s e s' :
  c s = (Err e, s') -> bind c k s = (Err e, s').
Proof. intros E0. unfold bind. by rewrite E0. Qed.

Lemma bind_gets {A B} (f : S -> A) (k : A -> st B) s : bind (gets f) k s = k (f s) s.
Proof. done. Qed.

Lemma bind_modify {B} f (k : unit -> st B) s : bind (modify f) k s = k tt (f s).
Proof. done. Qed.

Lemma bind_ret {A B} (a : A) (k : A -> st B) s : bind (ret a) k s = k a s.
Proof. done. Qed.

Lemma bind_lift {A B} (a : A) (k : A -> st B) s : bind (lift (Ok a)) k s = k a s.
Proof. done. Qed.

Lemma cleanup_ok {A B} (c : st A) (h : st B) s a s' :
  c s = (Ok a, s') -> cleanup c h s = (Ok a, s').
Proof. intros E0. unfold cleanup. by rewrite E0. Qed.

Lemma bind_assoc {A B C} (c : st A) (f : A -> st B) (g : B -> st C) s :
  bind (bind c f) g s = bind c (fun a => bind (f a) g) s.
Proof. unfold bind. by destruct (c s) as [[a|e] s']. Qed.
End state_error.

Arguments st : clear implicits.

Declare Scope st_scope.
Delimit Scope st_scope with st.
Notation "x <- c ;; k" := (bind c (fun x => k))
  (at level 60, c at next level, right associativity) : st_scope.
Notation "' p <- c ;; k" := (bind c (fun x => match x with p => k end))
  (at level 60, p pattern, c at next level, right associativity) : st_scope.
Notation "c ;;; k" := (bind c (fun _ => k)) (at level 60, right associativity) : st_scope.
