(* ===== verification/Crc.v ===== *)
(** The CRC-32 checksum of Go's [hash/crc32] ([ChecksumIEEE]), which
    [internal/storage/pager] stores with every page, header and WAL record
    (page.go, header.go, wal.go).  The standard library computes it with
    tables; this is the bit-serial definition of the same reflected
    polynomial.  The last section shows the error-detection guarantee the
    pager relies on: two strings that differ only in a window of at most
    four bytes never have the same checksum. *)

From Stdlib Require Import ZArith Lia.
From S2P Require Import Prelude.
Open Scope Z_scope.

(** The IEEE polynomial, reflected. *)
Definition crc_poly : Z := 0xEDB88320.

(** One bit of the shift register. *)
Definition crc_bit (c : Z) : Z :=
  if Z.odd c then Z.lxor (Z.shiftr c 1) crc_poly else Z.shiftr c 1.

Fixpoint crc_bits (n : nat) (c : Z) : Z :=
  match n with O => c | S n' => crc_bits n' (crc_bit c) end.

Definition crc_byte (c : Z) (b : byte) : Z := crc_bits 8 (Z.lxor c (b2z b)).

Definition crc_feed (c : Z) (l : list byte) : Z := fold_left crc_byte l c.

(** [crc32.ChecksumIEEE] *)
Definition crc32 (l : list byte) : Z := Z.lxor (crc_feed 0xFFFFFFFF l) 0xFFFFFFFF.

(** The check value of the CRC catalogue: the checksum of "123456789". *)
Example crc32_check_value :
  crc32 [x31; x32; x33; x34; x35; x36; x37; x38; x39] = 0xCBF43926.
Proof. vm_compute. reflexivity. Qed.

(** ** Range *)

Definition u32 (z : Z) : Prop := 0 <= z < 2 ^ 32.

Lemma u32_shiftr c : u32 c -> 0 <= Z.shiftr c 1 < 2 ^ 31.
Proof.
  unfold u32. intros. rewrite Z.shiftr_div_pow2 by lia. change (2 ^ 1) with 2.
  split; [apply Z.div_pos; lia|]. apply Z.div_lt_upper_bound; lia.
Qed.

Lemma u32_lxor a b : u32 a -> u32 b -> u32 (Z.lxor a b).
Proof.
  unfold u32. intros [Ha0 Ha] [Hb0 Hb].
  assert (0 <= Z.lxor a b) as H by (rewrite Z.lxor_nonneg; lia). split; [done|].
  destruct (Z.eq_dec (Z.lxor a b) 0) as [->|Hne]; [lia|].
  apply Z.log2_lt_pow2; [lia|]. eapply Z.le_lt_trans; [by apply Z.log2_lxor|].
  apply Z.max_lub_lt.
  - destruct (Z.eq_dec a 0) as [->|]; [done|]. apply Z.log2_lt_pow2; lia.
  - destruct (Z.eq_dec b 0) as [->|]; [done|]. apply Z.log2_lt_pow2; lia.
Qed.

Lemma crc_bit_range c : u32 c -> u32 (crc_bit c).
Proof.
  intros Hc. pose proof (u32_shiftr c Hc). unfold crc_bit.
  destruct (Z.odd c); [|unfold u32; lia].
  apply u32_lxor; [unfold u32; lia|]. by unfold u32, crc_poly.
Qed.

Lemma crc_bits_range n c : u32 c -> u32 (crc_bits n c).
Proof. revert c. induction n; intros c Hc; simpl; [done|]. by apply IHn, crc_bit_range. Qed.

Lemma crc_byte_range c b : u32 c -> u32 (crc_byte c b).
Proof.
  intros. apply crc_bits_range, u32_lxor; [done|].
  pose proof (b2z_range b). unfold u32. lia.
Qed.

Lemma crc_feed_range l c : u32 c -> u32 (crc_feed c l).
Proof. revert c. induction l; intros c Hc; simpl; [done|]. by apply IHl, crc_byte_range. Qed.

Lemma crc32_range l : 0 <= crc32 l < 2 ^ 32.
Proof. apply u32_lxor; [apply crc_feed_range|]; by unfold u32. Qed.

#[export] Hint Resolve crc32_range : plomvix.

(** ** The register loses no information *)

Lemma crc_bit_inj x y : u32 x -> u32 y -> crc_bit x = crc_bit y -> x = y.
Proof.
  intros Hx Hy. pose proof (u32_shiftr x Hx). pose proof (u32_shiftr y Hy).
  assert (forall z, 0 <= z < 2 ^ 31 -> Z.testbit z 31 = false) as Hlow.
  { intros z Hz. destruct (Z.eq_dec z 0) as [->|]; [done|].
    apply Z.bits_above_log2; [lia|]. apply Z.log2_lt_pow2; lia. }
  assert (forall z, 0 <= z < 2 ^ 31 -> Z.testbit (Z.lxor z crc_poly) 31 = true) as Hhigh.
  { intros z Hz. rewrite Z.lxor_spec, Hlow by done. done. }
  assert (Z.shiftr x 1 = Z.shiftr y 1 -> Z.odd x = Z.odd y -> x = y) as Hfin.
  { rewrite <- !Z.div2_spec. intros Hs Ho.
    rewrite (Z.div2_odd x), (Z.div2_odd y), Hs, Ho. done. }
  unfold crc_bit. intros E. apply (f_equal (fun z => Z.testbit z 31)) in E as Eb.
  destruct (Z.odd x) eqn:Ox, (Z.odd y) eqn:Oy;
    rewrite ?Hhigh, ?Hlow in Eb by done; try done; apply Hfin; try done.
  apply (f_equal (fun z => Z.lxor z crc_poly)) in E.
  by rewrite !Z.lxor_assoc, !Z.lxor_nilpotent, !Z.lxor_0_r in E.
Qed.

Lemma crc_bits_inj n x y : u32 x -> u32 y -> crc_bits n x = crc_bits n y -> x = y.
Proof.
  revert x y. induction n; intros x y Hx Hy; simpl; [done|]. intros E.
  apply crc_bit_inj; [done..|]. apply IHn; auto using crc_bit_range.
Qed.

Lemma crc_byte_state_inj b x y : u32 x -> u32 y -> crc_byte x b = crc_byte y b -> x = y.
Proof.
  intros Hx Hy E. pose proof (b2z_range b).
  apply crc_bits_inj in E; try (apply u32_lxor; [done|]; unfold u32; lia).
  apply (f_equal (fun z => Z.lxor z (b2z b))) in E.
  by rewrite !Z.lxor_assoc, !Z.lxor_nilpotent, !Z.lxor_0_r in E.
Qed.

Lemma crc_feed_state_inj l x y : u32 x -> u32 y -> crc_feed x l = crc_feed y l -> x = y.
Proof.
  revert x y. induction l as [|b l IH]; intros x y Hx Hy; simpl; [done|]. intros E.
  apply (crc_byte_state_inj b); [done..|]. apply IH; auto using crc_byte_range.
Qed.

(** ** Linearity: feeding bytes is shifting in their little-endian value *)

Fixpoint le_val (l : list byte) : Z :=
  match l with [] => 0 | b :: l' => Z.lxor (b2z b) (Z.shiftl (le_val l') 8) end.

Lemma crc_bit_lxor_shift x y : crc_bit (Z.lxor x (Z.shiftl y 1)) = Z.lxor (crc_bit x) y.
Proof.
  unfold crc_bit.
  assert (Z.odd (Z.lxor x (Z.shiftl y 1)) = Z.odd x) as ->.
  { rewrite <- !Z.bit0_odd, Z.lxor_spec, Z.shiftl_spec by lia.
    rewrite (Z.testbit_neg_r y) by lia. by destruct (Z.testbit x 0). }
  assert (Z.shiftr (Z.lxor x (Z.shiftl y 1)) 1 = Z.lxor (Z.shiftr x 1) y) as ->.
  { rewrite Z.shiftr_lxor, Z.shiftr_shiftl_l by lia. by rewrite Z.shiftl_0_r. }
  destruct (Z.odd x); [|done].
  rewrite !Z.lxor_assoc. f_equal. apply Z.lxor_comm.
Qed.

Lemma crc_bits_lxor_shift n x y :
  crc_bits n (Z.lxor x (Z.shiftl y (Z.of_nat n))) = Z.lxor (crc_bits n x) y.
Proof.
  revert x y. induction n as [|n IH]; intros x y; cbn [crc_bits].
  { by rewrite Z.shiftl_0_r. }
  replace (Z.of_nat (S n)) with (Z.of_nat n + 1) by lia.
  rewrite <- Z.shiftl_shiftl by lia. by rewrite crc_bit_lxor_shift.
Qed.

Lemma crc_bits_add m n c : crc_bits n (crc_bits m c) = crc_bits (m + n) c.
Proof. revert c. induction m; intros c; simpl; [done|]. apply IHm. Qed.

Lemma crc_feed_le_val l c : crc_feed c l = crc_bits (8 * length l) (Z.lxor c (le_val l)).
Proof.
  revert c. induction l as [|b l IH]; intros c.
  { simpl. by rewrite Z.lxor_0_r. }
  change (crc_feed c (b :: l)) with (crc_feed (crc_byte c b) l). rewrite IH.
  unfold crc_byte. rewrite <- (crc_bits_lxor_shift 8), crc_bits_add. cbn [le_val length].
  change (Z.of_nat 8) with 8. rewrite Z.lxor_assoc. f_equal. lia.
Qed.

Lemma le_val_step b l : le_val (b :: l) = b2z b + 256 * le_val l.
Proof.
  cbn [le_val]. pose proof (b2z_range b). rewrite <- Z.add_nocarry_lxor.
  { rewrite Z.shiftl_mul_pow2 by lia. change (2 ^ 8) with 256. lia. }
  apply Z.bits_inj'. intros n Hn. rewrite Z.land_spec, Z.bits_0, Z.shiftl_spec by lia.
  destruct (Z.lt_ge_cases n 8).
  - rewrite (Z.testbit_neg_r (le_val l)) by lia. apply andb_false_r.
  - destruct (Z.eq_dec (b2z b) 0) as [->|]; [by rewrite Z.bits_0|].
    rewrite (Z.bits_above_log2 (b2z b)); [done|lia|].
    apply (Z.lt_le_trans _ 8); [apply Z.log2_lt_pow2; lia|lia].
Qed.

Lemma le_val_bound l : 0 <= le_val l < 2 ^ (8 * zlen l).
Proof.
  induction l as [|b l IH]; [done|]. rewrite le_val_step, zlen_cons.
  pose proof (b2z_range b). pose proof (zlen_nonneg l).
  replace (8 * (1 + zlen l)) with (8 + 8 * zlen l) by lia.
  rewrite Z.pow_add_r by lia. lia.
Qed.

Lemma le_val_range l : (length l <= 4)%nat -> u32 (le_val l).
Proof.
  intros Hl. pose proof (le_val_bound l) as [H0 H]. split; [done|].
  eapply Z.lt_le_trans; [done|]. apply Z.pow_le_mono_r; unfold zlen; lia.
Qed.

Lemma le_val_inj p q : length p = length q -> le_val p = le_val q -> p = q.
Proof.
  revert q. induction p as [|x p IH]; intros [|y q] Hl; try done.
  rewrite !le_val_step. pose proof (b2z_range x). pose proof (b2z_range y). intros E.
  assert (b2z x = b2z y /\ le_val p = le_val q) as [Hxy Hpq] by lia.
  f_equal; [by apply b2z_inj|]. apply IH; [by injection Hl|done].
Qed.

(** Two strings that differ only inside a window of at most four bytes have
    different checksums. *)
Lemma crc32_burst pre p q post :
  length p = length q -> (length p <= 4)%nat -> p <> q ->
  crc32 (pre ++ p ++ post) <> crc32 (pre ++ q ++ post).
Proof.
  intros Hl H4 Hne E. unfold crc32 in E.
  apply (f_equal (fun z => Z.lxor z 0xFFFFFFFF)) in E.
  rewrite !Z.lxor_assoc, !Z.lxor_nilpotent, !Z.lxor_0_r in E.
  unfold crc_feed in E. rewrite !fold_left_app in E. fold (crc_feed 0xFFFFFFFF pre) in E.
  set (c := crc_feed 0xFFFFFFFF pre) in *.
  assert (u32 c) as Hc by (apply crc_feed_range; by unfold u32).
  apply crc_feed_state_inj in E; try by apply crc_feed_range.
  fold (crc_feed c p) (crc_feed c q) in E. rewrite !crc_feed_le_val, <- Hl in E.
  apply crc_bits_inj in E; try (apply u32_lxor; [done|apply le_val_range; lia]).
  apply (f_equal (Z.lxor c)) in E.
  rewrite <- !Z.lxor_assoc, !Z.lxor_nilpotent, !Z.lxor_0_l in E.
  by apply Hne, le_val_inj.
Qed.
