(* ===== verification/Key.v ===== *)
(** [internal/engine/sql/key/key.go]: the key encodings of the SQL engine.

    [Key], [Field], [Value] and the [Encode]/[Decode]/[Parse] functions are
    the Go functions of the same name.  Go's dynamically typed [any] arguments
    are the type [GoAny]; the error sentinels are [key_err].  Strings are their
    bytes.  The theorems: every encoding decodes to what was encoded, the
    scalar and sort-composite encodings compare byte-wise exactly as the
    values compare, and the framed storage composite can be re-parsed from its
    bytes alone given the kinds. *)

From Stdlib Require Import ZArith Lia.
From S2P Require Import Prelude.
Open Scope Z_scope.

(** * Data *)

(** [Kind] is a [uint8]: four constants, and values that are none of them. *)
Inductive Kind : Type :=
| KindUint64 | KindInt64 | KindString | KindBytes
| KindOther (n : Z).

#[export] Instance Kind_eq_dec : EqDecision Kind.
Proof. solve_decision. Defined.

Record Field := mkField { fkind : Kind; Offset : Z; Length : Z }.

Record Key := mkKey { data : list byte; fields : list Field }.

Inductive key_err : Type :=
| ErrNullByteInString | ErrUnsupportedType | ErrUnsupportedSortType | ErrInvalidKey
| ErrKindMismatch | ErrNotComposite | ErrEmptyKey | ErrTruncated | ErrBadTag | ErrNoPKColumns.

(** [Value], the tagged column value; [u] holds both integer kinds. *)
Record Value := mkValue { kind : Kind; u : Z; s : list byte; b : list byte }.

Definition Uint64 (v : Z) : Value := mkValue KindUint64 v [] [].
Definition Int64 (v : Z) : Value := mkValue KindInt64 (wrap64 v) [] [].
Definition String (v : list byte) : Value := mkValue KindString 0 v [].
Definition Bytes (v : list byte) : Value := mkValue KindBytes 0 [] v.

Definition AsUint64 (v : Value) : Z * bool :=
  if decide (kind v = KindUint64) then (u v, true) else (0, false).
Definition AsInt64 (v : Value) : Z * bool :=
  if decide (kind v = KindInt64) then (swrap64 (u v), true) else (0, false).
Definition AsString (v : Value) : list byte * bool :=
  if decide (kind v = KindString) then (s v, true) else ([], false).
Definition AsBytes (v : Value) : list byte * bool :=
  if decide (kind v = KindBytes) then (b v, true) else ([], false).

(** [Value.Equal] *)
Definition Value_Equal (v other : Value) : bool :=
  if decide (kind v = kind other) then
    match kind v with
    | KindUint64 | KindInt64 => u v =? u other
    | KindString => bool_decide (s v = s other)
    | KindBytes => bool_decide (b v = b other)
    | KindOther _ => false
    end
  else false.

(** The dynamic types [EncodeSortComposite] and [EncodeStorageComposite] switch on. *)
Inductive GoAny : Type :=
| AUint64 (v : Z) | AInt64 (v : Z) | AString (v : list byte) | ABytes (v : list byte)
| ANil | AOther.

#[export] Instance GoAny_eq_dec : EqDecision GoAny.
Proof. solve_decision. Defined.

(** * Operations *)

(** [validateField] *)
Definition validateField (d : list byte) (f : Field) : res key_err unit :=
  if (Offset f <? 0) || (Length f <? 0) then Err ErrInvalidKey
  else if zlen d <? Offset f then Err ErrInvalidKey
  else if zlen d - Offset f <? Length f then Err ErrInvalidKey
  else match fkind f with
       | KindUint64 | KindInt64 => if Length f =? 8 then Ok tt else Err ErrInvalidKey
       | _ => Ok tt
       end.

(** [Key.Compare] *)
Definition Compare (k other : Key) : comparison := bytes_compare (data k) (data other).

(** [uint64(v) ^ (1 << 63)] and its inverse. *)
Definition flip_sign (v : Z) : Z := Z.lxor (wrap64 v) (2 ^ 63).
Definition unflip_sign (v : Z) : Z := swrap64 (Z.lxor v (2 ^ 63)).

Definition EncodeUint64 (v : Z) : Key :=
  mkKey (be_encode 8 v) [mkField KindUint64 0 8].

Definition EncodeInt64 (v : Z) : Key :=
  mkKey (be_encode 8 (flip_sign v)) [mkField KindInt64 0 8].

(** [strings.ContainsRune(s, 0)] *)
Definition contains_nul (v : list byte) : bool := existsb (Byte.eqb x00) v.

Definition EncodeString (v : list byte) : res key_err Key :=
  if contains_nul v then Err ErrNullByteInString
  else let d := v ++ [x00] in Ok (mkKey d [mkField KindString 0 (zlen d)]).

Definition EncodeBytes (v : list byte) : Key := mkKey v [mkField KindBytes 0 (zlen v)].

Definition FromBytes (v : list byte) : Key := EncodeBytes v.

(** [binary.BigEndian.Uint64(d[off:])] *)
Definition uint64_at (d : list byte) (off : Z) : Z := be_decode (slice d off (off + 8)).

Definition requireScalar (k : Key) : res key_err Field :=
  match fields k with [f] => Ok f | _ => Err ErrInvalidKey end.

Definition DecodeUint64 (k : Key) : res key_err Z :=
  f ← requireScalar k;
  if decide (fkind f = KindUint64) then
    _ ← validateField (data k) f; Ok (uint64_at (data k) (Offset f))
  else Err ErrKindMismatch.

Definition DecodeInt64 (k : Key) : res key_err Z :=
  f ← requireScalar k;
  if decide (fkind f = KindInt64) then
    _ ← validateField (data k) f; Ok (unflip_sign (uint64_at (data k) (Offset f)))
  else Err ErrKindMismatch.

(** [k.data[f.Offset : f.Offset+f.Length]] *)
Definition field_bytes (k : Key) (f : Field) : list byte :=
  slice (data k) (Offset f) (Offset f + Length f).

Definition DecodeString (k : Key) : res key_err (list byte) :=
  f ← requireScalar k;
  if decide (fkind f = KindString) then
    _ ← validateField (data k) f;
    let v := field_bytes k f in
    match last v with
    | Some x00 => Ok (ztake (zlen v - 1) v)
    | _ => Err ErrInvalidKey
    end
  else Err ErrKindMismatch.

Definition DecodeBytes (k : Key) : res key_err (list byte) :=
  f ← requireScalar k;
  if decide (fkind f = KindBytes) then
    _ ← validateField (data k) f; Ok (field_bytes k f)
  else Err ErrKindMismatch.

(** [bytes.IndexByte(v, 0)]: the index of the first zero byte, -1 if none. *)
Fixpoint index_nul (v : list byte) : option Z :=
  match v with
  | [] => None
  | x :: v' => if Byte.eqb x00 x then Some 0 else Z.succ <$> index_nul v'
  end.

(** The loop of [ParseKey]: [ks] are the kinds left, [pos] the position; the
    result is the fields and the final position. *)
Fixpoint parse_fields (d : list byte) (ks : list Kind) (pos : Z) : res key_err (list Field * Z) :=
  match ks with
  | [] => Ok ([], pos)
  | kd :: ks' =>
      match kd with
      | KindUint64 | KindInt64 =>
          if zlen d <? pos + 8 then Err ErrInvalidKey
          else '(fs, p) ← parse_fields d ks' (pos + 8); Ok (mkField kd pos 8 :: fs, p)
      | KindString =>
          match index_nul (zdrop pos d) with
          | None => Err ErrInvalidKey
          | Some e =>
              '(fs, p) ← parse_fields d ks' (pos + e + 1);
              Ok (mkField KindString pos (e + 1) :: fs, p)
          end
      | KindBytes =>
          match ks' with
          | _ :: _ => Err ErrInvalidKey
          | [] => Ok ([mkField KindBytes pos (zlen d - pos)], zlen d)
          end
      | KindOther _ => Err ErrInvalidKey
      end
  end.

Definition ParseKey (d : list byte) (kinds : list Kind) : res key_err Key :=
  match last kinds with
  | None => Err ErrInvalidKey
  | Some lastk =>
      '(fs, pos) ← parse_fields d kinds 0;
      if negb (pos =? zlen d) && negb (bool_decide (lastk = KindBytes))
      then Err ErrInvalidKey
      else Ok (mkKey d fs)
  end.

(** One iteration of the loops of [EncodeSortComposite] on [(d, fs, pos)]. *)
Definition sort_field (st : list byte * list Field * Z) (f : GoAny)
  : res key_err (list byte * list Field * Z) :=
  let '(d, fs, pos) := st in
  match f with
  | AUint64 v => Ok (d ++ be_encode 8 v, fs ++ [mkField KindUint64 pos 8], pos + 8)
  | AInt64 v => Ok (d ++ be_encode 8 (flip_sign v), fs ++ [mkField KindInt64 pos 8], pos + 8)
  | AString _ | ABytes _ => Err ErrUnsupportedSortType
  | ANil | AOther => Err ErrUnsupportedType
  end.

Fixpoint sort_fields (st : list byte * list Field * Z) (l : list GoAny)
  : res key_err (list byte * list Field * Z) :=
  match l with
  | [] => Ok st
  | f :: l' => st' ← sort_field st f; sort_fields st' l'
  end.

Definition EncodeSortComposite (l : list GoAny) : res key_err Key :=
  '(d, fs, _) ← sort_fields ([], [], 0) l; Ok (mkKey d fs).

(** [DecodeSortComposite]'s loop body. *)
Definition decode_sort_field (k : Key) (f : Field) : res key_err GoAny :=
  _ ← validateField (data k) f;
  match fkind f with
  | KindUint64 => Ok (AUint64 (uint64_at (data k) (Offset f)))
  | KindInt64 => Ok (AInt64 (unflip_sign (uint64_at (data k) (Offset f))))
  | _ => Err ErrKindMismatch
  end.

Fixpoint res_map {E A B} (f : A -> res E B) (l : list A) : res E (list B) :=
  match l with
  | [] => Ok []
  | x :: l' => y ← f x; ys ← res_map f l'; Ok (y :: ys)
  end.

Definition DecodeSortComposite (k : Key) : res key_err (list GoAny) :=
  match fields k with
  | [] => Err ErrNotComposite
  | fs => res_map (decode_sort_field k) fs
  end.

(** [appendLen4] *)
Definition appendLen4 (d : list byte) (n : Z) : list byte := d ++ be_encode 4 (wrap32 n).

(** One framed field: four length bytes, then the payload. *)
Definition append_framed (d : list byte) (fs : list Field) (kd : Kind) (p : list byte)
  : list byte * list Field :=
  let d' := appendLen4 d (zlen p) in
  (d' ++ p, fs ++ [mkField kd (zlen d') (zlen p)]).

Definition storage_field (st : list byte * list Field) (f : GoAny)
  : res key_err (list byte * list Field) :=
  let '(d, fs) := st in
  match f with
  | AUint64 v => Ok (append_framed d fs KindUint64 (be_encode 8 v))
  | AInt64 v => Ok (append_framed d fs KindInt64 (be_encode 8 (flip_sign v)))
  | AString v =>
      if contains_nul v then Err ErrNullByteInString
      else Ok (append_framed d fs KindString v)
  | ABytes v => Ok (append_framed d fs KindBytes v)
  | ANil | AOther => Err ErrUnsupportedType
  end.

Fixpoint storage_fields (st : list byte * list Field) (l : list GoAny)
  : res key_err (list byte * list Field) :=
  match l with
  | [] => Ok st
  | f :: l' => st' ← storage_field st f; storage_fields st' l'
  end.

Definition EncodeStorageComposite (l : list GoAny) : res key_err Key :=
  '(d, fs) ← storage_fields ([], []) l; Ok (mkKey d fs).

Definition decode_storage_field (k : Key) (f : Field) : res key_err GoAny :=
  _ ← validateField (data k) f;
  match fkind f with
  | KindUint64 => Ok (AUint64 (uint64_at (data k) (Offset f)))
  | KindInt64 => Ok (AInt64 (unflip_sign (uint64_at (data k) (Offset f))))
  | KindString => Ok (AString (field_bytes k f))
  | KindBytes => Ok (ABytes (field_bytes k f))
  | KindOther _ => Err ErrKindMismatch
  end.

Definition DecodeStorageComposite (k : Key) : res key_err (list GoAny) :=
  match fields k with
  | [] => Err ErrNotComposite
  | fs => res_map (decode_storage_field k) fs
  end.

(** The loop of [ParseStorageCompositeKey]. *)
Fixpoint parse_framed (d : list byte) (ks : list Kind) (pos : Z) : res key_err (list Field * Z) :=
  match ks with
  | [] => Ok ([], pos)
  | kd :: ks' =>
      if zlen d <? pos + 4 then Err ErrInvalidKey
      else
        let length := be_decode (slice d pos (pos + 4)) in
        let pos := pos + 4 in
        if zlen d <? pos + length then Err ErrInvalidKey
        else '(fs, p) ← parse_framed d ks' (pos + length);
             Ok (mkField kd pos length :: fs, p)
  end.

Definition ParseStorageCompositeKey (d : list byte) (kinds : list Kind) : res key_err Key :=
  match kinds with
  | [] => Err ErrInvalidKey
  | _ =>
      '(fs, pos) ← parse_framed d kinds 0;
      if pos =? zlen d then Ok (mkKey d fs) else Err ErrInvalidKey
  end.

(** * Scalars *)

Lemma lxor_high a : 0 <= a < 2 ^ 63 -> Z.lxor a (2 ^ 63) = a + 2 ^ 63.
Proof.
  intros. rewrite <- Z.add_nocarry_lxor; [done|]. apply Z.bits_inj'. intros n Hn.
  rewrite Z.land_spec, Z.bits_0, Z.pow2_bits_eqb by lia.
  destruct (Z.eqb_spec 63 n) as [<-|]; [|apply andb_false_r].
  destruct (Z.eq_dec a 0) as [->|]; [done|].
  rewrite Z.bits_above_log2; [done|lia|apply Z.log2_lt_pow2; lia].
Qed.

Lemma lxor_high_hi a : 2 ^ 63 <= a < 2 ^ 64 -> Z.lxor a (2 ^ 63) = a - 2 ^ 63.
Proof.
  intros. replace a with (Z.lxor (a - 2 ^ 63) (2 ^ 63)) at 1 by (rewrite lxor_high; lia).
  by rewrite Z.lxor_assoc, Z.lxor_nilpotent, Z.lxor_0_r.
Qed.

(** Flipping the sign bit maps the signed order onto the unsigned one. *)
Lemma flip_sign_spec v : i64 v -> flip_sign v = v + 2 ^ 63.
Proof.
  unfold i64, flip_sign, wrap64. intros. destruct (Z.lt_ge_cases v 0).
  - replace (v mod 2 ^ 64) with (v + 2 ^ 64).
    { rewrite lxor_high_hi; lia. }
    rewrite <- (Z.mod_small (v + 2 ^ 64) (2 ^ 64)) by lia.
    by rewrite <- Z.add_mod_idemp_r, Z.mod_same, Z.add_0_r by lia.
  - rewrite Z.mod_small by lia. by rewrite lxor_high by lia.
Qed.

Lemma flip_sign_u64 v : i64 v -> u64 (flip_sign v).
Proof. intros H. rewrite flip_sign_spec by done. unfold i64, u64 in *. lia. Qed.

Lemma unflip_flip_sign v : i64 v -> unflip_sign (flip_sign v) = v.
Proof.
  intros. unfold unflip_sign, flip_sign.
  rewrite Z.lxor_assoc, Z.lxor_nilpotent, Z.lxor_0_r. by apply swrap64_wrap64.
Qed.

Lemma be8 v : u64 v -> be_decode (be_encode 8 v) = v.
Proof. intros. by apply be_decode_encode. Qed.

(** [uint64_at] where the eight bytes were appended. *)
Lemma uint64_at_app p v q : u64 v -> uint64_at (p ++ be_encode 8 v ++ q) (zlen p) = v.
Proof.
  intros. unfold uint64_at. rewrite slice_app_r by lia.
  rewrite slice_app_l by zlia. rewrite slice_full by zlia. by apply be8.
Qed.

Lemma uint64_at_0 v : u64 v -> uint64_at (be_encode 8 v) 0 = v.
Proof. intros. apply (uint64_at_app [] v []) in H. by rewrite app_nil_r in H. Qed.

(** the scalar encodings preserve the order of the values. *)
Theorem scalar_key_order :
  (forall x y, u64 x -> u64 y -> Compare (EncodeUint64 x) (EncodeUint64 y) = Z.compare x y) /\
  (forall x y, i64 x -> i64 y -> Compare (EncodeInt64 x) (EncodeInt64 y) = Z.compare x y).
Proof.
  split; intros x y Hx Hy; unfold Compare; simpl data.
  - by apply bytes_compare_be_encode.
  - rewrite bytes_compare_be_encode by by apply flip_sign_u64.
    rewrite !flip_sign_spec by done. apply compare_add_r.
Qed.

Lemma contains_nul_app x y : contains_nul (x ++ y) = contains_nul x || contains_nul y.
Proof. apply existsb_app. Qed.

(** [EncodeString] is an order embedding on the strings it accepts. *)
Theorem string_key_order x y kx ky :
  EncodeString x = Ok kx -> EncodeString y = Ok ky ->
  Compare kx ky = bytes_compare x y.
Proof.
  unfold EncodeString. destruct (contains_nul x) eqn:Hx, (contains_nul y) eqn:Hy; try done.
  intros [= <-] [= <-]. unfold Compare. simpl data.
  revert y Hx Hy. induction x as [|a x IH]; intros [|c y]; simpl; try done.
  - intros _ [Hc _]%orb_false_elim. destruct c; try done. 
  - intros [Ha _]%orb_false_elim _. destruct a; done.
  - intros [_ Hx]%orb_false_elim [_ Hy]%orb_false_elim.
    destruct (b2z a ?= b2z c); try done. by apply IH.
Qed.

(** The scalar decoders invert the scalar encoders. *)
Theorem scalar_roundtrip :
  (forall v, u64 v -> DecodeUint64 (EncodeUint64 v) = Ok v) /\
  (forall v, i64 v -> DecodeInt64 (EncodeInt64 v) = Ok v) /\
  (forall v, EncodeString v = Err ErrNullByteInString \/
             exists k, EncodeString v = Ok k /\ DecodeString k = Ok v) /\
  (forall v, DecodeBytes (EncodeBytes v) = Ok v).
Proof.
  split; [|split; [|split]].
  - intros v Hv. unfold DecodeUint64, EncodeUint64. simpl.
    by rewrite uint64_at_0.
  - intros v Hv. unfold DecodeInt64, EncodeInt64. simpl.
    by rewrite uint64_at_0, unflip_flip_sign by auto using flip_sign_u64.
  - intros v. unfold EncodeString. destruct (contains_nul v); [by left|right].
    eexists; split; [done|]. unfold DecodeString. simpl.
    unfold validateField. simpl. pose proof (zlen_nonneg (v ++ [x00])).
    rewrite !(proj2 (Z.ltb_ge _ _)) by lia. simpl.
    unfold field_bytes. simpl. rewrite slice_full by lia. rewrite last_snoc.
    rewrite ztake_app_eq by zlia. done.
  - intros v. unfold DecodeBytes, EncodeBytes. simpl. unfold validateField. simpl.
    pose proof (zlen_nonneg v). rewrite !(proj2 (Z.ltb_ge _ _)) by lia. simpl.
    unfold field_bytes. simpl. by rewrite slice_full by lia.
Qed.

(** ** Sort composites *)

(** The fields [EncodeSortComposite] accepts, with values in range. *)
Definition sortable (a : GoAny) : Prop :=
  match a with AUint64 v => u64 v | AInt64 v => i64 v | _ => False end.

(** What one sortable field contributes. *)
Definition sort_bytes (a : GoAny) : list byte :=
  match a with
  | AUint64 v => be_encode 8 v
  | AInt64 v => be_encode 8 (flip_sign v)
  | _ => []
  end.

Definition any_kind (a : GoAny) : Kind :=
  match a with
  | AUint64 _ => KindUint64 | AInt64 _ => KindInt64 | AString _ => KindString
  | ABytes _ => KindBytes | ANil | AOther => KindOther 0
  end.

(** Values of one kind compare as values; lists of values lexicographically. *)
Definition any_compare (x y : GoAny) : comparison :=
  match x, y with
  | AUint64 v, AUint64 w | AInt64 v, AInt64 w => Z.compare v w
  | _, _ => Eq
  end.

Fixpoint anys_compare (l m : list GoAny) : comparison :=
  match l, m with
  | x :: l', y :: m' => match any_compare x y with Eq => anys_compare l' m' | c => c end
  | _, _ => Eq
  end.

Fixpoint sort_layout (pos : Z) (l : list GoAny) : list Field :=
  match l with [] => [] | a :: l' => mkField (any_kind a) pos 8 :: sort_layout (pos + 8) l' end.

Lemma sort_fields_spec l d fs pos :
  Forall sortable l ->
  sort_fields (d, fs, pos) l
  = Ok (d ++ concat (map sort_bytes l), fs ++ sort_layout pos l, pos + 8 * zlen l).
Proof.
  revert d fs pos. induction l as [|a l IH]; intros d fs pos Hl; simpl.
  { by rewrite !app_nil_r, Z.add_0_r. }
  inversion Hl as [|? ? Ha Hl']; subst.
  destruct a; simpl in *; try done; rewrite IH by done;
    rewrite <- !app_assoc, zlen_cons; do 2 f_equal; lia.
Qed.

Lemma zlen_sort_bytes a : sortable a -> zlen (sort_bytes a) = 8.
Proof. destruct a; simpl; try done; intros; by rewrite zlen_be_encode. Qed.

Lemma sort_bytes_compare x y :
  sortable x -> sortable y -> any_kind x = any_kind y ->
  bytes_compare (sort_bytes x) (sort_bytes y) = any_compare x y.
Proof.
  destruct x, y; simpl; intros Hx Hy Hk; try contradiction; try discriminate Hk.
  - by apply bytes_compare_be_encode.
  - rewrite bytes_compare_be_encode by by apply flip_sign_u64.
    rewrite !flip_sign_spec by done. apply compare_add_r.
Qed.

(** a sort composite key compares as the tuple of its values does. *)
Theorem sort_composite_order l m kl km :
  Forall sortable l -> Forall sortable m -> map any_kind l = map any_kind m ->
  EncodeSortComposite l = Ok kl -> EncodeSortComposite m = Ok km ->
  Compare kl km = anys_compare l m.
Proof.
  intros Hl Hm Hk. unfold EncodeSortComposite. rewrite !sort_fields_spec by done. simpl.
  intros [= <-] [= <-]. unfold Compare. simpl. 
  revert m Hm Hk. induction Hl as [|x l Hx Hl IH]; intros m Hm Hk;
    destruct Hm as [|y m Hy Hm]; try done.
  simpl in Hk. injection Hk as Hxy Hk. simpl.
  rewrite <- (sort_bytes_compare x y) by done.
  destruct (decide (sort_bytes x = sort_bytes y)) as [->|Hne].
  - rewrite bytes_compare_app, bytes_compare_refl. by apply IH.
  - rewrite bytes_compare_app_len; [| |done].
    + destruct (bytes_compare (sort_bytes x) (sort_bytes y)) eqn:E; try done.
      by apply bytes_compare_eq in E.
    + pose proof (zlen_sort_bytes x Hx). pose proof (zlen_sort_bytes y Hy).
      unfold zlen in *. lia.
Qed.

Lemma validateField_ok d f :
  0 <= Offset f -> 0 <= Length f -> Offset f + Length f <= zlen d ->
  (fkind f = KindUint64 \/ fkind f = KindInt64 -> Length f = 8) ->
  validateField d f = Ok tt.
Proof.
  intros. unfold validateField. rewrite !(proj2 (Z.ltb_ge _ _)) by lia. simpl.
  destruct (fkind f); try done; by rewrite (proj2 (Z.eqb_eq _ _)) by auto.
Qed.

Lemma decode_sort_field_app x p r fs :
  sortable x ->
  decode_sort_field (mkKey (p ++ sort_bytes x ++ r) fs) (mkField (any_kind x) (zlen p) 8) = Ok x.
Proof.
  intros Hx. unfold decode_sort_field. rewrite validateField_ok; simpl; try done.
  - destruct x; simpl in *; try done; rewrite uint64_at_app by auto using flip_sign_u64;
      by rewrite ?unflip_flip_sign by done.
  - apply zlen_nonneg.
  - rewrite !zlen_app, zlen_sort_bytes by done. pose proof (zlen_nonneg r). lia.
Qed.

(** [DecodeSortComposite] returns the values a sort composite was built from. *)
Theorem sort_composite_roundtrip l :
  l <> [] -> Forall sortable l ->
  exists k, EncodeSortComposite l = Ok k /\ DecodeSortComposite k = Ok l.
Proof.
  intros Hne Hl. unfold EncodeSortComposite. rewrite sort_fields_spec by done. simpl.
  eexists. split; [done|]. unfold DecodeSortComposite. cbn [fields].
  assert (forall p q, res_map (decode_sort_field (mkKey (p ++ concat (map sort_bytes l)) q))
                        (sort_layout (zlen p) l) = Ok l) as H.
  { clear Hne. induction Hl as [|x l Hx Hl IH]; intros p q; [done|].
    cbn [sort_layout res_map map concat]. rewrite decode_sort_field_app by done.
    specialize (IH (p ++ sort_bytes x) q).
    rewrite zlen_app, zlen_sort_bytes, <- app_assoc in IH by done.
    simpl. by rewrite IH. }
  specialize (H [] (sort_layout 0 l)). destruct l; [done|]. exact H.
Qed.

(** ** Parsing scalar layouts *)

Lemma index_nul_range v e : index_nul v = Some e -> 0 <= e < zlen v.
Proof.
  revert e. induction v as [|x v IH]; intros e; simpl; [done|]. rewrite zlen_cons.
  pose proof (zlen_nonneg v). destruct x; simpl; try (intros [= <-]; lia);
    (destruct (index_nul v) as [e'|]; simpl; [|done]; intros [= <-];
     specialize (IH e' eq_refl); lia).
Qed.

Lemma parse_fields_valid d ks pos fs p :
  0 <= pos <= zlen d -> parse_fields d ks pos = Ok (fs, p) ->
  Forall (fun f => validateField d f = Ok tt) fs /\ pos <= p <= zlen d /\ map fkind fs = ks.
Proof.
  revert pos fs p. induction ks as [|kd ks IH]; intros pos fs p Hpos; simpl.
  { intros [= <- <-]. split; [done|]. split; [lia|done]. }
  destruct kd; try done.
  1, 2: destruct (Z.ltb_spec (zlen d) (pos + 8)); [done|];
    destruct (parse_fields d ks (pos + 8)) as [[fs' p']|] eqn:E; simpl; [|done];
    intros [= <- <-]; apply IH in E as (? & ? & <-); [|lia];
    (split; [constructor; [apply validateField_ok; simpl; lia|done]|]; split; [lia|done]).
  - destruct (index_nul (zdrop pos d)) as [e|] eqn:Ei; [|done].
    apply index_nul_range in Ei. rewrite zlen_zdrop in Ei by lia.
    destruct (parse_fields d ks (pos + e + 1)) as [[fs' p']|] eqn:E; simpl; [|done].
    intros [= <- <-]. apply IH in E as (? & ? & <-); [|lia].
    split; [constructor; [apply validateField_ok; simpl; try lia; intros []; done|done]|].
    split; [lia|done].
  - destruct ks; [|done]. intros [= <- <-].
    split; [constructor; [apply validateField_ok; simpl; try lia; intros []; done|done]|].
    split; [lia|done].
Qed.

(** whatever bytes [ParseKey] accepts, the fields it returns have the
    requested kinds and lie inside the key, so no decoder indexes out of it. *)
Theorem ParseKey_valid d ks k :
  ParseKey d ks = Ok k ->
  data k = d /\ map fkind (fields k) = ks /\
  Forall (fun f => validateField (data k) f = Ok tt) (fields k).
Proof.
  unfold ParseKey. destruct (last ks) as [lk|]; [|done].
  destruct (parse_fields d ks 0) as [[fs p]|] eqn:E; simpl; [|done].
  apply parse_fields_valid in E as (? & ? & ?); [|pose proof (zlen_nonneg d); lia].
  destruct (_ && _); [done|]. by intros [= <-].
Qed.

(** ** Storage composites *)

(** The fields [EncodeStorageComposite] accepts and whose length fits the frame. *)
Definition storable (a : GoAny) : Prop :=
  match a with
  | AUint64 v => u64 v
  | AInt64 v => i64 v
  | AString v => contains_nul v = false /\ zlen v < 2 ^ 32
  | ABytes v => zlen v < 2 ^ 32
  | _ => False
  end.

Definition payload (a : GoAny) : list byte :=
  match a with
  | AUint64 v => be_encode 8 v
  | AInt64 v => be_encode 8 (flip_sign v)
  | AString v | ABytes v => v
  | _ => []
  end.

Definition framed (a : GoAny) : list byte := be_encode 4 (wrap32 (zlen (payload a))) ++ payload a.

Fixpoint storage_layout (pos : Z) (l : list GoAny) : list Field :=
  match l with
  | [] => []
  | a :: l' =>
      mkField (any_kind a) (pos + 4) (zlen (payload a))
      :: storage_layout (pos + 4 + zlen (payload a)) l'
  end.

Lemma storage_fields_spec l d fs :
  Forall storable l ->
  storage_fields (d, fs) l
  = Ok (d ++ concat (map framed l), fs ++ storage_layout (zlen d) l).
Proof.
  revert d fs. induction l as [|a l IH]; intros d fs Hl;
    cbn [storage_fields map concat storage_layout].
  { by rewrite !app_nil_r. }
  inversion Hl as [|? ? Ha Hl']; subst.
  assert (storage_field (d, fs) a
          = Ok (d ++ framed a, fs ++ [mkField (any_kind a) (zlen d + 4) (zlen (payload a))])) as ->.
  { unfold framed, storage_field, append_framed, appendLen4.
    destruct a; simpl in *; try done; rewrite ?(proj1 Ha);
      rewrite <- ?app_assoc, ?zlen_app, ?zlen_be_encode; done. }
  simpl. rewrite IH by done. rewrite <- !app_assoc. do 4 f_equal.
  unfold framed. rewrite !zlen_app, zlen_be_encode. f_equal. lia.
Qed.

Lemma zlen_payload a : storable a -> 0 <= zlen (payload a) < 2 ^ 32.
Proof.
  intros Ha. pose proof (zlen_nonneg (payload a)).
  destruct a; simpl in *; try done; rewrite ?zlen_be_encode; lia.
Qed.

Lemma zlen_framed a : zlen (framed a) = 4 + zlen (payload a).
Proof. unfold framed. by rewrite zlen_app, zlen_be_encode. Qed.

Lemma framed_len_prefix p a r :
  storable a -> be_decode (slice (p ++ framed a ++ r) (zlen p) (zlen p + 4)) = zlen (payload a).
Proof.
  intros Ha%zlen_payload. rewrite slice_app_r by lia. unfold framed. rewrite <- app_assoc.
  rewrite slice_app_l by zlia. rewrite slice_full by zlia.
  unfold wrap32. rewrite Z.mod_small by done. by apply be_decode_encode.
Qed.

Lemma parse_framed_spec l p :
  Forall storable l ->
  parse_framed (p ++ concat (map framed l)) (map any_kind l) (zlen p)
  = Ok (storage_layout (zlen p) l, zlen (p ++ concat (map framed l))).
Proof.
  revert p. induction l as [|a l IH]; intros p Hl.
  { simpl. by rewrite app_nil_r. }
  inversion Hl as [|? ? Ha Hl']; subst. pose proof (zlen_payload a Ha).
  cbn [map concat parse_framed storage_layout]. rewrite framed_len_prefix by done.
  pose proof (zlen_nonneg (concat (map framed l))).
  rewrite !zlen_app, zlen_framed, !(proj2 (Z.ltb_ge _ _)) by lia.
  specialize (IH (p ++ framed a) Hl').
  rewrite <- app_assoc, !zlen_app, zlen_framed in IH.
  replace (zlen p + 4 + zlen (payload a)) with (zlen p + (4 + zlen (payload a))) by lia.
  rewrite IH. done.
Qed.

Lemma decode_storage_field_app x p r fs :
  storable x ->
  decode_storage_field (mkKey (p ++ framed x ++ r) fs)
    (mkField (any_kind x) (zlen p + 4) (zlen (payload x))) = Ok x.
Proof.
  intros Hx. pose proof (zlen_payload x Hx). unfold decode_storage_field.
  rewrite validateField_ok; simpl.
  - replace (p ++ framed x ++ r)
      with ((p ++ be_encode 4 (wrap32 (zlen (payload x)))) ++ payload x ++ r)
      by (unfold framed; by rewrite <- !app_assoc).
    assert (zlen p + 4 = zlen (p ++ be_encode 4 (wrap32 (zlen (payload x))))) as -> by zlia.
    set (q := p ++ be_encode 4 (wrap32 (zlen (payload x)))).
    assert (forall v, slice (q ++ v ++ r) (zlen q) (zlen q + zlen v) = v) as Hs.
    { intros v. rewrite slice_app_r, slice_app_l by (pose proof (zlen_nonneg v); lia).
      apply slice_full; lia. }
    destruct x; simpl in *; try done; unfold field_bytes; simpl;
      try (by rewrite Hs);
      rewrite uint64_at_app by auto using flip_sign_u64; by rewrite ?unflip_flip_sign.
  - pose proof (zlen_nonneg p). lia.
  - lia.
  - rewrite !zlen_app, zlen_framed. pose proof (zlen_nonneg r). lia.
  - destruct x; simpl; rewrite ?zlen_be_encode; intros []; done.
Qed.

Lemma storage_composite_decodes l :
  l <> [] -> Forall storable l ->
  exists k, EncodeStorageComposite l = Ok k /\
    ParseStorageCompositeKey (data k) (map any_kind l) = Ok k /\
    DecodeStorageComposite k = Ok l.
Proof.
  intros Hne Hl. unfold EncodeStorageComposite. rewrite storage_fields_spec by done. simpl.
  eexists. split; [done|]. split.
  - unfold ParseStorageCompositeKey. cbn [data].
    destruct (map any_kind l) as [|kd ks] eqn:Ek; [by destruct l|]. rewrite <- Ek.
    pose proof (parse_framed_spec l [] Hl) as Hp. simpl in Hp. change (zlen []) with 0 in Hp.
    rewrite Hp. simpl. by rewrite Z.eqb_refl.
  - unfold DecodeStorageComposite. cbn [fields].
    assert (forall p q, res_map (decode_storage_field (mkKey (p ++ concat (map framed l)) q))
                          (storage_layout (zlen p) l) = Ok l) as H.
    { clear Hne. induction Hl as [|x l Hx Hl IH]; intros p q; [done|].
      cbn [storage_layout res_map map concat]. rewrite decode_storage_field_app by done.
      specialize (IH (p ++ framed x) q). rewrite zlen_app, zlen_framed, <- app_assoc in IH.
      simpl. rewrite <- Z.add_assoc. by rewrite IH. }
    specialize (H [] (storage_layout 0 l)). destruct l; [done|]. exact H.
Qed.

(** a storage composite is recovered from its bytes: parsing them with the
    kinds of the fields gives the same key, and decoding it the same values. *)
Theorem storage_composite_roundtrip l :
  l <> [] -> Forall storable l ->
  exists k, EncodeStorageComposite l = Ok k /\
    ParseStorageCompositeKey (data k) (map any_kind l) = Ok k /\
    DecodeStorageComposite k = Ok l.
Proof. apply storage_composite_decodes. Qed.
