(* ===== verification/RowKey.v ===== *)
(** [internal/engine/sql/key/row.go]: table row keys
    [[0x01][tableID][pk columns][version]] and the prefixes that bound scans.

    The theorems: a row key decodes to the table, primary key and version it
    was built from; without [KindBytes] columns row keys sort by table, then
    primary key, then version, and a primary-key prefix bounds exactly the
    versions of that key; [PrefixEnd] bounds the keys with a prefix.  The
    [KindBytes] case is shown to lack that isolation. *)

From Stdlib Require Import ZArith Lia.
From S2P Require Import Prelude Key.
Open Scope Z_scope.
#[local] Transparent zrep.

Definition tableRowTag : byte := x01.

(** The bytes one primary-key column contributes ([switch v.kind]). *)
Definition pk_column (v : Value) : list byte :=
  match kind v with
  | KindUint64 => be_encode 8 (u v)
  | KindInt64 => be_encode 8 (flip_sign (swrap64 (u v)))
  | KindString => s v ++ [x00]
  | KindBytes => b v
  | KindOther _ => []
  end.

Definition EncodeTableRowKey (tableID : Z) (pk : list Value) (version : Z)
  : res key_err (list byte) :=
  match pk with
  | [] => Err ErrNoPKColumns
  | _ => Ok ([tableRowTag] ++ be_encode 8 tableID ++ concat (map pk_column pk)
             ++ be_encode 8 version)
  end.

Definition TablePrefix (tableID : Z) : list byte := [tableRowTag] ++ be_encode 8 tableID.

Definition EncodeTableRowPrefix (tableID : Z) (pk : list Value) : res key_err (list byte) :=
  match pk with
  | [] => Err ErrNoPKColumns
  | _ => Ok ([tableRowTag] ++ be_encode 8 tableID ++ concat (map pk_column pk))
  end.

(** The loop of [DecodeTableRowKey] over the expected kinds. *)
Fixpoint decode_pk (d : list byte) (ks : list Kind) (pos : Z) : res key_err (list Value * Z) :=
  match ks with
  | [] => Ok ([], pos)
  | kd :: ks' =>
      if zlen d <=? pos then Err ErrTruncated
      else match kd with
      | KindUint64 =>
          if zlen d <? pos + 8 then Err ErrTruncated
          else '(vs, p) ← decode_pk d ks' (pos + 8); Ok (Uint64 (uint64_at d pos) :: vs, p)
      | KindInt64 =>
          if zlen d <? pos + 8 then Err ErrTruncated
          else '(vs, p) ← decode_pk d ks' (pos + 8);
               Ok (Int64 (unflip_sign (uint64_at d pos)) :: vs, p)
      | KindString =>
          match index_nul (zdrop pos d) with
          | None => Err ErrTruncated
          | Some e =>
              '(vs, p) ← decode_pk d ks' (pos + e + 1);
              Ok (String (slice d pos (pos + e)) :: vs, p)
          end
      | KindBytes =>
          match ks' with
          | _ :: _ => Err ErrInvalidKey
          | [] =>
              if zlen d <? pos + 8 then Err ErrTruncated
              else let dataLen := zlen d - pos - 8 in
                   Ok ([Bytes (slice d pos (pos + dataLen))], pos + dataLen)
          end
      | KindOther _ => Err ErrInvalidKey
      end
  end.

Definition DecodeTableRowKey (d : list byte) (expectedKinds : list Kind)
  : res key_err (Z * list Value * Z) :=
  if zlen d <? 1 + 8 then Err ErrTruncated
  else if negb (bool_decide (head d = Some tableRowTag)) then Err ErrBadTag
  else
    let tableID := uint64_at d 1 in
    '(pk, pos) ← decode_pk d expectedKinds 9;
    if pos + 8 =? zlen d then Ok (tableID, pk, uint64_at d pos) else Err ErrTruncated.

(** Increment of a byte string as a counter, least significant byte first. *)
Fixpoint increment (r : list byte) : list byte :=
  match r with
  | [] => []
  | x :: r' =>
      let x' := z2b (b2z x + 1) in
      if Byte.eqb x00 x' then x' :: increment r' else x' :: r'
  end.

Definition PrefixEnd (p : list byte) : option (list byte) :=
  match p with
  | [] => None
  | _ => if forallb (Byte.eqb xff) p then None else Some (rev (increment (rev p)))
  end.

(** * Round trip *)

(** The values the constructors [Uint64], [Int64], [String] and [Bytes] build
    from Go values, with strings free of NUL. *)
Inductive canonical : Value -> Prop :=
| canon_uint64 v : u64 v -> canonical (Uint64 v)
| canon_int64 v : i64 v -> canonical (Int64 v)
| canon_string v : contains_nul v = false -> canonical (String v)
| canon_bytes v : canonical (Bytes v).

(** [KindBytes] only in the last column. *)
Fixpoint bytes_last (pk : list Value) : Prop :=
  match pk with
  | [] => True
  | v :: pk' => (kind v = KindBytes -> pk' = []) /\ bytes_last pk'
  end.

Definition no_bytes (pk : list Value) : Prop := Forall (fun v => kind v <> KindBytes) pk.

Lemma no_bytes_bytes_last pk : no_bytes pk -> bytes_last pk.
Proof. induction 1; simpl; [done|]. split; [by intros|done]. Qed.

Lemma index_nul_app v r : contains_nul v = false -> index_nul (v ++ x00 :: r) = Some (zlen v).
Proof.
  induction v as [|x v IH]; intros H; [done|].
  change (Byte.eqb x00 x || contains_nul v = false) in H.
  apply orb_false_elim in H as [Hx Hv].
  cbn [app index_nul]. rewrite Hx, IH by done. simpl. rewrite zlen_cons. f_equal. lia.
Qed.

Lemma slice_mid {A} (p v r : list A) : slice (p ++ v ++ r) (zlen p) (zlen p + zlen v) = v.
Proof.
  rewrite slice_app_r, slice_app_l by (pose proof (zlen_nonneg v); lia).
  apply slice_full; lia.
Qed.

Lemma zlen_pk_column_fixed v :
  kind v = KindUint64 \/ kind v = KindInt64 -> zlen (pk_column v) = 8.
Proof. unfold pk_column. intros [-> | ->]; apply zlen_be_encode. Qed.

(** Decoding the columns of a key in which eight version bytes follow them. *)
Lemma decode_pk_spec pk p ver :
  Forall canonical pk -> bytes_last pk -> zlen ver = 8 ->
  decode_pk (p ++ concat (map pk_column pk) ++ ver) (map kind pk) (zlen p)
  = Ok (pk, zlen (p ++ concat (map pk_column pk))).
Proof.
  intros Hc Hb Hver. revert p Hb. induction Hc as [|v pk Hv Hc IH]; intros p Hb.
  { cbn [map concat decode_pk]. by rewrite !app_nil_r. }
  destruct Hb as [Hlast Hb]. cbn [map concat decode_pk].
  pose proof (zlen_nonneg p). pose proof (zlen_nonneg (pk_column v)).
  pose proof (zlen_nonneg (concat (map pk_column pk))).
  rewrite (proj2 (Z.leb_gt _ _)) by zlia.
  specialize (IH (p ++ pk_column v) Hb). rewrite <- !app_assoc in IH. rewrite zlen_app in IH.
  destruct Hv as [v Hv|v Hv|v Hv|v]; cbn [kind Uint64 Int64 String Bytes].
  - rewrite zlen_pk_column_fixed in IH by (simpl; auto).
    assert (zlen (pk_column (Uint64 v)) = 8) by (apply zlen_be_encode).
    rewrite (proj2 (Z.ltb_ge _ _)) by zlia. rewrite <- app_assoc, IH. simpl.
    unfold pk_column at 1. simpl. by rewrite uint64_at_app.
  - rewrite zlen_pk_column_fixed in IH by (simpl; auto).
    assert (zlen (pk_column (Int64 v)) = 8) by (apply zlen_be_encode).
    rewrite (proj2 (Z.ltb_ge _ _)) by zlia. rewrite <- app_assoc, IH. simpl.
    unfold pk_column at 1. simpl. rewrite swrap64_wrap64 by done.
    by rewrite uint64_at_app, unflip_flip_sign by auto using flip_sign_u64.
  - rewrite <- app_assoc. rewrite zdrop_app_eq by done.
    unfold pk_column at 1. cbn [kind String s]. rewrite <- app_assoc.
    change ([x00] ++ concat (map pk_column pk) ++ ver) with (x00 :: concat (map pk_column pk) ++ ver).
    rewrite index_nul_app by done. unfold pk_column at 3 in IH. cbn [kind String s] in IH.
    rewrite zlen_app in IH. change (zlen [x00]) with 1 in IH. rewrite Z.add_assoc in IH.
    rewrite IH. simpl. unfold pk_column at 1. cbn [kind String s]. rewrite <- app_assoc.
    by rewrite slice_mid.
  - rewrite (Hlast eq_refl) in *. cbn [map concat]. rewrite app_nil_r.
    unfold pk_column. cbn [kind Bytes b].
    rewrite (proj2 (Z.ltb_ge _ _)) by (pose proof (zlen_nonneg v); zlia).
    replace (zlen p + (zlen (p ++ v ++ ver) - zlen p - 8)) with (zlen p + zlen v) by zlia.
    rewrite slice_mid. by rewrite zlen_app.
Qed.

Lemma uint64_at_end p v : u64 v -> uint64_at (p ++ be_encode 8 v) (zlen p) = v.
Proof. intros. rewrite <- (app_nil_r (be_encode 8 v)). by apply uint64_at_app. Qed.

Lemma row_key_decodes tableID pk version :
  u64 tableID -> u64 version -> pk <> [] -> Forall canonical pk -> bytes_last pk ->
  exists d, EncodeTableRowKey tableID pk version = Ok d /\
    DecodeTableRowKey d (map kind pk) = Ok (tableID, pk, version).
Proof.
  intros Ht Hv Hne Hc Hb. unfold EncodeTableRowKey.
  destruct pk as [|v0 pk0] eqn:Epk; [done|]. rewrite <- Epk in *. clear Hne Epk.
  eexists. split; [done|]. unfold DecodeTableRowKey.
  pose proof (zlen_nonneg (concat (map pk_column pk))).
  rewrite (proj2 (Z.ltb_ge _ _)) by zlia. cbn [head app bool_decide]. 
  rewrite bool_decide_eq_true_2 by done. cbn [negb].
  change (tableRowTag :: be_encode 8 tableID ++ concat (map pk_column pk) ++ be_encode 8 version)
    with ([tableRowTag] ++ be_encode 8 tableID ++ (concat (map pk_column pk) ++ be_encode 8 version)).
  rewrite (uint64_at_app [tableRowTag]) by done.
  rewrite app_assoc. change 9 with (zlen ([tableRowTag] ++ be_encode 8 tableID)).
  rewrite decode_pk_spec by done. rewrite res_bind_ok.
  rewrite (app_assoc _ _ (be_encode 8 version)), uint64_at_end by done.
  rewrite (proj2 (Z.eqb_eq _ _)) by zlia. done.
Qed.

(** [DecodeTableRowKey] inverts [EncodeTableRowKey]. *)
Theorem row_key_roundtrip tableID pk version :
  u64 tableID -> u64 version -> pk <> [] -> Forall canonical pk -> bytes_last pk ->
  exists d, EncodeTableRowKey tableID pk version = Ok d /\
    DecodeTableRowKey d (map kind pk) = Ok (tableID, pk, version).
Proof. apply row_key_decodes. Qed.

(** * Order *)

(** Comparison of column values of one kind, and of rows of columns. *)
Definition value_compare (v w : Value) : comparison :=
  match kind v with
  | KindUint64 => Z.compare (u v) (u w)
  | KindInt64 => Z.compare (swrap64 (u v)) (swrap64 (u w))
  | KindString => bytes_compare (s v) (s w)
  | _ => bytes_compare (b v) (b w)
  end.

Fixpoint values_compare (l m : list Value) : comparison :=
  match l, m with
  | x :: l', y :: m' => match value_compare x y with Eq => values_compare l' m' | c => c end
  | _, _ => Eq
  end.

Lemma value_compare_eq v w :
  canonical v -> canonical w -> kind v = kind w -> value_compare v w = Eq <-> v = w.
Proof.
  intros Hv Hw. destruct Hv, Hw; cbn; try done; intros _.
  - rewrite Z.compare_eq_iff. split; [by intros ->|by intros [=]].
  - rewrite !swrap64_wrap64, Z.compare_eq_iff by done. split; [by intros ->|].
    intros [= H1]. rewrite <- (swrap64_wrap64 v), <- (swrap64_wrap64 v0) by done. by rewrite H1.
  - rewrite bytes_compare_eq. split; [by intros ->|by intros [=]].
  - rewrite bytes_compare_eq. split; [by intros ->|by intros [=]].
Qed.

Lemma values_compare_eq l m :
  Forall canonical l -> Forall canonical m -> map kind l = map kind m ->
  values_compare l m = Eq <-> l = m.
Proof.
  intros Hl. revert m. induction Hl as [|v l Hv Hl IH]; intros m Hm Hk;
    destruct Hm as [|w m Hw Hm]; try done.
  simpl in Hk. injection Hk as Hk Hk'. cbn [values_compare].
  destruct (value_compare v w) eqn:E.
  - apply value_compare_eq in E as ->; try done. rewrite IH by done.
    split; [by intros ->|by intros [=]].
  - split; [done|]. intros [= -> _]. by rewrite (proj2 (value_compare_eq w w Hw Hw eq_refl)) in E.
  - split; [done|]. intros [= -> _]. by rewrite (proj2 (value_compare_eq w w Hw Hw eq_refl)) in E.
Qed.

(** A NUL-terminated string decides the comparison of what follows it. *)
Lemma string_terminated_compare x y r r' :
  contains_nul x = false -> contains_nul y = false ->
  bytes_compare (x ++ x00 :: r) (y ++ x00 :: r')
  = match bytes_compare x y with Eq => bytes_compare r r' | c => c end.
Proof.
  assert (forall c, Byte.eqb x00 c = false -> (b2z x00 ?= b2z c) = Lt) as Hlt
    by (by intros []). assert (forall c, Byte.eqb x00 c = false -> (b2z c ?= b2z x00) = Gt) as Hgt
    by (by intros []).
  revert y. induction x as [|a x IH]; intros [|c y]; cbn [app bytes_compare].
  - by rewrite Z.compare_refl.
  - intros _ [Hc _]%orb_false_elim. by rewrite Hlt.
  - intros [Ha _]%orb_false_elim _. by rewrite Hgt.
  - intros [_ Hx]%orb_false_elim [_ Hy]%orb_false_elim.
    destruct (b2z a ?= b2z c); try done. by apply IH.
Qed.

Lemma fixed_width_compare p q r r' :
  length p = length q ->
  bytes_compare (p ++ r) (q ++ r')
  = match bytes_compare p q with Eq => bytes_compare r r' | c => c end.
Proof.
  intros Hl. destruct (bytes_compare p q) eqn:E.
  - apply bytes_compare_eq in E as ->. apply bytes_compare_app.
  - rewrite bytes_compare_app_len; [done..|]. intros ->. by rewrite bytes_compare_refl in E.
  - rewrite bytes_compare_app_len; [done..|]. intros ->. by rewrite bytes_compare_refl in E.
Qed.

Lemma pk_column_compare v w r r' :
  canonical v -> canonical w -> kind v = kind w -> kind v <> KindBytes ->
  bytes_compare (pk_column v ++ r) (pk_column w ++ r')
  = match value_compare v w with Eq => bytes_compare r r' | c => c end.
Proof.
  intros Hv Hw Hk Hb. destruct Hv, Hw; try (by inversion Hk); try done;
    unfold pk_column, value_compare; cbn.
  - rewrite fixed_width_compare by by rewrite !length_be_encode.
    by rewrite bytes_compare_be_encode.
  - rewrite fixed_width_compare by by rewrite !length_be_encode.
    rewrite !swrap64_wrap64 by done.
    rewrite bytes_compare_be_encode by by apply flip_sign_u64.
    by rewrite !flip_sign_spec, compare_add_r by done.
  - rewrite <- !app_assoc. by apply string_terminated_compare.
Qed.

Lemma pk_columns_compare l m r r' :
  Forall canonical l -> Forall canonical m -> map kind l = map kind m -> no_bytes l ->
  bytes_compare (concat (map pk_column l) ++ r) (concat (map pk_column m) ++ r')
  = match values_compare l m with Eq => bytes_compare r r' | c => c end.
Proof.
  intros Hl. revert m. induction Hl as [|v l Hv Hl IH]; intros m Hm Hk Hb;
    destruct Hm as [|w m Hw Hm]; try done.
  simpl in Hk. injection Hk as Hk Hk'. inversion Hb; subst.
  cbn [map concat values_compare]. rewrite <- !app_assoc, pk_column_compare by done.
  destruct (value_compare v w); try done. by apply IH.
Qed.

Lemma row_keys_compare t1 t2 pk1 pk2 v1 v2 d1 d2 :
  u64 t1 -> u64 t2 -> u64 v1 -> u64 v2 ->
  Forall canonical pk1 -> Forall canonical pk2 -> map kind pk1 = map kind pk2 -> no_bytes pk1 ->
  EncodeTableRowKey t1 pk1 v1 = Ok d1 -> EncodeTableRowKey t2 pk2 v2 = Ok d2 ->
  bytes_compare d1 d2
  = match Z.compare t1 t2 with
    | Eq => match values_compare pk1 pk2 with Eq => Z.compare v1 v2 | c => c end
    | c => c
    end.
Proof.
  intros Ht1 Ht2 Hv1 Hv2 Hc1 Hc2 Hk Hb. unfold EncodeTableRowKey.
  destruct pk1 as [|a1 l1] eqn:E1; [done|]. rewrite <- E1 in *. intros [= <-].
  destruct pk2 as [|a2 l2] eqn:E2; [done|]. rewrite <- E2 in *. intros [= <-].
  change (bytes_compare (?x :: ?a) (?x :: ?c)) with (bytes_compare ([x] ++ a) ([x] ++ c)).
  rewrite (bytes_compare_app [tableRowTag]).
  rewrite fixed_width_compare by by rewrite !length_be_encode.
  rewrite bytes_compare_be_encode by done. destruct (t1 ?= t2); try done.
  rewrite pk_columns_compare by done. destruct (values_compare pk1 pk2); try done.
  by apply bytes_compare_be_encode.
Qed.

(** without [KindBytes] columns, row keys sort by table, then by the
    primary-key columns as values, then by version. *)
Theorem row_key_order t1 t2 pk1 pk2 v1 v2 d1 d2 :
  u64 t1 -> u64 t2 -> u64 v1 -> u64 v2 ->
  Forall canonical pk1 -> Forall canonical pk2 -> map kind pk1 = map kind pk2 -> no_bytes pk1 ->
  EncodeTableRowKey t1 pk1 v1 = Ok d1 -> EncodeTableRowKey t2 pk2 v2 = Ok d2 ->
  bytes_compare d1 d2
  = match Z.compare t1 t2 with
    | Eq => match values_compare pk1 pk2 with Eq => Z.compare v1 v2 | c => c end
    | c => c
    end.
Proof. apply row_keys_compare. Qed.

(** * Prefix ranges *)

Lemma increment_spec r :
  length (increment r) = length r /\
  be_decode (rev (increment r))
  = if forallb (Byte.eqb xff) r then 0 else be_decode (rev r) + 1.
Proof.
  induction r as [|x r [IHl IH]]; [done|]. cbn [increment forallb rev].
  destruct (decide (x = xff)) as [->|Hx].
  - change (z2b (b2z xff + 1)) with x00. change (Byte.eqb x00 x00) with true.
    change (Byte.eqb xff xff) with true. cbn [length rev andb].
    split; [by rewrite IHl|]. rewrite be_decode_snoc, IH. change (b2z x00) with 0.
    destruct (forallb (Byte.eqb xff) r); [done|].
    rewrite be_decode_snoc. change (b2z xff) with 255. lia.
  - assert (b2z x < 255) as Hlt.
    { pose proof (b2z_range x). destruct (Z.eq_dec (b2z x) 255) as [E|]; [|lia].
      contradict Hx. by apply b2z_inj. }
    pose proof (b2z_range x).
    assert (b2z (z2b (b2z x + 1)) = b2z x + 1) as Hb by (rewrite b2z_z2b, Z.mod_small; lia).
    destruct (Byte.eqb x00 (z2b (b2z x + 1))) eqn:E0.
    { apply Byte.byte_dec_bl in E0. rewrite <- E0 in Hb. change (b2z x00) with 0 in Hb. lia. }
    destruct (Byte.eqb xff x) eqn:Ef; [by apply Byte.byte_dec_bl in Ef|]. cbn [andb length rev].
    split; [done|]. rewrite !be_decode_snoc, Hb. lia.
Qed.

(** [PrefixEnd] is the successor of the prefix read as a number of its length. *)
Lemma PrefixEnd_spec p e :
  PrefixEnd p = Some e -> length e = length p /\ be_decode e = be_decode p + 1.
Proof.
  intros H. assert (forallb (Byte.eqb xff) p = false /\ e = rev (increment (rev p))) as [Ef ->].
  { destruct p as [|x p]; [done|]. unfold PrefixEnd in H.
    destruct (forallb (Byte.eqb xff) (x :: p)); [done|]. by injection H as <-. }
  destruct (increment_spec (rev p)) as [Hl Hd].
  rewrite length_rev, Hl, length_rev. split; [done|]. rewrite Hd, rev_involutive.
  destruct (forallb (Byte.eqb xff) (rev p)) eqn:Er; [|done].
  rewrite forallb_forall in Er. assert (forallb (Byte.eqb xff) p = true); [|congruence].
  apply forallb_forall. intros y Hy. apply Er. by apply in_rev in Hy.
Qed.

Lemma PrefixEnd_range p e :
  PrefixEnd p = Some e ->
  (forall r, bytes_le p (p ++ r) /\ bytes_lt (p ++ r) e) /\
  (forall k, bytes_le p k -> bytes_lt k e -> (length p <= length k)%nat -> exists r, k = p ++ r).
Proof.
  intros [Hl Hd]%PrefixEnd_spec.
  assert (bytes_lt p e) as Hpe.
  { unfold bytes_lt. rewrite bytes_compare_be_decode, Hd by done. apply Z.compare_lt_iff. lia. }
  split.
  - intros r. split; [apply bytes_le_app|]. unfold bytes_lt.
    rewrite <- (app_nil_r e). rewrite bytes_compare_app_len; [done|done|].
    intros ->. by apply bytes_lt_irrefl in Hpe.
  - intros k Hpk Hke Hlen. rewrite <- (take_drop (length p) k) in Hpk, Hke |- *.
    set (k0 := take (length p) k) in *. assert (length k0 = length p) as Hk0.
    { unfold k0. rewrite length_take. lia. }
    exists (drop (length p) k). f_equal. apply be_decode_inj; [done|].
    destruct (decide (k0 = p)) as [->|Hne]; [done|].
    unfold bytes_le in Hpk. rewrite <- (app_nil_r p) in Hpk at 1.
    rewrite bytes_compare_app_len, bytes_compare_be_decode in Hpk by auto.
    assert (bytes_lt k0 e) as Hk0e.
    { eapply bytes_le_lt_trans; [apply bytes_le_app|exact Hke]. }
    unfold bytes_lt in Hk0e. rewrite bytes_compare_be_decode in Hk0e by congruence.
    rewrite Z.compare_lt_iff in Hk0e. rewrite Z.compare_le_iff in Hpk. lia.
Qed.

(** [PrefixEnd p], when there is one, is greater than every key that
    starts with [p], and every key in [[p, PrefixEnd p)] that is at least as
    long as [p] starts with [p]. *)
Theorem PrefixEnd_bounds p e :
  PrefixEnd p = Some e ->
  (forall r, bytes_le p (p ++ r) /\ bytes_lt (p ++ r) e) /\
  (forall k, bytes_le p k -> bytes_lt k e -> (length p <= length k)%nat -> exists r, k = p ++ r).
Proof. apply PrefixEnd_range. Qed.



(** ** A primary-key prefix isolates the versions of one row *)

Lemma not_all_ff_nul w : In x00 w -> forallb (Byte.eqb xff) w = false.
Proof.
  intros H. destruct (forallb (Byte.eqb xff) w) eqn:E; [|done].
  rewrite forallb_forall in E. by specialize (E _ H).
Qed.

(** A string with a NUL is below the all-0xFF string of its length. *)
Lemma nul_below_ff w : In x00 w -> bytes_lt w (zrep (zlen w) xff).
Proof.
  unfold bytes_lt, zrep, zlen. rewrite Nat2Z.id.
  induction w as [|x w IH]; [done|]. simpl. change (b2z xff) with 255.
  pose proof (b2z_range x). destruct (Z.compare_spec (b2z x) 255) as [E|E|E]; [|done|lia].
  intros [->|H']; [done|]. by apply IH.
Qed.

(** Where two byte strings part: a common part, then a smaller and a greater
    byte, and a tail of the first that is not longer than that of the second
    or holds a NUL. *)
Definition parts_below (c1 c2 : list byte) : Prop :=
  exists c x y w1 w2,
    c1 = c ++ x :: w1 /\ c2 = c ++ y :: w2 /\ b2z x < b2z y /\
    ((length w1 <= length w2)%nat \/ In x00 w1).

Lemma parts_below_app c l m : parts_below l m -> parts_below (c ++ l) (c ++ m).
Proof.
  intros (c' & x & y & w1 & w2 & -> & -> & ? & ?).
  exists (c ++ c'), x, y, w1, w2. by rewrite <- !app_assoc.
Qed.

Lemma parts_below_tail l m r r' :
  parts_below l m -> (length r <= length r')%nat \/ In x00 r -> parts_below (l ++ r) (m ++ r').
Proof.
  intros (c & x & y & w1 & w2 & -> & -> & ? & Hw) Hr.
  exists c, x, y, (w1 ++ r), (w2 ++ r'). rewrite <- !app_assoc. split_and!; try done.
  rewrite !length_app, in_app_iff. destruct Hw, Hr; auto. left. lia.
Qed.

Lemma bytes_lt_parts l m :
  length l = length m -> bytes_lt l m -> parts_below l m.
Proof.
  revert m. induction l as [|x l IH]; intros [|y m]; try done. intros Hl.
  unfold bytes_lt. cbn [bytes_compare]. destruct (Z.compare_spec (b2z x) (b2z y)) as [E|E|E]; try done.
  - intros Hlt. apply b2z_inj in E as ->. apply (parts_below_app [y]), IH; [by injection Hl|done].
  - intros _. exists [], x, y, l, m. split_and!; try done. left. injection Hl. lia.
Qed.

(** The columns after a difference: same length, or the first one has a NUL. *)
Lemma pk_tail l m :
  Forall canonical l -> Forall canonical m -> map kind l = map kind m -> no_bytes l ->
  (length (concat (map pk_column l)) <= length (concat (map pk_column m)))%nat
  \/ In x00 (concat (map pk_column l)).
Proof.
  intros Hl. revert m. induction Hl as [|v l Hv Hl IH]; intros m Hm Hk Hb;
    destruct Hm as [|w m Hw Hm]; try done; [by left|].
  simpl in Hk. injection Hk as Hk Hk'. inversion Hb; subst. cbn [map concat].
  rewrite !length_app, in_app_iff.
  destruct (IH m Hm Hk') as [IHl|]; [done| |by auto].
  assert (forall v, kind v = KindUint64 \/ kind v = KindInt64 -> length (pk_column v) = 8%nat) as H8.
  { intros v0 Hv0. apply zlen_pk_column_fixed in Hv0. unfold zlen in Hv0. lia. }
  destruct Hv, Hw; try (by inversion Hk); try done.
  - left. rewrite !H8 by (simpl; auto). lia.
  - left. rewrite !H8 by (simpl; auto). lia.
  - right. left. apply in_app_iff. right. by left.
Qed.

Lemma pk_columns_parts l m :
  Forall canonical l -> Forall canonical m -> map kind l = map kind m -> no_bytes l ->
  values_compare l m = Lt ->
  parts_below (concat (map pk_column l)) (concat (map pk_column m)).
Proof.
  intros Hl. revert m. induction Hl as [|v l Hv Hl IH]; intros m Hm Hk Hb;
    destruct Hm as [|w m Hw Hm]; try done.
  simpl in Hk. injection Hk as Hk Hk'. inversion Hb; subst. cbn [map concat values_compare].
  destruct (value_compare v w) eqn:E; [| |done].
  { intros Hlt. apply value_compare_eq in E as ->; try done. by apply parts_below_app, IH. }
  intros _. pose proof (pk_tail l m Hl Hm Hk' ltac:(done)) as Ht.
  assert (forall r r', bytes_compare (pk_column v ++ r) (pk_column w ++ r') = Lt) as Hc.
  { intros r r'. by rewrite pk_column_compare, E. }
  destruct Hv as [v Hv|v Hv|v Hv|v], Hw as [w Hw|w Hw|w Hw|w]; try (by inversion Hk); try done.
  1, 2: apply parts_below_tail; [|done]; apply bytes_lt_parts;
    [unfold pk_column; cbn; by rewrite !length_be_encode|];
    specialize (Hc [] []); by rewrite !app_nil_r in Hc.
  change (bytes_compare v w = Lt) in E. clear - Ht Hv Hw E.
  change (pk_column (String v)) with (v ++ [x00]). change (pk_column (String w)) with (w ++ [x00]).
  rewrite <- !app_assoc. change ([x00] ++ ?l) with (x00 :: l). revert w Hv Hw E.
  induction v as [|a v IHv]; intros [|c w] Hv Hw E; try done.
  - apply orb_false_elim in Hw as [Hc _].
    exists [], x00, c, (concat (map pk_column l)), (w ++ x00 :: concat (map pk_column m)).
    split_and!; try done; [by destruct c|]. destruct Ht; [left|by right].
    rewrite length_app. simpl. lia.
  - apply orb_false_elim in Hv as [_ Hv], Hw as [_ Hw].
    cbn [bytes_compare] in E. destruct (Z.compare_spec (b2z a) (b2z c)) as [Eac|Eac|]; [| |done].
    + apply b2z_inj in Eac as ->. apply (parts_below_app [c]). by apply IHv.
    + exists [], a, c, (v ++ x00 :: concat (map pk_column l)), (w ++ x00 :: concat (map pk_column m)).
      split_and!; try done. right. apply in_app_iff. right. by left.
Qed.

(** A string that parts from [p] upwards is not below the end of [p]'s range. *)
Lemma parts_below_PrefixEnd p d e :
  parts_below p d -> PrefixEnd p = Some e -> ~ bytes_lt d e.
Proof.
  intros (c & x & y & w1 & w2 & Hp & Hd & Hxy & Hw) He Hlt.
  destruct (PrefixEnd_range p e He) as [_ Hin]. apply PrefixEnd_spec in He as [Hle Hde].
  assert (forall w, bytes_lt (c ++ x :: w) d) as Hbelow.
  { intros w. subst d. unfold bytes_lt. rewrite bytes_compare_app. cbn [bytes_compare].
    by rewrite (proj2 (Z.compare_lt_iff _ _)). }
  destruct Hw as [Hlen|Hnul].
  - destruct (Hin d) as [r Hr]; [rewrite Hp; apply bytes_lt_le, Hbelow|done| |].
    + subst. rewrite !length_app. simpl. lia.
    + subst. rewrite <- app_assoc in Hr. apply app_inv_head in Hr.
      injection Hr as -> _. lia.
  - assert (bytes_lt e d) as H.
    { eapply bytes_le_lt_trans; [|apply (Hbelow (zrep (zlen w1) xff))].
      assert (length (zrep (zlen w1) xff) = length w1) as Hrl
        by (unfold zrep, zlen; rewrite length_replicate; lia).
      unfold bytes_le. rewrite bytes_compare_be_decode.
      2: { rewrite Hle, Hp, !length_app. simpl. by rewrite Hrl. }
      rewrite Z.compare_le_iff, Hde.
      assert (bytes_lt p (c ++ x :: zrep (zlen w1) xff)) as Hff.
      { subst p. unfold bytes_lt. rewrite bytes_compare_app. cbn [bytes_compare].
        rewrite Z.compare_refl. by apply nul_below_ff. }
      unfold bytes_lt in Hff. rewrite bytes_compare_be_decode, Z.compare_lt_iff in Hff; [lia|].
      rewrite Hp, !length_app. simpl. by rewrite Hrl. }
    by eapply bytes_lt_irrefl, bytes_lt_trans.
Qed.

Lemma pk_prefix_range t1 t2 pk1 pk2 v p e d :
  u64 t1 -> u64 t2 ->
  Forall canonical pk1 -> Forall canonical pk2 -> map kind pk1 = map kind pk2 -> no_bytes pk1 ->
  EncodeTableRowPrefix t1 pk1 = Ok p -> PrefixEnd p = Some e -> EncodeTableRowKey t2 pk2 v = Ok d ->
  (bytes_le p d /\ bytes_lt d e) <-> (t1 = t2 /\ pk1 = pk2).
Proof.
  intros Ht1 Ht2 Hc1 Hc2 Hk Hb Hp He Hd.
  set (q1 := Uint64 t1 :: pk1). set (q2 := Uint64 t2 :: pk2).
  assert (p = [tableRowTag] ++ concat (map pk_column q1)) as Hp'
    by (unfold EncodeTableRowPrefix in Hp; destruct pk1; [done|]; by injection Hp as <-).
  assert (d = [tableRowTag] ++ concat (map pk_column q2) ++ be_encode 8 v) as Hd'.
  { unfold EncodeTableRowKey in Hd. destruct pk2; [done|]. injection Hd as <-.
    unfold q2. cbn [map concat]. by rewrite <- !app_assoc. }
  assert (Forall canonical q1) as Hq1 by (constructor; [by constructor|done]).
  assert (Forall canonical q2) as Hq2 by (constructor; [by constructor|done]).
  assert (map kind q1 = map kind q2) as Hkq by (simpl; by rewrite Hk).
  assert (no_bytes q1) as Hbq by (by constructor).
  assert (q1 = q2 <-> t1 = t2 /\ pk1 = pk2) as <-.
  { unfold q1, q2. split; [by intros [= -> ->]|by intros [-> ->]]. }
  split.
  - intros [Hle Hlt]. apply values_compare_eq; try done.
    destruct (values_compare q1 q2) eqn:E; [done| |].
    + apply pk_columns_parts in E; try done. exfalso.
      eapply parts_below_PrefixEnd; [|exact He|exact Hlt]. subst p d. apply parts_below_app.
      rewrite <- (app_nil_r (concat (map pk_column q1))).
      apply parts_below_tail; [done|]. left. simpl. lia.
    + exfalso. apply Hle. subst p d. rewrite bytes_compare_app.
      rewrite <- (app_nil_r (concat (map pk_column q1))).
      by rewrite pk_columns_compare, E by done.
  - intros E. rewrite E in Hp'. rewrite app_assoc, <- Hp' in Hd'. rewrite Hd'.
    by apply PrefixEnd_range.
Qed.

(** the range [[prefix, PrefixEnd prefix)] that [heap] scans for a primary
    key without [KindBytes] columns holds, of all row keys of that layout,
    exactly the versions of that primary key. *)
Theorem pk_prefix_isolates t1 t2 pk1 pk2 v p e d :
  u64 t1 -> u64 t2 ->
  Forall canonical pk1 -> Forall canonical pk2 -> map kind pk1 = map kind pk2 -> no_bytes pk1 ->
  EncodeTableRowPrefix t1 pk1 = Ok p -> PrefixEnd p = Some e -> EncodeTableRowKey t2 pk2 v = Ok d ->
  (bytes_le p d /\ bytes_lt d e) <-> (t1 = t2 /\ pk1 = pk2).
Proof. apply pk_prefix_range. Qed.

(** ** Only row keys decode *)

Lemma be_encode_uint64_at d pos :
  0 <= pos -> pos + 8 <= zlen d -> be_encode 8 (uint64_at d pos) = slice d pos (pos + 8).
Proof.
  intros. unfold uint64_at. apply be_encode_decode.
  pose proof (zlen_slice d pos (pos + 8) ltac:(lia) ltac:(lia)). unfold zlen in *. lia.
Qed.

Lemma uint64_at_u64 d pos : 0 <= pos -> pos + 8 <= zlen d -> u64 (uint64_at d pos).
Proof. intros. apply be_decode_u64. rewrite zlen_slice; lia. Qed.

Lemma flip_unflip_sign x : u64 x -> flip_sign (unflip_sign x) = x /\ i64 (unflip_sign x).
Proof.
  intros Hx. unfold flip_sign, unflip_sign.
  assert (forall y, i64 (swrap64 y)) as Hi.
  { intros y. unfold swrap64, i64. pose proof (Z.mod_pos_bound (y + 2 ^ 63) (2 ^ 64) ltac:(lia)). lia. }
  split; [|apply Hi].
  assert (0 <= Z.lxor x (2 ^ 63) < 2 ^ 64) as Hr.
  { unfold u64 in Hx. destruct (Z.lt_ge_cases x (2 ^ 63)).
    - rewrite lxor_high by lia. lia.
    - rewrite lxor_high_hi by lia. lia. }
  assert (wrap64 (swrap64 (Z.lxor x (2 ^ 63))) = Z.lxor x (2 ^ 63)) as ->.
  { unfold wrap64, swrap64. rewrite Zminus_mod_idemp_l. rewrite Z.add_simpl_r. by apply Z.mod_small. }
  by rewrite Z.lxor_assoc, Z.lxor_nilpotent, Z.lxor_0_r.
Qed.

Lemma index_nul_split d e :
  index_nul d = Some e -> exists r, d = ztake e d ++ x00 :: r /\ contains_nul (ztake e d) = false.
Proof.
  revert e. induction d as [|x d IH]; intros e; [done|]. cbn [index_nul].
  destruct (Byte.eqb x00 x) eqn:E; [intros [= <-]; exists d; rewrite ztake_0; split;
    [by apply Byte.byte_dec_bl in E as <-|done]|].
  destruct (index_nul d) as [e'|] eqn:F; [|done]. intros [= <-].
  destruct (IH e' eq_refl) as (r & Hr & Hn). pose proof (index_nul_range _ _ F).
  assert (ztake (Z.succ e') (x :: d) = x :: ztake e' d) as ->.
  { unfold ztake. by replace (Z.to_nat (Z.succ e')) with (S (Z.to_nat e')) by lia. }
  exists r. split; [cbn [app]; by rewrite <- Hr|]. cbn [contains_nul existsb]. by rewrite E.
Qed.

(** The columns [decode_pk] returns are those between the positions. *)
Lemma decode_pk_sound d ks pos pk p :
  Forall (fun k => k <> KindBytes) ks -> 0 <= pos <= zlen d -> decode_pk d ks pos = Ok (pk, p) ->
  pos <= p <= zlen d /\ slice d pos p = concat (map pk_column pk) /\
  map kind pk = ks /\ Forall canonical pk.
Proof.
  intros Hb. revert pos pk p. induction Hb as [|kd ks Hk Hb IH]; intros pos pk p Hpos; cbn [decode_pk].
  { intros [= <- <-]. split; [lia|]. split; [|by split; [|constructor]].
    unfold slice, ztake. by rewrite Z.sub_diag. }
  destruct (Z.leb_spec (zlen d) pos); [done|].
  destruct kd; [| | |done|done].
  - destruct (Z.ltb_spec (zlen d) (pos + 8)); [done|].
    destruct (decode_pk d ks (pos + 8)) as [[vs q]|] eqn:E; [|done]. intros [= <- <-].
    apply IH in E as (Hq & Hs & Hm & Hc); [|lia]. split; [lia|].
    rewrite (slice_split d pos q (pos + 8)), Hs by lia. cbn [map concat].
    rewrite <- be_encode_uint64_at by lia. split; [done|]. split; [by rewrite Hm|].
    constructor; [|done]. constructor. apply uint64_at_u64; lia.
  - destruct (Z.ltb_spec (zlen d) (pos + 8)); [done|].
    destruct (decode_pk d ks (pos + 8)) as [[vs q]|] eqn:E; [|done]. intros [= <- <-].
    apply IH in E as (Hq & Hs & Hm & Hc); [|lia]. split; [lia|].
    pose proof (uint64_at_u64 d pos ltac:(lia) ltac:(lia)) as Hu.
    destruct (flip_unflip_sign _ Hu) as [Hf Hi].
    rewrite (slice_split d pos q (pos + 8)), Hs by lia. cbn [map concat].
    unfold pk_column at 2. cbn [kind Int64 u]. rewrite swrap64_wrap64, Hf by done.
    rewrite <- be_encode_uint64_at by lia. split; [done|]. split; [by rewrite Hm|].
    constructor; [|done]. by constructor.
  - destruct (index_nul (zdrop pos d)) as [e|] eqn:F; [|done].
    destruct (decode_pk d ks (pos + e + 1)) as [[vs q]|] eqn:E; [|done]. intros [= <- <-].
    pose proof (index_nul_range _ _ F) as Hr. rewrite zlen_zdrop in Hr by lia.
    apply IH in E as (Hq & Hs & Hm & Hc); [|lia]. split; [lia|].
    apply index_nul_split in F as (r & F & Hn).
    assert (slice d pos (pos + e) = ztake e (zdrop pos d)) as Hse
      by (unfold slice; by replace (pos + e - pos) with e by lia).
    rewrite (slice_split d pos q (pos + e + 1)), Hs by lia.
    rewrite (slice_split d pos (pos + e + 1) (pos + e)), Hse by lia.
    assert (slice d (pos + e) (pos + e + 1) = [x00]) as ->.
    { unfold slice. rewrite <- zdrop_zdrop by lia. rewrite F, zdrop_app_eq.
      - by replace (pos + e + 1 - (pos + e)) with 1 by lia.
      - rewrite zlen_ztake; [lia|]. rewrite zlen_zdrop; lia. }
    cbn [map concat]. split; [done|]. split; [by rewrite Hm|]. constructor; [|done]. by constructor.
Qed.

Lemma table_row_key_eq t pk v :
  pk <> [] -> EncodeTableRowKey t pk v = Ok (TablePrefix t ++ concat (map pk_column pk) ++ be_encode 8 v).
Proof. by destruct pk. Qed.

(** Without [KindBytes] columns, what decodes is the encoding of what it decodes to. *)
Lemma row_key_sound d ks t pk v :
  ks <> [] -> Forall (fun k => k <> KindBytes) ks -> DecodeTableRowKey d ks = Ok (t, pk, v) ->
  EncodeTableRowKey t pk v = Ok d /\ map kind pk = ks /\ Forall canonical pk /\ u64 t /\ u64 v.
Proof.
  intros Hne Hb. unfold DecodeTableRowKey.
  destruct (Z.ltb_spec (zlen d) (1 + 8)); [done|].
  case_bool_decide as Ht; [|done]. cbn [negb].
  destruct (decode_pk d ks 9) as [[vs p]|] eqn:E; [|done]. rewrite res_bind_ok. cbn zeta.
  destruct (Z.eqb_spec (p + 8) (zlen d)) as [Hp|]; [|done]. intros [= <- <- <-].
  apply decode_pk_sound in E as (Hr & Hs & Hm & Hc); [|done|lia].
  split; [|split; [done|split; [done|split; apply uint64_at_u64; lia]]].
  rewrite table_row_key_eq by (intros ->; by destruct ks). f_equal.
  rewrite <- Hs. unfold TablePrefix. rewrite !be_encode_uint64_at by lia. rewrite <- app_assoc, Hp.
  rewrite <- slice_split by lia. replace (1 + 8) with 9 by lia. rewrite <- slice_split by lia.
  destruct d as [|x d]; [done|]. injection Ht as ->.
  change (tableRowTag :: d) with ([tableRowTag] ++ d).
  rewrite slice_app_r by done. rewrite zlen_app. change (zlen [tableRowTag]) with 1.
  by rewrite slice_full by lia.
Qed.

(** The table of a key with a table prefix. *)
Lemma decode_table_prefix t r ks t' pk v :
  u64 t -> DecodeTableRowKey (TablePrefix t ++ r) ks = Ok (t', pk, v) -> t' = t.
Proof.
  intros Ht. unfold DecodeTableRowKey. destruct (_ <? _); [done|]. destruct (negb _); [done|].
  destruct (decode_pk _ _ _) as [[vs p]|]; [|done]. rewrite res_bind_ok. cbn zeta.
  destruct (_ =? _); [|done]. intros [= <- _ _].
  by apply (uint64_at_app [tableRowTag]).
Qed.

Lemma TablePrefix_end t : exists e, PrefixEnd (TablePrefix t) = Some e.
Proof. unfold TablePrefix, PrefixEnd. cbn [app forallb]. by eexists. Qed.
