(* ===== verification/OrdMap.v ===== *)
(** The abstract specification shared by the two ordered key-value stores of
    the SQL engine, the in-memory [store.Store] and the on-disk [kv.KVStore]:
    a finite map from byte strings to values, as the list of its bindings in
    ascending key order.  [om_get], [om_set], [om_del] and [om_range] say what
    Get, Set/Put, Delete and Scan mean; [Store.v] and the [BTree] files prove
    that the code implements them. *)

From Stdlib Require Import ZArith Lia Sorted.
From stdpp Require Import gmap.
From S2P Require Import Prelude.
Open Scope Z_scope.

#[export] Instance byte_countable : Countable byte.
Proof. apply (inj_countable Byte.to_N Byte.of_N). apply Byte.of_to_N. Defined.

Section ordmap.
Context {V : Type}.
Implicit Types (l m : list (list byte * V)) (k : list byte) (v : V).

Definition om_sorted l : Prop := StronglySorted bytes_lt (map fst l).

Fixpoint om_get k l : option V :=
  match l with
  | [] => None
  | (k', v) :: l' => match bytes_compare k' k with Eq => Some v | _ => om_get k l' end
  end.

Fixpoint om_set k v l : list (list byte * V) :=
  match l with
  | [] => [(k, v)]
  | (k', v') :: l' =>
      match bytes_compare k' k with
      | Lt => (k', v') :: om_set k v l'
      | Eq => (k, v) :: l'
      | Gt => (k, v) :: l
      end
  end.

Fixpoint om_del k l : list (list byte * V) :=
  match l with
  | [] => []
  | (k', v') :: l' =>
      match bytes_compare k' k with Eq => l' | _ => (k', v') :: om_del k l' end
  end.

(** [lo <= k < hi], an absent bound being unbounded. *)
Definition in_range (lo hi : option (list byte)) k : bool :=
  match lo with Some a => match bytes_compare k a with Lt => false | _ => true end | None => true end
  && match hi with Some c => match bytes_compare k c with Lt => true | _ => false end | None => true end.

Definition om_range lo hi l : list (list byte * V) :=
  List.filter (fun e => in_range lo hi (fst e)) l.

(** The finite map the list stands for. *)
Definition om_map l : gmap (list byte) V := list_to_map l.

(** ** Laws *)

Lemma om_get_cons_ne k k' v l : k' <> k -> om_get k ((k', v) :: l) = om_get k l.
Proof.
  intros H. simpl. destruct (bytes_compare k' k) eqn:E; try done.
  by apply bytes_compare_eq in E.
Qed.

Lemma om_get_cons_eq k v l : om_get k ((k, v) :: l) = Some v.
Proof. simpl. by rewrite bytes_compare_refl. Qed.

Lemma om_get_map k l : om_get k l = om_map l !! k.
Proof.
  unfold om_map. induction l as [|[k' v] l IH]; [done|].
  destruct (decide (k' = k)) as [->|].
  - rewrite om_get_cons_eq. simpl. by rewrite lookup_insert_eq.
  - rewrite om_get_cons_ne by done. simpl. by rewrite lookup_insert_ne.
Qed.

Lemma om_get_app k l m : om_get k (l ++ m) = match om_get k l with Some v => Some v | None => om_get k m end.
Proof. induction l as [|[k' v] l IH]; simpl; [done|]. by destruct (bytes_compare k' k). Qed.

Lemma om_get_None k l : Forall (fun e => fst e <> k) l -> om_get k l = None.
Proof.
  induction 1 as [|[k' v] l H _ IH]; [done|]. by rewrite om_get_cons_ne.
Qed.

Lemma om_get_In k v l : om_sorted l -> om_get k l = Some v <-> In (k, v) l.
Proof.
  induction l as [|[k' v'] l IH]; intros Hs; [done|].
  inversion Hs as [|? ? Hs' Hf]; subst. destruct (decide (k' = k)) as [->|Hne].
  - rewrite om_get_cons_eq. split; [intros [= <-]; by left|]. intros [[= ->]|Hin]; [done|].
    exfalso. rewrite Forall_forall in Hf. apply (bytes_lt_irrefl k), Hf.
    apply list_elem_of_In, in_map_iff. by exists (k, v).
  - rewrite om_get_cons_ne, IH by done. split; [by right|]. by intros [[= <-]|].
Qed.

Lemma om_set_keys k v l x : In x (map fst (om_set k v l)) -> x = k \/ In x (map fst l).
Proof.
  induction l as [|[k' v'] l IH]; simpl; [intros [->|[]]; auto|].
  destruct (bytes_compare k' k) eqn:E; simpl.
  - intros [->|]; auto.
  - intros [->|H]; auto. destruct (IH H); auto.
  - intros [->|[->|]]; auto.
Qed.

Lemma om_sorted_cons k v l :
  om_sorted ((k, v) :: l) <-> om_sorted l /\ forall x, In x (map fst l) -> bytes_lt k x.
Proof.
  unfold om_sorted. simpl. split.
  - intros H. inversion H as [|? ? Hs Hf]; subst. split; [done|].
    intros x Hx. rewrite Forall_forall in Hf. by apply Hf, list_elem_of_In.
  - intros [Hs Hf]. constructor; [done|]. apply Forall_forall.
    intros x Hx. by apply Hf, list_elem_of_In.
Qed.

Lemma om_set_sorted k v l : om_sorted l -> om_sorted (om_set k v l).
Proof.
  induction l as [|[k' v'] l IH]; simpl.
  { intros _. apply om_sorted_cons. split; [constructor|done]. }
  rewrite om_sorted_cons. intros [Hs Hf]. destruct (bytes_compare k' k) eqn:E.
  - apply bytes_compare_eq in E as ->. by apply om_sorted_cons.
  - apply om_sorted_cons. split; [by apply IH|]. intros x [->|Hx]%om_set_keys; auto.
  - apply bytes_gt_lt in E. apply om_sorted_cons. split; [by apply om_sorted_cons|].
    intros x [<-|Hx]; [done|]. eapply bytes_lt_trans; [exact E|]. by apply Hf.
Qed.

Lemma om_get_set k k' v l :
  om_sorted l -> om_get k (om_set k' v l) = if decide (k = k') then Some v else om_get k l.
Proof.
  induction l as [|[k0 v0] l IH]; intros Hs; cbn [om_set].
  { case_decide as E; [subst; apply om_get_cons_eq|]. by rewrite om_get_cons_ne. }
  apply om_sorted_cons in Hs as [Hs Hf]. destruct (bytes_compare k0 k') eqn:E.
  - apply bytes_compare_eq in E as ->. case_decide as Ek.
    + subst. apply om_get_cons_eq.
    + by rewrite !om_get_cons_ne.
  - destruct (decide (k0 = k)) as [->|Hk0].
    + rewrite !om_get_cons_eq, decide_False; [done|]. intros ->. by apply bytes_lt_irrefl in E.
    + rewrite !om_get_cons_ne by done. by apply IH.
  - case_decide as Ek; [subst; apply om_get_cons_eq|]. by rewrite om_get_cons_ne.
Qed.

Lemma om_del_keys k l x : In x (map fst (om_del k l)) -> In x (map fst l).
Proof.
  induction l as [|[k' v'] l IH]; simpl; [done|].
  destruct (bytes_compare k' k); simpl; tauto.
Qed.

Lemma om_del_sorted k l : om_sorted l -> om_sorted (om_del k l).
Proof.
  induction l as [|[k' v'] l IH]; simpl; [done|]. rewrite om_sorted_cons. intros [Hs Hf].
  destruct (bytes_compare k' k); [done| |];
    (apply om_sorted_cons; split; [by apply IH|]; intros x Hx%om_del_keys; auto).
Qed.

Lemma om_get_del k k' l :
  om_sorted l -> om_get k (om_del k' l) = if decide (k = k') then None else om_get k l.
Proof.
  induction l as [|[k0 v0] l IH]; intros Hs; cbn [om_del]; [by case_decide|].
  apply om_sorted_cons in Hs as [Hs Hf]. 
  assert (k0 <> k' -> om_get k ((k0, v0) :: om_del k' l)
          = if decide (k = k') then None else om_get k ((k0, v0) :: l)) as Hstep.
  { intros Hne. destruct (decide (k0 = k)) as [->|Hk0].
    - by rewrite !om_get_cons_eq, decide_False.
    - rewrite !om_get_cons_ne by done. by apply IH. }
  destruct (bytes_compare k0 k') eqn:E; [|apply Hstep|apply Hstep];
    try (intros ->; by rewrite bytes_compare_refl in E).
  apply bytes_compare_eq in E as ->. case_decide as Ek.
  - subst. apply om_get_None, Forall_forall. intros [x w] Hx. simpl. intros ->.
    apply (bytes_lt_irrefl k'), Hf, in_map_iff. exists (k', w). by apply list_elem_of_In in Hx.
  - by rewrite om_get_cons_ne.
Qed.

(** Keys above a bound are not found below it. *)
Lemma om_get_below a l x :
  (forall y, In y (map fst l) -> bytes_lt a y) -> bytes_le x a -> om_get x l = None.
Proof.
  intros Hf Hx. apply om_get_None, Forall_forall. intros [y z] Hy. simpl. intros ->.
  apply (bytes_lt_irrefl a). eapply bytes_lt_le_trans; [|exact Hx].
  apply Hf, in_map_iff. exists (x, z). by apply list_elem_of_In in Hy.
Qed.

(** A sorted list is determined by its lookups. *)
Lemma om_ext l m : om_sorted l -> om_sorted m -> (forall k, om_get k l = om_get k m) -> l = m.
Proof.
  revert m. induction l as [|[k v] l IH]; intros [|[k' v'] m] Hl Hm Hg.
  - done.
  - specialize (Hg k'). by rewrite om_get_cons_eq in Hg.
  - specialize (Hg k). by rewrite om_get_cons_eq in Hg.
  - apply om_sorted_cons in Hl as [Hl Hfl], Hm as [Hm Hfm].
    assert (k = k') as ->.
    { destruct (bytes_compare k k') eqn:E; [by apply bytes_compare_eq in E| |]; exfalso.
      - specialize (Hg k). rewrite om_get_cons_eq, om_get_cons_ne in Hg.
        + rewrite (om_get_below k' m) in Hg; [done|done|by apply bytes_lt_le].
        + intros ->. by rewrite bytes_compare_refl in E.
      - specialize (Hg k'). rewrite om_get_cons_eq, om_get_cons_ne in Hg.
        + rewrite (om_get_below k l) in Hg; [done|done|by apply bytes_lt_le, bytes_gt_lt].
        + intros ->. by rewrite bytes_compare_refl in E. }
    assert (v = v') as ->.
    { specialize (Hg k'). rewrite !om_get_cons_eq in Hg. by injection Hg. }
    f_equal. apply IH; try done. intros x. specialize (Hg x).
    destruct (decide (k' = x)) as [->|]; [|by rewrite !om_get_cons_ne in Hg].
    by rewrite (om_get_below x l), (om_get_below x m) by auto using bytes_le_refl.
Qed.

(** ** Splitting *)

Lemma om_sorted_app l m :
  om_sorted (l ++ m) <->
  om_sorted l /\ om_sorted m /\
  forall x y, In x (map fst l) -> In y (map fst m) -> bytes_lt x y.
Proof.
  induction l as [|[k v] l IH]; simpl app.
  { split; [intros; split; [constructor|]; by split|by intros (_ & ? & _)]. }
  rewrite !om_sorted_cons, IH. split.
  - intros [(Hl & Hm & Hlm) Hf]. rewrite map_app in Hf. setoid_rewrite in_app_iff in Hf.
    split_and!; auto. intros x y [<-|Hx] Hy; auto.
  - intros ([Hl Hf] & Hm & Hlm). simpl in Hlm. split; [by auto|].
    intros x. rewrite map_app, in_app_iff. intros []; auto.
Qed.

(** The operations act on the part of a split list that the key belongs to. *)
Lemma om_set_app_l k v l m :
  (forall y, In y (map fst m) -> bytes_lt k y) -> om_set k v (l ++ m) = om_set k v l ++ m.
Proof.
  intros Hm. induction l as [|[k' v'] l IH]; simpl.
  - destruct m as [|[k' v'] m]; [done|]. simpl.
    assert (bytes_lt k k') as H by (apply Hm; by left). by rewrite (proj2 (bytes_gt_lt _ _) H).
  - destruct (bytes_compare k' k); [done| |done]. by rewrite IH.
Qed.

Lemma om_set_app_r k v l m :
  (forall x, In x (map fst l) -> bytes_lt x k) -> om_set k v (l ++ m) = l ++ om_set k v m.
Proof.
  intros Hl. induction l as [|[k' v'] l IH]; simpl; [done|].
  assert (bytes_compare k' k = Lt) as -> by (apply Hl; by left).
  rewrite IH; [done|]. intros x Hx. apply Hl. by right.
Qed.

Lemma om_del_app_l k l m :
  (forall y, In y (map fst m) -> bytes_lt k y) -> om_del k (l ++ m) = om_del k l ++ m.
Proof.
  intros Hm. assert (om_del k m = m) as Hdm.
  { induction m as [|[k' v'] m IH]; [done|]. simpl.
    assert (bytes_lt k k') as H by (apply Hm; by left). rewrite (proj2 (bytes_gt_lt _ _) H).
    rewrite IH; [done|]. intros y Hy. apply Hm. by right. }
  induction l as [|[k' v'] l IH]; simpl; [done|].
  destruct (bytes_compare k' k); [done| |]; by rewrite IH.
Qed.

Lemma om_del_app_r k l m :
  (forall x, In x (map fst l) -> bytes_lt x k) -> om_del k (l ++ m) = l ++ om_del k m.
Proof.
  intros Hl. induction l as [|[k' v'] l IH]; simpl; [done|].
  assert (bytes_compare k' k = Lt) as -> by (apply Hl; by left).
  rewrite IH; [done|]. intros x Hx. apply Hl. by right.
Qed.

Lemma om_del_notin k l : om_get k l = None -> om_del k l = l.
Proof.
  induction l as [|[k' v'] l IH]; simpl; [done|].
  destruct (bytes_compare k' k); [done| |]; intros H; by rewrite IH.
Qed.

Lemma om_range_app lo hi l m : om_range lo hi (l ++ m) = om_range lo hi l ++ om_range lo hi m.
Proof. apply List.filter_app. Qed.

Lemma om_range_none lo hi l :
  (forall x, In x (map fst l) -> in_range lo hi x = false) -> om_range lo hi l = [].
Proof.
  induction l as [|[k v] l IH]; intros H; simpl; [done|].
  rewrite H by (by left). apply IH. intros x Hx. apply H. by right.
Qed.

Lemma om_range_ext lo hi lo' hi' l :
  (forall x, In x (map fst l) -> in_range lo hi x = in_range lo' hi' x) ->
  om_range lo hi l = om_range lo' hi' l.
Proof.
  induction l as [|[k v] l IH]; intros H; simpl; [done|].
  rewrite (H k) by (by left). rewrite IH; [done|]. intros x Hx. apply H. by right.
Qed.

Lemma om_get_range k lo hi l :
  om_get k (om_range lo hi l) = if in_range lo hi k then om_get k l else None.
Proof.
  induction l as [|[k' v] l IH]; simpl; [by destruct (in_range lo hi k)|].
  destruct (decide (k' = k)) as [->|Hne].
  - destruct (in_range lo hi k) eqn:E; simpl; rewrite ?bytes_compare_refl; [done|]. by rewrite IH.
  - destruct (in_range lo hi k'); rewrite ?om_get_cons_ne, IH by done;
      (destruct (in_range lo hi k); [|done]); symmetry; by apply om_get_cons_ne.
Qed.

(** Where [om_set] puts a key. *)
Lemma om_set_split k v l :
  om_sorted l ->
  exists l1 l2, om_set k v l = l1 ++ (k, v) :: l2 /\
    (forall e, In e l1 -> bytes_lt (fst e) k) /\ (forall e, In e l2 -> bytes_lt k (fst e)) /\
    (l = l1 ++ l2 \/ exists w, l = l1 ++ (k, w) :: l2).
Proof.
  induction l as [|[k' v'] l IH]; intros Hs.
  { exists [], []. split_and!; try done. by left. }
  apply om_sorted_cons in Hs as [Hs Hlt]. cbn [om_set].
  assert (forall e, In e l -> bytes_lt k' (fst e)) as Hl by (intros e He; by apply Hlt, in_map).
  destruct (bytes_compare k' k) eqn:Ec.
  - apply bytes_compare_eq in Ec as ->. exists [], l. split_and!; try done. right. by exists v'.
  - destruct (IH Hs) as (l1 & l2 & E & H1 & H2 & Hor). exists ((k', v') :: l1), l2.
    rewrite E. split_and!; try done; [by intros e [<-|He]; auto|].
    destruct Hor as [->|(w & ->)]; [by left|right; by exists w].
  - apply bytes_gt_lt in Ec. exists [], ((k', v') :: l). split_and!; try done; [|by left].
    intros e [<-|He]; [done|]. eapply bytes_lt_trans; [exact Ec|by apply Hl].
Qed.

Lemma In_om_set k v l e : om_sorted l -> In e (om_set k v l) -> e = (k, v) \/ In e l.
Proof.
  intros Hs. destruct (om_set_split k v l Hs) as (l1 & l2 & -> & _ & _ & Hor).
  rewrite in_app_iff. cbn [In]. intros [Hl|[->|Hr]]; [right|by left|right];
    destruct Hor as [->|(w & ->)]; rewrite in_app_iff; cbn [In]; auto.
Qed.

Lemma om_del_filter k l :
  om_sorted l -> om_del k l = List.filter (fun e => negb (bool_decide (fst e = k))) l.
Proof.
  induction l as [|[k' v'] l IH]; intros Hs; [done|].
  apply om_sorted_cons in Hs as [Hs Hlt]. cbn [om_del List.filter fst].
  destruct (bytes_compare k' k) eqn:Ec.
  - apply bytes_compare_eq in Ec as ->. rewrite bool_decide_eq_true_2 by done. cbn [negb].
    symmetry. apply forallb_filter_id, forallb_forall. intros e He.
    apply negb_true_iff, bool_decide_eq_false. intros Ee.
    apply (bytes_lt_irrefl k), Hlt. rewrite <- Ee. by apply in_map.
  - rewrite bool_decide_eq_false_2; [by rewrite <- IH|]. intros ->. by rewrite bytes_compare_refl in Ec.
  - rewrite bool_decide_eq_false_2; [by rewrite <- IH|]. intros ->. by rewrite bytes_compare_refl in Ec.
Qed.

Lemma om_sorted_filter (p : list byte * V -> bool) l : om_sorted l -> om_sorted (List.filter p l).
Proof.
  induction l as [|e l IH]; intros Hs; [done|]. destruct e as [k v].
  apply om_sorted_cons in Hs as [Hs Hlt]. cbn [List.filter]. destruct (p (k, v)); [|by apply IH].
  apply om_sorted_cons. split; [by apply IH|]. intros x (e & <- & He)%in_map_iff.
  apply filter_In in He as [He _]. by apply Hlt, in_map.
Qed.

(** Selecting in a range and projecting: only the entries in range count. *)
Lemma omap_range {B} (f g : list byte * V -> option B) lo hi l :
  (forall e, In e l -> if in_range lo hi (fst e) then f e = g e else g e = None) ->
  omap f (om_range lo hi l) = omap g l.
Proof.
  induction l as [|e l IH]; intros He; [done|]. unfold om_range in *. cbn [List.filter].
  pose proof (He e (or_introl eq_refl)) as He0. specialize (IH (fun x Hx => He x (or_intror Hx))).
  destruct (in_range lo hi (fst e)).
  - change (omap f (e :: ?x)) with (match f e with Some b => b :: omap f x | None => omap f x end).
    change (omap g (e :: ?x)) with (match g e with Some b => b :: omap g x | None => omap g x end).
    by rewrite He0, IH.
  - rewrite IH. change (omap g (e :: ?x)) with (match g e with Some b => b :: omap g x | None => omap g x end).
    by rewrite He0.
Qed.

End ordmap.
