(* ===== verification/Store.v ===== *)
(** [internal/engine/sql/store/store.go]: the ordered in-memory store.

    The state is the slice [entries]; a method receiver is an optional state,
    [None] being Go's nil pointer.  [sort.Search] is modelled as the binary
    search it is.  The theorems: the entries stay in strictly ascending key
    order, and Put, Get, Delete and Scan implement the abstract ordered map of
    [OrdMap.v]. *)

From Stdlib Require Import ZArith Lia Sorted.
From S2P Require Import Prelude Key OrdMap.
Open Scope Z_scope.

Module Store.

Record entry := mkEntry { key : Key; value : list byte }.

Definition zero_entry : entry := mkEntry (mkKey [] []) [].

Inductive store_err := ErrNotFound | ErrNilStore.

(** A [*Store]. *)
Abbreviation store := (option (list entry)).

Definition New : store := Some [].

(** [sort.Search]: the loop [for i < j]; [fuel] bounds its iterations. *)
Fixpoint search_loop (fuel : nat) (f : Z -> bool) (i j : Z) : Z :=
  match fuel with
  | O => i
  | S fuel' =>
      if i <? j then
        let h := (i + j) / 2 in
        if f h then search_loop fuel' f i h else search_loop fuel' f (h + 1) j
      else i
  end.

Definition sort_Search (n : Z) (f : Z -> bool) : Z := search_loop (Z.to_nat n) f 0 n.

Definition entry_at (es : list entry) (i : Z) : entry := nth (Z.to_nat i) es zero_entry.

(** [s.entries[i].key.Compare(k) >= 0] *)
Definition key_ge (es : list entry) (k : Key) (i : Z) : bool :=
  match Compare (key (entry_at es i)) k with Lt => false | _ => true end.

(** [search] *)
Definition search (es : list entry) (k : Key) : Z * bool :=
  let idx := sort_Search (zlen es) (key_ge es k) in
  if (idx <? zlen es)
     && match Compare (key (entry_at es idx)) k with Eq => true | _ => false end
  then (idx, true) else (idx, false).

Definition Put (st : store) (k : Key) (v : list byte) : res store_err unit * store :=
  match st with
  | None => (Err ErrNilStore, st)
  | Some es =>
      let '(idx, found) := search es k in
      if found then
        (Ok tt, Some (splice es idx [mkEntry (key (entry_at es idx)) v]))
      else
        let es1 := es ++ [zero_entry] in
        let es2 := copy_into es1 (idx + 1) (zlen es1) (zdrop idx es1) in
        (Ok tt, Some (splice es2 idx [mkEntry k v]))
  end.

Definition Get (st : store) (k : Key) : res store_err (list byte) :=
  match st with
  | None => Err ErrNilStore
  | Some es =>
      let '(_, found) := search es k in
      if found then
        let idx := sort_Search (zlen es) (key_ge es k) in
        Ok (value (entry_at es idx))
      else Err ErrNotFound
  end.

Definition Delete (st : store) (k : Key) : res store_err unit * store :=
  match st with
  | None => (Err ErrNilStore, st)
  | Some es =>
      let '(idx, found) := search es k in
      if found then (Ok tt, Some (ztake idx es ++ zdrop (idx + 1) es)) else (Ok tt, st)
  end.

Definition Len (st : store) : Z := match st with None => 0 | Some es => zlen es end.

(** The loop of [Scan]: it stops at the first key that is not below [end]. *)
Fixpoint scan_loop (es : list entry) (endk : Key) : list entry :=
  match es with
  | [] => []
  | e :: es' =>
      match Compare (key e) endk with
      | Lt => mkEntry (key e) (value e) :: scan_loop es' endk
      | _ => []
      end
  end.

Definition Scan (st : store) (start endk : Key) : res store_err (list entry) :=
  match st with
  | None => Err ErrNilStore
  | Some es =>
      match Compare start endk with
      | Lt =>
          let startIdx := sort_Search (zlen es) (key_ge es start) in
          Ok (scan_loop (zdrop startIdx es) endk)
      | _ => Ok []
      end
  end.

(** * Invariant and abstraction *)

(** The bindings, by key bytes. *)
Definition contents (es : list entry) : list (list byte * list byte) :=
  map (fun e => (data (key e), value e)) es.

Definition wf (es : list entry) : Prop := om_sorted (contents es).

(** * Binary search *)

Section search.
Variable f : Z -> bool.
Variable n : Z.
Hypothesis mono : forall x y, 0 <= x -> x <= y -> y < n -> f x = true -> f y = true.

Lemma search_loop_spec fuel i j :
  0 <= i <= j -> j <= n -> j - i <= Z.of_nat fuel ->
  (forall x, 0 <= x < i -> f x = false) -> (forall x, j <= x < n -> f x = true) ->
  let r := search_loop fuel f i j in
  i <= r <= j /\ (forall x, 0 <= x < r -> f x = false) /\ (forall x, r <= x < n -> f x = true).
Proof using mono.
  revert i j. induction fuel as [|fuel IH]; intros i j Hij Hj Hf Hlo Hhi; simpl.
  { split_and!; [lia..| |]; auto. intros. apply Hhi. lia. }
  destruct (Z.ltb_spec i j).
  2: { split_and!; [lia..| |]; auto. intros. apply Hhi. lia. }
  assert (i <= (i + j) / 2 < j) as Hm by (split; [apply Z.div_le_lower_bound|apply Z.div_lt_upper_bound]; lia).
  set (h := (i + j) / 2) in *. destruct (f h) eqn:E.
  - destruct (IH i h) as (H1 & H2 & H3); try lia; auto.
    { intros x Hx. destruct (Z.lt_ge_cases x j); [|apply Hhi; lia]. apply (mono h); lia || done. }
    split_and!; auto; lia.
  - destruct (IH (h + 1) j) as (H1 & H2 & H3); try lia; auto.
    { intros x Hx. destruct (f x) eqn:Ex; [|done]. rewrite (mono x h) in E; lia || done. }
    split_and!; auto; lia.
Qed.

(** [sort.Search] terminates within [n] iterations at the first index where
    a monotone predicate holds. *)
Lemma sort_Search_spec :
  0 <= n ->
  let r := sort_Search n f in
  0 <= r <= n /\ (forall x, 0 <= x < r -> f x = false) /\ (forall x, r <= x < n -> f x = true).
Proof using mono. intros Hn. apply search_loop_spec; lia. Qed.
End search.

Lemma entry_at_split l e r : entry_at (l ++ e :: r) (zlen l) = e.
Proof. unfold entry_at, zlen. rewrite Nat2Z.id. by rewrite nth_middle. Qed.

Lemma entry_at_In es i : 0 <= i < zlen es -> In (entry_at es i) es.
Proof. intros. apply nth_In. unfold zlen in *. lia. Qed.

Lemma wf_mono es k x y :
  wf es -> 0 <= x -> x <= y -> y < zlen es -> key_ge es k x = true -> key_ge es k y = true.
Proof.
  intros Hs Hx Hxy Hy. destruct (decide (x = y)) as [->|]; [done|]. unfold key_ge, Compare.
  assert (bytes_lt (data (key (entry_at es x))) (data (key (entry_at es y)))) as Hlt.
  { rewrite <- (ztake_zdrop y es) in Hs at 1. unfold wf, contents in Hs. rewrite map_app in Hs.
    apply om_sorted_app in Hs as (_ & _ & H). apply H.
    - apply in_map_iff. exists (data (key (entry_at es x)), value (entry_at es x)). split; [done|].
      apply in_map_iff. exists (entry_at es x). split; [done|].
      rewrite <- (ztake_zdrop y es) at 1. unfold entry_at.
      rewrite app_nth1 by (pose proof (zlen_ztake y es ltac:(lia)); unfold zlen in *; lia).
      apply nth_In. pose proof (zlen_ztake y es ltac:(lia)). unfold zlen in *. lia.
    - apply in_map_iff. exists (data (key (entry_at es y)), value (entry_at es y)). split; [done|].
      apply in_map_iff. exists (entry_at es y). split; [done|].
      rewrite <- (ztake_zdrop y es) at 1. unfold entry_at.
      pose proof (zlen_ztake y es ltac:(lia)). unfold zlen in *.
      rewrite app_nth2 by lia. replace (Z.to_nat y - length (ztake y es))%nat with 0%nat by lia.
      apply nth_In. pose proof (zlen_zdrop y es ltac:(unfold zlen; lia)). unfold zlen in *. lia. }
  destruct (bytes_compare (data (key (entry_at es x))) (data k)) eqn:E; try done; intros _.
  - apply bytes_compare_eq in E. rewrite <- E. unfold bytes_lt in Hlt.
    rewrite bytes_compare_antisym, Hlt. done.
  - apply bytes_gt_lt in E. pose proof (bytes_lt_trans _ _ _ E Hlt) as H.
    by rewrite (proj2 (bytes_gt_lt _ _) H).
Qed.

(** Where [search] splits the entries. *)
Lemma search_split es k :
  wf es ->
  let idx := sort_Search (zlen es) (key_ge es k) in
  exists l r, es = l ++ r /\ zlen l = idx /\
    (forall e, In e l -> bytes_lt (data (key e)) (data k)) /\
    (forall e, In e r -> bytes_le (data k) (data (key e))).
Proof.
  intros Hs idx.
  destruct (sort_Search_spec (key_ge es k) (zlen es)) as (Hr & Hlo & Hhi);
    [intros; by eapply wf_mono|apply zlen_nonneg|]. fold idx in Hr, Hlo, Hhi.
  exists (ztake idx es), (zdrop idx es). rewrite ztake_zdrop. split_and!; [done| | |].
  - by apply zlen_ztake.
  - intros e He. apply In_nth with (d := zero_entry) in He as (i & Hi & <-).
    pose proof (zlen_ztake idx es Hr) as Hl. unfold zlen in Hl.
    specialize (Hlo (Z.of_nat i) ltac:(lia)). unfold key_ge, entry_at in Hlo. rewrite Nat2Z.id in Hlo.
    rewrite <- (ztake_zdrop idx es) in Hlo at 1. rewrite app_nth1 in Hlo by done.
    unfold bytes_lt. unfold Compare in Hlo. by destruct (bytes_compare _ _).
  - intros e He. apply In_nth with (d := zero_entry) in He as (i & Hi & <-).
    pose proof (zlen_zdrop idx es Hr) as Hl. pose proof (zlen_ztake idx es Hr) as Hl'.
    unfold zlen in Hl, Hl'.
    specialize (Hhi (idx + Z.of_nat i) ltac:(unfold zlen in *; lia)).
    unfold key_ge, entry_at in Hhi. rewrite <- (ztake_zdrop idx es) in Hhi at 1.
    rewrite app_nth2 in Hhi by lia.
    replace (Z.to_nat (idx + Z.of_nat i) - length (ztake idx es))%nat with i in Hhi by lia.
    unfold Compare in Hhi. apply bytes_not_lt. by destruct (bytes_compare _ _).
Qed.

(** [search] in one statement: a split around the key, and whether it is there. *)
Lemma search_spec es k :
  wf es ->
  exists l r, es = l ++ r /\
    (forall e, In e l -> bytes_lt (data (key e)) (data k)) /\
    sort_Search (zlen es) (key_ge es k) = zlen l /\
    ((exists e r', r = e :: r' /\ data (key e) = data k /\ search es k = (zlen l, true)) \/
     ((forall e, In e r -> bytes_lt (data k) (data (key e))) /\ search es k = (zlen l, false))).
Proof.
  intros Hs. destruct (search_split es k Hs) as (l & r & E & Hl & Hlo & Hhi).
  exists l, r. split_and!; [done|done|done|]. unfold search. rewrite <- Hl.
  destruct r as [|e r'].
  - right. split; [done|]. rewrite (proj2 (Z.ltb_ge _ _)); [done|].
    rewrite E, app_nil_r. lia.
  - assert ((zlen l <? zlen es) = true) as ->
      by (apply Z.ltb_lt; rewrite E; pose proof (zlen_nonneg r'); zlia).
    assert (entry_at es (zlen l) = e) as -> by (rewrite E; apply entry_at_split). unfold Compare.
    destruct (bytes_compare (data (key e)) (data k)) eqn:Ec.
    + left. apply bytes_compare_eq in Ec. by exists e, r'.
    + exfalso. specialize (Hhi e (or_introl eq_refl)). apply bytes_not_lt in Hhi. done.
    + right. split; [|done]. apply bytes_gt_lt in Ec. intros e' [<-|He']; [done|].
      eapply bytes_lt_trans; [exact Ec|]. subst es. unfold wf, contents in Hs.
      rewrite map_app in Hs. apply om_sorted_app in Hs as (_ & Hs & _).
      simpl in Hs. apply om_sorted_cons in Hs as [_ Hs]. apply Hs.
      apply in_map_iff. exists (data (key e'), value e'). split; [done|].
      by apply (in_map (fun e => (data (key e), value e))).
Qed.

(** * The operations *)

Lemma contents_app l r : contents (l ++ r) = contents l ++ contents r.
Proof. apply map_app. Qed.

Lemma contents_keys x l : In x (map fst (contents l)) -> exists e, In e l /\ data (key e) = x.
Proof.
  unfold contents. rewrite map_map. intros (e & <- & He)%in_map_iff. by exists e.
Qed.

(** Inserting at an index by growing, shifting and assigning. *)
Lemma shift_insert (l r : list entry) e :
  let es1 := (l ++ r) ++ [zero_entry] in
  splice (copy_into es1 (zlen l + 1) (zlen es1) (zdrop (zlen l) es1)) (zlen l) [e]
  = l ++ e :: r.
Proof.
  intros es1. pose proof (zlen_nonneg l). pose proof (zlen_nonneg r).
  assert (zlen es1 = zlen l + zlen r + 1) as Hes by (unfold es1; zlia).
  assert (zdrop (zlen l) es1 = r ++ [zero_entry]) as ->.
  { unfold es1. rewrite <- app_assoc. by apply zdrop_app_eq. }
  unfold copy_into. rewrite ztake_app_eq by lia.
  assert (exists x, es1 = (l ++ [x]) ++ zdrop (zlen l + 1) es1) as [x Hx].
  { unfold es1. rewrite <- app_assoc. destruct r as [|y r']; simpl.
    - exists zero_entry. by rewrite zdrop_all, app_nil_r by zlia.
    - exists y. rewrite (cons_middle y l), (app_assoc l [y]). f_equal.
      symmetry. apply zdrop_app_eq. zlia. }
  unfold splice. rewrite (zdrop_all (zlen l + 1 + zlen r)) by lia. rewrite app_nil_r.
  assert (ztake (zlen l + 1) es1 = l ++ [x]) as -> by (rewrite Hx; apply ztake_app_eq; zlia).
  rewrite ztake_app_l, ztake_app_eq by zlia. f_equal. simpl. f_equal.
  apply zdrop_app_eq. zlia.
Qed.

(** [Put] never fails on a non-nil store, keeps the entries sorted, and
    binds the key to the value. *)
Lemma Put_refines es k v :
  wf es ->
  exists es', Put (Some es) k v = (Ok tt, Some es') /\ wf es' /\
    contents es' = om_set (data k) v (contents es).
Proof.
  intros Hs. destruct (search_spec es k Hs) as (l & r & E & Hlo & _ & H).
  unfold Put. destruct H as [(e & r' & -> & Hk & ->)|[Hhi ->]].
  - assert (splice es (zlen l) [mkEntry (key (entry_at es (zlen l))) v]
            = l ++ mkEntry (key e) v :: r') as ->.
    { rewrite E, entry_at_split. unfold splice. rewrite ztake_app_eq by done. f_equal. simpl. f_equal.
      change (l ++ e :: r') with (l ++ [e] ++ r'). rewrite app_assoc. apply zdrop_app_eq. zlia. }
    eexists. split; [done|].
    assert (contents (l ++ mkEntry (key e) v :: r') = om_set (data k) v (contents es)) as Hc.
    { rewrite E, !contents_app, om_set_app_r.
      - simpl. by rewrite Hk, bytes_compare_refl.
      - intros x (e' & He' & <-)%contents_keys. by apply Hlo. }
    split; [|done]. unfold wf. rewrite Hc. by apply om_set_sorted.
  - rewrite E, shift_insert. eexists. split; [done|].
    assert (contents (l ++ mkEntry k v :: r) = om_set (data k) v (contents es)) as Hc.
    { rewrite E, !contents_app, om_set_app_r.
      - f_equal. simpl. replace (contents r) with ([] ++ contents r) at 2 by done.
        rewrite om_set_app_l; [done|]. intros x (e' & He' & <-)%contents_keys. by apply Hhi.
      - intros x (e' & He' & <-)%contents_keys. by apply Hlo. }
    split; [|rewrite Hc; by rewrite E]. unfold wf. rewrite Hc. by apply om_set_sorted.
Qed.

(** [Get] returns the value bound to the key, [ErrNotFound] if there is none. *)
Lemma Get_refines es k :
  wf es ->
  Get (Some es) k = match om_get (data k) (contents es) with
                    | Some v => Ok v
                    | None => Err ErrNotFound
                    end.
Proof.
  intros Hs. destruct (search_spec es k Hs) as (l & r & E & Hlo & Hidx & H).
  unfold Get. rewrite Hidx.
  assert (om_get (data k) (contents l) = None) as Hl.
  { apply om_get_None, Forall_forall. intros [x w] (e & [= <- <-] & He)%list_elem_of_In%in_map_iff.
    simpl. intros Ek. specialize (Hlo e He). rewrite Ek in Hlo. by apply bytes_lt_irrefl in Hlo. }
  destruct H as [(e & r' & -> & Hk & ->)|[Hhi ->]].
  - rewrite E, entry_at_split, contents_app, om_get_app, Hl. simpl.
    by rewrite Hk, bytes_compare_refl.
  - rewrite E, contents_app, om_get_app, Hl.
    rewrite (om_get_below (data k)); [done| |apply bytes_le_refl].
    intros x (e' & He' & <-)%contents_keys. by apply Hhi.
Qed.

(** [Delete] succeeds whether or not the key is there and removes it. *)
Lemma Delete_refines es k :
  wf es ->
  exists es', Delete (Some es) k = (Ok tt, Some es') /\ wf es' /\
    contents es' = om_del (data k) (contents es).
Proof.
  intros Hs. destruct (search_spec es k Hs) as (l & r & E & Hlo & Hidx & H).
  assert (forall m, om_del (data k) (contents l ++ m) = contents l ++ om_del (data k) m) as Hd.
  { intros m. apply om_del_app_r. intros x (e' & He' & <-)%contents_keys. by apply Hlo. }
  unfold Delete. destruct H as [(e & r' & -> & Hk & ->)|[Hhi ->]].
  - assert (ztake (zlen l) es ++ zdrop (zlen l + 1) es = l ++ r') as ->.
    { rewrite E, ztake_app_eq by done. f_equal.
      change (l ++ e :: r') with (l ++ [e] ++ r'). rewrite app_assoc. apply zdrop_app_eq. zlia. }
    eexists. split; [done|].
    assert (contents (l ++ r') = om_del (data k) (contents es)) as Hc.
    { rewrite E, !contents_app, Hd. simpl. by rewrite Hk, bytes_compare_refl. }
    split; [|done]. unfold wf. rewrite Hc. by apply om_del_sorted.
  - exists es. split; [done|]. split; [done|]. rewrite E, contents_app, Hd.
    f_equal. symmetry. apply om_del_notin, (om_get_below (data k)); [|apply bytes_le_refl].
    intros x (e' & He' & <-)%contents_keys. by apply Hhi.
Qed.

Lemma scan_loop_spec r endk :
  wf r -> contents (scan_loop r endk) = om_range None (Some (data endk)) (contents r).
Proof.
  induction r as [|e r IH]; [done|]. unfold wf. intros Hs. simpl in Hs.
  apply om_sorted_cons in Hs as [Hs Hf]. cbn [scan_loop contents map om_range List.filter].
  unfold Compare, in_range at 1. simpl. destruct (bytes_compare (data (key e)) (data endk)) eqn:E.
  - apply bytes_compare_eq in E. symmetry. apply om_range_none. intros x Hx. specialize (Hf x Hx).
    rewrite E in Hf. unfold in_range. by rewrite (proj2 (bytes_gt_lt _ _) Hf).
  - simpl. f_equal. by apply IH.
  - symmetry. apply om_range_none. intros x Hx. specialize (Hf x Hx). apply bytes_gt_lt in E.
    unfold in_range. by rewrite (proj2 (bytes_gt_lt _ _) (bytes_lt_trans _ _ _ E Hf)).
Qed.

(** [Scan] returns exactly the bindings with [start <= key < end], in
    ascending order, and nothing when [start >= end]. *)
Lemma Scan_refines es start endk :
  wf es ->
  exists out, Scan (Some es) start endk = Ok out /\
    contents out = om_range (Some (data start)) (Some (data endk)) (contents es).
Proof.
  intros Hs. unfold Scan. unfold Compare at 1.
  assert (bytes_compare (data start) (data endk) <> Lt ->
          om_range (Some (data start)) (Some (data endk)) (contents es) = []) as Hempty.
  { intros Hge. apply om_range_none. intros x _. unfold in_range.
    destruct (bytes_compare x (data start)) eqn:E1; [| done |];
      destruct (bytes_compare x (data endk)) eqn:E2; try done; exfalso; apply Hge.
    - apply bytes_compare_eq in E1 as <-. done.
    - apply bytes_gt_lt in E1. by eapply bytes_lt_trans. }
  destruct (bytes_compare (data start) (data endk)) eqn:E; [exists []; by rewrite Hempty| |exists []; by rewrite Hempty].
  destruct (search_split es start Hs) as (l & r & Ees & Hl & Hlo & Hhi). eexists. split; [done|].
  rewrite <- Hl. assert (zdrop (zlen l) es = r) as -> by (rewrite Ees; by apply zdrop_app_eq).
  assert (wf r) as Hr.
  { unfold wf in Hs. rewrite Ees, contents_app in Hs. by apply om_sorted_app in Hs as (_ & ? & _). }
  rewrite scan_loop_spec by done. rewrite Ees, contents_app, om_range_app.
  rewrite (om_range_none _ _ (contents l)).
  - simpl. apply om_range_ext. intros x (e & He & <-)%contents_keys.
    unfold in_range. specialize (Hhi e He). apply bytes_not_lt in Hhi.
    by destruct (bytes_compare (data (key e)) (data start)).
  - intros x (e & He & <-)%contents_keys. unfold in_range. by rewrite (Hlo e He).
Qed.

(** * Runs *)

Inductive request : Type :=
| RPut (k : Key) (v : list byte) | RGet (k : Key) | RDelete (k : Key) | RLen | RScan (start stop : Key).

Inductive answer : Type :=
| ADone (r : res store_err unit) | AValue (r : res store_err (list byte)) | ALen (n : Z)
| AEntries (r : res store_err (list (list byte * list byte))).

Definition serve (q : request) (st : store) : answer * store :=
  match q with
  | RPut k v => let '(r, st') := Put st k v in (ADone r, st')
  | RGet k => (AValue (Get st k), st)
  | RDelete k => let '(r, st') := Delete st k in (ADone r, st')
  | RLen => (ALen (Len st), st)
  | RScan a b => (AEntries (match Scan st a b with Ok l => Ok (contents l) | Err e => Err e end), st)
  end.

(** The ordered map's answer to a request. *)
Definition map_serve (q : request) (l : list (list byte * list byte))
  : answer * list (list byte * list byte) :=
  match q with
  | RPut k v => (ADone (Ok tt), om_set (data k) v l)
  | RGet k => (AValue (match om_get (data k) l with Some v => Ok v | None => Err ErrNotFound end), l)
  | RDelete k => (ADone (Ok tt), om_del (data k) l)
  | RLen => (ALen (zlen l), l)
  | RScan a b => (AEntries (Ok (om_range (Some (data a)) (Some (data b)) l)), l)
  end.

Fixpoint run {S} (serve : request -> S -> answer * S) (qs : list request) (st : S) : list answer * S :=
  match qs with
  | [] => ([], st)
  | q :: qs' => let '(a, st1) := serve q st in let '(l, st2) := run serve qs' st1 in (a :: l, st2)
  end.

Lemma store_serve_refines q es :
  wf es ->
  exists es', serve q (Some es) = (fst (map_serve q (contents es)), Some es') /\ wf es' /\
    contents es' = snd (map_serve q (contents es)).
Proof.
  intros Hs. destruct q as [k v|k|k| |a b]; cbn [serve map_serve fst snd].
  - destruct (Put_refines es k v Hs) as (es' & E & ? & ?). exists es'. by rewrite E.
  - exists es. by rewrite (Get_refines es k Hs).
  - destruct (Delete_refines es k Hs) as (es' & E & ? & ?). exists es'. by rewrite E.
  - exists es. cbn [Len]. unfold contents, zlen. by rewrite length_map.
  - destruct (Scan_refines es a b Hs) as (out & E & Hout). exists es. by rewrite E, Hout.
Qed.

Lemma run_refines qs es :
  wf es ->
  exists es', run serve qs (Some es) = (fst (run map_serve qs (contents es)), Some es') /\ wf es' /\
    contents es' = snd (run map_serve qs (contents es)).
Proof.
  revert es. induction qs as [|q qs IH]; intros es Hs; [by exists es|]. cbn [run].
  destruct (store_serve_refines q es Hs) as (es1 & E & Hs1 & Hc). rewrite E.
  destruct (map_serve q (contents es)) as [a l1]. cbn [fst snd] in *. subst l1.
  destruct (IH es1 Hs1) as (es2 & E2 & Hs2 & Hc2). exists es2. rewrite E2.
  by destruct (run map_serve qs (contents es1)).
Qed.

(** the in-memory store is the ordered map: every run of Put, Get, Delete, Len
    and Scan on a new store gets the answers of the map that starts empty, errors
    included, and leaves the entries strictly sorted with the contents of the map. *)
Theorem store_run_refines qs :
  exists es, run serve qs New = (fst (run map_serve qs []), Some es) /\ wf es /\
    contents es = snd (run map_serve qs []).
Proof. apply (run_refines qs []). constructor. Qed.

End Store.
