(* ===== verification/Page.v ===== *)
(** The byte formats of [internal/storage/pager]: data pages and free-list
    pointers (page.go), the mirrored header page (header.go) and the records
    of the write-ahead log (wal.go).

    Each [encode]/[decode] pair is the Go pair of the same name.  The theorems:
    decoding inverts encoding; damage confined to a window of four bytes of a
    page is always reported; a WAL record is recognised in front of any bytes
    and every proper prefix of one is an incomplete record, which is what crash
    recovery rests on. *)

From Stdlib Require Import ZArith Lia.
From S2P Require Import Prelude Crc.
Open Scope Z_scope.

Definition PageSize : Z := 4096.
Definition HeaderPageID : Z := 0.
Definition MirrorHeaderPageID : Z := 1.
Definition FirstDataPageID : Z := 2.
Definition FormatVersion : Z := 2.
Definition MagicNumber : Z := 0x506C6D76.
Definition DataPageBodySize : Z := PageSize - 12.
Definition freeListSentinel : Z := 0xFFFFFFFFFFFFFFFF.
Definition walEOTPageID : Z := 0xFFFFFFFFFFFFFFFF.

(** The sentinel errors of pager.go, [io.EOF], [io.ErrShortWrite], and [ErrIO]
    for an error of the underlying file. *)
Inductive pager_err : Type :=
| ErrNotOpen | ErrAlreadyOpen | ErrClosed | ErrNotAPagerFile | ErrUnsupportedVersion
| ErrPageSizeMismatch | ErrHeaderCorrupt | ErrPageCorrupt | ErrInvalidPageID
| ErrBodySizeMismatch | ErrAlreadyFree | ErrFreeListCorrupt | ErrTxAlreadyActive
| ErrNoActiveTx | ErrTxUnsupportedOp | ErrWALCorrupt
| EOF | ErrShortWrite | ErrIO.

#[export] Instance pager_err_eq_dec : EqDecision pager_err.
Proof. solve_decision. Defined.

(** * page.go *)

Definition encodeDataPage (body : list byte) : res pager_err (list byte) :=
  if negb (zlen body =? DataPageBodySize) then Err ErrBodySizeMismatch
  else
    let buf := zrep PageSize x00 in
    let buf := splice buf 8 (be_encode 4 (crc32 body)) in
    Ok (splice buf 12 body).

Definition decodeDataPage (d : list byte) : res pager_err (list byte) :=
  if negb (zlen d =? PageSize) then Err ErrPageCorrupt
  else
    let storedCksum := be_decode (slice d 8 12) in
    let computedCksum := crc32 (zdrop 12 d) in
    if negb (storedCksum =? computedCksum) then Err ErrPageCorrupt
    else Ok (copy_into (zrep DataPageBodySize x00) 0 DataPageBodySize (zdrop 12 d)).

Definition encodeFreeListPointer (nextPageID : Z) : list byte :=
  splice (zrep DataPageBodySize x00) 0 (be_encode 8 nextPageID).

Definition decodeFreeListPointer (body : list byte) : res pager_err Z :=
  if negb (zlen body =? DataPageBodySize) then Err ErrPageCorrupt
  else Ok (be_decode (slice body 0 8)).

(** * header.go *)

Record pagerHeader := mkHeader {
  magic : Z; version : Z; pageSize : Z;
  hPageCount : Z; hFreeListHead : Z; freePageCount : Z }.

Definition encodeHeader (h : pagerHeader) : list byte :=
  let buf := zrep PageSize x00 in
  let buf := splice buf 0 (be_encode 4 (magic h)) in
  let buf := splice buf 4 (be_encode 4 (version h)) in
  let buf := splice buf 8 (be_encode 4 (pageSize h)) in
  let buf := splice buf 12 (be_encode 8 (hPageCount h)) in
  let buf := splice buf 20 (be_encode 8 (hFreeListHead h)) in
  let buf := splice buf 28 (be_encode 8 (freePageCount h)) in
  let cksum := crc32 (slice buf 0 36) in
  splice buf 36 (be_encode 4 cksum).

Definition decodeHeader (d : list byte) : res pager_err pagerHeader :=
  if negb (zlen d =? PageSize) then Err ErrHeaderCorrupt
  else
    let magic := be_decode (slice d 0 4) in
    if negb (magic =? MagicNumber) then Err ErrNotAPagerFile
    else
      let version := be_decode (slice d 4 8) in
      if negb (version =? FormatVersion) then Err ErrUnsupportedVersion
      else
        let pageSize := be_decode (slice d 8 12) in
        if negb (pageSize =? PageSize) then Err ErrPageSizeMismatch
        else
          let storedCksum := be_decode (slice d 36 40) in
          let computedCksum := crc32 (slice d 0 36) in
          if negb (storedCksum =? computedCksum) then Err ErrHeaderCorrupt
          else Ok (mkHeader magic version pageSize
                     (be_decode (slice d 12 20)) (be_decode (slice d 20 28))
                     (be_decode (slice d 28 36))).

(** * wal.go *)

Definition encodeWALRecord (txnID pageID : Z) (body : list byte) : list byte :=
  let bodyLen := wrap32 (zlen body) in
  let rec := zrep (20 + bodyLen + 4) x00 in
  let rec := splice rec 0 (be_encode 8 txnID) in
  let rec := splice rec 8 (be_encode 8 pageID) in
  let rec := splice rec 16 (be_encode 4 bodyLen) in
  let rec := copy_into rec 20 (20 + bodyLen) body in
  let cksum := crc32 (slice rec 0 (20 + bodyLen)) in
  splice rec (20 + bodyLen) (be_encode 4 cksum).

Definition encodeEOTMarker (txnID : Z) : list byte :=
  let rec := zrep (20 + 4) x00 in
  let rec := splice rec 0 (be_encode 8 txnID) in
  let rec := splice rec 8 (be_encode 8 walEOTPageID) in
  let cksum := crc32 (slice rec 0 20) in
  splice rec 20 (be_encode 4 cksum).

Definition isEOTMarker (pageID bodyLength : Z) : bool :=
  (pageID =? walEOTPageID) && (bodyLength =? 0).

Record walRecord := mkWal { wTxn : Z; wPage : Z; wBody : list byte }.

(** The decoded record and the number of bytes it occupies. *)
Definition decodeNextWALRecord (d : list byte) : res pager_err (walRecord * Z) :=
  if zlen d <? 20 then Err EOF
  else
    let txnID := be_decode (slice d 0 8) in
    let pageID := be_decode (slice d 8 16) in
    let bodyLength := be_decode (slice d 16 20) in
    let badShape :=
      if pageID =? walEOTPageID then negb (bodyLength =? 0)
      else negb (bodyLength =? DataPageBodySize) in
    if badShape then Err ErrWALCorrupt
    else
      let requiredLen := 20 + bodyLength + 4 in
      if zlen d <? requiredLen then Err EOF
      else
        let storedCksum := be_decode (slice d (20 + bodyLength) requiredLen) in
        let computedCksum := crc32 (slice d 0 (20 + bodyLength)) in
        if negb (storedCksum =? computedCksum) then Err ErrWALCorrupt
        else
          let body := if 0 <? bodyLength then slice d 20 (20 + bodyLength) else [] in
          Ok (mkWal txnID pageID body, requiredLen).

(** * Closed forms *)

(** Writing fields one after the other into a zero-filled buffer concatenates them. *)
Ltac layout :=
  repeat first [rewrite splice_zrep by zlia | rewrite splice_app_r by zlia];
  repeat match goal with |- context [zrep ?n ?e] => rewrite (zrep_nil n e) by zlia end;
  cbn [app]; rewrite ?app_nil_r, <- ?app_assoc.

(** The image of a data page: eight reserved bytes, the checksum, the body. *)
Definition data_image (body : list byte) : list byte :=
  zrep 8 x00 ++ be_encode 4 (crc32 body) ++ body.

Lemma zlen_data_image body : zlen body = DataPageBodySize -> zlen (data_image body) = PageSize.
Proof. unfold data_image, DataPageBodySize, PageSize. intros. zlia. Qed.

Lemma encodeDataPage_image body :
  zlen body = DataPageBodySize -> encodeDataPage body = Ok (data_image body).
Proof.
  intros Hb. unfold encodeDataPage. rewrite Hb, Z.eqb_refl. simpl. f_equal.
  unfold DataPageBodySize, PageSize in *.
  unfold data_image. by layout.
Qed.

Lemma copy_full (d : list byte) n : zlen d = n -> copy_into (zrep n x00) 0 n d = d.
Proof.
  intros <-. pose proof (zlen_nonneg d). unfold copy_into, splice.
  rewrite Z.sub_0_r, (ztake_all (zlen d) d), ztake_0, zdrop_all by zlia. by rewrite app_nil_r.
Qed.

Lemma decodeDataPage_parts a c d :
  zlen a = 8 -> zlen c = 4 -> zlen d = DataPageBodySize ->
  decodeDataPage (a ++ c ++ d) = if be_decode c =? crc32 d then Ok d else Err ErrPageCorrupt.
Proof.
  intros Ha Hc Hd. unfold decodeDataPage. pose proof Hd as Hd'.
  unfold DataPageBodySize, PageSize in Hd'.
  rewrite (proj2 (Z.eqb_eq _ _)) by (unfold PageSize; zlia). simpl.
  assert (slice (a ++ c ++ d) 8 12 = c) as ->.
  { rewrite slice_app_r, slice_app_l by lia. apply slice_full; lia. }
  assert (zdrop 12 (a ++ c ++ d) = d) as -> by (rewrite app_assoc; apply zdrop_app_eq; zlia).
  destruct (be_decode c =? crc32 d); [|done]. simpl. by rewrite copy_full.
Qed.

Lemma decode_crc l : be_decode (be_encode 4 (crc32 l)) = crc32 l.
Proof. apply be_decode_encode, crc32_range. Qed.

Lemma decodeDataPage_image body :
  zlen body = DataPageBodySize -> decodeDataPage (data_image body) = Ok body.
Proof.
  intros. unfold data_image. rewrite decodeDataPage_parts by zlia.
  by rewrite decode_crc, Z.eqb_refl.
Qed.

(** A page body survives [encodeDataPage] and [decodeDataPage], and bodies of
    any other size are refused. *)
Theorem data_page_roundtrip body :
  (zlen body = DataPageBodySize ->
     exists img, encodeDataPage body = Ok img /\ zlen img = PageSize /\ decodeDataPage img = Ok body) /\
  (zlen body <> DataPageBodySize -> encodeDataPage body = Err ErrBodySizeMismatch).
Proof.
  split; intros Hb.
  - exists (data_image body). rewrite encodeDataPage_image, decodeDataPage_image by done.
    split_and!; try done. by apply zlen_data_image.
  - unfold encodeDataPage. by rewrite (proj2 (Z.eqb_neq _ _)).
Qed.


Lemma freelist_pointer_roundtrip n : u64 n -> 
  zlen (encodeFreeListPointer n) = DataPageBodySize /\
  decodeFreeListPointer (encodeFreeListPointer n) = Ok n.
Proof.
  intros Hn. unfold encodeFreeListPointer, decodeFreeListPointer, DataPageBodySize, PageSize.
  assert (zlen (splice (zrep (4096 - 12) x00) 0 (be_encode 8 n)) = 4096 - 12) as Hl by zlia.
  rewrite Hl, Z.eqb_refl. cbn [negb]. split; [done|].
  rewrite slice_splice_eq by zlia. f_equal. by apply be_decode_encode.
Qed.

(** ** Header pages *)

(** The 36 checksummed bytes, and the image they are the start of. *)
Definition header_fields (h : pagerHeader) : list byte :=
  be_encode 4 (magic h) ++ be_encode 4 (version h) ++ be_encode 4 (pageSize h)
  ++ be_encode 8 (hPageCount h) ++ be_encode 8 (hFreeListHead h) ++ be_encode 8 (freePageCount h).

Lemma zlen_header_fields h : zlen (header_fields h) = 36.
Proof. unfold header_fields. zlia. Qed.

Lemma encodeHeader_image h :
  encodeHeader h = header_fields h ++ be_encode 4 (crc32 (header_fields h)) ++ zrep (PageSize - 40) x00.
Proof.
  unfold encodeHeader, PageSize.
  match goal with |- context [crc32 (slice ?b 0 36)] => set (buf := b) end.
  assert (buf = header_fields h ++ zrep (4096 - 36) x00) as Hbuf.
  { unfold buf, header_fields. layout.
    repeat f_equal; zlia. }
  assert (slice buf 0 36 = header_fields h) as Hs.
  { rewrite Hbuf, slice_app_l by (rewrite ?zlen_header_fields; lia).
    apply slice_full; rewrite ?zlen_header_fields; lia. }
  rewrite Hs, Hbuf. rewrite splice_app_r by (rewrite zlen_header_fields; lia).
  rewrite zlen_header_fields, splice_zrep by zlia. simpl. rewrite zrep_nil by lia. simpl.
  done.
Qed.

Lemma zlen_encodeHeader h : zlen (encodeHeader h) = PageSize.
Proof. rewrite encodeHeader_image. pose proof (zlen_header_fields h). unfold PageSize. zlia. Qed.

(** The header a pager writes: the constants, and counters in range. *)
Definition header_ok (h : pagerHeader) : Prop :=
  magic h = MagicNumber /\ version h = FormatVersion /\ pageSize h = PageSize /\
  u64 (hPageCount h) /\ u64 (hFreeListHead h) /\ u64 (freePageCount h).

Lemma header_field_slices h x :
  let d := header_fields h ++ x in
  slice d 0 4 = be_encode 4 (magic h) /\ slice d 4 8 = be_encode 4 (version h) /\
  slice d 8 12 = be_encode 4 (pageSize h) /\ slice d 12 20 = be_encode 8 (hPageCount h) /\
  slice d 20 28 = be_encode 8 (hFreeListHead h) /\ slice d 28 36 = be_encode 8 (freePageCount h).
Proof.
  intros d. unfold d, header_fields.
  assert (forall (p v r : list byte) a b, a = zlen p -> b = zlen p + zlen v ->
            slice (p ++ v ++ r) a b = v) as Hm.
  { intros p v r a b -> ->. rewrite slice_app_r, slice_app_l by (pose proof (zlen_nonneg v); lia).
    apply slice_full; lia. }
  rewrite <- !app_assoc.
  split_and!.
  - apply (Hm []); zlia.
  - apply Hm; zlia.
  - rewrite (app_assoc (be_encode 4 (magic h))). apply Hm; zlia.
  - rewrite !(app_assoc (be_encode 4 (magic h))). rewrite (app_assoc _ (be_encode 4 (pageSize h))).
    apply Hm; zlia.
  - rewrite (app_assoc (be_encode 4 (magic h))), (app_assoc _ (be_encode 4 (pageSize h))),
      (app_assoc _ (be_encode 8 (hPageCount h))). apply Hm; zlia.
  - rewrite (app_assoc (be_encode 4 (magic h))), (app_assoc _ (be_encode 4 (pageSize h))),
      (app_assoc _ (be_encode 8 (hPageCount h))), (app_assoc _ (be_encode 8 (hFreeListHead h))).
    apply Hm; zlia.
Qed.

Lemma decodeHeader_parts h x :
  header_ok h -> zlen x = PageSize - 40 ->
  decodeHeader (header_fields h ++ be_encode 4 (crc32 (header_fields h)) ++ x) = Ok h.
Proof.
  intros (Hm & Hv & Hp & Hc & Hf & Hn) Hx. unfold decodeHeader.
  pose proof (zlen_header_fields h) as Hl. unfold PageSize in Hx.
  rewrite (proj2 (Z.eqb_eq _ _)) by (unfold PageSize; zlia). cbn [negb].
  set (tl := be_encode 4 (crc32 (header_fields h)) ++ x).
  destruct (header_field_slices h tl) as (-> & -> & -> & -> & -> & ->).
  rewrite Hm, Hv, Hp.
  rewrite (be_decode_encode 4 MagicNumber), (be_decode_encode 4 FormatVersion),
    (be_decode_encode 4 PageSize) by (unfold MagicNumber, FormatVersion, PageSize; lia).
  rewrite !Z.eqb_refl. cbn [negb].
  assert (slice (header_fields h ++ tl) 36 40 = be_encode 4 (crc32 (header_fields h))) as ->.
  { rewrite slice_app_r, Hl by lia. unfold tl. rewrite slice_app_l by zlia.
    apply slice_full; zlia. }
  assert (slice (header_fields h ++ tl) 0 36 = header_fields h) as ->.
  { rewrite slice_app_l by lia. by apply slice_full. }
  rewrite decode_crc, Z.eqb_refl. cbn [negb]. rewrite !be_decode_encode by done.
  by destruct h; simpl in *; subst.
Qed.

Lemma decodeHeader_encode h : header_ok h -> decodeHeader (encodeHeader h) = Ok h.
Proof.
  intros H. rewrite encodeHeader_image. apply decodeHeader_parts; [done|].
  unfold PageSize. apply zlen_rep. lia.
Qed.

(** a header round-trips, and a header whose 36 checksummed bytes are damaged
    in a window of at most four bytes is refused. *)
Theorem header_roundtrip_and_detection h :
  header_ok h ->
  decodeHeader (encodeHeader h) = Ok h /\
  (forall pre p q post, encodeHeader h = pre ++ p ++ post ->
     length p = length q -> (length p <= 4)%nat -> p <> q -> zlen pre + zlen p <= 36 ->
     is_ok (decodeHeader (pre ++ q ++ post)) = false).
Proof.
  intros Hok. split; [by apply decodeHeader_encode|].
  intros pre p q post Himg Hl H4 Hne Hw. assert (zlen p = zlen q) as Hzl by (unfold zlen; lia).
  rewrite encodeHeader_image in Himg. pose proof (zlen_header_fields h) as Hhf.
  generalize dependent (zrep (PageSize - 40) x00). intros z Himg.
  rewrite (app_assoc pre) in Himg. symmetry in Himg. apply app_split in Himg as (x & Hh & ->); [|zlia].
  unfold decodeHeader.
  destruct (zlen _ =? PageSize); [|done]. destruct (_ =? MagicNumber); [|done].
  destruct (_ =? FormatVersion); [|done]. destruct (_ =? PageSize); [|done]. cbn [negb].
  match goal with |- is_ok (if negb ?c then _ else _) = false => destruct c eqn:Hck; [|done] end.
  apply Z.eqb_eq in Hck. exfalso. revert Hck. rewrite Hh in *.
  assert (zlen ((pre ++ q) ++ x) = 36) as Hq by zlia.
  rewrite (app_assoc pre), (app_assoc (pre ++ q) x).
  set (tl := be_encode 4 (crc32 ((pre ++ p) ++ x)) ++ z).
  rewrite (slice_app_r _ tl 36 40), Hq by lia.
  rewrite (slice_app_l _ tl 0 36), (slice_full _ 0 36) by lia.
  unfold tl. rewrite slice_app_l by zlia. rewrite slice_full, decode_crc by zlia.
  rewrite <- !app_assoc. by apply crc32_burst.
Qed.

(** ** WAL records *)

(** A data record and an end-of-transaction marker, laid out. *)
Definition wal_header (txnID pageID n : Z) : list byte :=
  be_encode 8 txnID ++ be_encode 8 pageID ++ be_encode 4 n.

Lemma zlen_wal_header t p n : zlen (wal_header t p n) = 20.
Proof. unfold wal_header. zlia. Qed.

Lemma wal_header_slices t p n x :
  let d := wal_header t p n ++ x in
  slice d 0 8 = be_encode 8 t /\ slice d 8 16 = be_encode 8 p /\ slice d 16 20 = be_encode 4 n.
Proof.
  intros d. unfold d, wal_header. rewrite <- !app_assoc. split_and!.
  - rewrite slice_app_l by zlia. apply slice_full; zlia.
  - rewrite slice_app_r, slice_app_l by zlia. apply slice_full; zlia.
  - rewrite slice_app_r, slice_app_r, slice_app_l by zlia. apply slice_full; zlia.
Qed.

Definition wal_image (txnID pageID : Z) (body : list byte) : list byte :=
  let r := wal_header txnID pageID (zlen body) ++ body in r ++ be_encode 4 (crc32 r).

Lemma zlen_wal_image t p body : zlen (wal_image t p body) = 24 + zlen body.
Proof. unfold wal_image. pose proof (zlen_wal_header t p (zlen body)). zlia. Qed.

Lemma encodeWALRecord_image t p body :
  zlen body < 2 ^ 32 -> encodeWALRecord t p body = wal_image t p body.
Proof.
  intros Hb. pose proof (zlen_nonneg body). unfold encodeWALRecord, wal_image, wrap32.
  rewrite Z.mod_small by lia.
  match goal with |- context [crc32 (slice ?b 0 (20 + zlen body))] => set (buf := b) end.
  assert (buf = (wal_header t p (zlen body) ++ body) ++ zrep 4 x00) as Hbuf.
  { unfold buf, wal_header, copy_into. rewrite ztake_all by lia. layout.
    repeat f_equal; zlia. }
  pose proof (zlen_wal_header t p (zlen body)) as Hh.
  assert (slice buf 0 (20 + zlen body) = wal_header t p (zlen body) ++ body) as ->.
  { rewrite Hbuf, slice_app_l by zlia. apply slice_full; zlia. }
  rewrite Hbuf, splice_app_r, splice_zrep by zlia.
  repeat match goal with |- context [zrep ?n ?e] => rewrite (zrep_nil n e) by zlia end.
  by rewrite app_nil_r.
Qed.

Lemma be_encode_zero n : be_encode n 0 = replicate n x00.
Proof.
  apply be_decode_inj; [by rewrite length_be_encode, length_replicate|].
  rewrite be_decode_encode by (split; [lia|apply Z.pow_pos_nonneg; lia]).
  induction n as [|n IH]; [done|]. rewrite replicate_S_end, be_decode_snoc, <- IH. done.
Qed.

Lemma encodeEOTMarker_image t : encodeEOTMarker t = wal_image t walEOTPageID [].
Proof.
  unfold encodeEOTMarker, wal_image. change (zlen []) with 0. rewrite app_nil_r.
  match goal with |- context [crc32 (slice ?b 0 20)] => set (buf := b) end.
  assert (buf = wal_header t walEOTPageID 0 ++ zrep 4 x00) as Hbuf.
  { unfold buf, wal_header. layout. by rewrite be_encode_zero. }
  pose proof (zlen_wal_header t walEOTPageID 0) as Hh.
  assert (slice buf 0 20 = wal_header t walEOTPageID 0) as ->.
  { rewrite Hbuf, slice_app_l by zlia. apply slice_full; zlia. }
  rewrite Hbuf, splice_app_r, splice_zrep by zlia.
  repeat match goal with |- context [zrep ?n ?e] => rewrite (zrep_nil n e) by zlia end.
  by rewrite app_nil_r.
Qed.

(** The records the pager appends: a page body for a page other than the
    marker, or a marker without body. *)
Definition wal_ok (r : walRecord) : Prop :=
  u64 (wTxn r) /\ u64 (wPage r) /\
  (wPage r <> walEOTPageID /\ zlen (wBody r) = DataPageBodySize \/
   wPage r = walEOTPageID /\ wBody r = []).

Definition wal_bytes (r : walRecord) : list byte := wal_image (wTxn r) (wPage r) (wBody r).

Lemma wal_ok_len r : wal_ok r -> zlen (wBody r) = 0 \/ zlen (wBody r) = DataPageBodySize.
Proof. intros (_ & _ & [[_ ?]|[_ ->]]); [by right|by left]. Qed.

Lemma decodeNext_wal_bytes r rest :
  wal_ok r -> decodeNextWALRecord (wal_bytes r ++ rest) = Ok (r, zlen (wal_bytes r)).
Proof.
  intros Hok. pose proof (wal_ok_len r Hok) as Hlen. destruct Hok as (Ht & Hp & Hshape).
  destruct r as [t p body]. simpl in *. unfold wal_bytes. simpl. rewrite zlen_wal_image.
  unfold DataPageBodySize, PageSize in Hlen. pose proof (zlen_nonneg rest).
  unfold decodeNextWALRecord.
  rewrite (proj2 (Z.ltb_ge _ _)) by (rewrite zlen_app, zlen_wal_image; lia).
  unfold wal_image. rewrite <- !app_assoc.
  destruct (wal_header_slices t p (zlen body)
    (body ++ be_encode 4 (crc32 (wal_header t p (zlen body) ++ body)) ++ rest)) as (-> & -> & ->).
  rewrite !(be_decode_encode 8) by done. rewrite (be_decode_encode 4) by lia.
  assert ((if p =? walEOTPageID then negb (zlen body =? 0) else negb (zlen body =? DataPageBodySize)) = false) as ->.
  { destruct Hshape as [[Hne Hb]|[-> ->]].
    - rewrite (proj2 (Z.eqb_neq _ _)) by done. by rewrite Hb, Z.eqb_refl.
    - by rewrite Z.eqb_refl. }
  pose proof (zlen_wal_header t p (zlen body)) as Hh.
  rewrite (proj2 (Z.ltb_ge _ _)) by zlia.
  set (r := wal_header t p (zlen body) ++ body).
  assert (zlen r = 20 + zlen body) as Hr by (unfold r; zlia).
  replace (wal_header t p (zlen body) ++ body ++ be_encode 4 (crc32 r) ++ rest)
    with (r ++ be_encode 4 (crc32 r) ++ rest) by (unfold r; by rewrite <- !app_assoc).
  assert (slice (r ++ be_encode 4 (crc32 r) ++ rest) (20 + zlen body) (20 + zlen body + 4)
          = be_encode 4 (crc32 r)) as ->.
  { rewrite slice_app_r, slice_app_l by zlia. apply slice_full; zlia. }
  assert (slice (r ++ be_encode 4 (crc32 r) ++ rest) 0 (20 + zlen body) = r) as ->.
  { rewrite slice_app_l by lia. by apply slice_full. }
  rewrite decode_crc, Z.eqb_refl. simpl. f_equal.
  assert ((if 0 <? zlen body then slice (r ++ be_encode 4 (crc32 r) ++ rest) 20 (20 + zlen body) else [])
          = body) as ->.
  { destruct (Z.ltb_spec 0 (zlen body)).
    - rewrite slice_app_l by lia. unfold r. rewrite slice_app_r by lia. apply slice_full; lia.
    - destruct body; [done|]. rewrite zlen_cons in *. pose proof (zlen_nonneg body). lia. }
  f_equal. lia.
Qed.

Lemma decodeNext_wal_prefix r n :
  wal_ok r -> 0 <= n < zlen (wal_bytes r) -> decodeNextWALRecord (ztake n (wal_bytes r)) = Err EOF.
Proof.
  intros Hok Hn. pose proof (wal_ok_len r Hok) as Hlen. destruct Hok as (Ht & Hp & Hshape).
  destruct r as [t p body]. unfold wal_bytes in *. simpl in *. rewrite zlen_wal_image in Hn.
  unfold DataPageBodySize, PageSize in Hlen.
  unfold decodeNextWALRecord. rewrite zlen_ztake by (rewrite zlen_wal_image; lia).
  destruct (Z.ltb_spec n 20); [done|].
  pose proof (zlen_wal_header t p (zlen body)) as Hh.
  assert (exists x, ztake n (wal_image t p body) = wal_header t p (zlen body) ++ x) as [x ->].
  { unfold wal_image. rewrite <- app_assoc, ztake_app_r by lia. eauto. }
  destruct (wal_header_slices t p (zlen body) x) as (-> & -> & ->).
  rewrite !(be_decode_encode 8) by done. rewrite (be_decode_encode 4) by lia.
  assert ((if p =? walEOTPageID then negb (zlen body =? 0) else negb (zlen body =? DataPageBodySize)) = false) as ->.
  { destruct Hshape as [[Hne Hb]|[-> ->]].
    - rewrite (proj2 (Z.eqb_neq _ _)) by done. by rewrite Hb, Z.eqb_refl.
    - by rewrite Z.eqb_refl. }
  by rewrite (proj2 (Z.ltb_lt _ _)) by lia.
Qed.

(** a WAL record is decoded from the front of any byte string, and every
    proper prefix of it is reported as incomplete ([io.EOF]), never as corrupt. *)
Theorem wal_record_roundtrip t p body :
  u64 t -> u64 p -> p <> walEOTPageID -> zlen body = DataPageBodySize ->
  (forall rest, decodeNextWALRecord (encodeWALRecord t p body ++ rest)
                = Ok (mkWal t p body, zlen (encodeWALRecord t p body))) /\
  (forall rest, decodeNextWALRecord (encodeEOTMarker t ++ rest)
                = Ok (mkWal t walEOTPageID [], zlen (encodeEOTMarker t))) /\
  (forall n, 0 <= n < zlen (encodeWALRecord t p body) ->
             decodeNextWALRecord (ztake n (encodeWALRecord t p body)) = Err EOF) /\
  (forall n, 0 <= n < zlen (encodeEOTMarker t) ->
             decodeNextWALRecord (ztake n (encodeEOTMarker t)) = Err EOF).
Proof.
  intros Ht Hp Hne Hb.
  assert (wal_ok (mkWal t p body)) as H1 by (split; [done|split; [done|by left]]).
  assert (wal_ok (mkWal t walEOTPageID [])) as H2 by (split; [done|split; [done|by right]]).
  rewrite encodeWALRecord_image by (rewrite Hb; unfold DataPageBodySize, PageSize; lia).
  rewrite encodeEOTMarker_image.
  split_and!; intros; [by apply (decodeNext_wal_bytes (mkWal t p body))
    |by apply (decodeNext_wal_bytes (mkWal t walEOTPageID []))
    |by apply (decodeNext_wal_prefix (mkWal t p body))
    |by apply (decodeNext_wal_prefix (mkWal t walEOTPageID []))].
Qed.
