(* ===== verification/Pager.v ===== *)
(** [internal/storage/pager/pager.go]: the page manager, as an executable
    state machine.

    [filePager] is the Go struct together with the bytes of its two files.
    Every call on a [fileOps] draws an outcome from the schedule [sched], so
    that the error paths of the code are reachable: a call succeeds, fails
    after [k] bytes, or (for a write) reports a short count.  An empty schedule
    is a fault-free file.  An operation of the pager is a function of type
    [M A]: it returns a value or an error and the new state, because in Go a
    failing operation keeps the changes it made before failing.

    Go does not specify the iteration order of maps; [MapRange] is that order,
    any permutation of the bindings.  Locks are not modelled: each operation
    runs under the pager's mutex. *)

From Stdlib Require Import ZArith Lia.
From stdpp Require Import gmap.
From S2P Require Import Prelude Crc Page Monad.
Open Scope Z_scope.
Open Scope st_scope.

(** The order in which [range] visits a map. *)
Class MapRange := {
  range : forall {A}, gmap Z A -> list (Z * A);
  range_perm : forall {A} (m : gmap Z A), range m ≡ₚ map_to_list m }.

(** One admissible order. *)
Definition sorted_range : MapRange.
Proof. refine {| range := fun A m => map_to_list m |}. reflexivity. Defined.

Module Pager.

(** * State *)

Inductive io_outcome : Type := IoOk | IoFail (k : Z) | IoShort (k : Z).

Inductive storeState : Type := stateNeverOpened | stateOpen | stateClosed.

#[export] Instance storeState_eq_dec : EqDecision storeState.
Proof. solve_decision. Defined.

Record filePager := mkPager {
  mainFile : list byte;
  walFile : list byte;
  sched : list io_outcome;
  CheckpointThreshold : Z;
  state : storeState;
  openErr : option pager_err;
  pageCount : Z;
  freeListHead : Z;
  freeCount : Z;
  freeSet : gset Z;
  inTxn : bool;
  nextTxnID : Z;
  currentTxn : Z;
  txnBuffer : gmap Z (list byte);
  walSize : Z }.

(** Field updates. *)
Definition with_main (f : list byte) (p : filePager) : filePager :=
  mkPager f (walFile p) (sched p) (CheckpointThreshold p) (state p) (openErr p) (pageCount p)
    (freeListHead p) (freeCount p) (freeSet p) (inTxn p) (nextTxnID p) (currentTxn p)
    (txnBuffer p) (walSize p).
Definition with_wal (f : list byte) (p : filePager) : filePager :=
  mkPager (mainFile p) f (sched p) (CheckpointThreshold p) (state p) (openErr p) (pageCount p)
    (freeListHead p) (freeCount p) (freeSet p) (inTxn p) (nextTxnID p) (currentTxn p)
    (txnBuffer p) (walSize p).
Definition with_sched (l : list io_outcome) (p : filePager) : filePager :=
  mkPager (mainFile p) (walFile p) l (CheckpointThreshold p) (state p) (openErr p) (pageCount p)
    (freeListHead p) (freeCount p) (freeSet p) (inTxn p) (nextTxnID p) (currentTxn p)
    (txnBuffer p) (walSize p).
Definition with_state (s : storeState) (p : filePager) : filePager :=
  mkPager (mainFile p) (walFile p) (sched p) (CheckpointThreshold p) s (openErr p) (pageCount p)
    (freeListHead p) (freeCount p) (freeSet p) (inTxn p) (nextTxnID p) (currentTxn p)
    (txnBuffer p) (walSize p).
Definition with_count (n : Z) (p : filePager) : filePager :=
  mkPager (mainFile p) (walFile p) (sched p) (CheckpointThreshold p) (state p) (openErr p) n
    (freeListHead p) (freeCount p) (freeSet p) (inTxn p) (nextTxnID p) (currentTxn p)
    (txnBuffer p) (walSize p).
(** The free list: head, count, set. *)
Definition with_free (h c : Z) (s : gset Z) (p : filePager) : filePager :=
  mkPager (mainFile p) (walFile p) (sched p) (CheckpointThreshold p) (state p) (openErr p)
    (pageCount p) h c s (inTxn p) (nextTxnID p) (currentTxn p) (txnBuffer p) (walSize p).
(** The transaction: active flag, counter, current ID, buffer. *)
Definition with_txn (b : bool) (n c : Z) (m : gmap Z (list byte)) (p : filePager) : filePager :=
  mkPager (mainFile p) (walFile p) (sched p) (CheckpointThreshold p) (state p) (openErr p)
    (pageCount p) (freeListHead p) (freeCount p) (freeSet p) b n c m (walSize p).
Definition with_walSize (n : Z) (p : filePager) : filePager :=
  mkPager (mainFile p) (walFile p) (sched p) (CheckpointThreshold p) (state p) (openErr p)
    (pageCount p) (freeListHead p) (freeCount p) (freeSet p) (inTxn p) (nextTxnID p)
    (currentTxn p) (txnBuffer p) n.

(** [newPager] over two files that exist (or are empty). *)
Definition newPager (main wal : list byte) (threshold : Z) (l : list io_outcome) : filePager :=
  mkPager main wal l threshold stateNeverOpened None 0 freeListSentinel 0 ∅ false 0 0 ∅ 0.

(** [NewWithOptions] when a file cannot be opened. *)
Definition failedPager (e : pager_err) : filePager :=
  mkPager [] [] [] 0 stateNeverOpened (Some e) 0 0 0 ∅ false 0 0 ∅ 0.

(** * The monad *)

Definition M (A : Type) : Type := st filePager pager_err A.

(** [if err := c; err != nil { h }; return err] for a cleanup [h]. *)
Definition on_error {A} (c : M A) (h : filePager -> filePager) : M A :=
  fun p => match c p with (Ok a, p') => (Ok a, p') | (Err e, p') => (Err e, h p') end.
(** A [context.Context]: [Some e] once it is cancelled. *)
Definition context := option pager_err.
Definition checkCtx (ctx : context) : M unit :=
  match ctx with Some e => fail e | None => ret tt end.

(** * fileOps *)

Definition draw : M io_outcome := fun p =>
  match sched p with [] => (Ok IoOk, p) | o :: l => (Ok o, with_sched l p) end.

(** A call that has no effect on the file contents ([Sync], [Close], [Stat]). *)
Definition io_call : M unit :=
  o <- draw ;; match o with IoOk => ret tt | _ => fail ErrIO end.

Definition io_read (f : list byte) (n off : Z) : M (list byte) :=
  io_call ;;;
  if (off <? 0) || (zlen f <? off + n) then fail ErrIO else ret (slice f off (off + n)).

(** The contents after writing [d] at [off]; a gap is filled with zeros. *)
Definition write_at (f : list byte) (off : Z) (d : list byte) : list byte :=
  splice (f ++ zrep (off - zlen f) x00) off d.

(** [WriteAt]: the number of bytes written. *)
Definition io_write (get : filePager -> list byte) (set : list byte -> filePager -> filePager)
  (d : list byte) (off : Z) : M Z :=
  o <- draw ;;
  if off <? 0 then fail ErrIO
  else
    match o with
    | IoOk => modify (fun p => set (write_at (get p) off d) p) ;;; ret (zlen d)
    | IoFail k => modify (fun p => set (write_at (get p) off (ztake k d)) p) ;;; fail ErrIO
    | IoShort k =>
        modify (fun p => set (write_at (get p) off (ztake k d)) p) ;;; ret (zlen (ztake k d))
    end.

Definition main_read (n off : Z) : M (list byte) := f <- gets mainFile ;; io_read f n off.
Definition wal_read (n off : Z) : M (list byte) := f <- gets walFile ;; io_read f n off.

(** A write whose count is compared with the length ([io.ErrShortWrite]). *)
Definition write_full (w : M Z) (n : Z) : M unit :=
  k <- w ;; if k =? n then ret tt else fail ErrShortWrite.

Definition main_write (d : list byte) (off : Z) : M unit :=
  write_full (io_write mainFile with_main d off) (zlen d).
Definition wal_write (d : list byte) (off : Z) : M unit :=
  write_full (io_write walFile with_wal d off) (zlen d).

Definition wal_truncate : M unit := io_call ;;; modify (with_wal []).

(** [int64(pageID) * PageSize] *)
Definition page_offset (pageID : Z) : Z := swrap64 (swrap64 pageID * PageSize).

(** * Helpers *)

Definition checkState : M unit :=
  s <- gets state ;;
  match s with
  | stateOpen => ret tt
  | stateNeverOpened => fail ErrNotOpen
  | stateClosed => fail ErrClosed
  end.

Definition readBodyUnchecked (pageID : Z) : M (list byte) :=
  buf <- main_read PageSize (page_offset pageID) ;; lift (decodeDataPage buf).

Definition writeBodyUnchecked (pageID : Z) (body : list byte) : M unit :=
  encoded <- lift (encodeDataPage body) ;;
  main_write encoded (page_offset pageID) ;;;
  io_call.

(** [writeHeader]: mirror, fsync, primary, fsync. *)
Definition writeHeader (count head : Z) : M unit :=
  fc <- gets freeCount ;;
  let header := encodeHeader (mkHeader MagicNumber FormatVersion PageSize count head fc) in
  main_write header (page_offset MirrorHeaderPageID) ;;;
  io_call ;;;
  main_write header (page_offset HeaderPageID) ;;;
  io_call.

Definition validatePageID (pageID : Z) : M unit :=
  n <- gets pageCount ;;
  if (pageID =? 0) || (pageID =? MirrorHeaderPageID) then fail ErrInvalidPageID
  else if n <=? pageID then fail ErrInvalidPageID
  else ret tt.

(** * WAL replay *)

(** The parsing loop: complete records up to a trailing incomplete one; a
    corrupt record is an error.  Every record has at least 24 bytes, so the
    length of the data is enough fuel. *)
Fixpoint parse_wal (fuel : nat) (d : list byte) : res pager_err (list walRecord) :=
  match fuel with
  | O => Ok []
  | S fuel' =>
      match d with
      | [] => Ok []
      | _ =>
          match decodeNextWALRecord d with
          | Err EOF => Ok []
          | Err e => Err e
          | Ok (r, consumed) => rs ← parse_wal fuel' (zdrop consumed d); Ok (r :: rs)
          end
      end
  end.

(** Grouping by transaction, in order of first appearance. *)
Fixpoint add_record (groups : list (Z * list walRecord)) (r : walRecord)
  : list (Z * list walRecord) :=
  match groups with
  | [] => [(wTxn r, [r])]
  | (t, rs) :: gs => if t =? wTxn r then (t, rs ++ [r]) :: gs else (t, rs) :: add_record gs r
  end.

Definition group_records (rs : list walRecord) : list (Z * list walRecord) :=
  fold_left add_record rs [].

Definition hasEOT (rs : list walRecord) : bool :=
  existsb (fun r => isEOTMarker (wPage r) 0) rs.

(** Last write wins within a transaction. *)
Definition applied (rs : list walRecord) : gmap Z (list byte) :=
  fold_left (fun m r => if isEOTMarker (wPage r) 0 then m else <[wPage r := wBody r]> m) rs ∅.

Section operations.
Context `{MapRange}.

(** Writing a set of bodies to the main file, one page at a time. *)
Definition write_pages (m : gmap Z (list byte)) : M unit :=
  for_each (range m) (fun '(pageID, body) =>
    encoded <- lift (encodeDataPage body) ;;
    main_write encoded (page_offset pageID)).

Definition apply_group (g : Z * list walRecord) : M unit :=
  if hasEOT (snd g) then write_pages (applied (snd g)) ;;; io_call else ret tt.

Definition replayWALInternal : M unit :=
  n <- gets walSize ;;
  if n =? 0 then ret tt
  else
    walData <- wal_read n 0 ;;
    records <- lift (parse_wal (length walData) walData) ;;
    match records with
    | [] => wal_truncate ;;; modify (with_walSize 0)
    | _ =>
        for_each (group_records records) apply_group ;;;
        wal_truncate ;;;
        modify (with_walSize 0)
    end.

Definition replayWAL : M unit := replayWALInternal.
Definition checkpoint : M unit := replayWALInternal.

(** * Transactions *)

Definition BeginTx (ctx : context) : M unit :=
  checkCtx ctx ;;;
  checkState ;;;
  b <- gets inTxn ;;
  if b then fail ErrTxAlreadyActive
  else modify (fun p =>
         let n := wrap64 (nextTxnID p + 1) in with_txn true n n ∅ p).

Definition CommitTx (ctx : context) : M unit :=
  checkCtx ctx ;;;
  checkState ;;;
  b <- gets inTxn ;;
  if negb b then fail ErrNoActiveTx
  else
    t <- gets currentTxn ;;
    let eot := encodeEOTMarker t in
    sz <- gets walSize ;;
    wal_write eot sz ;;;
    io_call ;;;
    applyBuffer <- gets txnBuffer ;;
    modify (fun p => with_txn false (nextTxnID p) 0 ∅ (with_walSize (sz + zlen eot) p)) ;;;
    write_pages applyBuffer ;;;
    io_call ;;;
    th <- gets CheckpointThreshold ;;
    sz' <- gets walSize ;;
    if (th =? 0) || (th <=? sz') then checkpoint else ret tt.

Definition RollbackTx (ctx : context) : M unit :=
  checkCtx ctx ;;;
  checkState ;;;
  b <- gets inTxn ;;
  if negb b then fail ErrNoActiveTx
  else modify (fun p => with_txn false (nextTxnID p) 0 ∅ p).

(** [appendWAL] *)
Definition appendWAL (pageID : Z) (body : list byte) : M unit :=
  t <- gets currentTxn ;;
  sz <- gets walSize ;;
  let rec := encodeWALRecord t pageID body in
  wal_write rec sz ;;;
  io_call ;;;
  modify (fun p =>
    with_txn (inTxn p) (nextTxnID p) (currentTxn p)
      (<[pageID := copy_into (zrep DataPageBodySize x00) 0 DataPageBodySize body]> (txnBuffer p))
      (with_walSize (sz + zlen rec) p)).

(** * Pages *)

Definition AllocatePage (ctx : context) : M Z :=
  checkCtx ctx ;;;
  checkState ;;;
  b <- gets inTxn ;;
  if b then fail ErrTxUnsupportedOp
  else
    head <- gets freeListHead ;;
    if negb (head =? freeListSentinel) then
      let allocID := head in
      body <- readBodyUnchecked allocID ;;
      nextHead <- lift (decodeFreeListPointer body) ;;
      writeBodyUnchecked allocID (zrep DataPageBodySize x00) ;;;
      oldCount <- gets freeCount ;;
      modify (fun p =>
        with_free nextHead (if 0 <? freeCount p then freeCount p - 1 else freeCount p)
          (freeSet p ∖ {[allocID]}) p) ;;;
      n <- gets pageCount ;;
      on_error (writeHeader n nextHead)
        (fun p => with_free head oldCount (freeSet p ∪ {[allocID]}) p) ;;;
      ret allocID
    else
      newID <- gets pageCount ;;
      writeBodyUnchecked newID (zrep DataPageBodySize x00) ;;;
      modify (fun p => with_count (wrap64 (pageCount p + 1)) p) ;;;
      n <- gets pageCount ;;
      h <- gets freeListHead ;;
      on_error (writeHeader n h) (with_count newID) ;;;
      ret newID.

Definition ReadPage (ctx : context) (pageID : Z) : M (list byte) :=
  checkCtx ctx ;;;
  checkState ;;;
  validatePageID pageID ;;;
  fs <- gets freeSet ;;
  if decide (pageID ∈ fs) then fail ErrInvalidPageID
  else
    b <- gets inTxn ;;
    tb <- gets txnBuffer ;;
    match (if b then tb !! pageID else None) with
    | Some buf => ret (copy_into (zrep DataPageBodySize x00) 0 DataPageBodySize buf)
    | None => readBodyUnchecked pageID
    end.

Definition WritePage (ctx : context) (pageID : Z) (body : list byte) : M unit :=
  checkCtx ctx ;;;
  checkState ;;;
  validatePageID pageID ;;;
  fs <- gets freeSet ;;
  if decide (pageID ∈ fs) then fail ErrInvalidPageID
  else if negb (zlen body =? DataPageBodySize) then fail ErrBodySizeMismatch
  else
    b <- gets inTxn ;;
    if negb b then writeBodyUnchecked pageID body else appendWAL pageID body.

Definition FreePage (ctx : context) (pageID : Z) : M unit :=
  checkCtx ctx ;;;
  checkState ;;;
  b <- gets inTxn ;;
  if b then fail ErrTxUnsupportedOp
  else if pageID =? 0 then fail ErrInvalidPageID
  else
    n <- gets pageCount ;;
    if n <=? pageID then fail ErrInvalidPageID
    else
      fs <- gets freeSet ;;
      if decide (pageID ∈ fs) then fail ErrAlreadyFree
      else
        oldHead <- gets freeListHead ;;
        oldCount <- gets freeCount ;;
        let body := encodeFreeListPointer oldHead in
        writeBodyUnchecked pageID body ;;;
        modify (fun p => with_free pageID (wrap64 (freeCount p + 1)) (freeSet p ∪ {[pageID]}) p) ;;;
        on_error (writeHeader n pageID)
          (fun p => with_free oldHead oldCount (freeSet p ∖ {[pageID]}) p).

Definition PageCount (ctx : context) : M Z := checkState ;;; gets pageCount.

(** * Open and Close *)

(** The free-list walk of [Open]: [seen] is both [walkSeen] and [freeSet].
    Every page it visits is inside the file and new, so the number of pages of
    the file, plus one for the sentinel, is enough fuel. *)
Fixpoint walk_free (fuel : nat) (count curr : Z) (seen : gset Z) : M (gset Z) :=
  match fuel with
  | O => fail ErrFreeListCorrupt
  | S fuel' =>
      if curr =? freeListSentinel then ret seen
      else if (curr =? 0) || (count <=? curr) then fail ErrFreeListCorrupt
      else if decide (curr ∈ seen) then fail ErrFreeListCorrupt
      else
        body <- readBodyUnchecked curr ;;
        next <- lift (decodeFreeListPointer body) ;;
        walk_free fuel' count next (seen ∪ {[curr]})
  end.

Definition walk_fuel (f : list byte) : nat := Z.to_nat (zlen f / PageSize + 2).

(** The header: the primary copy if it reads and decodes, else the mirror,
    which is then written back over the primary if it can be. *)
Definition read_header (pageID : Z) : M pagerHeader :=
  buf <- main_read PageSize (page_offset pageID) ;; lift (decodeHeader buf).

Definition load_header : M pagerHeader := fun p =>
  match read_header HeaderPageID p with
  | (Ok h, p1) => (Ok h, p1)
  | (Err _, p1) =>
      (buf <- main_read PageSize (page_offset MirrorHeaderPageID) ;;
       h <- lift (decodeHeader buf) ;;
       ignore (io_write mainFile with_main buf (page_offset HeaderPageID) ;;; io_call) ;;;
       ret h) p1
  end.

Definition Open (ctx : context) : M unit :=
  checkCtx ctx ;;;
  oe <- gets openErr ;;
  match oe with
  | Some e => fail e
  | None =>
      s <- gets state ;;
      if decide (s = stateOpen) then fail ErrAlreadyOpen
      else if negb (bool_decide (s = stateNeverOpened)) then fail ErrClosed
      else
        io_call ;;;
        mainSize <- gets (fun p => zlen (mainFile p)) ;;
        if mainSize =? 0 then
          writeHeader 2 freeListSentinel ;;;
          modify (fun p => with_count 2 (with_free freeListSentinel 0 (freeSet p) (with_state stateOpen p)))
        else
          h <- load_header ;;
          fuel <- gets (fun p => walk_fuel (mainFile p)) ;;
          fs <- walk_free fuel (hPageCount h) (hFreeListHead h) ∅ ;;
          modify (fun p => with_count (hPageCount h)
            (with_free (hFreeListHead h) (freePageCount h) fs (with_state stateOpen p))) ;;;
          (if negb (Z.of_nat (size fs) =? freePageCount h) then fail ErrFreeListCorrupt
           else
             io_call ;;;
             modify (fun p => with_walSize (zlen (walFile p)) p) ;;;
             replayWAL)
  end.

(** [Close] releases the files; their contents stay on disk. *)
Definition Close (ctx : context) : M unit :=
  checkState ;;;
  checkpoint ;;;
  io_call ;;;
  io_call ;;;
  io_call ;;;
  modify (with_state stateClosed).

End operations.

(** A process restart: a new pager over the files the old one left. *)
Definition restart (p : filePager) : filePager :=
  newPager (mainFile p) (walFile p) (CheckpointThreshold p) [].

End Pager.
