(* ===== verification/PagerSpec.v ===== *)
(** What the pager promises to its clients, as an interface.

    [page_view] is the abstract state: the allocated pages with their current
    bodies, and, while a transaction is active, the pages as they were when it
    began.  [PagerOps] are the operations of the Go interface [pager.Pager] that
    the storage engine calls, and [PagerSpec] their laws on a healthy pager:
    reads return the current body, writes replace it, allocation returns an
    unused page of zeros, commit keeps and rollback undoes the writes of the
    transaction.  [pg_rel p n v] says that the pager state [p] is healthy, shows
    [v], and has room for [n] more allocations and transactions.

    [PagerSim.v] proves the laws of [Pager.v]; the B+ tree of [BTree.v] is
    proved against this interface. *)

From Stdlib Require Import ZArith Lia.
From stdpp Require Import gmap.
From S2P Require Import Prelude Page.
Open Scope Z_scope.

Record page_view := mkView {
  v_pages : gmap Z (list byte);
  v_tx : option (gmap Z (list byte)) }.

Definition zero_body : list byte := zrep DataPageBodySize x00.

Definition ctx := option pager_err.

Class PagerOps (P : Type) := {
  pg_PageCount : ctx -> P -> res pager_err Z * P;
  pg_ReadPage : ctx -> Z -> P -> res pager_err (list byte) * P;
  pg_WritePage : ctx -> Z -> list byte -> P -> res pager_err unit * P;
  pg_AllocatePage : ctx -> P -> res pager_err Z * P;
  pg_FreePage : ctx -> Z -> P -> res pager_err unit * P;
  pg_BeginTx : ctx -> P -> res pager_err unit * P;
  pg_CommitTx : ctx -> P -> res pager_err unit * P;
  pg_RollbackTx : ctx -> P -> res pager_err unit * P }.

(** The largest page number whose byte offset is an [int64]. *)
Definition max_pages : Z := 2 ^ 51.

Class PagerSpec (P : Type) `{PagerOps P} := {
  pg_rel : P -> nat -> page_view -> Prop;

  pg_rel_weaken p n n' v : (n' <= n)%nat -> pg_rel p n v -> pg_rel p n' v;

  pg_page_ok p n v id body :
    pg_rel p n v -> v_pages v !! id = Some body ->
    zlen body = DataPageBodySize /\ FirstDataPageID <= id < max_pages;

  pg_read_law p n v id body :
    pg_rel p n v -> v_pages v !! id = Some body ->
    exists p', pg_ReadPage None id p = (Ok body, p') /\ pg_rel p' n v;

  pg_read_unallocated p n v id :
    pg_rel p n v -> u64 id -> v_pages v !! id = None ->
    exists p', pg_ReadPage None id p = (Err ErrInvalidPageID, p') /\ pg_rel p' n v;

  pg_write_law p n v id body :
    pg_rel p n v -> is_Some (v_pages v !! id) -> zlen body = DataPageBodySize ->
    exists p', pg_WritePage None id body p = (Ok tt, p') /\
      pg_rel p' n (mkView (<[id := body]> (v_pages v)) (v_tx v));

  pg_alloc_law p n v :
    pg_rel p (S n) v -> v_tx v = None ->
    exists id p', pg_AllocatePage None p = (Ok id, p') /\
      v_pages v !! id = None /\ FirstDataPageID <= id < max_pages /\
      pg_rel p' n (mkView (<[id := zero_body]> (v_pages v)) None);

  pg_count_law p n v :
    pg_rel p n v ->
    exists c, pg_PageCount None p = (Ok c, p) /\
      forall id, is_Some (v_pages v !! id) -> id < c;

  pg_first_alloc p n v :
    pg_rel p (S n) v -> v_tx v = None -> pg_PageCount None p = (Ok FirstDataPageID, p) ->
    exists p', pg_AllocatePage None p = (Ok FirstDataPageID, p') /\
      pg_rel p' n (mkView (<[FirstDataPageID := zero_body]> (v_pages v)) None);

  pg_free_law p n v id :
    pg_rel p n v -> v_tx v = None -> is_Some (v_pages v !! id) ->
    exists p', pg_FreePage None id p = (Ok tt, p') /\
      pg_rel p' n (mkView (delete id (v_pages v)) None);

  pg_begin_law p n v :
    pg_rel p (S n) v -> v_tx v = None ->
    exists p', pg_BeginTx None p = (Ok tt, p') /\
      pg_rel p' n (mkView (v_pages v) (Some (v_pages v)));

  pg_commit_law p n v saved :
    pg_rel p n v -> v_tx v = Some saved ->
    exists p', pg_CommitTx None p = (Ok tt, p') /\ pg_rel p' n (mkView (v_pages v) None);

  pg_rollback_law p n v saved :
    pg_rel p n v -> v_tx v = Some saved ->
    exists p', pg_RollbackTx None p = (Ok tt, p') /\ pg_rel p' n (mkView saved None) }.
