(* ===== verification/PagerSim.v ===== *)
(** The pager of [Pager.v] implements the page store of [PagerSpec.v].

    [pager_inv] is the invariant of an open, fault-free pager with the default
    checkpoint threshold: both header copies describe the in-memory counters,
    every data page carries its checksum, the free list is a chain through the
    free pages, and the log holds no completed transaction.  Each operation is
    shown to succeed, to keep the invariant and to act on the abstract view as
    [PagerSpec] demands; the instance at the end discharges the interface. *)

From Stdlib Require Import ZArith Lia.
From stdpp Require Import gmap.
From S2P Require Import Prelude Crc Page Monad Pager PagerSpec.
Open Scope Z_scope.
Import Pager.

(** * Files as sequences of pages *)

Definition page_img (f : list byte) (id : Z) : list byte :=
  slice f (id * PageSize) (id * PageSize + PageSize).

Lemma page_offset_id id : 0 <= id < max_pages -> page_offset id = id * PageSize.
Proof.
  unfold page_offset, max_pages, PageSize. intros.
  rewrite (swrap64_id id) by (unfold i64; lia). apply swrap64_id. unfold i64. lia.
Qed.

Lemma zlen_page_img f id :
  0 <= id -> id * PageSize + PageSize <= zlen f -> zlen (page_img f id) = PageSize.
Proof. intros. unfold page_img, PageSize in *. rewrite zlen_slice by lia. lia. Qed.

Section write_page.
Variables (f : list byte) (n id : Z) (img : list byte).
Hypothesis Hf : zlen f = n * PageSize.
Hypothesis Hid : 0 <= id <= n.
Hypothesis Himg : zlen img = PageSize.

Lemma write_at_page :
  write_at f (id * PageSize) img
  = splice (f ++ zrep (id * PageSize - n * PageSize) x00) (id * PageSize) img.
Proof using Hf. unfold write_at. by rewrite Hf. Qed.

Lemma write_page_form :
  write_at f (id * PageSize) img
  = ztake (id * PageSize) f ++ img ++ zdrop (id * PageSize + PageSize) f.
Proof using Hf Hid Himg.
  unfold write_at, splice. rewrite zrep_nil, app_nil_r by (unfold PageSize in *; lia).
  by rewrite Himg.
Qed.

(** Writing page [n] of an [n]-page file extends it by one page. *)
Lemma zlen_write_page : zlen (write_at f (id * PageSize) img) = Z.max n (id + 1) * PageSize.
Proof using Hf Hid Himg.
  rewrite write_page_form. unfold PageSize in *.
  destruct (Z.eq_dec id n) as [->|].
  - rewrite !zlen_app, zlen_ztake, zdrop_all by lia. change (zlen []) with 0. lia.
  - rewrite !zlen_app, zlen_ztake, zlen_zdrop by lia. lia.
Qed.

Lemma page_img_write_eq : page_img (write_at f (id * PageSize) img) id = img.
Proof using Hf Hid Himg.
  unfold page_img. rewrite write_page_form. unfold PageSize in *.
  rewrite slice_app_r; rewrite zlen_ztake by lia; [|lia].
  rewrite slice_app_l by lia. apply slice_full; lia.
Qed.

Lemma page_img_write_ne j :
  0 <= j -> j <> id -> page_img (write_at f (id * PageSize) img) j = page_img f j.
Proof using Hf Hid Himg.
  intros Hj Hne. unfold page_img. rewrite write_page_form. unfold PageSize in *.
  destruct (Z.lt_ge_cases j id).
  - rewrite slice_app_l; [|lia|rewrite zlen_ztake; lia].
    unfold slice. rewrite zdrop_ztake, ztake_ztake by lia. f_equal. lia.
  - rewrite slice_app_r; rewrite zlen_ztake by lia; [|lia].
    rewrite slice_app_r by lia. rewrite Himg. unfold slice.
    destruct (Z.lt_ge_cases (id * 4096 + 4096) (zlen f)).
    + rewrite zdrop_zdrop by lia. f_equal; [lia|]. f_equal. lia.
    + rewrite !(zdrop_all _ f), !zdrop_all by (change (zlen []) with 0; lia). 
      unfold ztake. by rewrite !take_nil.
Qed.
End write_page.

(** * The monad on a fault-free pager *)

Lemma io_call_ok p : sched p = [] -> io_call p = (Ok tt, p).
Proof. intros H. unfold io_call, draw, bind. by rewrite H. Qed.

Lemma io_read_ok f n off p :
  sched p = [] -> 0 <= off -> off + n <= zlen f ->
  io_read f n off p = (Ok (slice f off (off + n)), p).
Proof.
  intros H ? ?. unfold io_read. erewrite bind_ok by by apply io_call_ok.
  rewrite !(proj2 (Z.ltb_ge _ _)) by lia. done.
Qed.

Lemma main_write_ok d off p :
  sched p = [] -> 0 <= off ->
  main_write d off p = (Ok tt, with_main (write_at (mainFile p) off d) p).
Proof.
  intros H ?. unfold main_write, write_full, io_write, draw, bind. rewrite H.
  rewrite (proj2 (Z.ltb_ge _ _)) by lia. simpl. by rewrite Z.eqb_refl.
Qed.

Lemma wal_write_ok d off p :
  sched p = [] -> 0 <= off ->
  wal_write d off p = (Ok tt, with_wal (write_at (walFile p) off d) p).
Proof.
  intros H ?. unfold wal_write, write_full, io_write, draw, bind. rewrite H.
  rewrite (proj2 (Z.ltb_ge _ _)) by lia. simpl. by rewrite Z.eqb_refl.
Qed.

Lemma wal_truncate_ok p : sched p = [] -> wal_truncate p = (Ok tt, with_wal [] p).
Proof. intros H. unfold wal_truncate. by erewrite bind_ok by by apply io_call_ok. Qed.

Lemma main_read_page id p :
  sched p = [] -> 0 <= id < max_pages -> id * PageSize + PageSize <= zlen (mainFile p) ->
  main_read PageSize (page_offset id) p = (Ok (page_img (mainFile p) id), p).
Proof.
  intros H Hid Hl. unfold main_read. rewrite bind_gets, page_offset_id by done.
  rewrite io_read_ok by (unfold PageSize in *; lia || done). done.
Qed.

Lemma readBodyUnchecked_ok id p body :
  sched p = [] -> 0 <= id < max_pages -> id * PageSize + PageSize <= zlen (mainFile p) ->
  zlen body = DataPageBodySize -> page_img (mainFile p) id = data_image body ->
  readBodyUnchecked id p = (Ok body, p).
Proof.
  intros H Hid Hl Hb Hi. unfold readBodyUnchecked. erewrite bind_ok by by apply main_read_page.
  unfold lift. by rewrite Hi, decodeDataPage_image.
Qed.

Lemma writeBodyUnchecked_ok id p body :
  sched p = [] -> 0 <= id < max_pages -> zlen body = DataPageBodySize ->
  writeBodyUnchecked id body p
  = (Ok tt, with_main (write_at (mainFile p) (id * PageSize) (data_image body)) p).
Proof.
  intros H Hid Hb. unfold writeBodyUnchecked.
  erewrite bind_ok by (unfold lift; by rewrite encodeDataPage_image).
  rewrite page_offset_id by done.
  erewrite bind_ok by (apply main_write_ok; [done|unfold PageSize; lia]).
  by apply io_call_ok.
Qed.

(** The header the counters describe. *)
Definition header_of (count head fc : Z) : pagerHeader :=
  mkHeader MagicNumber FormatVersion PageSize count head fc.

Definition write_headers (f : list byte) (h : pagerHeader) : list byte :=
  write_at (write_at f (1 * PageSize) (encodeHeader h)) (0 * PageSize) (encodeHeader h).

Lemma writeHeader_ok count head p :
  sched p = [] ->
  writeHeader count head p
  = (Ok tt, with_main (write_headers (mainFile p) (header_of count head (freeCount p))) p).
Proof.
  intros H. unfold writeHeader. rewrite bind_gets.
  change (page_offset MirrorHeaderPageID) with (1 * PageSize).
  change (page_offset HeaderPageID) with (0 * PageSize).
  erewrite bind_ok by (apply main_write_ok; [done|unfold PageSize; lia]).
  erewrite bind_ok by by apply io_call_ok.
  erewrite bind_ok by (apply main_write_ok; [done|unfold PageSize; lia]).
  by rewrite io_call_ok.
Qed.

(** * The files of a healthy pager *)

Section write_headers.
Variables (f : list byte) (n : Z) (h : pagerHeader).
Hypothesis Hf : zlen f = n * PageSize.
Hypothesis Hn : 2 <= n.

Lemma zlen_write_mirror : zlen (write_at f (1 * PageSize) (encodeHeader h)) = n * PageSize.
Proof using Hf Hn.
  rewrite (zlen_write_page _ n); [|done|lia|apply zlen_encodeHeader]. f_equal. lia.
Qed.

Lemma zlen_write_headers : zlen (write_headers f h) = n * PageSize.
Proof using Hf Hn.
  unfold write_headers.
  rewrite (zlen_write_page _ n); [|apply zlen_write_mirror|lia|apply zlen_encodeHeader].
  f_equal. lia.
Qed.

Lemma page_img_headers_0 : page_img (write_headers f h) 0 = encodeHeader h.
Proof using Hf Hn.
  apply (page_img_write_eq _ n); [apply zlen_write_mirror|lia|apply zlen_encodeHeader].
Qed.

Lemma page_img_headers_1 : page_img (write_headers f h) 1 = encodeHeader h.
Proof using Hf Hn.
  unfold write_headers.
  rewrite (page_img_write_ne _ n); [|apply zlen_write_mirror|lia|apply zlen_encodeHeader|lia|lia].
  apply (page_img_write_eq _ n); [done|lia|apply zlen_encodeHeader].
Qed.

Lemma page_img_headers_ne j : 2 <= j -> page_img (write_headers f h) j = page_img f j.
Proof using Hf Hn.
  intros. unfold write_headers.
  rewrite (page_img_write_ne _ n); [|apply zlen_write_mirror|lia|apply zlen_encodeHeader|lia|lia].
  apply (page_img_write_ne _ n); [done|lia|apply zlen_encodeHeader|lia|lia].
Qed.
End write_headers.

(** The free list: a chain of pages, each holding the number of the next. *)
Fixpoint free_chain (f : list byte) (head : Z) (fl : list Z) : Prop :=
  match fl with
  | [] => head = freeListSentinel
  | id :: fl' =>
      head = id /\
      exists next, u64 next /\ page_img f id = data_image (encodeFreeListPointer next) /\
                   free_chain f next fl'
  end.

Lemma free_chain_frame f f' head fl :
  (forall id, id ∈ fl -> page_img f' id = page_img f id) ->
  free_chain f head fl -> free_chain f' head fl.
Proof.
  revert head. induction fl as [|id fl IH]; intros head Hf; [done|].
  intros (-> & next & Hn & Hi & Hc). split; [done|]. exists next.
  split; [done|]. split; [rewrite Hf; [done|set_solver]|]. apply IH; [|done].
  intros. apply Hf. set_solver.
Qed.

(** A main file of [cnt] pages whose free pages are [fl], in list order, and
    whose other data pages hold the bodies [c]. *)
Record disk_inv (f : list byte) (cnt head : Z) (fl : list Z) (c : gmap Z (list byte)) : Prop := {
  di_count : 2 <= cnt <= max_pages;
  di_len : zlen f = cnt * PageSize;
  di_primary : page_img f 0 = encodeHeader (header_of cnt head (zlen fl));
  di_mirror : page_img f 1 = encodeHeader (header_of cnt head (zlen fl));
  di_cover : forall id, 2 <= id < cnt <-> id ∈ fl \/ is_Some (c !! id);
  di_disj : forall id, id ∈ fl -> c !! id = None;
  di_pages : forall id body, c !! id = Some body ->
    zlen body = DataPageBodySize /\ page_img f id = data_image body;
  di_chain : free_chain f head fl;
  di_nodup : NoDup fl }.

Lemma zlen_zero_body : zlen zero_body = DataPageBodySize.
Proof. apply zlen_rep. unfold DataPageBodySize, PageSize. lia. Qed.

#[global] Opaque zero_body data_image encodeHeader encodeFreeListPointer.

(** Propositional goals about one page being in the free list or in the map. *)
Ltac membership id j :=
  match goal with |- context [elem_of j ?l] => generalize (elem_of j l) end;
  match goal with |- context [is_Some (?m !! j)] => generalize (is_Some (m !! j)) end;
  destruct (decide (id = j)) as [?E|?E];
  [first [contradiction|subst; clear; intuition congruence]|clear -E; intuition congruence].

Section disk.
Context {f : list byte} {cnt head : Z} {fl : list Z} {c : gmap Z (list byte)}.
Hypothesis Hd : disk_inv f cnt head fl c.

Lemma di_used id : is_Some (c !! id) -> 2 <= id < cnt.
Proof using Hd. intros. apply (di_cover _ _ _ _ _ Hd). by right. Qed.

Lemma di_free id : id ∈ fl -> 2 <= id < cnt.
Proof using Hd. intros. apply (di_cover _ _ _ _ _ Hd). by left. Qed.

Lemma di_fl_len : 0 <= zlen fl <= cnt - 2.
Proof using Hd.
  split; [apply zlen_nonneg|].
  assert (length fl <= length (seqZ 2 (cnt - 2)))%nat as Hl.
  { apply submseteq_length, NoDup_submseteq; [apply Hd|].
    intros id Hid%di_free. apply elem_of_seqZ. lia. }
  pose proof (di_count _ _ _ _ _ Hd). rewrite length_seqZ in Hl. unfold zlen. lia.
Qed.

Lemma di_in_file id : 2 <= id < cnt -> id * PageSize + PageSize <= zlen f.
Proof using Hd. intros. rewrite (di_len _ _ _ _ _ Hd). unfold PageSize. nia. Qed.

Lemma di_head_u64 : u64 head.
Proof using Hd.
  pose proof (di_chain _ _ _ _ _ Hd) as Hc. pose proof (di_count _ _ _ _ _ Hd) as Hn.
  pose proof di_free as Hfr. clear Hd. destruct fl as [|id fl']; simpl in Hc.
  - subst. unfold u64, freeListSentinel. lia.
  - destruct Hc as [-> _]. specialize (Hfr id ltac:(constructor)).
    unfold max_pages, u64 in *. lia.
Qed.

Lemma di_header_ok : header_ok (header_of cnt head (zlen fl)).
Proof using Hd.
  pose proof di_fl_len. pose proof (di_count _ _ _ _ _ Hd). pose proof di_head_u64.
  unfold header_ok, header_of, max_pages, u64 in *. simpl. repeat split; lia.
Qed.

(** Writing an allocated page. *)
Lemma disk_write id body :
  is_Some (c !! id) -> zlen body = DataPageBodySize ->
  disk_inv (write_at f (id * PageSize) (data_image body)) cnt head fl (<[id := body]> c).
Proof using Hd.
  intros Hid Hb. pose proof (di_used id Hid) as Hr. pose proof (zlen_data_image _ Hb) as Hi.
  destruct Hd as [Hcnt Hlen H0 H1 Hcov Hdis Hpg Hch Hnd].
  assert (forall j, 0 <= j -> j <> id ->
    page_img (write_at f (id * PageSize) (data_image body)) j = page_img f j) as Hne.
  { intros. apply (page_img_write_ne f cnt); assumption || lia. }
  split; try assumption.
  - rewrite (zlen_write_page _ cnt); [|assumption|lia|assumption]. f_equal. lia.
  - rewrite Hne by lia. done.
  - rewrite Hne by lia. done.
  - intros j. rewrite Hcov, lookup_insert_is_Some.
    destruct (decide (id = j)) as [->|]; [|intuition congruence].
    split; [intros _; right; by left|intros _; by right].
  - intros j Hj. rewrite lookup_insert_ne; [by apply Hdis|].
    intros ->. apply Hdis in Hj. rewrite Hj in Hid. by destruct Hid.
  - intros j b. destruct (decide (id = j)) as [->|Hij].
    + rewrite lookup_insert_eq. intros [= <-]. split; [done|].
      apply (page_img_write_eq f cnt); assumption || lia.
    + rewrite lookup_insert_ne by done. intros Hj. destruct (Hpg _ _ Hj).
      assert (2 <= j < cnt) by (apply Hcov; right; by eexists).
      rewrite Hne by lia. done.
  - eapply free_chain_frame; [|done]. intros j Hj. apply Hne.
    + assert (2 <= j < cnt) by (apply Hcov; by left). lia.
    + intros ->. apply Hdis in Hj. rewrite Hj in Hid. by destruct Hid.
Qed.
End disk.

(** Writing page [id] and then both headers: what every allocation and every
    release of a page does to the file. *)
Definition update_page (f : list byte) (id : Z) (body : list byte) (h : pagerHeader) : list byte :=
  write_headers (write_at f (id * PageSize) (data_image body)) h.

Section update_page.
Variables (f : list byte) (cnt id : Z) (body : list byte) (h : pagerHeader).
Hypothesis Hf : zlen f = cnt * PageSize.
Hypothesis Hid : 2 <= id <= cnt.
Hypothesis Hb : zlen body = DataPageBodySize.

Lemma zlen_write_data :
  zlen (write_at f (id * PageSize) (data_image body)) = Z.max cnt (id + 1) * PageSize.
Proof using Hf Hid Hb. apply zlen_write_page; [done|lia|by apply zlen_data_image]. Qed.

Lemma zlen_update_page : zlen (update_page f id body h) = Z.max cnt (id + 1) * PageSize.
Proof using Hf Hid Hb. apply zlen_write_headers; [apply zlen_write_data|lia]. Qed.

Lemma update_page_headers :
  page_img (update_page f id body h) 0 = encodeHeader h /\
  page_img (update_page f id body h) 1 = encodeHeader h.
Proof using Hf Hid Hb.
  split; [eapply page_img_headers_0|eapply page_img_headers_1]; (apply zlen_write_data || lia).
Qed.

Lemma update_page_eq : page_img (update_page f id body h) id = data_image body.
Proof using Hf Hid Hb.
  unfold update_page. rewrite (page_img_headers_ne _ (Z.max cnt (id + 1)));
    [|apply zlen_write_data|lia|lia].
  apply (page_img_write_eq f cnt); [done|lia|by apply zlen_data_image].
Qed.

Lemma update_page_ne j : 2 <= j -> j <> id -> page_img (update_page f id body h) j = page_img f j.
Proof using Hf Hid Hb.
  intros. unfold update_page.
  rewrite (page_img_headers_ne _ (Z.max cnt (id + 1))); [|apply zlen_write_data|lia|lia].
  apply (page_img_write_ne f cnt); [done|lia|by apply zlen_data_image|lia|lia].
Qed.
End update_page.

#[local] Opaque page_img update_page.

Lemma disk_alloc_free f cnt id fl c z :
  zlen z = DataPageBodySize ->
  disk_inv f cnt id (id :: fl) c ->
  exists next, page_img f id = data_image (encodeFreeListPointer next) /\ u64 next /\
    disk_inv (update_page f id z (header_of cnt next (zlen fl))) cnt next fl
      (<[id := z]> c).
Proof.
  intros Hz Hd. pose proof (di_free Hd id ltac:(constructor)) as Hr.
  destruct Hd as [Hcnt Hlen H0 H1 Hcov Hdis Hpg (_ & next & Hn & Hi & Hch) Hnd].
  exists next. split; [assumption|]. split; [assumption|].
  apply NoDup_cons in Hnd as [Hnin Hnd].
  edestruct (update_page_headers f cnt id z (header_of cnt next (zlen fl))) as [Hh0 Hh1];
    [assumption|lia|assumption|].
  assert (forall j, 2 <= j < cnt -> j <> id ->
    page_img (update_page f id z (header_of cnt next (zlen fl))) j = page_img f j) as Hne.
  { intros. apply (update_page_ne f cnt); assumption || lia. }
  split; try assumption.
  - rewrite (zlen_update_page f cnt); [|assumption|lia|assumption]. f_equal. lia.
  - intros j. rewrite Hcov, lookup_insert_is_Some, elem_of_cons.
    membership id j.
  - intros j Hj. rewrite lookup_insert_ne by (intros ->; contradiction). apply Hdis. constructor; assumption.
  - intros j b. destruct (decide (id = j)) as [->|Hij].
    + rewrite lookup_insert_eq. intros [= <-]. split; [assumption|].
      apply (update_page_eq f cnt); assumption || lia.
    + rewrite lookup_insert_ne by assumption. intros Hj. destruct (Hpg _ _ Hj).
      assert (2 <= j < cnt) by (apply Hcov; right; eexists; eassumption).
      rewrite Hne by (assumption || (apply not_eq_sym; assumption)). split; assumption.
  - eapply free_chain_frame; [|eassumption]. intros j Hj. apply Hne; [|intros ->; contradiction].
    apply Hcov. left. constructor; assumption.
Qed.

Lemma disk_alloc_new f cnt c z :
  zlen z = DataPageBodySize ->
  disk_inv f cnt freeListSentinel [] c -> cnt < max_pages ->
  disk_inv (update_page f cnt z (header_of (cnt + 1) freeListSentinel 0)) (cnt + 1)
    freeListSentinel [] (<[cnt := z]> c).
Proof.
  intros Hz Hd Hmax. destruct Hd as [Hcnt Hlen H0 H1 Hcov Hdis Hpg Hch Hnd].
  edestruct (update_page_headers f cnt cnt z (header_of (cnt + 1) freeListSentinel 0))
    as [Hh0 Hh1]; [assumption|lia|assumption|].
  split; try assumption.
  - lia.
  - rewrite (zlen_update_page f cnt); [|assumption|lia|assumption]. f_equal. lia.
  - intros j. rewrite lookup_insert_is_Some. specialize (Hcov j). rewrite elem_of_nil in *.
    clear - Hcov Hcnt. generalize dependent (is_Some (c !! j)).
    destruct (decide (cnt = j)) as [->|]; intros P HP; [intuition lia|].
    assert (2 <= j < cnt + 1 <-> 2 <= j < cnt) as -> by lia. rewrite HP. intuition congruence.
  - intros j Hj. apply elem_of_nil in Hj. contradiction.
  - intros j b. destruct (decide (cnt = j)) as [<-|Hij].
    + rewrite lookup_insert_eq. intros [= <-]. split; [assumption|].
      apply (update_page_eq f cnt); assumption || lia.
    + rewrite lookup_insert_ne by assumption. intros Hj. destruct (Hpg _ _ Hj).
      assert (2 <= j < cnt) by (apply Hcov; right; eexists; eassumption).
      rewrite (update_page_ne f cnt) by (assumption || lia). split; assumption.
Qed.

Lemma disk_free f cnt head fl c id :
  disk_inv f cnt head fl c -> is_Some (c !! id) ->
  disk_inv (update_page f id (encodeFreeListPointer head) (header_of cnt id (zlen fl + 1)))
    cnt id (id :: fl) (delete id c).
Proof.
  intros Hd Hid. pose proof (di_used Hd id Hid) as Hr. pose proof (di_head_u64 Hd) as Hu.
  destruct Hd as [Hcnt Hlen H0 H1 Hcov Hdis Hpg Hch Hnd].
  destruct (freelist_pointer_roundtrip head Hu) as [Hz _].
  remember (encodeFreeListPointer head) as ptr eqn:Hptr.
  edestruct (update_page_headers f cnt id ptr
    (header_of cnt id (zlen fl + 1))) as [Hh0 Hh1]; [assumption|lia|assumption|].
  assert (id ∉ fl) as Hnin.
  { intros Hin. apply Hdis in Hin. rewrite Hin in Hid. destruct Hid as [? [=]]. }
  assert (forall j, 2 <= j < cnt -> j <> id -> page_img (update_page f id
    ptr (header_of cnt id (zlen fl + 1))) j = page_img f j) as Hne.
  { intros. apply (update_page_ne f cnt); assumption || lia. }
  split.
  - assumption.
  - rewrite (zlen_update_page f cnt); [|assumption|lia|assumption]. f_equal. lia.
  - rewrite zlen_cons, (Z.add_comm 1). exact Hh0.
  - rewrite zlen_cons, (Z.add_comm 1). exact Hh1.
  - intros j. rewrite Hcov, lookup_delete_is_Some, elem_of_cons.
    destruct (decide (id = j)) as [<-|]; [|membership id j].
    split; [intros _; left; left; reflexivity|intros _; right; exact Hid].
  - intros j [->|Hj]%elem_of_cons; [apply lookup_delete_eq|].
    rewrite lookup_delete_ne by (intros ->; contradiction). apply Hdis; assumption.
  - intros j b [Hij Hj]%lookup_delete_Some. destruct (Hpg _ _ Hj).
    assert (2 <= j < cnt) by (apply Hcov; right; eexists; eassumption).
    rewrite Hne by (assumption || (apply not_eq_sym; assumption)). split; assumption.
  - split; [reflexivity|]. exists head. rewrite <- Hptr.
    split; [assumption|]. split; [apply (update_page_eq f cnt); assumption || lia|].
    eapply free_chain_frame; [|eassumption]. intros j Hj. apply Hne; [|intros ->; contradiction].
    apply Hcov. left. assumption.
  - constructor; assumption.
Qed.
