(* ===== verification/PagerRefine.v ===== *)
(** The pager of [Pager.v] implements [PagerSpec.v].

    [pager_inv] adds to the file invariant of [PagerSim.v] the in-memory side:
    counters that mirror the header, the set of free pages, and a log holding
    only records of transactions that did not commit.  Each operation is shown
    to succeed on such a pager, to keep the invariant and to act on the
    abstract view as [PagerSpec] demands; the instance [filePager_spec] is the
    refinement.  The last part covers a restart: opening the files again after a
    clean shutdown, and after a crash at any byte of the log. *)

From Stdlib Require Import ZArith Lia.
From stdpp Require Import gmap.
From S2P Require Import Prelude Crc Page Monad Pager PagerSpec PagerSim.
Open Scope Z_scope.
Import Pager.
Open Scope st_scope.

(** * The log *)

Definition wal_stream (recs : list walRecord) : list byte := concat (map wal_bytes recs).

Lemma wal_stream_app a b : wal_stream (a ++ b) = wal_stream a ++ wal_stream b.
Proof. unfold wal_stream. by rewrite map_app, concat_app. Qed.

Lemma wal_stream_one r : wal_stream [r] = wal_bytes r.
Proof. unfold wal_stream. simpl. apply app_nil_r. Qed.

Lemma zlen_wal_bytes r : 24 <= zlen (wal_bytes r).
Proof. unfold wal_bytes. rewrite zlen_wal_image. pose proof (zlen_nonneg (wBody r)). lia. Qed.

Lemma wal_bytes_cons r : exists b l, wal_bytes r = b :: l.
Proof.
  pose proof (zlen_wal_bytes r). destruct (wal_bytes r) as [|b l]; [|by eexists _, _].
  change (zlen []) with 0 in *. lia.
Qed.

(** Parsing recovers the records of a log, up to a torn last one. *)
Lemma parse_wal_stream recs r n fuel :
  Forall wal_ok recs -> wal_ok r -> 0 <= n < zlen (wal_bytes r) ->
  (length (wal_stream recs ++ ztake n (wal_bytes r)) <= fuel)%nat ->
  parse_wal fuel (wal_stream recs ++ ztake n (wal_bytes r)) = Ok recs.
Proof.
  intros Hok Hr Hn. revert fuel. induction recs as [|r0 recs IH]; intros fuel Hf.
  - change (wal_stream []) with (@nil byte) in *. simpl app in *.
    destruct fuel as [|fuel]; [done|]. cbn [parse_wal].
    destruct (ztake n (wal_bytes r)) eqn:E; [done|]. rewrite <- E.
    by rewrite decodeNext_wal_prefix.
  - apply Forall_cons in Hok as [H0 Hok].
    change (wal_stream (r0 :: recs)) with (wal_bytes r0 ++ wal_stream recs) in *.
    rewrite <- app_assoc in *. destruct (wal_bytes_cons r0) as (b & l & El).
    destruct fuel as [|fuel]; [rewrite El in Hf; simpl in Hf; lia|].
    cbn [parse_wal]. rewrite El at 1. cbn [app]. rewrite decodeNext_wal_bytes by done.
    rewrite zdrop_app_eq by done. rewrite IH; [done|done|].
    rewrite El in Hf. simpl in Hf. rewrite length_app in Hf. lia.
Qed.

Lemma parse_wal_full recs fuel :
  Forall wal_ok recs -> (length (wal_stream recs) <= fuel)%nat ->
  parse_wal fuel (wal_stream recs) = Ok recs.
Proof.
  intros Hok Hf. set (r := mkWal 0 walEOTPageID []).
  assert (wal_ok r) as Hr.
  { unfold wal_ok, r, u64, walEOTPageID. simpl. split; [lia|]. split; [lia|]. by right. }
  pose proof (zlen_wal_bytes r).
  pose proof (parse_wal_stream recs r 0 fuel Hok Hr ltac:(lia)) as Hp.
  rewrite ztake_0, app_nil_r in Hp. by apply Hp.
Qed.

(** The records of one transaction, in log order. *)
Definition txn_records (t : Z) (recs : list walRecord) : list walRecord :=
  List.filter (fun r => wTxn r =? t) recs.

Definition is_eot (r : walRecord) : bool := isEOTMarker (wPage r) 0.

Lemma txn_records_app t a b : txn_records t (a ++ b) = txn_records t a ++ txn_records t b.
Proof. apply List.filter_app. Qed.

Lemma is_eot_spec r : is_eot r = true <-> wPage r = walEOTPageID.
Proof. unfold is_eot, isEOTMarker. rewrite andb_true_r. apply Z.eqb_eq. Qed.

(** Grouping: the groups are the transactions of the log, each with its
    records in order. *)
Definition group_of (t : Z) (gs : list (Z * list walRecord)) : list walRecord :=
  match List.find (fun g => fst g =? t) gs with Some g => snd g | None => [] end.

Lemma add_record_keys gs r :
  map fst (add_record gs r) = map fst gs \/
  map fst (add_record gs r) = map fst gs ++ [wTxn r] /\ wTxn r ∉ map fst gs.
Proof.
  induction gs as [|[t rs] gs IH]; simpl; [right; split; [done|apply not_elem_of_nil]|].
  destruct (t =? wTxn r) eqn:E; [by left|]. apply Z.eqb_neq in E. simpl.
  destruct IH as [->|[-> Hn]]; [by left|right]. split; [done|].
  rewrite not_elem_of_cons. split; congruence.
Qed.

Lemma group_of_add gs r t :
  group_of t (add_record gs r) = group_of t gs ++ (if wTxn r =? t then [r] else []).
Proof.
  induction gs as [|[u rs] gs IH]; unfold group_of in *; simpl.
  - by destruct (wTxn r =? t).
  - destruct (u =? wTxn r) eqn:E; simpl.
    + apply Z.eqb_eq in E as ->. by destruct (wTxn r =? t) eqn:F; rewrite ?app_nil_r.
    + destruct (u =? t) eqn:F; [|by rewrite IH].
      apply Z.eqb_eq in F as ->. by rewrite Z.eqb_sym, E, app_nil_r.
Qed.

Lemma group_records_spec recs :
  NoDup (map fst (group_records recs)) /\
  (forall t, group_of t (group_records recs) = txn_records t recs) /\
  (forall t, t ∈ map fst (group_records recs) -> exists r, r ∈ recs /\ wTxn r = t).
Proof.
  unfold group_records. induction recs as [|r recs (Hnd & Hg & Hk)] using rev_ind.
  - split; [constructor|]. split; [done|]. intros t Ht. by apply elem_of_nil in Ht.
  - rewrite fold_left_app. simpl. split; [|split].
    + destruct (add_record_keys (fold_left add_record recs []) r) as [->|[-> Hn]]; [done|].
      apply NoDup_app. split; [done|]. split; [|apply NoDup_singleton].
      by intros x Hx ->%list_elem_of_singleton.
    + intros t. rewrite group_of_add, Hg, txn_records_app. done.
    + intros t Ht.
      destruct (add_record_keys (fold_left add_record recs []) r) as [E|[E _]]; rewrite E in Ht.
      * destruct (Hk t Ht) as (r' & ? & ?). exists r'. split; [|done]. apply elem_of_app. by left.
      * apply elem_of_app in Ht as [Ht| ->%list_elem_of_singleton].
        -- destruct (Hk t Ht) as (r' & ? & ?). exists r'. split; [|done]. apply elem_of_app. by left.
        -- exists r. split; [|done]. apply elem_of_app. right. by constructor.
Qed.

Lemma group_in t rs recs : (t, rs) ∈ group_records recs -> rs = txn_records t recs.
Proof.
  destruct (group_records_spec recs) as (Hnd & Hg & _). intros Hin. rewrite <- Hg. clear Hg.
  unfold group_of. induction (group_records recs) as [|[u us] gs IH]; [by apply elem_of_nil in Hin|].
  simpl in *. apply NoDup_cons in Hnd as [Hn Hnd]. apply elem_of_cons in Hin as [[= <- <-]|Hin].
  - by rewrite Z.eqb_refl.
  - destruct (u =? t) eqn:E; [|by apply IH]. apply Z.eqb_eq in E as ->. destruct Hn.
    apply (list_elem_of_fmap_2 fst _ (t, rs)). done.
Qed.

(** What a replay applies: the transactions that have an end marker. *)
Definition committed (recs : list walRecord) (t : Z) : bool := hasEOT (txn_records t recs).

(** * Writing a batch of pages *)

Lemma with_main_id p : with_main (mainFile p) p = p.
Proof. by destruct p. Qed.

Lemma fold_insert_union (l : list (Z * list byte)) (c : gmap Z (list byte)) :
  NoDup l.*1 ->
  fold_left (fun c '(i, b) => <[i := b]> c) l c = list_to_map l ∪ c.
Proof.
  revert c. induction l as [|[i b] l IH]; intros c Hnd; simpl; [by rewrite map_empty_union|].
  apply NoDup_cons in Hnd as [Hn Hnd]. simpl in Hn. rewrite IH by done.
  rewrite <- insert_union_r by (by apply not_elem_of_list_to_map). by rewrite insert_union_l.
Qed.

(** A file that is healthy but for the pages [D], whose contents are unknown:
    what an interrupted batch of writes leaves behind. *)
Definition disk_torn (f : list byte) (cnt head : Z) (fl : list Z) (c : gmap Z (list byte))
  (D : gset Z) : Prop :=
  exists f0, disk_inv f0 cnt head fl c /\ zlen f = zlen f0 /\
    (forall id, id ∈ D -> is_Some (c !! id)) /\
    (forall id, 0 <= id -> id ∉ D -> page_img f id = page_img f0 id).

(** A file is determined by its pages. *)
Lemma pages_ext f g n :
  zlen f = n * PageSize -> zlen g = n * PageSize ->
  (forall id, 0 <= id < n -> page_img f id = page_img g id) -> f = g.
Proof.
  intros Hf Hg Hp. destruct (Z.lt_ge_cases n 0) as [|Hn].
  { pose proof (zlen_nonneg f). unfold PageSize in *. lia. }
  revert f g Hf Hg Hp. pattern n. apply natlike_ind; [| |done]; clear n Hn.
  - intros f g Hf Hg _. destruct f, g; try done; exfalso; revert Hf Hg; unfold zlen; simpl; lia.
  - intros n Hn IH f g Hf Hg Hp. unfold PageSize in *.
    rewrite <- (ztake_zdrop (n * 4096) f), <- (ztake_zdrop (n * 4096) g). f_equal.
    + apply IH; [rewrite zlen_ztake; lia..|]. intros id Hid. specialize (Hp id ltac:(lia)).
      unfold page_img, slice, PageSize in *. rewrite !zdrop_ztake, !ztake_ztake by lia.
      by replace (Z.min (id * 4096 + 4096 - id * 4096) (n * 4096 - id * 4096))
        with (id * 4096 + 4096 - id * 4096) by lia.
    + specialize (Hp n ltac:(lia)). unfold page_img, slice, PageSize in Hp.
      rewrite !ztake_all in Hp; [done|..]; rewrite zlen_zdrop; lia.
Qed.

Lemma disk_torn_empty f cnt head fl c : disk_torn f cnt head fl c ∅ -> disk_inv f cnt head fl c.
Proof.
  intros (f0 & Hd & Hl & _ & Hp). replace f with f0; [done|]. symmetry.
  apply (pages_ext _ _ cnt).
  - rewrite Hl. apply Hd.
  - apply Hd.
  - intros id Hid. apply Hp; [lia|]. apply not_elem_of_empty.
Qed.

Lemma disk_torn_intro f cnt head fl c : disk_inv f cnt head fl c -> disk_torn f cnt head fl c ∅.
Proof. intros Hd. by exists f. Qed.

Lemma disk_torn_weaken f cnt head fl c D D' :
  D ⊆ D' -> (forall id, id ∈ D' -> is_Some (c !! id)) ->
  disk_torn f cnt head fl c D -> disk_torn f cnt head fl c D'.
Proof.
  intros Hsub Hin (f0 & Hd & Hl & _ & Hp). exists f0. split_and!; try done.
  intros id Hi Hn. apply Hp; [done|]. set_solver.
Qed.

(** Writing a whole page mends it. *)
Lemma disk_torn_write f cnt head fl c D id body :
  disk_torn f cnt head fl c D -> is_Some (c !! id) -> zlen body = DataPageBodySize ->
  disk_torn (write_at f (id * PageSize) (data_image body)) cnt head fl (<[id := body]> c)
    (D ∖ {[id]}).
Proof.
  intros (f0 & Hd & Hl & Hin & Hp) Hid Hb. pose proof (di_used Hd id Hid) as Hr.
  pose proof (di_len _ _ _ _ _ Hd) as Hlen. rewrite Hlen in Hl.
  exists (write_at f0 (id * PageSize) (data_image body)).
  pose proof (zlen_data_image _ Hb) as Hi.
  split; [by apply disk_write|]. split.
  { rewrite !(zlen_write_page _ cnt) by (assumption || lia). reflexivity. }
  split.
  - intros j [Hj _]%elem_of_difference. rewrite lookup_insert_is_Some'. right. by apply Hin.
  - intros j Hj Hnj. destruct (Z.eq_dec j id) as [->|Hne].
    + rewrite !(page_img_write_eq _ cnt) by (assumption || lia). reflexivity.
    + rewrite !(page_img_write_ne _ cnt) by (assumption || lia). apply Hp; [done|]. set_solver.
Qed.

(** A partial write of a page leaves the others alone. *)
Lemma disk_torn_partial f cnt head fl c D id d k :
  disk_torn f cnt head fl c D -> is_Some (c !! id) -> zlen d = PageSize ->
  disk_torn (write_at f (id * PageSize) (ztake k d)) cnt head fl c ({[id]} ∪ D).
Proof.
  intros (f0 & Hd & Hl & Hin & Hp) Hid Hb. pose proof (di_used Hd id Hid) as Hr.
  pose proof (di_len _ _ _ _ _ Hd) as Hlen. rewrite Hlen in Hl.
  set (d' := ztake k d ++ slice f (id * PageSize + zlen (ztake k d)) (id * PageSize + PageSize)).
  assert (0 <= zlen (ztake k d) <= PageSize) as Hk.
  { split; [apply zlen_nonneg|]. rewrite <- Hb. unfold zlen, ztake. rewrite length_take. lia. }
  assert (id * PageSize + PageSize <= zlen f) as Hend by (rewrite Hl; unfold PageSize; nia).
  assert (zlen d' = PageSize) as Hd'.
  { unfold d'. rewrite zlen_app, zlen_slice; unfold PageSize in *; lia. }
  assert (write_at f (id * PageSize) (ztake k d) = write_at f (id * PageSize) d') as ->.
  { unfold write_at, splice. rewrite Hd'. unfold d'. rewrite <- app_assoc.
    unfold PageSize in *. rewrite zrep_nil, app_nil_r by lia. do 2 f_equal.
    unfold slice. rewrite <- (ztake_zdrop (4096 - zlen (ztake k d))
      (zdrop (id * 4096 + zlen (ztake k d)) f)) at 1.
    rewrite zdrop_zdrop by lia. f_equal; [f_equal; lia|f_equal; lia]. }
  exists f0. split; [done|]. split.
  { rewrite (zlen_write_page _ cnt), Hlen by (assumption || lia). f_equal. lia. }
  split.
  - intros j [->%elem_of_singleton|Hj]%elem_of_union; [done|by apply Hin].
  - intros j Hj Hnj. rewrite (page_img_write_ne _ cnt); [|assumption|lia|assumption|done|set_solver].
    apply Hp; [done|]. set_solver.
Qed.

(** A batch that only touches allocated pages. *)
Definition batch_ok (c m : gmap Z (list byte)) : Prop :=
  forall id body, m !! id = Some body -> zlen body = DataPageBodySize /\ is_Some (c !! id).

Definition write_entry (e : Z * list byte) : M unit :=
  let '(pageID, body) := e in
  encoded <- lift (encodeDataPage body) ;;
  main_write encoded (page_offset pageID).

Lemma write_entry_ok id body p :
  sched p = [] -> 0 <= id < max_pages -> zlen body = DataPageBodySize ->
  write_entry (id, body) p
  = (Ok tt, with_main (write_at (mainFile p) (id * PageSize) (data_image body)) p).
Proof.
  intros Hs Hid Hb. unfold write_entry.
  erewrite bind_ok by (unfold lift; rewrite encodeDataPage_image by assumption; reflexivity).
  rewrite page_offset_id by assumption. apply main_write_ok; [assumption|unfold PageSize; lia].
Qed.

Lemma torn_used f cnt head fl c D id :
  disk_torn f cnt head fl c D -> is_Some (c !! id) -> 2 <= id < cnt /\ 0 <= id < max_pages.
Proof.
  intros (f0 & Hd & _) Hid. pose proof (di_used Hd id Hid). pose proof (di_count _ _ _ _ _ Hd).
  lia.
Qed.

Lemma write_list_ok l p cnt head fl c D :
  sched p = [] -> disk_torn (mainFile p) cnt head fl c D ->
  Forall (fun e => zlen (snd e) = DataPageBodySize /\ is_Some (c !! fst e)) l ->
  exists f', for_each l write_entry p = (Ok tt, with_main f' p) /\
    disk_torn f' cnt head fl (fold_left (fun c '(i, b) => <[i := b]> c) l c)
      (D ∖ list_to_set l.*1).
Proof.
  revert p c D. induction l as [|[id body] l IH]; intros p c D Hs Ht Hl.
  - exists (mainFile p). simpl. rewrite with_main_id, difference_empty_L. done.
  - apply Forall_cons in Hl as [[Hb Hid] Hl]. simpl in Hb, Hid.
    destruct (torn_used _ _ _ _ _ _ _ Ht Hid) as [_ Hr].
    cbn [for_each]. erewrite bind_ok by (by apply write_entry_ok).
    destruct (IH (with_main (write_at (mainFile p) (id * PageSize) (data_image body)) p)
      (<[id := body]> c) (D ∖ {[id]})) as (f' & E & Ht').
    + done.
    + by apply disk_torn_write.
    + eapply Forall_impl; [exact Hl|]. intros [j b] [? ?]. split; [done|]. simpl in *.
      rewrite lookup_insert_is_Some'. by right.
    + exists f'. rewrite E. split; [by destruct p|]. simpl.
      by rewrite <- difference_difference_l_L.
Qed.

Section with_range.
Context `{MapRange}.

Lemma range_keys (m : gmap Z (list byte)) :
  NoDup (range m).*1 /\ list_to_map (range m) = m /\ list_to_set (range m).*1 = dom m.
Proof.
  pose proof (range_perm m) as Hp. split; [|split].
  - rewrite Hp. apply NoDup_fst_map_to_list.
  - rewrite (list_to_map_proper _ (map_to_list m)) by (rewrite Hp; apply NoDup_fst_map_to_list || done).
    apply list_to_map_to_list.
  - rewrite <- (list_to_map_to_list m) at 2. rewrite dom_list_to_map_L. by rewrite Hp.
Qed.

Lemma batch_range c m :
  batch_ok c m ->
  Forall (fun e => zlen (snd e) = DataPageBodySize /\ is_Some (c !! fst e)) (range m).
Proof.
  intros Hb. rewrite range_perm. apply Forall_forall. intros [id body] Hin.
  apply elem_of_map_to_list in Hin. by apply Hb.
Qed.

Lemma write_pages_ok m p cnt head fl c D :
  sched p = [] -> disk_torn (mainFile p) cnt head fl c D -> batch_ok c m ->
  exists f', write_pages m p = (Ok tt, with_main f' p) /\
    disk_torn f' cnt head fl (m ∪ c) (D ∖ dom m).
Proof.
  intros Hs Ht Hb. destruct (range_keys m) as (Hnd & Hm & Hdom).
  destruct (write_list_ok (range m) p cnt head fl c D Hs Ht (batch_range c m Hb)) as (f' & E & Ht').
  exists f'. split; [exact E|]. by rewrite fold_insert_union, Hm, Hdom in Ht'.
Qed.

(** * Replay *)

(** The pages after replaying the transactions [ts] of the log. *)
Definition replay_view (gs : list (Z * list walRecord)) (c : gmap Z (list byte))
  : gmap Z (list byte) :=
  fold_left (fun c g => if hasEOT (snd g) then applied (snd g) ∪ c else c) gs c.

Definition replay_dom (gs : list (Z * list walRecord)) : gset Z :=
  fold_right (fun g D => if hasEOT (snd g) then dom (applied (snd g)) ∪ D else D) ∅ gs.

Lemma batch_ok_union c m m' : batch_ok c m' -> batch_ok (m ∪ c) m'.
Proof.
  intros Hb id body Hl. destruct (Hb id body Hl) as [? [b' Hc]]. split; [done|].
  destruct (m !! id) eqn:E.
  - eexists. by apply lookup_union_Some_l.
  - eexists. by rewrite lookup_union_r.
Qed.

Lemma replay_groups_ok gs p cnt head fl c D :
  sched p = [] -> disk_torn (mainFile p) cnt head fl c D ->
  Forall (fun g => hasEOT (snd g) = true -> batch_ok c (applied (snd g))) gs ->
  exists f', for_each gs apply_group p = (Ok tt, with_main f' p) /\
    disk_torn f' cnt head fl (replay_view gs c) (D ∖ replay_dom gs).
Proof.
  revert p c D. induction gs as [|g gs IH]; intros p c D Hs Ht Hg.
  - exists (mainFile p). simpl. rewrite with_main_id, difference_empty_L. done.
  - apply Forall_cons in Hg as [H0 Hg]. simpl. unfold apply_group at 1.
    destruct (hasEOT (snd g)) eqn:E.
    + destruct (write_pages_ok _ p cnt head fl c D Hs Ht (H0 eq_refl)) as (f1 & E1 & Ht1).
      erewrite bind_ok by (erewrite bind_ok by exact E1; by apply io_call_ok).
      destruct (IH (with_main f1 p) (applied (snd g) ∪ c) (D ∖ dom (applied (snd g))))
        as (f2 & E2 & Ht2); [done|done| |].
      { eapply Forall_impl; [exact Hg|]. intros g' Hb Hg'. by apply batch_ok_union, Hb. }
      exists f2. rewrite E2. split; [by destruct p|]. by rewrite <- difference_difference_l_L.
    + rewrite bind_ret. by apply IH.
Qed.

(** With one committed transaction, or none, the order does not matter. *)
Lemma replay_view_none gs c :
  Forall (fun g => hasEOT (snd g) = false) gs -> replay_view gs c = c /\ replay_dom gs = ∅.
Proof.
  intros Hg. unfold replay_view, replay_dom.
  induction Hg as [|g gs E Hg IH]; simpl; [done|]. by rewrite E.
Qed.

Lemma replay_view_one gs c t rs :
  NoDup gs.*1 -> (t, rs) ∈ gs -> hasEOT rs = true ->
  (forall t' rs', (t', rs') ∈ gs -> t' <> t -> hasEOT rs' = false) ->
  replay_view gs c = applied rs ∪ c /\ replay_dom gs = dom (applied rs).
Proof.
  intros Hnd Hin Ht Hoth.
  apply list_elem_of_split in Hin as (g1 & g2 & ->).
  rewrite fmap_app, fmap_cons in Hnd. simpl in Hnd.
  apply NoDup_app in Hnd as (_ & Hd & [Hn _]%NoDup_cons).
  assert (Forall (fun g => hasEOT (snd g) = false) g1) as H1.
  { apply Forall_forall. intros [t' rs'] Hi. apply (Hoth t'); [set_solver|]. intros ->.
    apply (Hd t); [by apply (list_elem_of_fmap_2 fst _ (t, rs'))|by constructor]. }
  assert (Forall (fun g => hasEOT (snd g) = false) g2) as H2.
  { apply Forall_forall. intros [t' rs'] Hi. apply (Hoth t'); [set_solver|]. intros ->.
    apply Hn. by apply (list_elem_of_fmap_2 fst _ (t, rs')). }
  unfold replay_view, replay_dom. rewrite fold_left_app, fold_right_app. simpl. rewrite Ht.
  destruct (replay_view_none g1 c H1) as [V1 _].
  destruct (replay_view_none g2 (applied rs ∪ c) H2) as [V2 D2].
  unfold replay_view, replay_dom in V1, V2, D2. rewrite V1, V2, D2. split; [done|].
  rewrite union_empty_r_L. clear -H1. induction H1 as [|g gs E Hg IH]; simpl; [done|]. by rewrite E.
Qed.

End with_range.

(** * The invariant *)

Definition data_record (next : Z) (r : walRecord) : Prop :=
  wal_ok r /\ wPage r <> walEOTPageID /\ wTxn r <= next.

Record pager_inv (p : filePager) (n : nat) (fl : list Z) (c : gmap Z (list byte))
  (recs : list walRecord) : Prop := {
  pi_sched : sched p = [];
  pi_threshold : CheckpointThreshold p = 0;
  pi_state : state p = stateOpen;
  pi_openErr : openErr p = None;
  pi_room : pageCount p + Z.of_nat n <= max_pages;
  pi_disk : disk_inv (mainFile p) (pageCount p) (freeListHead p) fl c;
  pi_freeCount : freeCount p = zlen fl;
  pi_freeSet : freeSet p = list_to_set fl;
  pi_wal : walFile p = wal_stream recs;
  pi_walSize : walSize p = zlen (walFile p);
  pi_recs : Forall (data_record (nextTxnID p)) recs;
  pi_next : 0 <= nextTxnID p /\ nextTxnID p + Z.of_nat n < 2 ^ 64;
  pi_txn : inTxn p = true ->
    currentTxn p = nextTxnID p /\ txnBuffer p = applied (txn_records (currentTxn p) recs) /\
    batch_ok c (txnBuffer p) }.

Definition view_of (p : filePager) (c : gmap Z (list byte)) : page_view :=
  if inTxn p then mkView (txnBuffer p ∪ c) (Some c) else mkView c None.

Definition pager_rel (p : filePager) (n : nat) (v : page_view) : Prop :=
  exists fl c recs, pager_inv p n fl c recs /\ v = view_of p c.

Lemma data_records_ok next recs : Forall (data_record next) recs -> Forall wal_ok recs.
Proof. intros Hf. eapply Forall_impl; [exact Hf|]. by intros r [? _]. Qed.

Lemma data_records_no_eot next recs t :
  Forall (data_record next) recs -> hasEOT (txn_records t recs) = false.
Proof.
  intros Hf. apply not_true_iff_false. intros Ht. apply existsb_exists in Ht as (r & Hin & Hr).
  apply List.filter_In in Hin as [Hin _]. apply list_elem_of_In in Hin.
  rewrite Forall_forall in Hf. destruct (Hf r Hin) as (_ & Hne & _).
  by apply Hne, is_eot_spec.
Qed.

Lemma data_records_mono next next' recs :
  next <= next' -> Forall (data_record next) recs -> Forall (data_record next') recs.
Proof.
  intros Hn Hf. eapply Forall_impl; [exact Hf|]. intros r (? & ? & ?). split_and!; try done. lia.
Qed.

(** A transaction number not used yet has no records. *)
Lemma txn_records_fresh next recs t :
  Forall (data_record next) recs -> next < t -> txn_records t recs = [].
Proof.
  intros Hf Ht. induction Hf as [|r recs (_ & _ & Hr) Hf IH]; [done|].
  simpl. rewrite (proj2 (Z.eqb_neq _ _)) by lia. exact IH.
Qed.

Lemma applied_snoc rs r :
  applied (rs ++ [r])
  = if is_eot r then applied rs else <[wPage r := wBody r]> (applied rs).
Proof. unfold applied. by rewrite fold_left_app. Qed.

Lemma hasEOT_app a b : hasEOT (a ++ b) = hasEOT a || hasEOT b.
Proof. apply existsb_app. Qed.

Ltac step L := erewrite bind_ok by (apply L; (assumption || reflexivity)).

(** ** Guards *)

Lemma checkState_open p : state p = stateOpen -> checkState p = (Ok tt, p).
Proof. intros E. unfold checkState. rewrite bind_gets, E. done. Qed.

Lemma validatePageID_ok id p :
  2 <= id < pageCount p -> validatePageID id p = (Ok tt, p).
Proof.
  intros Hid. unfold validatePageID, MirrorHeaderPageID. rewrite bind_gets.
  rewrite (proj2 (Z.eqb_neq _ _)), (proj2 (Z.eqb_neq _ _)), (proj2 (Z.leb_gt _ _)) by lia. done.
Qed.

Lemma validatePageID_bad id p :
  0 <= id -> ~ 2 <= id < pageCount p -> validatePageID id p = (Err ErrInvalidPageID, p).
Proof.
  intros H0 Hid. unfold validatePageID, MirrorHeaderPageID. rewrite bind_gets.
  destruct (id =? 0) eqn:E0; [done|]. destruct (id =? 1) eqn:E1; [done|]. simpl.
  apply Z.eqb_neq in E0, E1. rewrite (proj2 (Z.leb_le _ _)) by lia. done.
Qed.

Lemma op_guards {A} (k : M A) p :
  state p = stateOpen -> bind (checkCtx None) (fun _ => bind checkState (fun _ => k)) p = k p.
Proof. intros Hs. unfold checkCtx. rewrite bind_ret. by erewrite bind_ok by by apply checkState_open. Qed.

Section laws.
Context `{MapRange}.
Context {p : filePager} {n : nat} {fl : list Z} {c : gmap Z (list byte)} {recs : list walRecord}.
Hypothesis Hi : pager_inv p n fl c recs.

Lemma inv_used id : is_Some (c !! id) -> 2 <= id < pageCount p /\ 0 <= id < max_pages.
Proof using Hi.
  intros Hid. pose proof (di_used (pi_disk _ _ _ _ _ Hi) id Hid).
  pose proof (di_count _ _ _ _ _ (pi_disk _ _ _ _ _ Hi)). lia.
Qed.

Lemma inv_not_free id : is_Some (c !! id) -> id ∉ freeSet p.
Proof using Hi.
  intros Hid. rewrite (pi_freeSet _ _ _ _ _ Hi), elem_of_list_to_set. intros Hin.
  apply (di_disj _ _ _ _ _ (pi_disk _ _ _ _ _ Hi)) in Hin. rewrite Hin in Hid. by destruct Hid.
Qed.

Lemma inv_view_used id : is_Some (v_pages (view_of p c) !! id) -> is_Some (c !! id).
Proof using Hi.
  unfold view_of. destruct (inTxn p) eqn:E; [|done]. simpl. intros [b Hl].
  apply lookup_union_Some_raw in Hl as [Hl|[_ Hl]]; [|by eexists].
  destruct (pi_txn _ _ _ _ _ Hi E) as (_ & _ & Hb). by apply (Hb id b).
Qed.

Lemma readBody_inv id body :
  c !! id = Some body -> readBodyUnchecked id p = (Ok body, p).
Proof using Hi.
  intros Hl. destruct (inv_used id ltac:(by eexists)) as [Hr Hm].
  destruct (di_pages _ _ _ _ _ (pi_disk _ _ _ _ _ Hi) id body Hl).
  apply readBodyUnchecked_ok; [apply Hi|done| |done|done].
  apply (di_in_file (pi_disk _ _ _ _ _ Hi)). done.
Qed.

Lemma ReadPage_inv id body :
  v_pages (view_of p c) !! id = Some body -> ReadPage None id p = (Ok body, p).
Proof using Hi.
  intros Hl. pose proof (inv_view_used id ltac:(by eexists)) as Hid.
  destruct (inv_used id Hid) as [Hr Hm].
  unfold ReadPage. rewrite op_guards by apply Hi.
  erewrite bind_ok by (by apply validatePageID_ok). rewrite bind_gets.
  rewrite decide_False by (by apply inv_not_free). rewrite !bind_gets.
  unfold view_of in Hl. destruct (inTxn p) eqn:E; simpl in Hl; [|by apply readBody_inv].
  apply lookup_union_Some_raw in Hl as [Hl|[Hn Hl]].
  - rewrite Hl. destruct (pi_txn _ _ _ _ _ Hi E) as (_ & _ & Hb).
    destruct (Hb _ _ Hl) as [Hz _]. unfold ret. rewrite copy_full by done. done.
  - rewrite Hn. by apply readBody_inv.
Qed.

Lemma ReadPage_unallocated id :
  0 <= id -> v_pages (view_of p c) !! id = None -> ReadPage None id p = (Err ErrInvalidPageID, p).
Proof using Hi.
  intros H0 Hl. unfold ReadPage. rewrite op_guards by apply Hi.
  assert (c !! id = None) as Hc.
  { unfold view_of in Hl. destruct (inTxn p); [|done]. simpl in Hl.
    by apply lookup_union_None in Hl as [_ ?]. }
  destruct (decide (2 <= id < pageCount p)) as [Hr|Hr].
  - erewrite bind_ok by (by apply validatePageID_ok). rewrite bind_gets.
    rewrite decide_True; [done|].
    rewrite (pi_freeSet _ _ _ _ _ Hi), elem_of_list_to_set.
    apply (di_cover _ _ _ _ _ (pi_disk _ _ _ _ _ Hi)) in Hr as [?|[b Hb]]; [done|congruence].
  - by erewrite bind_err by (by apply validatePageID_bad).
Qed.
(** ** Writes *)

Lemma WritePage_guards id body :
  is_Some (c !! id) -> zlen body = DataPageBodySize ->
  WritePage None id body p
  = (if negb (inTxn p) then writeBodyUnchecked id body p else appendWAL id body p).
Proof using Hi.
  intros Hid Hb. destruct (inv_used id Hid) as [Hr Hm].
  unfold WritePage. rewrite op_guards by apply Hi.
  erewrite bind_ok by (by apply validatePageID_ok). rewrite bind_gets.
  rewrite decide_False by (by apply inv_not_free).
  rewrite Hb, Z.eqb_refl. cbn [negb]. rewrite bind_gets. by destruct (inTxn p).
Qed.

Lemma inv_write_direct id body :
  inTxn p = false -> is_Some (c !! id) -> zlen body = DataPageBodySize ->
  let p' := with_main (write_at (mainFile p) (id * PageSize) (data_image body)) p in
  WritePage None id body p = (Ok tt, p') /\ pager_inv p' n fl (<[id := body]> c) recs.
Proof using Hi.
  intros Hn Hid Hb p'. destruct (inv_used id Hid) as [Hr Hm].
  rewrite WritePage_guards, Hn by done. cbn [negb].
  rewrite writeBodyUnchecked_ok; [|apply Hi|done|done]. split; [done|].
  destruct Hi. split; try assumption.
  - by apply disk_write.
  - intros E. exfalso. change (inTxn p = true) in E. congruence.
Qed.

Lemma write_at_end f d : write_at f (zlen f) d = f ++ d.
Proof.
  pose proof (zlen_nonneg d). unfold write_at, splice.
  rewrite zrep_nil, app_nil_r, ztake_all, zdrop_all, app_nil_r by lia. done.
Qed.

(** The record [appendWAL] writes. *)
Definition wal_entry (id : Z) (body : list byte) : walRecord := mkWal (currentTxn p) id body.

Lemma inv_write_txn id body :
  inTxn p = true -> is_Some (c !! id) -> zlen body = DataPageBodySize ->
  exists p', WritePage None id body p = (Ok tt, p') /\
    inTxn p' = true /\ txnBuffer p' = <[id := body]> (txnBuffer p) /\
    pager_inv p' n fl c (recs ++ [wal_entry id body]).
Proof using Hi.
  intros Ht Hid Hb. destruct (inv_used id Hid) as [Hr Hm].
  rewrite WritePage_guards, Ht by done. cbn [negb]. unfold appendWAL. rewrite !bind_gets.
  rewrite encodeWALRecord_image by (rewrite Hb; unfold DataPageBodySize, PageSize; lia).
  pose proof (zlen_nonneg (walFile p)) as Hw.
  erewrite bind_ok by (apply wal_write_ok; [apply Hi|rewrite (pi_walSize _ _ _ _ _ Hi); done]).
  erewrite bind_ok by (apply io_call_ok, Hi). unfold modify.
  rewrite (pi_walSize _ _ _ _ _ Hi), write_at_end, (copy_full body) by done.
  eexists. split; [reflexivity|]. split; [done|]. split; [done|].
  destruct (pi_txn _ _ _ _ _ Hi Ht) as (Hcur & Hbuf & Hbat).
  pose proof (pi_next _ _ _ _ _ Hi) as [Hn0 Hn1].
  assert (data_record (nextTxnID p) (wal_entry id body)) as Hrec.
  { unfold data_record, wal_ok, wal_entry, u64, walEOTPageID, max_pages in *. simpl.
    rewrite Hcur. split_and!; lia. }
  destruct Hi. split; try assumption.
  - change (walFile p ++ wal_bytes (wal_entry id body) = wal_stream (recs ++ [wal_entry id body])).
    rewrite wal_stream_app, wal_stream_one. congruence.
  - change (zlen (walFile p) + zlen (wal_image (currentTxn p) id body)
      = zlen (walFile p ++ wal_image (currentTxn p) id body)). by rewrite zlen_app.
  - apply Forall_app. split; [assumption|by constructor].
  - intros _. change (currentTxn p = nextTxnID p /\
      <[id := body]> (txnBuffer p) = applied (txn_records (currentTxn p) (recs ++ [wal_entry id body])) /\
      batch_ok c (<[id := body]> (txnBuffer p))).
    split; [done|]. split.
    + rewrite txn_records_app. simpl. rewrite Z.eqb_refl, applied_snoc.
      destruct (is_eot (wal_entry id body)) eqn:E; [|by rewrite <- Hbuf].
      apply is_eot_spec in E. simpl in E. unfold walEOTPageID, max_pages in *. lia.
    + intros j b [[<- <-]|[_ Hj]]%lookup_insert_Some; [done|by apply Hbat].
Qed.

(** ** Transactions *)

Lemma BeginTx_inv n' :
  n = S n' -> inTxn p = false ->
  exists p', BeginTx None p = (Ok tt, p') /\ inTxn p' = true /\ txnBuffer p' = ∅ /\
    pager_inv p' n' fl c recs.
Proof using Hi.
  intros -> Hn. unfold BeginTx. rewrite op_guards by apply Hi. rewrite bind_gets, Hn. unfold modify.
  pose proof (pi_next _ _ _ _ _ Hi) as [Hn0 Hn1]. pose proof (pi_room _ _ _ _ _ Hi) as Hroom.
  rewrite wrap64_id by (unfold u64; lia).
  eexists. split; [reflexivity|]. split; [done|]. split; [done|].
  assert (txn_records (nextTxnID p + 1) recs = []) as Hfresh.
  { eapply txn_records_fresh; [apply Hi|lia]. }
  destruct Hi. split; try assumption.
  - change (pageCount p + Z.of_nat n' <= max_pages). lia.
  - eapply data_records_mono; [|eassumption]. change (nextTxnID p <= nextTxnID p + 1). lia.
  - change (0 <= nextTxnID p + 1 /\ nextTxnID p + 1 + Z.of_nat n' < 2 ^ 64). lia.
  - intros _. split; [done|]. split; [|by intros ? ? ?]. simpl. by rewrite Hfresh.
Qed.

Lemma RollbackTx_inv :
  inTxn p = true ->
  exists p', RollbackTx None p = (Ok tt, p') /\ inTxn p' = false /\ pager_inv p' n fl c recs.
Proof using Hi.
  intros Ht. unfold RollbackTx. rewrite op_guards by apply Hi. rewrite bind_gets, Ht.
  eexists. split; [reflexivity|]. split; [done|]. by destruct Hi; split.
Qed.
End laws.

(** * Replaying a log *)

(** A log of complete records followed by at most a torn one. *)
Definition torn_log (w : list byte) (recs : list walRecord) : Prop :=
  Forall wal_ok recs /\
  exists r k, wal_ok r /\ 0 <= k < zlen (wal_bytes r) /\ w = wal_stream recs ++ ztake k (wal_bytes r).

Definition eot_record (t : Z) : walRecord := mkWal t walEOTPageID [].

Lemma eot_record_ok t : u64 t -> wal_ok (eot_record t).
Proof.
  intros Ht. unfold wal_ok, eot_record, u64, walEOTPageID in *. simpl. split_and!; try lia. by right.
Qed.

Lemma torn_log_full recs : Forall wal_ok recs -> torn_log (wal_stream recs) recs.
Proof.
  intros Hok. split; [done|]. exists (eot_record 0), 0.
  pose proof (zlen_wal_bytes (eot_record 0)).
  split; [apply eot_record_ok; unfold u64; lia|]. split; [lia|]. by rewrite ztake_0, app_nil_r.
Qed.

Lemma torn_log_parse w recs : torn_log w recs -> parse_wal (length w) w = Ok recs.
Proof. intros [Hok (r & k & Hr & Hk & ->)]. by apply parse_wal_stream. Qed.

Lemma torn_log_nil recs : torn_log [] recs -> recs = [].
Proof.
  intros [Hok (r & k & Hr & Hk & E)]. symmetry in E. apply app_nil in E as [E _].
  destruct recs as [|r0 recs]; [done|]. destruct (wal_bytes_cons r0) as (b & l & El).
  unfold wal_stream in E. simpl in E. by rewrite El in E.
Qed.

Section replay.
Context `{MapRange}.

Lemma replay_ok p cnt head fl c D recs :
  sched p = [] -> walSize p = zlen (walFile p) -> torn_log (walFile p) recs ->
  disk_torn (mainFile p) cnt head fl c D ->
  (forall t, committed recs t = true -> batch_ok c (applied (txn_records t recs))) ->
  exists f', replayWALInternal p = (Ok tt, with_walSize 0 (with_wal [] (with_main f' p))) /\
    disk_torn f' cnt head fl (replay_view (group_records recs) c)
      (D ∖ replay_dom (group_records recs)).
Proof.
  intros Hs Hsz Hlog Ht Hb. unfold replayWALInternal. rewrite bind_gets.
  destruct (walSize p =? 0) eqn:E0.
  - apply Z.eqb_eq in E0. rewrite E0 in Hsz.
    destruct (walFile p) as [|b0 w] eqn:Ew; [|rewrite zlen_cons in Hsz; pose proof (zlen_nonneg w); lia].
    apply torn_log_nil in Hlog as ->. exists (mainFile p). split.
    + unfold ret. f_equal. destruct p; simpl in *; by subst.
    + simpl. by rewrite difference_empty_L.
  - pose proof (zlen_nonneg (walFile p)).
    erewrite bind_ok; cycle 1.
    { unfold wal_read. rewrite bind_gets. apply io_read_ok; [done|lia|lia]. }
    rewrite slice_full by lia.
    erewrite bind_ok by (unfold lift; by rewrite (torn_log_parse _ recs)).
    destruct (replay_groups_ok (group_records recs) p cnt head fl c D Hs Ht) as (f' & E & Ht').
    { apply Forall_forall. intros [t rs] Hin Hrs. simpl in *.
      rewrite (group_in _ _ _ Hin) in *. by apply Hb. }
    exists f'. split; [|done].
    assert (forall q, sched q = [] -> (wal_truncate ;;; modify (with_walSize 0)) q
      = (Ok tt, with_walSize 0 (with_wal [] q))) as Htr.
    { intros q Hq. by erewrite bind_ok by by apply wal_truncate_ok. }
    destruct recs as [|r0 recs].
    + simpl in E. unfold ret in E. injection E as E. rewrite <- E. by apply Htr.
    + erewrite bind_ok by exact E. by rewrite Htr.
Qed.

(** A log without a committed transaction. *)
Lemma replay_nothing p cnt head fl c D recs :
  sched p = [] -> walSize p = zlen (walFile p) -> torn_log (walFile p) recs ->
  disk_torn (mainFile p) cnt head fl c D -> (forall t, committed recs t = false) ->
  exists f', replayWALInternal p = (Ok tt, with_walSize 0 (with_wal [] (with_main f' p))) /\
    disk_torn f' cnt head fl c D.
Proof.
  intros Hs Hsz Hlog Ht Hc.
  destruct (replay_ok p cnt head fl c D recs Hs Hsz Hlog Ht) as (f' & E & Ht').
  { intros t Hct. by rewrite Hc in Hct. }
  destruct (replay_view_none (group_records recs) c) as [Hv Hd].
  { apply Forall_forall. intros [t rs] Hin. simpl. rewrite (group_in _ _ _ Hin). apply Hc. }
  rewrite Hv, Hd, difference_empty_L in Ht'. by exists f'.
Qed.

(** A log with the one committed transaction [t]. *)
Lemma replay_committed p cnt head fl c D recs t :
  sched p = [] -> walSize p = zlen (walFile p) -> torn_log (walFile p) recs ->
  disk_torn (mainFile p) cnt head fl c D ->
  committed recs t = true -> (forall t', t' <> t -> committed recs t' = false) ->
  batch_ok c (applied (txn_records t recs)) ->
  exists f', replayWALInternal p = (Ok tt, with_walSize 0 (with_wal [] (with_main f' p))) /\
    disk_torn f' cnt head fl (applied (txn_records t recs) ∪ c)
      (D ∖ dom (applied (txn_records t recs))).
Proof.
  intros Hs Hsz Hlog Ht Hc Ho Hb.
  destruct (replay_ok p cnt head fl c D recs Hs Hsz Hlog Ht) as (f' & E & Ht').
  { intros t' Hct. destruct (Z.eq_dec t' t) as [->|Hne]; [done|]. by rewrite (Ho _ Hne) in Hct. }
  destruct (group_records_spec recs) as (Hnd & Hg & _).
  assert ((t, txn_records t recs) ∈ group_records recs) as Hin.
  { specialize (Hg t). unfold committed in Hc. unfold group_of in Hg.
    destruct (List.find (fun g => fst g =? t) (group_records recs)) as [[t' rs]|] eqn:Ef.
    - apply List.find_some in Ef as [Hin Heq]. simpl in *. apply Z.eqb_eq in Heq as ->. subst.
      by apply list_elem_of_In.
    - rewrite <- Hg in Hc. done. }
  destruct (replay_view_one (group_records recs) c t _ Hnd Hin Hc) as [Hv Hd].
  { intros t' rs' Hin' Hne. rewrite (group_in _ _ _ Hin'). by apply Ho. }
  rewrite Hv, Hd in Ht'. by exists f'.
Qed.

End replay.

(** The log at the moment a transaction commits. *)
Lemma committed_eot next recs t t' :
  Forall (data_record next) recs ->
  committed (recs ++ [eot_record t]) t' = (t =? t') /\
  applied (txn_records t (recs ++ [eot_record t])) = applied (txn_records t recs).
Proof.
  intros Hf. unfold committed. rewrite !txn_records_app, hasEOT_app.
  rewrite (data_records_no_eot next recs t' Hf). simpl. rewrite Z.eqb_refl.
  split; [by destruct (t =? t')|]. apply applied_snoc.
Qed.

Lemma committed_none next recs t : Forall (data_record next) recs -> committed recs t = false.
Proof. apply data_records_no_eot. Qed.

Lemma union_twice (m c : gmap Z (list byte)) : m ∪ (m ∪ c) = m ∪ c.
Proof. by rewrite (assoc_L (∪)), (idemp_L (∪)). Qed.

Section more_laws.
Context `{MapRange}.
Context {p : filePager} {n : nat} {fl : list Z} {c : gmap Z (list byte)} {recs : list walRecord}.
Hypothesis Hi : pager_inv p n fl c recs.

Lemma inv_next_u64 : u64 (nextTxnID p).
Proof using Hi. pose proof (pi_next _ _ _ _ _ Hi). unfold u64. lia. Qed.

Lemma inv_commit_log :
  inTxn p = true -> Forall wal_ok (recs ++ [eot_record (currentTxn p)]).
Proof using Hi.
  intros Ht. destruct (pi_txn _ _ _ _ _ Hi Ht) as (-> & _).
  apply Forall_app. split; [eapply data_records_ok; apply Hi|].
  constructor; [|done]. apply eot_record_ok, inv_next_u64.
Qed.

Lemma inv_commit_wal :
  write_at (walFile p) (walSize p) (encodeEOTMarker (currentTxn p))
  = wal_stream (recs ++ [eot_record (currentTxn p)]).
Proof using Hi.
  rewrite (pi_walSize _ _ _ _ _ Hi), write_at_end, (pi_wal _ _ _ _ _ Hi).
  by rewrite wal_stream_app, wal_stream_one, encodeEOTMarker_image.
Qed.

(** The pager after the in-memory transaction is gone and the log is empty. *)
Definition settled (f : list byte) : filePager :=
  with_walSize 0 (with_wal [] (with_main f (with_txn false (nextTxnID p) 0 ∅ p))).

Lemma settled_inv f c' :
  disk_inv f (pageCount p) (freeListHead p) fl c' -> pager_inv (settled f) n fl c' [].
Proof using Hi. intros Hd. destruct Hi. split; try assumption; done. Qed.

Lemma CommitTx_inv :
  inTxn p = true ->
  exists f', CommitTx None p = (Ok tt, settled f') /\
    pager_inv (settled f') n fl (txnBuffer p ∪ c) [].
Proof using Hi.
  intros Ht. destruct (pi_txn _ _ _ _ _ Hi Ht) as (Hcur & Hbuf & Hbat).
  pose proof (zlen_nonneg (walFile p)) as Hw.
  unfold CommitTx. rewrite op_guards by apply Hi. rewrite bind_gets, Ht. cbn [negb].
  rewrite !bind_gets.
  erewrite bind_ok by (apply wal_write_ok; [apply Hi|rewrite (pi_walSize _ _ _ _ _ Hi); done]).
  erewrite bind_ok by (apply io_call_ok, Hi). rewrite bind_gets, bind_modify.
  rewrite inv_commit_wal.
  set (p1 := with_txn _ _ _ _ _).
  destruct (write_pages_ok (txnBuffer p) p1 (pageCount p) (freeListHead p) fl c ∅) as (f1 & E1 & Ht1).
  { apply Hi. } { apply disk_torn_intro, Hi. } { done. }
  change (txnBuffer (with_wal _ p)) with (txnBuffer p).
  erewrite bind_ok by exact E1. erewrite bind_ok by (apply io_call_ok; apply Hi).
  rewrite !bind_gets.
  change (CheckpointThreshold (with_main f1 p1)) with (CheckpointThreshold p).
  rewrite (pi_threshold _ _ _ _ _ Hi). rewrite Z.eqb_refl. cbn [orb].
  destruct (committed_eot (nextTxnID p) recs (currentTxn p) (currentTxn p)) as [Hc1 Happ]; [apply Hi|].
  rewrite Z.eqb_refl in Hc1.
  destruct (replay_committed (with_main f1 p1) (pageCount p) (freeListHead p) fl (txnBuffer p ∪ c)
    (∅ ∖ dom (txnBuffer p)) (recs ++ [eot_record (currentTxn p)]) (currentTxn p)) as (f2 & E2 & Ht2).
  - apply Hi.
  - change (walSize p + zlen (encodeEOTMarker (currentTxn p))
      = zlen (wal_stream (recs ++ [eot_record (currentTxn p)]))).
    rewrite wal_stream_app, wal_stream_one, zlen_app, encodeEOTMarker_image.
    by rewrite (pi_walSize _ _ _ _ _ Hi), (pi_wal _ _ _ _ _ Hi).
  - apply torn_log_full. by apply inv_commit_log.
  - exact Ht1.
  - exact Hc1.
  - intros t' Hne. destruct (committed_eot (nextTxnID p) recs (currentTxn p) t') as [-> _]; [apply Hi|].
    apply Z.eqb_neq. congruence.
  - rewrite Happ, <- Hbuf. by apply batch_ok_union.
  - exists f2. split; [exact E2|]. apply settled_inv.
    rewrite Happ, <- Hbuf, union_twice in Ht2. apply disk_torn_empty.
    replace ∅ with ((∅ ∖ dom (txnBuffer p)) ∖ dom (txnBuffer p) : gset Z) by set_solver. exact Ht2.
Qed.

(** The pager after its counters, free list and main file are replaced. *)
Definition moved (f : list byte) (cnt h fc : Z) (fs : gset Z) : filePager :=
  with_main f (with_count cnt (with_free h fc fs p)).

Lemma moved_inv n' f cnt h fc fs fl' c' :
  inTxn p = false -> (n' <= n)%nat -> cnt + Z.of_nat n' <= max_pages ->
  disk_inv f cnt h fl' c' -> fc = zlen fl' -> fs = list_to_set fl' ->
  pager_inv (moved f cnt h fc fs) n' fl' c' recs.
Proof using Hi.
  intros Hn Hle Hroom Hd Hfc Hfs. destruct Hi. unfold moved. split; cbn; try assumption.
  - lia.
  - intros E. congruence.
Qed.

(** ** Allocation *)

Lemma AllocatePage_free_inv id fl' :
  fl = id :: fl' -> inTxn p = false ->
  exists p', AllocatePage None p = (Ok id, p') /\ inTxn p' = false /\
    pager_inv p' n fl' (<[id := zero_body]> c) recs.
Proof using Hi.
  intros Hfl Hn. pose proof (pi_disk _ _ _ _ _ Hi) as Hd. rewrite Hfl in Hd.
  pose proof (di_free Hd id ltac:(constructor)) as Hr.
  pose proof (di_count _ _ _ _ _ Hd) as Hcnt.
  assert (freeListHead p = id) as Hh by apply (di_chain _ _ _ _ _ Hd).
  rewrite Hh in Hd. destruct (disk_alloc_free _ _ _ _ _ _ zlen_zero_body Hd) as (next & Himg & Hu & Hd').
  destruct (freelist_pointer_roundtrip next Hu) as [Hlp Hptr].
  unfold AllocatePage. rewrite op_guards by apply Hi. rewrite bind_gets, Hn, bind_gets, Hh.
  rewrite (proj2 (Z.eqb_neq _ _)) by (unfold freeListSentinel, max_pages in *; lia). cbn [negb].
  assert (0 <= id < max_pages) as Hm by lia.
  erewrite bind_ok by (apply readBodyUnchecked_ok;
    [apply Hi|assumption|apply (di_in_file Hd); assumption|exact Hlp|exact Himg]).
  erewrite bind_ok by (unfold lift; rewrite Hptr; reflexivity).
  erewrite bind_ok by (apply writeBodyUnchecked_ok; [apply Hi|assumption|apply zlen_zero_body]).
  rewrite bind_gets, bind_modify, bind_gets.
  erewrite bind_ok; cycle 1.
  { unfold on_error. rewrite writeHeader_ok by apply Hi. reflexivity. }
  assert ((if 0 <? freeCount p then freeCount p - 1 else freeCount p) = zlen fl') as Hfc.
  { rewrite (pi_freeCount _ _ _ _ _ Hi), Hfl, zlen_cons. pose proof (zlen_nonneg fl').
    rewrite (proj2 (Z.ltb_lt _ _)) by lia. lia. }
  pose proof (di_nodup _ _ _ _ _ Hd) as Hnd. apply NoDup_cons in Hnd as [Hnin _].
  exists (moved (update_page (mainFile p) id zero_body (header_of (pageCount p) next (zlen fl')))
    (pageCount p) next (zlen fl') (freeSet p ∖ {[id]})).
  split; [unfold moved; cbn [freeCount with_free with_main]; rewrite Hfc; reflexivity|].
  split; [exact Hn|]. apply moved_inv; try assumption; [lia|apply Hi|reflexivity|].
  rewrite (pi_freeSet _ _ _ _ _ Hi), Hfl, list_to_set_cons.
  apply set_eq. intros x. rewrite elem_of_difference, elem_of_union, !elem_of_list_to_set,
    !elem_of_singleton. split; [tauto|]. intros Hx. split; [by right|congruence].
Qed.

Lemma AllocatePage_new_inv n' :
  n = S n' -> fl = [] -> inTxn p = false ->
  exists p', AllocatePage None p = (Ok (pageCount p), p') /\ inTxn p' = false /\
    pager_inv p' n' [] (<[pageCount p := zero_body]> c) recs.
Proof using Hi.
  intros Hsn Hfl Hn. pose proof (pi_disk _ _ _ _ _ Hi) as Hd. rewrite Hfl in Hd.
  pose proof (di_count _ _ _ _ _ Hd) as Hcnt. pose proof (pi_room _ _ _ _ _ Hi) as Hroom.
  assert (freeListHead p = freeListSentinel) as Hh by apply (di_chain _ _ _ _ _ Hd).
  rewrite Hh in Hd. pose proof (disk_alloc_new _ _ _ _ zlen_zero_body Hd ltac:(lia)) as Hd'.
  unfold AllocatePage. rewrite op_guards by apply Hi. rewrite bind_gets, Hn, bind_gets, Hh.
  rewrite Z.eqb_refl. cbn [negb]. rewrite bind_gets.
  erewrite bind_ok by (apply writeBodyUnchecked_ok; [apply Hi|lia|apply zlen_zero_body]).
  rewrite bind_modify, !bind_gets.
  erewrite bind_ok; cycle 1.
  { unfold on_error. rewrite writeHeader_ok by apply Hi. reflexivity. }
  assert (wrap64 (pageCount p + 1) = pageCount p + 1) as Hw.
  { apply wrap64_id. unfold u64, max_pages in *. lia. }
  exists (moved (update_page (mainFile p) (pageCount p) zero_body
      (header_of (pageCount p + 1) (freeListHead p) (freeCount p))) (pageCount p + 1) (freeListHead p)
      (freeCount p) (freeSet p)).
  pose proof (pi_freeCount _ _ _ _ _ Hi) as Hfc. rewrite Hfl in Hfc.
  change (zlen []) with 0 in Hfc.
  split.
  { unfold moved. cbn [pageCount freeListHead freeCount with_count with_free with_main].
    rewrite Hw. reflexivity. }
  split; [exact Hn|]. apply moved_inv; try assumption; [lia|lia|rewrite Hfc, Hh; exact Hd'|].
  rewrite (pi_freeSet _ _ _ _ _ Hi), Hfl. reflexivity.
Qed.

Lemma FreePage_inv id :
  is_Some (c !! id) -> inTxn p = false ->
  exists p', FreePage None id p = (Ok tt, p') /\ inTxn p' = false /\
    pager_inv p' n (id :: fl) (delete id c) recs.
Proof using Hi.
  intros Hid Hn. pose proof (pi_disk _ _ _ _ _ Hi) as Hd.
  destruct (inv_used Hi id Hid) as [Hr Hm]. pose proof (inv_not_free Hi id Hid) as Hnf.
  pose proof (di_fl_len Hd) as Hfl. pose proof (di_count _ _ _ _ _ Hd) as Hcnt.
  pose proof (disk_free _ _ _ _ _ id Hd Hid) as Hd'.
  destruct (freelist_pointer_roundtrip (freeListHead p) (di_head_u64 Hd)) as [Hlp _].
  unfold FreePage. rewrite op_guards by apply Hi. rewrite bind_gets, Hn.
  rewrite (proj2 (Z.eqb_neq _ _)) by lia. rewrite bind_gets.
  rewrite (proj2 (Z.leb_gt _ _)) by lia. rewrite bind_gets, decide_False by assumption.
  rewrite !bind_gets.
  erewrite bind_ok by (apply writeBodyUnchecked_ok; [apply Hi|assumption|exact Hlp]).
  rewrite bind_modify. unfold on_error. rewrite writeHeader_ok by apply Hi.
  assert (wrap64 (freeCount p + 1) = zlen fl + 1) as Hw.
  { rewrite (pi_freeCount _ _ _ _ _ Hi). apply wrap64_id. unfold u64, max_pages in *. lia. }
  exists (moved (update_page (mainFile p) id (encodeFreeListPointer (freeListHead p))
      (header_of (pageCount p) id (zlen fl + 1))) (pageCount p) id (zlen fl + 1)
      (freeSet p ∪ {[id]})).
  split; [unfold moved; cbn [freeCount with_free with_main]; rewrite Hw; reflexivity|].
  split; [exact Hn|]. apply moved_inv; try assumption; [lia|apply Hi|rewrite zlen_cons; lia|].
  rewrite (pi_freeSet _ _ _ _ _ Hi), list_to_set_cons. apply (comm_L (∪)).
Qed.
End more_laws.

(** * The refinement *)

Section instance.
Context `{MapRange}.

#[export] Instance filePager_ops : PagerOps filePager := {|
  pg_PageCount := PageCount;
  pg_ReadPage := ReadPage;
  pg_WritePage := WritePage;
  pg_AllocatePage := AllocatePage;
  pg_FreePage := FreePage;
  pg_BeginTx := BeginTx;
  pg_CommitTx := CommitTx;
  pg_RollbackTx := RollbackTx |}.

Lemma rel_weaken p n n' v : (n' <= n)%nat -> pager_rel p n v -> pager_rel p n' v.
Proof.
  intros Hle (fl & c & recs & Hi & ->). exists fl, c, recs. split; [|done].
  destruct Hi. split; try assumption; lia.
Qed.

Lemma rel_page_ok p n v id body :
  pager_rel p n v -> v_pages v !! id = Some body ->
  zlen body = DataPageBodySize /\ FirstDataPageID <= id < max_pages.
Proof.
  intros (fl & c & recs & Hi & ->) Hl.
  assert (is_Some (c !! id)) as Hid by (apply (inv_view_used Hi); by eexists).
  destruct (inv_used Hi id Hid). unfold FirstDataPageID. split; [|lia].
  unfold view_of in Hl. destruct (inTxn p) eqn:E; simpl in Hl.
  - apply lookup_union_Some_raw in Hl as [Hl|[_ Hl]].
    + destruct (pi_txn _ _ _ _ _ Hi E) as (_ & _ & Hb). by apply (Hb id).
    + by apply (di_pages _ _ _ _ _ (pi_disk _ _ _ _ _ Hi) id).
  - by apply (di_pages _ _ _ _ _ (pi_disk _ _ _ _ _ Hi) id).
Qed.

Lemma rel_write p n v id body :
  pager_rel p n v -> is_Some (v_pages v !! id) -> zlen body = DataPageBodySize ->
  exists p', WritePage None id body p = (Ok tt, p') /\
    pager_rel p' n (mkView (<[id := body]> (v_pages v)) (v_tx v)).
Proof.
  intros (fl & c & recs & Hi & ->) Hid%(inv_view_used Hi) Hb. unfold view_of.
  destruct (inTxn p) eqn:E.
  - destruct (inv_write_txn Hi id body E Hid Hb) as (p' & Hw & Ht & Hbuf & Hi').
    exists p'. split; [done|]. eexists _, _, _. split; [done|]. unfold view_of. rewrite Ht, Hbuf.
    simpl. by rewrite insert_union_l.
  - destruct (inv_write_direct Hi id body E Hid Hb) as (Hw & Hi').
    eexists. split; [exact Hw|]. eexists _, _, _. split; [exact Hi'|].
    unfold view_of. cbn [inTxn with_main]. by rewrite E.
Qed.

Lemma rel_not_txn p n v :
  pager_rel p n v -> v_tx v = None ->
  exists fl recs, pager_inv p n fl (v_pages v) recs /\ inTxn p = false.
Proof.
  intros (fl & c & recs & Hi & ->) Hn. exists fl, recs. unfold view_of in *.
  by destruct (inTxn p).
Qed.

Lemma rel_txn p n v saved :
  pager_rel p n v -> v_tx v = Some saved ->
  exists fl recs, pager_inv p n fl saved recs /\ inTxn p = true /\
    v_pages v = txnBuffer p ∪ saved.
Proof.
  intros (fl & c & recs & Hi & ->) Hn. exists fl, recs. unfold view_of in *.
  destruct (inTxn p); [|done]. by injection Hn as <-.
Qed.

Lemma rel_intro p n fl c recs v :
  pager_inv p n fl c recs -> inTxn p = false -> v = mkView c None -> pager_rel p n v.
Proof. intros Hi Hn ->. exists fl, c, recs. split; [done|]. unfold view_of. by rewrite Hn. Qed.

Lemma rel_alloc p n v :
  pager_rel p (S n) v -> v_tx v = None ->
  exists id p', AllocatePage None p = (Ok id, p') /\
    v_pages v !! id = None /\ FirstDataPageID <= id < max_pages /\
    pager_rel p' n (mkView (<[id := zero_body]> (v_pages v)) None).
Proof.
  intros Hr Hn. destruct (rel_not_txn p (S n) v Hr Hn) as (fl & recs & Hi & Ht).
  pose proof (pi_disk _ _ _ _ _ Hi) as Hd. pose proof (di_count _ _ _ _ _ Hd).
  pose proof (pi_room _ _ _ _ _ Hi). unfold FirstDataPageID. destruct fl as [|id fl].
  - destruct (AllocatePage_new_inv Hi n eq_refl eq_refl Ht) as (p' & E & Ht' & Hi').
    exists (pageCount p), p'. split; [exact E|]. split; [|split; [lia|by eapply rel_intro]].
    destruct (v_pages v !! pageCount p) eqn:El; [|done].
    destruct (di_used Hd (pageCount p)); [by eexists|lia].
  - destruct (AllocatePage_free_inv Hi id fl eq_refl Ht) as (p' & E & Ht' & Hi').
    exists id, p'. split; [exact E|]. pose proof (di_free Hd id ltac:(constructor)).
    split; [apply (di_disj _ _ _ _ _ Hd); constructor|]. split; [lia|].
    eapply (rel_weaken p' (S n) n); [lia|]. by eapply rel_intro.
Qed.

Lemma PageCount_inv p n fl c recs :
  pager_inv p n fl c recs -> PageCount None p = (Ok (pageCount p), p).
Proof.
  intros Hi. unfold PageCount. by erewrite bind_ok by by apply checkState_open, Hi.
Qed.

Lemma rel_count p n v :
  pager_rel p n v ->
  exists c, PageCount None p = (Ok c, p) /\ forall id, is_Some (v_pages v !! id) -> id < c.
Proof.
  intros (fl & c & recs & Hi & ->). exists (pageCount p). split; [by eapply PageCount_inv|].
  intros id Hid%(inv_view_used Hi). destruct (inv_used Hi id Hid). lia.
Qed.

Lemma rel_first_alloc p n v :
  pager_rel p (S n) v -> v_tx v = None -> PageCount None p = (Ok FirstDataPageID, p) ->
  exists p', AllocatePage None p = (Ok FirstDataPageID, p') /\
    pager_rel p' n (mkView (<[FirstDataPageID := zero_body]> (v_pages v)) None).
Proof.
  intros Hr Hn Hc. destruct (rel_not_txn p (S n) v Hr Hn) as (fl & recs & Hi & Ht).
  rewrite (PageCount_inv _ _ _ _ _ Hi) in Hc. injection Hc as Hc.
  pose proof (pi_disk _ _ _ _ _ Hi) as Hd. destruct fl as [|id fl].
  - destruct (AllocatePage_new_inv Hi n eq_refl eq_refl Ht) as (p' & E & Ht' & Hi').
    rewrite Hc in *. exists p'. split; [exact E|]. by eapply rel_intro.
  - pose proof (di_free Hd id ltac:(constructor)). unfold FirstDataPageID in Hc. lia.
Qed.

#[export] Instance filePager_spec : PagerSpec filePager.
Proof.
  refine {| pg_rel := pager_rel |}; cbn.
  - exact rel_weaken.
  - exact rel_page_ok.
  - intros p n v id body Hr Hl. exists p. split; [|done].
    destruct Hr as (fl & c & recs & Hi & ->). by apply (ReadPage_inv Hi).
  - intros p n v id Hr [Hu _] Hl. exists p. split; [|done].
    destruct Hr as (fl & c & recs & Hi & ->). by apply (ReadPage_unallocated Hi).
  - exact rel_write.
  - exact rel_alloc.
  - exact rel_count.
  - exact rel_first_alloc.
  - intros p n v id Hr Hn Hid. destruct (rel_not_txn p n v Hr Hn) as (fl & recs & Hi & Ht).
    destruct (FreePage_inv Hi id Hid Ht) as (p' & E & Ht' & Hi'). exists p'. split; [done|].
    by eapply rel_intro.
  - intros p n v Hr Hn. destruct (rel_not_txn p _ v Hr Hn) as (fl & recs & Hi & Ht).
    destruct (BeginTx_inv Hi n eq_refl Ht) as (p' & E & Ht' & Hb & Hi'). exists p'.
    split; [done|]. exists fl, (v_pages v), recs. split; [done|]. unfold view_of.
    by rewrite Ht', Hb, map_empty_union.
  - intros p n v saved Hr Hs. destruct (rel_txn p n v saved Hr Hs) as (fl & recs & Hi & Ht & Hv).
    destruct (CommitTx_inv Hi Ht) as (f' & E & Hi'). eexists. split; [exact E|].
    eapply rel_intro; [exact Hi'|done|]. by rewrite Hv.
  - intros p n v saved Hr Hs. destruct (rel_txn p n v saved Hr Hs) as (fl & recs & Hi & Ht & Hv).
    destruct (RollbackTx_inv Hi Ht) as (p' & E & Ht' & Hi'). exists p'. split; [done|].
    by eapply rel_intro.
Defined.
End instance.

(** * Opening files *)

Section opening.
Context `{MapRange}.

Lemma walk_free_ok p cnt fl head seen fuel :
  sched p = [] -> cnt <= max_pages -> cnt * PageSize <= zlen (mainFile p) ->
  free_chain (mainFile p) head fl -> NoDup fl -> (forall id, id ∈ fl -> 2 <= id < cnt) ->
  (forall id, id ∈ fl -> id ∉ seen) -> (length fl < fuel)%nat ->
  walk_free fuel cnt head seen p = (Ok (seen ∪ list_to_set fl), p).
Proof.
  intros Hs Hc Hlen. revert head seen fuel.
  induction fl as [|id fl IH]; intros head seen [|fuel] Hch Hnd Hr Hseen Hf; try (simpl in Hf; lia).
  - simpl in Hch. subst. cbn [walk_free]. rewrite Z.eqb_refl. unfold ret.
    rewrite list_to_set_nil, union_empty_r_L. reflexivity.
  - destruct Hch as (-> & next & Hu & Himg & Hch). apply NoDup_cons in Hnd as [Hnin Hnd].
    pose proof (Hr id ltac:(constructor)) as Hid. cbn [walk_free].
    rewrite (proj2 (Z.eqb_neq id freeListSentinel)) by (unfold freeListSentinel, max_pages in *; lia).
    rewrite (proj2 (Z.eqb_neq id 0)), (proj2 (Z.leb_gt _ _)) by lia. cbn [orb].
    rewrite decide_False by (apply Hseen; constructor).
    destruct (freelist_pointer_roundtrip next Hu) as [Hl Hp].
    erewrite bind_ok by (apply readBodyUnchecked_ok;
      [assumption|lia|unfold PageSize in *; nia|exact Hl|exact Himg]).
    erewrite bind_ok by (unfold lift; rewrite Hp; reflexivity).
    rewrite IH; [|assumption|assumption| | |].
    + rewrite list_to_set_cons, (assoc_L (∪)). reflexivity.
    + intros j Hj. apply Hr. by constructor.
    + intros j Hj. rewrite not_elem_of_union, not_elem_of_singleton.
      split; [apply Hseen; by constructor|]. intros ->. contradiction.
    + simpl in Hf. lia.
Qed.

(** The opened pager. *)
Definition opened (f : list byte) (cnt head : Z) (fl : list Z) : filePager :=
  mkPager f [] [] 0 stateOpen None cnt head (zlen fl) (list_to_set fl) false 0 0 ∅ 0.

Lemma opened_inv f cnt head fl c n :
  disk_inv f cnt head fl c -> cnt + Z.of_nat n <= max_pages ->
  pager_inv (opened f cnt head fl) n fl c [].
Proof.
  intros Hd Hn. split; cbn; try (assumption || reflexivity || discriminate).
  - constructor.
  - unfold max_pages in *. destruct Hd. lia.
Qed.

(** [Open] once the header has been read, from either copy. *)
Lemma Open_from_header f0 f w cnt head fl c D :
  zlen f0 <> 0 ->
  load_header (newPager f0 w 0 []) = (Ok (header_of cnt head (zlen fl)), newPager f w 0 []) ->
  disk_torn f cnt head fl c D ->
  let q := with_walSize (zlen w) (with_count cnt (with_free head (zlen fl) (list_to_set fl)
             (with_state stateOpen (newPager f w 0 [])))) in
  Open None (newPager f0 w 0 []) = replayWALInternal q.
Proof.
  intros Hne Hhdr (f1 & Hd & Hl & Hin & Hp) q.
  pose proof (di_count _ _ _ _ _ Hd) as Hcnt. pose proof (di_len _ _ _ _ _ Hd) as Hlen.
  rewrite Hlen in Hl.
  assert (forall id, 2 <= id < cnt -> id ∈ fl -> id ∉ D) as Hfree.
  { intros id _ Hf HD. apply Hin in HD. rewrite (di_disj _ _ _ _ _ Hd) in HD by done.
    by destruct HD. }
  unfold Open, checkCtx. rewrite bind_ret, bind_gets. cbn [openErr newPager].
  rewrite bind_gets. cbn [state newPager]. rewrite decide_False by discriminate.
  rewrite bool_decide_true by reflexivity. cbn [negb].
  erewrite bind_ok by (apply io_call_ok; reflexivity). rewrite bind_gets. cbn [mainFile newPager].
  rewrite (proj2 (Z.eqb_neq _ _)) by assumption.
  erewrite bind_ok by exact Hhdr.
  rewrite bind_gets. erewrite bind_ok; cycle 1.
  { apply (walk_free_ok _ cnt fl); cbn [hFreeListHead hPageCount header_of mainFile newPager].
    - reflexivity.
    - lia.
    - rewrite Hl. reflexivity.
    - eapply free_chain_frame; [|apply (di_chain _ _ _ _ _ Hd)]. intros id Hid.
      pose proof (di_free Hd id Hid). apply Hp; [lia|]. by apply Hfree.
    - apply Hd.
    - intros id Hid. by apply (di_free Hd).
    - intros id _. apply not_elem_of_empty.
    - pose proof (di_fl_len Hd) as Hfl. unfold walk_fuel. rewrite Hl, Z.div_mul by done.
      unfold zlen in Hfl. lia. }
  rewrite bind_modify. rewrite union_empty_l_L, size_list_to_set by apply Hd.
  cbn [freePageCount header_of hPageCount hFreeListHead].
  change (Z.of_nat (length fl)) with (zlen fl). rewrite Z.eqb_refl. cbn [negb].
  erewrite bind_ok by (apply io_call_ok; reflexivity). rewrite bind_modify. reflexivity.
Qed.

(** The pages of the headers are never torn. *)
Lemma torn_header f w cnt head fl c D id :
  disk_torn f cnt head fl c D -> id = HeaderPageID \/ id = MirrorHeaderPageID ->
  read_header id (newPager f w 0 []) = (Ok (header_of cnt head (zlen fl)), newPager f w 0 []) /\
  page_img f id = encodeHeader (header_of cnt head (zlen fl)) /\ zlen f = cnt * PageSize /\ 2 <= cnt.
Proof.
  intros (f0 & Hd & Hl & Hin & Hp) Hid. unfold HeaderPageID, MirrorHeaderPageID in Hid.
  pose proof (di_count _ _ _ _ _ Hd) as Hcnt. rewrite (di_len _ _ _ _ _ Hd) in Hl.
  assert (page_img f id = encodeHeader (header_of cnt head (zlen fl))) as Himg.
  { rewrite Hp; [destruct Hid as [->| ->]; apply Hd|lia|].
    intros HD%Hin%(di_used Hd). lia. }
  split_and!; try assumption; [|lia]. unfold read_header.
  erewrite bind_ok; cycle 1.
  { apply main_read_page; [reflexivity|unfold max_pages; lia|].
    cbn [mainFile newPager]. rewrite Hl. unfold PageSize. lia. }
  unfold lift. cbn [mainFile newPager]. rewrite Himg, decodeHeader_encode; [reflexivity|].
  apply (di_header_ok Hd).
Qed.

Lemma Open_replays f w cnt head fl c D :
  disk_torn f cnt head fl c D ->
  let q := with_walSize (zlen w) (with_count cnt (with_free head (zlen fl) (list_to_set fl)
             (with_state stateOpen (newPager f w 0 [])))) in
  Open None (newPager f w 0 []) = replayWALInternal q.
Proof.
  intros Ht q. destruct (torn_header _ w _ _ _ _ _ HeaderPageID Ht) as (Hh & _ & Hl & Hc); [by left|].
  eapply Open_from_header; [|..|exact Ht]; [rewrite Hl; unfold PageSize; lia|].
  unfold load_header. by rewrite Hh.
Qed.

(** Recovery after a crash that left no committed transaction in the log. *)
Lemma Open_uncommitted f w cnt head fl c recs :
  disk_inv f cnt head fl c -> torn_log w recs -> (forall t, committed recs t = false) ->
  exists f', Open None (newPager f w 0 []) = (Ok tt, opened f' cnt head fl) /\
    disk_inv f' cnt head fl c.
Proof.
  intros Hd%disk_torn_intro Hlog Hc. rewrite (Open_replays _ _ _ _ _ _ _ Hd).
  edestruct (replay_nothing (with_walSize (zlen w) (with_count cnt (with_free head (zlen fl)
    (list_to_set fl) (with_state stateOpen (newPager f w 0 []))))) cnt head fl c ∅ recs)
    as (f' & E & Ht); [reflexivity|reflexivity|exact Hlog|exact Hd|exact Hc|].
  exists f'. split; [exact E|]. by apply disk_torn_empty.
Qed.

(** Recovery after a crash that left the transaction [t] committed in the log and
    any of its pages torn in the main file. *)
Lemma Open_committed f w cnt head fl c recs t D :
  disk_torn f cnt head fl c D -> torn_log w recs ->
  committed recs t = true -> (forall t', t' <> t -> committed recs t' = false) ->
  batch_ok c (applied (txn_records t recs)) -> D ⊆ dom (applied (txn_records t recs)) ->
  exists f', Open None (newPager f w 0 []) = (Ok tt, opened f' cnt head fl) /\
    disk_inv f' cnt head fl (applied (txn_records t recs) ∪ c).
Proof.
  intros Hd Hlog Hc Ho Hb HD. rewrite (Open_replays _ _ _ _ _ _ _ Hd).
  edestruct (replay_committed (with_walSize (zlen w) (with_count cnt (with_free head (zlen fl)
    (list_to_set fl) (with_state stateOpen (newPager f w 0 []))))) cnt head fl c D recs t)
    as (f' & E & Ht); [reflexivity|reflexivity|exact Hlog|exact Hd|exact Hc|exact Ho|exact Hb|].
  exists f'. split; [exact E|]. apply disk_torn_empty.
  by replace ∅ with (D ∖ dom (applied (txn_records t recs))) by set_solver.
Qed.
End opening.
