(* ===== verification/PagerCrash.v ===== *)
(** What the pager promises across errors, crashes and restarts.

    The first part runs the operations of [Pager.v] under an arbitrary schedule
    of I/O outcomes and describes the files they leave behind.  A crash is an
    operation cut short at one of its I/O calls: the code returns at the first
    error, so the files after a failed call are the files of a crash at that
    call, and [restart] followed by [Open] is the recovery.  The theorems say
    that a transaction is all or nothing under every schedule, that recovery
    shows the last committed pages, that a clean shutdown loses nothing and that
    either copy of the header is enough to open the file. *)

From Stdlib Require Import ZArith Lia.
From stdpp Require Import gmap.
From S2P Require Import Prelude Crc Page Monad Pager PagerSpec PagerSim PagerRefine.
Open Scope Z_scope.
Import Pager.
Open Scope st_scope.

(** * I/O under an arbitrary schedule *)

(** [p'] is [p] but for its files and its remaining schedule. *)
Definition io_only (p p' : filePager) : Prop :=
  p' = with_sched (sched p') (with_wal (walFile p') (with_main (mainFile p') p)).

Lemma io_only_refl p : io_only p p.
Proof. by destruct p. Qed.

Lemma io_only_trans p q r : io_only p q -> io_only q r -> io_only p r.
Proof. unfold io_only. intros -> ->. by destruct p. Qed.

Lemma io_only_fields p p' :
  io_only p p' -> CheckpointThreshold p' = CheckpointThreshold p /\ walSize p' = walSize p /\
    state p' = state p /\ inTxn p' = inTxn p /\ txnBuffer p' = txnBuffer p.
Proof. unfold io_only. intros ->. by destruct p. Qed.

Ltac io_fields :=
  repeat match goal with H : io_only _ _ |- _ => apply io_only_fields in H as (? & ? & ? & ? & ?) end.

Lemma draw_any p : exists o p', draw p = (Ok o, p') /\ io_only p p' /\
  mainFile p' = mainFile p /\ walFile p' = walFile p.
Proof.
  unfold draw. destruct (sched p) as [|o l] eqn:E.
  - exists IoOk, p. split; [done|]. split; [apply io_only_refl|done].
  - exists o, (with_sched l p). split; [done|]. split; [by destruct p|done].
Qed.

Lemma io_call_any p r p' :
  io_call p = (r, p') -> io_only p p' /\ mainFile p' = mainFile p /\ walFile p' = walFile p.
Proof.
  unfold io_call. destruct (draw_any p) as (o & q & E & Hio & Hm & Hw).
  erewrite bind_ok by exact E. destruct o; intros [= <- <-]; done.
Qed.

Lemma main_write_any d off p r p' :
  0 <= off -> main_write d off p = (r, p') ->
  io_only p p' /\ walFile p' = walFile p /\
  exists k, mainFile p' = write_at (mainFile p) off (ztake k d) /\ (r = Ok tt -> ztake k d = d).
Proof.
  intros Hoff. unfold main_write, write_full, io_write.
  destruct (draw_any p) as (o & q & E & Hio & Hm & Hw). unfold bind at 1 2. rewrite E.
  rewrite (proj2 (Z.ltb_ge _ _)) by lia.
  assert (forall f, io_only p (with_main f q)) as Hio'.
  { intros f. unfold io_only in *. rewrite Hio. by destruct p. }
  destruct o as [|k|k]; cbn [bind modify ret fail].
  - rewrite Z.eqb_refl. intros [= <- <-]. split; [apply Hio'|]. split; [exact Hw|].
    exists (zlen d). cbn [mainFile with_main]. rewrite Hm, ztake_all by lia. done.
  - intros [= <- <-]. split; [apply Hio'|]. split; [exact Hw|]. exists k.
    cbn [mainFile with_main]. by rewrite Hm.
  - destruct (zlen (ztake k d) =? zlen d) eqn:El; intros [= <- <-];
      (split; [apply Hio'|]); (split; [exact Hw|]); exists k; cbn [mainFile with_main];
      rewrite Hm; (split; [done|]); [|done].
    intros _. apply Z.eqb_eq in El. unfold zlen, ztake in *. rewrite length_take in El.
    apply take_ge. lia.
Qed.

Lemma wal_write_any d off p r p' :
  0 <= off -> wal_write d off p = (r, p') ->
  io_only p p' /\ mainFile p' = mainFile p /\
  exists k, walFile p' = write_at (walFile p) off (ztake k d) /\ (r = Ok tt -> ztake k d = d).
Proof.
  intros Hoff. unfold wal_write, write_full, io_write.
  destruct (draw_any p) as (o & q & E & Hio & Hm & Hw). unfold bind at 1 2. rewrite E.
  rewrite (proj2 (Z.ltb_ge _ _)) by lia.
  assert (forall f, io_only p (with_wal f q)) as Hio'.
  { intros f. unfold io_only in *. rewrite Hio. by destruct p. }
  destruct o as [|k|k]; cbn [bind modify ret fail].
  - rewrite Z.eqb_refl. intros [= <- <-]. split; [apply Hio'|]. split; [exact Hm|].
    exists (zlen d). cbn [walFile with_wal]. rewrite Hw, ztake_all by lia. done.
  - intros [= <- <-]. split; [apply Hio'|]. split; [exact Hm|]. exists k.
    cbn [walFile with_wal]. by rewrite Hw.
  - destruct (zlen (ztake k d) =? zlen d) eqn:El; intros [= <- <-];
      (split; [apply Hio'|]); (split; [exact Hm|]); exists k; cbn [walFile with_wal];
      rewrite Hw; (split; [done|]); [|done].
    intros _. apply Z.eqb_eq in El. unfold zlen, ztake in *. rewrite length_take in El.
    apply take_ge. lia.
Qed.

Lemma wal_read_any n off p r p' :
  wal_read n off p = (r, p') ->
  io_only p p' /\ mainFile p' = mainFile p /\ walFile p' = walFile p /\
  (forall d, r = Ok d -> d = slice (walFile p) off (off + n)).
Proof.
  unfold wal_read, io_read. rewrite bind_gets. unfold bind.
  destruct (io_call p) as [[]q] eqn:E; apply io_call_any in E as (Hio & Hm & Hw).
  - destruct (_ || _); intros [= <- <-]; split_and!; try done. by intros d [= <-].
  - intros [= <- <-]. done.
Qed.

Lemma bind_inv {A B} (c : M A) (k : A -> M B) p r p' :
  bind c k p = (r, p') ->
  (exists e, c p = (Err e, p') /\ r = Err e) \/ (exists a q, c p = (Ok a, q) /\ k a q = (r, p')).
Proof.
  unfold bind. destruct (c p) as [[a|e] q]; intros E; [right; by exists a, q|left].
  injection E as <- <-. by exists e.
Qed.

(** ** Batches of pages *)

Lemma write_entry_any id body p r p' cnt head fl c D :
  disk_torn (mainFile p) cnt head fl c D -> is_Some (c !! id) -> zlen body = DataPageBodySize ->
  write_entry (id, body) p = (r, p') ->
  io_only p p' /\ walFile p' = walFile p /\
  disk_torn (mainFile p') cnt head fl c ({[id]} ∪ D) /\
  (r = Ok tt -> disk_torn (mainFile p') cnt head fl (<[id := body]> c) (D ∖ {[id]})).
Proof.
  intros Ht Hid Hb. destruct (torn_used _ _ _ _ _ _ _ Ht Hid) as [_ Hr].
  pose proof (zlen_data_image _ Hb) as Hz. unfold write_entry.
  erewrite bind_ok by (unfold lift; rewrite encodeDataPage_image by assumption; reflexivity).
  rewrite page_offset_id by assumption. intros E.
  apply main_write_any in E as (Hio & Hw & k & Hm & Hok); [|unfold PageSize; lia].
  split; [done|]. split; [done|]. rewrite Hm. split; [by apply disk_torn_partial|].
  intros Hr'. rewrite (Hok Hr'). by apply disk_torn_write.
Qed.

Definition entries_ok (c : gmap Z (list byte)) (l : list (Z * list byte)) : Prop :=
  Forall (fun e => zlen (snd e) = DataPageBodySize /\ is_Some (c !! fst e)) l.

Lemma write_list_any l p r p' cnt head fl c D :
  disk_torn (mainFile p) cnt head fl c D -> entries_ok c l ->
  for_each l write_entry p = (r, p') ->
  io_only p p' /\ walFile p' = walFile p /\
  disk_torn (mainFile p') cnt head fl c (list_to_set l.*1 ∪ D).
Proof.
  revert p D. induction l as [|[id body] l IH]; intros p D Ht Hl E.
  - injection E as <- <-. split; [apply io_only_refl|]. simpl. by rewrite union_empty_l_L.
  - apply Forall_cons in Hl as [[Hb Hid] Hl]. cbn [for_each] in E.
    apply bind_inv in E as [(e & E & ->)|(a & q & E & Eq)];
      destruct (write_entry_any _ _ _ _ _ _ _ _ _ _ Ht Hid Hb E) as (Hio & Hw & Ht1 & _).
    + split; [done|]. split; [done|]. eapply disk_torn_weaken; [|..|exact Ht1]; [set_solver|].
      destruct Ht as (f0 & _ & _ & Hin & _). intros j. rewrite fmap_cons, list_to_set_cons.
      intros [[->%elem_of_singleton|Hj]%elem_of_union|Hj]%elem_of_union; [done| |by apply Hin].
      apply elem_of_list_to_set, list_elem_of_fmap in Hj as (e' & -> & He').
      rewrite Forall_forall in Hl. by apply Hl.
    + destruct (IH q ({[id]} ∪ D) Ht1 Hl Eq) as (Hio' & Hw' & Ht2).
      split; [by eapply io_only_trans|]. split; [congruence|].
      rewrite fmap_cons, list_to_set_cons.
      by replace ({[(id, body).1]} ∪ list_to_set l.*1 ∪ D)
        with (list_to_set l.*1 ∪ ({[id]} ∪ D)) by set_solver.
Qed.

Lemma write_list_any_ok l p p' cnt head fl c D :
  disk_torn (mainFile p) cnt head fl c D -> entries_ok c l ->
  for_each l write_entry p = (Ok tt, p') ->
  disk_torn (mainFile p') cnt head fl (fold_left (fun c '(i, b) => <[i := b]> c) l c)
    (D ∖ list_to_set l.*1).
Proof.
  revert p c D. induction l as [|[id body] l IH]; intros p c D Ht Hl E.
  - injection E as <-. simpl. by rewrite difference_empty_L.
  - apply Forall_cons in Hl as [[Hb Hid] Hl]. cbn [for_each] in E.
    apply bind_inv in E as [(e & _ & ?)|([] & q & E & Eq)]; [done|].
    destruct (write_entry_any _ _ _ _ _ _ _ _ _ _ Ht Hid Hb E) as (_ & _ & _ & Ht1).
    specialize (Ht1 eq_refl). eapply IH in Eq; [|exact Ht1|].
    + simpl in *. by rewrite <- difference_difference_l_L.
    + eapply Forall_impl; [exact Hl|]. intros [j b] [? ?]. split; [done|]. simpl in *.
      rewrite lookup_insert_is_Some'. by right.
Qed.

Section any.
Context `{MapRange}.

Lemma write_pages_any m p r p' cnt head fl c D :
  disk_torn (mainFile p) cnt head fl c D -> batch_ok c m -> write_pages m p = (r, p') ->
  io_only p p' /\ walFile p' = walFile p /\
  disk_torn (mainFile p') cnt head fl c (dom m ∪ D) /\
  (r = Ok tt -> disk_torn (mainFile p') cnt head fl (m ∪ c) (D ∖ dom m)).
Proof.
  intros Ht Hb E. destruct (range_keys m) as (Hnd & Hm & Hdom).
  pose proof (batch_range c m Hb) as Hl.
  destruct (write_list_any (range m) p r p' cnt head fl c D Ht Hl E) as (Hio & Hw & Ht').
  rewrite Hdom in Ht'. split_and!; try done. intros ->.
  pose proof (write_list_any_ok (range m) p p' cnt head fl c D Ht Hl E) as Ht''.
  by rewrite fold_insert_union, Hm, Hdom in Ht''.
Qed.

(** Replaying groups whose committed batches are all [m], over pages that
    already contain [m] where they are not torn. *)
Lemma apply_groups_any gs m p r p' cnt head fl c :
  disk_torn (mainFile p) cnt head fl c ∅ -> m ∪ c = c -> batch_ok c m ->
  (forall g, g ∈ gs -> hasEOT (snd g) = true -> applied (snd g) = m) ->
  for_each gs apply_group p = (r, p') ->
  io_only p p' /\ walFile p' = walFile p /\
  disk_torn (mainFile p') cnt head fl c (dom m) /\
  (r = Ok tt -> disk_torn (mainFile p') cnt head fl c ∅).
Proof.
  intros Ht Habs Hb. revert p Ht. induction gs as [|g gs IH]; intros p Ht Hg E.
  - injection E as <- <-. split; [apply io_only_refl|]. split; [done|]. split; [|done].
    eapply disk_torn_weaken; [|..|exact Ht]; [set_solver|].
    intros id [b Hl]%elem_of_dom. by apply (Hb id b).
  - cbn [for_each] in E. assert (forall g', g' ∈ gs -> hasEOT (snd g') = true -> applied (snd g') = m)
      as Hg' by (intros; apply Hg; [by constructor|done]).
    unfold apply_group at 1 in E. destruct (hasEOT (snd g)) eqn:Eg.
    + rewrite (Hg g ltac:(constructor) Eg) in E.
      apply bind_inv in E as [(e & E & ->)|([] & q & E & Eq)];
        apply bind_inv in E as [(e' & E & Ee)|(u & q' & E & Ee)]; try discriminate Ee;
        destruct (write_pages_any m _ _ _ _ _ _ _ _ Ht Hb E) as (Hio & Hw & Ht1 & Hok);
        rewrite union_empty_r_L in Ht1.
      * done.
      * apply io_call_any in Ee as (Hio' & Hm' & Hw').
        split; [by eapply io_only_trans|]. split; [congruence|]. by rewrite Hm'.
      * apply io_call_any in Ee as (Hio' & Hm' & Hw'). destruct u. specialize (Hok eq_refl).
        rewrite Habs in Hok. destruct (IH q) as (Hio2 & Hw2 & Ht2 & Hok2); try done.
        { rewrite Hm'. by replace (∅ : gset Z) with (∅ ∖ dom m : gset Z) by set_solver. }
        split; [eapply io_only_trans; [exact Hio|]; by eapply io_only_trans|].
        split; [congruence|]. done.
    + rewrite bind_ret in E. by apply IH.
Qed.
End any.

(** * Commit under an arbitrary schedule *)

(** The files at the end of a commit, successful or cut short. *)
Inductive commit_files (p : filePager) (fl : list Z) (c : gmap Z (list byte))
  (recs : list walRecord) (r : res pager_err unit) (p' : filePager) : Prop :=
| cf_before k :
    (* the end marker is missing or torn *)
    is_ok r = false -> mainFile p' = mainFile p ->
    0 <= k < zlen (wal_bytes (eot_record (currentTxn p))) ->
    walFile p' = wal_stream recs ++ ztake k (wal_bytes (eot_record (currentTxn p))) ->
    commit_files p fl c recs r p'
| cf_logged c' :
    (* the log is complete, the main file may have torn pages of the transaction *)
    is_ok r = false -> c' = c \/ c' = txnBuffer p ∪ c ->
    disk_torn (mainFile p') (pageCount p) (freeListHead p) fl c' (dom (txnBuffer p)) ->
    walFile p' = wal_stream (recs ++ [eot_record (currentTxn p)]) ->
    commit_files p fl c recs r p'
| cf_done :
    (* the main file is complete and the log is empty *)
    disk_torn (mainFile p') (pageCount p) (freeListHead p) fl (txnBuffer p ∪ c) ∅ ->
    walFile p' = [] ->
    commit_files p fl c recs r p'.

Section commit.
Context `{MapRange}.
Context {p : filePager} {n : nat} {fl : list Z} {c : gmap Z (list byte)} {recs : list walRecord}.
Hypothesis Hi : pager_inv p n fl c recs.
Hypothesis Htx : inTxn p = true.

Let t := currentTxn p.
Let m := txnBuffer p.

Lemma commit_batch : batch_ok c m /\ batch_ok (m ∪ c) m.
Proof using Hi Htx.
  destruct (pi_txn _ _ _ _ _ Hi Htx) as (_ & _ & Hb). split; [done|by apply batch_ok_union].
Qed.

Lemma torn_all c' D :
  c' = c \/ c' = m ∪ c -> D ⊆ dom m -> forall f,
  disk_torn f (pageCount p) (freeListHead p) fl c' D ->
  disk_torn f (pageCount p) (freeListHead p) fl c' (dom m).
Proof using Hi Htx.
  intros Hc HD f. apply disk_torn_weaken; [done|].
  intros id [b Hl]%elem_of_dom. destruct commit_batch as [H1 H2].
  destruct Hc as [->| ->]; [by apply (H1 id b)|by apply (H2 id b)].
Qed.

(** The marker that reached the log. *)
Lemma eot_write_cases k :
  let w := write_at (walFile p) (walSize p) (ztake k (encodeEOTMarker t)) in
  (exists k', 0 <= k' < zlen (wal_bytes (eot_record t)) /\
     w = wal_stream recs ++ ztake k' (wal_bytes (eot_record t))) \/
  w = wal_stream (recs ++ [eot_record t]).
Proof using Hi.
  cbn zeta. rewrite (pi_walSize _ _ _ _ _ Hi), write_at_end, (pi_wal _ _ _ _ _ Hi).
  rewrite encodeEOTMarker_image.
  change (wal_image t walEOTPageID []) with (wal_bytes (eot_record t)).
  pose proof (zlen_wal_bytes (eot_record t)).
  destruct (Z.lt_ge_cases k (zlen (wal_bytes (eot_record t)))).
  - left. destruct (Z.lt_ge_cases k 0).
    + exists 0. split; [lia|]. by rewrite (ltac:(unfold ztake; f_equal; lia) :
        ztake k (wal_bytes (eot_record t)) = ztake 0 (wal_bytes (eot_record t))).
    + exists k. split; [lia|done].
  - right. rewrite ztake_all by lia. by rewrite wal_stream_app, wal_stream_one.
Qed.

(** The checkpoint at the end of a commit. *)
Lemma checkpoint_files q r q' :
  disk_torn (mainFile q) (pageCount p) (freeListHead p) fl (m ∪ c) ∅ ->
  walFile q = wal_stream (recs ++ [eot_record t]) -> walSize q = zlen (walFile q) ->
  checkpoint q = (r, q') ->
  CheckpointThreshold q' = CheckpointThreshold q /\ commit_files p fl c recs r q'.
Proof using Hi Htx.
  intros Ht Hw Hsz. unfold checkpoint, replayWALInternal. rewrite bind_gets.
  pose proof (inv_commit_log Hi Htx) as Hok. fold t in Hok.
  destruct (commit_batch) as [_ Hb].
  assert (forall q2, disk_torn (mainFile q2) (pageCount p) (freeListHead p) fl (m ∪ c) ∅ ->
    walFile q2 = wal_stream (recs ++ [eot_record t]) -> forall e,
    commit_files p fl c recs (Err e) q2) as Hmid.
  { intros q2 Ht2 Hw2 e. eapply cf_logged; [done|by right| |done].
    eapply torn_all; [by right| |exact Ht2]. set_solver. }
  destruct (walSize q =? 0) eqn:E0.
  { apply Z.eqb_eq in E0. rewrite E0, Hw, wal_stream_app, zlen_app, wal_stream_one in Hsz.
    pose proof (zlen_wal_bytes (eot_record t)). pose proof (zlen_nonneg (wal_stream recs)). lia. }
  intros E. apply bind_inv in E as [(e & E & ->)|(d & q1 & E & Eq)];
    apply wal_read_any in E as (Hio1 & Hm1 & Hw1 & Hd).
  { split; [io_fields; congruence|]. apply Hmid; congruence. }
  rewrite (Hd d eq_refl), slice_full in Eq by lia.
  rewrite Hw in Eq at 1 2. unfold lift in Eq. rewrite parse_wal_full in Eq by done.
  unfold bind at 1 in Eq.
  assert (exists r0 rs, recs ++ [eot_record t] = r0 :: rs) as (r0 & rs & Er).
  { destruct recs; simpl; by eexists _, _. }
  rewrite Er in Eq. rewrite <- Er in Eq.
  destruct (committed_eot (nextTxnID p) recs t t) as [Hc1 Happ]; [apply Hi|].
  destruct (pi_txn _ _ _ _ _ Hi Htx) as (_ & Hbuf & _). fold t m in Hbuf.
  assert (forall g, g ∈ group_records (recs ++ [eot_record t]) ->
    hasEOT (snd g) = true -> applied (snd g) = m) as Hg.
  { intros [t' rs'] Hin Heot. simpl in *. rewrite (group_in _ _ _ Hin) in *.
    destruct (committed_eot (nextTxnID p) recs t t') as [Hc2 _]; [apply Hi|].
    unfold committed in Hc2. rewrite Hc2 in Heot. apply Z.eqb_eq in Heot as <-.
    rewrite Happ. symmetry. exact Hbuf. }
  apply bind_inv in Eq as [(e & E1 & ->)|(u & q2 & E1 & E2)];
    (eapply apply_groups_any in E1; [|by rewrite Hm1|apply union_twice|done|done]);
    destruct E1 as (Hio2 & Hw2 & Ht2 & Hok2).
  { split; [io_fields; congruence|]. eapply cf_logged; [done|by right|exact Ht2|].
    rewrite Hw2, Hw1. exact Hw. }
  destruct u. specialize (Hok2 eq_refl).
  unfold wal_truncate in E2. apply bind_inv in E2 as [(e & E2 & ->)|(u & q3 & E2 & E3)].
  - apply bind_inv in E2 as [(e' & E2 & _)|(u & q3 & E2 & ?)]; [|done].
    apply io_call_any in E2 as (Hio3 & Hm3 & Hw3).
    split; [io_fields; congruence|]. apply Hmid; congruence.
  - apply bind_inv in E2 as [(e' & _ & ?)|([] & q4 & E2 & E4)]; [done|].
    apply io_call_any in E2 as (Hio3 & Hm3 & Hw3). injection E4 as _ <-. injection E3 as <- <-.
    cbn. split; [io_fields; congruence|]. apply cf_done; [|done]. cbn. by rewrite Hm3.
Qed.

Lemma CommitTx_files l r p' :
  CommitTx None (with_sched l p) = (r, p') ->
  CheckpointThreshold p' = 0 /\ commit_files p fl c recs r p'.
Proof using Hi Htx.
  unfold CommitTx. rewrite op_guards by apply Hi. rewrite bind_gets.
  change (inTxn (with_sched l p)) with (inTxn p). rewrite Htx. cbn [negb].
  rewrite !bind_gets. change (currentTxn (with_sched l p)) with t.
  change (walSize (with_sched l p)) with (walSize p).
  pose proof (zlen_nonneg (walFile p)) as Hw0. pose proof (pi_walSize _ _ _ _ _ Hi) as Hsz.
  pose proof (pi_threshold _ _ _ _ _ Hi) as Hth.
  destruct commit_batch as [Hb _]. pose proof (disk_torn_intro _ _ _ _ _ (pi_disk _ _ _ _ _ Hi)) as Ht0.
  intros E. apply bind_inv in E as [(e & E & ->)|([] & q1 & E & E1)];
    apply wal_write_any in E as (Hio1 & Hm1 & k & Hw1 & Hok1); try lia;
    cbn [mainFile walFile with_sched] in Hm1, Hw1.
  { split; [io_fields; cbn in *; congruence|].
    destruct (eot_write_cases k) as [(k' & Hk' & Hw)|Hw]; cbn zeta in Hw.
    - eapply cf_before; [done|exact Hm1|exact Hk'|]. rewrite Hw1. exact Hw.
    - eapply (cf_logged _ _ _ _ _ _ c); [done|by left| |rewrite Hw1; exact Hw].
      rewrite Hm1. eapply torn_all; [by left| |exact Ht0]. set_solver. }
  rewrite (Hok1 eq_refl) in Hw1. unfold t in Hw1. rewrite (inv_commit_wal Hi) in Hw1.
  apply bind_inv in E1 as [(e & E & ->)|([] & q2 & E & E2)];
    apply io_call_any in E as (Hio2 & Hm2 & Hw2).
  { split; [io_fields; cbn in *; congruence|].
    eapply (cf_logged _ _ _ _ _ _ c); [done|by left| |rewrite Hw2; exact Hw1].
    rewrite Hm2, Hm1. eapply torn_all; [by left| |exact Ht0]. set_solver. }
  rewrite bind_gets, bind_modify in E2.
  assert (txnBuffer q2 = m) as Hbuf by (unfold m; io_fields; cbn in *; congruence). rewrite Hbuf in E2.
  match type of E2 with bind (write_pages m) _ ?q = _ => set (q3 := q) in E2 end.
  assert (disk_torn (mainFile q3) (pageCount p) (freeListHead p) fl c ∅) as Ht3.
  { change (mainFile q3) with (mainFile q2). by rewrite Hm2, Hm1. }
  assert (walFile q3 = wal_stream (recs ++ [eot_record t])) as Hw3.
  { change (walFile q3) with (walFile q2). by rewrite Hw2. }
  assert (CheckpointThreshold q3 = 0) as Hth3.
  { change (CheckpointThreshold q3) with (CheckpointThreshold q2). io_fields; cbn in *; congruence. }
  assert (walSize q3 = zlen (walFile q3)) as Hsz3.
  { rewrite Hw3, wal_stream_app, zlen_app, wal_stream_one.
    change (walSize q3) with (walSize p + zlen (encodeEOTMarker t)).
    by rewrite Hsz, (pi_wal _ _ _ _ _ Hi), encodeEOTMarker_image. }
  clearbody q3. clear Hio1 Hio2 Hbuf.
  apply bind_inv in E2 as [(e & E & ->)|([] & q4 & E & E4)];
    apply (write_pages_any m _ _ _ _ _ _ _ _ Ht3 Hb) in E as (Hio4 & Hw4 & Ht4 & Hok4);
    rewrite union_empty_r_L in Ht4.
  { split; [io_fields; congruence|].
    eapply (cf_logged _ _ _ _ _ _ c); [done|by left|exact Ht4|]. rewrite Hw4. exact Hw3. }
  specialize (Hok4 eq_refl). replace (∅ ∖ dom m : gset Z) with (∅ : gset Z) in Hok4 by set_solver.
  apply bind_inv in E4 as [(e & E & ->)|([] & q5 & E & E5)];
    apply io_call_any in E as (Hio5 & Hm5 & Hw5).
  { split; [io_fields; congruence|].
    eapply cf_logged; [done|by right| |rewrite Hw5, Hw4; exact Hw3]. rewrite Hm5.
    eapply torn_all; [by right| |exact Hok4]. set_solver. }
  rewrite !bind_gets in E5.
  assert (CheckpointThreshold q5 = 0) as Hth5 by (io_fields; congruence).
  rewrite Hth5, Z.eqb_refl in E5. cbn [orb] in E5.
  rewrite <- Hth5. eapply checkpoint_files; [| | |exact E5].
  - by rewrite Hm5.
  - by rewrite Hw5, Hw4.
  - io_fields. congruence.
Qed.
End commit.

(** * Recovery *)

(** The pages a crash may not lose: those of the last commit. *)
Definition committed_pages (v : page_view) : gmap Z (list byte) :=
  match v_tx v with Some saved => saved | None => v_pages v end.

Lemma committed_view p c : committed_pages (view_of p c) = c.
Proof. unfold committed_pages, view_of. by destruct (inTxn p). Qed.

Lemma opened_rel f cnt head fl c n :
  disk_inv f cnt head fl c -> cnt + Z.of_nat n <= max_pages ->
  pager_rel (opened f cnt head fl) n (mkView c None).
Proof. intros Hd Hn. exists fl, c, []. split; [by apply opened_inv|done]. Qed.

Lemma restart_newPager p : CheckpointThreshold p = 0 ->
  restart p = newPager (mainFile p) (walFile p) 0 [].
Proof. unfold restart. by intros ->. Qed.

Lemma torn_log_eot next recs t k :
  Forall (data_record next) recs -> u64 t -> 0 <= k < zlen (wal_bytes (eot_record t)) ->
  torn_log (wal_stream recs ++ ztake k (wal_bytes (eot_record t))) recs.
Proof.
  intros Hf Ht Hk. split; [by eapply data_records_ok|]. exists (eot_record t), k.
  split; [by apply eot_record_ok|done].
Qed.

Section recovery.
Context `{MapRange}.

Lemma inv_recover p n fl c recs w :
  pager_inv p n fl c recs -> torn_log w recs ->
  exists q, Open None (newPager (mainFile p) w 0 []) = (Ok tt, q) /\
    pager_rel q n (mkView c None).
Proof.
  intros Hi Hw. destruct (Open_uncommitted (mainFile p) w (pageCount p) (freeListHead p) fl c recs)
    as (f' & E & Hd); [apply Hi|done| |].
  - intros t. eapply committed_none, Hi.
  - eexists. split; [exact E|]. apply opened_rel; [done|apply Hi].
Qed.


(** a write inside a transaction never endangers what is committed.  However
    its I/O ends, a crash after it recovers the pages from before the
    transaction, and a transaction is invisible until it commits. *)
Theorem txn_write_crash_safe p n v saved id body l r p' :
  pager_rel p n v -> v_tx v = Some saved -> is_Some (v_pages v !! id) ->
  zlen body = DataPageBodySize ->
  WritePage None id body (with_sched l p) = (r, p') ->
  exists q, Open None (restart p') = (Ok tt, q) /\ pager_rel q n (mkView saved None).
Proof.
  intros Hr Hv Hid Hb E. destruct (rel_txn p n v saved Hr Hv) as (fl & recs & Hi & Htx & Hvp).
  assert (view_of p saved = v) as Hview.
  { unfold view_of. rewrite Htx. destruct v. simpl in *. congruence. }
  rewrite <- Hview in Hid. apply (inv_view_used Hi) in Hid as Hused.
  destruct (inv_used Hi id Hused) as [Hrg Hm].
  unfold WritePage in E. rewrite op_guards in E by apply Hi.
  erewrite bind_ok in E by (by apply validatePageID_ok). rewrite bind_gets in E.
  rewrite decide_False in E by (by apply (inv_not_free Hi)).
  rewrite Hb, Z.eqb_refl in E. cbn [negb] in E. rewrite bind_gets in E.
  change (inTxn (with_sched l p)) with (inTxn p) in E. rewrite Htx in E. cbn [negb] in E.
  unfold appendWAL in E. rewrite !bind_gets in E.
  change (currentTxn (with_sched l p)) with (currentTxn p) in E.
  change (walSize (with_sched l p)) with (walSize p) in E.
  rewrite encodeWALRecord_image in E by (rewrite Hb; unfold DataPageBodySize, PageSize; lia).
  pose proof (zlen_nonneg (walFile p)) as Hw0. pose proof (pi_walSize _ _ _ _ _ Hi) as Hsz.
  pose proof (pi_threshold _ _ _ _ _ Hi) as Hth. pose proof (pi_wal _ _ _ _ _ Hi) as Hwal.
  destruct (pi_txn _ _ _ _ _ Hi Htx) as (Hcur & _).
  pose proof (inv_next_u64 Hi) as Hu. pose proof (pi_recs _ _ _ _ _ Hi) as Hrecs.
  set (rec := mkWal (currentTxn p) id body).
  assert (data_record (nextTxnID p) rec) as Hrec.
  { unfold data_record, wal_ok, u64, walEOTPageID, max_pages, rec in *. simpl. rewrite Hcur in *.
    split_and!; lia. }
  assert (CheckpointThreshold p' = 0 /\ mainFile p' = mainFile p /\
    exists k, walFile p' = wal_stream recs ++ ztake k (wal_bytes rec)) as (Hth' & Hm' & k & Hw').
  { change (wal_image (currentTxn p) id body) with (wal_bytes rec) in E.
    apply bind_inv in E as [(e & E & ->)|([] & q1 & E & E1)];
      apply wal_write_any in E as (Hio1 & Hm1 & k & Hw1 & _); try lia;
      cbn [mainFile walFile with_sched] in Hm1, Hw1; rewrite Hsz, write_at_end, Hwal in Hw1.
    - split; [io_fields; cbn in *; congruence|]. split; [done|by exists k].
    - apply bind_inv in E1 as [(e & E & ->)|([] & q2 & E & E2)];
        apply io_call_any in E as (Hio2 & Hm2 & Hw2).
      + split; [io_fields; cbn in *; congruence|]. split; [congruence|]. exists k. congruence.
      + injection E2 as _ <-. split; [io_fields; cbn in *; congruence|].
        cbn [mainFile walFile with_txn with_walSize]. split; [congruence|]. exists k. congruence. }
  rewrite restart_newPager, Hm' by done.
  destruct (Z.lt_ge_cases k (zlen (wal_bytes rec))) as [Hk|Hk].
  - apply (inv_recover p n fl saved recs); [done|]. rewrite Hw'.
    split; [by eapply data_records_ok|]. exists rec, (Z.max 0 k). split; [apply Hrec|].
    pose proof (zlen_wal_bytes rec). split; [lia|]. f_equal. unfold ztake. f_equal. lia.
  - destruct (Open_uncommitted (mainFile p) (walFile p') (pageCount p) (freeListHead p) fl saved
      (recs ++ [rec])) as (f' & Eo & Hd); [apply Hi| | |].
    + rewrite Hw', ztake_all, <- wal_stream_one, <- wal_stream_app by done.
      apply torn_log_full, Forall_app. split; [by eapply data_records_ok|]. constructor; [apply Hrec|constructor].
    + intros t. eapply (committed_none (nextTxnID p)). apply Forall_app. split; [done|by constructor].
    + eexists. split; [exact Eo|]. apply opened_rel; [done|apply Hi].
Qed.

(** a crash between operations loses nothing that was committed: opening the
    files of a pager at any moment shows the pages of the last commit. *)
Theorem crash_recovers_committed p n v :
  pager_rel p n v ->
  exists q, Open None (restart p) = (Ok tt, q) /\
    pager_rel q n (mkView (committed_pages v) None).
Proof.
  intros (fl & c & recs & Hi & ->). rewrite committed_view, restart_newPager by apply Hi.
  apply (inv_recover p n fl c recs); [done|]. rewrite (pi_wal _ _ _ _ _ Hi).
  eapply torn_log_full, data_records_ok, Hi.
Qed.

(** a clean shutdown succeeds, leaves an empty log, makes every further
    operation fail with [ErrClosed], and opening again shows the committed pages. *)
Theorem clean_shutdown p n v :
  pager_rel p n v ->
  exists p' q, Close None p = (Ok tt, p') /\ walFile p' = [] /\
    (forall id, ReadPage None id p' = (Err ErrClosed, p')) /\
    (forall id body, WritePage None id body p' = (Err ErrClosed, p')) /\
    AllocatePage None p' = (Err ErrClosed, p') /\ Open None p' = (Err ErrClosed, p') /\
    Close None p' = (Err ErrClosed, p') /\
    Open None (restart p') = (Ok tt, q) /\ pager_rel q n (mkView (committed_pages v) None).
Proof.
  intros (fl & c & recs & Hi & ->). rewrite committed_view.
  destruct (replay_nothing p (pageCount p) (freeListHead p) fl c ∅ recs) as (f' & E & Ht).
  { apply Hi. } { apply Hi. }
  { rewrite (pi_wal _ _ _ _ _ Hi). eapply torn_log_full, data_records_ok, Hi. }
  { apply disk_torn_intro, Hi. } { intros t. eapply committed_none, Hi. }
  destruct (Open_uncommitted f' [] (pageCount p) (freeListHead p) fl c []) as (f2 & E2 & Hd2);
    [by apply disk_torn_empty|by apply (torn_log_full [])|done|].
  pose proof (pi_sched _ _ _ _ _ Hi) as Hs. pose proof (pi_threshold _ _ _ _ _ Hi) as Hth.
  set (p' := with_state stateClosed (with_walSize 0 (with_wal [] (with_main f' p)))).
  exists p', (opened f2 (pageCount p) (freeListHead p) fl). split_and!; try reflexivity.
  - unfold Close. erewrite bind_ok by (apply checkState_open, Hi).
    unfold checkpoint. erewrite bind_ok by exact E.
    do 3 erewrite bind_ok by (by apply io_call_ok). reflexivity.
  - unfold Open, checkCtx. rewrite bind_ret, bind_gets. cbn [openErr p' with_state].
    cbn. by rewrite (pi_openErr _ _ _ _ _ Hi).
  - rewrite restart_newPager by (exact Hth). exact E2.
  - apply opened_rel; [done|apply Hi].
Qed.

(** The file [Open] creates. *)
Definition fresh_file : list byte := write_headers [] (header_of 2 freeListSentinel 0).

Lemma write_at_nil off d : 0 <= off -> write_at [] off d = zrep off x00 ++ d.
Proof.
  intros Ho. pose proof (zlen_nonneg d). unfold write_at, splice. rewrite app_nil_l.
  replace (off - zlen []) with off by (change (zlen []) with 0; lia).
  rewrite ztake_all, zdrop_all, app_nil_r by (rewrite zlen_rep; lia). done.
Qed.

(** Two pages written to an empty file, the second one first. *)
Lemma two_pages d :
  zlen d = PageSize ->
  let f := write_at (write_at [] (1 * PageSize) d) (0 * PageSize) d in
  zlen f = 2 * PageSize /\ page_img f 0 = d /\ page_img f 1 = d.
Proof.
  intros Hd f. set (f1 := write_at [] (1 * PageSize) d).
  assert (0 <= PageSize) as HP by (unfold PageSize; lia).
  assert (zlen f1 = 2 * PageSize /\ page_img f1 1 = d) as [Hl1 Hp1].
  { unfold f1. rewrite write_at_nil by lia. rewrite Z.mul_1_l. unfold page_img.
    clear f f1. generalize dependent PageSize. intros P Hd HP.
    pose proof (zlen_rep P x00 HP) as Hz. rewrite zlen_app, Hz, Hd. split; [lia|].
    rewrite slice_app_r, Hz by lia. apply slice_full; lia. }
  unfold f. fold f1. split; [|split].
  - rewrite (zlen_write_page _ 2); [lia|assumption|lia|assumption].
  - apply (page_img_write_eq _ 2); [assumption|lia|assumption].
  - rewrite (page_img_write_ne _ 2); [assumption|assumption|lia|assumption|lia|lia].
Qed.

Lemma fresh_disk : disk_inv fresh_file 2 freeListSentinel [] ∅.
Proof.
  destruct (two_pages (encodeHeader (header_of 2 freeListSentinel 0))) as (Hl & H0 & H1);
    [apply zlen_encodeHeader|].
  split.
  - unfold max_pages. lia.
  - exact Hl.
  - exact H0.
  - exact H1.
  - clear. intros id. split; [lia|]. intros [Hin|[b Hb]]; [by apply elem_of_nil in Hin|].
    by rewrite lookup_empty in Hb.
  - intros id _. apply lookup_empty.
  - clear. intros id b Hb. by rewrite lookup_empty in Hb.
  - reflexivity.
  - constructor.
Qed.

Lemma fresh_pager n :
  2 + Z.of_nat n <= max_pages ->
  exists q, Open None (newPager [] [] 0 []) = (Ok tt, q) /\ pager_rel q n (mkView ∅ None) /\
    PageCount None q = (Ok FirstDataPageID, q).
Proof.
  intros Hn. exists (opened fresh_file 2 freeListSentinel []). split.
  - unfold Open, checkCtx. rewrite bind_ret, bind_gets. cbn [openErr newPager].
    rewrite bind_gets. cbn [state newPager]. rewrite decide_False by discriminate.
    rewrite bool_decide_true by reflexivity. cbn [negb].
    erewrite bind_ok by (apply io_call_ok; reflexivity). rewrite bind_gets.
    cbn [mainFile newPager]. change (zlen [] =? 0) with true. cbv iota.
    erewrite bind_ok by (apply writeHeader_ok; reflexivity). reflexivity.
  - split; [apply opened_rel; [apply fresh_disk|done]|done].
Qed.

(** Opening an empty file creates a database with no pages. *)
Theorem fresh_open n :
  2 + Z.of_nat n <= max_pages ->
  exists q, Open None (newPager [] [] 0 []) = (Ok tt, q) /\ pager_rel q n (mkView ∅ None) /\
    PageCount None q = (Ok FirstDataPageID, q).
Proof. apply fresh_pager. Qed.
End recovery.
