(* ===== verification/PagerTrace.v ===== *)
(** Whole runs of the pager against the abstract page store.

    [spec_step] is the contract of the pager as a step relation on [page_view],
    with the error each illegal request gets; [pager_run_refines] says that any
    sequence of requests to a healthy pager of [Pager.v] is a run of the
    contract.  The second part is about damage: a header lost in either copy,
    and what happens when the pager is asked to free its own mirror header. *)

From Stdlib Require Import ZArith Lia.
From stdpp Require Import gmap.
From S2P Require Import Prelude Crc Page Monad Pager PagerSpec PagerSim PagerRefine PagerCrash.
Open Scope Z_scope.
Import Pager.
Open Scope st_scope.

(** * Requests and answers *)

Inductive request : Type :=
| RRead (id : Z) | RWrite (id : Z) (body : list byte) | RAlloc | RFree (id : Z)
| RBegin | RCommit | RRollback.

Inductive answer : Type :=
| APage (r : res pager_err (list byte)) | AId (r : res pager_err Z) | ADone (r : res pager_err unit).

Definition on_fst {A B C} (f : A -> B) (x : A * C) : B * C := (f (fst x), snd x).

Section trace.
Context `{MapRange}.

Definition serve (q : request) (p : filePager) : answer * filePager :=
  match q with
  | RRead id => on_fst APage (ReadPage None id p)
  | RWrite id body => on_fst ADone (WritePage None id body p)
  | RAlloc => on_fst AId (AllocatePage None p)
  | RFree id => on_fst ADone (FreePage None id p)
  | RBegin => on_fst ADone (BeginTx None p)
  | RCommit => on_fst ADone (CommitTx None p)
  | RRollback => on_fst ADone (RollbackTx None p)
  end.

Fixpoint serve_all (qs : list request) (p : filePager) : list answer * filePager :=
  match qs with
  | [] => ([], p)
  | q :: qs' =>
      let '(a, p1) := serve q p in
      let '(l, p2) := serve_all qs' p1 in (a :: l, p2)
  end.
End trace.

(** * The contract *)

Inductive spec_step (v : page_view) : request -> answer -> page_view -> Prop :=
| sp_read id body :
    v_pages v !! id = Some body -> spec_step v (RRead id) (APage (Ok body)) v
| sp_read_invalid id :
    v_pages v !! id = None -> spec_step v (RRead id) (APage (Err ErrInvalidPageID)) v
| sp_write id body :
    is_Some (v_pages v !! id) -> zlen body = DataPageBodySize ->
    spec_step v (RWrite id body) (ADone (Ok tt)) (mkView (<[id := body]> (v_pages v)) (v_tx v))
| sp_write_size id body :
    is_Some (v_pages v !! id) -> zlen body <> DataPageBodySize ->
    spec_step v (RWrite id body) (ADone (Err ErrBodySizeMismatch)) v
| sp_write_invalid id body :
    v_pages v !! id = None -> spec_step v (RWrite id body) (ADone (Err ErrInvalidPageID)) v
| sp_alloc id :
    v_tx v = None -> v_pages v !! id = None -> FirstDataPageID <= id < max_pages ->
    spec_step v RAlloc (AId (Ok id)) (mkView (<[id := zero_body]> (v_pages v)) None)
| sp_alloc_tx : v_tx v <> None -> spec_step v RAlloc (AId (Err ErrTxUnsupportedOp)) v
| sp_free id :
    v_tx v = None -> is_Some (v_pages v !! id) ->
    spec_step v (RFree id) (ADone (Ok tt)) (mkView (delete id (v_pages v)) None)
| sp_free_invalid id e :
    v_tx v = None -> v_pages v !! id = None -> e = ErrInvalidPageID \/ e = ErrAlreadyFree ->
    spec_step v (RFree id) (ADone (Err e)) v
| sp_free_tx id : v_tx v <> None -> spec_step v (RFree id) (ADone (Err ErrTxUnsupportedOp)) v
| sp_begin :
    v_tx v = None -> spec_step v RBegin (ADone (Ok tt)) (mkView (v_pages v) (Some (v_pages v)))
| sp_begin_tx : v_tx v <> None -> spec_step v RBegin (ADone (Err ErrTxAlreadyActive)) v
| sp_commit :
    v_tx v <> None -> spec_step v RCommit (ADone (Ok tt)) (mkView (v_pages v) None)
| sp_commit_none : v_tx v = None -> spec_step v RCommit (ADone (Err ErrNoActiveTx)) v
| sp_rollback saved :
    v_tx v = Some saved -> spec_step v RRollback (ADone (Ok tt)) (mkView saved None)
| sp_rollback_none : v_tx v = None -> spec_step v RRollback (ADone (Err ErrNoActiveTx)) v.

Inductive spec_run (v : page_view) : list request -> list answer -> page_view -> Prop :=
| sr_nil : spec_run v [] [] v
| sr_cons q qs a l v1 v2 :
    spec_step v q a v1 -> spec_run v1 qs l v2 -> spec_run v (q :: qs) (a :: l) v2.

(** Page numbers are [uint64]; nobody frees the mirror header (see below). *)
Definition request_ok (q : request) : Prop :=
  match q with
  | RRead id | RWrite id _ => u64 id
  | RFree id => u64 id /\ id <> MirrorHeaderPageID
  | _ => True
  end.

Section refine.
Context `{MapRange}.

Lemma rel_state p n v : pager_rel p n v -> state p = stateOpen /\ (inTxn p = true <-> v_tx v <> None).
Proof.
  intros (fl & c & recs & Hi & ->). split; [apply Hi|]. unfold view_of. by destruct (inTxn p).
Qed.

Lemma rel_in_txn p n v : pager_rel p n v -> inTxn p = if v_tx v then true else false.
Proof.
  intros Hr. destruct (rel_state p n v Hr) as [_ Ht].
  destruct (v_tx v), (inTxn p); try done; exfalso; naive_solver.
Qed.

Lemma not_allocated p n v id :
  pager_rel p n v -> 0 <= id -> v_pages v !! id = None ->
  pageCount p <= id \/ id < 2 \/ id ∈ freeSet p.
Proof.
  intros (fl & c & recs & Hi & ->) H0 Hl.
  assert (c !! id = None) as Hc.
  { unfold view_of in Hl. destruct (inTxn p); [|done]. simpl in Hl.
    by apply lookup_union_None in Hl as [_ ?]. }
  destruct (decide (2 <= id < pageCount p)) as [Hr|]; [|lia].
  right. right. rewrite (pi_freeSet _ _ _ _ _ Hi), elem_of_list_to_set.
  apply (di_cover _ _ _ _ _ (pi_disk _ _ _ _ _ Hi)) in Hr as [?|[b Hb]]; [done|congruence].
Qed.

Lemma validate_not_allocated p n v id :
  pager_rel p n v -> u64 id -> v_pages v !! id = None ->
  validatePageID id p = (Err ErrInvalidPageID, p) \/
  validatePageID id p = (Ok tt, p) /\ id ∈ freeSet p.
Proof.
  intros Hr [Hu _] Hl. destruct (decide (2 <= id < pageCount p)).
  - right. split; [by apply validatePageID_ok|].
    destruct (not_allocated p n v id Hr Hu Hl) as [?|[?|?]]; [lia|lia|done].
  - left. by apply validatePageID_bad.
Qed.

Lemma write_unallocated p n v id body :
  pager_rel p n v -> u64 id -> v_pages v !! id = None ->
  WritePage None id body p = (Err ErrInvalidPageID, p).
Proof.
  intros Hr Hu Hl. unfold WritePage. rewrite op_guards by (by eapply rel_state).
  destruct (validate_not_allocated p n v id Hr Hu Hl) as [E|[E Hin]].
  - by erewrite bind_err by exact E.
  - erewrite bind_ok by exact E. rewrite bind_gets, decide_True by done. done.
Qed.

Lemma write_bad_size p n v id body :
  pager_rel p n v -> is_Some (v_pages v !! id) -> zlen body <> DataPageBodySize ->
  WritePage None id body p = (Err ErrBodySizeMismatch, p).
Proof.
  intros (fl & c & recs & Hi & ->) Hid%(inv_view_used Hi) Hb.
  destruct (inv_used Hi id Hid) as [Hrg _]. unfold WritePage. rewrite op_guards by apply Hi.
  erewrite bind_ok by (by apply validatePageID_ok). rewrite bind_gets.
  rewrite decide_False by (by apply (inv_not_free Hi)).
  by rewrite (proj2 (Z.eqb_neq _ _)) by done.
Qed.

Lemma free_unallocated p n v id :
  pager_rel p n v -> v_tx v = None -> u64 id -> id <> MirrorHeaderPageID ->
  v_pages v !! id = None ->
  exists e, FreePage None id p = (Err e, p) /\ (e = ErrInvalidPageID \/ e = ErrAlreadyFree).
Proof.
  intros Hr Hn [Hu _] H1 Hl. unfold FreePage. rewrite op_guards by (by eapply rel_state).
  rewrite bind_gets, (rel_in_txn p n v Hr), Hn.
  destruct (id =? 0) eqn:E0; [exists ErrInvalidPageID; by split; [|left]|].
  rewrite bind_gets. destruct (pageCount p <=? id) eqn:E1; [exists ErrInvalidPageID; by split; [|left]|].
  rewrite bind_gets. apply Z.eqb_neq in E0. apply Z.leb_gt in E1. unfold MirrorHeaderPageID in H1.
  destruct (not_allocated p n v id Hr Hu Hl) as [?|[?|?]]; [lia|lia|].
  rewrite decide_True by done. exists ErrAlreadyFree. by split; [|right].
Qed.

(** Requests that the transaction state forbids. *)
Lemma txn_guards p n v :
  pager_rel p n v ->
  (v_tx v <> None ->
     AllocatePage None p = (Err ErrTxUnsupportedOp, p) /\
     BeginTx None p = (Err ErrTxAlreadyActive, p) /\
     forall id, FreePage None id p = (Err ErrTxUnsupportedOp, p)) /\
  (v_tx v = None ->
     CommitTx None p = (Err ErrNoActiveTx, p) /\ RollbackTx None p = (Err ErrNoActiveTx, p)).
Proof.
  intros Hr. pose proof (proj1 (rel_state p n v Hr)) as Hs.
  pose proof (rel_in_txn p n v Hr) as Ht. split.
  - intros Hv. destruct (v_tx v); [|done]. split; [|split; [|intros id]];
      [unfold AllocatePage|unfold BeginTx|unfold FreePage];
      rewrite op_guards, bind_gets, Ht by done; done.
  - intros Hv. rewrite Hv in Ht. split; [unfold CommitTx|unfold RollbackTx];
      rewrite op_guards, bind_gets, Ht by done; done.
Qed.

Ltac ops_in E :=
  cbv [pg_ReadPage pg_WritePage pg_AllocatePage pg_FreePage pg_BeginTx pg_CommitTx pg_RollbackTx
       filePager_ops] in E.

(** The answer [E] is a step of the contract. *)
Ltac served E :=
  ops_in E; rewrite E; eexists _, _, _; split; [reflexivity|];
  split; [econstructor; first [eassumption|congruence]|assumption].

Lemma serve_refines q p n v :
  pager_rel p (S n) v -> request_ok q ->
  exists a p' v', serve q p = (a, p') /\ spec_step v q a v' /\ pager_rel p' n v'.
Proof.
  intros Hr Hq. destruct (txn_guards p (S n) v Hr) as [Htx Hno].
  pose proof (rel_weaken p (S n) n v ltac:(lia) Hr) as Hr'.
  destruct q as [id|id body| |id| | |]; simpl in *; unfold on_fst.
  - destruct (v_pages v !! id) as [body|] eqn:El.
    + destruct (@pg_read_law filePager _ filePager_spec p n v id body Hr' El) as (p' & E & Hp).
      served E.
    + destruct (@pg_read_unallocated filePager _ filePager_spec p n v id Hr' Hq El) as (p' & E & Hp).
      served E.
  - destruct (v_pages v !! id) as [old|] eqn:El.
    + assert (is_Some (v_pages v !! id)) as Hid by (by eexists).
      destruct (decide (zlen body = DataPageBodySize)) as [Hz|Hz].
      * destruct (rel_write p n v id body Hr' Hid Hz) as (p' & E & Hp). served E.
      * pose proof (write_bad_size p n v id body Hr' Hid Hz) as E. served E.
    + pose proof (write_unallocated p n v id body Hr' Hq El) as E. served E.
  - destruct (v_tx v) eqn:Ev.
    + destruct (Htx ltac:(done)) as (E & _). served E.
    + destruct (rel_alloc p n v Hr Ev) as (id & p' & E & ? & ? & Hp). served E.
  - destruct (v_tx v) eqn:Ev; [destruct (Htx ltac:(done)) as (_ & _ & E); specialize (E id); served E|].
    destruct Hq as [Hu H1]. destruct (v_pages v !! id) as [old|] eqn:El.
    + assert (is_Some (v_pages v !! id)) as Hid by (by eexists).
      destruct (@pg_free_law filePager _ filePager_spec p n v id Hr' Ev Hid) as (p' & E & Hp).
      served E.
    + destruct (free_unallocated p n v id Hr' Ev Hu H1 El) as (e & E & He). served E.
  - destruct (v_tx v) eqn:Ev; [destruct (Htx ltac:(done)) as (_ & E & _); served E|].
    destruct (@pg_begin_law filePager _ filePager_spec p n v Hr Ev) as (p' & E & Hp). served E.
  - destruct (v_tx v) as [saved|] eqn:Ev; [|destruct (Hno eq_refl) as (E & _); served E].
    destruct (@pg_commit_law filePager _ filePager_spec p n v saved Hr' Ev) as (p' & E & Hp).
    served E.
  - destruct (v_tx v) as [saved|] eqn:Ev; [|destruct (Hno eq_refl) as (_ & E); served E].
    destruct (@pg_rollback_law filePager _ filePager_spec p n v saved Hr' Ev) as (p' & E & Hp).
    served E.
Qed.

End refine.

(** * Damage *)

Section damage.
Context `{MapRange}.

Lemma restore_primary f n g d :
  zlen f = n * PageSize -> 2 <= n -> zlen g = PageSize -> page_img f 0 = d -> zlen d = PageSize ->
  write_at (write_at f (0 * PageSize) g) (0 * PageSize) d = f.
Proof.
  intros Hf Hn Hg Hp Hd.
  assert (zlen (write_at f (0 * PageSize) g) = n * PageSize) as Hl.
  { rewrite (zlen_write_page _ n); [f_equal; lia|assumption|lia|assumption]. }
  apply (pages_ext _ _ n).
  - rewrite (zlen_write_page _ n); [f_equal; lia|assumption|lia|assumption].
  - assumption.
  - intros id Hid. destruct (Z.eq_dec id 0) as [->|Hne].
    + rewrite (page_img_write_eq _ n); [congruence|assumption|lia|assumption].
    + rewrite !(page_img_write_ne _ n); [reflexivity|assumption|lia|assumption|lia|lia
        |assumption|lia|assumption|lia|lia].
Qed.

Lemma load_header_mirror f w cnt head fl c D g :
  disk_torn f cnt head fl c D -> zlen g = PageSize -> is_ok (decodeHeader g) = false ->
  load_header (newPager (write_at f (0 * PageSize) g) w 0 [])
  = (Ok (header_of cnt head (zlen fl)), newPager f w 0 []).
Proof.
  intros Ht Hg Hbad.
  destruct (torn_header f w _ _ _ _ _ HeaderPageID Ht) as (_ & Hp0 & Hl & Hc); [by left|].
  destruct (torn_header f w _ _ _ _ _ MirrorHeaderPageID Ht) as (_ & Hp1 & _); [by right|].
  unfold HeaderPageID, MirrorHeaderPageID in Hp0, Hp1.
  set (h := header_of cnt head (zlen fl)) in *. pose proof (zlen_encodeHeader h) as Hz.
  set (f' := write_at f (0 * PageSize) g).
  assert (zlen f' = cnt * PageSize) as Hl'.
  { unfold f'. rewrite (zlen_write_page _ cnt); [f_equal; lia|assumption|lia|assumption]. }
  assert (page_img f' 0 = g) as Hg0 by (apply (page_img_write_eq _ cnt); assumption || lia).
  assert (page_img f' 1 = encodeHeader h) as Hg1.
  { unfold f'. rewrite (page_img_write_ne _ cnt); [assumption|assumption|lia|assumption|lia|lia]. }
  assert (forall id, 0 <= id <= 1 ->
    main_read PageSize (page_offset id) (newPager f' w 0 []) = (Ok (page_img f' id), newPager f' w 0 []))
    as Hread.
  { intros id Hid. apply main_read_page; [reflexivity|unfold max_pages; lia|].
    cbn [mainFile newPager]. rewrite Hl'. unfold PageSize. lia. }
  assert (exists e, decodeHeader g = Err e) as [e He].
  { destruct (decodeHeader g) as [?|e]; [discriminate Hbad|by exists e]. }
  assert (decodeHeader (encodeHeader h) = Ok h) as Hdec.
  { destruct Ht as (f0 & Hd & _). apply decodeHeader_encode, (di_header_ok Hd). }
  unfold load_header, read_header. erewrite bind_ok by (apply Hread; unfold HeaderPageID; lia).
  unfold HeaderPageID. rewrite Hg0. unfold lift at 1. rewrite He.
  erewrite bind_ok by (apply Hread; unfold MirrorHeaderPageID; lia).
  unfold MirrorHeaderPageID. rewrite Hg1. erewrite bind_ok by (unfold lift; rewrite Hdec; reflexivity).
  unfold ignore, bind at 1. unfold io_write, bind at 1, draw. cbn [sched newPager].
  change (page_offset 0) with (0 * PageSize).
  unfold io_call, draw, bind, modify, ret. cbn [sched newPager with_main mainFile].
  change (0 * PageSize <? 0) with false. cbv iota. cbn [snd with_main sched newPager mainFile].
  unfold f'. rewrite (restore_primary f cnt) by assumption. reflexivity.
Qed.

(** the primary header can be lost.  Whatever replaced it, as long as it does
    not decode, opening the file reads the mirror, writes it back and shows the
    committed pages. *)
Theorem primary_header_loss p n v g :
  pager_rel p n v -> zlen g = PageSize -> is_ok (decodeHeader g) = false ->
  exists q, Open None (newPager (write_at (mainFile p) (page_offset HeaderPageID) g) (walFile p) 0 [])
              = (Ok tt, q) /\
    pager_rel q n (mkView (committed_pages v) None) /\
    page_img (mainFile q) HeaderPageID = page_img (mainFile q) MirrorHeaderPageID.
Proof.
  intros (fl & c & recs & Hi & ->) Hg Hbad. rewrite committed_view.
  change (page_offset HeaderPageID) with (0 * PageSize).
  pose proof (disk_torn_intro _ _ _ _ _ (pi_disk _ _ _ _ _ Hi)) as Ht.
  pose proof (load_header_mirror _ (walFile p) _ _ _ _ _ g Ht Hg Hbad) as Hload.
  destruct (torn_header _ [] _ _ _ _ _ HeaderPageID Ht) as (_ & _ & Hl & Hc); [by left|].
  assert (zlen (write_at (mainFile p) (0 * PageSize) g) <> 0) as Hne.
  { rewrite (zlen_write_page _ (pageCount p)) by (assumption || lia). unfold PageSize. lia. }
  rewrite (Open_from_header _ _ _ _ _ _ _ _ Hne Hload Ht).
  rewrite <- (Open_replays _ _ _ _ _ _ _ Ht).
  destruct (Open_uncommitted (mainFile p) (walFile p) (pageCount p) (freeListHead p) fl c recs)
    as (f' & E & Hd); [apply Hi| | |].
  { rewrite (pi_wal _ _ _ _ _ Hi). eapply torn_log_full, data_records_ok, Hi. }
  { intros t. eapply committed_none, Hi. }
  eexists. split; [exact E|]. split; [apply opened_rel; [done|apply Hi]|].
  cbn [mainFile opened]. unfold HeaderPageID, MirrorHeaderPageID.
  rewrite (di_primary _ _ _ _ _ Hd), (di_mirror _ _ _ _ _ Hd). reflexivity.
Qed.

End damage.

(** ** The mirror header can be freed

    [FreePage] refuses page 0 only, so it accepts page 1.  The mirror then heads
    the free list, and the header write of that very call overwrites its
    free-list pointer: the file no longer opens. *)

#[local] Existing Instance sorted_range.

Definition free_mirror : M unit := Open None ;;; FreePage None MirrorHeaderPageID.

Theorem free_mirror_page_destroys_file :
  let '(r, p) := free_mirror (newPager [] [] 0 []) in
  r = Ok tt /\ fst (Open None (restart p)) = Err ErrPageCorrupt.
Proof. vm_compute. done. Qed.

(** ** Allocation from the free list is not atomic

    The page is zeroed before the header stops pointing at it.  A crash (or a
    failed header write) in between leaves a free list that runs into page 0,
    and the file no longer opens.  The schedule lets the two writes and the sync
    of the page pass and fails the header write. *)

Definition crash_in_alloc : M unit :=
  Open None ;;;
  a <- AllocatePage None ;;
  FreePage None a ;;;
  modify (with_sched [IoOk; IoOk; IoOk; IoFail 0]) ;;;
  ignore (AllocatePage None).

Theorem alloc_crash_destroys_file :
  let '(r, p) := crash_in_alloc (newPager [] [] 0 []) in
  r = Ok tt /\ fst (Open None (restart p)) = Err ErrFreeListCorrupt.
Proof. vm_compute. done. Qed.

(** ** A torn record may hide behind a shorter one

    A failed [WritePage] may leave part of a record behind [walSize]; the end
    marker of the next commit overwrites only its first 24 bytes.  A crash before
    the checkpoint then leaves a log that does not parse, and the file no longer
    opens although the commit was logged. *)

Definition commit_over_torn_record : M unit :=
  Open None ;;;
  a <- AllocatePage None ;;
  BeginTx None ;;;
  modify (with_sched [IoFail 3000]) ;;;
  ignore (WritePage None a (zrep DataPageBodySize xff)) ;;;
  modify (with_sched [IoOk; IoOk; IoFail 0]) ;;;
  ignore (CommitTx None).

Theorem torn_record_blocks_recovery :
  let '(r, p) := commit_over_torn_record (newPager [] [] 0 []) in
  r = Ok tt /\ fst (Open None (restart p)) = Err ErrWALCorrupt.
Proof. vm_compute. done. Qed.
