(* ===== verification/PagerMem.v ===== *)
(** A pager without files: the interface of [PagerSpec.v] kept in a map.

    It stands beside the file pager of [Pager.v] as the simplest implementation of
    the contract, and lets the examples run the B+ tree quickly. *)

From Stdlib Require Import ZArith Lia.
From stdpp Require Import gmap.
From S2P Require Import Prelude Page PagerSpec.
Open Scope Z_scope.

Record memPager := mkMem { mp_view : page_view; mp_next : Z }.

Definition empty_mem : memPager := mkMem (mkView ∅ None) FirstDataPageID.

Definition mem_read (id : Z) (p : memPager) : res pager_err (list byte) :=
  match v_pages (mp_view p) !! id with Some b => Ok b | None => Err ErrInvalidPageID end.

Definition mem_write (id : Z) (body : list byte) (p : memPager) : res pager_err unit * memPager :=
  match v_pages (mp_view p) !! id with
  | None => (Err ErrInvalidPageID, p)
  | Some _ =>
      if zlen body =? DataPageBodySize then
        (Ok tt, mkMem (mkView (<[id := body]> (v_pages (mp_view p))) (v_tx (mp_view p))) (mp_next p))
      else (Err ErrBodySizeMismatch, p)
  end.

(** An operation allowed outside of a transaction only, or inside only. *)
Definition mem_outside {A} (e : pager_err) (a : A) (f : memPager -> memPager) (p : memPager)
  : res pager_err A * memPager :=
  match v_tx (mp_view p) with None => (Ok a, f p) | Some _ => (Err e, p) end.

Definition mem_inside (f : gmap Z (list byte) -> memPager -> memPager) (p : memPager)
  : res pager_err unit * memPager :=
  match v_tx (mp_view p) with Some m => (Ok tt, f m p) | None => (Err ErrNoActiveTx, p) end.

Definition set_view (v : page_view) (p : memPager) : memPager := mkMem v (mp_next p).

#[export] Instance memPager_ops : PagerOps memPager := {|
  pg_PageCount _ p := (Ok (mp_next p), p);
  pg_ReadPage _ id p := (mem_read id p, p);
  pg_WritePage _ id body p := mem_write id body p;
  pg_AllocatePage _ p :=
    mem_outside ErrTxUnsupportedOp (mp_next p)
      (fun p => mkMem (mkView (<[mp_next p := zero_body]> (v_pages (mp_view p))) None) (mp_next p + 1)) p;
  pg_FreePage _ id p :=
    mem_outside ErrTxUnsupportedOp tt (fun p => set_view (mkView (delete id (v_pages (mp_view p))) None) p) p;
  pg_BeginTx _ p :=
    mem_outside ErrTxAlreadyActive tt
      (fun p => set_view (mkView (v_pages (mp_view p)) (Some (v_pages (mp_view p)))) p) p;
  pg_CommitTx _ p := mem_inside (fun _ p => set_view (mkView (v_pages (mp_view p)) None) p) p;
  pg_RollbackTx _ p := mem_inside (fun m p => set_view (mkView m None) p) p |}.

(** The pages of a view, below the next page number. *)
Definition mem_pages_ok (next : Z) (m : gmap Z (list byte)) : Prop :=
  forall id b, m !! id = Some b -> zlen b = DataPageBodySize /\ FirstDataPageID <= id < next.

Definition mem_rel (p : memPager) (n : nat) (v : page_view) : Prop :=
  mp_view p = v /\ FirstDataPageID <= mp_next p /\ mp_next p + Z.of_nat n <= max_pages /\
  mem_pages_ok (mp_next p) (v_pages v) /\
  match v_tx v with Some m => mem_pages_ok (mp_next p) m | None => True end.

Lemma mem_ok_insert next m id b :
  mem_pages_ok next m -> zlen b = DataPageBodySize -> FirstDataPageID <= id < next ->
  mem_pages_ok next (<[id := b]> m).
Proof.
  intros Hm Hb Hid i b'. destruct (decide (id = i)) as [<-|Hne].
  - rewrite lookup_insert_eq. by intros [= <-].
  - rewrite lookup_insert_ne by done. apply Hm.
Qed.

Lemma mem_ok_mono next next' m : next <= next' -> mem_pages_ok next m -> mem_pages_ok next' m.
Proof. intros Hle Hm i b Hb. destruct (Hm i b Hb). split; [done|lia]. Qed.

Lemma mem_ok_delete next m id : mem_pages_ok next m -> mem_pages_ok next (delete id m).
Proof. intros Hm i b. rewrite lookup_delete_Some. intros [_ Hb]. by apply Hm. Qed.

Lemma mem_fresh next m : mem_pages_ok next m -> m !! next = None.
Proof. intros Hm. destruct (m !! next) as [b|] eqn:E; [|done]. destruct (Hm _ _ E). lia. Qed.

Lemma zlen_mem_zero : zlen zero_body = DataPageBodySize.
Proof. unfold zero_body. apply zlen_rep. done. Qed.

(** A new page. *)
Lemma mem_alloc p n v :
  mem_rel p (S n) v -> v_tx v = None ->
  exists p', pg_AllocatePage None p = (Ok (mp_next p), p') /\ v_pages v !! mp_next p = None /\
    FirstDataPageID <= mp_next p < max_pages /\
    mem_rel p' n (mkView (<[mp_next p := zero_body]> (v_pages v)) None).
Proof.
  intros (<- & H1 & H2 & H3 & H4) Ht. cbn [pg_AllocatePage memPager_ops]. unfold mem_outside. rewrite Ht.
  eexists. split; [reflexivity|]. split; [by apply mem_fresh|]. split; [lia|].
  split; [done|]. cbn [mp_next v_pages v_tx]. split; [lia|]. split; [lia|]. split; [|done].
  apply mem_ok_insert; [|apply zlen_mem_zero|lia]. eapply mem_ok_mono; [|exact H3]. lia.
Qed.

#[export] Instance memPager_spec : PagerSpec memPager.
Proof.
  refine {| pg_rel := mem_rel |}.
  - intros p n n' v Hle (H1 & H2 & H3 & H4 & H5). unfold mem_rel. split_and!; try assumption. lia.
  - intros p n v id body (<- & H1 & H2 & H3 & H4) Hl. destruct (H3 _ _ Hl). split; [done|lia].
  - intros p n v id body Hr Hl. exists p. split; [|done]. destruct Hr as (<- & _). cbn. unfold mem_read. by rewrite Hl.
  - intros p n v id Hr _ Hl. exists p. split; [|done]. destruct Hr as (<- & _). cbn. unfold mem_read. by rewrite Hl.
  - intros p n v id body (<- & H1 & H2 & H3 & H4) [b Hl] Hb. cbn. unfold mem_write. rewrite Hl, Hb, Z.eqb_refl.
    eexists. split; [done|]. destruct (H3 _ _ Hl). split; [done|]. split_and!; try done. by apply mem_ok_insert.
  - intros p n v Hr Hv. destruct (mem_alloc p n v Hr Hv) as (p' & E & ? & ? & ?). by exists (mp_next p), p'.
  - intros p n v (<- & H1 & H2 & H3 & H4). exists (mp_next p). split; [done|]. intros id [b Hb].
    destruct (H3 _ _ Hb). lia.
  - intros p n v Hr Hv [= Hc]. destruct (mem_alloc p n v Hr Hv) as (p' & E & _ & _ & Hr'). rewrite Hc in *. by exists p'.
  - intros p n v id (<- & H1 & H2 & H3 & H4) Hv Hid. cbn. unfold mem_outside. rewrite Hv. eexists. split; [done|].
    split; [done|]. split_and!; try done. by apply mem_ok_delete.
  - intros p n v (<- & H1 & H2 & H3 & H4) Hv. cbn. unfold mem_outside. rewrite Hv. eexists. split; [done|].
    split; [done|]. cbn. split_and!; try done. lia.
  - intros p n v saved (<- & H1 & H2 & H3 & H4) Hv. cbn. unfold mem_inside. rewrite Hv. eexists. split; [done|].
    by split.
  - intros p n v saved (<- & H1 & H2 & H3 & H4) Hv. cbn. unfold mem_inside. rewrite Hv. eexists. split; [done|].
    rewrite Hv in H4. by split.
Defined.

Lemma empty_mem_rel n : 2 + Z.of_nat n <= max_pages -> mem_rel empty_mem n (mkView ∅ None).
Proof.
  intros Hn. split; [done|]. split; [done|]. split; [done|]. split; [|done].
  intros id b. cbn [v_pages]. by rewrite lookup_empty.
Qed.
