(* ===== verification/KvNode.v ===== *)
(** [internal/engine/sql/kv/node.go] and the constants and errors of [kv.go]:
    the pages of the on-disk B+ tree.

    A node is a page body of [DataPageBodySize] bytes.  [encodeLeafNode],
    [encodeInternalNode], [encodeMetaPage] and [encodeOverflowPage] build one in
    a zero-filled buffer exactly as the Go code does, and the [decode] functions
    read one back.  The theorems: each encoding decodes to what was encoded, for
    values stored inline and for values with an overflow chain, and the
    decoders never see more than the capacity of a page. *)

From Stdlib Require Import ZArith Lia.
From stdpp Require Import gmap.
From S2P Require Import Prelude Page PagerSpec Key.
Open Scope Z_scope.

(** * kv.go *)

Definition MaxKeySize : Z := 63.
Definition MaxValSize : Z := 512.
Definition MaxLeafKeys : Z := 7.
Definition MaxInternalKeys : Z := 56.
Definition LeafSlotSize : Z := 580.
Definition InternalSlotSize : Z := 72.
Definition MaxValSizeEnterprise : Z := 16 * 1024 * 1024.
Definition MaxOverflowChainLen : Z := 5000.
Definition NodeTypeLeaf : byte := x01.
Definition NodeTypeInternal : byte := x02.
Definition NodeTypeMeta : byte := x03.
Definition NodeTypeOverflow : byte := x04.
Definition MetaPageID : Z := FirstDataPageID.
Definition rootSentinel : Z := 0xFFFFFFFFFFFFFFFF.
Definition overflowChunkSize : Z := 4075.

Record Entry := mkEntry { eKey : Key; eValue : list byte }.

(** The sentinel errors, an error of the pager wrapped with [%w], and the
    runtime panic of an out-of-range slice expression. *)
Inductive kv_err : Type :=
| ErrKeyNotFound | ErrKeyTooLarge | ErrValueTooLarge | ErrTreeCorrupt
| ErrKvNotOpen | ErrKvClosed | ErrPager (e : pager_err) | Panic.

(** * node.go *)

Definition encodeMetaPage (rootPageID : Z) : list byte :=
  let body := zrep DataPageBodySize x00 in
  let body := splice body 0 [NodeTypeMeta] in
  splice body 1 (be_encode 8 rootPageID).

(** The first byte of a page body, the node type. *)
Definition node_type (d : list byte) : byte := hd x00 d.

Definition decodeMetaPage (d : list byte) : res kv_err Z :=
  if negb (zlen d =? DataPageBodySize) then Err ErrTreeCorrupt
  else if negb (bool_decide (node_type d = NodeTypeMeta)) then Err ErrTreeCorrupt
  else Ok (be_decode (slice d 1 9)).

Record leafValueRef := mkRef {
  totalLen : Z; inline : list byte; overflowPageID : Z; hasOverflow : bool }.

(** The keys are strictly ascending. *)
Fixpoint keys_ascending (keys : list Key) : bool :=
  match keys with
  | k1 :: ((k2 :: _) as rest) =>
      match Compare k1 k2 with Lt => keys_ascending rest | _ => false end
  | _ => true
  end.

(** One leaf slot written at [offset]. *)
Definition put_leaf_slot (body : list byte) (offset : Z) (k : Key) (v : list byte) : list byte :=
  let body := splice body offset [z2b (zlen (data k))] in
  let body := copy_into body (offset + 1) (offset + 64) (data k) in
  if MaxValSize <? zlen v then
    let body := splice body (offset + 64) (be_encode 4 (zlen v - 8)) in
    let body := copy_into body (offset + 68) (offset + 76) (ztake 8 v) in
    copy_into body (offset + 76) (offset + 580) (zdrop 8 v)
  else
    let body := splice body (offset + 64) (be_encode 4 (zlen v)) in
    copy_into body (offset + 68) (offset + 580) v.

Fixpoint put_leaf_slots (body : list byte) (offset : Z) (keys : list Key) (values : list (list byte))
  : res kv_err (list byte) :=
  match keys, values with
  | k :: keys', v :: values' =>
      if MaxKeySize <? zlen (data k) then Err ErrKeyTooLarge
      else if MaxValSizeEnterprise <? zlen v then Err ErrValueTooLarge
      else put_leaf_slots (put_leaf_slot body offset k v) (offset + LeafSlotSize) keys' values'
  | _, _ => Ok body
  end.

Definition encodeLeafNode (keys : list Key) (values : list (list byte)) (nextLeaf : Z)
  : res kv_err (list byte) :=
  if negb (zlen keys =? zlen values) then Err ErrTreeCorrupt
  else if MaxLeafKeys <? zlen keys then Err ErrTreeCorrupt
  else if negb (keys_ascending keys) then Err ErrTreeCorrupt
  else
    let body := zrep DataPageBodySize x00 in
    let body := splice body 0 [NodeTypeLeaf] in
    let body := splice body 1 (be_encode 2 (wrap16 (zlen keys))) in
    let body := splice body 3 (be_encode 8 nextLeaf) in
    put_leaf_slots body 11 keys values.

Definition importKey (d : list byte) : Key := EncodeBytes d.

Definition get_leaf_slot (slot : list byte) : res kv_err (Key * leafValueRef) :=
  let kLen := be_decode (slice slot 0 1) in
  if MaxKeySize <? kLen then Err ErrTreeCorrupt
  else
    let k := importKey (slice slot 1 (1 + kLen)) in
    let totalLen := be_decode (slice slot 64 68) in
    if MaxValSizeEnterprise <? totalLen then Err ErrTreeCorrupt
    else if MaxValSize <? totalLen then
      Ok (k, mkRef totalLen (slice slot 76 580) (be_decode (slice slot 68 76)) true)
    else Ok (k, mkRef totalLen (slice slot 68 (68 + totalLen)) 0 false).

Fixpoint get_leaf_slots (d : list byte) (offset : Z) (count : nat)
  : res kv_err (list Key * list leafValueRef) :=
  match count with
  | O => Ok ([], [])
  | S count' =>
      '(k, ref) ← get_leaf_slot (slice d offset (offset + LeafSlotSize));
      '(keys, refs) ← get_leaf_slots d (offset + LeafSlotSize) count';
      Ok (k :: keys, ref :: refs)
  end.

Definition decodeLeafNodeRefs (d : list byte) : res kv_err (list Key * list leafValueRef * Z) :=
  if negb (zlen d =? DataPageBodySize) then Err ErrTreeCorrupt
  else if negb (bool_decide (node_type d = NodeTypeLeaf)) then Err ErrTreeCorrupt
  else
    let count := be_decode (slice d 1 3) in
    if MaxLeafKeys <? count then Err ErrTreeCorrupt
    else
      let nextLeaf := be_decode (slice d 3 11) in
      '(keys, refs) ← get_leaf_slots d 11 (Z.to_nat count);
      Ok (keys, refs, nextLeaf).

(** The bytes [decodeLeafNode] returns for a value. *)
Definition packed_ref (ref : leafValueRef) : list byte :=
  if hasOverflow ref then
    let v := zrep 512 x00 in
    let v := splice v 0 (be_encode 8 (overflowPageID ref)) in
    copy_into v 8 512 (inline ref)
  else inline ref.

Definition decodeLeafNode (d : list byte) : res kv_err (list Key * list (list byte) * Z) :=
  '(keys, refs, nextLeaf) ← decodeLeafNodeRefs d;
  Ok (keys, map packed_ref refs, nextLeaf).

Definition put_internal_slot (body : list byte) (offset : Z) (k : Key) (child : Z) : list byte :=
  let body := splice body offset [z2b (zlen (data k))] in
  let body := copy_into body (offset + 1) (offset + 64) (data k) in
  splice body (offset + 64) (be_encode 8 child).

Fixpoint put_internal_slots (body : list byte) (offset : Z) (keys : list Key) (children : list Z)
  : res kv_err (list byte) :=
  match keys, children with
  | k :: keys', c :: children' =>
      if MaxKeySize <? zlen (data k) then Err ErrKeyTooLarge
      else put_internal_slots (put_internal_slot body offset k c) (offset + InternalSlotSize)
             keys' children'
  | _, _ => Ok body
  end.

Definition encodeInternalNode (childPtrs : list Z) (keys : list Key) : res kv_err (list byte) :=
  match childPtrs with
  | [] => Err ErrTreeCorrupt
  | child0 :: children =>
      if negb (zlen childPtrs =? zlen keys + 1) then Err ErrTreeCorrupt
      else if MaxInternalKeys <? zlen keys then Err ErrTreeCorrupt
      else if negb (keys_ascending keys) then Err ErrTreeCorrupt
      else
        let body := zrep DataPageBodySize x00 in
        let body := splice body 0 [NodeTypeInternal] in
        let body := splice body 1 (be_encode 2 (wrap16 (zlen keys))) in
        let body := splice body 3 (be_encode 8 child0) in
        put_internal_slots body 11 keys children
  end.

Definition get_internal_slot (slot : list byte) : res kv_err (Key * Z) :=
  let kLen := be_decode (slice slot 0 1) in
  if MaxKeySize <? kLen then Err ErrTreeCorrupt
  else Ok (importKey (slice slot 1 (1 + kLen)), be_decode (slice slot 64 72)).

Fixpoint get_internal_slots (d : list byte) (offset : Z) (count : nat)
  : res kv_err (list Key * list Z) :=
  match count with
  | O => Ok ([], [])
  | S count' =>
      '(k, c) ← get_internal_slot (slice d offset (offset + InternalSlotSize));
      '(keys, children) ← get_internal_slots d (offset + InternalSlotSize) count';
      Ok (k :: keys, c :: children)
  end.

Definition decodeInternalNode (d : list byte) : res kv_err (list Z * list Key) :=
  if negb (zlen d =? DataPageBodySize) then Err ErrTreeCorrupt
  else if negb (bool_decide (node_type d = NodeTypeInternal)) then Err ErrTreeCorrupt
  else
    let count := be_decode (slice d 1 3) in
    if MaxInternalKeys <? count then Err ErrTreeCorrupt
    else
      let childPtr0 := be_decode (slice d 3 11) in
      '(keys, children) ← get_internal_slots d 11 (Z.to_nat count);
      Ok (childPtr0 :: children, keys).

Definition encodeOverflowPage (nextPtr : Z) (chunk : list byte) : res kv_err (list byte) :=
  if overflowChunkSize <? zlen chunk then Err ErrTreeCorrupt
  else
    let body := zrep DataPageBodySize x00 in
    let body := splice body 0 [NodeTypeOverflow] in
    let body := splice body 1 (be_encode 8 nextPtr) in
    Ok (copy_into body 9 (9 + zlen chunk) chunk).

Definition decodeOverflowPage (d : list byte) : res kv_err (Z * list byte) :=
  if negb (zlen d =? DataPageBodySize) then Err ErrTreeCorrupt
  else if negb (bool_decide (node_type d = NodeTypeOverflow)) then Err ErrTreeCorrupt
  else Ok (be_decode (slice d 1 9),
           copy_into (zrep overflowChunkSize x00) 0 overflowChunkSize (zdrop 9 d)).

(** * Images *)

(** A key padded to its 63 bytes. *)
Definition key_image (k : list byte) : list byte :=
  z2b (zlen k) :: k ++ zrep (63 - zlen k) x00.

Definition value_image (v : list byte) : list byte :=
  if MaxValSize <? zlen v then
    be_encode 4 (zlen v - 8) ++ ztake 8 v ++ ztake 504 (zdrop 8 v)
    ++ zrep (504 - zlen (ztake 504 (zdrop 8 v))) x00
  else be_encode 4 (zlen v) ++ v ++ zrep (512 - zlen v) x00.

Definition leaf_slot_image (e : list byte * list byte) : list byte :=
  key_image (fst e) ++ value_image (snd e).

Definition internal_slot_image (e : list byte * Z) : list byte :=
  key_image (fst e) ++ be_encode 8 (snd e).

Definition node_header (t : byte) (count : Z) (ptr : Z) : list byte :=
  t :: be_encode 2 count ++ be_encode 8 ptr.

Lemma zlen_node_header t c p : zlen (node_header t c p) = 11.
Proof. unfold node_header. zlia. Qed.

Lemma zlen_key_image k : zlen k <= 63 -> zlen (key_image k) = 64.
Proof. intros. unfold key_image. zlia. Qed.

(** Values the leaf codec stores: inline, or a page number and a prefix. *)
Definition value_ok (v : list byte) : Prop := zlen v <= 512 \/ 521 <= zlen v <= MaxValSizeEnterprise.

Lemma zlen_value_image v : zlen (value_image v) = 516.
Proof.
  unfold value_image, MaxValSize. destruct (Z.ltb_spec 512 (zlen v)); [|zlia].
  assert (0 <= zlen (ztake 504 (zdrop 8 v)) <= 504) as Hz.
  { split; [apply zlen_nonneg|]. unfold zlen, ztake. rewrite length_take. lia. }
  generalize dependent (ztake 504 (zdrop 8 v)). intros w Hw.
  assert (zlen (ztake 8 v) = 8) as H8 by (apply zlen_ztake; lia).
  rewrite !zlen_app, H8, zlen_rep, zlen_be_encode by lia. lia.
Qed.

Lemma zlen_leaf_slot e : zlen (fst e) <= 63 -> zlen (leaf_slot_image e) = LeafSlotSize.
Proof.
  intros. unfold leaf_slot_image. rewrite zlen_app, zlen_key_image, zlen_value_image by done. done.
Qed.

Lemma zlen_internal_slot e : zlen (fst e) <= 63 -> zlen (internal_slot_image e) = InternalSlotSize.
Proof.
  intros. unfold internal_slot_image. rewrite zlen_app, zlen_key_image, zlen_be_encode by done. done.
Qed.

(** Equality of two concatenations, piece by piece. *)
Ltac pieces :=
  rewrite <- ?app_assoc; cbn [app];
  repeat first [reflexivity | lazymatch goal with |- @eq Z _ _ => zlia end | f_equal].

(** Writing a field into the zeros behind what was already written. *)
Lemma put_field (pre : list byte) n off d :
  zlen pre <= off -> off + zlen d <= zlen pre + n ->
  splice (pre ++ zrep n x00) off d
  = (pre ++ zrep (off - zlen pre) x00 ++ d) ++ zrep (zlen pre + n - off - zlen d) x00.
Proof.
  intros H1 H2. pose proof (zlen_nonneg d). rewrite splice_app_r, splice_zrep by lia.
  pieces.
Qed.

Lemma put_field_at (pre : list byte) n off d :
  zlen pre = off -> zlen d <= n ->
  splice (pre ++ zrep n x00) off d = (pre ++ d) ++ zrep (n - zlen d) x00.
Proof.
  intros <- H. rewrite put_field by lia. rewrite Z.sub_diag, zrep_nil, app_nil_l by lia.
  pieces.
Qed.

Lemma copy_into_fits (l : list byte) a b d : zlen d <= b - a -> copy_into l a b d = splice l a d.
Proof. intros. unfold copy_into. by rewrite ztake_all. Qed.

Lemma put_key pre n off k :
  zlen pre = off -> zlen k <= 63 -> 64 <= n ->
  copy_into (splice (pre ++ zrep n x00) off [z2b (zlen k)]) (off + 1) (off + 64) k
  = (pre ++ z2b (zlen k) :: k) ++ zrep (n - 1 - zlen k) x00.
Proof.
  intros Hp Hk Hn. pose proof (zlen_nonneg k). rewrite copy_into_fits by lia.
  rewrite put_field_at by (done || zlia).
  rewrite put_field_at by zlia. pieces.
Qed.

Lemma put_key_field pre n off k d :
  zlen pre = off -> zlen k <= 63 -> 64 + zlen d <= n ->
  splice (copy_into (splice (pre ++ zrep n x00) off [z2b (zlen k)]) (off + 1) (off + 64) k)
    (off + 64) d
  = (pre ++ key_image k ++ d) ++ zrep (n - 64 - zlen d) x00.
Proof.
  intros Hp Hk Hn. pose proof (zlen_nonneg k). pose proof (zlen_nonneg d).
  rewrite put_key by lia. rewrite put_field by zlia.
  unfold key_image. cbn [app]. rewrite <- !app_assoc. cbn [app].
  replace (off + 64 - zlen (pre ++ z2b (zlen k) :: k)) with (63 - zlen k) by zlia.
  pieces.
Qed.

Lemma put_leaf_slot_image pre n off k v :
  zlen pre = off -> zlen (data k) <= 63 -> LeafSlotSize <= n ->
  put_leaf_slot (pre ++ zrep n x00) off k v
  = (pre ++ leaf_slot_image (data k, v)) ++ zrep (n - LeafSlotSize) x00.
Proof.
  intros Hp Hk Hn. unfold LeafSlotSize in *. pose proof (zlen_nonneg v) as Hv0.
  pose proof (zlen_key_image _ Hk) as Hki.
  unfold put_leaf_slot, leaf_slot_image, value_image, MaxValSize. cbn [fst snd].
  destruct (Z.ltb_spec 512 (zlen v)).
  - assert (zlen (ztake 8 v) = 8) as H8 by (apply zlen_ztake; lia).
    rewrite put_key_field by (assumption || rewrite zlen_be_encode; lia).
    rewrite zlen_be_encode, (copy_into_fits _ (off + 68)) by lia.
    rewrite put_field_at by (rewrite ?zlen_app, ?Hki, ?H8, ?zlen_be_encode; lia).
    unfold copy_into at 1. replace (off + 580 - (off + 76)) with 504 by lia.
    assert (0 <= zlen (ztake 504 (zdrop 8 v)) <= 504) as Hz.
    { split; [apply zlen_nonneg|]. unfold zlen, ztake. rewrite length_take. lia. }
    generalize dependent (ztake 504 (zdrop 8 v)). intros w Hw. rewrite H8.
    rewrite put_field_at by (rewrite ?zlen_app, ?Hki, ?H8, ?zlen_be_encode; lia).
    rewrite <- !app_assoc. do 5 f_equal.
    rewrite zrep_app by lia. f_equal. lia.
  - rewrite put_key_field by (assumption || rewrite zlen_be_encode; lia).
    rewrite zlen_be_encode, copy_into_fits by lia.
    rewrite put_field_at by (rewrite ?zlen_app, ?Hki, ?zlen_be_encode; lia).
    rewrite <- !app_assoc. do 4 f_equal. rewrite zrep_app by lia. f_equal. lia.
Qed.

Lemma put_internal_slot_image pre n off k c :
  zlen pre = off -> zlen (data k) <= 63 -> InternalSlotSize <= n ->
  put_internal_slot (pre ++ zrep n x00) off k c
  = (pre ++ internal_slot_image (data k, c)) ++ zrep (n - InternalSlotSize) x00.
Proof.
  intros Hp Hk Hn. unfold InternalSlotSize in *. unfold put_internal_slot, internal_slot_image.
  rewrite put_key_field by (assumption || rewrite zlen_be_encode; lia).
  rewrite zlen_be_encode. pieces.
Qed.

(** The entries of a leaf and of an internal node that fit the codec. *)
Definition leaf_entry_ok (e : list byte * list byte) : Prop :=
  zlen (fst e) <= 63 /\ value_ok (snd e).
Definition internal_entry_ok (e : list byte * Z) : Prop := zlen (fst e) <= 63 /\ u64 (snd e).

Lemma value_ok_max v : value_ok v -> (MaxValSizeEnterprise <? zlen v) = false.
Proof. intros Hv. apply Z.ltb_ge. unfold value_ok, MaxValSizeEnterprise in *. lia. Qed.

Lemma put_leaf_slots_image keys vals pre n off :
  length keys = length vals -> Forall leaf_entry_ok (zip (map data keys) vals) ->
  zlen pre = off -> LeafSlotSize * zlen keys <= n ->
  put_leaf_slots (pre ++ zrep n x00) off keys vals
  = Ok ((pre ++ concat (map leaf_slot_image (zip (map data keys) vals)))
        ++ zrep (n - LeafSlotSize * zlen keys) x00).
Proof.
  revert vals pre n off. induction keys as [|k keys IH]; intros [|v vals] pre n off Hl Hok Hp Hn;
    try discriminate Hl.
  - simpl. rewrite app_nil_r. do 3 f_equal. change (zlen (@nil Key)) with 0. lia.
  - simpl in Hok. apply Forall_cons in Hok as [[Hk Hv] Hok]. cbn [fst snd] in *.
    rewrite zlen_cons in Hn. pose proof (zlen_nonneg keys). unfold LeafSlotSize in *.
    cbn [put_leaf_slots]. unfold MaxKeySize.
    rewrite (proj2 (Z.ltb_ge _ _)), value_ok_max by assumption.
    rewrite put_leaf_slot_image by (assumption || unfold LeafSlotSize; lia).
    rewrite IH.
    + cbn [map zip_with concat]. rewrite <- !app_assoc. do 4 f_equal. rewrite zlen_cons.
      unfold LeafSlotSize. f_equal. lia.
    + simpl in Hl. lia.
    + assumption.
    + rewrite zlen_app, zlen_leaf_slot by assumption. unfold LeafSlotSize. lia.
    + unfold LeafSlotSize. lia.
Qed.

Lemma put_internal_slots_image keys ptrs pre n off :
  length keys = length ptrs -> Forall internal_entry_ok (zip (map data keys) ptrs) ->
  zlen pre = off -> InternalSlotSize * zlen keys <= n ->
  put_internal_slots (pre ++ zrep n x00) off keys ptrs
  = Ok ((pre ++ concat (map internal_slot_image (zip (map data keys) ptrs)))
        ++ zrep (n - InternalSlotSize * zlen keys) x00).
Proof.
  revert ptrs pre n off. induction keys as [|k keys IH]; intros [|c ptrs] pre n off Hl Hok Hp Hn;
    try discriminate Hl.
  - simpl. rewrite app_nil_r. do 3 f_equal. change (zlen (@nil Key)) with 0. lia.
  - simpl in Hok. apply Forall_cons in Hok as [[Hk Hv] Hok]. cbn [fst snd] in *.
    rewrite zlen_cons in Hn. pose proof (zlen_nonneg keys). unfold InternalSlotSize in *.
    cbn [put_internal_slots]. unfold MaxKeySize. rewrite (proj2 (Z.ltb_ge _ _)) by assumption.
    rewrite put_internal_slot_image by (assumption || unfold InternalSlotSize; lia).
    rewrite IH.
    + cbn [map zip_with concat]. rewrite <- !app_assoc. do 4 f_equal. rewrite zlen_cons.
      unfold InternalSlotSize. f_equal. lia.
    + simpl in Hl. lia.
    + assumption.
    + rewrite zlen_app, zlen_internal_slot by assumption. unfold InternalSlotSize. lia.
    + unfold InternalSlotSize. lia.
Qed.

(** * Reading the images back *)

Lemma be_decode_byte b : be_decode [b] = b2z b.
Proof.
  pose proof (be_decode_range []) as H. change (zlen []) with 0 in H.
  pose proof (be_decode_snoc [] b) as E. cbn [app] in E. rewrite E. lia.
Qed.

Lemma key_image_slices k w :
  zlen k <= 63 ->
  be_decode (slice (key_image k ++ w) 0 1) = zlen k /\
  slice (key_image k ++ w) 1 (1 + zlen k) = k /\
  (forall a b, 64 <= a -> slice (key_image k ++ w) a b = slice w (a - 64) (b - 64)).
Proof.
  intros Hk. pose proof (zlen_nonneg k). pose proof (zlen_key_image k Hk) as Hz. split_and!.
  - change (slice (key_image k ++ w) 0 1) with [z2b (zlen k)].
    rewrite be_decode_byte, b2z_z2b, Z.mod_small; lia.
  - unfold key_image. change (z2b (zlen k) :: k ++ zrep (63 - zlen k) x00)
      with ([z2b (zlen k)] ++ k ++ zrep (63 - zlen k) x00).
    rewrite <- !app_assoc, slice_app_r by (change (zlen [z2b (zlen k)]) with 1; lia).
    change (zlen [z2b (zlen k)]) with 1. rewrite slice_app_l by lia. apply slice_full; lia.
  - intros a b Ha. rewrite slice_app_r by lia. by rewrite Hz.
Qed.

(** How a stored value comes back. *)
Definition ref_of (v : list byte) : leafValueRef :=
  if MaxValSize <? zlen v then
    mkRef (zlen v - 8)
      (ztake 504 (zdrop 8 v) ++ zrep (504 - zlen (ztake 504 (zdrop 8 v))) x00)
      (be_decode (ztake 8 v)) true
  else mkRef (zlen v) v 0 false.

Lemma get_leaf_slot_image k v :
  zlen k <= 63 -> value_ok v -> get_leaf_slot (leaf_slot_image (k, v)) = Ok (importKey k, ref_of v).
Proof.
  intros Hk Hv. pose proof (zlen_nonneg v) as Hv0.
  destruct (key_image_slices k (value_image v) Hk) as (H0 & H1 & Hr).
  unfold get_leaf_slot, leaf_slot_image. cbn [fst snd]. rewrite H0. unfold MaxKeySize.
  rewrite (proj2 (Z.ltb_ge _ _)) by assumption. rewrite H1, !Hr by lia.
  unfold value_image, ref_of, value_ok, MaxValSize, MaxValSizeEnterprise in *.
  destruct (Z.ltb_spec 512 (zlen v)) as [Hbig|Hsmall].
  - assert (zlen (ztake 8 v) = 8) as H8 by (apply zlen_ztake; lia).
    set (p := ztake 504 (zdrop 8 v) ++ zrep (504 - zlen (ztake 504 (zdrop 8 v))) x00).
    assert (zlen p = 504) as Hp.
    { unfold p. assert (0 <= zlen (ztake 504 (zdrop 8 v)) <= 504) as Hz.
      { split; [apply zlen_nonneg|]. unfold zlen, ztake. rewrite length_take. lia. }
      rewrite zlen_app, zlen_rep; lia. }
    clearbody p.
    rewrite (slice_app_l (be_encode 4 _) _ (64 - 64)) by (rewrite ?zlen_be_encode; lia).
    rewrite (slice_full (be_encode 4 _)) by (rewrite ?zlen_be_encode; lia).
    rewrite be_decode_encode by lia.
    rewrite (proj2 (Z.ltb_ge _ _)), (proj2 (Z.ltb_lt _ _)) by lia.
    rewrite !(slice_app_r (be_encode 4 _)) by (rewrite zlen_be_encode; lia).
    rewrite zlen_be_encode. rewrite (slice_app_r (ztake 8 v)), H8 by (rewrite ?H8; lia).
    rewrite (slice_full p) by lia. rewrite slice_app_l by lia. rewrite slice_full by lia. done.
  - rewrite (slice_app_l (be_encode 4 _) _ (64 - 64)) by (rewrite ?zlen_be_encode; lia).
    rewrite (slice_full (be_encode 4 _)) by (rewrite ?zlen_be_encode; lia).
    rewrite be_decode_encode by lia.
    rewrite !(proj2 (Z.ltb_ge _ _)) by lia.
    rewrite (slice_app_r (be_encode 4 _)) by (rewrite zlen_be_encode; lia).
    rewrite zlen_be_encode. rewrite slice_app_l by lia. rewrite slice_full by lia. done.
Qed.

Lemma get_internal_slot_image k c :
  zlen k <= 63 -> u64 c -> get_internal_slot (internal_slot_image (k, c)) = Ok (importKey k, c).
Proof.
  intros Hk Hc. destruct (key_image_slices k (be_encode 8 c) Hk) as (H0 & H1 & Hr).
  unfold get_internal_slot, internal_slot_image. cbn [fst snd]. rewrite H0. unfold MaxKeySize.
  rewrite (proj2 (Z.ltb_ge _ _)) by assumption. rewrite H1, Hr by lia.
  rewrite slice_full by (rewrite ?zlen_be_encode; lia). rewrite be_decode_encode by done. done.
Qed.

Lemma get_leaf_slots_image es pre rest off :
  Forall leaf_entry_ok es -> zlen pre = off ->
  get_leaf_slots (pre ++ concat (map leaf_slot_image es) ++ rest) off (length es)
  = Ok (map (fun e => importKey (fst e)) es, map (fun e => ref_of (snd e)) es).
Proof.
  revert pre off. induction es as [|[k v] es IH]; intros pre off Hok Hp; [done|].
  apply Forall_cons in Hok as [[Hk Hv] Hok]. cbn [fst snd] in *.
  pose proof (zlen_leaf_slot (k, v) Hk) as Hz. pose proof (zlen_nonneg pre).
  cbn [length get_leaf_slots map concat]. rewrite <- app_assoc.
  rewrite slice_app_r, slice_app_l by lia. rewrite slice_full by lia.
  rewrite get_leaf_slot_image by assumption. rewrite res_bind_ok.
  rewrite (app_assoc pre). rewrite IH by (try assumption; rewrite zlen_app; lia). done.
Qed.

Lemma get_internal_slots_image es pre rest off :
  Forall internal_entry_ok es -> zlen pre = off ->
  get_internal_slots (pre ++ concat (map internal_slot_image es) ++ rest) off (length es)
  = Ok (map (fun e => importKey (fst e)) es, map snd es).
Proof.
  revert pre off. induction es as [|[k v] es IH]; intros pre off Hok Hp; [done|].
  apply Forall_cons in Hok as [[Hk Hv] Hok]. cbn [fst snd] in *.
  pose proof (zlen_internal_slot (k, v) Hk) as Hz. pose proof (zlen_nonneg pre).
  cbn [length get_internal_slots map concat]. rewrite <- app_assoc.
  rewrite slice_app_r, slice_app_l by lia. rewrite slice_full by lia.
  rewrite get_internal_slot_image by assumption. rewrite res_bind_ok.
  rewrite (app_assoc pre). rewrite IH by (try assumption; rewrite zlen_app; lia). done.
Qed.

Lemma node_header_slices t n p w :
  let d := node_header t n p ++ w in
  node_type d = t /\ slice d 1 3 = be_encode 2 n /\ slice d 3 11 = be_encode 8 p.
Proof.
  intros d. unfold d, node_header. cbn [app]. split; [done|].
  change (t :: (be_encode 2 n ++ be_encode 8 p) ++ w) with ([t] ++ (be_encode 2 n ++ be_encode 8 p) ++ w).
  rewrite <- !app_assoc. change (zlen [t]) with 1.
  split; rewrite slice_app_r by (change (zlen [t]) with 1; lia); change (zlen [t]) with 1.
  - rewrite slice_app_l by (rewrite ?zlen_be_encode; lia). apply slice_full; rewrite ?zlen_be_encode; lia.
  - rewrite slice_app_r, slice_app_l by (rewrite ?zlen_be_encode; lia).
    apply slice_full; rewrite ?zlen_be_encode; lia.
Qed.

Lemma put_node_header t n p :
  splice (splice (splice (zrep DataPageBodySize x00) 0 [t]) 1 (be_encode 2 n)) 3 (be_encode 8 p)
  = node_header t n p ++ zrep (DataPageBodySize - 11) x00.
Proof.
  unfold DataPageBodySize, PageSize, node_header.
  rewrite splice_zrep by zlia. rewrite (zrep_nil 0), app_nil_l by lia. change (zlen [t]) with 1.
  rewrite put_field_at by zlia. rewrite zlen_be_encode.
  rewrite put_field_at by zlia. rewrite zlen_be_encode. rewrite <- !app_assoc. reflexivity.
Qed.

(** * Leaves and internal nodes as pages *)

Lemma zlen_concat {A B} (f : A -> list B) (l : list A) n :
  Forall (fun x => zlen (f x) = n) l -> zlen (concat (map f l)) = n * zlen l.
Proof.
  induction 1 as [|x l Hx Hl IH]; simpl; [change (zlen (@nil A)) with 0; change (zlen (@nil B)) with 0; lia|].
  rewrite zlen_app, IH, zlen_cons, Hx. lia.
Qed.

Lemma zlen_map {A B} (f : A -> B) l : zlen (map f l) = zlen l.
Proof. unfold zlen. by rewrite length_map. Qed.

Definition leaf_image (es : list (list byte * list byte)) (next : Z) : list byte :=
  node_header NodeTypeLeaf (zlen es) next ++ concat (map leaf_slot_image es)
  ++ zrep (DataPageBodySize - 11 - LeafSlotSize * zlen es) x00.

Definition internal_image (c0 : Z) (es : list (list byte * Z)) : list byte :=
  node_header NodeTypeInternal (zlen es) c0 ++ concat (map internal_slot_image es)
  ++ zrep (DataPageBodySize - 11 - InternalSlotSize * zlen es) x00.

Lemma zlen_leaf_image es next :
  Forall leaf_entry_ok es -> zlen es <= MaxLeafKeys -> zlen (leaf_image es next) = DataPageBodySize.
Proof.
  intros Hok Hn. unfold leaf_image. pose proof (zlen_nonneg es).
  rewrite !zlen_app, zlen_node_header, (zlen_concat _ _ LeafSlotSize), zlen_rep.
  - lia.
  - unfold DataPageBodySize, PageSize, LeafSlotSize, MaxLeafKeys in *. lia.
  - eapply Forall_impl; [exact Hok|]. intros e [? _]. by apply zlen_leaf_slot.
Qed.

Lemma zlen_internal_image c0 es :
  Forall internal_entry_ok es -> zlen es <= MaxInternalKeys ->
  zlen (internal_image c0 es) = DataPageBodySize.
Proof.
  intros Hok Hn. unfold internal_image. pose proof (zlen_nonneg es).
  rewrite !zlen_app, zlen_node_header, (zlen_concat _ _ InternalSlotSize), zlen_rep.
  - lia.
  - unfold DataPageBodySize, PageSize, InternalSlotSize, MaxInternalKeys in *. lia.
  - eapply Forall_impl; [exact Hok|]. intros e [? _]. by apply zlen_internal_slot.
Qed.

Lemma map_fst_zip {A B} (l : list A) (m : list B) : length l = length m -> map fst (zip l m) = l.
Proof. intros H. apply (fst_zip l m). lia. Qed.

Lemma map_snd_zip {A B} (l : list A) (m : list B) : length l = length m -> map snd (zip l m) = m.
Proof. intros H. apply (snd_zip l m). lia. Qed.

Lemma zlen_zip {A B} (l : list A) (m : list B) : length l = length m -> zlen (zip l m) = zlen l.
Proof. intros H. unfold zlen. rewrite length_zip_with. f_equal. lia. Qed.

Lemma encodeLeafNode_image keys vals next :
  length keys = length vals -> zlen keys <= MaxLeafKeys -> keys_ascending keys = true ->
  Forall leaf_entry_ok (zip (map data keys) vals) ->
  encodeLeafNode keys vals next = Ok (leaf_image (zip (map data keys) vals) next).
Proof.
  intros Hl Hn Hs Hok. unfold encodeLeafNode. pose proof (zlen_nonneg keys) as Hk0.
  rewrite (proj2 (Z.eqb_eq _ _)) by (unfold zlen; lia).
  rewrite (proj2 (Z.ltb_ge _ _)) by assumption. rewrite Hs. cbn [negb].
  unfold wrap16. rewrite Z.mod_small by (unfold MaxLeafKeys in Hn; lia).
  rewrite put_node_header. unfold leaf_image, MaxLeafKeys in *.
  assert (zlen (zip (map data keys) vals) = zlen keys) as Hz.
  { rewrite zlen_zip by (by rewrite length_map). apply zlen_map. }
  rewrite put_leaf_slots_image; [|assumption|assumption|apply zlen_node_header|].
  - rewrite Hz, <- !app_assoc. done.
  - unfold DataPageBodySize, PageSize, LeafSlotSize. lia.
Qed.

Lemma encodeInternalNode_image c0 children keys :
  length keys = length children -> zlen keys <= MaxInternalKeys -> keys_ascending keys = true ->
  Forall internal_entry_ok (zip (map data keys) children) ->
  encodeInternalNode (c0 :: children) keys = Ok (internal_image c0 (zip (map data keys) children)).
Proof.
  intros Hl Hn Hs Hok. unfold encodeInternalNode. pose proof (zlen_nonneg keys) as Hk0.
  rewrite (proj2 (Z.eqb_eq _ _)) by (rewrite zlen_cons; unfold zlen; lia).
  rewrite (proj2 (Z.ltb_ge _ _)) by assumption. rewrite Hs. cbn [negb].
  unfold wrap16. rewrite Z.mod_small by (unfold MaxInternalKeys in Hn; lia).
  rewrite put_node_header. unfold internal_image, MaxInternalKeys in *.
  assert (zlen (zip (map data keys) children) = zlen keys) as Hz.
  { rewrite zlen_zip by (by rewrite length_map). apply zlen_map. }
  rewrite put_internal_slots_image; [|assumption|assumption|apply zlen_node_header|].
  - rewrite Hz, <- !app_assoc. done.
  - unfold DataPageBodySize, PageSize, InternalSlotSize. lia.
Qed.

Lemma decodeLeafNodeRefs_image es next :
  Forall leaf_entry_ok es -> zlen es <= MaxLeafKeys -> u64 next ->
  decodeLeafNodeRefs (leaf_image es next)
  = Ok (map (fun e => importKey (fst e)) es, map (fun e => ref_of (snd e)) es, next).
Proof.
  intros Hok Hn Hu. unfold decodeLeafNodeRefs. pose proof (zlen_nonneg es) as He.
  rewrite zlen_leaf_image, Z.eqb_refl by assumption. cbn [negb]. unfold leaf_image.
  match goal with |- context [node_header _ _ _ ++ ?w] =>
    destruct (node_header_slices NodeTypeLeaf (zlen es) next w) as (-> & -> & ->) end.
  rewrite bool_decide_true by done. cbn [negb]. unfold MaxLeafKeys in *.
  rewrite !be_decode_encode by (done || lia). rewrite (proj2 (Z.ltb_ge _ _)) by assumption.
  replace (Z.to_nat (zlen es)) with (length es) by (unfold zlen; lia).
  rewrite get_leaf_slots_image by (assumption || apply zlen_node_header). done.
Qed.

Lemma decodeInternalNode_image c0 es :
  Forall internal_entry_ok es -> zlen es <= MaxInternalKeys -> u64 c0 ->
  decodeInternalNode (internal_image c0 es)
  = Ok (c0 :: map snd es, map (fun e => importKey (fst e)) es).
Proof.
  intros Hok Hn Hu. unfold decodeInternalNode. pose proof (zlen_nonneg es) as He.
  rewrite zlen_internal_image, Z.eqb_refl by assumption. cbn [negb]. unfold internal_image.
  match goal with |- context [node_header _ _ _ ++ ?w] =>
    destruct (node_header_slices NodeTypeInternal (zlen es) c0 w) as (-> & -> & ->) end.
  rewrite bool_decide_true by done. cbn [negb]. unfold MaxInternalKeys in *.
  rewrite !be_decode_encode by (done || lia). rewrite (proj2 (Z.ltb_ge _ _)) by assumption.
  replace (Z.to_nat (zlen es)) with (length es) by (unfold zlen; lia).
  rewrite get_internal_slots_image by (assumption || apply zlen_node_header). done.
Qed.

(** * Meta and overflow pages *)

Definition meta_image (root : Z) : list byte :=
  (NodeTypeMeta :: be_encode 8 root) ++ zrep (DataPageBodySize - 9) x00.

Lemma encodeMetaPage_image root : encodeMetaPage root = meta_image root.
Proof.
  unfold encodeMetaPage, meta_image, DataPageBodySize, PageSize.
  rewrite splice_zrep by zlia. rewrite (zrep_nil 0), app_nil_l by lia.
  change (zlen [NodeTypeMeta]) with 1. rewrite put_field_at by zlia. rewrite zlen_be_encode. done.
Qed.

Lemma zlen_meta_image root : zlen (meta_image root) = DataPageBodySize.
Proof. unfold meta_image, DataPageBodySize, PageSize. zlia. Qed.

Lemma decodeMetaPage_image root : u64 root -> decodeMetaPage (meta_image root) = Ok root.
Proof.
  intros Hu. unfold decodeMetaPage. rewrite zlen_meta_image, Z.eqb_refl. cbn [negb].
  unfold meta_image. cbn [app node_type hd]. rewrite bool_decide_true by done. cbn [negb].
  change (NodeTypeMeta :: be_encode 8 root ++ zrep (DataPageBodySize - 9) x00)
    with ([NodeTypeMeta] ++ be_encode 8 root ++ zrep (DataPageBodySize - 9) x00).
  rewrite slice_app_r by (change (zlen [NodeTypeMeta]) with 1; lia).
  change (zlen [NodeTypeMeta]) with 1. rewrite slice_app_l by (rewrite ?zlen_be_encode; lia).
  rewrite slice_full by (rewrite ?zlen_be_encode; lia). by rewrite be_decode_encode.
Qed.

Definition overflow_image (next : Z) (chunk : list byte) : list byte :=
  (NodeTypeOverflow :: be_encode 8 next) ++ chunk ++ zrep (overflowChunkSize - zlen chunk) x00.

Lemma zlen_overflow_image next chunk :
  zlen chunk <= overflowChunkSize -> zlen (overflow_image next chunk) = DataPageBodySize.
Proof. unfold overflow_image, overflowChunkSize, DataPageBodySize, PageSize. intros. zlia. Qed.

Lemma encodeOverflowPage_image next chunk :
  zlen chunk <= overflowChunkSize ->
  encodeOverflowPage next chunk = Ok (overflow_image next chunk).
Proof.
  intros Hc. unfold encodeOverflowPage. rewrite (proj2 (Z.ltb_ge _ _)) by assumption.
  unfold overflow_image, overflowChunkSize, DataPageBodySize, PageSize in *.
  pose proof (zlen_nonneg chunk). rewrite splice_zrep by zlia.
  rewrite (zrep_nil 0), app_nil_l by lia. change (zlen [NodeTypeOverflow]) with 1.
  rewrite put_field_at by zlia. rewrite copy_into_fits by lia. rewrite zlen_be_encode.
  rewrite put_field_at by zlia. pieces.
Qed.

Lemma decodeOverflowPage_image next chunk :
  u64 next -> zlen chunk <= overflowChunkSize ->
  decodeOverflowPage (overflow_image next chunk)
  = Ok (next, chunk ++ zrep (overflowChunkSize - zlen chunk) x00).
Proof.
  intros Hu Hc. unfold decodeOverflowPage.
  rewrite zlen_overflow_image, Z.eqb_refl by assumption. cbn [negb].
  unfold overflow_image. cbn [app node_type hd]. rewrite bool_decide_true by done. cbn [negb].
  set (w := chunk ++ zrep (overflowChunkSize - zlen chunk) x00).
  assert (zlen w = overflowChunkSize) as Hw.
  { unfold w, overflowChunkSize in *. pose proof (zlen_nonneg chunk). zlia. }
  clearbody w.
  change (NodeTypeOverflow :: be_encode 8 next ++ w)
    with ([NodeTypeOverflow] ++ be_encode 8 next ++ w).
  rewrite slice_app_r by (change (zlen [NodeTypeOverflow]) with 1; lia).
  change (zlen [NodeTypeOverflow]) with 1. rewrite slice_app_l by (rewrite ?zlen_be_encode; lia).
  rewrite slice_full by (rewrite ?zlen_be_encode; lia). rewrite be_decode_encode by done.
  rewrite app_assoc, zdrop_app_eq by zlia. by rewrite copy_full.
Qed.

(** * Properties *)

(** an internal node decodes to the children and separators it was encoded
    from. *)
Theorem internal_node_roundtrip c0 children keys :
  length keys = length children -> zlen keys <= MaxInternalKeys -> keys_ascending keys = true ->
  u64 c0 -> Forall internal_entry_ok (zip (map data keys) children) ->
  exists body, encodeInternalNode (c0 :: children) keys = Ok body /\
    zlen body = DataPageBodySize /\
    decodeInternalNode body = Ok (c0 :: children, map (fun k => importKey (data k)) keys).
Proof.
  intros Hl Hn Hs Hc Hok. rewrite encodeInternalNode_image by assumption. eexists. split; [done|].
  assert (zlen (zip (map data keys) children) <= MaxInternalKeys) as Hz.
  { rewrite zlen_zip, zlen_map by (by rewrite length_map). done. }
  split; [by apply zlen_internal_image|]. rewrite decodeInternalNode_image by assumption.
  assert (length (map data keys) = length children) as Hl' by (by rewrite length_map).
  rewrite map_snd_zip by assumption.
  rewrite <- (map_map fst importKey), map_fst_zip by assumption. by rewrite map_map.
Qed.

(** a leaf decodes to the keys it was encoded from and to references that hold
    each value: all of an inline value, and for a value with an overflow chain
    the number of its first page and its 504-byte prefix. *)
Theorem leaf_node_roundtrip keys vals next :
  length keys = length vals -> zlen keys <= MaxLeafKeys -> keys_ascending keys = true ->
  u64 next -> Forall leaf_entry_ok (zip (map data keys) vals) ->
  exists body, encodeLeafNode keys vals next = Ok body /\ zlen body = DataPageBodySize /\
    decodeLeafNodeRefs body = Ok (map (fun k => importKey (data k)) keys, map ref_of vals, next) /\
    (Forall (fun v => zlen v <= MaxValSize) vals ->
     decodeLeafNode body = Ok (map (fun k => importKey (data k)) keys, vals, next)).
Proof.
  intros Hl Hn Hs Hu Hok. rewrite encodeLeafNode_image by assumption. eexists. split; [done|].
  assert (zlen (zip (map data keys) vals) <= MaxLeafKeys) as Hz.
  { rewrite zlen_zip, zlen_map by (by rewrite length_map). done. }
  assert (length (map data keys) = length vals) as Hl' by (by rewrite length_map).
  split; [by apply zlen_leaf_image|].
  assert (decodeLeafNodeRefs (leaf_image (zip (map data keys) vals) next)
    = Ok (map (fun k => importKey (data k)) keys, map ref_of vals, next)) as E.
  { rewrite decodeLeafNodeRefs_image by assumption.
    rewrite <- (map_map fst importKey), <- (map_map snd ref_of).
    rewrite map_fst_zip, map_snd_zip by assumption. by rewrite map_map. }
  split; [exact E|]. intros Hv. unfold decodeLeafNode. rewrite E, res_bind_ok. do 3 f_equal.
  rewrite map_map. rewrite <- (map_id vals) at 2. apply map_ext_in. intros v Hin.
  apply list_elem_of_In in Hin. rewrite Forall_forall in Hv. specialize (Hv v Hin).
  unfold ref_of. rewrite (proj2 (Z.ltb_ge _ _)) by assumption. done.
Qed.

(** meta and overflow pages round-trip; an overflow chunk comes back padded to
    the size of a chunk. *)
Theorem meta_overflow_roundtrip :
  (forall root, u64 root -> zlen (encodeMetaPage root) = DataPageBodySize /\
     decodeMetaPage (encodeMetaPage root) = Ok root) /\
  (forall next chunk, u64 next -> zlen chunk <= overflowChunkSize ->
     exists body, encodeOverflowPage next chunk = Ok body /\ zlen body = DataPageBodySize /\
       decodeOverflowPage body = Ok (next, chunk ++ zrep (overflowChunkSize - zlen chunk) x00)) /\
  (forall next chunk, overflowChunkSize < zlen chunk ->
     encodeOverflowPage next chunk = Err ErrTreeCorrupt).
Proof.
  split; [|split].
  - intros root Hu. rewrite encodeMetaPage_image. split; [apply zlen_meta_image|].
    by apply decodeMetaPage_image.
  - intros next chunk Hu Hc. rewrite encodeOverflowPage_image by done. eexists. split; [done|].
    split; [by apply zlen_overflow_image|by apply decodeOverflowPage_image].
  - intros next chunk Hc. unfold encodeOverflowPage. by rewrite (proj2 (Z.ltb_lt _ _)).
Qed.

(** Re-encoding what [decodeLeafNode] returns for a large value stores its
    packed form as an inline value: the reference to the chain is lost.  This is
    what every update of a leaf does to the large values next to the updated
    key. *)
Theorem reencode_loses_overflow k v next :
  zlen (data k) <= 63 -> 521 <= zlen v <= MaxValSizeEnterprise -> u64 next ->
  exists body vals body', encodeLeafNode [k] [v] next = Ok body /\
    decodeLeafNode body = Ok ([importKey (data k)], vals, next) /\
    encodeLeafNode [importKey (data k)] vals next = Ok body' /\
    exists r r', decodeLeafNodeRefs body = Ok ([importKey (data k)], [r], next) /\
      decodeLeafNodeRefs body' = Ok ([importKey (data k)], [r'], next) /\
      hasOverflow r = true /\ hasOverflow r' = false /\ totalLen r' = 512.
Proof.
  intros Hk Hv Hu.
  assert (Forall leaf_entry_ok (zip (map data [k]) [v])) as Hok.
  { constructor; [|constructor]. split; [exact Hk|right; exact Hv]. }
  assert (packed_ref (ref_of v) = packed_ref (ref_of v) /\ zlen (packed_ref (ref_of v)) = 512) as [_ Hp].
  { split; [done|]. unfold ref_of, MaxValSize. rewrite (proj2 (Z.ltb_lt _ _)) by lia.
    unfold packed_ref. cbn [hasOverflow overflowPageID inline].
    assert (zlen (splice (zrep 512 x00) 0 (be_encode 8 (be_decode (ztake 8 v)))) = 512) as E.
    { rewrite zlen_splice; zlia. }
    rewrite zlen_copy_into; lia. }
  assert (Forall leaf_entry_ok (zip (map data [importKey (data k)]) [packed_ref (ref_of v)])) as Hok'.
  { constructor; [|constructor]. split; [exact Hk|left]. cbn [snd]. lia. }
  eexists _, [packed_ref (ref_of v)], _.
  split; [by apply encodeLeafNode_image|].
  split; [unfold decodeLeafNode; by rewrite decodeLeafNodeRefs_image|].
  split; [by apply encodeLeafNode_image|].
  exists (ref_of v), (ref_of (packed_ref (ref_of v))).
  split; [by rewrite decodeLeafNodeRefs_image|]. split; [by rewrite decodeLeafNodeRefs_image|].
  split; [unfold ref_of, MaxValSize; by rewrite (proj2 (Z.ltb_lt _ _)) by lia|].
  unfold ref_of at 1 3, MaxValSize. rewrite Hp. done.
Qed.
