(* ===== verification/BTree.v ===== *)
(** [internal/engine/sql/kv/btree.go]: the on-disk B+ tree, as operations over
    any pager.

    [btreeStore] is the Go struct: the pager, the two lifecycle flags and the
    page number of the root.  The operations follow the Go methods call by call
    over the interface [PagerOps], rollbacks and ignored results included.  The
    loops that walk down the tree or along the leaves take fuel; a tree of height
    [h] needs [h + 1] (the theorems of [BTreeSpec.v] say so), and [OutOfFuel]
    stands for a walk that has not ended.  [insertIntoParent] takes Go's [path]
    innermost first.  Locks are not modelled. *)

From Stdlib Require Import ZArith Lia.
From stdpp Require Import gmap.
From S2P Require Import Prelude Page PagerSpec Key KvNode Monad.
Open Scope Z_scope.
Open Scope st_scope.

Module BTree.
Section btree.
Context {P : Type} `{PagerOps P}.

Record btreeStore := mkStore { pg : P; isOpen : bool; closed : bool; rootPageID : Z }.

Definition with_pg (p : P) (s : btreeStore) : btreeStore :=
  mkStore p (isOpen s) (closed s) (rootPageID s).
Definition with_root (r : Z) (s : btreeStore) : btreeStore :=
  mkStore (pg s) (isOpen s) (closed s) r.
Definition with_flags (o c : bool) (s : btreeStore) : btreeStore :=
  mkStore (pg s) o c (rootPageID s).

Definition newBtreeStore (p : P) : btreeStore := mkStore p false false rootSentinel.

Inductive btree_err : Type := KvErr (e : kv_err) | OutOfFuel.

Definition K : Type -> Type := st btreeStore btree_err.

(** A call of the pager. *)
Definition call {A} (f : P -> res pager_err A * P) : K A := fun s =>
  let '(r, p) := f (pg s) in
  (match r with Ok a => Ok a | Err e => Err (KvErr (ErrPager e)) end, with_pg p s).

Definition throw {A} (e : kv_err) : K A := fail (KvErr e).
Definition check {A} (r : res kv_err A) : K A :=
  lift (match r with Ok a => Ok a | Err e => Err (KvErr e) end).

Definition ReadPage (ctx : ctx) (id : Z) : K (list byte) := call (pg_ReadPage ctx id).
Definition WritePage (ctx : ctx) (id : Z) (body : list byte) : K unit :=
  call (pg_WritePage ctx id body).
Definition AllocatePage (ctx : ctx) : K Z := call (pg_AllocatePage ctx).
Definition FreePage (ctx : ctx) (id : Z) : K unit := call (pg_FreePage ctx id).
Definition BeginTx (ctx : ctx) : K unit := call (pg_BeginTx ctx).
Definition CommitTx (ctx : ctx) : K unit := call (pg_CommitTx ctx).
Definition RollbackTx (ctx : ctx) : K unit := call (pg_RollbackTx ctx).

(** [if err := c; err != nil { s.pg.RollbackTx(ctx); return err }] *)
Definition or_rollback {A} (ctx : ctx) (c : K A) : K A := cleanup c (RollbackTx ctx).

Definition checkOpen : K unit :=
  c <- gets closed ;;
  if c then throw ErrKvClosed
  else o <- gets isOpen ;; if o then ret tt else throw ErrKvNotOpen.

(** * Open and Close *)

Definition Open (ctx : ctx) : K unit :=
  c <- gets closed ;;
  if c then throw ErrKvClosed
  else
    o <- gets isOpen ;;
    if o then ret tt
    else
      pc <- call (pg_PageCount ctx) ;;
      (if pc =? FirstDataPageID then
         id <- AllocatePage ctx ;;
         if negb (id =? MetaPageID) then throw ErrTreeCorrupt
         else
           BeginTx ctx ;;;
           or_rollback ctx (WritePage ctx MetaPageID (encodeMetaPage rootSentinel)) ;;;
           CommitTx ctx
       else
         body <- ReadPage ctx MetaPageID ;;
         rootID <- check (decodeMetaPage body) ;;
         modify (with_root rootID)) ;;;
      modify (fun s => with_flags true (closed s) s).

Definition Close (ctx : ctx) : K unit :=
  c <- gets closed ;;
  if c then ret tt else modify (with_flags false true).

(** * Get *)

(** The loop of [readOverflowValue]; [n] is what is left of [MaxOverflowChainLen]. *)
Fixpoint read_chain (n : nat) (ctx : ctx) (pageID : Z) (buf : list byte) (pos : Z)
  : K (list byte * Z) :=
  if (pageID =? rootSentinel) || (pageID =? 0) then ret (buf, pos)
  else
    match n with
    | O => throw ErrTreeCorrupt
    | S n' =>
        body <- ReadPage ctx pageID ;;
        '(nextPtr, chunk) <- check (decodeOverflowPage body) ;;
        read_chain n' ctx nextPtr (copy_into buf pos (zlen buf) chunk)
          (pos + Z.min (zlen chunk) (zlen buf - pos))
    end.

Definition readOverflowValue (ctx : ctx) (ref : leafValueRef) : K (list byte) :=
  let buf := copy_into (zrep (totalLen ref) x00) 0 (totalLen ref) (inline ref) in
  '(buf, pos) <- read_chain (Z.to_nat MaxOverflowChainLen) ctx (overflowPageID ref) buf
                   (zlen (inline ref)) ;;
  if negb (pos =? totalLen ref) then throw ErrTreeCorrupt else ret buf.

(** [upperBoundIdx]: the first [i] with [k < ikeys[i]], or the last child. *)
Fixpoint first_above (ikeys : list Key) (k : Key) (i : Z) : option Z :=
  match ikeys with
  | [] => None
  | ik :: rest => match Compare k ik with Lt => Some i | _ => first_above rest k (i + 1) end
  end.

Definition upperBoundIdx (childPtrs : list Z) (ikeys : list Key) (k : Key) : Z :=
  match first_above ikeys k 0 with Some i => i | None => zlen childPtrs - 1 end.

Definition upperBound (childPtrs : list Z) (ikeys : list Key) (k : Key) : Z :=
  nth (Z.to_nat (upperBoundIdx childPtrs ikeys k)) childPtrs 0.

(** The position of a key that compares equal, in the loops over a leaf. *)
Fixpoint find_key (keys : list Key) (k : Key) (i : nat) : option nat :=
  match keys with
  | [] => None
  | lk :: rest => match Compare lk k with Eq => Some i | _ => find_key rest k (S i) end
  end.

Definition is_type (body : list byte) (t : byte) : bool := bool_decide (node_type body = t).

Definition no_ref : leafValueRef := mkRef 0 [] 0 false.

Fixpoint search (fuel : nat) (ctx : ctx) (pageID : Z) (k : Key) : K (list byte) :=
  match fuel with
  | O => fail OutOfFuel
  | S fuel' =>
      body <- ReadPage ctx pageID ;;
      if is_type body NodeTypeLeaf then
        '(keys, refs, _) <- check (decodeLeafNodeRefs body) ;;
        match find_key keys k 0 with
        | None => throw ErrKeyNotFound
        | Some i =>
            let ref := nth i refs no_ref in
            if negb (hasOverflow ref) then ret (inline ref) else readOverflowValue ctx ref
        end
      else if is_type body NodeTypeInternal then
        '(childPtrs, ikeys) <- check (decodeInternalNode body) ;;
        search fuel' ctx (upperBound childPtrs ikeys k) k
      else throw ErrTreeCorrupt
  end.

Definition Get (fuel : nat) (ctx : ctx) (k : Key) : K (list byte) :=
  checkOpen ;;;
  root <- gets rootPageID ;;
  if root =? rootSentinel then throw ErrKeyNotFound else search fuel ctx root k.

(** * Set *)

Record pathEntry := mkPath { pe_pageID : Z; childIdx : Z; pe_keys : list Key; childPtrs : list Z }.

(** The allocation loop of [prepareOverflow]: the IDs, and whether it was cut
    short by an error. *)
Fixpoint allocate_some (n : nat) (ctx : ctx) : K (list Z * bool) := fun s =>
  match n with
  | O => (Ok ([], true), s)
  | S n' =>
      match AllocatePage ctx s with
      | (Err _, s') => (Ok ([], false), s')
      | (Ok id, s') =>
          match allocate_some n' ctx s' with
          | (Ok (ids, ok), s'') => (Ok (id :: ids, ok), s'')
          | (Err e, s'') => (Err e, s'')
          end
      end
  end.

Definition prepareOverflow (ctx : ctx) (v : list byte) : K (list Z * list byte) :=
  let prefixLen := if zlen v <? 504 then zlen v else 504 in
  let remaining := zlen v - prefixLen in
  let numOverflow := (remaining + overflowChunkSize - 1) / overflowChunkSize in
  '(overflowIDs, ok) <- allocate_some (Z.to_nat numOverflow) ctx ;;
  if ok : bool then
    let firstOverflowID := if 0 <? numOverflow then nth 0 overflowIDs 0 else 0 in
    ret (overflowIDs, be_encode 8 firstOverflowID ++ v)
  else ret (overflowIDs, []).

Fixpoint write_chain (ctx : ctx) (ids : list Z) (remaining : list byte) : K unit :=
  match ids with
  | [] => ret tt
  | pageID :: rest =>
      let chunk := ztake overflowChunkSize remaining in
      let nextPtr := match rest with next :: _ => next | [] => rootSentinel end in
      body <- check (encodeOverflowPage nextPtr chunk) ;;
      WritePage ctx pageID body ;;;
      write_chain ctx rest (zdrop overflowChunkSize remaining)
  end.

Definition writeOverflowChain (ctx : ctx) (overflowIDs : list Z) (v : list byte) : K unit :=
  let prefixLen := if zlen v <? 504 then zlen v else 504 in
  write_chain ctx overflowIDs (zdrop prefixLen v).

(** [s.writeOverflowChainFull(ctx, overflowIDs, packedVal[8:])], which panics when
    [packedVal] is shorter than eight bytes. *)
Definition write_packed_chain (ctx : ctx) (overflowIDs : list Z) (packedVal : list byte) : K unit :=
  match overflowIDs with
  | [] => ret tt
  | _ => if zlen packedVal <? 8 then throw Panic
         else writeOverflowChain ctx overflowIDs (zdrop 8 packedVal)
  end.

Definition setInEmpty (ctx : ctx) (k : Key) (v : list byte) : K unit :=
  '(overflowIDs, packedVal) <-
     (if MaxValSize <? zlen v then prepareOverflow ctx v else ret ([], v)) ;;
  leafID <- AllocatePage ctx ;;
  BeginTx ctx ;;;
  or_rollback ctx
    (match overflowIDs with [] => ret tt | _ => writeOverflowChain ctx overflowIDs v end) ;;;
  leafBody <- or_rollback ctx (check (encodeLeafNode [k] [packedVal] rootSentinel)) ;;
  or_rollback ctx (WritePage ctx leafID leafBody) ;;;
  or_rollback ctx (WritePage ctx MetaPageID (encodeMetaPage leafID)) ;;;
  CommitTx ctx ;;;
  modify (with_root leafID).

(** Writing one leaf in a transaction of its own. *)
Definition write_leaf (ctx : ctx) (pageID : Z) (body : list byte)
  (overflowIDs : list Z) (packedVal : list byte) : K unit :=
  BeginTx ctx ;;;
  or_rollback ctx (write_packed_chain ctx overflowIDs packedVal) ;;;
  or_rollback ctx (WritePage ctx pageID body) ;;;
  CommitTx ctx.

Definition updateLeaf (ctx : ctx) (pageID : Z) (keys : list Key) (vals : list (list byte))
  (pos : nat) (packedVal : list byte) (overflowIDs : list Z) (nextLeaf : Z) : K unit :=
  body <- check (encodeLeafNode keys (<[pos := packedVal]> vals) nextLeaf) ;;
  write_leaf ctx pageID body overflowIDs packedVal.

(** [for pos < len(keys) && keys[pos].Compare(k) < 0 { pos++ }] *)
Fixpoint insert_pos (keys : list Key) (k : Key) : nat :=
  match keys with
  | [] => O
  | lk :: rest => match Compare lk k with Lt => S (insert_pos rest k) | _ => O end
  end.

Definition insertIntoLeaf (ctx : ctx) (pageID : Z) (keys : list Key) (vals : list (list byte))
  (k : Key) (packedVal : list byte) (overflowIDs : list Z) (nextLeaf : Z) : K unit :=
  let pos := insert_pos keys k in
  let newKeys := take pos keys ++ k :: drop pos keys in
  let newVals := take pos vals ++ packedVal :: drop pos vals in
  body <- check (encodeLeafNode newKeys newVals nextLeaf) ;;
  write_leaf ctx pageID body overflowIDs packedVal.

(** ** Splits *)

Definition insertIntoInternal (ctx : ctx) (pageID : Z) (keys : list Key) (childPtrs : list Z)
  (childIdx leftChildID rightChildID : Z) (sepKey : Key) : K unit :=
  let newPtrs := ztake childIdx childPtrs ++ leftChildID :: rightChildID
                 :: zdrop (childIdx + 1) childPtrs in
  let newKeys := ztake childIdx keys ++ sepKey :: zdrop childIdx keys in
  body <- check (encodeInternalNode newPtrs newKeys) ;;
  WritePage ctx pageID body.

(** [splitInternal]; [up] is [insertIntoParent] on the rest of the path. *)
Definition splitInternal (up : Z -> Z -> Key -> list Z -> K Z) (ctx : ctx) (pageID : Z)
  (keys : list Key) (childPtrs : list Z) (childIdx leftChildID rightChildID : Z) (sepKey : Key)
  (newPages : list Z) : K Z :=
  match newPages with
  | [] => throw ErrTreeCorrupt
  | newInternalID :: newPages' =>
      let allPtrs := ztake childIdx childPtrs ++ leftChildID :: rightChildID
                     :: zdrop (childIdx + 1) childPtrs in
      let allKeys := ztake childIdx keys ++ sepKey :: zdrop childIdx keys in
      let mid := zlen allKeys / 2 in
      let middleKey := nth (Z.to_nat mid) allKeys sepKey in
      leftBody <- check (encodeInternalNode (ztake (mid + 1) allPtrs) (ztake mid allKeys)) ;;
      WritePage ctx pageID leftBody ;;;
      rightBody <- check (encodeInternalNode (zdrop (mid + 1) allPtrs) (zdrop (mid + 1) allKeys)) ;;
      WritePage ctx newInternalID rightBody ;;;
      up pageID newInternalID middleKey newPages'
  end.

Fixpoint insertIntoParent (ctx : ctx) (path : list pathEntry)
  (leftChildID rightChildID : Z) (sepKey : Key) (newPages : list Z) : K Z :=
  match path with
  | [] =>
      match newPages with
      | [] => throw ErrTreeCorrupt
      | newRootID :: _ =>
          rootBody <- check (encodeInternalNode [leftChildID; rightChildID] [sepKey]) ;;
          WritePage ctx newRootID rootBody ;;;
          WritePage ctx MetaPageID (encodeMetaPage newRootID) ;;;
          ret newRootID
      end
  | parent :: path' =>
      if zlen (pe_keys parent) <? MaxInternalKeys then
        insertIntoInternal ctx (pe_pageID parent) (pe_keys parent) (childPtrs parent)
          (childIdx parent) leftChildID rightChildID sepKey ;;;
        ret 0
      else
        splitInternal (insertIntoParent ctx path') ctx (pe_pageID parent) (pe_keys parent)
          (childPtrs parent) (childIdx parent) leftChildID rightChildID sepKey newPages
  end.

Fixpoint allocate_pages (n : nat) (ctx : ctx) : K (list Z) :=
  match n with
  | O => ret []
  | S n' => id <- AllocatePage ctx ;; ids <- allocate_pages n' ctx ;; ret (id :: ids)
  end.

(** The merge loop of [splitLeaf]. *)
Fixpoint merge_new (keys : list Key) (vals : list (list byte)) (newKey : Key) (packedVal : list byte)
  : list Key * list (list byte) :=
  match keys, vals with
  | k :: keys', v :: vals' =>
      match Compare newKey k with
      | Lt => (newKey :: keys, packedVal :: vals)
      | _ => let '(ks, vs) := merge_new keys' vals' newKey packedVal in (k :: ks, v :: vs)
      end
  | _, _ => ([newKey], [packedVal])
  end.

Definition splitLeaf (ctx : ctx) (leafID : Z) (path : list pathEntry) (keys : list Key)
  (vals : list (list byte)) (newKey : Key) (packedVal : list byte) (overflowIDs : list Z)
  (nextLeaf : Z) : K unit :=
  let '(allKeys, allVals) := merge_new keys vals newKey packedVal in
  let mid := Nat.div (length allKeys) 2 in
  newLeafID <- AllocatePage ctx ;;
  splitPages <- allocate_pages (S (length path)) ctx ;;
  BeginTx ctx ;;;
  or_rollback ctx (write_packed_chain ctx overflowIDs packedVal) ;;;
  leftBody <- or_rollback ctx (check (encodeLeafNode (take mid allKeys) (take mid allVals) newLeafID)) ;;
  or_rollback ctx (WritePage ctx leafID leftBody) ;;;
  rightBody <- or_rollback ctx (check (encodeLeafNode (drop mid allKeys) (drop mid allVals) nextLeaf)) ;;
  or_rollback ctx (WritePage ctx newLeafID rightBody) ;;;
  newRoot <- or_rollback ctx
    (insertIntoParent ctx path leafID newLeafID (nth mid allKeys newKey) splitPages) ;;
  CommitTx ctx ;;;
  if negb (newRoot =? 0) then modify (with_root newRoot) else ret tt.

(** The loop of [setInTree] from [pageID], with the path so far. *)
Fixpoint set_walk (fuel : nat) (ctx : ctx) (path : list pathEntry) (pageID : Z) (k : Key)
  (packedVal : list byte) (overflowIDs : list Z) : K unit :=
  match fuel with
  | O => fail OutOfFuel
  | S fuel' =>
      body <- ReadPage ctx pageID ;;
      if is_type body NodeTypeLeaf then
        '(keys, vals, nextLeaf) <- check (decodeLeafNode body) ;;
        match find_key keys k 0 with
        | Some i => updateLeaf ctx pageID keys vals i packedVal overflowIDs nextLeaf
        | None =>
            if zlen keys <? MaxLeafKeys then
              insertIntoLeaf ctx pageID keys vals k packedVal overflowIDs nextLeaf
            else splitLeaf ctx pageID path keys vals k packedVal overflowIDs nextLeaf
        end
      else if is_type body NodeTypeInternal then
        '(ptrs, ikeys) <- check (decodeInternalNode body) ;;
        let idx := upperBoundIdx ptrs ikeys k in
        set_walk fuel' ctx (mkPath pageID idx ikeys ptrs :: path)
          (nth (Z.to_nat idx) ptrs 0) k packedVal overflowIDs
      else throw ErrTreeCorrupt
  end.

Definition setInTree (fuel : nat) (ctx : ctx) (k : Key) (v : list byte) : K unit :=
  '(overflowIDs, packedVal) <-
     (if MaxValSize <? zlen v then prepareOverflow ctx v else ret ([], v)) ;;
  root <- gets rootPageID ;;
  set_walk fuel ctx [] root k packedVal overflowIDs.

Definition Set_ (fuel : nat) (ctx : ctx) (k : Key) (v : list byte) : K unit :=
  if MaxKeySize <? zlen (data k) then throw ErrKeyTooLarge
  else if MaxValSizeEnterprise <? zlen v then throw ErrValueTooLarge
  else
    checkOpen ;;;
    root <- gets rootPageID ;;
    if root =? rootSentinel then setInEmpty ctx k v else setInTree fuel ctx k v.

(** * Delete *)

Fixpoint deleteFromTree (fuel : nat) (ctx : ctx) (pageID : Z) (k : Key) : K unit :=
  match fuel with
  | O => fail OutOfFuel
  | S fuel' =>
      body <- ReadPage ctx pageID ;;
      if is_type body NodeTypeLeaf then
        '(keys, vals, nextLeaf) <- check (decodeLeafNode body) ;;
        match find_key keys k 0 with
        | None => ret tt
        | Some pos =>
            leafBody <- check (encodeLeafNode (take pos keys ++ drop (S pos) keys)
                                 (take pos vals ++ drop (S pos) vals) nextLeaf) ;;
            BeginTx ctx ;;;
            or_rollback ctx (WritePage ctx pageID leafBody) ;;;
            CommitTx ctx
        end
      else if is_type body NodeTypeInternal then
        '(ptrs, ikeys) <- check (decodeInternalNode body) ;;
        deleteFromTree fuel' ctx (upperBound ptrs ikeys k) k
      else throw ErrTreeCorrupt
  end.

Definition Delete (fuel : nat) (ctx : ctx) (k : Key) : K unit :=
  checkOpen ;;;
  root <- gets rootPageID ;;
  if root =? rootSentinel then ret tt else deleteFromTree fuel ctx root k.

(** * Scan *)

(** The loop over one leaf: the entries in range, and whether the upper bound
    was reached. *)
Fixpoint scan_entries (ctx : ctx) (keys : list Key) (refs : list leafValueRef) (start stop : Key)
  (results : list Entry) : K (list Entry * bool) :=
  match keys, refs with
  | lk :: keys', ref :: refs' =>
      if (0 <? zlen (data start)) && bool_decide (Compare lk start = Lt) then
        scan_entries ctx keys' refs' start stop results
      else if (0 <? zlen (data stop)) && negb (bool_decide (Compare lk stop = Lt)) then
        ret (results, true)
      else
        val <- (if hasOverflow ref then readOverflowValue ctx ref else ret (inline ref)) ;;
        scan_entries ctx keys' refs' start stop (results ++ [mkEntry lk val])
  | _, _ => ret (results, false)
  end.

Fixpoint scanLeaf (fuel : nat) (ctx : ctx) (pageID : Z) (start stop : Key) (results : list Entry)
  : K (list Entry) :=
  if (pageID =? rootSentinel) || (pageID =? 0) then ret results
  else
    match fuel with
    | O => fail OutOfFuel
    | S fuel' =>
        body <- ReadPage ctx pageID ;;
        '(keys, refs, nextLeaf) <- check (decodeLeafNodeRefs body) ;;
        '(results, stopped) <- scan_entries ctx keys refs start stop results ;;
        if stopped : bool then ret results else scanLeaf fuel' ctx nextLeaf start stop results
    end.

(** The descent of [Scan]; [fuel] also bounds the walk along the leaves. *)
Fixpoint scan_from (fuel : nat) (ctx : ctx) (pageID : Z) (start stop : Key) (leaves : nat)
  : K (list Entry) :=
  match fuel with
  | O => fail OutOfFuel
  | S fuel' =>
      body <- ReadPage ctx pageID ;;
      if is_type body NodeTypeLeaf then scanLeaf leaves ctx pageID start stop []
      else if is_type body NodeTypeInternal then
        '(ptrs, ikeys) <- check (decodeInternalNode body) ;;
        scan_from fuel' ctx
          (if zlen (data start) =? 0 then nth 0 ptrs 0 else upperBound ptrs ikeys start)
          start stop leaves
      else throw ErrTreeCorrupt
  end.

Definition Scan (fuel leaves : nat) (ctx : ctx) (start stop : Key) : K (list Entry) :=
  checkOpen ;;;
  root <- gets rootPageID ;;
  if root =? rootSentinel then ret [] else scan_from fuel ctx root start stop leaves.

End btree.
End BTree.
