(* ===== verification/BTreeRep.v ===== *)
(** How the pages of the B+ tree represent an ordered map.

    [subtree m h pid lo hi next first es ids]: in the pages [m], the node [pid]
    is the root of a tree of height [h] whose entries, left to right, are [es],
    with keys in [[lo, hi)]; its leaves are linked from [first] and end with a
    link to [next]; it occupies the pages [ids].  [chain] is the same for a run
    of neighbouring children.  [hole] is a tree with one subtree missing, along
    the path the code records on its way down; [hole_plug] puts a subtree back.
    All of them only look at the pages they list ([_frame]). *)

From Stdlib Require Import ZArith Lia Sorted.
From stdpp Require Import gmap.
From S2P Require Import Prelude OrdMap Page PagerSpec Key KvNode Monad BTree.
Open Scope Z_scope.
Import BTree.

Notation entry := (list byte * list byte)%type.

(** * Bounds *)

Inductive bound : Type := NegInf | Fin (k : list byte) | PosInf.

Definition bound_le (b : bound) (k : list byte) : Prop :=
  match b with NegInf => True | Fin a => bytes_le a k | PosInf => False end.
Definition bound_gt (b : bound) (k : list byte) : Prop :=
  match b with NegInf => False | Fin a => bytes_lt k a | PosInf => True end.
Definition bound_lt (b c : bound) : Prop :=
  match b, c with
  | NegInf, NegInf => False
  | NegInf, _ => True
  | Fin a, Fin d => bytes_lt a d
  | Fin _, PosInf => True
  | _, _ => False
  end.

Lemma bound_lt_trans a b c : bound_lt a b -> bound_lt b c -> bound_lt a c.
Proof. destruct a, b, c; simpl; try done. by apply bytes_lt_trans. Qed.

Lemma bound_gt_lt b c k : bound_gt b k -> bound_lt b c -> bound_gt c k.
Proof. destruct b, c; simpl; try done. by apply bytes_lt_trans. Qed.

Lemma bound_lt_le b c k : bound_lt b c -> bound_le c k -> bound_le b k.
Proof.
  destruct b, c; simpl; try done. intros H1 H2. by eapply bytes_lt_le, bytes_lt_le_trans.
Qed.

Lemma bound_between b x y : bound_gt b x -> bound_le b y -> bytes_lt x y.
Proof. destruct b; simpl; try done. by apply bytes_lt_le_trans. Qed.

Definition keys_in (lo hi : bound) (es : list entry) : Prop :=
  forall k, In k (map fst es) -> bound_le lo k /\ bound_gt hi k.

Lemma keys_in_app lo hi es1 es2 :
  keys_in lo hi (es1 ++ es2) <-> keys_in lo hi es1 /\ keys_in lo hi es2.
Proof.
  unfold keys_in. rewrite map_app. setoid_rewrite in_app_iff. firstorder.
Qed.

Lemma keys_in_weaken lo lo' hi hi' es :
  (forall k, bound_le lo' k -> bound_le lo k) -> (forall k, bound_gt hi' k -> bound_gt hi k) ->
  keys_in lo' hi' es -> keys_in lo hi es.
Proof. unfold keys_in. intros Hl Hh He k Hk. destruct (He k Hk). auto. Qed.

(** * Trees *)

(** Small entries: the value is stored in the leaf. *)
Definition small_entry (e : entry) : Prop := zlen (fst e) <= MaxKeySize /\ zlen (snd e) <= MaxValSize.

Definition leaf_ok (lo hi : bound) (es : list entry) : Prop :=
  Forall small_entry es /\ zlen es <= MaxLeafKeys /\ om_sorted es /\ keys_in lo hi es.

Definition node_image (ptrs : list Z) (keys : list (list byte)) : list byte :=
  internal_image (hd 0 ptrs) (zip keys (tl ptrs)).

Inductive subtree (m : gmap Z (list byte))
  : nat -> Z -> bound -> bound -> Z -> Z -> list entry -> list Z -> Prop :=
| st_leaf pid lo hi next es :
    m !! pid = Some (leaf_image es next) -> leaf_ok lo hi es -> u64 next ->
    subtree m 0 pid lo hi next pid es [pid]
| st_node h pid lo hi next first ch keys es ids :
    m !! pid = Some (node_image (map fst ch) keys) ->
    map snd ch = map Fin keys ++ [hi] -> zlen keys <= MaxInternalKeys ->
    Forall (fun k => zlen k <= MaxKeySize) keys ->
    chain m h ch lo hi next first es ids ->
    subtree m (S h) pid lo hi next first es (pid :: ids)
with chain (m : gmap Z (list byte))
  : nat -> list (Z * bound) -> bound -> bound -> Z -> Z -> list entry -> list Z -> Prop :=
| ch_nil h lo next : chain m h [] lo lo next next [] []
| ch_cons h c mid ch lo hi next next1 first es1 es2 ids1 ids2 :
    bound_lt lo mid -> subtree m h c lo mid next1 first es1 ids1 ->
    chain m h ch mid hi next next1 es2 ids2 ->
    chain m h ((c, mid) :: ch) lo hi next first (es1 ++ es2) (ids1 ++ ids2).

Scheme subtree_mut := Induction for subtree Sort Prop
with chain_mut := Induction for chain Sort Prop.
Combined Scheme subtree_chain_ind from subtree_mut, chain_mut.

(** A run of children never goes backwards. *)
Definition bound_le_b (b c : bound) : Prop := b = c \/ bound_lt b c.

Lemma bound_le_b_trans a b c : bound_le_b a b -> bound_le_b b c -> bound_le_b a c.
Proof. intros [->|H1] [->|H2]; [by left|by right|by right|right; by eapply bound_lt_trans]. Qed.

Lemma bound_le_b_le b c k : bound_le_b b c -> bound_le c k -> bound_le b k.
Proof. intros [->|H]; [done|by apply bound_lt_le]. Qed.

Lemma bound_le_b_gt b c k : bound_le_b b c -> bound_gt b k -> bound_gt c k.
Proof. intros [->|H]; [done|]. intros Hk. by eapply bound_gt_lt. Qed.

Lemma chain_bounds m h ch lo hi next first es ids :
  chain m h ch lo hi next first es ids -> bound_le_b lo hi.
Proof.
  induction 1 as [|? ? ? ? ? ? ? ? ? ? ? ? ? Hlt _ _ IH]; [by left|].
  eapply bound_le_b_trans; [by right|done].
Qed.

Lemma om_sorted_join lo mid hi es1 es2 :
  om_sorted es1 -> om_sorted es2 -> keys_in lo mid es1 -> keys_in mid hi es2 ->
  om_sorted (es1 ++ es2).
Proof.
  intros H1 H2 K1 K2. apply om_sorted_app. split_and!; try done.
  intros x y Hx Hy. destruct (K1 x Hx) as [_ Hg]. destruct (K2 y Hy) as [Hl _].
  by eapply bound_between.
Qed.

(** The entries of a tree are sorted and within its bounds. *)
Lemma subtree_sorted m :
  (forall h pid lo hi next first es ids, subtree m h pid lo hi next first es ids ->
     om_sorted es /\ keys_in lo hi es) /\
  (forall h ch lo hi next first es ids, chain m h ch lo hi next first es ids ->
     om_sorted es /\ keys_in lo hi es).
Proof.
  apply subtree_chain_ind.
  - intros pid lo hi next es _ (_ & _ & Hs & Hk) _. done.
  - done.
  - intros h lo next. split; [constructor|by intros k []].
  - intros h c mid ch lo hi next next1 first es1 es2 ids1 ids2 Hlt _ [Hs1 Hk1] Hch [Hs2 Hk2].
    split; [by eapply om_sorted_join|]. apply keys_in_app. pose proof (chain_bounds _ _ _ _ _ _ _ _ _ Hch).
    split; (eapply keys_in_weaken; [| |eassumption]).
    + done.
    + intros k. by apply bound_le_b_gt.
    + intros k. by apply bound_lt_le.
    + done.
Qed.

Lemma subtree_frame m m' :
  (forall h pid lo hi next first es ids, subtree m h pid lo hi next first es ids ->
     (forall i, i ∈ ids -> m' !! i = m !! i) -> subtree m' h pid lo hi next first es ids) /\
  (forall h ch lo hi next first es ids, chain m h ch lo hi next first es ids ->
     (forall i, i ∈ ids -> m' !! i = m !! i) -> chain m' h ch lo hi next first es ids).
Proof.
  apply subtree_chain_ind.
  - intros pid lo hi next es Hl Hok Hu Hf. constructor; try done. rewrite Hf; [done|constructor].
  - intros h pid lo hi next first ch keys es ids Hl Hk Hn Hs _ IH Hf.
    apply (st_node m' h pid lo hi next first ch keys); try done.
    + rewrite Hf; [done|constructor].
    + apply IH. intros i Hi. apply Hf. by constructor.
  - constructor.
  - intros h c mid ch lo hi next next1 first es1 es2 ids1 ids2 Hlt _ IH1 _ IH2 Hf.
    apply (ch_cons m' h c mid ch lo hi next next1).
    + done.
    + apply IH1. intros i Hi. apply Hf, elem_of_app. by left.
    + apply IH2. intros i Hi. apply Hf, elem_of_app. by right.
Qed.

(** Every page of a tree is allocated, its root first of all. *)
Lemma subtree_alloc m :
  (forall h pid lo hi next first es ids, subtree m h pid lo hi next first es ids ->
     (forall i, i ∈ ids -> is_Some (m !! i)) /\ pid ∈ ids /\ first ∈ ids) /\
  (forall h ch lo hi next first es ids, chain m h ch lo hi next first es ids ->
     (forall i, i ∈ ids -> is_Some (m !! i)) /\ (forall c, c ∈ map fst ch -> c ∈ ids) /\
     (first = next /\ ch = [] \/ first ∈ ids)).
Proof.
  apply subtree_chain_ind.
  - intros pid lo hi next es Hl Hok Hu. split; [|split; constructor].
    intros i ->%list_elem_of_singleton. by eexists.
  - intros h pid lo hi next first ch keys es ids Hl Hk Hn Hs _ (IH & _ & Hf). split; [|split].
    + intros i [->|Hi]%elem_of_cons; [by eexists|by apply IH].
    + constructor.
    + destruct Hf as [[_ ->]|Hf]; [|by constructor].
      destruct keys; discriminate Hk.
  - intros h lo next. split; [|split; [done|by left]]. intros i Hi. by apply elem_of_nil in Hi.
  - intros h c mid ch lo hi next next1 first es1 es2 ids1 ids2 Hlt _ (A1 & B1 & C1) _ (A2 & B2 & _).
    setoid_rewrite elem_of_app. split; [|split].
    + intros i [Hi|Hi]; [by apply A1|by apply A2].
    + intros c'. simpl. intros [->|Hc]%elem_of_cons; [by left|right; by apply B2].
    + right. by left.
Qed.

(** Runs of children can be split and joined. *)
Lemma chain_app_inv m h ch1 ch2 lo hi next first es ids :
  chain m h (ch1 ++ ch2) lo hi next first es ids ->
  exists mid nx es1 es2 ids1 ids2,
    es = es1 ++ es2 /\ ids = ids1 ++ ids2 /\
    chain m h ch1 lo mid nx first es1 ids1 /\ chain m h ch2 mid hi next nx es2 ids2.
Proof.
  revert lo first es ids. induction ch1 as [|[c mid] ch1 IH]; intros lo first es ids Hc.
  - exists lo, first, [], es, [], ids. repeat split; try done. constructor.
  - cbn [app] in Hc. inversion Hc; subst.
    match goal with Hc' : chain _ _ (ch1 ++ ch2) _ _ _ _ _ _ |- _ =>
      destruct (IH _ _ _ _ Hc') as (mid' & nx & e1 & e2 & i1 & i2 & -> & -> & H1 & H2) end.
    exists mid', nx, (es1 ++ e1), e2, (ids1 ++ i1), i2. rewrite !app_assoc.
    repeat split; try done. by econstructor.
Qed.

Lemma chain_app m h ch1 ch2 lo mid hi next nx first es1 es2 ids1 ids2 :
  chain m h ch1 lo mid nx first es1 ids1 -> chain m h ch2 mid hi next nx es2 ids2 ->
  chain m h (ch1 ++ ch2) lo hi next first (es1 ++ es2) (ids1 ++ ids2).
Proof.
  intros H1 H2. induction H1; [done|].
  cbn [app]. rewrite <- !app_assoc. econstructor; [done|done|]. by apply IHchain.
Qed.

Lemma chain_one m h c lo mid next first es ids :
  bound_lt lo mid -> subtree m h c lo mid next first es ids ->
  chain m h [(c, mid)] lo mid next first es ids.
Proof.
  intros Hlt Hs. rewrite <- (app_nil_r es), <- (app_nil_r ids).
  econstructor; [done|done|constructor].
Qed.

Lemma chain_cons_inv m h c mid ch lo hi next first es ids :
  chain m h ((c, mid) :: ch) lo hi next first es ids ->
  exists next1 es1 es2 ids1 ids2, es = es1 ++ es2 /\ ids = ids1 ++ ids2 /\ bound_lt lo mid /\
    subtree m h c lo mid next1 first es1 ids1 /\ chain m h ch mid hi next next1 es2 ids2.
Proof. intros Hc. inversion Hc; subst. by eexists _, _, _, _, _. Qed.

(** * Routing *)

Lemma first_above_shift keys k i j :
  first_above keys k (i + j) = option_map (fun x => x + j) (first_above keys k i).
Proof.
  revert i. induction keys as [|ik keys IH]; intros i; simpl; [done|].
  destruct (Compare k ik); try (replace (i + j + 1) with (i + 1 + j) by lia; apply IH). done.
Qed.

(** The child chosen for [k] is the one whose bounds contain it. *)
Lemma chain_route m h ch lo hi next first es ids keys k :
  chain m h ch lo hi next first es ids -> map snd ch = map Fin keys ++ [hi] ->
  bound_le lo (data k) -> bound_gt hi (data k) ->
  exists ch1 c u ch2 mid nx nxc e1 ec e2 i1 ic i2,
    ch = ch1 ++ (c, u) :: ch2 /\
    upperBoundIdx (map fst ch) (map importKey keys) k = zlen ch1 /\
    chain m h ch1 lo mid nx first e1 i1 /\ bound_lt mid u /\
    subtree m h c mid u nxc nx ec ic /\ chain m h ch2 u hi next nxc e2 i2 /\
    es = e1 ++ ec ++ e2 /\ ids = i1 ++ ic ++ i2 /\
    bound_le mid (data k) /\ bound_gt u (data k).
Proof.
  revert ch lo first es ids. induction keys as [|sep keys IH]; intros ch lo first es ids Hc Hk Hlo Hhi.
  - destruct ch as [|[c u] ch]; [discriminate Hk|]. injection Hk as -> Hk.
    apply map_eq_nil in Hk as ->.
    apply chain_cons_inv in Hc as (nxc & ec & e2 & ic & i2 & -> & -> & Hlt & Hs & Hr).
    exists [], c, hi, [], lo, first, nxc, [], ec, e2, [], ic, i2.
    repeat split; try done. constructor.
  - destruct ch as [|[c u] ch]; [discriminate Hk|]. injection Hk as -> Hk.
    apply chain_cons_inv in Hc as (nxc & ec & e2 & ic & i2 & -> & -> & Hlt & Hs & Hr).
    destruct (Compare k (importKey sep)) eqn:E.
    2: { exists [], c, (Fin sep), ch, lo, first, nxc, [], ec, e2, [], ic, i2.
         unfold upperBoundIdx. cbn [map first_above]. rewrite E.
         repeat split; try done; constructor. }
    all: assert (bytes_le sep (data k)) as Hle by (apply bytes_not_lt; unfold Compare in E;
           cbn [data importKey EncodeBytes] in E; rewrite E; discriminate).
    all: destruct (IH ch (Fin sep) nxc e2 i2 Hr Hk Hle Hhi) as
      (ch1 & c' & u' & ch2 & mid & nx & nxc' & e1 & ec' & e2' & i1 & ic' & i2' & -> & Hidx & H1 & Hlt' & H2
       & H3 & -> & -> & Hm & Hu).
    all: exists ((c, Fin sep) :: ch1), c', u', ch2, mid, nx, nxc', (ec ++ e1), ec', e2', (ic ++ i1), ic', i2'.
    all: split; [done|]; split; [|rewrite <- !app_assoc; repeat split; try done; by econstructor].
    all: unfold upperBoundIdx in *; cbn [map first_above]; rewrite E.
    all: rewrite (first_above_shift _ _ 0 1); cbn [map fst] in *; rewrite !zlen_cons.
    all: destruct (first_above (map importKey keys) k 0); cbn [option_map]; lia.
Qed.

Lemma nth_app_len {A} (l1 l2 : list A) x d i :
  i = zlen l1 -> nth (Z.to_nat i) (l1 ++ x :: l2) d = x.
Proof. intros ->. unfold zlen. rewrite Nat2Z.id, app_nth2, Nat.sub_diag by lia. done. Qed.

(** * Trees with a hole *)

Inductive hole (m : gmap Z (list byte)) (root : Z)
  : list pathEntry -> nat -> Z -> bound -> bound -> Z -> Z ->
    list entry -> list entry -> list Z -> Prop :=
| hole_top h first : hole m root [] h root NegInf PosInf rootSentinel first [] [] []
| hole_in path h pid lo hi next first esb esa idsc ch1 c u ch2 keys mid nx nxc e1 e2 i1 i2 :
    hole m root path (S h) pid lo hi next first esb esa idsc ->
    m !! pid = Some (node_image (map fst (ch1 ++ (c, u) :: ch2)) keys) ->
    map snd (ch1 ++ (c, u) :: ch2) = map Fin keys ++ [hi] -> zlen keys <= MaxInternalKeys ->
    Forall (fun k => zlen k <= MaxKeySize) keys ->
    chain m h ch1 lo mid nx first e1 i1 -> bound_lt mid u -> chain m h ch2 u hi next nxc e2 i2 ->
    hole m root
      (mkPath pid (zlen ch1) (map importKey keys) (map fst (ch1 ++ (c, u) :: ch2)) :: path)
      h c mid u nxc nx (esb ++ e1) (e2 ++ esa) (pid :: i1 ++ i2 ++ idsc).

Lemma hole_plug m root path h c lo hi next first esb esa idsc es ids :
  hole m root path h c lo hi next first esb esa idsc ->
  subtree m h c lo hi next first es ids ->
  exists first' ids', subtree m (length path + h) root NegInf PosInf rootSentinel first'
      (esb ++ es ++ esa) ids' /\ ids' ≡ₚ ids ++ idsc.
Proof.
  intros Hh. revert es ids. induction Hh; intros es ids Hs.
  - exists first, ids. rewrite !app_nil_r. done.
  - destruct (IHHh (e1 ++ es ++ e2) (pid :: i1 ++ ids ++ i2)) as (f' & ids' & Ht & Hp).
    { apply (st_node m h pid lo hi next first (ch1 ++ (c, u) :: ch2) keys); try done.
      eapply chain_app; [done|]. by econstructor. }
    exists f', ids'. split.
    + simpl length. rewrite Nat.add_succ_r in Ht. rewrite <- !app_assoc in Ht.
      by rewrite <- !app_assoc.
    + rewrite Hp. solve_Permutation.
Qed.

Lemma hole_frame m m' root path h c lo hi next first esb esa idsc :
  hole m root path h c lo hi next first esb esa idsc ->
  (forall i, i ∈ idsc -> m' !! i = m !! i) ->
  hole m' root path h c lo hi next first esb esa idsc.
Proof.
  induction 1; intros Hf; [constructor|].
  assert (forall i, i ∈ i1 -> m' !! i = m !! i) as F1 by (intros; apply Hf; set_solver).
  assert (forall i, i ∈ i2 -> m' !! i = m !! i) as F2 by (intros; apply Hf; set_solver).
  econstructor; try done.
  - apply IHhole. intros i Hi. apply Hf. set_solver.
  - rewrite Hf; [done|constructor].
  - by eapply subtree_frame.
  - by eapply subtree_frame.
Qed.

Lemma hole_alloc m root path h c lo hi next first esb esa idsc :
  hole m root path h c lo hi next first esb esa idsc -> forall i, i ∈ idsc -> is_Some (m !! i).
Proof.
  induction 1 as [|path h pid lo hi next first esb esa idsc ch1 c u ch2 keys mid nx nxc e1 e2 i1 i2
    Hh IH Hm Hk Hn Hs C1 Hlt C2]; intros i Hi; [by apply elem_of_nil in Hi|].
  apply elem_of_cons in Hi as [->|Hi]; [by eexists|].
  apply elem_of_app in Hi as [Hi|Hi]; [by apply (proj2 (subtree_alloc m) _ _ _ _ _ _ _ _ C1)|].
  apply elem_of_app in Hi as [Hi|Hi]; [by apply (proj2 (subtree_alloc m) _ _ _ _ _ _ _ _ C2)|by apply IH].
Qed.

(** The entries around a hole are outside its bounds. *)
Lemma hole_around m root path h c lo hi next first esb esa idsc :
  hole m root path h c lo hi next first esb esa idsc ->
  (forall x, In x (map fst esb) -> bound_gt lo x) /\
  (forall x, In x (map fst esa) -> bound_le hi x) /\
  bound_le_b NegInf lo /\ bound_le_b hi PosInf.
Proof.
  induction 1 as [h first|path h pid lo hi next first esb esa idsc ch1 c u ch2 keys mid nx nxc e1 e2 i1 i2
    Hh (IH1 & IH2 & IH3 & IH4) Hm Hk Hn Hs C1 Hlt C2].
  - split_and!; try (by intros x []); by left.
  - destruct (proj2 (subtree_sorted m) _ _ _ _ _ _ _ _ C1) as [_ K1].
    destruct (proj2 (subtree_sorted m) _ _ _ _ _ _ _ _ C2) as [_ K2].
    pose proof (chain_bounds _ _ _ _ _ _ _ _ _ C1) as B1.
    pose proof (chain_bounds _ _ _ _ _ _ _ _ _ C2) as B2.
    split_and!.
    + intros x. rewrite map_app, in_app_iff. intros [Hx|Hx].
      * by eapply bound_le_b_gt, IH1.
      * by destruct (K1 x Hx).
    + intros x. rewrite map_app, in_app_iff. intros [Hx|Hx].
      * by destruct (K2 x Hx).
      * by eapply bound_le_b_le, IH2.
    + by eapply bound_le_b_trans.
    + by eapply bound_le_b_trans.
Qed.

(** Replacing the entries in a hole is an update of the whole map. *)
Lemma hole_get m root path h c lo hi next first esb esa idsc es k :
  hole m root path h c lo hi next first esb esa idsc ->
  bound_le lo k -> bound_gt hi k -> om_get k (esb ++ es ++ esa) = om_get k es.
Proof.
  intros Hh Hlo Hhi. destruct (hole_around _ _ _ _ _ _ _ _ _ _ _ _ Hh) as (Hb & Ha & _).
  rewrite !om_get_app.
  assert (om_get k esb = None) as ->.
  { apply om_get_None, Forall_forall. intros [x v] Hin Heq. simpl in Heq. subst x.
    apply (bytes_lt_irrefl k). eapply bound_between; [apply Hb|exact Hlo].
    apply in_map_iff. exists (k, v). split; [done|by apply list_elem_of_In]. }
  destruct (om_get k es); [done|]. apply om_get_None, Forall_forall.
  intros [x v] Hin Heq. simpl in Heq. subst x.
  apply (bytes_lt_irrefl k). eapply bound_between; [exact Hhi|apply Ha].
  apply in_map_iff. exists (k, v). split; [done|by apply list_elem_of_In].
Qed.

Lemma hole_set m root path h c lo hi next first esb esa idsc es k v :
  hole m root path h c lo hi next first esb esa idsc ->
  bound_le lo k -> bound_gt hi k ->
  om_set k v (esb ++ es ++ esa) = esb ++ om_set k v es ++ esa.
Proof.
  intros Hh Hlo Hhi. destruct (hole_around _ _ _ _ _ _ _ _ _ _ _ _ Hh) as (Hb & Ha & _).
  rewrite om_set_app_r by (intros x Hx; eapply bound_between; [by apply Hb|done]).
  by rewrite om_set_app_l by (intros x Hx; eapply bound_between; [done|by apply Ha]).
Qed.

Lemma hole_del m root path h c lo hi next first esb esa idsc es k :
  hole m root path h c lo hi next first esb esa idsc ->
  bound_le lo k -> bound_gt hi k ->
  om_del k (esb ++ es ++ esa) = esb ++ om_del k es ++ esa.
Proof.
  intros Hh Hlo Hhi. destruct (hole_around _ _ _ _ _ _ _ _ _ _ _ _ Hh) as (Hb & Ha & _).
  rewrite om_del_app_r by (intros x Hx; eapply bound_between; [by apply Hb|done]).
  by rewrite om_del_app_l by (intros x Hx; eapply bound_between; [done|by apply Ha]).
Qed.
