(* ===== verification/BTreeStep.v ===== *)
(** The pure steps of the B+ tree operations: what the code finds in a page of a
    represented tree, how a leaf update acts on its entries, and how a descent
    moves the hole of [BTreeRep.v] one level down. *)

From Stdlib Require Import ZArith Lia Sorted.
From stdpp Require Import gmap.
From S2P Require Import Prelude OrdMap Page PagerSpec Key KvNode Monad BTree BTreeRep.
Open Scope Z_scope.
Import BTree.

(** * Pages of a tree *)

Definition leaf_keys (es : list entry) : list Key := map (fun e => importKey (fst e)) es.

Lemma small_leaf_entry e : small_entry e -> leaf_entry_ok e.
Proof. intros [Hk Hv]. unfold MaxKeySize, MaxValSize in *. split; [done|by left]. Qed.

Lemma small_leaf_entries es : Forall small_entry es -> Forall leaf_entry_ok es.
Proof. intros Hf. eapply Forall_impl; [exact Hf|]. apply small_leaf_entry. Qed.

Lemma leaf_image_type es next :
  is_type (leaf_image es next) NodeTypeLeaf = true.
Proof. unfold is_type, leaf_image, node_header. cbn [app node_type hd]. by apply bool_decide_true. Qed.

Lemma node_image_type ptrs keys :
  is_type (node_image ptrs keys) NodeTypeLeaf = false /\
  is_type (node_image ptrs keys) NodeTypeInternal = true.
Proof.
  unfold is_type, node_image, internal_image, node_header. cbn [app node_type hd].
  split; [by apply bool_decide_false|by apply bool_decide_true].
Qed.

Definition small_ref (e : entry) : leafValueRef := mkRef (zlen (snd e)) (snd e) 0 false.

Lemma ref_of_small e : small_entry e -> ref_of (snd e) = small_ref e.
Proof. intros [_ Hv]. unfold ref_of. by rewrite (proj2 (Z.ltb_ge _ _)). Qed.

Lemma map_small_refs es : Forall small_entry es -> map (fun e => ref_of (snd e)) es = map small_ref es.
Proof. induction 1 as [|e es He Hes IH]; [done|]. cbn [map]. by rewrite IH, ref_of_small. Qed.

Lemma leaf_decode lo hi es next :
  leaf_ok lo hi es -> u64 next ->
  decodeLeafNodeRefs (leaf_image es next) = Ok (leaf_keys es, map small_ref es, next) /\
  decodeLeafNode (leaf_image es next) = Ok (leaf_keys es, map snd es, next).
Proof.
  intros (Hs & Hn & _) Hu.
  assert (decodeLeafNodeRefs (leaf_image es next) = Ok (leaf_keys es, map small_ref es, next)) as E.
  { rewrite decodeLeafNodeRefs_image by (try done; by apply small_leaf_entries).
    by rewrite map_small_refs. }
  split; [exact E|]. unfold decodeLeafNode. rewrite E, res_bind_ok. by rewrite map_map.
Qed.

Lemma node_decode ptrs keys :
  zlen ptrs = zlen keys + 1 -> zlen keys <= MaxInternalKeys ->
  Forall (fun k => zlen k <= MaxKeySize) keys -> Forall u64 ptrs ->
  decodeInternalNode (node_image ptrs keys) = Ok (ptrs, map importKey keys).
Proof.
  intros Hl Hn Hk Hp. destruct ptrs as [|c0 children].
  { change (zlen (@nil Z)) with 0 in Hl. pose proof (zlen_nonneg keys). lia. }
  apply Forall_cons in Hp as [H0 Hp]. rewrite zlen_cons in Hl.
  assert (length keys = length children) as Hlen by (unfold zlen in Hl; lia).
  unfold node_image. cbn [hd tl]. rewrite decodeInternalNode_image; [| | |done].
  - rewrite map_snd_zip by done. rewrite <- (map_map fst importKey). by rewrite map_fst_zip.
  - clear -Hk Hp Hlen. revert children Hp Hlen. induction keys as [|k keys IH]; intros [|c children] Hp Hlen;
      try discriminate Hlen; [constructor|].
    apply Forall_cons in Hk as [? ?]. apply Forall_cons in Hp as [? ?]. constructor; [done|].
    apply IH; [done|done|]. simpl in Hlen. lia.
  - by rewrite zlen_zip.
Qed.

Lemma node_encode ptrs (keys : list Key) :
  zlen ptrs = zlen keys + 1 -> zlen keys <= MaxInternalKeys -> keys_ascending keys = true ->
  Forall (fun k => zlen (data k) <= MaxKeySize) keys -> Forall u64 ptrs ->
  encodeInternalNode ptrs keys = Ok (node_image ptrs (map data keys)) /\
  zlen (node_image ptrs (map data keys)) = DataPageBodySize.
Proof.
  intros Hl Hn Hs Hk Hp. destruct ptrs as [|c0 children].
  { change (zlen (@nil Z)) with 0 in Hl. pose proof (zlen_nonneg keys). lia. }
  apply Forall_cons in Hp as [H0 Hp]. rewrite zlen_cons in Hl.
  assert (length keys = length children) as Hlen by (unfold zlen in Hl; lia).
  assert (Forall internal_entry_ok (zip (map data keys) children)) as Hok.
  { clear -Hk Hp Hlen. revert children Hp Hlen. induction keys as [|k keys IH];
      intros [|c children] Hp Hlen; try discriminate Hlen; [constructor|].
    apply Forall_cons in Hk as [? ?]. apply Forall_cons in Hp as [? ?]. constructor; [done|].
    apply IH; [done|done|]. simpl in Hlen. lia. }
  unfold node_image. cbn [hd tl]. split; [by apply encodeInternalNode_image|].
  apply zlen_internal_image; [done|]. by rewrite zlen_zip, zlen_map by (by rewrite length_map).
Qed.

(** * Leaf updates *)

Lemma keys_ascending_sorted (keys : list Key) :
  StronglySorted bytes_lt (map data keys) -> keys_ascending keys = true.
Proof.
  induction keys as [|k1 keys IH]; [done|]. intros Hs. inversion Hs as [|? ? Hs' Hf]; subst.
  specialize (IH Hs'). destruct keys as [|k2 keys]; [done|].
  cbn [keys_ascending]. inversion Hf as [|? ? Hlt]; subst. unfold Compare.
  unfold bytes_lt in Hlt. rewrite Hlt. exact IH.
Qed.

(** The code encodes keys and values; the entries are what matters. *)
Lemma leaf_encode lo hi es keys vals next :
  leaf_ok lo hi es -> map data keys = map fst es -> vals = map snd es ->
  encodeLeafNode keys vals next = Ok (leaf_image es next) /\
  zlen (leaf_image es next) = DataPageBodySize.
Proof.
  intros (Hs & Hn & Hsort & _) Hk ->.
  assert (length keys = length es) as Hl by (by rewrite <- (length_map data), Hk, length_map).
  assert (zip (map data keys) (map snd es) = es) as Hz.
  { rewrite Hk. clear. induction es as [|[k v] es IH]; simpl; [done|by rewrite IH]. }
  split; [|by apply zlen_leaf_image; [apply small_leaf_entries|]].
  rewrite <- Hz at 2. apply encodeLeafNode_image.
  - by rewrite length_map.
  - unfold zlen in *. by rewrite Hl.
  - apply keys_ascending_sorted. by rewrite Hk.
  - rewrite Hz. by apply small_leaf_entries.
Qed.

Lemma data_leaf_keys es : map data (leaf_keys es) = map fst es.
Proof. unfold leaf_keys. by rewrite map_map. Qed.

Lemma find_key_none es k i :
  find_key (leaf_keys es) k i = None -> om_get (data k) es = None.
Proof.
  revert i. induction es as [|[k' v'] es IH]; intros i; [done|].
  cbn [leaf_keys map fst find_key om_get]. unfold Compare. cbn [data importKey EncodeBytes].
  destruct (bytes_compare k' (data k)); [done|apply IH|apply IH].
Qed.

Lemma find_key_some es k i j v :
  om_sorted es -> find_key (leaf_keys es) k i = Some j ->
  exists pos, j = (i + pos)%nat /\ (exists v0, es !! pos = Some (data k, v0) /\ om_get (data k) es = Some v0) /\
    om_set (data k) v es = <[pos := (data k, v)]> es /\
    om_del (data k) es = take pos es ++ drop (S pos) es.
Proof.
  revert i. induction es as [|[k' v'] es IH]; intros i Hsort; [done|].
  apply om_sorted_cons in Hsort as [Hsort Hlt].
  cbn [leaf_keys map fst find_key om_get om_set om_del]. unfold Compare. cbn [data importKey EncodeBytes].
  destruct (bytes_compare k' (data k)) eqn:E; intros Hf.
  - injection Hf as <-. apply bytes_compare_eq in E as ->. exists 0%nat. split; [lia|].
    split; [by exists v'|done].
  - destruct (IH (S i) Hsort Hf) as (pos & -> & (v0 & Hv & Hg) & Hs & Hd).
    exists (S pos). split; [lia|]. split; [by exists v0|]. simpl. by rewrite Hs, Hd.
  - destruct (IH (S i) Hsort Hf) as (pos & _ & (v0 & Hv & _) & _).
    exfalso. apply bytes_gt_lt in E. apply (bytes_lt_irrefl (data k)).
    eapply bytes_lt_trans; [exact E|]. apply Hlt. apply in_map_iff. exists (data k, v0).
    split; [done|]. apply list_elem_of_In. by eapply list_elem_of_lookup_2.
Qed.

Lemma insert_pos_set es k v i :
  find_key (leaf_keys es) k i = None ->
  om_set (data k) v es
  = take (insert_pos (leaf_keys es) k) es ++ (data k, v) :: drop (insert_pos (leaf_keys es) k) es.
Proof.
  revert i. induction es as [|[k' v'] es IH]; intros i; [done|].
  cbn [leaf_keys map fst find_key om_set insert_pos]. unfold Compare. cbn [data importKey EncodeBytes].
  destruct (bytes_compare k' (data k)); [done| |done]. intros Hf. simpl. by rewrite (IH _ Hf).
Qed.

Lemma merge_new_set es k v i keys' vals' :
  find_key (leaf_keys es) k i = None ->
  merge_new (leaf_keys es) (map snd es) k v = (keys', vals') ->
  map data keys' = map fst (om_set (data k) v es) /\ vals' = map snd (om_set (data k) v es).
Proof.
  revert i keys' vals'. induction es as [|[k' v'] es IH]; intros i keys' vals'.
  { intros _ [= <- <-]. done. }
  cbn [leaf_keys map fst snd find_key om_set merge_new]. unfold Compare. cbn [data importKey EncodeBytes].
  rewrite (bytes_compare_antisym k' (data k)). destruct (bytes_compare k' (data k)); cbn [CompOpp].
  - done.
  - destruct (merge_new (leaf_keys es) (map snd es) k v) as [ks vs] eqn:Em. unfold leaf_keys in Em.
    rewrite Em. intros Hf [= <- <-]. destruct (IH _ _ _ Hf eq_refl) as [H1 H2].
    cbn [map fst snd]. by rewrite H1, H2.
  - intros _ [= <- <-]. cbn [map fst snd]. rewrite <- data_leaf_keys. done.
Qed.

Lemma zlen_om_set k v (es : list entry) : zlen (om_set k v es) <= zlen es + 1.
Proof.
  induction es as [|[k' v'] es IH]; cbn [om_set]; [done|].
  destruct (bytes_compare k' k); rewrite ?zlen_cons; lia.
Qed.

Lemma zlen_om_del k (es : list entry) : zlen (om_del k es) <= zlen es.
Proof.
  induction es as [|[k' v'] es IH]; cbn [om_del]; [done|].
  destruct (bytes_compare k' k); rewrite ?zlen_cons; lia.
Qed.

Lemma om_set_small k v es :
  small_entry (k, v) -> Forall small_entry es -> Forall small_entry (om_set k v es).
Proof.
  intros Hkv Hes. induction Hes as [|[k' v'] es He Hes IH]; cbn [om_set]; [by constructor|].
  destruct (bytes_compare k' k); eauto using Forall_cons_2.
Qed.

Lemma om_del_small k es : Forall small_entry es -> Forall small_entry (om_del k es).
Proof.
  intros Hes. induction Hes as [|[k' v'] es He Hes IH]; cbn [om_del]; [done|].
  destruct (bytes_compare k' k); [done|by constructor|by constructor].
Qed.

Lemma keys_in_set lo hi k v es :
  bound_le lo k -> bound_gt hi k -> keys_in lo hi es -> keys_in lo hi (om_set k v es).
Proof. intros Hlo Hhi He x [->|Hx]%om_set_keys; [done|by apply He]. Qed.

Lemma keys_in_del lo hi k es : keys_in lo hi es -> keys_in lo hi (om_del k es).
Proof. intros He x Hx%om_del_keys. by apply He. Qed.

Lemma leaf_ok_set lo hi k v es :
  leaf_ok lo hi es -> small_entry (k, v) -> bound_le lo k -> bound_gt hi k ->
  zlen (om_set k v es) <= MaxLeafKeys -> leaf_ok lo hi (om_set k v es).
Proof.
  intros (Hs & _ & Hsort & Hk) Hkv Hlo Hhi Hn. split_and!; [by apply om_set_small|done| |by apply keys_in_set].
  by apply om_set_sorted.
Qed.

Lemma leaf_ok_del lo hi k es : leaf_ok lo hi es -> leaf_ok lo hi (om_del k es).
Proof.
  intros (Hs & Hn & Hsort & Hk). split_and!; [by apply om_del_small| |by apply om_del_sorted|by apply keys_in_del].
  pose proof (zlen_om_del k es). lia.
Qed.

(** Cutting a run of entries in two at a key. *)
Lemma leaf_split lo hi es n k v :
  Forall small_entry es -> om_sorted es -> keys_in lo hi es ->
  es !! n = Some (k, v) -> (0 < n)%nat -> (n <= 7)%nat -> (length es <= n + 7)%nat ->
  leaf_ok lo (Fin k) (take n es) /\ leaf_ok (Fin k) hi (drop n es) /\
  bound_lt lo (Fin k) /\ bound_lt (Fin k) hi.
Proof.
  intros Hs Hsort Hk Hn H0 H7 Hlen.
  assert (drop n es = (k, v) :: drop (S n) es) as Hd by by apply drop_S.
  pose proof (take_drop n es) as Htd. rewrite Hd in Htd.
  assert (om_sorted (take n es ++ drop n es)) as Hsort' by by rewrite take_drop.
  apply om_sorted_app in Hsort' as (S1 & S2 & Hcross).
  assert (forall x, In x (map fst (take n es)) -> bytes_lt x k) as Hl.
  { intros x Hx. apply Hcross; [done|]. rewrite Hd. by left. }
  assert (forall x, In x (map fst (drop n es)) -> bytes_le k x) as Hr.
  { rewrite Hd in *. apply om_sorted_cons in S2 as [_ S2]. intros x [<-|Hx]; [apply bytes_le_refl|].
    by apply bytes_lt_le, S2. }
  assert (forall x, In x (map fst (take n es)) \/ In x (map fst (drop n es)) ->
    bound_le lo x /\ bound_gt hi x) as Hin.
  { intros x Hx. apply Hk. rewrite <- (take_drop n es), map_app. by apply in_app_iff. }
  split_and!.
  - split_and!; [by apply Forall_take| |done|].
    + unfold zlen, MaxLeafKeys. rewrite length_take. lia.
    + intros x Hx. destruct (Hin x); [by left|]. split; [done|by apply Hl].
  - split_and!; [by apply Forall_drop| |done|].
    + unfold zlen, MaxLeafKeys. rewrite length_drop. lia.
    + intros x Hx. destruct (Hin x); [by right|]. split; [by apply Hr|done].
  - destruct (take n es) as [|[k0 v0] t] eqn:Et.
    { assert (length (take n es) = n) as Hlt.
      { apply length_take_le. apply lookup_lt_Some in Hn. lia. }
      rewrite Et in Hlt. simpl in Hlt. lia. }
    destruct (Hin k0) as [Hb _]; [left; by left|].
    assert (bytes_lt k0 k) by (apply Hl; by left).
    destruct lo; simpl in *; try done. by eapply bytes_le_lt_trans.
  - destruct (Hin k) as [_ Hb]; [right; rewrite Hd; by left|].
    destruct hi; simpl in *; try done.
Qed.

(** * Descending *)

Lemma fin_prefix_keys ch1 (c : Z) u ch2 keys hi :
  map snd (ch1 ++ (c, u) :: ch2) = map Fin keys ++ [hi] ->
  map snd ch1 = map Fin (take (length ch1) keys) /\
  u :: map snd ch2 = map Fin (drop (length ch1) keys) ++ [hi] /\ (length ch1 <= length keys)%nat.
Proof.
  intros E. assert (length (map snd (ch1 ++ (c, u) :: ch2)) = length (map Fin keys ++ [hi])) as Hl by by rewrite E.
  rewrite length_map, !length_app, length_map in Hl. simpl in Hl.
  rewrite <- (take_drop (length ch1) keys) in E. rewrite map_app, map_app, <- app_assoc in E.
  apply app_inj_1 in E as [E1 E2]; [|rewrite !length_map, length_take; lia].
  split; [done|]. split; [done|lia].
Qed.

Section pages.
Context (m : gmap Z (list byte)).
Hypothesis Hm : forall id body, m !! id = Some body -> FirstDataPageID <= id < max_pages.

Lemma page_u64 id : is_Some (m !! id) -> u64 id.
Proof using Hm. intros [b Hb]. apply Hm in Hb. unfold FirstDataPageID, max_pages, u64 in *. lia. Qed.

Lemma chain_ptrs_u64 h ch lo hi next first es ids :
  chain m h ch lo hi next first es ids -> Forall u64 (map fst ch).
Proof using Hm.
  intros Hc. apply Forall_forall. intros c Hin.
  destruct (proj2 (subtree_alloc m) _ _ _ _ _ _ _ _ Hc) as (Ha & Hi & _).
  apply page_u64, Ha, Hi. done.
Qed.

Lemma node_keys_count (ch : list (Z * bound)) keys hi :
  map snd ch = map Fin keys ++ [hi] -> zlen (map fst ch) = zlen keys + 1.
Proof.
  intros E. assert (length (map snd ch) = length (map Fin keys ++ [hi])) as Hl by by rewrite E.
  rewrite length_map, length_app, length_map in Hl. simpl in Hl.
  unfold zlen. rewrite length_map. lia.
Qed.

(** One step down: the page, the child the code follows, and the new hole. *)
Lemma hole_step root path h pid lo hi next first esb esa idsc es ids k :
  hole m root path (S h) pid lo hi next first esb esa idsc ->
  subtree m (S h) pid lo hi next first es ids ->
  bound_le lo (data k) -> bound_gt hi (data k) ->
  exists body ptrs keys child lo' hi' next' first' esb' esa' idsc' es' ids',
    m !! pid = Some body /\ is_type body NodeTypeLeaf = false /\
    is_type body NodeTypeInternal = true /\
    decodeInternalNode body = Ok (ptrs, keys) /\
    nth (Z.to_nat (upperBoundIdx ptrs keys k)) ptrs 0 = child /\
    hole m root (mkPath pid (upperBoundIdx ptrs keys k) keys ptrs :: path) h child lo' hi' next' first'
      esb' esa' idsc' /\
    subtree m h child lo' hi' next' first' es' ids' /\
    bound_le lo' (data k) /\ bound_gt hi' (data k) /\
    esb ++ es ++ esa = esb' ++ es' ++ esa' /\ ids ++ idsc ≡ₚ ids' ++ idsc'.
Proof using Hm.
  intros Hh Hs Hlo Hhi. inversion Hs as [|? ? ? ? ? ? ch keys ? ids0 Hl Hk Hn Hks Hc]; subst.
  destruct (chain_route m h ch lo hi next first es ids0 keys k Hc Hk Hlo Hhi) as
    (ch1 & c & u & ch2 & mid & nx & nxc & e1 & ec & e2 & i1 & ic & i2 & -> & Hidx & C1 & Hlt & Hsub & C2
     & -> & -> & Hlo' & Hhi').
  exists (node_image (map fst (ch1 ++ (c, u) :: ch2)) keys), (map fst (ch1 ++ (c, u) :: ch2)),
    (map importKey keys), c, mid, u, nxc, nx, (esb ++ e1), (e2 ++ esa), (pid :: i1 ++ i2 ++ idsc), ec, ic.
  destruct (node_image_type (map fst (ch1 ++ (c, u) :: ch2)) keys) as [T1 T2].
  rewrite Hidx. split_and!; try done.
  - apply node_decode; [by eapply node_keys_count|done|done|by eapply chain_ptrs_u64].
  - rewrite map_app. cbn [map fst]. apply nth_app_len. by rewrite zlen_map.
  - by econstructor.
  - by rewrite <- !app_assoc.
  - solve_Permutation.
Qed.

Lemma hole_leaf root path pid lo hi next first esb esa idsc es ids :
  hole m root path 0 pid lo hi next first esb esa idsc ->
  subtree m 0 pid lo hi next first es ids ->
  exists body, m !! pid = Some body /\ is_type body NodeTypeLeaf = true /\
    decodeLeafNodeRefs body = Ok (leaf_keys es, map small_ref es, next) /\
    decodeLeafNode body = Ok (leaf_keys es, map snd es, next) /\
    leaf_ok lo hi es /\ u64 next /\ first = pid /\ ids = [pid].
Proof using.
  intros _ Hs. inversion Hs as [? ? ? ? ? Hl Hok Hu|]; subst.
  destruct (leaf_decode _ _ _ _ Hok Hu) as [D1 D2].
  exists (leaf_image es next). split_and!; try done.
Qed.
End pages.
