(* ===== verification/BTreeProof.v ===== *)
(** The operations of the B+ tree, proved over the pager interface.

    [tree_rep] ties a store to the ordered map it holds: an open store whose meta
    page and in-memory root agree, and whose root is a represented tree.  Get,
    Set, Delete and Scan are shown to succeed on it and to be the lookup, update,
    removal and range of the ordered map of [OrdMap.v].  Values here are at most
    [MaxValSize] bytes: larger ones are not preserved by updates of their leaf
    (see [KvNode.reencode_loses_overflow]). *)

From Stdlib Require Import ZArith Lia Sorted.
From stdpp Require Import gmap.
From S2P Require Import Prelude OrdMap Page PagerSpec Key KvNode Monad BTree BTreeRep BTreeStep.
Open Scope Z_scope.
Open Scope st_scope.
Import BTree.

Lemma NoDup_perm {A} (l l' : list A) : l ≡ₚ l' -> NoDup l -> NoDup l'.
Proof. by intros ->. Qed.

Section proofs.
Context {P : Type} `{PagerSpec P}.

(** An open store over a healthy pager. *)
Definition running (s : btreeStore) (n : nat) (v : page_view) (root : Z) : Prop :=
  pg_rel (pg s) n v /\ isOpen s = true /\ closed s = false /\ rootPageID s = root.

Lemma running_weaken s n n' v r : (n' <= n)%nat -> running s n v r -> running s n' v r.
Proof. intros Hle (Hr & ?). split; [|done]. by eapply pg_rel_weaken. Qed.

Lemma running_pages s n v r id body :
  running s n v r -> v_pages v !! id = Some body -> FirstDataPageID <= id < max_pages.
Proof. intros (Hr & _) Hl. by destruct (pg_page_ok _ _ _ _ _ Hr Hl). Qed.

(** ** The pager calls *)

Lemma ReadPage_run s n v r id body :
  running s n v r -> v_pages v !! id = Some body ->
  exists s', ReadPage None id s = (Ok body, s') /\ running s' n v r.
Proof.
  intros (Hr & ? & ? & ?) Hl. destruct (pg_read_law _ _ _ _ _ Hr Hl) as (p' & E & Hr').
  exists (with_pg p' s). unfold ReadPage, call. rewrite E. done.
Qed.

Lemma WritePage_run s n v r id body :
  running s n v r -> is_Some (v_pages v !! id) -> zlen body = DataPageBodySize ->
  exists s', WritePage None id body s = (Ok tt, s') /\
    running s' n (mkView (<[id := body]> (v_pages v)) (v_tx v)) r.
Proof.
  intros (Hr & ? & ? & ?) Hid Hb. destruct (pg_write_law _ _ _ _ _ Hr Hid Hb) as (p' & E & Hr').
  exists (with_pg p' s). unfold WritePage, call. rewrite E. done.
Qed.

Lemma AllocatePage_run s n v r :
  running s (S n) v r -> v_tx v = None ->
  exists id s', AllocatePage None s = (Ok id, s') /\ v_pages v !! id = None /\
    FirstDataPageID <= id < max_pages /\
    running s' n (mkView (<[id := zero_body]> (v_pages v)) None) r.
Proof.
  intros (Hr & ? & ? & ?) Ht. destruct (pg_alloc_law _ _ _ Hr Ht) as (id & p' & E & ? & ? & Hr').
  exists id, (with_pg p' s). unfold AllocatePage, call. rewrite E. done.
Qed.

Lemma BeginTx_run s n v r :
  running s (S n) v r -> v_tx v = None ->
  exists s', BeginTx None s = (Ok tt, s') /\ running s' n (mkView (v_pages v) (Some (v_pages v))) r.
Proof.
  intros (Hr & ? & ? & ?) Ht. destruct (pg_begin_law _ _ _ Hr Ht) as (p' & E & Hr').
  exists (with_pg p' s). unfold BeginTx, call. rewrite E. done.
Qed.

Lemma CommitTx_run s n v r saved :
  running s n v r -> v_tx v = Some saved ->
  exists s', CommitTx None s = (Ok tt, s') /\ running s' n (mkView (v_pages v) None) r.
Proof.
  intros (Hr & ? & ? & ?) Ht. destruct (pg_commit_law _ _ _ _ Hr Ht) as (p' & E & Hr').
  exists (with_pg p' s). unfold CommitTx, call. rewrite E. done.
Qed.

Lemma checkOpen_run s n v r : running s n v r -> checkOpen s = (Ok tt, s).
Proof. intros (_ & Ho & Hc & _). unfold checkOpen. rewrite bind_gets, Hc, bind_gets, Ho. done. Qed.

Lemma rootPageID_run s n v r : running s n v r -> rootPageID s = r.
Proof. by intros (_ & _ & _ & ?). Qed.

(** ** The representation *)

Definition tree_pages (m : gmap Z (list byte)) (root : Z) (h : nat) (l : list entry) : Prop :=
  m !! MetaPageID = Some (meta_image root) /\
  if decide (root = rootSentinel) then l = []
  else exists first ids, subtree m h root NegInf PosInf rootSentinel first l ids /\
         NoDup (MetaPageID :: ids).

(** [tree_rep s n h l]: the store holds [l] in a tree of height [h], outside of
    any transaction, with room for [n] more page allocations and transactions. *)
Definition tree_rep (s : btreeStore) (n h : nat) (l : list entry) : Prop :=
  exists m root, running s n (mkView m None) root /\ tree_pages m root h l.

Lemma tree_rep_weaken s n n' h l : (n' <= n)%nat -> tree_rep s n h l -> tree_rep s n' h l.
Proof. intros Hle (m & r & Hr & Ht). exists m, r. split; [by eapply running_weaken|done]. Qed.

(** The map a store holds is sorted. *)
Lemma tree_rep_sorted s n h l : tree_rep s n h l -> om_sorted l.
Proof.
  intros (m & r & _ & _ & Ht). destruct (decide (r = rootSentinel)); [subst; constructor|].
  destruct Ht as (first & ids & Hs & _). by apply (proj1 (subtree_sorted m) _ _ _ _ _ _ _ _ Hs).
Qed.

(** ** Get *)

Definition lookup_result (k : Key) (l : list entry) : res btree_err (list byte) :=
  match om_get (data k) l with Some v => Ok v | None => Err (KvErr ErrKeyNotFound) end.

Lemma find_key_lookup es k i :
  match find_key (leaf_keys es) k i with
  | Some j => exists e, nth (j - i) (map small_ref es) no_ref = small_ref e /\
                        om_get (data k) es = Some (snd e) /\ (i <= j)%nat
  | None => om_get (data k) es = None
  end.
Proof.
  revert i. induction es as [|[k' v'] es IH]; intros i; [done|].
  cbn [leaf_keys map fst find_key om_get]. unfold Compare. cbn [data importKey EncodeBytes].
  specialize (IH (S i)). destruct (bytes_compare k' (data k)) eqn:E;
    [exists (k', v'); rewrite Nat.sub_diag; done| |];
    (destruct (find_key (leaf_keys es) k (S i)) as [j|] eqn:F; unfold leaf_keys in F; rewrite F;
     [destruct IH as (e & Hn & Hg & Hle); exists e;
      replace (j - i)%nat with (S (j - S i)) by lia; split; [done|split; [done|lia]]|done]).
Qed.

Lemma search_run s n m tx r path h pid lo hi next first esb esa idsc es ids k fuel :
  running s n (mkView m tx) r ->
  hole m r path h pid lo hi next first esb esa idsc ->
  subtree m h pid lo hi next first es ids ->
  bound_le lo (data k) -> bound_gt hi (data k) -> (h < fuel)%nat ->
  exists s', search fuel None pid k s = (lookup_result k (esb ++ es ++ esa), s') /\
    running s' n (mkView m tx) r.
Proof.
  revert s path pid lo hi next first esb esa idsc es ids fuel.
  induction h as [|h IH]; intros s path pid lo hi next first esb esa idsc es ids [|fuel] Hr Hh Hs Hlo Hhi Hf;
    try lia; cbn [search].
  - destruct (hole_leaf m r path pid lo hi next first esb esa idsc es ids Hh Hs) as
      (body & Hl & Ty & D & _ & (Hsm & _) & _).
    destruct (ReadPage_run s n _ r pid body Hr Hl) as (s1 & E1 & Hr1).
    erewrite bind_ok by exact E1. rewrite Ty, D. unfold check. rewrite bind_lift.
    exists s1. split; [|done]. unfold lookup_result.
    rewrite (hole_get _ _ _ _ _ _ _ _ _ _ _ _ es (data k) Hh Hlo Hhi).
    pose proof (find_key_lookup es k 0) as Hfk.
    destruct (find_key (leaf_keys es) k 0) as [j|]; [|by rewrite Hfk].
    destruct Hfk as (e & Hn & Hg & _). rewrite Nat.sub_0_r in Hn. cbn zeta. rewrite Hn, Hg. done.
  - destruct (hole_step m (fun i b => running_pages s n (mkView m tx) r i b Hr) r path h pid lo hi
      next first esb esa idsc es ids k Hh Hs Hlo Hhi) as
      (body & ptrs & keys & child & lo' & hi' & next' & first' & esb' & esa' & idsc' & es' & ids' &
       Hl & T1 & T2 & D & Hc & Hh' & Hs' & Hlo' & Hhi' & Hes & _).
    destruct (ReadPage_run s n _ r pid body Hr Hl) as (s1 & E1 & Hr1).
    erewrite bind_ok by exact E1. rewrite T1, T2, D. unfold check. rewrite bind_lift.
    unfold upperBound. rewrite Hc, Hes. eapply IH; try eassumption. lia.
Qed.

(** Where the descent from the root starts. *)
Lemma tree_hole m r h l first ids :
  subtree m h r NegInf PosInf rootSentinel first l ids ->
  hole m r [] h r NegInf PosInf rootSentinel first [] [] [].
Proof. intros _. constructor. Qed.

Lemma tree_rep_get s n h l k fuel :
  tree_rep s n h l -> (h < fuel)%nat ->
  exists s', Get fuel None k s = (lookup_result k l, s') /\ tree_rep s' n h l.
Proof.
  intros (m & r & Hr & Hmeta & Ht) Hf. unfold Get.
  erewrite bind_ok by by eapply checkOpen_run. rewrite bind_gets, (rootPageID_run _ _ _ _ Hr).
  destruct (decide (r = rootSentinel)) as [->|Hne].
  - rewrite Z.eqb_refl. subst l. exists s. split; [done|]. exists m, rootSentinel.
    split; [done|]. split; [done|]. by rewrite decide_True.
  - rewrite (proj2 (Z.eqb_neq _ _)) by done. destruct Ht as (first & ids & Hs & Hnd).
    destruct (search_run s n m None r [] h r _ _ _ _ [] [] [] l ids k fuel Hr (tree_hole _ _ _ _ _ _ Hs) Hs)
      as (s' & E & Hr'); [done|done|done|].
    exists s'. rewrite E. cbn [app]. rewrite app_nil_r. split; [done|]. exists m, r.
    split; [done|]. split; [done|]. rewrite decide_False by done. by exists first, ids.
Qed.

(** ** Writing a leaf in place *)

(** The result of replacing the page of the leaf in a hole. *)
Lemma leaf_rewrite m r path pid lo hi next first esb esa idsc es l' body :
  hole m r path 0 pid lo hi next first esb esa idsc -> first = pid ->
  leaf_ok lo hi es -> u64 next -> body = leaf_image es next ->
  NoDup (MetaPageID :: pid :: idsc) -> l' = esb ++ es ++ esa ->
  exists first' ids', subtree (<[pid := body]> m) (length path) r NegInf PosInf rootSentinel first' l' ids' /\
    NoDup (MetaPageID :: ids').
Proof.
  intros Hh -> Hok Hu -> Hnd ->. pose proof Hnd as Hnd'.
  apply NoDup_cons in Hnd' as [_ Hnd']. apply NoDup_cons in Hnd' as [Hpid _].
  assert (hole (<[pid := leaf_image es next]> m) r path 0 pid lo hi next pid esb esa idsc) as Hh'.
  { eapply hole_frame; [exact Hh|]. intros i Hi. apply lookup_insert_ne. intros ->. contradiction. }
  assert (subtree (<[pid := leaf_image es next]> m) 0 pid lo hi next pid es [pid]) as Hs.
  { constructor; [apply lookup_insert_eq|done|done]. }
  destruct (hole_plug _ _ _ _ _ _ _ _ _ _ _ _ _ _ Hh' Hs) as (first' & ids' & Ht & Hp).
  rewrite Nat.add_0_r in Ht. exists first', ids'. split; [done|]. by rewrite Hp.
Qed.

Lemma write_leaf_run s n m r pid body :
  running s (S n) (mkView m None) r -> is_Some (m !! pid) -> zlen body = DataPageBodySize ->
  forall packed, exists s', write_leaf None pid body [] packed s = (Ok tt, s') /\
    running s' n (mkView (<[pid := body]> m) None) r.
Proof.
  intros Hr Hid Hb packed. unfold write_leaf.
  destruct (BeginTx_run _ _ _ _ Hr) as (s1 & E1 & Hr1); [done|]. erewrite bind_ok by exact E1.
  unfold or_rollback. erewrite bind_ok by (apply cleanup_ok; reflexivity).
  destruct (WritePage_run _ _ _ _ pid body Hr1) as (s2 & E2 & Hr2); [done|done|].
  erewrite bind_ok by (apply cleanup_ok; exact E2).
  destruct (CommitTx_run _ _ _ _ m Hr2) as (s3 & E3 & Hr3); [done|]. by exists s3.
Qed.
(** ** Splitting *)

Lemma chain_strict m h ch lo hi next first es ids :
  chain m h ch lo hi next first es ids -> ch <> [] -> bound_lt lo hi.
Proof.
  intros Hc Hne. destruct ch as [|[c mid] ch]; [done|].
  apply chain_cons_inv in Hc as (n1 & e1 & e2 & i1 & i2 & -> & -> & Hlt & _ & Hc).
  destruct (chain_bounds _ _ _ _ _ _ _ _ _ Hc) as [->|?]; [done|by eapply bound_lt_trans].
Qed.

Lemma chain_last m h ch c u lo hi next first es ids :
  chain m h (ch ++ [(c, u)]) lo hi next first es ids -> u = hi.
Proof.
  intros Hc. apply chain_app_inv in Hc as (mid & nx & e1 & e2 & i1 & i2 & _ & _ & _ & Hc).
  apply chain_cons_inv in Hc as (n1 & e3 & e4 & i3 & i4 & _ & _ & _ & _ & Hc). by inversion Hc.
Qed.

(** The separators of a node are strictly ascending. *)
Lemma chain_keys_sorted m h ch lo hi next first es ids keys :
  chain m h ch lo hi next first es ids -> map snd ch = map Fin keys ++ [hi] ->
  StronglySorted bytes_lt keys /\ Forall (fun k => bound_lt lo (Fin k)) keys.
Proof.
  revert ch lo first es ids. induction keys as [|k keys IH]; intros ch lo first es ids Hc Hk.
  - split; constructor.
  - destruct ch as [|[c u] ch]; [discriminate Hk|]. injection Hk as -> Hk.
    apply chain_cons_inv in Hc as (n1 & e1 & e2 & i1 & i2 & -> & -> & Hlt & _ & Hc).
    destruct (IH ch (Fin k) n1 e2 i2 Hc Hk) as [Hs Hf]. split.
    + constructor; [done|exact Hf].
    + constructor; [done|]. eapply Forall_impl; [exact Hf|]. intros x Hx. by eapply bound_lt_trans.
Qed.

Lemma node_write s n m tx r h ch lo hi next first es ids (ks : list Key) pid :
  running s n (mkView m tx) r ->
  chain m h ch lo hi next first es ids -> map snd ch = map Fin (map data ks) ++ [hi] ->
  zlen ks <= MaxInternalKeys -> Forall (fun k => zlen (data k) <= MaxKeySize) ks ->
  is_Some (m !! pid) -> pid ∉ ids ->
  exists body s', encodeInternalNode (map fst ch) ks = Ok body /\
    WritePage None pid body s = (Ok tt, s') /\
    running s' n (mkView (<[pid := body]> m) tx) r /\
    subtree (<[pid := body]> m) (S h) pid lo hi next first es (pid :: ids).
Proof.
  intros Hr Hc Hk Hn Hks Hpid Hnin.
  destruct (chain_keys_sorted _ _ _ _ _ _ _ _ _ _ Hc Hk) as [Hsort _].
  destruct (node_encode (map fst ch) ks) as [E Hz].
  - rewrite <- (zlen_map data). by eapply node_keys_count.
  - done.
  - by apply keys_ascending_sorted.
  - done.
  - eapply chain_ptrs_u64; [|exact Hc]. exact (fun i b => running_pages s n _ r i b Hr).
  - destruct (WritePage_run s n _ r pid (node_image (map fst ch) (map data ks)) Hr) as (s' & Ew & Hr');
      [done|done|].
    exists (node_image (map fst ch) (map data ks)), s'. split_and!; try done.
    apply (st_node _ h pid lo hi next first ch (map data ks)); [apply lookup_insert_eq|done| | |].
    + by rewrite zlen_map.
    + by apply Forall_map.
    + eapply subtree_frame; [exact Hc|]. intros i Hi. apply lookup_insert_ne. by intros ->.
Qed.

(** A child of a node replaced by two. *)
Lemma chain_replace m h ch1 (c : Z) u ch2 keys lo mid hi next first nx nxc e1 i1 e2 i2
  left right (sep : Key) n1 es1 ids1 es2 ids2 :
  map snd (ch1 ++ (c, u) :: ch2) = map Fin keys ++ [hi] ->
  chain m h ch1 lo mid nx first e1 i1 -> chain m h ch2 u hi next nxc e2 i2 ->
  subtree m h left mid (Fin (data sep)) n1 nx es1 ids1 ->
  subtree m h right (Fin (data sep)) u nxc n1 es2 ids2 ->
  bound_lt mid (Fin (data sep)) -> bound_lt (Fin (data sep)) u ->
  let ptrs := map fst (ch1 ++ (c, u) :: ch2) in
  let ks := map importKey keys in
  let ch := ch1 ++ (left, Fin (data sep)) :: (right, u) :: ch2 in
  let ks' := ztake (zlen ch1) ks ++ sep :: zdrop (zlen ch1) ks in
  ztake (zlen ch1) ptrs ++ left :: right :: zdrop (zlen ch1 + 1) ptrs = map fst ch /\
  map snd ch = map Fin (map data ks') ++ [hi] /\ zlen ks' = zlen keys + 1 /\
  chain m h ch lo hi next first (e1 ++ (es1 ++ es2) ++ e2) (i1 ++ (ids1 ++ ids2) ++ i2).
Proof.
  intros Hk C1 C2 Hl Hr B1 B2 ptrs ks ch ks'.
  destruct (fin_prefix_keys _ _ _ _ _ _ Hk) as (K1 & K2 & Hlen).
  assert (length (map fst ch1) = length ch1) as Hl1 by apply length_map.
  split; [|split; [|split]].
  - unfold ptrs, ch, ztake, zdrop, zlen. rewrite !map_app. cbn [map fst].
    rewrite Nat2Z.id, take_app_length' by done. do 3 f_equal.
    replace (Z.to_nat (Z.of_nat (length ch1) + 1)) with (length ch1 + 1)%nat by lia.
    rewrite <- Hl1, drop_app_add. done.
  - unfold ch, ks', ks, ztake, zdrop, zlen. rewrite Nat2Z.id, !map_app. cbn [map snd].
    rewrite firstn_map, skipn_map.
    assert (forall l, map data (map importKey l) = l) as Hid.
    { intros l. rewrite map_map. apply map_id. }
    rewrite !Hid, K1, K2, <- app_assoc. done.
  - unfold ks', ks, ztake, zdrop, zlen. rewrite length_app. cbn [length].
    rewrite length_take, length_drop, length_map. lia.
  - unfold ch. eapply chain_app; [exact C1|]. rewrite <- !app_assoc.
    econstructor; [done|done|]. by econstructor.
Qed.

Definition parent_result (m m' : gmap Z (list byte)) (r x : Z) (H : nat) (l : list entry) : Prop :=
  (x = 0 /\ m' !! MetaPageID = m !! MetaPageID /\
     exists f ids', subtree m' H r NegInf PosInf rootSentinel f l ids' /\ NoDup (MetaPageID :: ids')) \/
  (x <> 0 /\ x <> rootSentinel /\ m' !! MetaPageID = Some (meta_image x) /\
     exists f ids', subtree m' (S H) x NegInf PosInf rootSentinel f l ids' /\ NoDup (MetaPageID :: ids')).

Lemma root_split_run s n m saved r left right sep n1 first es1 es2 ids1 ids2 newPages :
  running s n (mkView m (Some saved)) r ->
  forall h, subtree m h left NegInf (Fin (data sep)) n1 first es1 ids1 ->
  subtree m h right (Fin (data sep)) PosInf rootSentinel n1 es2 ids2 ->
  zlen (data sep) <= MaxKeySize ->
  NoDup (MetaPageID :: ids1 ++ ids2 ++ newPages) ->
  (forall i, i ∈ newPages -> is_Some (m !! i)) -> is_Some (m !! MetaPageID) -> newPages <> [] ->
  exists x s' m', insertIntoParent None [] left right sep newPages s = (Ok x, s') /\
    running s' n (mkView m' (Some saved)) r /\ parent_result m m' r x h (es1 ++ es2).
Proof.
  intros Hr h Hl Hrt Hsep Hnd Hnew Hmeta Hne. destruct newPages as [|x rest]; [done|].
  apply NoDup_cons in Hnd as [Hmn Hnd]. rewrite app_assoc in Hnd, Hmn.
  apply NoDup_app in Hnd as (Hnd & Hdis & _).
  assert (x ∉ ids1 ++ ids2) as Hx by (intros Hin; apply (Hdis x Hin); constructor).
  assert (MetaPageID ∉ ids1 ++ ids2 /\ MetaPageID <> x) as [Hm1 Hm2].
  { rewrite elem_of_app, elem_of_cons in Hmn. tauto. }
  assert (chain m h [(left, Fin (data sep)); (right, PosInf)] NegInf PosInf rootSentinel first
    (es1 ++ es2) (ids1 ++ ids2)) as Hc.
  { econstructor; [done|exact Hl|]. rewrite <- (app_nil_r es2), <- (app_nil_r ids2).
    econstructor; [done|exact Hrt|constructor]. }
  destruct (node_write s n m (Some saved) r h _ _ _ _ _ _ _ [sep] x Hr Hc) as (body & s1 & Ee & Ew & Hr1 & Hs1);
    [done|done|by repeat constructor|apply Hnew; constructor|done|].
  cbn [map fst] in Ee. cbn [insertIntoParent]. rewrite Ee. unfold check. rewrite bind_lift.
  erewrite bind_ok by exact Ew.
  destruct (WritePage_run s1 n _ r MetaPageID (encodeMetaPage x) Hr1) as (s2 & Ew2 & Hr2).
  { cbn [v_pages]. rewrite lookup_insert_is_Some. by right. }
  { rewrite encodeMetaPage_image. apply zlen_meta_image. }
  erewrite bind_ok by exact Ew2. eexists x, s2, _. split; [done|]. split; [exact Hr2|].
  pose proof (running_pages _ _ _ _ x body Hr1) as Hrange. cbn [v_pages] in Hrange.
  specialize (Hrange (lookup_insert_eq _ _ _)).
  right. split_and!.
  - unfold FirstDataPageID in Hrange. lia.
  - unfold rootSentinel, max_pages in *. lia.
  - rewrite encodeMetaPage_image. apply lookup_insert_eq.
  - exists first, (x :: ids1 ++ ids2). split.
    + eapply subtree_frame; [exact Hs1|]. intros i Hi. apply lookup_insert_ne. intros <-.
      apply elem_of_cons in Hi as [?|?]; [by subst|done].
    + constructor; [rewrite elem_of_cons; tauto|]. by constructor.
Qed.

Lemma chain_end m h ch lo hi next first es ids (X : list bound) b :
  chain m h ch lo hi next first es ids -> map snd ch = X ++ [b] -> b = hi.
Proof.
  intros Hc Hk. destruct ch as [|[c u] ch _] using rev_ind.
  { destruct X; discriminate Hk. }
  rewrite map_app in Hk. cbn [map snd] in Hk. apply app_inj_2 in Hk as [_ [= ->]]; [|done].
  by eapply chain_last.
Qed.

(** A node cut in two at its key number [mid], which moves up. *)
Lemma node_cut (ch : list (Z * bound)) (ks : list Key) hi mid d :
  map snd ch = map Fin (map data ks) ++ [hi] -> 0 <= mid < zlen ks ->
  exists chL chR ksL km ksR,
    ch = chL ++ chR /\ ks = ksL ++ km :: ksR /\
    ztake (mid + 1) (map fst ch) = map fst chL /\ zdrop (mid + 1) (map fst ch) = map fst chR /\
    ztake mid ks = ksL /\ zdrop (mid + 1) ks = ksR /\ nth (Z.to_nat mid) ks d = km /\
    map snd chL = map Fin (map data ksL) ++ [Fin (data km)] /\
    map snd chR = map Fin (map data ksR) ++ [hi] /\ chL <> [] /\ chR <> [] /\
    zlen ksL = mid /\ zlen ksR = zlen ks - mid - 1.
Proof.
  intros Hk Hmid. set (n := Z.to_nat mid).
  assert (length ch = S (length ks)) as Hl.
  { rewrite <- (length_map snd ch), Hk, length_app, !length_map. simpl. lia. }
  assert (n < length ks)%nat as Hn by (unfold zlen in Hmid; lia).
  destruct (nth_error ks n) as [km|] eqn:Ekm; [|apply nth_error_None in Ekm; lia].
  pose proof (nth_error_split _ _ Ekm) as (ksL & ksR & -> & HlL).
  exists (take (S n) ch), (drop (S n) ch), ksL, km, ksR.
  assert (zlen ksL = mid) as HzL by (unfold zlen; rewrite HlL; unfold n; lia).
  assert (Z.to_nat (mid + 1) = S n) as Hmid1 by (unfold n; lia).
  assert (map snd (take (S n) ch) = map Fin (map data ksL) ++ [Fin (data km)] /\
          map snd (drop (S n) ch) = map Fin (map data ksR) ++ [hi]) as [Ks1 Ks2].
  { rewrite !map_app in Hk. cbn [map] in Hk. rewrite <- app_assoc in Hk. cbn [app] in Hk.
    rewrite cons_middle, app_assoc in Hk.
    rewrite <- (take_drop (S n) ch), map_app in Hk. apply app_inj_1 in Hk; [done|].
    rewrite length_app in Hl. simpl in Hl.
    rewrite length_map, length_take, length_app, !length_map. cbn [length]. lia. }
  unfold ztake, zdrop. rewrite Hmid1. fold n.
  split_and!; try done.
  - symmetry. apply take_drop.
  - apply firstn_map.
  - apply skipn_map.
  - by rewrite take_app_length'.
  - rewrite drop_app_ge by lia. replace (S n - length ksL)%nat with 1%nat by lia. done.
  - rewrite app_nth2 by lia. by replace (n - length ksL)%nat with 0%nat by lia.
  - intros E. rewrite E in Ks1. by destruct (map Fin (map data ksL)).
  - intros E. rewrite E in Ks2. by destruct (map Fin (map data ksR)).
  - unfold zlen in *. rewrite length_app. simpl. lia.
Qed.

(** Writing the two halves of a full node. *)
Lemma split_write s n m tx r h ch (ks : list Key) lo hi next first es ids pid new d :
  running s n (mkView m tx) r ->
  chain m h ch lo hi next first es ids -> map snd ch = map Fin (map data ks) ++ [hi] ->
  zlen ks = MaxInternalKeys + 1 -> Forall (fun k => zlen (data k) <= MaxKeySize) ks ->
  NoDup (pid :: new :: ids) -> is_Some (m !! pid) -> is_Some (m !! new) ->
  exists bL bR s1 s2 km nm esL esR idsL idsR,
    let mid := zlen ks / 2 in
    encodeInternalNode (ztake (mid + 1) (map fst ch)) (ztake mid ks) = Ok bL /\
    encodeInternalNode (zdrop (mid + 1) (map fst ch)) (zdrop (mid + 1) ks) = Ok bR /\
    WritePage None pid bL s = (Ok tt, s1) /\ WritePage None new bR s1 = (Ok tt, s2) /\
    nth (Z.to_nat mid) ks d = km /\ zlen (data km) <= MaxKeySize /\
    es = esL ++ esR /\ ids = idsL ++ idsR /\
    running s2 n (mkView (<[new := bR]> (<[pid := bL]> m)) tx) r /\
    subtree (<[new := bR]> (<[pid := bL]> m)) (S h) pid lo (Fin (data km)) nm first esL (pid :: idsL) /\
    subtree (<[new := bR]> (<[pid := bL]> m)) (S h) new (Fin (data km)) hi next nm esR (new :: idsR) /\
    bound_lt lo (Fin (data km)) /\ bound_lt (Fin (data km)) hi.
Proof.
  intros Hr Hc Hk Hn Hks Hnd Hpid Hnew. unfold MaxInternalKeys in Hn.
  assert (zlen ks / 2 = 28) as Hmid by (rewrite Hn; done). rewrite Hmid. cbv zeta.
  destruct (node_cut ch ks hi 28 d Hk) as (chL & chR & ksL & km & ksR & -> & -> & -> & -> & -> & -> & -> &
    KL & KR & NL & NR & ZL & ZR); [lia|].
  apply Forall_app in Hks as [HksL HksR]. apply Forall_cons in HksR as [Hkm HksR].
  apply chain_app_inv in Hc as (midb & nm & esL & esR & idsL & idsR & -> & -> & CL & CR).
  assert (Fin (data km) = midb) as <- by (eapply chain_end; [exact CL|exact KL]).
  apply NoDup_cons in Hnd as [Hp Hnd]. apply NoDup_cons in Hnd as [Hw Hnd].
  rewrite elem_of_cons, elem_of_app in Hp. rewrite elem_of_app in Hw.
  destruct (node_write s n m tx r h chL _ _ _ _ _ _ ksL pid Hr CL KL) as (bL & s1 & EL & WL & Hr1 & SL);
    [unfold MaxInternalKeys; lia|done|done|tauto|].
  assert (chain (<[pid := bL]> m) h chR (Fin (data km)) hi next nm esR idsR) as CR'.
  { eapply subtree_frame; [exact CR|]. intros i Hin. apply lookup_insert_ne. intros <-. tauto. }
  destruct (node_write s1 n _ tx r h chR _ _ _ _ _ _ ksR new Hr1 CR' KR) as (bR & s2 & ER & WR & Hr2 & SR);
    [unfold MaxInternalKeys; lia|done|rewrite lookup_insert_is_Some'; by right|tauto|].
  exists bL, bR, s1, s2, km, nm, esL, esR, idsL, idsR. split_and!; try done.
  - eapply subtree_frame; [exact SL|]. intros i Hin. apply lookup_insert_ne. intros <-.
    apply elem_of_cons in Hin as [->|?]; tauto.
  - by eapply chain_strict.
  - by eapply chain_strict.
Qed.

Lemma insert_up_run path s n m saved r h left lo hi next first esb esa idsc right sep n1 es1 es2 ids1 ids2
  newPages :
  running s n (mkView m (Some saved)) r ->
  hole m r path h left lo hi next first esb esa idsc ->
  subtree m h left lo (Fin (data sep)) n1 first es1 ids1 ->
  subtree m h right (Fin (data sep)) hi next n1 es2 ids2 ->
  bound_lt lo (Fin (data sep)) -> bound_lt (Fin (data sep)) hi -> zlen (data sep) <= MaxKeySize ->
  NoDup (MetaPageID :: ids1 ++ ids2 ++ idsc ++ newPages) ->
  (forall i, i ∈ newPages -> is_Some (m !! i)) -> is_Some (m !! MetaPageID) ->
  (length path < length newPages)%nat ->
  exists x s' m', insertIntoParent None path left right sep newPages s = (Ok x, s') /\
    running s' n (mkView m' (Some saved)) r /\
    parent_result m m' r x (length path + h) (esb ++ (es1 ++ es2) ++ esa).
Proof.
  revert s m h left lo hi next first esb esa idsc right sep n1 es1 es2 ids1 ids2 newPages.
  induction path as [|parent path IH]; intros s m h left lo hi next first esb esa idsc right sep n1 es1 es2
    ids1 ids2 newPages Hr Hh Hl Hrt B1 B2 Hsep Hnd Hnew Hmeta Hlen.
  - inversion Hh; subst. cbn [app] in *. rewrite app_nil_r.
    eapply root_split_run; try eassumption. by destruct newPages; simpl in Hlen; [lia|].
  - inversion Hh as [|? ? pid lo0 hi0 next0 first0 esb0 esa0 idsc0 ch1 c u ch2 keys mid nx nxc e1 e2 i1 i2
      Hh' Hm Hk Hn Hks C1 Hlt C2]; subst.
    destruct (chain_replace m h ch1 left hi ch2 keys lo0 lo hi0 next0 first0 first next e1 i1 e2 i2
      left right sep n1 es1 ids1 es2 ids2 Hk C1 C2 Hl Hrt B1 B2) as (Hptrs & Hsnd & Hcount & Hch).
    assert (NoDup (MetaPageID :: pid :: (i1 ++ (ids1 ++ ids2) ++ i2) ++ idsc0 ++ newPages)) as Hnd'.
    { eapply NoDup_perm; [|exact Hnd]. solve_Permutation. }
    apply NoDup_cons in Hnd' as [Hmn Hnd']. pose proof Hnd' as Hnd2.
    apply NoDup_cons in Hnd2 as [Hpn Hnd2].
    assert (is_Some (m !! pid)) as Hpid by by eexists.
    assert (pid ∉ i1 ++ (ids1 ++ ids2) ++ i2) as Hpn1 by set_solver.
    assert (Forall (fun k => zlen (data k) <= MaxKeySize)
      (ztake (zlen ch1) (map importKey keys) ++ sep :: zdrop (zlen ch1) (map importKey keys))) as Hks'.
    { assert (Forall (fun k => zlen (data k) <= MaxKeySize) (map importKey keys)) as Hi.
      { apply Forall_map. exact Hks. }
      apply Forall_app. split; [by apply Forall_take|]. constructor; [done|by apply Forall_drop]. }
    cbn [insertIntoParent pe_keys pe_pageID childPtrs childIdx]. rewrite zlen_map.
    destruct (Z.ltb_spec (zlen keys) MaxInternalKeys) as [Hroom|Hfull].
    + destruct (node_write s n m (Some saved) r h _ _ _ _ _ _ _ _ pid Hr Hch Hsnd) as
        (body & s1 & Ee & Ew & Hr1 & Hs1); [lia|done|done|done|].
      unfold insertIntoInternal. rewrite Hptrs, Ee. unfold check. rewrite bind_assoc, bind_lift.
      erewrite bind_ok by exact Ew. exists 0, s1. eexists. split; [done|]. split; [exact Hr1|].
      assert (hole (<[pid := body]> m) r path (S h) pid lo0 hi0 next0 first0 esb0 esa0 idsc0) as Hh2.
      { eapply hole_frame; [exact Hh'|]. intros i Hi. apply lookup_insert_ne. set_solver. }
      destruct (hole_plug _ _ _ _ _ _ _ _ _ _ _ _ _ _ Hh2 Hs1) as (f' & ids' & Ht & Hp).
      left. split; [done|]. split; [apply lookup_insert_ne; set_solver|].
      exists f', ids'. split.
      * simpl length. rewrite Nat.add_succ_r in Ht. rewrite <- !app_assoc in *. exact Ht.
      * rewrite Hp. eapply (NoDup_app _ newPages). eapply NoDup_perm; [|exact Hnd]. solve_Permutation.
    + destruct newPages as [|new rest]; [simpl in Hlen; lia|].
      destruct (split_write s n m (Some saved) r h _ _ _ _ _ _ _ _ pid new sep Hr Hch Hsnd) as
        (bL & bR & s1 & s2 & km & nm & esL & esR & idsL & idsR & EL & ER & WL & WR & Hnth & Hkm & Hes & Hids
         & Hr2 & SL & SR & B3 & B4).
      { lia. } { done. }
      { eapply (NoDup_app _ (idsc0 ++ rest)). eapply NoDup_perm; [|exact Hnd']. solve_Permutation. }
      { done. } { apply Hnew. constructor. }
      unfold splitInternal. rewrite Hptrs. cbn zeta. rewrite EL, ER, Hnth. unfold check.
      rewrite bind_lift. erewrite bind_ok by exact WL. rewrite bind_lift. erewrite bind_ok by exact WR.
      assert (NoDup (MetaPageID :: (pid :: idsL) ++ (new :: idsR) ++ idsc0 ++ rest)) as Hnd3.
      { eapply NoDup_perm; [|exact Hnd].
        assert (i1 ++ ids1 ++ ids2 ++ i2 ≡ₚ idsL ++ idsR) as HP by (rewrite <- Hids; solve_Permutation).
        transitivity (MetaPageID :: pid :: new :: (i1 ++ ids1 ++ ids2 ++ i2) ++ idsc0 ++ rest);
          [solve_Permutation|]. rewrite HP. solve_Permutation. }
      set (m2 := <[new := bR]> (<[pid := bL]> m)) in *.
      assert (forall i, i <> pid -> i <> new -> m2 !! i = m !! i) as Hm2.
      { intros i ? ?. unfold m2. by rewrite !lookup_insert_ne. }
      apply NoDup_cons in Hnd3 as Hnd4. destruct Hnd4 as [Hmeta3 Hnd4].
      assert (pid ∉ idsc0 ++ rest /\ new ∉ idsc0 ++ rest) as [Hp3 Hw3].
      { apply NoDup_app in Hnd4 as (_ & D1 & Hnd5). apply NoDup_app in Hnd5 as (_ & D2 & _).
        split; [intros Hin; apply (D1 pid); [constructor|]; apply elem_of_app; by right|].
        intros Hin. apply (D2 new); [constructor|done]. }
      rewrite elem_of_app in Hp3, Hw3.
      assert (hole m2 r path (S h) pid lo0 hi0 next0 first0 esb0 esa0 idsc0) as Hh2.
      { eapply hole_frame; [exact Hh'|]. intros i Hin. apply Hm2; intros ->; tauto. }
      assert (MetaPageID <> pid /\ MetaPageID <> new) as [Hmp Hmw].
      { cbn [app] in Hmeta3. rewrite elem_of_cons, elem_of_app, elem_of_cons in Hmeta3. tauto. }
      destruct (IH s2 m2 (S h) pid lo0 hi0 next0 first0 esb0 esa0 idsc0 new km nm esL esR
        (pid :: idsL) (new :: idsR) rest Hr2 Hh2 SL SR B3 B4 Hkm Hnd3) as (x & s3 & m3 & E3 & Hr3 & Hres).
      { intros i Hin. rewrite Hm2; [apply Hnew; by constructor|intros ->; tauto|intros ->; tauto]. }
      { by rewrite Hm2. }
      { simpl in Hlen. lia. }
      exists x, s3, m3. split; [exact E3|]. split; [exact Hr3|].
      assert (esb0 ++ (esL ++ esR) ++ esa0 = (esb0 ++ e1) ++ (es1 ++ es2) ++ e2 ++ esa0) as <-.
      { rewrite <- Hes, <- !app_assoc. done. }
      unfold parent_result in *. cbn [length]. rewrite Nat.add_succ_r, (Hm2 MetaPageID Hmp Hmw) in Hres.
      exact Hres.
Qed.
(** ** Set *)

Lemma allocate_pages_run k s n m r :
  running s (k + n) (mkView m None) r ->
  exists ids s' m', allocate_pages k None s = (Ok ids, s') /\ running s' n (mkView m' None) r /\
    length ids = k /\ NoDup ids /\ (forall i, i ∈ ids -> m !! i = None /\ is_Some (m' !! i)) /\
    (forall i, is_Some (m !! i) -> m' !! i = m !! i).
Proof.
  revert s m. induction k as [|k IH]; intros s m Hr.
  - exists [], s, m. split; [done|]. split; [done|]. split; [done|]. split; [constructor|].
    split; [|done]. intros i Hi. by apply elem_of_nil in Hi.
  - destruct (AllocatePage_run s (k + n) _ r Hr eq_refl) as (id & s1 & E1 & Hnone & _ & Hr1).
    cbn [v_pages] in *. destruct (IH s1 _ Hr1) as (ids & s2 & m2 & E2 & Hr2 & Hl & Hnd & Hnew & Hold).
    exists (id :: ids), s2, m2. cbn [allocate_pages]. erewrite bind_ok by exact E1.
    erewrite bind_ok by exact E2. split; [done|]. split; [done|]. split; [by rewrite <- Hl|].
    assert (id ∉ ids) as Hnin.
    { intros Hin. destruct (Hnew id Hin) as [Hn _]. by rewrite lookup_insert_eq in Hn. }
    split; [by constructor|]. split.
    + intros i [->|Hi]%elem_of_cons.
      * split; [done|]. rewrite Hold; rewrite lookup_insert_eq; by eexists.
      * destruct (Hnew i Hi) as [Hn Hs]. split; [|done]. by apply lookup_insert_None in Hn as [? _].
    + intros i Hi. rewrite Hold; (rewrite lookup_insert_ne; [done|]); intros ->;
        rewrite Hnone in Hi; by destruct Hi.
Qed.

(** The branch of [set_walk] at a leaf. *)
Definition set_leaf (path : list pathEntry) (pageID : Z) (k : Key) (v : list byte) (keys : list Key)
  (vals : list (list byte)) (nextLeaf : Z) : K (P := P) unit :=
  match find_key keys k 0 with
  | Some i => updateLeaf None pageID keys vals i v [] nextLeaf
  | None =>
      if zlen keys <? MaxLeafKeys then insertIntoLeaf None pageID keys vals k v [] nextLeaf
      else splitLeaf None pageID path keys vals k v [] nextLeaf
  end.

(** The situation at the leaf where [k] belongs. *)
Record at_leaf (m : gmap Z (list byte)) (r : Z) (path : list pathEntry) (pid : Z) (k : Key)
  (esb es esa : list entry) (next : Z) (lo hi : bound) (idsc : list Z) : Prop := {
  al_hole : hole m r path 0 pid lo hi next pid esb esa idsc;
  al_ok : leaf_ok lo hi es;
  al_next : u64 next;
  al_lo : bound_le lo (data k);
  al_hi : bound_gt hi (data k);
  al_alloc : is_Some (m !! pid);
  al_nodup : NoDup (MetaPageID :: pid :: idsc);
  al_meta : m !! MetaPageID = Some (meta_image r);
  al_root : r <> rootSentinel }.

(** Replacing the entries of that leaf. *)
Lemma leaf_replaced s n m r path pid k esb es esa next lo hi idsc es' body packed :
  running s (S n) (mkView m None) r ->
  at_leaf m r path pid k esb es esa next lo hi idsc ->
  leaf_ok lo hi es' -> body = leaf_image es' next -> zlen body = DataPageBodySize ->
  exists s', write_leaf None pid body [] packed s = (Ok tt, s') /\
    tree_rep s' n (length path) (esb ++ es' ++ esa).
Proof.
  intros Hr [Hh _ Hu _ _ Ha Hnd Hmeta Hroot] Hok Hbody Hz.
  destruct (write_leaf_run s n m r pid body Hr Ha Hz packed) as (s' & E & Hr').
  exists s'. split; [exact E|]. eexists _, r. split; [exact Hr'|].
  destruct (leaf_rewrite m r path pid lo hi next pid esb esa idsc es' _ body Hh eq_refl Hok Hu Hbody Hnd
    eq_refl) as (f & ids & Ht & Hnd').
  split; [|rewrite decide_False by done; by exists f, ids].
  rewrite lookup_insert_ne; [done|]. intros ->. apply NoDup_cons in Hnd as [Hnd _].
  apply Hnd. constructor.
Qed.

Lemma set_update_run s n m r path pid k v esb es esa next lo hi idsc i :
  running s (S n) (mkView m None) r ->
  at_leaf m r path pid k esb es esa next lo hi idsc -> small_entry (data k, v) ->
  find_key (leaf_keys es) k 0 = Some i ->
  exists s', updateLeaf None pid (leaf_keys es) (map snd es) i v [] next s = (Ok tt, s') /\
    tree_rep s' n (length path) (esb ++ om_set (data k) v es ++ esa).
Proof.
  intros Hr Hal Hkv Hf. pose proof (al_ok _ _ _ _ _ _ _ _ _ _ _ _ Hal) as Hok.
  destruct (find_key_some es k 0 i v) as (pos & -> & (v0 & Hv0 & _) & Hset & _); [apply Hok|done|].
  assert (leaf_ok lo hi (om_set (data k) v es)) as Hok'.
  { apply leaf_ok_set; try done; [by eapply al_lo|by eapply al_hi|]. rewrite Hset. unfold zlen.
    rewrite length_insert. apply Hok. }
  destruct (leaf_encode lo hi (om_set (data k) v es) (leaf_keys es) (<[pos := v]> (map snd es)) next Hok')
    as [Ee Hz].
  { rewrite Hset, data_leaf_keys. symmetry.
    assert (map fst (<[pos := (data k, v)]> es) = <[pos := data k]> (map fst es)) as ->
      by exact (list_fmap_insert fst es pos (data k, v)).
    apply list_insert_id. exact (list_lookup_fmap_Some_2 fst es pos (data k, v0) Hv0). }
  { rewrite Hset. symmetry. exact (list_fmap_insert snd es pos (data k, v)). }
  unfold updateLeaf. cbn [Nat.add]. rewrite Ee. unfold check. rewrite bind_lift.
  by eapply leaf_replaced.
Qed.

Lemma set_insert_run s n m r path pid k v esb es esa next lo hi idsc :
  running s (S n) (mkView m None) r ->
  at_leaf m r path pid k esb es esa next lo hi idsc -> small_entry (data k, v) ->
  find_key (leaf_keys es) k 0 = None -> zlen es < MaxLeafKeys ->
  exists s', insertIntoLeaf None pid (leaf_keys es) (map snd es) k v [] next s = (Ok tt, s') /\
    tree_rep s' n (length path) (esb ++ om_set (data k) v es ++ esa).
Proof.
  intros Hr Hal Hkv Hf Hroom. pose proof (al_ok _ _ _ _ _ _ _ _ _ _ _ _ Hal) as Hok.
  pose proof (insert_pos_set es k v 0 Hf) as Hset.
  assert (leaf_ok lo hi (om_set (data k) v es)) as Hok'.
  { apply leaf_ok_set; try done; [by eapply al_lo|by eapply al_hi|]. pose proof (zlen_om_set (data k) v es). lia. }
  set (pos := insert_pos (leaf_keys es) k) in *.
  destruct (leaf_encode lo hi (om_set (data k) v es) (take pos (leaf_keys es) ++ k :: drop pos (leaf_keys es))
    (take pos (map snd es) ++ v :: drop pos (map snd es)) next Hok') as [Ee Hz].
  { rewrite Hset, !map_app. cbn [map fst]. by rewrite <- firstn_map, <- skipn_map, data_leaf_keys,
      firstn_map, skipn_map. }
  { rewrite Hset, !map_app. cbn [map snd]. by rewrite firstn_map, skipn_map. }
  unfold insertIntoLeaf. fold pos. rewrite Ee. unfold check. rewrite bind_lift.
  by eapply leaf_replaced.
Qed.
Lemma length_om_set_new k v (es : list entry) :
  om_get k es = None -> length (om_set k v es) = S (length es).
Proof.
  induction es as [|[k' v'] es IH]; cbn [om_get om_set]; [done|].
  destruct (bytes_compare k' k); [done| |done]. intros Hg. simpl. by rewrite IH.
Qed.

(** What is left to do after a commit that may have made a new root. *)
Lemma commit_root_run s n m m' saved r x h l :
  running s n (mkView m' (Some saved)) r -> r <> rootSentinel ->
  m !! MetaPageID = Some (meta_image r) -> parent_result m m' r x h l ->
  exists s' h', (CommitTx None ;;; if negb (x =? 0) then modify (with_root x) else ret tt) s = (Ok tt, s') /\
    tree_rep s' n h' l /\ (h' = h \/ h' = S h).
Proof.
  intros Hr Hroot Hmeta Hres. destruct (CommitTx_run s n _ r saved Hr eq_refl) as (s1 & E & Hr1).
  cbn [v_pages] in Hr1. destruct Hres as [(-> & Hm & f & ids & Ht & Hnd)|(Hx & Hxs & Hm & f & ids & Ht & Hnd)].
  - exists s1, h. erewrite bind_ok by exact E. rewrite Z.eqb_refl. split; [done|]. split; [|by left].
    exists m', r. split; [done|]. split; [by rewrite Hm|]. rewrite decide_False by done. by exists f, ids.
  - exists (with_root x s1), (S h). erewrite bind_ok by exact E.
    rewrite (proj2 (Z.eqb_neq _ _)) by done. split; [done|]. split; [|by right].
    exists m', x. split; [by destruct Hr1 as (? & ? & ? & ?)|]. split; [done|].
    rewrite decide_False by done. by exists f, ids.
Qed.

(** The two halves of an overfull leaf. *)
Lemma leaf_halves lo hi es k v keys' vals' :
  leaf_ok lo hi es -> small_entry (data k, v) -> bound_le lo (data k) -> bound_gt hi (data k) ->
  find_key (leaf_keys es) k 0 = None -> zlen es = MaxLeafKeys ->
  merge_new (leaf_keys es) (map snd es) k v = (keys', vals') ->
  exists esL esR sep, om_set (data k) v es = esL ++ esR /\
    leaf_ok lo (Fin (data sep)) esL /\ leaf_ok (Fin (data sep)) hi esR /\
    bound_lt lo (Fin (data sep)) /\ bound_lt (Fin (data sep)) hi /\ zlen (data sep) <= MaxKeySize /\
    let mid := Nat.div (length keys') 2 in
    nth mid keys' k = sep /\
    map data (take mid keys') = map fst esL /\ take mid vals' = map snd esL /\
    map data (drop mid keys') = map fst esR /\ drop mid vals' = map snd esR.
Proof.
  intros (Hs & _ & Hsort & Hkin) Hkv Hlo Hhi Hf Hfull Hm.
  destruct (merge_new_set es k v 0 keys' vals' Hf Hm) as [Hk ->].
  pose proof (length_om_set_new (data k) v es (find_key_none es k 0 Hf)) as Hlen.
  set (E := om_set (data k) v es) in *.
  assert (length es = 7%nat) as H7 by (unfold zlen, MaxLeafKeys in Hfull; lia).
  assert (length keys' = 8%nat) as H8 by (rewrite <- (length_map data), Hk, length_map; lia).
  rewrite H8. change (Nat.div 8 2) with 4%nat.
  assert (Forall small_entry E) as HsE by by apply om_set_small.
  destruct (E !! 4%nat) as [[sk sv]|] eqn:E4; [|apply lookup_ge_None in E4; lia].
  destruct (leaf_split lo hi E 4 sk sv) as (L1 & L2 & B1 & B2);
    [done|by apply om_set_sorted|by apply keys_in_set|done|lia|lia|lia|].
  assert (data (nth 4 keys' k) = sk) as Hsep.
  { rewrite <- (map_nth data keys' k 4), Hk.
    rewrite nth_lookup. by rewrite (list_lookup_fmap_Some_2 fst E 4 _ E4 : map fst E !! 4%nat = Some sk). }
  exists (take 4 E), (drop 4 E), (nth 4 keys' k). rewrite Hsep. cbv zeta.
  split_and!; try done.
  - by rewrite take_drop.
  - apply list_elem_of_lookup_2 in E4. rewrite Forall_forall in HsE. by destruct (HsE _ E4).
  - by rewrite <- (firstn_map data), Hk, firstn_map.
  - apply firstn_map.
  - by rewrite <- (skipn_map data), Hk, skipn_map.
  - apply skipn_map.
Qed.

Lemma set_split_run s n m r path pid k v esb es esa next lo hi idsc :
  running s (length path + 3 + n) (mkView m None) r ->
  at_leaf m r path pid k esb es esa next lo hi idsc -> small_entry (data k, v) ->
  find_key (leaf_keys es) k 0 = None -> zlen es = MaxLeafKeys ->
  exists s' h', splitLeaf None pid path (leaf_keys es) (map snd es) k v [] next s = (Ok tt, s') /\
    tree_rep s' n h' (esb ++ om_set (data k) v es ++ esa) /\ (h' = length path \/ h' = S (length path)).
Proof.
  intros Hr Hal Hkv Hf Hfull.
  pose proof Hal as [Hh Hok Hu Hlo Hhi Ha Hnd Hmeta Hroot].
  unfold splitLeaf. destruct (merge_new (leaf_keys es) (map snd es) k v) as [keys' vals'] eqn:Em.
  destruct (leaf_halves lo hi es k v keys' vals' Hok Hkv Hlo Hhi Hf Hfull Em) as
    (esL & esR & sep & -> & LL & LR & B1 & B2 & Hsep & Hnth & KL & VL & KR & VR).
  cbv zeta in Hnth, KL, VL, KR, VR. set (mid := Nat.div (length keys') 2) in *.
  (* the allocations *)
  destruct (AllocatePage_run s (length path + 2 + n) (mkView m None) r) as (new & s1 & E1 & Hnew & Hrange & Hr1);
    [eapply running_weaken; [|exact Hr]; lia|done|]. cbn [v_pages] in *.
  destruct (allocate_pages_run (S (length path)) s1 (S n) (<[new := zero_body]> m) r) as
    (pages & s2 & m2 & E2 & Hr2 & Hlp & Hndp & Hpages & Hold);
    [eapply running_weaken; [|exact Hr1]; lia|].
  assert (forall i, is_Some (m !! i) -> m2 !! i = m !! i) as Hold'.
  { intros i Hi. assert (new <> i) by (intros ->; rewrite Hnew in Hi; by destruct Hi).
    rewrite Hold; rewrite lookup_insert_ne by done; done. }
  assert (is_Some (m2 !! new) /\ new ∉ pages) as [Hnew2 Hnewp].
  { split; [rewrite Hold; rewrite lookup_insert_eq; by eexists|].
    intros Hin. destruct (Hpages new Hin) as [Hn _]. by rewrite lookup_insert_eq in Hn. }
  assert (forall i, is_Some (m !! i) -> i <> new /\ i ∉ pages) as Hfresh.
  { intros i Hi. split; [intros ->; rewrite Hnew in Hi; by destruct Hi|].
    intros Hin. destruct (Hpages i Hin) as [[Hn _]%lookup_insert_None _]. rewrite Hn in Hi. by destruct Hi. }
  erewrite bind_ok by exact E1. erewrite bind_ok by exact E2.
  (* the transaction *)
  destruct (BeginTx_run s2 n (mkView m2 None) r Hr2 eq_refl) as (s3 & E3 & Hr3). cbn [v_pages] in Hr3.
  erewrite bind_ok by exact E3. unfold or_rollback.
  erewrite bind_ok by (apply cleanup_ok; reflexivity).
  assert (u64 new) as Hunew by (unfold u64, FirstDataPageID, max_pages in *; lia).
  destruct (leaf_encode lo (Fin (data sep)) esL (take mid keys') (take mid vals') new LL KL VL) as [EL ZL].
  destruct (leaf_encode (Fin (data sep)) hi esR (drop mid keys') (drop mid vals') next LR KR VR) as [ER ZR].
  rewrite EL. erewrite bind_ok by (apply cleanup_ok; reflexivity).
  assert (is_Some (m2 !! pid)) as Ha2 by by rewrite Hold'.
  destruct (WritePage_run s3 n _ r pid (leaf_image esL new) Hr3 Ha2 ZL) as (s4 & E4 & Hr4).
  erewrite bind_ok by (apply cleanup_ok; exact E4).
  rewrite ER. erewrite bind_ok by (apply cleanup_ok; reflexivity). cbn [v_pages v_tx] in Hr4.
  destruct (WritePage_run s4 n _ r new (leaf_image esR next) Hr4) as (s5 & E5 & Hr5);
    [cbn [v_pages]; rewrite lookup_insert_is_Some'; by right|exact ZR|].
  erewrite bind_ok by (apply cleanup_ok; exact E5). cbn [v_pages v_tx] in Hr5.
  set (m4 := <[new := leaf_image esR next]> (<[pid := leaf_image esL new]> m2)) in *.
  destruct (Hfresh pid Ha) as [Hpn Hpp].
  assert (forall i, is_Some (m !! i) -> i <> pid -> m4 !! i = m !! i) as Hm4.
  { intros i Hi Hip. unfold m4. destruct (Hfresh i Hi) as [? _].
    rewrite !lookup_insert_ne by congruence. by apply Hold'. }
  assert (forall i, i ∈ idsc -> is_Some (m !! i)) as Hidsc by by eapply hole_alloc.
  apply NoDup_cons in Hnd as [Hmn Hnd]. apply NoDup_cons in Hnd as [Hpid Hnd].
  assert (hole m4 r path 0 pid lo hi next pid esb esa idsc) as Hh4.
  { eapply hole_frame; [exact Hh|]. intros i Hi. apply Hm4; [by apply Hidsc|by intros ->]. }
  assert (subtree m4 0 pid lo (Fin (data sep)) new pid esL [pid]) as SL.
  { constructor; [|done|done]. unfold m4. rewrite lookup_insert_ne by done. apply lookup_insert_eq. }
  assert (subtree m4 0 new (Fin (data sep)) hi next new esR [new]) as SR.
  { constructor; [apply lookup_insert_eq|done|done]. }
  assert (is_Some (m !! MetaPageID)) as Hmeta' by by eexists.
  destruct (insert_up_run path s5 n m4 m2 r 0 pid lo hi next pid esb esa idsc new sep new esL esR [pid] [new]
    pages Hr5 Hh4 SL SR B1 B2 Hsep) as (x & s6 & m5 & E6 & Hr6 & Hres).
  { destruct (Hfresh _ Hmeta') as [? ?]. rewrite !elem_of_cons in Hmn.
    constructor; [set_solver|]. cbn [app]. constructor; [set_solver|]. constructor.
    - rewrite elem_of_app. intros [Hin|?]; [|done]. by destruct (Hfresh new (Hidsc _ Hin)).
    - apply NoDup_app. split; [done|]. split; [|done]. intros i Hi. by apply Hfresh, Hidsc. }
  { intros i Hi. unfold m4. rewrite !lookup_insert_is_Some'. right. right. by apply Hpages. }
  { unfold m4. rewrite !lookup_insert_is_Some'. right. right. by rewrite Hold'. }
  { lia. }
  rewrite Hnth. erewrite bind_ok by (apply cleanup_ok; exact E6). rewrite Nat.add_0_r in Hres.
  eapply commit_root_run; [exact Hr6|done| |exact Hres].
  rewrite Hm4; [done|done|]. intros E. apply Hmn. rewrite E. constructor.
Qed.
(** The situation at the leaf, from the hole of a descent. *)
Lemma at_leaf_intro m r path pid lo hi next first esb esa idsc es ids k :
  hole m r path 0 pid lo hi next first esb esa idsc ->
  subtree m 0 pid lo hi next first es ids ->
  bound_le lo (data k) -> bound_gt hi (data k) -> NoDup (MetaPageID :: ids ++ idsc) ->
  m !! MetaPageID = Some (meta_image r) -> r <> rootSentinel ->
  at_leaf m r path pid k esb es esa next lo hi idsc.
Proof.
  intros Hh Hs Hlo Hhi Hnd Hmeta Hroot. inversion Hs; subst. split; try done.
Qed.

Lemma set_leaf_run s n m r path pid k v esb es esa next lo hi idsc :
  running s (length path + 3 + n) (mkView m None) r ->
  at_leaf m r path pid k esb es esa next lo hi idsc -> small_entry (data k, v) ->
  exists s' h', set_leaf path pid k v (leaf_keys es) (map snd es) next s = (Ok tt, s') /\
    tree_rep s' n h' (esb ++ om_set (data k) v es ++ esa) /\ (h' = length path \/ h' = S (length path)).
Proof.
  intros Hr Hal Hkv. unfold set_leaf.
  assert (zlen (leaf_keys es) = zlen es) as Hz by apply zlen_map.
  destruct (find_key (leaf_keys es) k 0) as [i|] eqn:Hf.
  - destruct (set_update_run s n m r path pid k v esb es esa next lo hi idsc i) as (s' & E & Ht);
      [eapply running_weaken; [|exact Hr]; lia|done|done|done|].
    exists s', (length path). split; [exact E|]. split; [done|by left].
  - rewrite Hz. destruct (Z.ltb_spec (zlen es) MaxLeafKeys) as [Hroom|Hfull].
    + destruct (set_insert_run s n m r path pid k v esb es esa next lo hi idsc) as (s' & E & Ht);
        [eapply running_weaken; [|exact Hr]; lia|done|done|done|done|].
      exists s', (length path). split; [exact E|]. split; [done|by left].
    + eapply set_split_run; try eassumption.
      pose proof (al_ok _ _ _ _ _ _ _ _ _ _ _ _ Hal) as (_ & Hn & _). lia.
Qed.

Lemma set_walk_run s n m r path h pid lo hi next first esb esa idsc es ids k v fuel :
  running s (length path + h + 3 + n) (mkView m None) r ->
  hole m r path h pid lo hi next first esb esa idsc ->
  subtree m h pid lo hi next first es ids ->
  bound_le lo (data k) -> bound_gt hi (data k) -> NoDup (MetaPageID :: ids ++ idsc) ->
  m !! MetaPageID = Some (meta_image r) -> r <> rootSentinel -> small_entry (data k, v) ->
  (h < fuel)%nat ->
  exists s' h', set_walk fuel None path pid k v [] s = (Ok tt, s') /\
    tree_rep s' n h' (om_set (data k) v (esb ++ es ++ esa)) /\
    (h' = (length path + h)%nat \/ h' = S (length path + h)).
Proof.
  revert s path pid lo hi next first esb esa idsc es ids fuel.
  induction h as [|h IH]; intros s path pid lo hi next first esb esa idsc es ids [|fuel] Hr Hh Hs Hlo Hhi Hnd
    Hmeta Hroot Hkv Hf; try lia; cbn [set_walk].
  - destruct (hole_leaf m r path pid lo hi next first esb esa idsc es ids Hh Hs) as
      (body & Hl & Ty & _ & D & _ & _ & -> & _).
    destruct (ReadPage_run s _ _ r pid body Hr Hl) as (s1 & E1 & Hr1).
    erewrite bind_ok by exact E1. rewrite Ty, D. unfold check. rewrite bind_lift.
    change (exists s' h', set_leaf path pid k v (leaf_keys es) (map snd es) next s1 = (Ok tt, s') /\
      tree_rep s' n h' (om_set (data k) v (esb ++ es ++ esa)) /\
      (h' = (length path + 0)%nat \/ h' = S (length path + 0))).
    rewrite (hole_set _ _ _ _ _ _ _ _ _ _ _ _ es (data k) v Hh Hlo Hhi), Nat.add_0_r.
    eapply set_leaf_run; [|by eapply at_leaf_intro|done].
    eapply running_weaken; [|exact Hr1]. lia.
  - destruct (hole_step m (fun i b => running_pages s _ (mkView m None) r i b Hr) r path h pid lo hi
      next first esb esa idsc es ids k Hh Hs Hlo Hhi) as
      (body & ptrs & keys & child & lo' & hi' & next' & first' & esb' & esa' & idsc' & es' & ids' &
       Hl & T1 & T2 & D & Hc & Hh' & Hs' & Hlo' & Hhi' & Hes & Hids).
    destruct (ReadPage_run s _ _ r pid body Hr Hl) as (s1 & E1 & Hr1).
    erewrite bind_ok by exact E1. rewrite T1, T2, D. unfold check. rewrite bind_lift. cbv zeta.
    rewrite Hc, Hes.
    destruct (IH s1 (mkPath pid (upperBoundIdx ptrs keys k) keys ptrs :: path) child lo' hi' next' first' esb' esa' idsc' es' ids' fuel) as (s2 & h2 & E2 & Ht & Hh2);
      try eassumption.
    + eapply running_weaken; [|exact Hr1]. cbn [length]. lia.
    + eapply NoDup_perm; [|exact Hnd]. by rewrite Hids.
    + lia.
    + exists s2, h2. split; [exact E2|]. split; [exact Ht|]. cbn [length] in Hh2. lia.
Qed.

(** The first entry of an empty store. *)
Lemma set_empty_run s n m k v :
  running s (2 + n) (mkView m None) rootSentinel -> is_Some (m !! MetaPageID) -> small_entry (data k, v) ->
  exists s', setInEmpty None k v s = (Ok tt, s') /\ tree_rep s' n 0 [(data k, v)].
Proof.
  intros Hr Hmeta [Hk Hv]. cbn [fst snd] in Hk, Hv. unfold setInEmpty.
  rewrite (proj2 (Z.ltb_ge _ _)) by done. rewrite bind_ret.
  destruct (AllocatePage_run s (1 + n) _ rootSentinel Hr eq_refl) as (id & s1 & E1 & Hnew & Hrange & Hr1).
  cbn [v_pages] in *. erewrite bind_ok by exact E1.
  destruct (BeginTx_run s1 n _ rootSentinel Hr1 eq_refl) as (s2 & E2 & Hr2). cbn [v_pages] in Hr2.
  erewrite bind_ok by exact E2. unfold or_rollback.
  erewrite bind_ok by (apply cleanup_ok; reflexivity).
  assert (leaf_ok NegInf PosInf [(data k, v)]) as Hok.
  { split_and!; [by repeat constructor|done| |by intros x _]. apply om_sorted_cons. split; [constructor|done]. }
  destruct (leaf_encode NegInf PosInf [(data k, v)] [k] [v] rootSentinel Hok) as [E Hz]; [done|done|].
  rewrite E. erewrite bind_ok by (apply cleanup_ok; reflexivity).
  destruct (WritePage_run s2 n _ rootSentinel id (leaf_image [(data k, v)] rootSentinel) Hr2) as (s3 & E3 & Hr3);
    [cbn [v_pages]; rewrite lookup_insert_eq; by eexists|done|]. cbn [v_pages v_tx] in Hr3.
  erewrite bind_ok by (apply cleanup_ok; exact E3).
  assert (id <> MetaPageID) as Hne by (intros ->; rewrite Hnew in Hmeta; by destruct Hmeta).
  destruct (WritePage_run s3 n _ rootSentinel MetaPageID (encodeMetaPage id) Hr3) as (s4 & E4 & Hr4).
  { cbn [v_pages]. rewrite !lookup_insert_is_Some'. by right; right. }
  { rewrite encodeMetaPage_image. apply zlen_meta_image. }
  erewrite bind_ok by (apply cleanup_ok; exact E4). cbn [v_pages v_tx] in Hr4.
  destruct (CommitTx_run s4 n _ rootSentinel _ Hr4 eq_refl) as (s5 & E5 & Hr5). cbn [v_pages] in Hr5.
  erewrite bind_ok by exact E5. exists (with_root id s5). split; [done|].
  eexists _, id. split; [by destruct Hr5 as (? & ? & ? & ?)|]. split.
  - rewrite encodeMetaPage_image. apply lookup_insert_eq.
  - rewrite decide_False by (unfold rootSentinel, max_pages in *; lia).
    exists id, [id]. split; [|by apply NoDup_cons; split; [rewrite list_elem_of_singleton|apply NoDup_singleton]].
    constructor; [|done|unfold u64, rootSentinel; lia].
    rewrite lookup_insert_ne by done. apply lookup_insert_eq.
Qed.

Lemma tree_rep_set s n h l k v fuel :
  tree_rep s (h + 3 + n) h l -> small_entry (data k, v) -> (h < fuel)%nat ->
  exists s' h', Set_ fuel None k v s = (Ok tt, s') /\ tree_rep s' n h' (om_set (data k) v l) /\
    (h' <= S h)%nat.
Proof.
  intros (m & r & Hr & Hmeta & Ht) Hkv Hf. pose proof Hkv as [Hk Hv]. cbn [fst snd] in Hk, Hv.
  unfold Set_. rewrite (proj2 (Z.ltb_ge MaxKeySize _)) by done.
  rewrite (proj2 (Z.ltb_ge MaxValSizeEnterprise _)) by (unfold MaxValSize, MaxValSizeEnterprise in *; lia).
  erewrite bind_ok by by eapply checkOpen_run. rewrite bind_gets, (rootPageID_run _ _ _ _ Hr).
  destruct (decide (r = rootSentinel)) as [->|Hne].
  - rewrite Z.eqb_refl. subst l.
    destruct (set_empty_run s n m k v) as (s' & E & Ht); [|by eexists|done|].
    { eapply running_weaken; [|exact Hr]. lia. }
    exists s', 0%nat. split; [exact E|]. split; [done|lia].
  - rewrite (proj2 (Z.eqb_neq _ _)) by done. destruct Ht as (first & ids & Hs & Hnd).
    unfold setInTree. rewrite (proj2 (Z.ltb_ge _ _)) by done. rewrite bind_ret, bind_gets.
    rewrite (rootPageID_run _ _ _ _ Hr).
    destruct (set_walk_run s n m r [] h r _ _ _ _ [] [] [] l ids k v fuel Hr (tree_hole _ _ _ _ _ _ Hs) Hs)
      as (s' & h' & E & Ht & Hh'); [done|done|by rewrite app_nil_r|done|done|done|done|].
    cbn [app] in Ht. rewrite app_nil_r in Ht. exists s', h'. split; [exact E|]. split; [done|].
    cbn [length] in Hh'. lia.
Qed.
(** ** Delete *)

Lemma delete_leaf_run s n m r path pid k esb es esa next lo hi idsc pos :
  running s (S n) (mkView m None) r ->
  at_leaf m r path pid k esb es esa next lo hi idsc ->
  find_key (leaf_keys es) k 0 = Some pos ->
  exists body s',
    encodeLeafNode (take pos (leaf_keys es) ++ drop (S pos) (leaf_keys es))
      (take pos (map snd es) ++ drop (S pos) (map snd es)) next = Ok body /\
    write_leaf None pid body [] [] s = (Ok tt, s') /\
    tree_rep s' n (length path) (esb ++ om_del (data k) es ++ esa).
Proof.
  intros Hr Hal Hf. pose proof (al_ok _ _ _ _ _ _ _ _ _ _ _ _ Hal) as Hok.
  destruct (find_key_some es k 0 pos []) as (pos' & -> & _ & _ & Hdel); [apply Hok|done|]. cbn [Nat.add].
  pose proof (leaf_ok_del lo hi (data k) es Hok) as Hok'.
  destruct (leaf_encode lo hi (om_del (data k) es) (take pos' (leaf_keys es) ++ drop (S pos') (leaf_keys es))
    (take pos' (map snd es) ++ drop (S pos') (map snd es)) next Hok') as [Ee Hz].
  { rewrite Hdel, !map_app. by rewrite <- (firstn_map data), <- (skipn_map data), data_leaf_keys,
      firstn_map, skipn_map. }
  { rewrite Hdel, !map_app. by rewrite firstn_map, skipn_map. }
  destruct (leaf_replaced s n m r path pid k esb es esa next lo hi idsc (om_del (data k) es) _ [] Hr Hal Hok'
    eq_refl Hz) as (s' & E & Ht).
  eexists _, s'. split; [exact Ee|]. split; [exact E|done].
Qed.

Lemma delete_run s n m r path h pid lo hi next first esb esa idsc es ids k fuel :
  running s (S n) (mkView m None) r ->
  hole m r path h pid lo hi next first esb esa idsc ->
  subtree m h pid lo hi next first es ids ->
  bound_le lo (data k) -> bound_gt hi (data k) -> NoDup (MetaPageID :: ids ++ idsc) ->
  m !! MetaPageID = Some (meta_image r) -> r <> rootSentinel -> (h < fuel)%nat ->
  exists s', deleteFromTree fuel None pid k s = (Ok tt, s') /\
    tree_rep s' n (length path + h) (om_del (data k) (esb ++ es ++ esa)).
Proof.
  revert s path pid lo hi next first esb esa idsc es ids fuel.
  induction h as [|h IH]; intros s path pid lo hi next first esb esa idsc es ids [|fuel] Hr Hh Hs Hlo Hhi Hnd
    Hmeta Hroot Hf; try lia; cbn [deleteFromTree].
  - destruct (hole_leaf m r path pid lo hi next first esb esa idsc es ids Hh Hs) as
      (body & Hl & Ty & _ & D & Hok & _ & -> & _).
    destruct (ReadPage_run s _ _ r pid body Hr Hl) as (s1 & E1 & Hr1).
    erewrite bind_ok by exact E1. rewrite Ty, D. unfold check. rewrite bind_lift, Nat.add_0_r.
    rewrite (hole_del _ _ _ _ _ _ _ _ _ _ _ _ es (data k) Hh Hlo Hhi).
    destruct (find_key (leaf_keys es) k 0) as [pos|] eqn:Hfk.
    + destruct (delete_leaf_run s1 n m r path pid k esb es esa next lo hi idsc pos Hr1) as
        (body' & s2 & Ee & Ew & Ht); [by eapply at_leaf_intro|done|].
      rewrite Ee, bind_lift. exists s2. split; [exact Ew|exact Ht].
    + rewrite (om_del_notin _ _ (find_key_none es k 0 Hfk)). exists s1. split; [done|].
      exists m, r. split; [eapply running_weaken; [|exact Hr1]; lia|]. split; [done|].
      rewrite decide_False by done.
      destruct (hole_plug _ _ _ _ _ _ _ _ _ _ _ _ _ _ Hh Hs) as (f' & ids' & Ht & Hp).
      rewrite Nat.add_0_r in Ht. exists f', ids'. split; [done|]. by rewrite Hp.
  - destruct (hole_step m (fun i b => running_pages s _ (mkView m None) r i b Hr) r path h pid lo hi
      next first esb esa idsc es ids k Hh Hs Hlo Hhi) as
      (body & ptrs & keys & child & lo' & hi' & next' & first' & esb' & esa' & idsc' & es' & ids' &
       Hl & T1 & T2 & D & Hc & Hh' & Hs' & Hlo' & Hhi' & Hes & Hids).
    destruct (ReadPage_run s _ _ r pid body Hr Hl) as (s1 & E1 & Hr1).
    erewrite bind_ok by exact E1. rewrite T1, T2, D. unfold check. rewrite bind_lift.
    unfold upperBound. rewrite Hc, Hes.
    destruct (IH s1 (mkPath pid (upperBoundIdx ptrs keys k) keys ptrs :: path) child lo' hi' next' first'
      esb' esa' idsc' es' ids' fuel) as (s2 & E2 & Ht); try eassumption.
    + eapply NoDup_perm; [|exact Hnd]. by rewrite Hids.
    + lia.
    + exists s2. split; [exact E2|]. cbn [length] in Ht. by rewrite Nat.add_succ_r.
Qed.

Lemma tree_rep_delete s n h l k fuel :
  tree_rep s (S n) h l -> (h < fuel)%nat ->
  exists s', Delete fuel None k s = (Ok tt, s') /\ tree_rep s' n h (om_del (data k) l).
Proof.
  intros (m & r & Hr & Hmeta & Ht) Hf. unfold Delete.
  erewrite bind_ok by by eapply checkOpen_run. rewrite bind_gets, (rootPageID_run _ _ _ _ Hr).
  destruct (decide (r = rootSentinel)) as [->|Hne].
  - rewrite Z.eqb_refl. subst l. exists s. split; [done|]. exists m, rootSentinel.
    split; [eapply running_weaken; [|exact Hr]; lia|]. split; [done|]. by rewrite decide_True.
  - rewrite (proj2 (Z.eqb_neq _ _)) by done. destruct Ht as (first & ids & Hs & Hnd).
    destruct (delete_run s n m r [] h r _ _ _ _ [] [] [] l ids k fuel Hr (tree_hole _ _ _ _ _ _ Hs) Hs)
      as (s' & E & Ht); [done|done|by rewrite app_nil_r|done|done|done|].
    cbn [app] in Ht. rewrite app_nil_r in Ht. by exists s'.
Qed.

(** ** Scan *)

(** A run of linked leaves. *)
Inductive leaves (m : gmap Z (list byte)) : nat -> Z -> Z -> list entry -> Prop :=
| lv_nil p : leaves m 0 p p []
| lv_cons n lo hi pid next stop es es' :
    m !! pid = Some (leaf_image es next) -> leaf_ok lo hi es -> u64 next ->
    leaves m n next stop es' -> leaves m (S n) pid stop (es ++ es').

Lemma leaves_app m n1 n2 p q r es1 es2 :
  leaves m n1 p q es1 -> leaves m n2 q r es2 -> leaves m (n1 + n2) p r (es1 ++ es2).
Proof.
  induction 1; intros Hq; [done|]. cbn [Nat.add]. rewrite <- app_assoc. econstructor; eauto.
Qed.

Lemma subtree_leaves m :
  (forall h pid lo hi next first es ids, subtree m h pid lo hi next first es ids ->
     exists n, leaves m n first next es /\ (n <= length ids)%nat) /\
  (forall h ch lo hi next first es ids, chain m h ch lo hi next first es ids ->
     exists n, leaves m n first next es /\ (n <= length ids)%nat).
Proof.
  apply subtree_chain_ind.
  - intros pid lo hi next es Hl Hok Hu. exists 1%nat. split; [|done]. rewrite <- (app_nil_r es).
    econstructor; try done. constructor.
  - intros h pid lo hi next first ch keys es ids _ _ _ _ _ (n & L & Hn). exists n. split; [done|]. cbn [length]. lia.
  - intros h lo next. exists 0%nat. split; [constructor|done].
  - intros h c mid ch lo hi next next1 first es1 es2 ids1 ids2 _ _ (n1 & L1 & H1) _ (n2 & L2 & H2).
    exists (n1 + n2)%nat. split; [by eapply leaves_app|]. rewrite length_app. lia.
Qed.

Lemma hole_leaves m root path h c lo hi next first esb esa idsc :
  hole m root path h c lo hi next first esb esa idsc ->
  exists n, leaves m n next rootSentinel esa /\ (n <= length idsc)%nat.
Proof.
  induction 1 as [|path h pid lo hi next first esb esa idsc ch1 c u ch2 keys mid nx nxc e1 e2 i1 i2
    Hh (n2 & IH & Hn2) Hm Hk Hn Hs C1 Hlt C2]; [exists 0%nat; split; [constructor|done]|].
  destruct (proj2 (subtree_leaves m) _ _ _ _ _ _ _ _ C2) as (n1 & L1 & Hn1).
  exists (n1 + n2)%nat. split; [by eapply leaves_app|]. cbn [length]. rewrite !length_app. lia.
Qed.

(** A tree is lower than it has pages. *)
Lemma subtree_height m h pid lo hi next first es ids :
  subtree m h pid lo hi next first es ids -> (h < length ids)%nat.
Proof.
  revert pid lo hi next first es ids. induction h as [|h IH]; intros pid lo hi next first es ids Hs.
  - inversion Hs; subst. cbn. lia.
  - inversion Hs as [|? ? ? ? ? ? ch keys ? ids0 Hl Hk Hn Hks Hc]; subst.
    destruct ch as [|[c mid] ch]; [by destruct keys|].
    apply chain_cons_inv in Hc as (n1 & e1 & e2 & i1 & i2 & -> & -> & _ & Hsub & _).
    specialize (IH _ _ _ _ _ _ _ Hsub). cbn [length]. rewrite length_app. lia.
Qed.

(** Distinct pages below a bound are no more than the bound. *)
Lemma pages_below (M : Z) (ids : list Z) :
  (forall i, i ∈ ids -> 0 <= i < M) -> NoDup ids -> (length ids <= Z.to_nat M)%nat.
Proof.
  intros Ha Hnd. rewrite <- (length_seqZ 0 M).
  apply submseteq_length, NoDup_submseteq; [done|]. intros i Hi. apply elem_of_seqZ.
  specialize (Ha i Hi). lia.
Qed.

(** The pages a pager can have. *)
Definition walk_bound : nat := Z.to_nat max_pages.

Lemma pages_bounded s n m tx r ids :
  running s n (mkView m tx) r -> (forall i, i ∈ ids -> is_Some (m !! i)) -> NoDup ids ->
  (length ids <= walk_bound)%nat.
Proof.
  intros Hr Ha Hnd. apply pages_below; [|exact Hnd]. intros i Hi. destruct (Ha i Hi) as [b Hb].
  pose proof (running_pages _ _ _ _ i b Hr Hb). unfold FirstDataPageID in *. lia.
Qed.
Lemma walk_bound_pos : (0 < walk_bound)%nat.
Proof. unfold walk_bound, max_pages. apply (Z2Nat.inj_lt 0); lia. Qed.
#[local] Opaque walk_bound.

(** An empty key means no bound. *)
Definition key_bound (k : Key) : option (list byte) :=
  if zlen (data k) =? 0 then None else Some (data k).

Definition scan_result (start stop : Key) (l : list entry) : list Entry :=
  map (fun e => mkEntry (importKey (fst e)) (snd e)) (om_range (key_bound start) (key_bound stop) l).

Lemma scan_result_app start stop l1 l2 :
  scan_result start stop (l1 ++ l2) = scan_result start stop l1 ++ scan_result start stop l2.
Proof. unfold scan_result. by rewrite om_range_app, map_app. Qed.

Definition past (stop : Key) (k : list byte) : Prop :=
  0 < zlen (data stop) /\ bytes_le (data stop) k.

Lemma in_range_past start stop k : past stop k -> in_range (key_bound start) (key_bound stop) k = false.
Proof.
  intros [Hz Hle]. unfold key_bound at 2. rewrite (proj2 (Z.eqb_neq _ _)) by lia.
  unfold in_range. apply andb_false_iff. right. apply bytes_not_lt in Hle.
  by destruct (bytes_compare k (data stop)).
Qed.

Lemma scan_result_past start stop l :
  (forall k, In k (map fst l) -> past stop k) -> scan_result start stop l = [].
Proof.
  intros Hp. unfold scan_result. rewrite om_range_none; [done|].
  intros k Hk. by apply in_range_past, Hp.
Qed.

Lemma scan_entries_run s es start stop results :
  om_sorted es ->
  exists b, scan_entries None (leaf_keys es) (map small_ref es) start stop results s
    = (Ok (results ++ scan_result start stop es, b), s) /\
    (b = true -> exists k, In k (map fst es) /\ past stop k).
Proof.
  revert results. induction es as [|[k v] es IH]; intros results Hs.
  - exists false. cbn. unfold scan_result. simpl. by rewrite app_nil_r.
  - apply om_sorted_cons in Hs as [Hs Hlt].
    change (leaf_keys ((k, v) :: es)) with (importKey k :: leaf_keys es).
    change (map small_ref ((k, v) :: es)) with (small_ref (k, v) :: map small_ref es).
    cbn [scan_entries]. change (Compare (importKey k) start) with (bytes_compare k (data start)).
    change (Compare (importKey k) stop) with (bytes_compare k (data stop)).
    change ((k, v) :: es) with ([(k, v)] ++ es). rewrite scan_result_app.
    assert (scan_result start stop [(k, v)]
      = if in_range (key_bound start) (key_bound stop) k then [mkEntry (importKey k) v] else []) as ->.
    { unfold scan_result, om_range. cbn [List.filter fst]. by destruct (in_range _ _ k). }
    pose proof (zlen_nonneg (data start)). pose proof (zlen_nonneg (data stop)).
    destruct ((0 <? zlen (data start)) && bool_decide (bytes_compare k (data start) = Lt)) eqn:E1.
    + apply andb_true_iff in E1 as [Ez El]. apply Z.ltb_lt in Ez. apply bool_decide_eq_true in El.
      assert (in_range (key_bound start) (key_bound stop) k = false) as ->.
      { unfold in_range, key_bound at 1. rewrite (proj2 (Z.eqb_neq _ _)) by lia. by rewrite El. }
      destruct (IH results Hs) as (b & E & Hb). exists b. split; [exact E|].
      intros Hbt. destruct (Hb Hbt) as (x & Hx & Hp). exists x. split; [by right|done].
    + destruct ((0 <? zlen (data stop)) && negb (bool_decide (bytes_compare k (data stop) = Lt))) eqn:E2.
      * apply andb_true_iff in E2 as [Ez El]. apply Z.ltb_lt in Ez. apply negb_true_iff, bool_decide_eq_false in El.
        apply bytes_not_lt in El. assert (past stop k) as Hp by (by split).
        exists true. rewrite (in_range_past start stop k Hp), (scan_result_past start stop es).
        -- cbv iota. cbn [app]. rewrite app_nil_r. split; [done|]. intros _. exists k. split; [by left|done].
        -- intros x Hx. split; [lia|]. eapply bytes_le_trans; [exact El|]. by apply bytes_lt_le, Hlt.
      * assert (in_range (key_bound start) (key_bound stop) k = true) as ->.
        { unfold in_range, key_bound. apply andb_true_iff. split.
          - destruct (Z.eqb_spec (zlen (data start)) 0); [done|].
            apply andb_false_iff in E1 as [E1|E1]; [apply Z.ltb_ge in E1; lia|].
            apply bool_decide_eq_false in E1. by destruct (bytes_compare k (data start)).
          - destruct (Z.eqb_spec (zlen (data stop)) 0); [done|].
            apply andb_false_iff in E2 as [E2|E2]; [apply Z.ltb_ge in E2; lia|].
            apply negb_false_iff, bool_decide_eq_true in E2. by rewrite E2. }
        change (hasOverflow (small_ref (k, v))) with false. cbn [inline small_ref snd]. cbv iota.
        rewrite bind_ret. destruct (IH (results ++ [mkEntry (importKey k) v]) Hs) as (b & E & Hb).
        exists b. rewrite <- app_assoc in E. split; [exact E|].
        intros Hbt. destruct (Hb Hbt) as (x & Hx & Hp). exists x. split; [by right|done].
Qed.

Lemma scanLeaf_run s n m r c p l start stop results fuel :
  running s n (mkView m None) r -> leaves m c p rootSentinel l -> om_sorted l -> (c <= fuel)%nat ->
  exists s', scanLeaf fuel None p start stop results s = (Ok (results ++ scan_result start stop l), s') /\
    running s' n (mkView m None) r.
Proof.
  intros Hr Hl. revert s results fuel Hr. remember rootSentinel as q eqn:Hq.
  induction Hl as [p|c lo hi pid next q es es' Hl Hok Hu _ IH]; intros s results fuel Hr Hs Hf.
  - exists s. split; [|done]. unfold scan_result. simpl. rewrite app_nil_r.
    subst p. by destruct fuel; cbn [scanLeaf]; rewrite Z.eqb_refl.
  - destruct fuel as [|fuel]; [lia|]. cbn [scanLeaf].
    pose proof (running_pages s n _ r pid _ Hr Hl) as Hrange.
    rewrite (proj2 (Z.eqb_neq pid rootSentinel)) by (unfold rootSentinel, max_pages in *; lia).
    rewrite (proj2 (Z.eqb_neq pid 0)) by (unfold FirstDataPageID in *; lia). cbn [orb].
    destruct (ReadPage_run s n _ r pid _ Hr Hl) as (s1 & E1 & Hr1). erewrite bind_ok by exact E1.
    destruct (leaf_decode lo hi es next Hok Hu) as [D _]. rewrite D. unfold check. rewrite bind_lift.
    apply om_sorted_app in Hs as (Hs1 & Hs2 & Hcross).
    destruct (scan_entries_run s1 es start stop results Hs1) as (b & E2 & Hb).
    erewrite bind_ok by exact E2. rewrite scan_result_app. destruct b.
    + exists s1. split; [|done]. destruct (Hb eq_refl) as (x & Hx & Hz & Hp).
      rewrite (scan_result_past start stop es'), app_nil_r; [done|].
      intros y Hy. split; [done|]. eapply bytes_le_trans; [exact Hp|]. by apply bytes_lt_le, Hcross.
    + destruct (IH Hq s1 (results ++ scan_result start stop es) fuel Hr1 Hs2) as (s2 & E3 & Hr2); [lia|].
      exists s2. by rewrite E3, <- app_assoc.
Qed.

(** From the leftmost leaf. *)
Lemma scan_left_run s n m r h pid lo hi next first es ids start stop fuel lv :
  running s n (mkView m None) r -> subtree m h pid lo hi next first es ids ->
  zlen (data start) = 0 -> (h < fuel)%nat ->
  exists s', scan_from fuel None pid start stop lv s = scanLeaf lv None first start stop [] s' /\
    running s' n (mkView m None) r.
Proof.
  intros Hr Hs Hz. revert s pid lo hi next first es ids fuel Hr Hs.
  induction h as [|h IH]; intros s pid lo hi next first es ids [|fuel] Hr Hs Hf; try lia; cbn [scan_from].
  - inversion Hs as [? ? ? ? ? Hl Hok Hu|]; subst.
    destruct (ReadPage_run s n _ r first _ Hr Hl) as (s1 & E1 & Hr1).
    erewrite bind_ok by exact E1. rewrite leaf_image_type. by exists s1.
  - inversion Hs as [|? ? ? ? ? ? ch keys ? ids0 Hl Hk Hn Hks Hc]; subst.
    destruct (ReadPage_run s n _ r pid _ Hr Hl) as (s1 & E1 & Hr1).
    erewrite bind_ok by exact E1. destruct (node_image_type (map fst ch) keys) as [-> ->].
    rewrite node_decode; [|by eapply node_keys_count|done|done|].
    2: { eapply chain_ptrs_u64; [|exact Hc]. exact (fun i b => running_pages s n _ r i b Hr). }
    unfold check. rewrite bind_lift, Hz, Z.eqb_refl.
    destruct ch as [|[c mid] ch]; [by destruct keys|].
    apply chain_cons_inv in Hc as (n1 & e1 & e2 & i1 & i2 & -> & -> & _ & Hsub & _).
    cbn [map fst nth]. eapply IH; [exact Hr1|exact Hsub|lia].
Qed.

(** From the leaf where the lower bound belongs. *)
Lemma scan_bounded_run s n m r path h pid lo hi next first esb esa idsc es ids start stop :
  running s n (mkView m None) r ->
  hole m r path h pid lo hi next first esb esa idsc ->
  subtree m h pid lo hi next first es ids ->
  bound_le lo (data start) -> bound_gt hi (data start) -> om_sorted (esb ++ es ++ esa) ->
  zlen (data start) <> 0 ->
  exists c, (c <= length ids + length idsc)%nat /\ forall fuel lv, (h < fuel)%nat -> (c <= lv)%nat ->
  exists s', scan_from fuel None pid start stop lv s = (Ok (scan_result start stop (esb ++ es ++ esa)), s') /\
    running s' n (mkView m None) r.
Proof.
  intros Hr Hh Hs Hlo Hhi Hsort Hz. revert s path pid lo hi next first esb esa idsc es ids Hr Hh Hs Hlo Hhi Hsort.
  induction h as [|h IH]; intros s path pid lo hi next first esb esa idsc es ids Hr Hh Hs Hlo Hhi Hsort.
  - destruct (hole_leaf m r path pid lo hi next first esb esa idsc es ids Hh Hs) as
      (body & Hl & Ty & _ & _ & Hok & Hu & -> & _).
    destruct (ReadPage_run s n _ r pid body Hr Hl) as (s1 & E1 & Hr1).
    destruct (hole_leaves _ _ _ _ _ _ _ _ _ _ _ _ Hh) as (c & Hlv & Hc).
    assert (leaves m (S c) pid rootSentinel (es ++ esa)) as Hlv'.
    { inversion Hs; subst. by econstructor. }
    exists (S c). split; [inversion Hs; subst; cbn [length]; lia|]. intros [|fuel] lv Hf Hlvn; [lia|]. cbn [scan_from]. erewrite bind_ok by exact E1. rewrite Ty.
    apply om_sorted_app in Hsort as (_ & Hsort & _).
    destruct (scanLeaf_run s1 n m r (S c) pid (es ++ esa) start stop [] lv Hr1 Hlv' Hsort Hlvn) as (s2 & E2 & Hr2).
    exists s2. rewrite E2, (scan_result_app _ _ esb). split; [|done].
    assert (scan_result start stop esb = []) as ->; [|done].
    unfold scan_result. rewrite om_range_none; [done|]. intros x Hx.
    destruct (hole_around _ _ _ _ _ _ _ _ _ _ _ _ Hh) as (Hb & _).
    unfold in_range, key_bound at 1. rewrite (proj2 (Z.eqb_neq _ _)) by done.
    assert (bytes_lt x (data start)) as Hlt by (eapply bound_between; [by apply Hb|done]).
    unfold bytes_lt in Hlt. by rewrite Hlt.
  - destruct (hole_step m (fun i b => running_pages s _ (mkView m None) r i b Hr) r path h pid lo hi
      next first esb esa idsc es ids start Hh Hs Hlo Hhi) as
      (body & ptrs & keys & child & lo' & hi' & next' & first' & esb' & esa' & idsc' & es' & ids' &
       Hl & T1 & T2 & D & Hc & Hh' & Hs' & Hlo' & Hhi' & Hes & Hids).
    apply Permutation_length in Hids. rewrite !length_app in Hids.
    destruct (ReadPage_run s n _ r pid body Hr Hl) as (s1 & E1 & Hr1). rewrite Hes in *.
    destruct (IH s1 (mkPath pid (upperBoundIdx ptrs keys start) keys ptrs :: path) child lo' hi' next' first' esb' esa' idsc' es' ids'
      Hr1 Hh' Hs' Hlo' Hhi' Hsort) as (c & Hcb & Hc').
    exists c. split; [lia|]. intros [|fuel] lv Hf Hlv; [lia|]. cbn [scan_from]. erewrite bind_ok by exact E1. rewrite T1, T2, D. unfold check. rewrite bind_lift.
    rewrite (proj2 (Z.eqb_neq _ _)) by done. unfold upperBound. rewrite Hc. apply Hc'; [lia|done].
Qed.

Lemma tree_rep_scan s n h l start stop :
  tree_rep s n h l ->
  exists c, (c <= walk_bound)%nat /\ forall fuel lv, (h < fuel)%nat -> (c <= lv)%nat ->
  exists s', Scan fuel lv None start stop s = (Ok (scan_result start stop l), s') /\ tree_rep s' n h l.
Proof.
  intros Hrep. pose proof (tree_rep_sorted _ _ _ _ Hrep) as Hsort.
  destruct Hrep as (m & r & Hr & Hmeta & Ht). unfold Scan.
  assert (forall fuel lv, (checkOpen ;;; root <- gets rootPageID ;;
     (if root =? rootSentinel then ret [] else scan_from fuel None root start stop lv)) s
     = (if r =? rootSentinel then ret [] else scan_from fuel None r start stop lv) s) as Hpre.
  { intros fuel lv. erewrite bind_ok by by eapply checkOpen_run. by rewrite bind_gets, (rootPageID_run _ _ _ _ Hr). }
  assert (forall s', running s' n (mkView m None) r -> tree_rep s' n h l) as Hback.
  { intros s' Hr'. by exists m, r. }
  destruct (decide (r = rootSentinel)) as [->|Hne].
  - exists 0%nat. split; [lia|]. intros fuel lv _ _. exists s. rewrite Hpre, Z.eqb_refl. subst l. split; [done|by apply Hback].
  - destruct Ht as (first & ids & Hs & Hnd). apply NoDup_cons in Hnd as Hnd'. destruct Hnd' as [_ Hnd'].
    assert (length ids <= walk_bound)%nat as Hids.
    { eapply pages_bounded; [exact Hr| |exact Hnd']. by apply (proj1 (subtree_alloc m) _ _ _ _ _ _ _ _ Hs). }
    destruct (Z.eq_dec (zlen (data start)) 0) as [Hz|Hz].
    + destruct (proj1 (subtree_leaves m) _ _ _ _ _ _ _ _ Hs) as (c & Hlv & Hc). exists c.
      split; [lia|]. intros fuel lv Hf Hle.
      destruct (scan_left_run s n m r h r _ _ _ _ l ids start stop fuel lv Hr Hs Hz Hf) as (s1 & E1 & Hr1).
      destruct (scanLeaf_run s1 n m r c first l start stop [] lv Hr1 Hlv Hsort Hle) as (s2 & E2 & Hr2).
      exists s2. rewrite Hpre, (proj2 (Z.eqb_neq _ _)), E1, E2 by done. split; [done|by apply Hback].
    + destruct (scan_bounded_run s n m r [] h r _ _ _ _ [] [] [] l ids start stop Hr
        (tree_hole _ _ _ _ _ _ Hs) Hs) as (c & Hcb & Hc); [done|done|by rewrite app_nil_r|done|].
      exists c. split; [cbn [length] in Hcb; lia|]. intros fuel lv Hf Hle. destruct (Hc fuel lv Hf Hle) as (s' & E & Hr'). cbn [app] in E. rewrite app_nil_r in E.
      exists s'. rewrite Hpre, (proj2 (Z.eqb_neq _ _)) by done. split; [exact E|by apply Hback].
Qed.

(** The height is below the bound; for an empty tree it does not matter. *)
Lemma tree_rep_height s n h l :
  tree_rep s n h l -> exists h', (h' <= h)%nat /\ (h' < walk_bound)%nat /\ tree_rep s n h' l.
Proof.
  intros (m & r & Hr & Hm & Ht). destruct (decide (r = rootSentinel)) as [->|Hne].
  - exists 0%nat. split; [lia|]. split; [apply walk_bound_pos|]. exists m, rootSentinel. done.
  - exists h. split; [lia|]. split; [|exists m, r; split; [done|split; [done|by rewrite decide_False]]].
    destruct Ht as (first & ids & Hs & Hnd). apply NoDup_cons in Hnd as [_ Hnd].
    pose proof (subtree_height _ _ _ _ _ _ _ _ _ Hs).
    assert (length ids <= walk_bound)%nat; [|lia].
    eapply pages_bounded; [exact Hr| |exact Hnd]. by apply (proj1 (subtree_alloc m) _ _ _ _ _ _ _ _ Hs).
Qed.
End proofs.
