(* ===== verification/BTreeSpec.v ===== *)
(** What the on-disk key-value store promises, end to end.

    The store of [BTree.v] over any pager that satisfies [PagerSpec] is the
    ordered map of [OrdMap.v]: one theorem per operation, one for whole runs, and
    the errors of the lifecycle.  Over the file pager of [Pager.v] it is durable:
    whatever is in the map when the process dies is in the map when the files are
    opened again.  The last part is about values larger than [MaxValSize]. *)

From Stdlib Require Import ZArith Lia Sorted.
From stdpp Require Import gmap.
From S2P Require Import Prelude OrdMap Page Pager PagerSpec PagerSim PagerRefine PagerCrash.
From S2P Require Import Key KvNode Monad BTree BTreeRep BTreeStep BTreeProof.
Open Scope Z_scope.
Open Scope st_scope.
Import BTree.

Section spec.
Context {P : Type} `{PagerSpec P}.

(** Get returns the value of the key in the map, or [ErrKeyNotFound]; fuel
    one larger than the height is enough, and the map is unchanged. *)
Theorem kv_get_refines s n h l k fuel :
  tree_rep s n h l -> (h < fuel)%nat ->
  exists s', Get fuel None k s
      = (match om_get (data k) l with Some v => Ok v | None => Err (KvErr ErrKeyNotFound) end, s') /\
    tree_rep s' n h l.
Proof. apply tree_rep_get. Qed.

(** Set of a small value inserts or replaces the key, in place, by an insert
    into a leaf or by splits up to a new root; the tree grows by at most one
    level. *)
Theorem kv_set_refines s n h l k v fuel :
  tree_rep s (h + 3 + n) h l -> zlen (data k) <= MaxKeySize -> zlen v <= MaxValSize ->
  (h < fuel)%nat ->
  exists s' h', Set_ fuel None k v s = (Ok tt, s') /\ tree_rep s' n h' (om_set (data k) v l) /\
    (h' <= S h)%nat.
Proof. intros Ht Hk Hv. by apply tree_rep_set. Qed.

(** Delete removes the key, and does nothing when it is missing. *)
Theorem kv_delete_refines s n h l k fuel :
  tree_rep s (S n) h l -> (h < fuel)%nat ->
  exists s', Delete fuel None k s = (Ok tt, s') /\ tree_rep s' n h (om_del (data k) l).
Proof. apply tree_rep_delete. Qed.

(** C20: Scan returns the entries with [start <= key < end] in ascending key order,
    an empty key being no bound; the walk along the leaves ends, within the number of
    pages a pager can have. *)
Theorem kv_scan_refines s n h l start stop :
  tree_rep s n h l ->
  exists c, (c <= walk_bound)%nat /\ forall fuel leaves, (h < fuel)%nat -> (c <= leaves)%nat ->
  exists s', Scan fuel leaves None start stop s
      = (Ok (map (fun e => mkEntry (importKey (fst e)) (snd e))
               (om_range (key_bound start) (key_bound stop) l)), s') /\
    tree_rep s' n h l.
Proof. apply tree_rep_scan. Qed.

(** ** Lifecycle *)

(** the lifecycle of the store: before Open every operation fails with
    [ErrNotOpen], Open is idempotent, after Close every operation, Open included,
    fails with [ErrClosed], Close is idempotent, and keys and values over the
    limits are refused before anything is touched. *)
Theorem kv_lifecycle (s : btreeStore (P := P)) k v fuel leaves start stop c :
  (closed s = false -> isOpen s = false ->
     Get fuel c k s = (Err (KvErr ErrKvNotOpen), s) /\ Delete fuel c k s = (Err (KvErr ErrKvNotOpen), s) /\
     Scan fuel leaves c start stop s = (Err (KvErr ErrKvNotOpen), s)) /\
  (closed s = false -> isOpen s = true -> Open c s = (Ok tt, s)) /\
  (closed s = true ->
     Open c s = (Err (KvErr ErrKvClosed), s) /\ Close c s = (Ok tt, s) /\
     Get fuel c k s = (Err (KvErr ErrKvClosed), s) /\ Delete fuel c k s = (Err (KvErr ErrKvClosed), s) /\
     Scan fuel leaves c start stop s = (Err (KvErr ErrKvClosed), s) /\
     (zlen (data k) <= MaxKeySize -> zlen v <= MaxValSizeEnterprise ->
      Set_ fuel c k v s = (Err (KvErr ErrKvClosed), s))) /\
  (MaxKeySize < zlen (data k) -> Set_ fuel c k v s = (Err (KvErr ErrKeyTooLarge), s)) /\
  (zlen (data k) <= MaxKeySize -> MaxValSizeEnterprise < zlen v ->
     Set_ fuel c k v s = (Err (KvErr ErrValueTooLarge), s)).
Proof.
  unfold Get, Delete, Scan, Open, Close, Set_, checkOpen, throw.
  split; [|split; [|split; [|split]]].
  - intros Hc Ho. by rewrite !bind_assoc, !bind_gets, Hc, !bind_assoc, !bind_gets, Ho.
  - intros Hc Ho. by rewrite bind_gets, Hc, bind_gets, Ho.
  - intros Hc. rewrite !bind_assoc, !bind_gets, Hc. split_and!; try done. intros Hk Hv.
    rewrite !(proj2 (Z.ltb_ge _ _)) by done. by rewrite bind_assoc, bind_gets, Hc.
  - intros Hk. by rewrite (proj2 (Z.ltb_lt _ _)).
  - intros Hk Hv. by rewrite (proj2 (Z.ltb_ge _ _)), (proj2 (Z.ltb_lt _ _)).
Qed.

(** ** Runs *)

Inductive kv_request : Type :=
| KGet (k : Key) | KSet (k : Key) (v : list byte) | KDelete (k : Key) | KScan (start stop : Key).

Inductive kv_answer : Type :=
| AGet (r : res btree_err (list byte)) | ASet (r : res btree_err unit)
| AScan (r : res btree_err (list Entry)).

Definition kv_serve (fuel leaves : nat) (q : kv_request) (s : btreeStore (P := P))
  : kv_answer * btreeStore (P := P) :=
  match q with
  | KGet k => let '(r, s') := Get fuel None k s in (AGet r, s')
  | KSet k v => let '(r, s') := Set_ fuel None k v s in (ASet r, s')
  | KDelete k => let '(r, s') := Delete fuel None k s in (ASet r, s')
  | KScan a b => let '(r, s') := Scan fuel leaves None a b s in (AScan r, s')
  end.

Fixpoint kv_serve_all (fuel leaves : nat) (qs : list kv_request) (s : btreeStore (P := P))
  : list kv_answer * btreeStore (P := P) :=
  match qs with
  | [] => ([], s)
  | q :: qs' =>
      let '(a, s1) := kv_serve fuel leaves q s in
      let '(l, s2) := kv_serve_all fuel leaves qs' s1 in (a :: l, s2)
  end.

(** The ordered map's answer, and the map afterwards. *)
Definition map_serve (q : kv_request) (l : list entry) : kv_answer * list entry :=
  match q with
  | KGet k => (AGet (lookup_result k l), l)
  | KSet k v => if MaxKeySize <? zlen (data k) then (ASet (Err (KvErr ErrKeyTooLarge)), l)
                else (ASet (Ok tt), om_set (data k) v l)
  | KDelete k => (ASet (Ok tt), om_del (data k) l)
  | KScan a b => (AScan (Ok (scan_result a b l)), l)
  end.

Fixpoint map_serve_all (qs : list kv_request) (l : list entry) : list kv_answer * list entry :=
  match qs with
  | [] => ([], l)
  | q :: qs' =>
      let '(a, l1) := map_serve q l in
      let '(rs, l2) := map_serve_all qs' l1 in (a :: rs, l2)
  end.

Definition small_request (q : kv_request) : Prop :=
  match q with KSet _ v => zlen v <= MaxValSize | _ => True end.

Lemma kv_serve_refines q s n h l :
  tree_rep s (h + 3 + n) h l -> small_request q ->
  exists c, forall fuel leaves, (h < fuel)%nat -> (c <= leaves)%nat ->
  exists s' h', kv_serve fuel leaves q s = (fst (map_serve q l), s') /\
    tree_rep s' n h' (snd (map_serve q l)) /\ (h' <= S h)%nat.
Proof.
  intros Ht Hq. destruct q as [k|k v|k|a b]; simpl in *.
  - exists 0%nat. intros fuel lv Hf _. destruct (tree_rep_get s _ h l k fuel Ht Hf) as (s' & E & Ht').
    exists s', h. rewrite E. split; [done|]. split; [eapply tree_rep_weaken; [|exact Ht']; lia|lia].
  - exists 0%nat. intros fuel lv Hf _. destruct (Z.ltb_spec MaxKeySize (zlen (data k))) as [Hk|Hk].
    + unfold Set_. rewrite (proj2 (Z.ltb_lt _ _)) by done. exists s, h. split; [done|].
      split; [eapply tree_rep_weaken; [|exact Ht]; lia|lia].
    + destruct (tree_rep_set s n h l k v fuel Ht) as (s' & h' & E & Ht' & Hh'); [done|done|].
      exists s', h'. by rewrite E.
  - exists 0%nat. intros fuel lv Hf _.
    destruct (tree_rep_delete s (h + 2 + n) h l k fuel) as (s' & E & Ht'); [|done|].
    { eapply tree_rep_weaken; [|exact Ht]. lia. }
    exists s', h. rewrite E. split; [done|]. split; [eapply tree_rep_weaken; [|exact Ht']; lia|lia].
  - destruct (tree_rep_scan s (h + 3 + n) h l a b Ht) as (c & _ & Hc). exists c. intros fuel lv Hf Hlv.
    destruct (Hc fuel lv Hf Hlv) as (s' & E & Ht'). exists s', h. rewrite E.
    split; [done|]. split; [eapply tree_rep_weaken; [|exact Ht']; lia|lia].
Qed.

(** *** Fuel

    A walk that ends gives the same answer with more fuel. *)

Lemma bind_mono {S E A B} (c : st S E A) (k1 k2 : A -> st S E B) s r :
  (forall a s1, c s = (Ok a, s1) -> k1 a s1 = r -> k2 a s1 = r) -> bind c k1 s = r -> bind c k2 s = r.
Proof. unfold bind. destruct (c s) as [[a|e] s1]; eauto. Qed.

Definition ends {A} (r : res btree_err A * btreeStore (P := P)) : Prop := fst r <> Err OutOfFuel.

Ltac mono_step :=
  match goal with
  | |- bind _ _ _ = _ -> bind _ _ _ = _ => apply bind_mono; intros ? ? _
  | |- context [match ?x with _ => _ end _ = _ -> _] => destruct x
  | |- ?a -> ?a => exact (fun x => x)
  end.

Lemma search_mono n m ctx pid k s r :
  (n <= m)%nat -> ends r -> search n ctx pid k s = r -> search m ctx pid k s = r.
Proof.
  revert m pid s. induction n as [|n IH]; intros [|m] pid s Hle Hr; try lia;
    try (by intros <-); cbn [search]; repeat mono_step. apply IH; [lia|done].
Qed.

Lemma set_walk_mono n m ctx path pid k v ov s r :
  (n <= m)%nat -> ends r -> set_walk n ctx path pid k v ov s = r -> set_walk m ctx path pid k v ov s = r.
Proof.
  revert m path pid s. induction n as [|n IH]; intros [|m] path pid s Hle Hr; try lia;
    try (by intros <-); cbn [set_walk]; repeat mono_step. apply IH; [lia|done].
Qed.

Lemma delete_mono n m ctx pid k s r :
  (n <= m)%nat -> ends r -> deleteFromTree n ctx pid k s = r -> deleteFromTree m ctx pid k s = r.
Proof.
  revert m pid s. induction n as [|n IH]; intros [|m] pid s Hle Hr; try lia;
    try (by intros <-); cbn [deleteFromTree]; repeat mono_step. apply IH; [lia|done].
Qed.

Lemma scanLeaf_mono n m ctx pid a b acc s r :
  (n <= m)%nat -> ends r -> scanLeaf n ctx pid a b acc s = r -> scanLeaf m ctx pid a b acc s = r.
Proof.
  revert m pid acc s. induction n as [|n IH]; intros [|m] pid acc s Hle Hr; try lia;
    cbn [scanLeaf]; destruct (_ || _); try done; try (by intros <-); repeat mono_step.
  apply IH; [lia|done].
Qed.

Lemma scan_from_mono n m n1 m1 ctx pid a b s r :
  (n <= m)%nat -> (n1 <= m1)%nat -> ends r ->
  scan_from n ctx pid a b n1 s = r -> scan_from m ctx pid a b m1 s = r.
Proof.
  revert m pid s. induction n as [|n IH]; intros [|m] pid s Hle Hle1 Hr; try lia;
    try (by intros <-); cbn [scan_from]; repeat mono_step.
  - by apply scanLeaf_mono.
  - apply IH; [lia|done|done].
Qed.

Definition served (a : kv_answer) : Prop :=
  match a with
  | AGet r => r <> Err OutOfFuel | ASet r => r <> Err OutOfFuel | AScan r => r <> Err OutOfFuel
  end.

Lemma kv_serve_mono n m q s a s' :
  (n <= m)%nat -> served a -> kv_serve n n q s = (a, s') -> kv_serve m m q s = (a, s').
Proof.
  intros Hle Ha. destruct q as [k|k v|k|lo hi]; cbn [kv_serve].
  - destruct (Get n None k s) as [r s1] eqn:G. intros [= <- <-].
    assert (Get m None k s = (r, s1)) as ->; [|done]. revert G. unfold Get. repeat mono_step.
    by apply search_mono.
  - destruct (Set_ n None k v s) as [r s1] eqn:G. intros [= <- <-].
    assert (Set_ m None k v s = (r, s1)) as ->; [|done]. revert G. unfold Set_, setInTree.
    repeat mono_step. by apply set_walk_mono.
  - destruct (Delete n None k s) as [r s1] eqn:G. intros [= <- <-].
    assert (Delete m None k s = (r, s1)) as ->; [|done]. revert G. unfold Delete. repeat mono_step.
    by apply delete_mono.
  - destruct (Scan n n None lo hi s) as [r s1] eqn:G. intros [= <- <-].
    assert (Scan m m None lo hi s = (r, s1)) as ->; [|done]. revert G. unfold Scan. repeat mono_step.
    by apply scan_from_mono.
Qed.

(** The map's answers are those of walks that end. *)
Lemma map_serve_served q l : served (fst (map_serve q l)).
Proof.
  destruct q as [k|k v|k|lo hi]; simpl; try done.
  - unfold lookup_result. by destruct (om_get _ _).
  - by destruct (_ <? _).
Qed.

Lemma kv_run qs s n h l :
  tree_rep s (length qs * (h + length qs + 3) + n) h l -> Forall small_request qs ->
  exists c s' h', (forall fuel, (c <= fuel)%nat ->
    kv_serve_all fuel fuel qs s = (fst (map_serve_all qs l), s')) /\
    tree_rep s' n h' (snd (map_serve_all qs l)).
Proof.
  revert s h l. induction qs as [|q qs IH]; intros s h l Ht Hq.
  - exists 0%nat, s, h. by split.
  - apply Forall_cons in Hq as [Hq Hqs].
    destruct (kv_serve_refines q s (length qs * (S h + length qs + 3) + n) h l) as [c Hc]; [|done|].
    { eapply tree_rep_weaken; [|exact Ht]. cbn [length]. lia. }
    destruct (Hc (S h + c)%nat (S h + c)%nat) as (s1 & h1 & E1 & Ht1 & Hh1); [lia|lia|].
    destruct (IH s1 h1 (snd (map_serve q l))) as (c2 & s2 & h2 & E2 & Ht2); [|done|].
    { eapply tree_rep_weaken; [|exact Ht1]. nia. }
    exists (Nat.max (S h + c) c2), s2, h2. split.
    + intros fuel Hf. cbn [kv_serve_all map_serve_all].
      rewrite (kv_serve_mono (S h + c) fuel q s _ s1 ltac:(lia) (map_serve_served q l) E1), E2 by lia.
      destruct (map_serve q l) as [a l1]. cbn [fst snd]. by destruct (map_serve_all qs l1).
    + cbn [map_serve_all]. destruct (map_serve q l) as [a l1]. cbn [snd] in Ht2.
      by destruct (map_serve_all qs l1).
Qed.

(** a run of requests (values of at most [MaxValSize] bytes) on a store that
    holds the map [l] gives the answers of the ordered map, in order, errors
    included: enough fuel for the descents and the leaf walks exists, and the
    store then holds the map the requests lead to. *)
Theorem kv_run_refines qs s n h l :
  tree_rep s (length qs * (h + length qs + 3) + n) h l -> Forall small_request qs ->
  exists c s' h', (forall fuel, (c <= fuel)%nat ->
    kv_serve_all fuel fuel qs s = (fst (map_serve_all qs l), s')) /\
    tree_rep s' n h' (snd (map_serve_all qs l)).
Proof. apply kv_run. Qed.

(** ** Open *)

Lemma Open_fresh s n v :
  pg_rel (pg s) (S (S n)) v -> v_tx v = None -> pg_PageCount None (pg s) = (Ok FirstDataPageID, pg s) ->
  closed s = false -> isOpen s = false -> rootPageID s = rootSentinel ->
  exists s', Open None s = (Ok tt, s') /\ tree_rep s' n 0 [].
Proof.
  intros Hr Hv Hc Hcl Ho Hroot. unfold Open. rewrite bind_gets, Hcl, bind_gets, Ho.
  erewrite bind_ok; [|unfold call; rewrite Hc; reflexivity].
  destruct (pg_first_alloc _ _ _ Hr Hv Hc) as (p1 & E1 & Hr1).
  destruct (pg_begin_law _ _ _ Hr1 eq_refl) as (p2 & E2 & Hr2).
  destruct (pg_write_law p2 n _ MetaPageID (encodeMetaPage rootSentinel) Hr2) as (p3 & E3 & Hr3).
  { apply lookup_insert_is_Some'. by left. }
  { rewrite encodeMetaPage_image. apply zlen_meta_image. }
  destruct (pg_commit_law p3 n _ _ Hr3 eq_refl) as (p4 & E4 & Hr4). rewrite Z.eqb_refl.
  assert (with_pg (pg s) s = s) as -> by by destruct s.
  exists (mkStore p4 true false rootSentinel). unfold bind at 1.
  unfold AllocatePage, call at 1. unfold bind at 1. rewrite E1.
  change (negb (FirstDataPageID =? MetaPageID)) with false. cbv iota.
  unfold BeginTx, call at 1. unfold bind at 1. cbn [pg with_pg]. rewrite E2.
  unfold or_rollback, cleanup, WritePage, call at 1. unfold bind at 1. cbn [pg with_pg]. rewrite E3.
  unfold CommitTx, call at 1. cbn [pg with_pg]. rewrite E4. split.
  - unfold modify, with_flags, with_pg. cbn [pg closed rootPageID]. by rewrite Hcl, Hroot.
  - eexists _, rootSentinel. split; [split; [exact Hr4|done]|]. split.
    + cbn [v_pages]. rewrite lookup_insert_eq. by rewrite encodeMetaPage_image.
    + by rewrite decide_True.
Qed.

Lemma tree_root_u64 s n m r h l : running s n (mkView m None) r -> tree_pages m r h l -> u64 r.
Proof.
  intros Hr [_ Ht]. destruct (decide (r = rootSentinel)) as [->|_].
  - split; [done|]. unfold rootSentinel. lia.
  - destruct Ht as (first & ids & Hs & _).
    assert (exists b, m !! r = Some b) as [b Hb] by (inversion Hs; subst; eauto).
    pose proof (running_pages _ _ _ _ _ _ Hr Hb) as Hp. unfold u64, max_pages, FirstDataPageID in *. lia.
Qed.

Lemma Open_existing p n m r h l :
  pg_rel p n (mkView m None) -> tree_pages m r h l ->
  exists s', Open None (newBtreeStore p) = (Ok tt, s') /\ tree_rep s' n h l.
Proof.
  intros Hr Ht. pose proof Ht as [Hm _]. unfold Open. rewrite bind_gets. cbn [closed isOpen newBtreeStore].
  rewrite bind_gets. cbn [isOpen newBtreeStore].
  destruct (pg_count_law _ _ _ Hr) as (c & Ec & Hlt).
  erewrite bind_ok; [|unfold call; change (pg (newBtreeStore p)) with p; rewrite Ec; reflexivity].
  assert (MetaPageID < c) as Hc by (apply Hlt; cbn [v_pages]; eauto).
  rewrite (proj2 (Z.eqb_neq _ _)) by (unfold MetaPageID, FirstDataPageID in *; lia).
  destruct (pg_read_law _ _ _ MetaPageID _ Hr Hm) as (p1 & E1 & Hr1).
  assert (running (mkStore p1 true false r) n (mkView m None) r) as Hrun by (by split).
  exists (mkStore p1 true false r). split.
  - unfold ReadPage, call, bind at 1. unfold bind at 1. cbn [with_pg pg]. rewrite E1.
    rewrite decodeMetaPage_image by (by eapply tree_root_u64). done.
  - exists m, r. by split.
Qed.

(** Open of a store over an empty pager writes the meta page and shows the
    empty map; Open of a store over a pager that holds a tree shows its map. *)
Theorem kv_open (p : P) n v :
  (pg_rel p (S (S n)) v -> v_tx v = None -> pg_PageCount None p = (Ok FirstDataPageID, p) ->
   exists s', Open None (newBtreeStore p) = (Ok tt, s') /\ tree_rep s' n 0 []) /\
  (forall r h l, pg_rel p n v -> v_tx v = None -> tree_pages (v_pages v) r h l ->
   exists s', Open None (newBtreeStore p) = (Ok tt, s') /\ tree_rep s' n h l).
Proof.
  split.
  - intros Hr Hv Hc. by eapply Open_fresh.
  - intros r h l Hr Hv Ht. destruct v as [m tx]. cbn in Hv. subst tx. by eapply Open_existing.
Qed.
End spec.

(** * Durability *)

Section durable.
Context `{MapRange}.

Lemma tree_rep_crash (s : btreeStore (P := Pager.filePager)) n h l :
  tree_rep s n h l ->
  exists q s', Pager.Open None (Pager.restart (pg s)) = (Ok tt, q) /\
    Open None (newBtreeStore q) = (Ok tt, s') /\ tree_rep s' n h l.
Proof.
  intros (m & r & (Hr & _) & Ht).
  destruct (crash_recovers_committed _ _ _ Hr) as (q & Eq & Hq). exists q.
  destruct (@Open_existing _ _ filePager_spec q n m r h l Hq Ht) as (s' & E & Ht'). by exists s'.
Qed.

(** the key-value store is durable.  A store whose process dies between two
    requests is found again: opening the pager over the files it left, and the
    store over that pager, succeeds and shows the same map. *)
Theorem kv_crash_durable (s : btreeStore (P := Pager.filePager)) n h l :
  tree_rep s n h l ->
  exists q s', Pager.Open None (Pager.restart (pg s)) = (Ok tt, q) /\
    Open None (newBtreeStore q) = (Ok tt, s') /\ tree_rep s' n h l.
Proof. apply tree_rep_crash. Qed.

Lemma Open_empty_files n :
  4 + Z.of_nat n <= max_pages ->
  exists q s, Pager.Open None (Pager.newPager [] [] 0 []) = (Ok tt, q) /\
    Open None (newBtreeStore q) = (Ok tt, s) /\ tree_rep s n 0 [].
Proof.
  intros Hn. destruct (fresh_pager (S (S n))) as (q & E & Hq & Hc); [lia|].
  destruct (@Open_fresh _ _ filePager_spec (newBtreeStore q) n _ Hq eq_refl Hc eq_refl eq_refl eq_refl)
    as (s & Es & Hs). by exists q, s.
Qed.

(** C1: from nothing to a map on disk.  Over empty files the pager and the store
    open; any requests whose values are at most [MaxValSize] = 512 bytes long then get the
    answers of the ordered map that starts empty, while there is room for pages; and when
    the process dies after them, opening the files again shows the map the requests led to.
    Larger values, which the store keeps in overflow chains, are not covered and cannot be:
    [KvNode.reencode_loses_overflow] and [set_loses_large_value] show how they get lost. *)
Theorem kv_end_to_end qs n :
  4 + Z.of_nat (length qs * (length qs + 3) + n) <= max_pages -> Forall small_request qs ->
  exists q s c s1 q1 s2 h,
    Pager.Open None (Pager.newPager [] [] 0 []) = (Ok tt, q) /\ Open None (newBtreeStore q) = (Ok tt, s) /\
    (forall fuel, (c <= fuel)%nat -> kv_serve_all fuel fuel qs s = (fst (map_serve_all qs []), s1)) /\
    Pager.Open None (Pager.restart (pg s1)) = (Ok tt, q1) /\
    Open None (newBtreeStore q1) = (Ok tt, s2) /\ tree_rep s2 n h (snd (map_serve_all qs [])).
Proof.
  intros Hn Hq. destruct (Open_empty_files _ Hn) as (q & s & E & Es & Hs).
  destruct (kv_run qs s n 0 [] Hs Hq) as (c & s1 & h & Hrun & Hs1).
  destruct (tree_rep_crash s1 n h _ Hs1) as (q1 & s2 & E1 & E2 & Hs2).
  by exists q, s, c, s1, q1, s2, h.
Qed.
End durable.

(** * A value may be lost

    [prepareOverflow] drops the error of an allocation that fails and returns no
    value; [Set] then stores the empty value and reports success. *)

Section lost.
#[local] Existing Instance Pager.sorted_range.

Definition lossy_set : K (P := Pager.filePager) (list byte) :=
  call (Pager.Open None) ;;;
  Open None ;;;
  modify (fun s => with_pg (Pager.with_sched [Pager.IoFail 0] (pg s)) s) ;;;
  Set_ 2 None (EncodeBytes [x61]) (zrep 513 x62) ;;;
  Get 2 None (EncodeBytes [x61]).

Theorem set_loses_large_value :
  fst (lossy_set (newBtreeStore (Pager.newPager [] [] 0 []))) = Ok [].
Proof. vm_compute. reflexivity. Qed.
End lost.

