(* ===== verification/KvSpec.v ===== *)
(** What the key-value store promises to its clients, as an interface.

    [KvOps] are the operations of the Go interface [kv.KVStore] that the layers
    above call, and [KvLaws] their laws: the store is the ordered map [l], Scan
    returns its entries in range, Set and Delete update it.  [kv_rel s n l] says
    that the store [s] holds [l] and has room for [n] more updates.  [KvTree.v]
    proves the laws of the B+ tree; [Heap.v] is proved against this interface. *)

From Stdlib Require Import ZArith Lia.
From stdpp Require Import base.
From S2P Require Import Prelude OrdMap Key KvNode Monad.
Open Scope Z_scope.

Class KvOps (S E : Type) := {
  kv_Get : Key -> st S E (list byte);
  kv_Set : Key -> list byte -> st S E unit;
  kv_Delete : Key -> st S E unit;
  kv_Scan : Key -> Key -> st S E (list Entry);
  kv_too_large : E }.

(** An empty bound is no bound. *)
Definition scan_bound (k : list byte) : option (list byte) := if zlen k =? 0 then None else Some k.

(** An entry of the map as Scan hands it out. *)
Definition to_entry (e : list byte * list byte) : Entry := mkEntry (importKey (fst e)) (snd e).

Class KvLaws (S E : Type) `{KvOps S E} := {
  kv_rel : S -> nat -> list (list byte * list byte) -> Prop;

  kv_rel_weaken s n n' l : (n' <= n)%nat -> kv_rel s n l -> kv_rel s n' l;

  kv_rel_sorted s n l : kv_rel s n l -> om_sorted l;

  kv_get_law s n l k v :
    kv_rel s n l -> om_get (data k) l = Some v ->
    exists s', kv_Get k s = (Ok v, s') /\ kv_rel s' n l;

  kv_scan_law s n l a b :
    kv_rel s n l ->
    exists s', kv_Scan a b s
        = (Ok (map to_entry (om_range (scan_bound (data a)) (scan_bound (data b)) l)), s') /\
      kv_rel s' n l;

  kv_set_law s n l k v :
    kv_rel s (Datatypes.S n) l -> zlen (data k) <= MaxKeySize -> zlen v <= MaxValSize ->
    exists s', kv_Set k v s = (Ok tt, s') /\ kv_rel s' n (om_set (data k) v l);

  kv_set_large s n l k v :
    kv_rel s n l -> MaxKeySize < zlen (data k) -> kv_Set k v s = (Err kv_too_large, s);

  kv_delete_law s n l k :
    kv_rel s (Datatypes.S n) l ->
    exists s', kv_Delete k s = (Ok tt, s') /\ kv_rel s' n (om_del (data k) l) }.

(** ** The reference store: the ordered map itself *)

Definition refStore : Type := list (list byte * list byte).

Inductive ref_err : Type := RefNotFound | RefTooLarge.

#[export] Instance ref_kv_ops : KvOps refStore ref_err := {|
  kv_Get k := fun l => (match om_get (data k) l with Some v => Ok v | None => Err RefNotFound end, l);
  kv_Set k v := fun l =>
    if MaxKeySize <? zlen (data k) then (Err RefTooLarge, l) else (Ok tt, om_set (data k) v l);
  kv_Delete k := fun l => (Ok tt, om_del (data k) l);
  kv_Scan a b := fun l => (Ok (map to_entry (om_range (scan_bound (data a)) (scan_bound (data b)) l)), l);
  kv_too_large := RefTooLarge |}.

#[export, refine] Instance ref_kv_laws : KvLaws refStore ref_err := {|
  kv_rel := fun s _ l => s = l /\ om_sorted l |}.
Proof.
  - done.
  - by intros s n l [_ ?].
  - intros s n l k v [-> ?] Hg. exists l. cbn. by rewrite Hg.
  - intros s n l a b [-> ?]. by exists l.
  - intros s n l k v [-> ?] Hk _. exists (om_set (data k) v l). cbn.
    rewrite (proj2 (Z.ltb_ge _ _)) by done. split; [done|]. split; [done|]. by apply om_set_sorted.
  - intros s n l k v [-> ?] Hk. cbn. by rewrite (proj2 (Z.ltb_lt _ _)).
  - intros s n l k [-> ?]. exists (om_del (data k) l). split; [done|]. split; [done|]. by apply om_del_sorted.
Defined.
