(* ===== verification/KvTree.v ===== *)
(** The B+ tree implements the key-value interface of [KvSpec.v].

    The loops of the tree are given the fuel [walk_bound], one step for every page
    a pager can have: a walk without repeated pages ends within it. *)

From Stdlib Require Import ZArith Lia.
From stdpp Require Import gmap.
From S2P Require Import Prelude OrdMap Page PagerSpec Key KvNode Monad BTree BTreeRep BTreeStep BTreeProof BTreeSpec KvSpec.
Open Scope Z_scope.
Import BTree.
#[local] Opaque walk_bound.

Section tree.
Context {P : Type} `{PagerSpec P}.

#[export] Instance btree_kv_ops : KvOps (btreeStore (P := P)) btree_err := {|
  kv_Get := Get walk_bound None;
  kv_Set := Set_ walk_bound None;
  kv_Delete := Delete walk_bound None;
  kv_Scan := Scan walk_bound walk_bound None;
  kv_too_large := KvErr ErrKeyTooLarge |}.

(** Room for [n] updates of a tree of height [h]: each takes at most a page per
    level, two more and a transaction, and may add a level. *)
Definition update_room (h n : nat) : nat := n * (h + n + 3).

Lemma update_room_le h h' n n' : (h' <= h)%nat -> (n' <= n)%nat -> (update_room h' n' <= update_room h n)%nat.
Proof. unfold update_room. intros. apply Nat.mul_le_mono; lia. Qed.

Lemma update_room_step h n : (h + 3 + update_room (S h) n <= update_room h (S n))%nat.
Proof. unfold update_room. lia. Qed.

Definition btree_kv_rel (s : btreeStore) (n : nat) (l : list entry) : Prop :=
  exists h, (h < walk_bound)%nat /\ tree_rep s (update_room h n) h l.

Lemma btree_kv_rel_intro s n h l : tree_rep s (update_room h n) h l -> btree_kv_rel s n l.
Proof.
  intros Ht. destruct (tree_rep_height _ _ _ _ Ht) as (h' & Hle & Hw & Ht').
  exists h'. split; [done|]. eapply tree_rep_weaken; [|exact Ht']. apply update_room_le; lia.
Qed.

#[export, refine] Instance btree_kv_laws : KvLaws (btreeStore (P := P)) btree_err := {|
  kv_rel := btree_kv_rel |}.
Proof.
  - intros s n n' l Hle (h & Hw & Ht). exists h. split; [done|].
    eapply tree_rep_weaken; [|exact Ht]. apply update_room_le; lia.
  - intros s n l (h & _ & Ht). by eapply tree_rep_sorted.
  - intros s n l k v (h & Hw & Ht) Hg.
    destruct (tree_rep_get s _ h l k walk_bound Ht Hw) as (s' & E & Ht').
    exists s'. unfold lookup_result in E. rewrite Hg in E. split; [exact E|by exists h].
  - intros s n l a b (h & Hw & Ht).
    destruct (tree_rep_scan s _ h l a b Ht) as (c & Hc & Hs).
    destruct (Hs walk_bound walk_bound Hw Hc) as (s' & E & Ht').
    exists s'. split; [exact E|by exists h].
  - intros s n l k v (h & Hw & Ht) Hk Hv.
    destruct (tree_rep_set s (update_room (S h) n) h l k v walk_bound) as (s' & h' & E & Ht' & Hh'); [|done|done|].
    { eapply tree_rep_weaken; [|exact Ht]. apply update_room_step. }
    exists s'. split; [exact E|]. apply (btree_kv_rel_intro _ _ h').
    eapply tree_rep_weaken; [|exact Ht']. apply update_room_le; lia.
  - intros s n l k v _ Hk. cbn [kv_Set kv_too_large btree_kv_ops]. unfold Set_.
    by rewrite (proj2 (Z.ltb_lt _ _)).
  - intros s n l k (h & Hw & Ht).
    destruct (tree_rep_delete s (h + 2 + update_room (S h) n) h l k walk_bound) as (s' & E & Ht'); [|done|].
    { eapply tree_rep_weaken; [|exact Ht]. pose proof (update_room_step h n). lia. }
    exists s'. split; [exact E|]. apply (btree_kv_rel_intro _ _ h).
    eapply tree_rep_weaken; [|exact Ht']. transitivity (update_room (S h) n); [apply update_room_le; lia|lia].
Defined.
End tree.
