(* ===== verification/GoRuntime.v ===== *)
(** What the Go runtime leaves open, as an interface: the order in which [range]
    visits a map, and how [sort.Slice] places elements that compare equal.

    The components that use them are defined for every [GoRuntime]; the theorems
    assume only the documented behaviour, [GoRuntimeLaws]: a map is visited once per
    entry, and sorting permutes the slice and orders it by a strict weak order. *)

From Stdlib Require Import ZArith Lia Sorted Permutation.
From stdpp Require Import base list sorting.
From S2P Require Import Prelude.
Open Scope Z_scope.

Class GoRuntime := {
  map_order : forall A : Type, list A -> list A;
  sort_Slice : forall A : Type, (A -> A -> bool) -> list A -> list A }.

Arguments map_order {_ A} l.
Arguments sort_Slice {_ A} less l.

Record strict_weak {A} (less : A -> A -> bool) : Prop := {
  sw_irrefl x : less x x = false;
  sw_trans x y z : less x y = true -> less y z = true -> less x z = true;
  sw_cotrans x y z : less x z = true -> less x y = true \/ less y z = true }.

(** [x] may stand before [y]. *)
Definition not_after {A} (less : A -> A -> bool) (x y : A) : Prop := less y x = false.

Class GoRuntimeLaws `{GoRuntime} := {
  map_order_perm A (l : list A) : Permutation (map_order l) l;
  sort_Slice_perm A less (l : list A) : Permutation (sort_Slice less l) l;
  sort_Slice_sorted A less (l : list A) :
    strict_weak less -> StronglySorted (not_after less) (sort_Slice less l) }.

(** ** Consequences *)

Section laws.
Context `{GoRuntimeLaws}.

Lemma sort_Slice_In {A} less (l : list A) x : In x (sort_Slice less l) <-> In x l.
Proof. split; apply Permutation_in; [|symmetry]; apply sort_Slice_perm. Qed.

Lemma map_order_In {A} (l : list A) x : In x (map_order l) <-> In x l.
Proof. split; apply Permutation_in; [|symmetry]; apply map_order_perm. Qed.

(** Sorting determines the result when no two elements compare equal. *)
Lemma sort_Slice_unique {A} less (l m : list A) :
  strict_weak less -> Permutation l m -> StronglySorted (not_after less) m ->
  (forall x y, In x m -> In y m -> less x y = false -> less y x = false -> x = y) ->
  sort_Slice less l = m.
Proof.
  intros Hw Hp Hs Hd. assert (Permutation (sort_Slice less l) m) as Hp'.
  { etransitivity; [apply sort_Slice_perm|done]. }
  eapply StronglySorted_unique_strong; [|by apply sort_Slice_sorted|exact Hs|done].
  intros x y Hx Hy H1 H2. apply Hd; [|by apply list_elem_of_In| |]; [|done..].
  eapply Permutation_in; [exact Hp'|]. by apply list_elem_of_In.
Qed.
End laws.

(** Comparing by a number, greatest first. *)
Lemma strict_weak_gt {A} (f : A -> Z) : strict_weak (fun x y => f y <? f x).
Proof. split; intros *; rewrite ?Z.ltb_lt, ?Z.ltb_ge; lia. Qed.

(** Comparing by a byte string. *)
Lemma strict_weak_bytes {A} (f : A -> list byte) :
  strict_weak (fun x y => bool_decide (bytes_compare (f x) (f y) = Lt)).
Proof.
  split; intros *; rewrite ?bool_decide_eq_true, ?bool_decide_eq_false.
  - by rewrite bytes_compare_refl.
  - apply bytes_lt_trans.
  - intros Hxz. destruct (bytes_compare (f x) (f y)) eqn:E; [|by left|].
    + apply bytes_compare_eq in E. rewrite <- E. by right.
    + right. apply bytes_gt_lt in E. by eapply bytes_lt_trans.
Qed.

(** ** A runtime: insertion sort, and maps in their own order *)

Section insertion.
Context {A : Type} (less : A -> A -> bool).

Fixpoint sorted_insert (x : A) (l : list A) : list A :=
  match l with
  | [] => [x]
  | y :: l' => if less y x then y :: sorted_insert x l' else x :: l
  end.

Definition insertion_sort (l : list A) : list A := foldr sorted_insert [] l.

Lemma sorted_insert_perm x l : Permutation (sorted_insert x l) (x :: l).
Proof.
  induction l as [|y l IH]; cbn [sorted_insert]; [done|]. destruct (less y x); [|done].
  rewrite IH. apply perm_swap.
Qed.

Lemma insertion_sort_perm l : Permutation (insertion_sort l) l.
Proof. induction l as [|x l IH]; [done|]. cbn. rewrite sorted_insert_perm. by rewrite IH. Qed.

Lemma sorted_insert_sorted x l :
  strict_weak less -> StronglySorted (not_after less) l -> StronglySorted (not_after less) (sorted_insert x l).
Proof.
  intros Hw Hs. induction Hs as [|y l Hs IH Hy]; cbn [sorted_insert]; [repeat constructor|].
  destruct (less y x) eqn:E.
  - constructor; [done|]. rewrite Forall_forall in *. intros z Hz.
    apply list_elem_of_In in Hz. apply (Permutation_in z (sorted_insert_perm x l)) in Hz as [<-|Hz].
    + unfold not_after. destruct (less x y) eqn:E2; [|done].
      pose proof (sw_trans _ Hw x y x E2 E) as Hx. by rewrite (sw_irrefl _ Hw) in Hx.
    + by apply Hy, list_elem_of_In.
  - constructor; [by constructor|]. constructor; [done|]. rewrite Forall_forall in *. intros z Hz.
    unfold not_after. destruct (less z x) eqn:E2; [|done].
    destruct (sw_cotrans _ Hw z y x E2) as [E3|E3]; [|congruence].
    by rewrite <- E3, (Hy z Hz).
Qed.

Lemma insertion_sort_sorted l : strict_weak less -> StronglySorted (not_after less) (insertion_sort l).
Proof. intros Hw. induction l; cbn; [constructor|]. by apply sorted_insert_sorted. Qed.
End insertion.

Definition simple_runtime : GoRuntime := {| map_order A l := l; sort_Slice A := insertion_sort |}.

Lemma simple_runtime_laws : @GoRuntimeLaws simple_runtime.
Proof.
  split; cbn; intros; [done|apply insertion_sort_perm|by apply insertion_sort_sorted].
Qed.
