(* ===== verification/HeapValue.v ===== *)
(** [internal/engine/sql/heap]: schemas, primary keys and the value of a row version
    ([heap.go], [encode.go]).

    A row is stored as [flags, null bitmask, storage composite of the non-null
    columns] under the row key of its primary key and version.  The theorem at the end:
    what is encoded decodes to the same row. *)

From Stdlib Require Import ZArith Lia.
From stdpp Require Import base list.
From S2P Require Import Prelude Key RowKey.
Open Scope Z_scope.

Definition FlagNormal : byte := x00.
Definition FlagTombstone : byte := x01.

Record Column := mkColumn { Name : list byte; col_Kind : Kind }.
Record Schema := mkSchema { TableID : Z; Columns : list Column; PKIndices : list Z }.

Inductive heap_err : Type :=
| ErrInvalidSchema | ErrColumnCountMismatch | ErrTypeMismatch | ErrNullNotSupported
| ErrDuplicateKey | ErrRowNotFound | ErrTxConflict | ErrInvalidTx | ErrPrimaryKeyUpdate
| ErrHeapKey (e : key_err)
| ErrValueTooShort | ErrRowFlags (b : byte) | ErrBitmaskTruncated | ErrDecodeMismatch.

(** * OpenTable *)

Fixpoint has_duplicate (seen : list (list byte)) (names : list (list byte)) : bool :=
  match names with
  | [] => false
  | n :: names' => bool_decide (n ∈ seen) || has_duplicate (n :: seen) names'
  end.

Definition known_kind (k : Kind) : bool := match k with KindOther _ => false | _ => true end.

Definition OpenTable (schema : Schema) : res heap_err Schema :=
  if zlen (Columns schema) =? 0 then Err ErrInvalidSchema
  else if zlen (PKIndices schema) =? 0 then Err ErrInvalidSchema
  else if existsb (fun idx => (idx <? 0) || (zlen (Columns schema) <=? idx)) (PKIndices schema)
    then Err ErrInvalidSchema
  else if has_duplicate [] (map Name (Columns schema)) then Err ErrInvalidSchema
  else if negb (forallb (fun c => known_kind (col_Kind c)) (Columns schema)) then Err ErrInvalidSchema
  else Ok schema.

(** * Values *)

Definition no_column : Column := mkColumn [] (KindOther 0).

(** [schema.Columns[idx]] and [values[idx]], for the indices [OpenTable] lets through. *)
Definition column (schema : Schema) (idx : Z) : Column := nth (Z.to_nat idx) (Columns schema) no_column.
Definition value_at (values : list GoAny) (idx : Z) : GoAny := nth (Z.to_nat idx) values ANil.

Definition pkKinds (schema : Schema) : list Kind :=
  map (fun idx => col_Kind (column schema idx)) (PKIndices schema).

Definition anyToPrimitive (k : Kind) (v : GoAny) : res heap_err GoAny :=
  match v with
  | ANil => Ok ANil
  | _ =>
      match k, v with
      | KindUint64, AUint64 _ | KindInt64, AInt64 _ | KindString, AString _ | KindBytes, ABytes _ => Ok v
      | _, _ => Err ErrTypeMismatch
      end
  end.

Definition anyToKeyValue (k : Kind) (v : GoAny) : res heap_err Value :=
  match v with
  | ANil => Err ErrNullNotSupported
  | _ =>
      match k, v with
      | KindUint64, AUint64 x => Ok (Uint64 x)
      | KindInt64, AInt64 x => Ok (Int64 x)
      | KindString, AString x => Ok (String x)
      | KindBytes, ABytes x => Ok (Bytes x)
      | _, _ => Err ErrTypeMismatch
      end
  end.

(** The loop that turns primary-key values into column values. *)
Fixpoint key_values (kinds : list Kind) (values : list GoAny) : res heap_err (list Value) :=
  match kinds, values with
  | k :: kinds', v :: values' =>
      x ← anyToKeyValue k v; xs ← key_values kinds' values'; Ok (x :: xs)
  | _, _ => Ok []
  end.

Definition of_key {A} (r : res key_err A) : res heap_err A :=
  match r with Ok a => Ok a | Err e => Err (ErrHeapKey e) end.

Definition encodeRowKeyFromPK (schema : Schema) (pkValues : list GoAny) (version : Z)
  : res heap_err Key :=
  if negb (zlen pkValues =? zlen (PKIndices schema)) then Err ErrColumnCountMismatch
  else
    kvs ← key_values (pkKinds schema) pkValues;
    raw ← of_key (EncodeTableRowKey (TableID schema) kvs version);
    Ok (FromBytes raw).

(** The end of a prefix as a scan bound; [nil] is no bound. *)
Definition end_key (prefix : list byte) : Key :=
  FromBytes (match PrefixEnd prefix with Some e => e | None => [] end).

Definition encodeRowVersionPrefix (schema : Schema) (pkValues : list GoAny)
  : res heap_err (Key * Key) :=
  if negb (zlen pkValues =? zlen (PKIndices schema)) then Err ErrColumnCountMismatch
  else
    kvs ← key_values (pkKinds schema) pkValues;
    prefix ← of_key (EncodeTableRowPrefix (TableID schema) kvs);
    Ok (FromBytes prefix, end_key prefix).

(** ** The value of a row version *)

Definition bitmask_len (schema : Schema) : Z := (zlen (Columns schema) + 7) / 8.

(** [1 << (i % 8)], and the two uses of it. *)
Definition null_bit (i : Z) : Z := Z.shiftl 1 (i mod 8).
Definition set_null (bitmask : list byte) (i : Z) : list byte :=
  <[Z.to_nat (i / 8) := z2b (Z.lor (b2z (nth (Z.to_nat (i / 8)) bitmask x00)) (null_bit i))]> bitmask.
Definition is_null (bitmask : list byte) (i : Z) : bool :=
  negb (Z.land (b2z (nth (Z.to_nat (i / 8)) bitmask x00)) (null_bit i) =? 0).

Fixpoint encode_columns (cols : list Column) (values : list GoAny) (i : Z) (bitmask : list byte)
  (prims : list GoAny) : res heap_err (list byte * list GoAny) :=
  match cols, values with
  | c :: cols', v :: values' =>
      if decide (v = ANil) then encode_columns cols' values' (i + 1) (set_null bitmask i) prims
      else
        p ← anyToPrimitive (col_Kind c) v;
        encode_columns cols' values' (i + 1) bitmask (prims ++ [p])
  | _, _ => Ok (bitmask, prims)
  end.

(** [values] is a slice: [None] is [nil]. *)
Definition encodeEnterpriseValue (schema : Schema) (values : option (list GoAny)) (flags : byte)
  : res heap_err (list byte) :=
  let values :=
    match values with
    | Some vs => vs
    | None => if bool_decide (flags = FlagTombstone) then zrep (zlen (Columns schema)) ANil else []
    end in
  if negb (zlen values =? zlen (Columns schema)) then Err ErrColumnCountMismatch
  else
    '(bitmask, prims) ←
      encode_columns (Columns schema) values 0 (zrep (bitmask_len schema) x00) [];
    composite ←
      (if 0 <? zlen prims then k ← of_key (EncodeStorageComposite prims); Ok (data k) else Ok []);
    Ok ([flags] ++ bitmask ++ composite).

Fixpoint non_null_kinds (cols : list Column) (i : Z) (bitmask : list byte) : list Kind :=
  match cols with
  | [] => []
  | c :: cols' =>
      if is_null bitmask i then non_null_kinds cols' (i + 1) bitmask
      else col_Kind c :: non_null_kinds cols' (i + 1) bitmask
  end.

Fixpoint place_values (cols : list Column) (i : Z) (bitmask : list byte) (vals : list GoAny)
  : res heap_err (list GoAny) :=
  match cols with
  | [] => Ok []
  | _ :: cols' =>
      if is_null bitmask i then r ← place_values cols' (i + 1) bitmask vals; Ok (ANil :: r)
      else
        match vals with
        | [] => Err ErrDecodeMismatch
        | v :: vals' => r ← place_values cols' (i + 1) bitmask vals'; Ok (v :: r)
        end
  end.

(** The row, and whether it is a tombstone (which has no row). *)
Definition decodeEnterpriseValue (schema : Schema) (d : list byte)
  : res heap_err (list GoAny * bool) :=
  match d with
  | [] => Err ErrValueTooShort
  | flags :: _ =>
      if negb (bool_decide (flags = FlagNormal) || bool_decide (flags = FlagTombstone))
      then Err (ErrRowFlags flags)
      else
        let bitmaskLen := bitmask_len schema in
        if zlen d <? 1 + bitmaskLen then Err ErrBitmaskTruncated
        else
          let bitmask := slice d 1 (1 + bitmaskLen) in
          if bool_decide (flags = FlagTombstone) then Ok ([], true)
          else
            let payload := zdrop (1 + bitmaskLen) d in
            let kinds := non_null_kinds (Columns schema) 0 bitmask in
            vals ←
              (if (0 <? zlen payload) && (0 <? zlen kinds) then
                 k ← of_key (ParseStorageCompositeKey payload kinds);
                 of_key (DecodeStorageComposite k)
               else Ok []);
            row ← place_values (Columns schema) 0 bitmask vals;
            Ok (row, false)
  end.

Definition valueEqual (a b : GoAny) : bool :=
  match a, b with
  | AUint64 x, AUint64 y | AInt64 x, AInt64 y => x =? y
  | AString x, AString y | ABytes x, ABytes y => bool_decide (x = y)
  | _, _ => false
  end.

Fixpoint pk_matches (indices : list Z) (pkValues newValues : list GoAny) : bool :=
  match indices with
  | [] => true
  | idx :: indices' =>
      if zlen newValues <=? idx then false
      else if negb (valueEqual (hd ANil pkValues) (value_at newValues idx)) then false
      else pk_matches indices' (tl pkValues) newValues
  end.

Definition comparePK (schema : Schema) (pkValues newValues : list GoAny) : bool :=
  pk_matches (PKIndices schema) pkValues newValues.

(** * Round trip *)

(** [1 << m] picks bit [m]. *)
Lemma land_bit x m : 0 <= m -> negb (Z.land x (Z.shiftl 1 m) =? 0) = Z.testbit x m.
Proof.
  intros Hm. rewrite Z.shiftl_1_l. destruct (Z.testbit x m) eqn:E.
  - apply negb_true_iff, Z.eqb_neq. intros H0.
    assert (Z.testbit (Z.land x (2 ^ m)) m = false) as Hb by (by rewrite H0, Z.bits_0).
    by rewrite Z.land_spec, E, Z.pow2_bits_true in Hb.
  - apply negb_false_iff, Z.eqb_eq, Z.bits_inj'. intros n Hn.
    rewrite Z.land_spec, Z.bits_0, Z.pow2_bits_eqb by done.
    destruct (Z.eqb_spec m n) as [->|]; [by rewrite E|apply andb_false_r].
Qed.

Lemma lor_byte x y : 0 <= x < 2 ^ 8 -> 0 <= y < 2 ^ 8 -> 0 <= Z.lor x y < 2 ^ 8.
Proof.
  intros Hx Hy. assert (0 <= Z.lor x y) by (apply Z.lor_nonneg; lia). split; [done|].
  destruct (Z.eq_dec (Z.lor x y) 0) as [E|]; [lia|]. apply Z.log2_lt_pow2; [lia|].
  rewrite Z.log2_lor by lia. apply Z.max_lub_lt.
  - destruct (Z.eq_dec x 0) as [->|]; [simpl; lia|apply Z.log2_lt_pow2; lia].
  - destruct (Z.eq_dec y 0) as [->|]; [simpl; lia|apply Z.log2_lt_pow2; lia].
Qed.

Lemma zlen_set_null bm i : zlen (set_null bm i) = zlen bm.
Proof. unfold set_null, zlen. by rewrite length_insert. Qed.

Lemma nth_insert (bm : list byte) n m x :
  (n < length bm)%nat -> nth m (<[n := x]> bm) x00 = if decide (n = m) then x else nth m bm x00.
Proof.
  intros Hn. rewrite !nth_lookup. destruct (decide (n = m)) as [->|Hne].
  - by rewrite list_lookup_insert_eq.
  - by rewrite list_lookup_insert_ne.
Qed.

Lemma is_null_set bm i j :
  0 <= i -> 0 <= j -> i / 8 < zlen bm -> is_null (set_null bm i) j = is_null bm j || (i =? j).
Proof.
  intros Hi Hj Hl. unfold is_null, set_null, null_bit.
  pose proof (Z.mod_pos_bound i 8 ltac:(lia)). pose proof (Z.mod_pos_bound j 8 ltac:(lia)).
  pose proof (Z.div_mod i 8 ltac:(lia)). pose proof (Z.div_mod j 8 ltac:(lia)).
  pose proof (Z.div_pos i 8 ltac:(lia) ltac:(lia)). pose proof (Z.div_pos j 8 ltac:(lia) ltac:(lia)).
  rewrite nth_insert by (unfold zlen in Hl; lia).
  rewrite !land_bit by lia. destruct (decide (Z.to_nat (i / 8) = Z.to_nat (j / 8))) as [Ed|Ed].
  - rewrite b2z_z2b, Z.mod_small.
    + rewrite Z.lor_spec, Ed, Z.shiftl_1_l, Z.pow2_bits_eqb by lia. f_equal.
      destruct (Z.eqb_spec i j) as [->|]; [apply Z.eqb_refl|]. apply Z.eqb_neq. lia.
    + apply lor_byte; [apply b2z_range|]. rewrite Z.shiftl_1_l.
      split; [apply Z.pow_nonneg; lia|apply Z.pow_lt_mono_r; lia].
  - rewrite (proj2 (Z.eqb_neq i j)); [by rewrite orb_false_r|]. intros ->. done.
Qed.

(** The columns that carry data. *)
Definition non_null (values : list GoAny) : list GoAny := List.filter (fun v => negb (bool_decide (v = ANil))) values.

(** [v] may be stored in a column of kind [k]. *)
Definition cell_ok (k : Kind) (v : GoAny) : Prop := v = ANil \/ (any_kind v = k /\ storable v).

Definition row_ok (schema : Schema) (row : list GoAny) : Prop :=
  Forall2 (fun c v => cell_ok (col_Kind c) v) (Columns schema) row.

(** [bm] marks the null columns of [values], counted from [i]. *)
Definition marks (bm : list byte) (i : Z) (values : list GoAny) : Prop :=
  forall j v, values !! j = Some v -> is_null bm (i + Z.of_nat j) = bool_decide (v = ANil).

Lemma marks_tail bm i v values : marks bm i (v :: values) -> marks bm (i + 1) values.
Proof. intros Hm j w Hj. rewrite <- (Hm (S j) w Hj). f_equal. lia. Qed.

Lemma anyToPrimitive_ok k v : v <> ANil -> cell_ok k v -> anyToPrimitive k v = Ok v.
Proof. intros Hn [->|[<- Hs]]; [done|]. by destruct v. Qed.

Lemma encode_columns_spec cols values i bm prims :
  Forall2 (fun c v => cell_ok (col_Kind c) v) cols values ->
  0 <= i -> (i + zlen cols + 7) / 8 <= zlen bm -> (forall j, i <= j -> is_null bm j = false) ->
  exists bm', encode_columns cols values i bm prims = Ok (bm', prims ++ non_null values) /\
    zlen bm' = zlen bm /\ marks bm' i values /\ (forall j, 0 <= j < i -> is_null bm' j = is_null bm j).
Proof.
  intros Hf. revert i bm prims. induction Hf as [|c v cols values Hc Hf IH]; intros i bm prims Hi Hl Hz.
  { exists bm. cbn. rewrite app_nil_r. split; [done|]. split; [done|]. split; [|done]. intros j w Hj. by destruct j. }
  rewrite zlen_cons in Hl. pose proof (zlen_nonneg cols).
  assert (i / 8 < zlen bm) as Hi8.
  { assert (i / 8 + 1 <= (i + (1 + zlen cols) + 7) / 8); [|lia].
    rewrite <- (Z.div_add i 1 8) by lia. apply Z.div_le_mono; lia. }
  cbn [encode_columns]. unfold non_null. cbn [List.filter]. destruct (decide (v = ANil)) as [->|Hn].
  - destruct (IH (i + 1) (set_null bm i) prims) as (bm' & E & Hl' & Hm & Hlow); [lia| | |].
    { rewrite zlen_set_null. by replace (i + 1 + zlen cols) with (i + (1 + zlen cols)) by lia. }
    { intros j Hj. rewrite is_null_set, Hz by lia. by apply Z.eqb_neq; lia. }
    exists bm'. rewrite E, bool_decide_eq_true_2 by done. split; [done|].
    rewrite Hl', zlen_set_null. split; [done|].
    assert (forall j, 0 <= j < i + 1 -> is_null bm' j = is_null bm j || (i =? j)) as Hlow'.
    { intros j Hj. rewrite Hlow by lia. apply is_null_set; lia. }
    split.
    + intros [|j] w Hj; [|cbn in Hj; rewrite <- (Hm j w Hj); f_equal; lia].
      injection Hj as <-. rewrite Hlow', Z.add_0_r, Z.eqb_refl, orb_true_r by lia. done.
    + intros j Hj. rewrite Hlow' by lia. rewrite (proj2 (Z.eqb_neq i j)) by lia. apply orb_false_r.
  - rewrite anyToPrimitive_ok by done. rewrite res_bind_ok.
    destruct (IH (i + 1) bm (prims ++ [v])) as (bm' & E & Hl' & Hm & Hlow); [lia| | |].
    { by replace (i + 1 + zlen cols) with (i + (1 + zlen cols)) by lia. }
    { intros j Hj. apply Hz. lia. }
    exists bm'. rewrite E, bool_decide_eq_false_2, <- app_assoc by done. split; [done|]. split; [done|]. split.
    + intros [|j] w Hj; [|cbn in Hj; rewrite <- (Hm j w Hj); f_equal; lia].
      injection Hj as <-. rewrite Z.add_0_r, Hlow, Hz, bool_decide_eq_false_2 by (done || lia). done.
    + intros j Hj. apply Hlow. lia.
Qed.

Lemma non_null_kinds_spec cols values i bm :
  Forall2 (fun c v => cell_ok (col_Kind c) v) cols values -> marks bm i values ->
  non_null_kinds cols i bm = map any_kind (non_null values).
Proof.
  intros Hf. revert i. induction Hf as [|c v cols values Hc Hf IH]; intros i Hm; [done|].
  cbn [non_null_kinds]. unfold non_null. cbn [List.filter].
  assert (is_null bm i = bool_decide (v = ANil)) as -> by (rewrite <- (Hm 0%nat v eq_refl); f_equal; lia).
  rewrite IH by by eapply marks_tail. destruct (decide (v = ANil)) as [Hn|Hn].
  - by rewrite bool_decide_eq_true_2.
  - rewrite bool_decide_eq_false_2 by done. destruct Hc as [|[<- _]]; [done|]. done.
Qed.

Lemma place_values_spec cols values i bm :
  Forall2 (fun c v => cell_ok (col_Kind c) v) cols values -> marks bm i values ->
  place_values cols i bm (non_null values) = Ok values.
Proof.
  intros Hf. revert i. induction Hf as [|c v cols values Hc Hf IH]; intros i Hm; [done|].
  cbn [place_values]. unfold non_null. cbn [List.filter].
  assert (is_null bm i = bool_decide (v = ANil)) as -> by (rewrite <- (Hm 0%nat v eq_refl); f_equal; lia).
  specialize (IH (i + 1) ltac:(by eapply marks_tail)). unfold non_null in IH.
  destruct (decide (v = ANil)) as [->|Hn].
  - rewrite !bool_decide_eq_true_2 by done. cbn [negb]. by rewrite IH.
  - rewrite !bool_decide_eq_false_2 by done. cbn [negb]. by rewrite IH.
Qed.

Lemma row_ok_storable cols values :
  Forall2 (fun c v => cell_ok (col_Kind c) v) cols values -> Forall storable (non_null values).
Proof.
  induction 1 as [|c v cols values Hc Hf IH]; [constructor|]. unfold non_null. cbn [List.filter].
  destruct (decide (v = ANil)); [by rewrite bool_decide_eq_true_2|].
  rewrite bool_decide_eq_false_2 by done. constructor; [by destruct Hc as [|[]]|done].
Qed.

#[local] Transparent zrep.
Lemma zeros_not_null n i : is_null (zrep n x00) i = false.
Proof.
  unfold is_null. replace (nth (Z.to_nat (i / 8)) (zrep n x00) x00) with x00; [done|].
  unfold zrep. rewrite nth_lookup. destruct (replicate _ _ !! _) eqn:E; [|done].
  by apply lookup_replicate in E as [-> _].
Qed.
#[local] Opaque zrep.

Lemma bitmask_len_nonneg schema : 0 <= bitmask_len schema.
Proof. apply Z.div_pos; [|lia]. pose proof (zlen_nonneg (Columns schema)). lia. Qed.

(** What a row is encoded to. *)
Lemma encode_row schema row :
  row_ok schema row ->
  exists bm, encodeEnterpriseValue schema (Some row) FlagNormal
      = Ok ([FlagNormal] ++ bm ++ concat (map framed (non_null row))) /\
    zlen bm = bitmask_len schema /\ marks bm 0 row.
Proof.
  intros Hr. pose proof (Forall2_length _ _ _ Hr) as Hl. pose proof (bitmask_len_nonneg schema).
  destruct (encode_columns_spec (Columns schema) row 0 (zrep (bitmask_len schema) x00) [] Hr)
    as (bm & E & Hbm & Hm & _); [done|by rewrite zlen_rep|intros; apply zeros_not_null|].
  exists bm. rewrite zlen_rep in Hbm by done. split; [|done]. unfold encodeEnterpriseValue.
  rewrite (proj2 (Z.eqb_eq (zlen row) _)) by (unfold zlen; lia). cbn [negb]. rewrite E, res_bind_ok. cbn [app].
  destruct (Z.ltb_spec 0 (zlen (non_null row))) as [Hpos|Hpos].
  - destruct (storage_composite_decodes (non_null row)) as (k & Ek & _ & _).
    { intros E0. by rewrite E0 in Hpos. }
    { by eapply row_ok_storable. }
    unfold EncodeStorageComposite in *. rewrite storage_fields_spec in * by by eapply row_ok_storable.
    done.
  - destruct (non_null row) as [|v l]; [done|]. exfalso. pose proof (zlen_nonneg l). rewrite zlen_cons in Hpos. lia.
Qed.

Lemma decode_normal schema bm payload :
  zlen bm = bitmask_len schema ->
  decodeEnterpriseValue schema ([FlagNormal] ++ bm ++ payload) =
    (vals ←
       (if (0 <? zlen payload) && (0 <? zlen (non_null_kinds (Columns schema) 0 bm)) then
          k ← of_key (ParseStorageCompositeKey payload (non_null_kinds (Columns schema) 0 bm));
          of_key (DecodeStorageComposite k)
        else Ok []);
     row ← place_values (Columns schema) 0 bm vals;
     Ok (row, false)).
Proof.
  intros Hbm. unfold decodeEnterpriseValue. cbn [app].
  change (bool_decide (FlagNormal = FlagNormal)) with true. cbn [orb negb].
  change (bool_decide (FlagNormal = FlagTombstone)) with false. cbv iota zeta.
  change (FlagNormal :: bm ++ payload) with ([FlagNormal] ++ bm ++ payload).
  assert (slice ([FlagNormal] ++ bm ++ payload) 1 (1 + bitmask_len schema) = bm) as ->.
  { rewrite <- Hbm. apply (slice_mid [FlagNormal]). }
  assert (zdrop (1 + bitmask_len schema) ([FlagNormal] ++ bm ++ payload) = payload) as ->.
  { rewrite app_assoc. apply zdrop_app_eq. rewrite zlen_app, Hbm. done. }
  pose proof (zlen_nonneg payload). rewrite (proj2 (Z.ltb_ge _ _)); [done|].
  rewrite !zlen_app, Hbm. change (zlen [FlagNormal]) with 1. lia.
Qed.

Lemma decode_row schema row d :
  row_ok schema row -> encodeEnterpriseValue schema (Some row) FlagNormal = Ok d ->
  decodeEnterpriseValue schema d = Ok (row, false).
Proof.
  intros Hr. destruct (encode_row schema row Hr) as (bm & -> & Hbm & Hm). intros [= <-].
  change (FlagNormal :: bm ++ ?l) with ([FlagNormal] ++ bm ++ l).
  rewrite (decode_normal schema bm) by done.
  rewrite (non_null_kinds_spec _ row) by done.
  assert (Forall storable (non_null row)) as Hs by by eapply row_ok_storable.
  destruct (non_null row) as [|v l] eqn:En.
  - cbn [map concat]. change (0 <? zlen (@nil byte)) with false. cbn [andb]. rewrite res_bind_ok.
    rewrite <- En, place_values_spec by done. done.
  - rewrite <- En in *.
    assert (0 <? zlen (concat (map framed (non_null row))) = true) as ->.
    { apply Z.ltb_lt. rewrite En. cbn [map concat]. rewrite zlen_app, zlen_framed.
      pose proof (zlen_nonneg (payload v)). pose proof (zlen_nonneg (concat (map framed l))). lia. }
    assert (0 <? zlen (map any_kind (non_null row)) = true) as ->.
    { apply Z.ltb_lt. rewrite En. cbn [map]. rewrite zlen_cons. pose proof (zlen_nonneg (map any_kind l)). lia. }
    destruct (storage_composite_decodes (non_null row)) as (k & Ek & Hp & Hd); [by rewrite En|done|].
    unfold EncodeStorageComposite in Ek. rewrite storage_fields_spec in Ek by done.
    injection Ek as <-. cbn [data app] in Hp. cbn [andb]. rewrite Hp.
    cbn [of_key]. rewrite !res_bind_ok, Hd. cbn [of_key]. rewrite res_bind_ok, place_values_spec by done. done.
Qed.

Lemma encode_columns_nulls cols n i bm :
  (length cols <= n)%nat ->
  exists bm', encode_columns cols (replicate n ANil) i bm [] = Ok (bm', []) /\ zlen bm' = zlen bm.
Proof.
  revert n i bm. induction cols as [|c cols IH]; intros n i bm Hn; [by exists bm|].
  destruct n as [|n]; [simpl in Hn; lia|]. cbn [replicate encode_columns]. rewrite decide_True by done.
  destruct (IH n (i + 1) (set_null bm i)) as (bm' & E & Hl); [simpl in Hn; lia|].
  exists bm'. by rewrite E, Hl, zlen_set_null.
Qed.

#[local] Transparent zrep.
(** A tombstone has no row. *)
Lemma tombstone_roundtrip schema :
  exists d, encodeEnterpriseValue schema None FlagTombstone = Ok d /\
    decodeEnterpriseValue schema d = Ok ([], true) /\ zlen d = 1 + bitmask_len schema.
Proof.
  pose proof (zlen_nonneg (Columns schema)). pose proof (bitmask_len_nonneg schema).
  unfold encodeEnterpriseValue. rewrite bool_decide_eq_true_2 by done.
  rewrite zlen_rep, Z.eqb_refl by done. cbn [negb]. unfold zrep at 1.
  destruct (encode_columns_nulls (Columns schema) (Z.to_nat (zlen (Columns schema))) 0
    (zrep (bitmask_len schema) x00)) as (bm & -> & Hl); [unfold zlen; lia|].
  rewrite zlen_rep in Hl by done. rewrite res_bind_ok. change (0 <? zlen (@nil GoAny)) with false. cbv iota.
  rewrite res_bind_ok, app_nil_r. eexists. split; [done|]. split; [|by rewrite zlen_app, Hl].
  unfold decodeEnterpriseValue. cbn [app]. change (bool_decide (FlagTombstone = FlagNormal)) with false.
  change (bool_decide (FlagTombstone = FlagTombstone)) with true. cbn [orb negb].
  rewrite (proj2 (Z.ltb_ge _ _)); [done|]. rewrite zlen_cons. lia.
Qed.
#[local] Opaque zrep.

(** A value as Go can hold it: integers in range, lengths below 2^32. *)
Definition go_value (a : GoAny) : Prop :=
  match a with
  | AUint64 v => u64 v
  | AInt64 v => i64 v
  | AString v | ABytes v => zlen v < 2 ^ 32
  | _ => True
  end.

Lemma storage_fields_storable l st k :
  Forall go_value l -> storage_fields st l = Ok k -> Forall storable l.
Proof.
  intros Hg. revert st. induction Hg as [|a l Ha Hg IH]; intros st; [constructor|]. cbn [storage_fields].
  destruct (storage_field st a) as [st'|] eqn:E; [|done]. rewrite res_bind_ok. intros Hk.
  constructor; [|by eapply IH]. destruct st as [d fs]. destruct a; cbn in *; try done.
  by destruct (contains_nul v) eqn:En.
Qed.

Lemma encode_columns_inv cols values i bm prims bm' prims' :
  length cols = length values -> encode_columns cols values i bm prims = Ok (bm', prims') ->
  prims' = prims ++ non_null values /\
  Forall2 (fun c v => v = ANil \/ any_kind v = col_Kind c) cols values.
Proof.
  revert values i bm prims. induction cols as [|c cols IH]; intros [|v values] i bm prims Hl; try done.
  { intros [= _ <-]. split; [symmetry; apply app_nil_r|constructor]. }
  cbn [encode_columns]. injection Hl as Hl. unfold non_null. cbn [List.filter]. destruct (decide (v = ANil)) as [->|Hn].
  - rewrite bool_decide_eq_true_2 by done. intros E. apply IH in E as [-> Hf]; [|done].
    split; [done|]. constructor; [by left|done].
  - rewrite bool_decide_eq_false_2 by done. destruct (anyToPrimitive (col_Kind c) v) as [p|] eqn:Ep; [|done].
    rewrite res_bind_ok. intros E. apply IH in E as [-> Hf]; [|done].
    assert (p = v /\ any_kind v = col_Kind c) as [-> Hk].
    { destruct v; try done; destruct (col_Kind c); try done; by injection Ep as <-. }
    rewrite <- app_assoc. split; [done|]. constructor; [by right|done].
Qed.

(** What can be encoded reads back. *)
Lemma encode_row_ok schema row d :
  Forall go_value row -> encodeEnterpriseValue schema (Some row) FlagNormal = Ok d -> row_ok schema row.
Proof.
  intros Hg. unfold encodeEnterpriseValue.
  destruct (Z.eqb_spec (zlen row) (zlen (Columns schema))) as [El|]; [|done]. cbn [negb].
  destruct (encode_columns _ _ _ _ _) as [[bm prims]|] eqn:E; [|done]. rewrite res_bind_ok.
  apply encode_columns_inv in E as [-> Hf]; [|unfold zlen in El; lia]. cbn [app]. intros Hd.
  assert (Forall storable (non_null row)) as Hs.
  { destruct (Z.ltb_spec 0 (zlen (non_null row))).
    - unfold EncodeStorageComposite in Hd. destruct (storage_fields ([], []) (non_null row)) as [k|] eqn:Ek; [|done].
      eapply storage_fields_storable; [|exact Ek]. unfold non_null. rewrite Forall_forall in *.
      intros v Hv%list_elem_of_In. apply filter_In in Hv as [Hv _]. by apply Hg, list_elem_of_In.
    - destruct (non_null row) as [|v l]; [constructor|]. exfalso. pose proof (zlen_nonneg l). rewrite zlen_cons in *. lia. }
  clear Hd El Hg. unfold row_ok. induction Hf as [|c v cols values Hc Hf IH]; [constructor|].
  unfold non_null in Hs. cbn [List.filter] in Hs. destruct (decide (v = ANil)) as [Hn|Hn].
  - rewrite bool_decide_eq_true_2 in Hs by done. constructor; [by left|by apply IH].
  - rewrite bool_decide_eq_false_2 in Hs by done. inversion Hs; subst.
    constructor; [right; by destruct Hc|by apply IH].
Qed.

(** The first byte tells tombstones from rows. *)
Lemma decode_flags schema d :
  is_ok (decodeEnterpriseValue schema d) = true ->
  (head d = Some FlagTombstone /\ decodeEnterpriseValue schema d = Ok ([], true)) \/
  (head d <> Some FlagTombstone /\ exists vals, decodeEnterpriseValue schema d = Ok (vals, false)).
Proof.
  unfold decodeEnterpriseValue. destruct d as [|x d]; [done|].
  destruct (negb _); [done|]. cbn zeta. destruct (_ <? _); [done|].
  destruct (decide (x = FlagTombstone)) as [->|Hne].
  - rewrite bool_decide_eq_true_2 by done. by left.
  - rewrite bool_decide_eq_false_2 by done. intros Hok. right. split; [by intros [= ->]|].
    destruct (if _ && _ then _ else _) as [vs|]; [|done]. cbn in Hok |- *.
    destruct (place_values _ _ _ _) as [r|]; [by exists r|done].
Qed.

(** a stored row reads back as it was written: any mix of NULLs and values of the
    columns' kinds is encoded, and decodes to the same row; a tombstone decodes to no
    row. *)
Theorem row_value_roundtrip schema row :
  row_ok schema row ->
  (exists d, encodeEnterpriseValue schema (Some row) FlagNormal = Ok d /\
     decodeEnterpriseValue schema d = Ok (row, false)) /\
  (exists d, encodeEnterpriseValue schema None FlagTombstone = Ok d /\
     decodeEnterpriseValue schema d = Ok ([], true)).
Proof.
  intros Hr. split.
  - destruct (encode_row schema row Hr) as (bm & E & _). eexists. split; [exact E|].
    by apply (decode_row schema row).
  - destruct (tombstone_roundtrip schema) as (d & ? & ? & _). by exists d.
Qed.
