(* ===== verification/Heap.v ===== *)
(** [internal/engine/sql/heap]: tables of versioned rows over a key-value store
    ([table.go], and the row lookups of [encode.go]).

    A row version is the store entry
    [row key (table, primary key, version) -> value] of [HeapValue.v].
    [Insert], [Update] and [Delete] append a version, [Get] and [Scan] read the
    newest version a transaction may see, [Vacuum] deletes versions no reader may
    see any more.  The operations work over any [KvOps] store; the table's lock
    makes each one atomic.  [HeapProof.v] holds the theorems. *)

From Stdlib Require Import ZArith Lia.
From stdpp Require Import gmap.
From S2P Require Import Prelude OrdMap Key RowKey KvNode Monad KvSpec GoRuntime HeapValue.
Open Scope Z_scope.
Open Scope st_scope.

(** * The operations of a table *)

Inductive table_err (E : Type) : Type :=
| HeapErr (e : heap_err)
| StoreErr (e : E).
Arguments HeapErr {E} e.
Arguments StoreErr {E} e.

Section table.
Context {S E : Type} `{KvOps S E} `{GoRuntime}.
Implicit Types (schema : Schema) (txID : Z).

Definition T : Type -> Type := st S (table_err E).

Definition store {A} (c : st S E A) : T A := fun s =>
  match c s with (Ok a, s') => (Ok a, s') | (Err e, s') => (Err (StoreErr e), s') end.
Definition checked {A} (r : res heap_err A) : T A :=
  lift (match r with Ok a => Ok a | Err e => Err (HeapErr e) end).
Definition refuse {A} (e : heap_err) : T A := fail (HeapErr e).

(** The version in an entry's key; entries whose key does not decode are skipped. *)
Definition version_of schema (e : Entry) : option Z :=
  match DecodeTableRowKey (data (eKey e)) (pkKinds schema) with
  | Ok (_, _, version) => Some version
  | Err _ => None
  end.

Fixpoint has_conflict schema txID (entries : list Entry) : bool :=
  match entries with
  | [] => false
  | e :: entries' =>
      match version_of schema e with
      | Some version => if txID <=? version then true else has_conflict schema txID entries'
      | None => has_conflict schema txID entries'
      end
  end.

Definition validateMonotonicTx schema (pkValues : list GoAny) txID : T unit :=
  if txID =? 0 then refuse ErrInvalidTx
  else
    '(start, stop) <- checked (encodeRowVersionPrefix schema pkValues) ;;
    entries <- store (kv_Scan start stop) ;;
    if has_conflict schema txID entries then refuse ErrTxConflict else ret tt.

Record rowVersion := mkVersion { version : Z; ver_data : list byte }.

Definition visible_versions schema txID (entries : list Entry) : list rowVersion :=
  omap (fun e => match version_of schema e with
                 | Some v => if v <=? txID then Some (mkVersion v (eValue e)) else None
                 | None => None
                 end) entries.

Definition newer (x y : rowVersion) : bool := version y <? version x.

Definition findVisibleRow schema (pkValues : list GoAny) txID : T (list GoAny * Z) :=
  '(start, stop) <- checked (encodeRowVersionPrefix schema pkValues) ;;
  entries <- store (kv_Scan start stop) ;;
  match sort_Slice newer (visible_versions schema txID entries) with
  | [] => refuse ErrRowNotFound
  | latest :: _ =>
      '(vals, isTombstone) <- checked (decodeEnterpriseValue schema (ver_data latest)) ;;
      if isTombstone : bool then refuse ErrRowNotFound else ret (vals, version latest)
  end.

(** Whether [findVisibleRow] returned no error; its effects stay. *)
Definition row_visible schema (pkValues : list GoAny) txID : T bool := fun s =>
  let '(r, s') := findVisibleRow schema pkValues txID s in (Ok (is_ok r), s').

Definition write_version schema (pkValues : list GoAny) txID (rowValue : res heap_err (list byte))
  : T unit :=
  v <- checked rowValue ;;
  rowKey <- checked (encodeRowKeyFromPK schema pkValues txID) ;;
  store (kv_Set rowKey v).

Definition Insert schema txID (values : list GoAny) : T unit :=
  if negb (zlen values =? zlen (Columns schema)) then refuse ErrColumnCountMismatch
  else
    let pkVals := map (value_at values) (PKIndices schema) in
    validateMonotonicTx schema pkVals txID ;;;
    visible <- row_visible schema pkVals txID ;;
    if visible : bool then refuse ErrDuplicateKey
    else write_version schema pkVals txID (encodeEnterpriseValue schema (Some values) FlagNormal).

Definition Update schema txID (pkValues newValues : list GoAny) : T unit :=
  if negb (zlen newValues =? zlen (Columns schema)) then refuse ErrColumnCountMismatch
  else
    validateMonotonicTx schema pkValues txID ;;;
    visible <- row_visible schema pkValues txID ;;
    if negb visible then refuse ErrRowNotFound
    else if negb (comparePK schema pkValues newValues) then refuse ErrPrimaryKeyUpdate
    else write_version schema pkValues txID (encodeEnterpriseValue schema (Some newValues) FlagNormal).

Definition Delete schema txID (pkValues : list GoAny) : T unit :=
  validateMonotonicTx schema pkValues txID ;;;
  visible <- row_visible schema pkValues txID ;;
  if negb visible then refuse ErrRowNotFound
  else write_version schema pkValues txID (encodeEnterpriseValue schema None FlagTombstone).

Definition Get schema txID (pkValues : list GoAny) : T (list GoAny) :=
  '(vals, _) <- findVisibleRow schema pkValues txID ;; ret vals.

(** ** Scan *)

Record scanned := mkScanned { pkBytes : list byte; sc_version : Z; sc_data : list byte }.

Definition extractPKPrefix (fullKey : list byte) : list byte :=
  if zlen fullKey <=? 8 then fullKey else ztake (zlen fullKey - 8) fullKey.

Definition filter_visible schema txID (entries : list Entry) : list scanned :=
  omap (fun e => match version_of schema e with
                 | Some v => if txID <? v then None
                             else Some (mkScanned (extractPKPrefix (data (eKey e))) v (eValue e))
                 | None => None
                 end) entries.

(** One step of the loop that keeps the latest version of each group. *)
Definition group_latest (groups : gmap (list byte) scanned) (fe : scanned)
  : gmap (list byte) scanned :=
  match groups !! pkBytes fe with
  | Some existing => if sc_version existing <? sc_version fe then <[pkBytes fe := fe]> groups else groups
  | None => <[pkBytes fe := fe]> groups
  end.

Record visibleRow := mkRow { row_pk : list byte; row_values : list GoAny }.

(** A group's row: none for a tombstone or an undecodable value. *)
Definition group_row schema (grp : scanned) : option visibleRow :=
  if bool_decide (head (sc_data grp) = Some FlagTombstone) then None
  else match decodeEnterpriseValue schema (sc_data grp) with
       | Ok (vals, _) => Some (mkRow (pkBytes grp) vals)
       | Err _ => None
       end.

Definition row_before (x y : visibleRow) : bool :=
  bool_decide (bytes_compare (row_pk x) (row_pk y) = Lt).

Record enterpriseRows := mkRows { rows : list visibleRow; idx : Z; curVals : option (list GoAny) }.

Definition table_bounds schema : Key * Key :=
  let prefix := TablePrefix (TableID schema) in (FromBytes prefix, end_key prefix).

Definition Scan schema txID : T enterpriseRows :=
  let '(start, stop) := table_bounds schema in
  entries <- store (kv_Scan start stop) ;;
  let groups := foldl group_latest ∅ (filter_visible schema txID entries) in
  let visRows := omap (fun g => group_row schema (snd g)) (map_order (map_to_list groups)) in
  ret (mkRows (sort_Slice row_before visRows) 0 None).

(** [enterpriseRows.Next] and [Values] *)
Definition Next (r : enterpriseRows) : bool * enterpriseRows :=
  let i := idx r + 1 in
  if zlen (rows r) <=? i then (false, mkRows (rows r) i (curVals r))
  else (true, mkRows (rows r) i (option_map row_values (rows r !! Z.to_nat i))).

Definition Values (r : enterpriseRows) : option (list GoAny) := curVals r.

(** ** Vacuum *)

Record versionEntry := mkVersionEntry { ve_version : Z; ve_data : list byte; ve_keyBytes : list byte }.

Definition group_versions schema (groups : gmap (list byte) (list versionEntry)) (e : Entry)
  : gmap (list byte) (list versionEntry) :=
  match version_of schema e with
  | None => groups
  | Some v =>
      let k := extractPKPrefix (data (eKey e)) in
      <[k := default [] (groups !! k) ++ [mkVersionEntry v (eValue e) (data (eKey e))]]> groups
  end.

Definition ve_newer (x y : versionEntry) : bool := ve_version y <? ve_version x.

(** Whether the loop of [Vacuum] over a group deletes the version. *)
Definition vacuums (olderThan : Z) (isTomb hasNewer : bool) (highestOld ve : versionEntry) : bool :=
  if olderThan <? ve_version ve then false
  else (isTomb && negb hasNewer) || (negb isTomb && (ve_version ve <? ve_version highestOld)).

Definition vacuum_group (olderThan : Z) (group : list versionEntry) : T unit :=
  let versions := sort_Slice ve_newer group in
  match List.find (fun ve => ve_version ve <=? olderThan) versions with
  | None => ret tt
  | Some highestOld =>
      let isTomb := bool_decide (head (ve_data highestOld) = Some FlagTombstone) in
      let hasNewer := existsb (fun ve => olderThan <? ve_version ve) versions in
      for_each versions (fun ve =>
        if vacuums olderThan isTomb hasNewer highestOld ve
        then ignore (store (kv_Delete (FromBytes (ve_keyBytes ve)))) else ret tt)
  end.

Definition Vacuum schema (olderThan : Z) : T unit :=
  let '(start, stop) := table_bounds schema in
  entries <- store (kv_Scan start stop) ;;
  let groupMap := foldl (group_versions schema) ∅ entries in
  for_each (map_order (map_to_list groupMap)) (fun g => vacuum_group olderThan (snd g)).
End table.
