(* ===== verification/HeapRows.v ===== *)
(** The rows an ordered map of entries holds: which keys stand for which versions of
    which primary keys, and how an update of the map changes them.

    [versions T l pk] are the versions of the row [pk] of table [T] in the entries [l],
    oldest first.  The scans of [Heap.v] see exactly these; setting a row key appends
    or replaces one version and touches no other row and no other table. *)

From Stdlib Require Import ZArith Lia Sorted.
From stdpp Require Import gmap.
From S2P Require Import Prelude OrdMap Key RowKey KvNode Monad KvSpec GoRuntime HeapValue Heap.
Open Scope Z_scope.

#[export] Instance Value_eq_dec : EqDecision Value.
Proof. solve_decision. Defined.

Record schema_ok (T : Schema) : Prop := {
  so_open : OpenTable T = Ok T;
  so_id : u64 (TableID T);
  so_pk : Forall (fun k => k <> KindBytes) (pkKinds T);
  so_tomb : 1 + bitmask_len T <= MaxValSize }.

(** A primary key of the table: canonical column values of its kinds. *)
Definition pk_ok (T : Schema) (pk : list Value) : Prop :=
  Forall canonical pk /\ map kind pk = pkKinds T.

Definition row_prefix (T : Schema) (pk : list Value) : list byte :=
  TablePrefix (TableID T) ++ concat (map pk_column pk).
Definition row_key (T : Schema) (pk : list Value) (v : Z) : list byte := row_prefix T pk ++ be_encode 8 v.

#[global] Arguments row_prefix : simpl never.
#[global] Arguments row_key : simpl never.

(** The row version a key of the store stands for. *)
Definition row_of (T : Schema) (k : list byte) : option (list Value * Z) :=
  match DecodeTableRowKey k (pkKinds T) with
  | Ok (t, pk, v) => if t =? TableID T then Some (pk, v) else None
  | Err _ => None
  end.

Definition version_entry (T : Schema) (pk : list Value) (e : list byte * list byte) : option rowVersion :=
  match row_of T (fst e) with
  | Some (pk', v) => if decide (pk' = pk) then Some (mkVersion v (snd e)) else None
  | None => None
  end.

Definition versions (T : Schema) (l : list (list byte * list byte)) (pk : list Value) : list rowVersion :=
  omap (version_entry T pk) l.

Section rows.
Context (T : Schema) (HT : schema_ok T).
Implicit Types (l : list (list byte * list byte)) (pk : list Value).

Lemma pkKinds_ne : pkKinds T <> [].
Proof.
  destruct HT as [Ho _ _ _]. unfold OpenTable in Ho. unfold pkKinds. intros E.
  destruct (_ =? _); [done|]. destruct (PKIndices T); [done|]. done.
Qed.

Lemma pk_ok_ne pk : pk_ok T pk -> pk <> [].
Proof. intros [_ Hk] ->. by apply pkKinds_ne. Qed.

Lemma pk_ok_no_bytes pk : pk_ok T pk -> no_bytes pk.
Proof. intros [_ Hk]. unfold no_bytes. rewrite <- (Forall_map kind (fun k => k <> KindBytes)), Hk. apply HT. Qed.

Lemma row_key_encode pk v : pk_ok T pk -> EncodeTableRowKey (TableID T) pk v = Ok (row_key T pk v).
Proof.
  intros Hpk%pk_ok_ne. rewrite table_row_key_eq by done. unfold row_key, row_prefix. by rewrite app_assoc.
Qed.

Lemma row_prefix_encode pk : pk_ok T pk -> EncodeTableRowPrefix (TableID T) pk = Ok (row_prefix T pk).
Proof. intros Hpk%pk_ok_ne. by destruct pk. Qed.

(** Keys and row versions correspond. *)
Lemma row_of_key pk v : pk_ok T pk -> u64 v -> row_of T (row_key T pk v) = Some (pk, v).
Proof.
  intros Hpk Hv. destruct (row_key_decodes (TableID T) pk v) as (d & E & D);
    [apply HT|done|by apply pk_ok_ne|apply Hpk|by apply no_bytes_bytes_last, pk_ok_no_bytes|].
  rewrite row_key_encode in E by done. injection E as <-.
  destruct Hpk as [_ Hk]. unfold row_of. by rewrite <- Hk, D, Z.eqb_refl.
Qed.

Lemma decode_sound k t pk v :
  DecodeTableRowKey k (pkKinds T) = Ok (t, pk, v) ->
  EncodeTableRowKey t pk v = Ok k /\ pk_ok T pk /\ u64 t /\ u64 v.
Proof.
  intros D. destruct (row_key_sound k (pkKinds T) t pk v) as (E & Hk & Hc & Ht & Hv);
    [apply pkKinds_ne|apply HT|done|]. done.
Qed.

Lemma row_of_sound k pk v : row_of T k = Some (pk, v) -> k = row_key T pk v /\ pk_ok T pk /\ u64 v.
Proof.
  unfold row_of. destruct (DecodeTableRowKey k (pkKinds T)) as [[[t pk'] v']|] eqn:D; [|done].
  destruct (Z.eqb_spec t (TableID T)) as [->|]; [|done]. intros [= <- <-].
  apply decode_sound in D as (E & Hpk & _ & Hv). rewrite row_key_encode in E by done. by injection E as <-.
Qed.

(** The keys of another table stand for no row of this one. *)
Lemma row_of_other t r : u64 t -> t <> TableID T -> row_of T (TablePrefix t ++ r) = None.
Proof.
  intros Ht Hne. unfold row_of.
  destruct (DecodeTableRowKey _ _) as [[[t' pk'] v']|] eqn:D; [|done].
  apply decode_table_prefix in D as ->; [|done]. by rewrite (proj2 (Z.eqb_neq _ _)).
Qed.

Lemma extract_prefix pk v : extractPKPrefix (row_key T pk v) = row_prefix T pk.
Proof.
  unfold extractPKPrefix, row_key. rewrite zlen_app, zlen_be_encode.
  rewrite (proj2 (Z.leb_gt _ _)).
  - apply ztake_app_eq. lia.
  - unfold row_prefix, TablePrefix. rewrite !zlen_app, zlen_be_encode.
    pose proof (zlen_nonneg (concat (map pk_column pk))). change (zlen [tableRowTag]) with 1. lia.
Qed.

Lemma row_prefix_inj pk pk' : pk_ok T pk -> pk_ok T pk' -> row_prefix T pk = row_prefix T pk' -> pk = pk'.
Proof.
  intros Hpk Hpk' E. pose proof (row_of_key pk 0 Hpk ltac:(split; lia)) as E1.
  unfold row_key in E1. rewrite E in E1. fold (row_key T pk' 0) in E1. rewrite (row_of_key pk' 0 Hpk') in E1 by (split; lia). by injection E1.
Qed.

Lemma row_key_lt pk v w : u64 v -> u64 w -> bytes_lt (row_key T pk v) (row_key T pk w) <-> v < w.
Proof.
  intros. unfold bytes_lt, row_key. by rewrite bytes_compare_app, bytes_compare_be_encode, Z.compare_lt_iff.
Qed.

(** ** What the scans see *)

Definition pk_low pk := scan_bound (row_prefix T pk).
Definition pk_high pk := scan_bound (data (end_key (row_prefix T pk))).

Lemma prefix_cons pk : exists r, row_prefix T pk = tableRowTag :: r.
Proof. unfold row_prefix, TablePrefix. cbn [app]. by eexists. Qed.

Lemma end_key_spec p r :
  p = tableRowTag :: r -> exists e, PrefixEnd p = Some e /\ scan_bound (data (end_key p)) = Some e.
Proof.
  intros ->. unfold end_key. destruct (PrefixEnd (tableRowTag :: r)) as [e|] eqn:Ee; [|done].
  exists e. split; [done|]. cbn. unfold scan_bound. apply PrefixEnd_spec in Ee as [Hl _].
  rewrite (proj2 (Z.eqb_neq _ _)); [done|]. unfold zlen. rewrite Hl. simpl. lia.
Qed.

Lemma scan_bound_cons p r : p = tableRowTag :: r -> scan_bound p = Some p.
Proof.
  intros ->. unfold scan_bound. rewrite (proj2 (Z.eqb_neq _ _)); [done|].
  rewrite zlen_cons. pose proof (zlen_nonneg r). lia.
Qed.

(** Membership in the range of a prefix. *)
Lemma in_prefix_range p r k :
  p = tableRowTag :: r ->
  exists e, PrefixEnd p = Some e /\
    (in_range (scan_bound p) (scan_bound (data (end_key p))) k = true <-> bytes_le p k /\ bytes_lt k e).
Proof.
  intros Hp. destruct (end_key_spec p r Hp) as (e & Ee & ->). exists e. split; [done|].
  rewrite (scan_bound_cons p r Hp). unfold in_range. rewrite andb_true_iff. unfold bytes_lt.
  rewrite <- bytes_not_lt. destruct (bytes_compare k p), (bytes_compare k e); split; intros []; done.
Qed.

Lemma version_of_entry k d : version_of T (to_entry (k, d)) =
  match DecodeTableRowKey k (pkKinds T) with Ok (_, _, v) => Some v | Err _ => None end.
Proof. done. Qed.

(** In the range of a primary key, exactly its versions decode. *)
Lemma pk_range_versions pk e :
  pk_ok T pk ->
  if in_range (pk_low pk) (pk_high pk) (fst e)
  then version_of T (to_entry e) = option_map version (version_entry T pk e)
  else version_entry T pk e = None.
Proof.
  intros Hpk. destruct e as [k d]. cbn [fst]. destruct (prefix_cons pk) as (r & Hr).
  destruct (in_prefix_range _ _ k Hr) as (e & Ee & Hin).
  unfold pk_low, pk_high. destruct (in_range _ _ k) eqn:Er.
  - rewrite version_of_entry. unfold version_entry, row_of. cbn [fst snd].
    destruct (DecodeTableRowKey k (pkKinds T)) as [[[t pk'] v]|] eqn:D; [|done].
    apply decode_sound in D as (E & Hpk' & Ht & Hv).
    destruct (proj1 (pk_prefix_range (TableID T) t pk pk' v (row_prefix T pk) e k (so_id T HT) Ht
      (proj1 Hpk) (proj1 Hpk') ltac:(by rewrite (proj2 Hpk), (proj2 Hpk')) (pk_ok_no_bytes pk Hpk)
      (row_prefix_encode pk Hpk) Ee E)) as [<- <-]; [by apply Hin|].
    rewrite Z.eqb_refl. by rewrite decide_True.
  - unfold version_entry. destruct (row_of T (fst (k, d))) as [[pk' v]|] eqn:D; [|done].
    destruct (decide (pk' = pk)) as [->|]; [|done]. exfalso.
    apply row_of_sound in D as (E & _ & Hv). cbn [fst] in E. subst k.
    assert (false = true); [|done]. apply Hin.
    destruct (PrefixEnd_range _ _ Ee) as [Hpre _]. apply Hpre.
Qed.

(** In the range of the table, exactly its rows decode. *)
Lemma table_range_versions k d :
  let '(start, stop) := table_bounds T in
  if in_range (scan_bound (data start)) (scan_bound (data stop)) k
  then version_of T (to_entry (k, d)) = option_map snd (row_of T k)
  else row_of T k = None.
Proof.
  unfold table_bounds. cbn [data FromBytes EncodeBytes].
  assert (TablePrefix (TableID T) = tableRowTag :: be_encode 8 (TableID T)) as Hr by done.
  destruct (in_prefix_range _ _ k Hr) as (e & Ee & Hin). destruct (in_range _ _ k) eqn:Er.
  - rewrite version_of_entry. unfold row_of.
    destruct (DecodeTableRowKey k (pkKinds T)) as [[[t pk'] v]|] eqn:D; [|done].
    destruct (proj2 (PrefixEnd_range _ _ Ee) k) as [x Hx];
      [by apply Hin|by apply Hin| |].
    { unfold DecodeTableRowKey in D. destruct (Z.ltb_spec (zlen k) (1 + 8)); [done|].
      assert (zlen (TablePrefix (TableID T)) = 9) as H9 by (unfold TablePrefix; by rewrite zlen_app, zlen_be_encode).
      unfold zlen in *. lia. }
    rewrite Hx in D. apply decode_table_prefix in D as ->; [|apply HT]. by rewrite Z.eqb_refl.
  - destruct (row_of T k) as [[pk v]|] eqn:D; [|done]. apply row_of_sound in D as (-> & _ & _).
    exfalso. assert (false = true); [|done]. apply Hin.
    unfold row_key, row_prefix. rewrite <- app_assoc. by apply (PrefixEnd_range _ _ Ee).
Qed.

(** ** The versions of a row *)

Definition older (x y : rowVersion) : Prop := version x < version y.

Lemma versions_app T' l1 l2 pk : versions T' (l1 ++ l2) pk = versions T' l1 pk ++ versions T' l2 pk.
Proof. apply omap_app. Qed.

Lemma versions_cons T' e l pk :
  versions T' (e :: l) pk
  = match version_entry T' pk e with Some r => r :: versions T' l pk | None => versions T' l pk end.
Proof. done. Qed.

Lemma version_entry_sound pk e r :
  version_entry T pk e = Some r ->
  fst e = row_key T pk (version r) /\ snd e = ver_data r /\ pk_ok T pk /\ u64 (version r).
Proof.
  unfold version_entry. destruct (row_of T (fst e)) as [[pk' v]|] eqn:D; [|done].
  destruct (decide (pk' = pk)) as [->|]; [|done]. intros [= <-]. cbn. apply row_of_sound in D; tauto.
Qed.

Lemma version_entry_key pk v d :
  pk_ok T pk -> u64 v -> version_entry T pk (row_key T pk v, d) = Some (mkVersion v d).
Proof. intros. unfold version_entry. cbn [fst snd]. rewrite row_of_key by done. by rewrite decide_True. Qed.

Lemma In_versions l pk r :
  In r (versions T l pk) <-> pk_ok T pk /\ u64 (version r) /\ In (row_key T pk (version r), ver_data r) l.
Proof.
  induction l as [|e l IH]; [cbn; intuition|]. rewrite versions_cons.
  destruct (version_entry T pk e) as [r'|] eqn:E.
  - pose proof (version_entry_sound _ _ _ E) as (Ek & Ed & Hpk & Hu). cbn [In]. rewrite IH. split.
    + intros [->|(? & ? & ?)]; [|auto]. split; [done|]. split; [done|]. left. destruct e. cbn in *. by subst.
    + intros (_ & Hr & [Ee|]); [|by right]. left. rewrite Ee, version_entry_key in E by done.
      injection E as <-. by destruct r.
  - rewrite IH. split; [intros (? & ? & ?); split; [done|split; [done|by right]]|].
    intros (Hpk & Hu & [->|]); [|done]. by rewrite version_entry_key in E.
Qed.

Lemma versions_sorted l pk : om_sorted l -> StronglySorted older (versions T l pk).
Proof.
  induction l as [|[k d] l IH]; intros Hs; [constructor|]. apply om_sorted_cons in Hs as [Hs Hlt].
  rewrite versions_cons. destruct (version_entry T pk (k, d)) as [r|] eqn:E; [|by apply IH].
  constructor; [by apply IH|]. rewrite Forall_forall. intros r' Hr%list_elem_of_In.
  apply In_versions in Hr as (Hpk & Hu & Hin).
  apply version_entry_sound in E as (Ek & _ & _ & Hu'). cbn [fst] in Ek.
  apply (row_key_lt pk); [done|done|]. rewrite <- Ek. apply Hlt.
  by apply (in_map fst _ _ Hin).
Qed.

(** *** Updates *)

(** Setting a key that is no version of a row leaves the row alone. *)
Lemma versions_set_frame T' pk' k d l :
  om_sorted l -> (forall x, version_entry T' pk' (k, x) = None) ->
  versions T' (om_set k d l) pk' = versions T' l pk'.
Proof.
  intros Hs Hn. destruct (om_set_split k d l Hs) as (l1 & l2 & -> & _ & _ & [->|(w & ->)]);
    by rewrite !versions_app, !versions_cons, ?Hn.
Qed.

Lemma versions_set_other pk pk' v d l :
  om_sorted l -> pk_ok T pk -> u64 v -> pk' <> pk ->
  versions T (om_set (row_key T pk v) d l) pk' = versions T l pk'.
Proof.
  intros Hs Hpk Hv Hne. apply versions_set_frame; [done|]. intros x. unfold version_entry. cbn [fst].
  rewrite row_of_key by done. by rewrite decide_False.
Qed.

(** A version newer than all others is appended. *)
Lemma versions_set pk v d l :
  om_sorted l -> pk_ok T pk -> u64 v -> (forall r, In r (versions T l pk) -> version r < v) ->
  versions T (om_set (row_key T pk v) d l) pk = versions T l pk ++ [mkVersion v d].
Proof.
  intros Hs Hpk Hv Hall.
  destruct (om_set_split (row_key T pk v) d l Hs) as (l1 & l2 & -> & _ & H2 & Hor).
  rewrite versions_app, versions_cons, version_entry_key by done.
  assert (versions T l2 pk = []) as E2.
  { destruct (versions T l2 pk) as [|r rs] eqn:E; [done|]. exfalso.
    assert (In r (versions T l2 pk)) as Hin by (rewrite E; by left).
    apply In_versions in Hin as (_ & Hu & Hin). pose proof (H2 _ Hin) as Hlt. cbn [fst] in Hlt.
    apply row_key_lt in Hlt; [|done..].
    assert (version r < v); [|lia]. apply Hall, In_versions. split; [done|]. split; [done|].
    destruct Hor as [->|(w & ->)]; apply in_or_app; [by right|right; by right]. }
  rewrite E2. destruct Hor as [->|(w & ->)].
  - by rewrite versions_app, E2, app_nil_r.
  - exfalso. assert (version (mkVersion v w) < v); [|cbn in *; lia].
    apply Hall. rewrite versions_app, versions_cons, version_entry_key by done. apply in_or_app. right. by left.
Qed.

(** Removing entries removes versions. *)
Lemma versions_filter p q l pk :
  (forall r, In r (versions T l pk) -> p (row_key T pk (version r), ver_data r) = q r) ->
  versions T (List.filter p l) pk = List.filter q (versions T l pk).
Proof.
  induction l as [|e l IH]; intros Hp; [done|]. cbn [List.filter]. rewrite versions_cons in Hp |- *.
  destruct (version_entry T pk e) as [r|] eqn:E.
  - pose proof (version_entry_sound _ _ _ E) as (Ek & Ed & _). assert (p e = q r) as ->.
    { specialize (Hp r (or_introl eq_refl)). destruct e as [k d]. cbn in Ek, Ed. by subst. }
    cbn [List.filter]. destruct (q r); [rewrite versions_cons, E; f_equal|]; apply IH; intros r' Hr; apply Hp; by right.
  - destruct (p e); [rewrite versions_cons, E|]; by apply IH.
Qed.
End rows.

(** Tables do not see each other's rows. *)
Lemma versions_set_table T T2 pk pk' v d l :
  schema_ok T -> schema_ok T2 -> TableID T2 <> TableID T -> om_sorted l ->
  versions T2 (om_set (row_key T pk v) d l) pk' = versions T2 l pk'.
Proof.
  intros HT HT2 Hne Hs. apply versions_set_frame; [done|]. intros x.
  unfold version_entry, row_key, row_prefix. cbn [fst]. rewrite <- app_assoc.
  rewrite row_of_other; [done|apply HT|done].
Qed.
