(* ===== verification/HeapProof.v ===== *)
(** Tables are multi-version maps.

    The abstract state of a table gives every primary key its history, the row versions
    written for it, oldest first, with [None] for a deletion.  [table_rep T l db] says
    that the entries [l] of the store hold the histories [db] of table [T].  The theorems
    say that the operations of [Heap.v], over any store that satisfies [KvLaws], do to
    the store what the operations below do to the histories, on every branch, and leave
    every other table alone. *)

From Stdlib Require Import ZArith Lia Sorted.
From stdpp Require Import gmap.
From S2P Require Import Prelude OrdMap Key RowKey KvNode Monad KvSpec GoRuntime HeapValue Heap HeapRows.
Open Scope Z_scope.

(** * The abstract table *)

Definition row : Type := list GoAny.
Definition history : Type := list (Z * option row).
Definition db : Type := list Value -> history.

Definition db_put (pk : list Value) (h : history) (d : db) : db :=
  fun pk' => if decide (pk' = pk) then h else d pk'.

(** The newest version at or before [tx]. *)
Definition visible (tx : Z) (h : history) : option row :=
  match last (List.filter (fun x => fst x <=? tx) h) with Some (_, r) => r | None => None end.

Section ops.
Context {S E : Type} `{KvOps S E} (T : Schema).
Implicit Types (d : db) (tx : Z).

Definition pk_of (pkValues : list GoAny) : res heap_err (list Value) :=
  if negb (zlen pkValues =? zlen (PKIndices T)) then Err ErrColumnCountMismatch
  else key_values (pkKinds T) pkValues.

(** The transaction must be newer than every version of the row. *)
Definition db_check tx (pkValues : list GoAny) d : res heap_err (list Value) :=
  if tx =? 0 then Err ErrInvalidTx
  else match pk_of pkValues with
       | Err e => Err e
       | Ok pk => if existsb (fun x => tx <=? fst x) (d pk) then Err ErrTxConflict else Ok pk
       end.

Definition result : Type := res (table_err E) unit.

(** A version is appended if it can be encoded and its key fits a page. *)
Definition db_append tx (pk : list Value) (r : option row) (encoded : res heap_err (list byte)) d
  : result * db :=
  match encoded with
  | Err e => (Err (HeapErr e), d)
  | Ok _ => if MaxKeySize <? zlen (row_key T pk tx) then (Err (StoreErr kv_too_large), d)
            else (Ok tt, db_put pk (d pk ++ [(tx, r)]) d)
  end.

Definition db_insert tx (values : row) d : result * db :=
  if negb (zlen values =? zlen (Columns T)) then (Err (HeapErr ErrColumnCountMismatch), d)
  else match db_check tx (map (value_at values) (PKIndices T)) d with
       | Err e => (Err (HeapErr e), d)
       | Ok pk => if visible tx (d pk) then (Err (HeapErr ErrDuplicateKey), d)
                  else db_append tx pk (Some values) (encodeEnterpriseValue T (Some values) FlagNormal) d
       end.

Definition db_update tx (pkValues : list GoAny) (values : row) d : result * db :=
  if negb (zlen values =? zlen (Columns T)) then (Err (HeapErr ErrColumnCountMismatch), d)
  else match db_check tx pkValues d with
       | Err e => (Err (HeapErr e), d)
       | Ok pk =>
           if visible tx (d pk) then
             if comparePK T pkValues values
             then db_append tx pk (Some values) (encodeEnterpriseValue T (Some values) FlagNormal) d
             else (Err (HeapErr ErrPrimaryKeyUpdate), d)
           else (Err (HeapErr ErrRowNotFound), d)
       end.

Definition db_delete tx (pkValues : list GoAny) d : result * db :=
  match db_check tx pkValues d with
  | Err e => (Err (HeapErr e), d)
  | Ok pk => if visible tx (d pk) then db_append tx pk None (Ok []) d
             else (Err (HeapErr ErrRowNotFound), d)
  end.

Definition db_get tx (pkValues : list GoAny) d : res (table_err E) row :=
  match pk_of pkValues with
  | Err e => Err (HeapErr e)
  | Ok pk => match visible tx (d pk) with Some r => Ok r | None => Err (HeapErr ErrRowNotFound) end
  end.
End ops.

(** Vacuum: with a deleted newest old version and nothing newer the row goes away, with
    a live one the versions older than it go away. *)
Definition vacuumed (olderThan : Z) (h : history) : history :=
  match last (List.filter (fun x => fst x <=? olderThan) h) with
  | None => h
  | Some (v, Some _) => List.filter (fun x => v <=? fst x) h
  | Some (_, None) => if existsb (fun x => olderThan <? fst x) h then h else []
  end.

(** * Representation *)

Definition decoded (T : Schema) (r : rowVersion) : Z * option row :=
  (version r, match decodeEnterpriseValue T (ver_data r) with Ok (vals, false) => Some vals | _ => None end).

(** Every version of the table in the store decodes. *)
Definition values_decode (T : Schema) (l : list (list byte * list byte)) : Prop :=
  forall k d pk v, In (k, d) l -> row_of T k = Some (pk, v) -> is_ok (decodeEnterpriseValue T d) = true.

Definition table_rep (T : Schema) (l : list (list byte * list byte)) (d : db) : Prop :=
  values_decode T l /\ forall pk, map (decoded T) (versions T l pk) = d pk.

(** ** Histories *)

Definition latest (tx : Z) (h : list rowVersion) : option rowVersion :=
  last (List.filter (fun r => version r <=? tx) h).

Lemma last_map {A B} (f : A -> B) l : last (map f l) = option_map f (last l).
Proof. induction l as [|x [|y l] IH]; [done..|]. exact IH. Qed.

Lemma filter_map_swap {A B} (f : A -> B) p l :
  List.filter p (map f l) = map f (List.filter (fun x => p (f x)) l).
Proof. induction l as [|x l IH]; [done|]. cbn. destruct (p (f x)); cbn; by rewrite IH. Qed.

Lemma existsb_map {A B} (f : A -> B) p l : existsb p (map f l) = existsb (fun x => p (f x)) l.
Proof. induction l as [|x l IH]; [done|]. cbn. by rewrite IH. Qed.

Lemma visible_decoded T tx h :
  visible tx (map (decoded T) h)
  = match latest tx h with Some r => snd (decoded T r) | None => None end.
Proof.
  unfold visible, latest. rewrite filter_map_swap, last_map.
  change (fun x => fst (decoded T x) <=? tx) with (fun r => version r <=? tx).
  by destruct (last _).
Qed.

(** The last of an ascending list is the one that no other exceeds. *)
Lemma last_max h x :
  StronglySorted older h -> In x h -> (forall y, In y h -> version y <= version x) -> last h = Some x.
Proof.
  induction 1 as [|y h Hs IH Hy]; [done|]. intros Hin Hmax.
  rewrite Forall_forall in Hy. destruct h as [|z h]; [by destruct Hin as [->|[]]|].
  assert (last (y :: z :: h) = last (z :: h)) as -> by done. apply IH.
  - destruct Hin as [->|]; [|done]. exfalso.
    pose proof (Hy z ltac:(left)) as Hlt. specialize (Hmax z (or_intror (or_introl eq_refl))).
    unfold older in Hlt. lia.
  - intros w Hw. apply Hmax. by right.
Qed.

Lemma filter_sorted {A} (R : A -> A -> Prop) p l : StronglySorted R l -> StronglySorted R (List.filter p l).
Proof.
  induction 1 as [|x l Hs IH Hx]; [constructor|]. cbn. destruct (p x); [|done]. constructor; [done|].
  rewrite Forall_forall in *. intros y Hy%list_elem_of_In. apply filter_In in Hy as [Hy _].
  by apply Hx, list_elem_of_In.
Qed.

Section runtime.
Context `{GoRuntimeLaws}.

(** [findVisibleRow] takes the first after sorting newest first. *)
Lemma sort_newest h :
  StronglySorted older h ->
  match sort_Slice newer h with [] => h = [] | x :: _ => last h = Some x end.
Proof.
  intros Hs. destruct (sort_Slice newer h) as [|x l] eqn:El.
  { pose proof (sort_Slice_perm rowVersion newer h) as Hp. rewrite El in Hp.
    by apply Permutation_nil in Hp. }
  pose proof (sort_Slice_sorted rowVersion newer h (strict_weak_gt version)) as Hx. rewrite El in Hx.
  apply last_max; [done|apply (sort_Slice_In newer h x); rewrite El; by left|].
  intros y Hy. apply (sort_Slice_In newer h y) in Hy. rewrite El in Hy.
  destruct Hy as [->|Hy]; [lia|]. inversion Hx as [|? ? _ Hf]; subst. rewrite Forall_forall in Hf.
  specialize (Hf y ltac:(by apply list_elem_of_In)). unfold not_after, newer in Hf.
  apply Z.ltb_ge in Hf. lia.
Qed.
End runtime.

(** * The lookups *)

(** A primary-key value that fits a key: in the range of its type, strings without NUL. *)
Definition key_cell (a : GoAny) : Prop :=
  match a with
  | AUint64 v => u64 v
  | AInt64 v => i64 v
  | AString v => contains_nul v = false
  | _ => True
  end.

Lemma anyToKeyValue_kind k v x : anyToKeyValue k v = Ok x -> kind x = k.
Proof. destruct v; try done; destruct k; try done; by intros [= <-]. Qed.

Lemma anyToKeyValue_canonical k v x : key_cell v -> anyToKeyValue k v = Ok x -> canonical x.
Proof. destruct v; try done; destruct k; try done; intros ? [= <-]; by constructor. Qed.

Lemma key_values_ok ks vs pk :
  length ks = length vs -> Forall key_cell vs -> key_values ks vs = Ok pk ->
  Forall canonical pk /\ map kind pk = ks.
Proof.
  revert vs pk. induction ks as [|k ks IH]; intros [|v vs] pk; try done; [by intros _ _ [= <-]|].
  intros Hl Hf. cbn [key_values]. inversion Hf as [|? ? Hc Hf']; subst.
  destruct (anyToKeyValue k v) as [x|] eqn:E1; [|done]. rewrite res_bind_ok.
  destruct (key_values ks vs) as [xs|] eqn:E2; [|done]. intros [= <-].
  destruct (IH vs xs) as [H1 H2]; [by injection Hl|done|done|].
  split; [constructor; [by eapply anyToKeyValue_canonical|done]|].
  cbn. by rewrite H2, (anyToKeyValue_kind _ _ _ E1).
Qed.

Lemma pk_of_ok T pkValues pk : Forall key_cell pkValues -> pk_of T pkValues = Ok pk -> pk_ok T pk.
Proof.
  intros Hf. unfold pk_of. destruct (Z.eqb_spec (zlen pkValues) (zlen (PKIndices T))) as [El|]; [|done].
  intros E. by apply (key_values_ok (pkKinds T) pkValues pk);
    [unfold pkKinds; rewrite length_map; unfold zlen in El; lia|..].
Qed.

Section pk.
Context (T : Schema) (HT : schema_ok T).

Lemma prefix_of pkValues :
  Forall key_cell pkValues ->
  encodeRowVersionPrefix T pkValues
  = match pk_of T pkValues with
    | Ok pk => Ok (FromBytes (row_prefix T pk), end_key (row_prefix T pk))
    | Err e => Err e
    end.
Proof.
  intros Hf. pose proof (pk_of_ok T pkValues) as Hok. unfold encodeRowVersionPrefix, pk_of in *.
  destruct (negb _); [done|]. destruct (key_values (pkKinds T) pkValues) as [pk|]; [|done].
  specialize (Hok pk Hf eq_refl). rewrite res_bind_ok. by rewrite (row_prefix_encode T HT).
Qed.

Lemma row_key_of pkValues tx pk :
  Forall key_cell pkValues -> pk_of T pkValues = Ok pk ->
  encodeRowKeyFromPK T pkValues tx = Ok (FromBytes (row_key T pk tx)).
Proof.
  intros Hf Hp. pose proof (pk_of_ok T pkValues pk Hf Hp) as Hok. unfold encodeRowKeyFromPK, pk_of in *.
  destruct (negb _); [done|]. rewrite Hp, res_bind_ok. by rewrite (row_key_encode T HT).
Qed.

(** The entries a primary-key scan returns. *)
Definition pk_entries l pk : list Entry := map to_entry (om_range (pk_low T pk) (pk_high T pk) l).

Lemma omap_map {A B C} (f : B -> option C) (g : A -> B) l : omap f (map g l) = omap (fun x => f (g x)) l.
Proof. induction l as [|x l IH]; [done|]. cbn. destruct (f (g x)); by rewrite IH. Qed.

Lemma omap_select {A B} (f : A -> option B) p l :
  omap (fun x => match f x with Some y => if p y : bool then Some y else None | None => None end) l
  = List.filter p (omap f l).
Proof. induction l as [|x l IH]; [done|]. cbn. destruct (f x) as [y|]; [|done]. cbn. by destruct (p y); cbn; rewrite IH. Qed.

Lemma visible_versions_pk l pk tx :
  pk_ok T pk ->
  visible_versions T tx (pk_entries l pk) = List.filter (fun r => version r <=? tx) (versions T l pk).
Proof.
  intros Hpk. unfold visible_versions, pk_entries, versions. rewrite <- omap_select, omap_map.
  apply omap_range. intros e _. pose proof (pk_range_versions T HT pk e Hpk) as Hr.
  destruct (in_range _ _ (fst e)); [|by rewrite Hr]. rewrite Hr.
  destruct (version_entry T pk e) as [r|] eqn:Ee; [|done]. cbn.
  apply (version_entry_sound T HT) in Ee as (_ & Ed & _). destruct r as [v dv], e as [k d]. cbn in *. by subst.
Qed.

Lemma has_conflict_versions tx es :
  has_conflict T tx es = existsb (fun v => tx <=? v) (omap (version_of T) es).
Proof.
  induction es as [|e es IH]; [done|]. cbn. destruct (version_of T e) as [v|]; [|done]. cbn.
  by destruct (tx <=? v).
Qed.

Lemma has_conflict_pk l pk tx :
  pk_ok T pk -> has_conflict T tx (pk_entries l pk) = existsb (fun r => tx <=? version r) (versions T l pk).
Proof.
  intros Hpk. rewrite has_conflict_versions. unfold pk_entries. rewrite omap_map.
  rewrite (omap_range _ (fun e => option_map version (version_entry T pk e))).
  - unfold versions. induction l as [|e l IH]; [done|]. cbn. destruct (version_entry T pk e); [|done]. cbn. by rewrite IH.
  - intros e _. pose proof (pk_range_versions T HT pk e Hpk) as Hr.
    destruct (in_range _ _ (fst e)); by rewrite Hr.
Qed.
End pk.

Section find.
Context {S E : Type} `{KvLaws S E} `{GoRuntimeLaws} (T : Schema) (HT : schema_ok T).
Implicit Types (l : list (list byte * list byte)) (tx : Z).

Lemma store_run {A} (c : st S E A) a s s' : c s = (Ok a, s') -> store c s = (Ok a, s').
Proof. intros E0. unfold store. by rewrite E0. Qed.

Lemma scan_pk s n l pk :
  kv_rel s n l ->
  exists s', kv_Scan (FromBytes (row_prefix T pk)) (end_key (row_prefix T pk)) s
      = (Ok (pk_entries T l pk), s') /\ kv_rel s' n l.
Proof. intros Hr. exact (kv_scan_law s n l _ _ Hr). Qed.

(** The guard of the writing operations. *)
Lemma validate_run s n l d tx pkValues :
  kv_rel s n l -> table_rep T l d -> Forall key_cell pkValues ->
  exists s', validateMonotonicTx T pkValues tx s
      = (match db_check T tx pkValues d with Ok _ => Ok tt | Err e => Err (HeapErr e) end, s') /\
    kv_rel s' n l.
Proof.
  intros Hr [_ Hd] Hf. unfold validateMonotonicTx, db_check.
  destruct (tx =? 0); [by exists s|]. rewrite (prefix_of T HT) by done.
  destruct (pk_of T pkValues) as [pk|e] eqn:Ep; [|by exists s].
  pose proof (pk_of_ok T pkValues pk Hf Ep) as Hpk. cbn [checked]. unfold checked. rewrite bind_lift.
  destruct (scan_pk s n l pk Hr) as (s' & Es & Hr'). exists s'.
  erewrite bind_ok by by apply store_run. rewrite (has_conflict_pk T HT) by done.
  rewrite <- Hd. rewrite existsb_map.
  change (fun x => tx <=? fst (decoded T x)) with (fun x => tx <=? version x).
  by destruct (existsb _ _).
Qed.

(** The lookup, and what it says about visibility. *)
Lemma find_run s n l d tx pkValues :
  kv_rel s n l -> table_rep T l d -> Forall key_cell pkValues ->
  exists r s', findVisibleRow T pkValues tx s = (r, s') /\ kv_rel s' n l /\
    match pk_of T pkValues with
    | Err e => r = Err (HeapErr e)
    | Ok pk => match visible tx (d pk) with
               | Some vals => exists v, r = Ok (vals, v)
               | None => r = Err (HeapErr ErrRowNotFound)
               end
    end.
Proof.
  intros Hr [Hv Hd] Hf. unfold findVisibleRow. rewrite (prefix_of T HT) by done.
  destruct (pk_of T pkValues) as [pk|e] eqn:Ep; [|by eexists _, s].
  pose proof (pk_of_ok T pkValues pk Hf Ep) as Hpk. unfold checked at 1. rewrite bind_lift.
  destruct (scan_pk s n l pk Hr) as (s' & Es & Hr').
  erewrite bind_ok by by apply store_run. rewrite (visible_versions_pk T HT) by done.
  rewrite <- Hd, visible_decoded. unfold latest.
  set (h := List.filter (fun r => version r <=? tx) (versions T l pk)).
  assert (StronglySorted older h) as Hs.
  { apply filter_sorted, (versions_sorted T HT). by eapply kv_rel_sorted. }
  pose proof (sort_newest h Hs) as Hn. destruct (sort_Slice newer h) as [|x xs].
  { rewrite Hn. by eexists _, s'. }
  rewrite Hn. assert (is_ok (decodeEnterpriseValue T (ver_data x)) = true) as Hx.
  { assert (In x h) as Hin by (apply list_elem_of_In, last_Some_elem_of, Hn).
    apply filter_In in Hin as [Hin _]. apply (In_versions T HT) in Hin as (_ & Hu & Hin).
    eapply Hv; [exact Hin|by apply row_of_key]. }
  unfold decoded. cbn [snd]. destruct (decodeEnterpriseValue T (ver_data x)) as [[vals []]|]; [| |done].
  - by eexists _, s'.
  - eexists _, s'. split; [done|]. split; [done|]. by eexists.
Qed.

(** ** Appending a version *)

(** No other table notices. *)
Definition others_kept l l' : Prop :=
  forall T2 d2, schema_ok T2 -> TableID T2 <> TableID T -> table_rep T2 l d2 -> table_rep T2 l' d2.

Lemma others_kept_refl l : others_kept l l.
Proof. by intros T2 d2. Qed.

Definition stored_as (r : option row) (v : list byte) : Prop :=
  decodeEnterpriseValue T v = Ok (match r with Some vals => (vals, false) | None => ([], true) end).

Lemma set_version_rep l d pk tx r v :
  om_sorted l -> table_rep T l d -> pk_ok T pk -> u64 tx -> stored_as r v ->
  existsb (fun x => tx <=? fst x) (d pk) = false ->
  table_rep T (om_set (row_key T pk tx) v l) (db_put pk (d pk ++ [(tx, r)]) d).
Proof.
  intros Hs [Hv Hd] Hpk Hu Hst Hnew. split.
  - intros k w pk' v' Hin Hrow. apply In_om_set in Hin as [[= -> ->]|Hin]; [by rewrite Hst|by eapply Hv|done].
  - intros pk'. unfold db_put. destruct (decide (pk' = pk)) as [->|Hne].
    + assert (forall r', In r' (versions T l pk) -> version r' < tx) as Hall.
      { intros r' Hr'. rewrite <- Hd, existsb_map in Hnew. apply Z.lt_nge. intros Hle.
        rewrite <- not_true_iff_false in Hnew. apply Hnew, existsb_exists. exists r'.
        split; [done|by apply Z.leb_le]. }
      rewrite (versions_set T HT) by done.
      rewrite map_app, Hd. f_equal. cbn. unfold decoded. cbn [version ver_data]. rewrite Hst. by destruct r.
    + by rewrite (versions_set_other T HT).
Qed.

Lemma set_version_others l pk tx v : om_sorted l -> others_kept l (om_set (row_key T pk tx) v l).
Proof.
  intros Hs T2 d2 HT2 Hne [Hv Hd]. split.
  - intros k w pk' v' Hin Hrow. apply In_om_set in Hin as [[= -> ->]|Hin]; [|by eapply Hv|done].
    unfold row_key, row_prefix in Hrow. rewrite <- app_assoc in Hrow.
    rewrite (row_of_other T2) in Hrow; [done|apply HT|done].
  - intros pk'. by rewrite (versions_set_table T T2).
Qed.

Lemma check_new tx pkValues d pk :
  db_check T tx pkValues d = Ok pk ->
  pk_of T pkValues = Ok pk /\ existsb (fun x => tx <=? fst x) (d pk) = false.
Proof.
  unfold db_check. destruct (tx =? 0); [done|]. destruct (pk_of T pkValues) as [pk'|]; [|done].
  destruct (existsb _ (d pk')) eqn:Ex; [done|]. by intros [= ->].
Qed.

Lemma write_run s n l d tx pkValues pk r encoded encoded' :
  kv_rel s (Datatypes.S n) l -> table_rep T l d -> Forall key_cell pkValues -> u64 tx ->
  db_check T tx pkValues d = Ok pk ->
  match encoded with
  | Ok v => stored_as r v /\ zlen v <= MaxValSize /\ is_ok encoded' = true
  | Err e => encoded' = Err e
  end ->
  exists s' l', write_version T pkValues tx encoded s = (fst (db_append T tx pk r encoded' d), s') /\
    kv_rel s' n l' /\ table_rep T l' (snd (db_append T tx pk r encoded' d)) /\ others_kept l l'.
Proof.
  intros Hr Hd Hf Hu [Hp Hnew]%check_new Henc. pose proof (pk_of_ok T pkValues pk Hf Hp) as Hpk.
  assert (kv_rel s n l) as Hr0 by (eapply kv_rel_weaken; [|exact Hr]; lia).
  pose proof (kv_rel_sorted _ _ _ Hr) as Hs. unfold write_version, db_append.
  destruct encoded as [v|e]; [|subst encoded'; exists s, l; auto using others_kept_refl].
  destruct Henc as (Hst & Hlen & Hok). destruct encoded' as [v'|]; [|done].
  unfold checked. rewrite bind_lift, (row_key_of T HT pkValues tx pk), bind_lift by done.
  destruct (Z.ltb_spec MaxKeySize (zlen (row_key T pk tx))) as [Hbig|Hsmall].
  - exists s, l. unfold store. rewrite (kv_set_large _ _ _ (FromBytes (row_key T pk tx)) v Hr) by done. auto using others_kept_refl.
  - destruct (kv_set_law s n l (FromBytes (row_key T pk tx)) v Hr Hsmall Hlen) as (s' & Es & Hr').
    exists s', (om_set (row_key T pk tx) v l). split; [by apply store_run|]. split; [done|].
    split; [by apply set_version_rep|by apply set_version_others].
Qed.

Lemma row_visible_run s n l d tx pkValues pk :
  kv_rel s n l -> table_rep T l d -> Forall key_cell pkValues -> pk_of T pkValues = Ok pk ->
  exists s', row_visible T pkValues tx s = (Ok (if visible tx (d pk) then true else false), s') /\ kv_rel s' n l.
Proof.
  intros Hr Hd Hf Hp. destruct (find_run s n l d tx pkValues Hr Hd Hf) as (r & s' & E0 & Hr' & Hm).
  exists s'. unfold row_visible. rewrite E0, Hp in *. split; [|done].
  destruct (visible tx (d pk)); [by destruct Hm as [v ->]|by subst].
Qed.

(** A row the schema can hold, whose encoding stays in one page. *)
Definition row_request (values : row) : Prop :=
  Forall go_value values /\
  forall v, encodeEnterpriseValue T (Some values) FlagNormal = Ok v -> zlen v <= MaxValSize.

Lemma row_encoded values :
  row_request values ->
  match encodeEnterpriseValue T (Some values) FlagNormal with
  | Ok v => stored_as (Some values) v /\ zlen v <= MaxValSize /\
            is_ok (encodeEnterpriseValue T (Some values) FlagNormal) = true
  | Err e => encodeEnterpriseValue T (Some values) FlagNormal = Err e
  end.
Proof.
  intros [Hg Hlen]. destruct (encodeEnterpriseValue _ _ _) as [v|] eqn:E0; [|done].
  split; [|split; [by apply Hlen|done]]. unfold stored_as.
  apply decode_row; [|done]. by eapply encode_row_ok.
Qed.

Lemma insert_run s n l d tx values :
  kv_rel s (Datatypes.S n) l -> table_rep T l d -> u64 tx -> row_request values ->
  Forall key_cell (map (value_at values) (PKIndices T)) ->
  exists s' l', Insert T tx values s = (fst (db_insert T tx values d), s') /\
    kv_rel s' n l' /\ table_rep T l' (snd (db_insert T tx values d)) /\ others_kept l l'.
Proof.
  intros Hr Hd Hu Hreq Hf. assert (kv_rel s n l) as Hr0 by (eapply kv_rel_weaken; [|exact Hr]; lia).
  unfold Insert, db_insert. destruct (negb _); [exists s, l; auto using others_kept_refl|].
  destruct (validate_run s _ l d tx _ Hr Hd Hf) as (s1 & E1 & Hr1).
  destruct (db_check T tx _ d) as [pk|e] eqn:Ec.
  2: { exists s1, l. erewrite bind_err by exact E1. split; [done|]. split; [|auto using others_kept_refl].
       eapply kv_rel_weaken; [|exact Hr1]. lia. }
  erewrite bind_ok by exact E1. pose proof (check_new _ _ _ _ Ec) as [Hp _].
  destruct (row_visible_run s1 _ l d tx _ pk Hr1 Hd Hf Hp) as (s2 & E2 & Hr2).
  erewrite bind_ok by exact E2. destruct (visible tx (d pk)).
  - exists s2, l. split; [done|]. split; [|auto using others_kept_refl]. eapply kv_rel_weaken; [|exact Hr2]. lia.
  - apply write_run; try done. by apply row_encoded.
Qed.

Lemma update_run s n l d tx pkValues values :
  kv_rel s (Datatypes.S n) l -> table_rep T l d -> u64 tx -> row_request values -> Forall key_cell pkValues ->
  exists s' l', Update T tx pkValues values s = (fst (db_update T tx pkValues values d), s') /\
    kv_rel s' n l' /\ table_rep T l' (snd (db_update T tx pkValues values d)) /\ others_kept l l'.
Proof.
  intros Hr Hd Hu Hreq Hf. assert (kv_rel s n l) as Hr0 by (eapply kv_rel_weaken; [|exact Hr]; lia).
  assert (forall s', kv_rel s' (Datatypes.S n) l -> kv_rel s' n l) as Hw
    by (intros s' Hr'; eapply kv_rel_weaken; [|exact Hr']; lia).
  unfold Update, db_update. destruct (negb _); [exists s, l; auto using others_kept_refl|].
  destruct (validate_run s _ l d tx _ Hr Hd Hf) as (s1 & E1 & Hr1).
  destruct (db_check T tx pkValues d) as [pk|e] eqn:Ec.
  2: { exists s1, l. erewrite bind_err by exact E1. auto using others_kept_refl. }
  erewrite bind_ok by exact E1. pose proof (check_new _ _ _ _ Ec) as [Hp _].
  destruct (row_visible_run s1 _ l d tx _ pk Hr1 Hd Hf Hp) as (s2 & E2 & Hr2).
  erewrite bind_ok by exact E2. destruct (visible tx (d pk)); cbn [negb].
  - destruct (comparePK T pkValues values); cbn [negb]; [|exists s2, l; auto using others_kept_refl].
    apply write_run; try done. by apply row_encoded.
  - exists s2, l. auto using others_kept_refl.
Qed.

Lemma row_delete_run s n l d tx pkValues :
  kv_rel s (Datatypes.S n) l -> table_rep T l d -> u64 tx -> Forall key_cell pkValues ->
  exists s' l', Delete T tx pkValues s = (fst (db_delete T tx pkValues d), s') /\
    kv_rel s' n l' /\ table_rep T l' (snd (db_delete T tx pkValues d)) /\ others_kept l l'.
Proof.
  intros Hr Hd Hu Hf.
  assert (forall s', kv_rel s' (Datatypes.S n) l -> kv_rel s' n l) as Hw
    by (intros s' Hr'; eapply kv_rel_weaken; [|exact Hr']; lia).
  unfold Delete, db_delete.
  destruct (validate_run s _ l d tx _ Hr Hd Hf) as (s1 & E1 & Hr1).
  destruct (db_check T tx pkValues d) as [pk|e] eqn:Ec.
  2: { exists s1, l. erewrite bind_err by exact E1. auto using others_kept_refl. }
  erewrite bind_ok by exact E1. pose proof (check_new _ _ _ _ Ec) as [Hp _].
  destruct (row_visible_run s1 _ l d tx _ pk Hr1 Hd Hf Hp) as (s2 & E2 & Hr2).
  erewrite bind_ok by exact E2. destruct (visible tx (d pk)); cbn [negb].
  - apply write_run; try done. destruct (tombstone_roundtrip T) as (v & -> & Ed & El).
    split; [done|]. split; [|done]. rewrite El. apply HT.
  - exists s2, l. auto using others_kept_refl.
Qed.

Lemma get_run s n l d tx pkValues :
  kv_rel s n l -> table_rep T l d -> Forall key_cell pkValues ->
  exists s', Get T tx pkValues s = (db_get T tx pkValues d, s') /\ kv_rel s' n l.
Proof.
  intros Hr Hd Hf. unfold Get, db_get.
  destruct (find_run s n l d tx pkValues Hr Hd Hf) as (r & s' & E0 & Hr' & Hm). exists s'.
  destruct (pk_of T pkValues) as [pk|e]; [|subst r; by erewrite bind_err by exact E0].
  destruct (visible tx (d pk)); [destruct Hm as [v ->]; by erewrite bind_ok by exact E0|].
  subst r. by erewrite bind_err by exact E0.
Qed.
End find.
