(* ===== verification/HeapScan.v ===== *)
(** Table scans and vacuum: the operations that group the entries of a table by row.

    [Scan] returns one row for every primary key with a visible version, sorted by
    primary key, whatever order the grouping map is visited in; [Vacuum] leaves the
    versions that [vacuumed] says. *)

From Stdlib Require Import ZArith Lia Sorted Permutation.
From stdpp Require Import gmap sorting.
From S2P Require Import Prelude OrdMap Key RowKey KvNode Monad KvSpec GoRuntime HeapValue Heap HeapRows HeapProof.
Open Scope Z_scope.

Section entries.
Context (T : Schema) (HT : schema_ok T).
Implicit Types (l : list (list byte * list byte)) (tx : Z).

Definition table_low : option (list byte) := scan_bound (data (fst (table_bounds T))).
Definition table_high : option (list byte) := scan_bound (data (snd (table_bounds T))).
Definition table_entries l : list Entry := map to_entry (om_range table_low table_high l).

(** Selecting by version in the scanned entries is selecting by row in all entries. *)
Lemma omap_table {B} (f : Z -> list byte -> list byte -> option B) l :
  omap (fun e => match version_of T e with Some v => f v (data (eKey e)) (eValue e) | None => None end)
    (table_entries l)
  = omap (fun e => match row_of T (fst e) with Some (_, v) => f v (fst e) (snd e) | None => None end) l.
Proof.
  unfold table_entries. rewrite omap_map. apply omap_range. intros [k w] _. cbn [fst snd].
  pose proof (table_range_versions T HT k w) as Hr. unfold table_low, table_high.
  destruct (table_bounds T) as [start stop]. cbn [fst snd].
  destruct (in_range _ _ k); [|by rewrite Hr]. rewrite Hr. by destruct (row_of T k) as [[pk v]|].
Qed.

(** A group: the entries of one row among what is selected. *)
Lemma omap_group {B} (f : Z -> list byte -> list byte -> option B) (key : B -> list byte) pk l :
  pk_ok T pk ->
  (forall pk' v w x, pk_ok T pk' -> f v (row_key T pk' v) w = Some x -> key x = row_prefix T pk') ->
  List.filter (fun x => bool_decide (key x = row_prefix T pk))
    (omap (fun e => match row_of T (fst e) with Some (_, v) => f v (fst e) (snd e) | None => None end) l)
  = omap (fun r => f (version r) (row_key T pk (version r)) (ver_data r)) (versions T l pk).
Proof.
  intros Hpk Hkey. induction l as [|[k w] l IH]; [done|]. rewrite versions_cons. unfold version_entry.
  cbn [fst snd]. cbn. destruct (row_of T k) as [[pk' v]|] eqn:Er; [|exact IH].
  apply (row_of_sound T HT) in Er as (-> & Hpk' & Hv).
  destruct (f v (row_key T pk' v) w) as [x|] eqn:Ef.
  - cbn. rewrite (Hkey pk' v w x Hpk' Ef). destruct (decide (pk' = pk)) as [->|Hne].
    + rewrite bool_decide_eq_true_2 by done. cbn. by rewrite Ef, <- IH.
    + rewrite bool_decide_eq_false_2; [done|]. intros E. by apply (row_prefix_inj T HT) in E.
  - destruct (decide (pk' = pk)) as [->|Hne]; [cbn; by rewrite Ef|done].
Qed.

(** Every group belongs to a row. *)
Lemma omap_group_row {B} (f : Z -> list byte -> list byte -> option B) (key : B -> list byte) l x :
  (forall pk' v w y, pk_ok T pk' -> f v (row_key T pk' v) w = Some y -> key y = row_prefix T pk') ->
  In x (omap (fun e => match row_of T (fst e) with Some (_, v) => f v (fst e) (snd e) | None => None end) l) ->
  exists pk, pk_ok T pk /\ key x = row_prefix T pk.
Proof.
  intros Hkey Hin. apply list_elem_of_In, list_elem_of_omap in Hin as ([k w] & _ & Ef). cbn [fst snd] in Ef.
  destruct (row_of T k) as [[pk v]|] eqn:Er; [|done].
  apply (row_of_sound T HT) in Er as (-> & Hpk & _). exists pk. split; [done|by eapply Hkey].
Qed.

(** ** Scan *)

Definition scan_entry tx (v : Z) (k w : list byte) : option scanned :=
  if tx <? v then None else Some (mkScanned (extractPKPrefix k) v w).

Lemma scan_entry_key tx pk v w x :
  scan_entry tx v (row_key T pk v) w = Some x -> pkBytes x = row_prefix T pk.
Proof. unfold scan_entry. destruct (tx <? v); [done|]. intros [= <-]. apply extract_prefix. Qed.

Definition scan_list tx l : list scanned :=
  omap (fun e => match row_of T (fst e) with Some (_, v) => scan_entry tx v (fst e) (snd e) | None => None end) l.

Lemma filter_visible_table tx l : filter_visible T tx (table_entries l) = scan_list tx l.
Proof. unfold filter_visible, scan_list. by rewrite <- (omap_table (scan_entry tx)). Qed.

Definition scanned_of (pk : list Value) (r : rowVersion) : scanned :=
  mkScanned (row_prefix T pk) (version r) (ver_data r).

Lemma scan_group tx pk l :
  pk_ok T pk ->
  List.filter (fun x => bool_decide (pkBytes x = row_prefix T pk)) (scan_list tx l)
  = map (scanned_of pk) (List.filter (fun r => version r <=? tx) (versions T l pk)).
Proof.
  intros Hpk. unfold scan_list. rewrite (omap_group (scan_entry tx) pkBytes pk l Hpk)
    by (intros; by eapply scan_entry_key).
  induction (versions T l pk) as [|r h IH]; [done|]. cbn. unfold scan_entry at 1.
  rewrite extract_prefix. destruct (Z.ltb_spec tx (version r)).
  - by rewrite (proj2 (Z.leb_gt _ _)).
  - rewrite (proj2 (Z.leb_le _ _)) by done. cbn. by rewrite IH.
Qed.

(** The loop keeps the last entry of every group, if versions ascend within groups. *)
Lemma group_latest_spec fs :
  (forall k, StronglySorted (fun x y => sc_version x < sc_version y)
      (List.filter (fun x => bool_decide (pkBytes x = k)) fs)) ->
  forall k, foldl group_latest ∅ fs !! k = last (List.filter (fun x => bool_decide (pkBytes x = k)) fs).
Proof.
  induction fs as [|fe fs IH] using rev_ind; intros Hs k; [done|]. rewrite foldl_app. cbn [foldl].
  assert (forall k, foldl group_latest ∅ fs !! k = last (List.filter (fun x => bool_decide (pkBytes x = k)) fs)) as IH'.
  { apply IH. intros k'. specialize (Hs k'). rewrite List.filter_app in Hs. by apply StronglySorted_app_1_l in Hs. }
  rewrite List.filter_app. cbn [List.filter]. unfold group_latest at 1. rewrite IH'.
  destruct (decide (pkBytes fe = k)) as [<-|Hne].
  - rewrite bool_decide_eq_true_2, last_snoc by done.
    specialize (Hs (pkBytes fe)). rewrite List.filter_app in Hs. cbn [List.filter] in Hs.
    rewrite bool_decide_eq_true_2 in Hs by done.
    destruct (last (List.filter _ fs)) as [ex|] eqn:El; [|by rewrite lookup_insert_eq].
    apply last_Some in El as (l' & El). rewrite El in Hs.
    assert (sc_version ex < sc_version fe) as Hlt.
    { rewrite <- app_assoc in Hs. apply StronglySorted_app_1_r in Hs. inversion Hs as [|? ? _ Hf]; subst.
      by inversion Hf. }
    rewrite (proj2 (Z.ltb_lt _ _)) by done. by rewrite lookup_insert_eq.
  - rewrite (bool_decide_eq_false_2 (pkBytes fe = k)), app_nil_r by done. rewrite <- (IH' k).
    destruct (last (List.filter (fun x => bool_decide (pkBytes x = pkBytes fe)) fs)) as [ex|];
      [destruct (sc_version ex <? sc_version fe)|];
      rewrite ?lookup_insert_ne by done; done.
Qed.

(** The entries of a group ascend by version. *)
Lemma scan_list_sorted tx l k :
  om_sorted l ->
  StronglySorted (fun x y => sc_version x < sc_version y)
    (List.filter (fun x => bool_decide (pkBytes x = k)) (scan_list tx l)).
Proof.
  intros Hs. destruct (List.filter _ _) as [|x xs] eqn:E; [constructor|].
  assert (In x (scan_list tx l) /\ pkBytes x = k) as [Hin Hk].
  { pose proof (proj1 (filter_In (fun x => bool_decide (pkBytes x = k)) x (scan_list tx l))) as Hf.
    rewrite E in Hf. destruct Hf as [? ?%bool_decide_eq_true]; [by left|done]. }
  apply (omap_group_row (scan_entry tx) pkBytes) in Hin as (pk & Hpk & Hx);
    [|intros; by eapply scan_entry_key].
  rewrite <- E. subst k. rewrite Hx, scan_group by done. clear E Hx.
  pose proof (versions_sorted T HT l pk Hs) as Hv. apply (filter_sorted _ (fun r => version r <=? tx)) in Hv.
  induction Hv as [|r h Hv IH Hr]; [constructor|]. constructor; [done|]. by apply Forall_map.
Qed.

Definition scan_groups tx l : gmap (list byte) scanned := foldl group_latest ∅ (scan_list tx l).

Lemma scan_groups_pk tx l pk :
  om_sorted l -> pk_ok T pk ->
  scan_groups tx l !! row_prefix T pk = option_map (scanned_of pk) (latest tx (versions T l pk)).
Proof.
  intros Hs Hpk. unfold scan_groups. rewrite group_latest_spec by (intros k'; by apply scan_list_sorted).
  rewrite scan_group by done. apply last_map.
Qed.

Lemma scan_groups_row tx l k g :
  om_sorted l -> scan_groups tx l !! k = Some g ->
  exists pk r, pk_ok T pk /\ k = row_prefix T pk /\ latest tx (versions T l pk) = Some r /\ g = scanned_of pk r.
Proof.
  intros Hs Hg. pose proof Hg as Hg0. unfold scan_groups in Hg. rewrite group_latest_spec in Hg by (intros k'; by apply scan_list_sorted).
  apply last_Some_elem_of, list_elem_of_In, filter_In in Hg as [Hin Hk%bool_decide_eq_true].
  apply (omap_group_row (scan_entry tx) pkBytes) in Hin as (pk & Hpk & Hx);
    [|intros; by eapply scan_entry_key].
  rewrite Hx in Hk. subst k. rewrite scan_groups_pk in Hg0 by done.
  destruct (latest tx (versions T l pk)) as [r|] eqn:Er; [|done]. injection Hg0 as <-. by exists pk, r.
Qed.

(** The row of a group is the visible row. *)
Lemma group_row_visible l d tx pk r :
  table_rep T l d -> latest tx (versions T l pk) = Some r -> pk_ok T pk ->
  group_row T (scanned_of pk r) = option_map (mkRow (row_prefix T pk)) (visible tx (d pk)).
Proof.
  intros [Hv Hd] Hr Hpk. rewrite <- Hd, visible_decoded, Hr. unfold group_row, decoded. cbn [sc_data scanned_of snd pkBytes].
  assert (is_ok (decodeEnterpriseValue T (ver_data r)) = true) as Hok.
  { apply last_Some_elem_of, list_elem_of_In, filter_In in Hr as [Hin _].
    apply (In_versions T HT) in Hin as (_ & Hu & Hin). eapply Hv; [exact Hin|by apply row_of_key]. }
  destruct (decode_flags T _ Hok) as [[Hh ->]|[Hh [vals ->]]].
  - by rewrite bool_decide_eq_true_2.
  - by rewrite bool_decide_eq_false_2.
Qed.
End entries.

Section scan.
Context {S E : Type} `{KvLaws S E} `{GoRuntimeLaws} (T : Schema) (HT : schema_ok T).
Implicit Types (l : list (list byte * list byte)) (tx : Z).

Definition row_lt (x y : visibleRow) : Prop := bytes_lt (row_pk x) (row_pk y).

Lemma sort_rows_strict vs :
  List.NoDup (map row_pk vs) -> StronglySorted row_lt (sort_Slice row_before vs).
Proof.
  intros Hnd. assert (List.NoDup (map row_pk (sort_Slice row_before vs))) as Hnd'.
  { eapply Permutation_NoDup; [|exact Hnd]. apply Permutation_map. symmetry. apply sort_Slice_perm. }
  pose proof (sort_Slice_sorted visibleRow row_before vs (strict_weak_bytes row_pk)) as Hs.
  induction Hs as [|x xs Hs IH Hx]; [constructor|]. cbn in Hnd'. apply List.NoDup_cons_iff in Hnd' as [Hnin Hnd'].
  constructor; [by apply IH|]. rewrite Forall_forall in *. intros y Hy. specialize (Hx y Hy).
  unfold not_after, row_before in Hx. apply bool_decide_eq_false, bytes_not_lt in Hx.
  unfold row_lt, bytes_lt. unfold bytes_le in Hx. destruct (bytes_compare (row_pk x) (row_pk y)) eqn:Ec; try done.
  apply bytes_compare_eq in Ec. exfalso. apply Hnin. rewrite Ec. by apply in_map, list_elem_of_In.
Qed.

(** The rows the loop over the groups collects, in any order. *)
Definition collected (groups : gmap (list byte) scanned) : list visibleRow :=
  omap (fun g => group_row T (snd g)) (map_order (map_to_list groups)).

Lemma group_row_pk g r : group_row T g = Some r -> row_pk r = pkBytes g.
Proof.
  unfold group_row. case_bool_decide; [done|]. destruct (decodeEnterpriseValue _ _) as [[]|]; [|done].
  by intros [= <-].
Qed.

Lemma collected_NoDup groups :
  (forall k g, groups !! k = Some g -> pkBytes g = k) -> List.NoDup (map row_pk (collected groups)).
Proof.
  intros Hk. unfold collected.
  assert (List.NoDup (map fst (map_order (map_to_list groups)))) as Hnd.
  { eapply Permutation_NoDup; [apply Permutation_map; symmetry; apply map_order_perm|].
    apply NoDup_ListNoDup, NoDup_fst_map_to_list. }
  assert (forall k g, In (k, g) (map_order (map_to_list groups)) -> pkBytes g = k) as Hin.
  { intros k g Hg%map_order_In%list_elem_of_In%elem_of_map_to_list. by apply Hk. }
  induction (map_order (map_to_list groups)) as [|[k g] gs IH]; [constructor|].
  cbn in Hnd. apply List.NoDup_cons_iff in Hnd as [Hnin Hnd].
  specialize (IH Hnd (fun k g Hg => Hin k g (or_intror Hg))). cbn.
  destruct (group_row T g) as [r|] eqn:Er; [|done]. cbn. constructor; [|done].
  rewrite (group_row_pk _ _ Er), (Hin k g) by by left. intros (r' & Er' & Hr')%in_map_iff. apply Hnin.
  apply list_elem_of_In, list_elem_of_omap in Hr' as ([k' g'] & Hg' & Eg'). cbn in Eg'.
  apply list_elem_of_In in Hg'. rewrite <- Er', (group_row_pk _ _ Eg'), (Hin k' g') by by right.
  by apply (in_map fst _ _ Hg').
Qed.

Lemma scan_run s n l d tx :
  kv_rel s n l -> table_rep T l d ->
  exists s' rs, Scan T tx s = (Ok (mkRows rs 0 None), s') /\ kv_rel s' n l /\
    StronglySorted row_lt rs /\
    forall k vals, In (mkRow k vals) rs <->
      exists pk, pk_ok T pk /\ k = row_prefix T pk /\ visible tx (d pk) = Some vals.
Proof.
  intros Hr Hd. pose proof (kv_rel_sorted _ _ _ Hr) as Hs. unfold Scan.
  destruct (kv_scan_law s n l (fst (table_bounds T)) (snd (table_bounds T)) Hr) as (s' & Es & Hr').
  unfold table_bounds at 1. cbn zeta. exists s', (sort_Slice row_before (collected (scan_groups T tx l))).
  split.
  { erewrite bind_ok by (apply store_run; exact Es). unfold collected, scan_groups.
    by rewrite <- (filter_visible_table T HT). }
  split; [done|]. split.
  { apply sort_rows_strict, collected_NoDup. intros k g Hg.
    by apply (scan_groups_row T HT) in Hg as (pk & r & _ & -> & _ & ->). }
  intros k vals. rewrite sort_Slice_In. unfold collected. rewrite <- list_elem_of_In, list_elem_of_omap. split.
  - intros ([k' g] & Hg & Er). apply list_elem_of_In, map_order_In, list_elem_of_In, elem_of_map_to_list in Hg.
    cbn [snd] in Er. apply (scan_groups_row T HT) in Hg as (pk & r & Hpk & -> & Hl & ->); [|done].
    rewrite (group_row_visible T HT l d tx pk r Hd Hl Hpk) in Er.
    destruct (visible tx (d pk)) as [vals'|] eqn:Ev; [|done]. injection Er as <- <-. by exists pk.
  - intros (pk & Hpk & -> & Hv). pose proof (scan_groups_pk T HT tx l pk Hs Hpk) as Hg.
    destruct (latest tx (versions T l pk)) as [r|] eqn:El.
    2: { destruct Hd as [_ Hd]. by rewrite <- Hd, visible_decoded, El in Hv. }
    exists (row_prefix T pk, scanned_of T pk r). split.
    + apply list_elem_of_In, map_order_In, list_elem_of_In. by apply elem_of_map_to_list.
    + cbn [snd]. by rewrite (group_row_visible T HT l d tx pk r Hd El Hpk), Hv.
Qed.

(** ** The iterator *)

(** What a client collects by calling [Next] until it returns false. *)
Fixpoint drain (n : nat) (r : enterpriseRows) : list (option (list GoAny)) :=
  match n with
  | O => []
  | Datatypes.S n' => let '(more, r') := Next r in if more then Values r' :: drain n' r' else []
  end.

Lemma drain_from n rs i cv :
  (length rs <= n + Z.to_nat i)%nat -> 0 <= i ->
  drain n (mkRows rs i cv) = map (fun r => Some (row_values r)) (drop (Z.to_nat (i + 1)) rs).
Proof.
  revert i cv. induction n as [|n IH]; intros i cv Hn Hi.
  { cbn. by rewrite drop_ge by lia. }
  cbn [drain]. unfold Next. cbn [idx rows curVals].
  destruct (Z.leb_spec (zlen rs) (i + 1)) as [Hl|Hl]; unfold zlen in Hl.
  { by rewrite drop_ge by lia. }
  rewrite IH by lia. unfold Values. cbn [curVals].
  destruct (rs !! Z.to_nat (i + 1)) as [r|] eqn:Er; [|apply lookup_ge_None in Er; lia].
  rewrite (drop_S rs r (Z.to_nat (i + 1))) by done.
  cbn. by replace (Z.to_nat (i + 1 + 1)) with (Datatypes.S (Z.to_nat (i + 1))) by lia.
Qed.
End scan.
