(* ===== verification/HeapVacuum.v ===== *)
(** [Vacuum] deletes, of every row, the versions that [vacuumed] drops, and nothing
    else; no transaction at or after the bound can tell. *)

From Stdlib Require Import ZArith Lia Sorted Permutation.
From stdpp Require Import gmap sorting.
From S2P Require Import Prelude OrdMap Key RowKey KvNode Monad KvSpec GoRuntime HeapValue Heap HeapRows HeapProof HeapScan.
Open Scope Z_scope.

(** ** Grouping *)

Section groups.
Context {A : Type} (key : A -> list byte).

Definition group_add (m : gmap (list byte) (list A)) (x : A) : gmap (list byte) (list A) :=
  <[key x := default [] (m !! key x) ++ [x]]> m.

Lemma group_add_spec xs k :
  foldl group_add ∅ xs !! k
  = match List.filter (fun x => bool_decide (key x = k)) xs with [] => None | g => Some g end.
Proof.
  induction xs as [|x xs IH] using rev_ind; [done|]. rewrite foldl_app, List.filter_app. cbn [foldl List.filter].
  unfold group_add at 1. destruct (decide (key x = k)) as [<-|Hne].
  - rewrite lookup_insert_eq, bool_decide_eq_true_2, IH by done. by destruct (List.filter _ xs).
  - rewrite lookup_insert_ne, bool_decide_eq_false_2, app_nil_r by done. exact IH.
Qed.

Lemma group_add_count xs :
  length (concat (map snd (map_to_list (foldl group_add ∅ xs)))) = length xs.
Proof.
  induction xs as [|x xs IH] using rev_ind; [done|]. rewrite foldl_app, length_app. cbn [foldl length].
  rewrite <- IH. set (m := foldl group_add ∅ xs). unfold group_add at 1.
  assert (forall m1 m2 : list (list byte * list A), Permutation m1 m2 ->
            length (concat (map snd m1)) = length (concat (map snd m2))) as Hp.
  { intros m1 m2 Hp. apply Permutation_length. induction Hp; cbn; [done|by apply Permutation_app_head| |by etransitivity].
    rewrite !app_assoc. apply Permutation_app_tail, Permutation_app_comm. }
  rewrite <- (insert_delete_eq m), (Hp _ _ (map_to_list_insert (delete (key x) m) (key x) _ (lookup_delete_eq m _))).
  cbn. rewrite !length_app. cbn. destruct (m !! key x) as [g|] eqn:Eg; cbn.
  - rewrite <- (Hp _ _ (map_to_list_delete m (key x) g Eg)). cbn. rewrite length_app. lia.
  - rewrite (delete_id m) by done. lia.
Qed.
End groups.

Section vacuum.
Context {S E : Type} `{KvLaws S E} `{GoRuntimeLaws} (T : Schema) (HT : schema_ok T).
Implicit Types (l : list (list byte * list byte)) (old : Z).

(** ** Which versions a group loses *)

Definition entry_of (pk : list Value) (r : rowVersion) : versionEntry :=
  mkVersionEntry (version r) (ver_data r) (row_key T pk (version r)).

Definition as_version (ve : versionEntry) : rowVersion := mkVersion (ve_version ve) (ve_data ve).

(** The keys the loop over a group deletes, in order. *)
Definition group_deletes old (group : list versionEntry) : list (list byte) :=
  let vs := sort_Slice ve_newer group in
  match List.find (fun ve => ve_version ve <=? old) vs with
  | None => []
  | Some highestOld =>
      let isTomb := bool_decide (head (ve_data highestOld) = Some FlagTombstone) in
      let hasNewer := existsb (fun ve => old <? ve_version ve) vs in
      map ve_keyBytes (List.filter (vacuums old isTomb hasNewer highestOld) vs)
  end.

Lemma filter_sublist_length {A} p (l : list A) : (length (List.filter p l) <= length l)%nat.
Proof. induction l as [|x l IH]; [done|]. cbn. destruct (p x); cbn; lia. Qed.

Lemma group_deletes_length old group : (length (group_deletes old group) <= length group)%nat.
Proof.
  unfold group_deletes. destruct (List.find _ _); [|cbn; lia].
  rewrite length_map, <- (Permutation_length (sort_Slice_perm _ ve_newer group)). apply filter_sublist_length.
Qed.

(** Deleting keys one by one. *)
Definition without (dl : list (list byte)) l : list (list byte * list byte) :=
  List.filter (fun e => negb (bool_decide (fst e ∈ dl))) l.

Lemma without_without d1 d2 l : without d2 (without d1 l) = without (d1 ++ d2) l.
Proof.
  unfold without. induction l as [|e l IH]; [done|]. cbn.
  assert (bool_decide (fst e ∈ d1 ++ d2) = bool_decide (fst e ∈ d1) || bool_decide (fst e ∈ d2)) as ->.
  { rewrite <- bool_decide_or. apply bool_decide_ext. apply elem_of_app. }
  destruct (bool_decide (fst e ∈ d1)); cbn; [done|].
  destruct (bool_decide (fst e ∈ d2)); cbn; by rewrite IH.
Qed.

Lemma without_nil l : without [] l = l.
Proof.
  unfold without. induction l as [|e l IH]; [done|]. cbn.
  rewrite bool_decide_eq_false_2; [cbn; by f_equal|]. intros []%elem_of_nil.
Qed.

Lemma key_delete_run s n l k :
  kv_rel s (Datatypes.S n) l ->
  exists s', ignore (store (kv_Delete (FromBytes k))) s = (Ok tt, s') /\ kv_rel s' n (without [k] l).
Proof.
  intros Hr. destruct (kv_delete_law s n l (FromBytes k) Hr) as (s' & Es & Hr'). exists s'.
  unfold ignore. rewrite (store_run _ _ _ _ Es). split; [done|]. cbn [data FromBytes EncodeBytes] in Hr'.
  rewrite om_del_filter in Hr' by by eapply kv_rel_sorted. unfold without.
  erewrite List.filter_ext; [exact Hr'|]. intros e. cbn. f_equal. apply bool_decide_ext. apply list_elem_of_singleton.
Qed.

Lemma group_loop_run s n l p vs :
  kv_rel s (length (List.filter p vs) + n)%nat l ->
  exists s', for_each vs (fun ve => if p ve : bool then ignore (store (kv_Delete (FromBytes (ve_keyBytes ve)))) else ret tt) s
      = (Ok tt, s') /\ kv_rel s' n (without (map ve_keyBytes (List.filter p vs)) l).
Proof.
  revert s l. induction vs as [|ve vs IH]; intros s l Hr; cbn [for_each].
  { exists s. split; [done|]. by rewrite without_nil. }
  cbn [List.filter] in *. destruct (p ve).
  - destruct (key_delete_run s (length (List.filter p vs) + n) l (ve_keyBytes ve) Hr) as (s1 & E1 & Hr1).
    erewrite bind_ok by exact E1. destruct (IH s1 _ Hr1) as (s2 & E2 & Hr2).
    exists s2. split; [exact E2|]. by rewrite without_without in Hr2.
  - rewrite bind_ret. by apply IH.
Qed.

Lemma vacuum_group_run s n l old group :
  kv_rel s (length (group_deletes old group) + n)%nat l ->
  exists s', vacuum_group old group s = (Ok tt, s') /\ kv_rel s' n (without (group_deletes old group) l).
Proof.
  unfold vacuum_group, group_deletes. destruct (List.find _ _) as [hi|].
  - rewrite length_map. apply group_loop_run.
  - intros Hr. exists s. split; [done|]. by rewrite without_nil.
Qed.

Lemma vacuum_loop_run s n l old (gs : list (list byte * list versionEntry)) :
  kv_rel s (length (concat (map snd gs)) + n)%nat l ->
  exists s', for_each gs (fun g => vacuum_group old (snd g)) s = (Ok tt, s') /\
    kv_rel s' n (without (concat (map (fun g => group_deletes old (snd g)) gs)) l).
Proof.
  revert s l. induction gs as [|g gs IH]; intros s l Hr; cbn [for_each map concat] in *.
  { exists s. split; [done|]. by rewrite without_nil. }
  destruct (vacuum_group_run s (length (concat (map snd gs)) + n) l old (snd g)) as (s1 & E1 & Hr1).
  { eapply kv_rel_weaken; [|exact Hr]. rewrite length_app. pose proof (group_deletes_length old (snd g)). lia. }
  erewrite bind_ok by exact E1. destruct (IH s1 _ Hr1) as (s2 & E2 & Hr2).
  exists s2. split; [exact E2|]. by rewrite without_without in Hr2.
Qed.

(** ** The groups of a table *)

Definition ve_group (ve : versionEntry) : list byte := extractPKPrefix (ve_keyBytes ve).

Definition ve_entry (v : Z) (k w : list byte) : option versionEntry := Some (mkVersionEntry v w k).

Definition ve_list l : list versionEntry :=
  omap (fun e => match row_of T (fst e) with Some (_, v) => ve_entry v (fst e) (snd e) | None => None end) l.

Definition table_groups l : gmap (list byte) (list versionEntry) := foldl (group_add ve_group) ∅ (ve_list l).

Lemma group_versions_table l : foldl (group_versions T) ∅ (table_entries T l) = table_groups l.
Proof.
  unfold table_groups, ve_list. rewrite <- (omap_table T HT ve_entry). generalize (table_entries T l) as es.
  assert (forall es m, foldl (group_versions T) m es = foldl (group_add ve_group) m
    (omap (fun e => match version_of T e with Some v => ve_entry v (data (eKey e)) (eValue e) | None => None end) es)) as Hg;
    [|intros es; apply Hg].
  induction es as [|e es IH]; intros m; [done|]. cbn. rewrite IH. unfold group_versions.
  by destruct (version_of T e).
Qed.

Lemma ve_entry_key pk v w x : ve_entry v (row_key T pk v) w = Some x -> ve_group x = row_prefix T pk.
Proof. intros [= <-]. apply extract_prefix. Qed.

Lemma ve_list_group l pk :
  pk_ok T pk ->
  List.filter (fun x => bool_decide (ve_group x = row_prefix T pk)) (ve_list l)
  = map (entry_of pk) (versions T l pk).
Proof.
  intros Hpk. unfold ve_list. rewrite (omap_group T HT ve_entry ve_group pk l Hpk)
    by (intros; by eapply ve_entry_key).
  induction (versions T l pk) as [|r h IH]; [done|]. cbn. by rewrite <- IH.
Qed.

Lemma table_groups_row l k g :
  table_groups l !! k = Some g ->
  exists pk, pk_ok T pk /\ k = row_prefix T pk /\ g = map (entry_of pk) (versions T l pk).
Proof.
  unfold table_groups. rewrite group_add_spec. intros Hg.
  assert (exists x, In x (List.filter (fun x => bool_decide (ve_group x = k)) (ve_list l))) as [x Hx].
  { destruct (List.filter _ _) as [|x xs]; [done|]. exists x. by left. }
  apply filter_In in Hx as [Hin Hk%bool_decide_eq_true].
  apply (omap_group_row T HT ve_entry ve_group) in Hin as (pk & Hpk & Hx); [|intros; by eapply ve_entry_key].
  exists pk. split; [done|]. rewrite Hx in Hk. split; [done|]. subst k.
  rewrite ve_list_group in Hg by done. by destruct (map _ _); [|injection Hg].
Qed.

Definition all_deletes old l : list (list byte) :=
  concat (map (fun g => group_deletes old (snd g)) (map_order (map_to_list (table_groups l)))).

Lemma group_deletes_In old group k :
  k ∈ group_deletes old group -> exists ve, In ve group /\ ve_keyBytes ve = k.
Proof.
  unfold group_deletes. destruct (List.find _ _); [|by intros []%elem_of_nil].
  intros (ve & <- & Hin)%list_elem_of_In%in_map_iff. apply filter_In in Hin as [Hin _].
  exists ve. split; [by apply (sort_Slice_In ve_newer)|done].
Qed.

(** A version is deleted if its own group says so. *)
Lemma all_deletes_In old l pk v :
  pk_ok T pk -> u64 v ->
  row_key T pk v ∈ all_deletes old l <->
  row_key T pk v ∈ group_deletes old (map (entry_of pk) (versions T l pk)).
Proof.
  intros Hpk Hv. unfold all_deletes. rewrite list_elem_of_In, in_concat. split.
  - intros (dl & ([k g] & <- & Hg)%in_map_iff & Hin). cbn [snd] in Hin.
    apply map_order_In, list_elem_of_In, elem_of_map_to_list in Hg.
    apply table_groups_row in Hg as (pk' & Hpk' & -> & ->).
    apply list_elem_of_In in Hin. pose proof Hin as Hin0.
    apply group_deletes_In in Hin0 as (ve & (r & <- & Hr)%in_map_iff & Ek). cbn in Ek.
    apply (In_versions T HT) in Hr as (_ & Hu & _).
    assert (row_of T (row_key T pk v) = Some (pk', version r)) as Erow by (rewrite <- Ek; by apply row_of_key).
    rewrite row_of_key in Erow by done. injection Erow as -> _. done.
  - intros Hin. eexists. split; [|by apply list_elem_of_In]. apply in_map_iff.
    exists (row_prefix T pk, map (entry_of pk) (versions T l pk)). split; [done|].
    apply map_order_In, list_elem_of_In, elem_of_map_to_list. unfold table_groups.
    rewrite group_add_spec, ve_list_group by done.
    destruct (map (entry_of pk) (versions T l pk)); [|done].
    unfold group_deletes in Hin. assert (sort_Slice ve_newer [] = []) as Es.
    { apply Permutation_nil. symmetry. apply (sort_Slice_perm _ ve_newer []). }
    rewrite Es in Hin. by apply elem_of_nil in Hin.
Qed.

(** ** One row's versions *)

Lemma sorted_rev {A} (R : A -> A -> Prop) xs :
  StronglySorted R xs -> StronglySorted (fun x y => R y x) (rev xs).
Proof.
  induction 1 as [|x xs Hs IH Hx]; [constructor|]. cbn. apply StronglySorted_app_2; [|done|repeat constructor].
  intros y z Hy Hz. apply list_elem_of_singleton in Hz as ->.
  rewrite Forall_forall in Hx. apply Hx. by apply list_elem_of_In, in_rev, list_elem_of_In.
Qed.

Lemma sorted_weaken {A} (R Q : A -> A -> Prop) xs :
  (forall x y, R x y -> Q x y) -> StronglySorted R xs -> StronglySorted Q xs.
Proof. intros HRQ. induction 1 as [|x xs Hs IH Hx]; constructor; [done|].
  rewrite Forall_forall in *. auto. Qed.

Lemma sort_group pk h :
  StronglySorted older h -> sort_Slice ve_newer (map (entry_of pk) h) = rev (map (entry_of pk) h).
Proof.
  intros Hs. assert (StronglySorted (fun x y => ve_version x < ve_version y) (map (entry_of pk) h)) as Hs'.
  { induction Hs as [|r h Hs IH Hr]; [constructor|]. constructor; [done|]. by apply Forall_map. }
  apply sort_Slice_unique; [apply strict_weak_gt|apply Permutation_rev| |].
  - eapply sorted_weaken; [|by apply sorted_rev]. intros x y Hlt. cbn in Hlt. apply Z.ltb_ge. lia.
  - intros x y Hx%in_rev Hy%in_rev Hxy%Z.ltb_ge Hyx%Z.ltb_ge.
    assert (ve_version x = ve_version y) as Ev by lia. clear Hxy Hyx Hs.
    induction Hs' as [|z zs Hs IH Hz]; [done|]. rewrite Forall_forall in Hz.
    destruct Hx as [->|Hx], Hy as [->|Hy]; [done| | |by apply IH].
    + specialize (Hz y ltac:(by apply list_elem_of_In)). lia.
    + specialize (Hz x ltac:(by apply list_elem_of_In)). lia.
Qed.

Lemma find_rev {A} (p : A -> bool) xs : List.find p (rev xs) = last (List.filter p xs).
Proof.
  induction xs as [|x xs IH] using rev_ind; [done|]. rewrite rev_app_distr, List.filter_app. cbn.
  destruct (p x); [by rewrite last_snoc|]. by rewrite app_nil_r.
Qed.

Lemma existsb_rev {A} (p : A -> bool) xs : existsb p (rev xs) = existsb p xs.
Proof.
  apply eq_true_iff_eq. rewrite !existsb_exists. split; intros (x & Hx & Hp); exists x; (split; [|done]).
  - by apply in_rev.
  - by apply -> in_rev.
Qed.

(** What the loop over the group of a row deletes. *)
Definition row_deletes old (h : list rowVersion) (r : rowVersion) : bool :=
  match latest old h with
  | None => false
  | Some hi =>
      (version r <=? old) &&
      (if bool_decide (head (ver_data hi) = Some FlagTombstone)
       then negb (existsb (fun x => old <? version x) h) else version r <? version hi)
  end.

Lemma group_deletes_row old pk h r :
  pk_ok T pk -> StronglySorted older h -> (forall x, In x h -> u64 (version x)) -> In r h ->
  bool_decide (row_key T pk (version r) ∈ group_deletes old (map (entry_of pk) h)) = row_deletes old h r.
Proof.
  intros Hpk Hs Hu Hr. unfold group_deletes, row_deletes. rewrite sort_group by done.
  rewrite find_rev, filter_map_swap, last_map, existsb_rev, existsb_map. cbn [ve_version entry_of].
  fold (latest old h). destruct (latest old h) as [hi|] eqn:El; cbn [option_map].
  2: { by rewrite bool_decide_eq_false_2 by by intros []%elem_of_nil. }
  cbn [ve_version ve_data entry_of].
  set (tomb := bool_decide (head (ver_data hi) = _)). set (newer_ := existsb _ h).
  assert (forall x, vacuums old tomb newer_ (entry_of pk hi) (entry_of pk x)
    = (version x <=? old) && (if tomb then negb newer_ else version x <? version hi)) as Hv.
  { intros x. unfold vacuums. cbn [ve_version entry_of]. rewrite Z.ltb_antisym.
    destruct (version x <=? old); [|done]. cbn. by destruct tomb; cbn; rewrite ?orb_false_r. }
  rewrite <- Hv. apply eq_true_iff_eq. rewrite bool_decide_eq_true, list_elem_of_In, in_map_iff.
  split.
  - intros (ve & Ek & Hin). apply filter_In in Hin as [Hin Hp]. apply in_rev, in_map_iff in Hin as (x & <- & Hx).
    cbn in Ek. pose proof (f_equal (row_of T) Ek) as Erow. rewrite !row_of_key in Erow by auto.
    injection Erow as Erow. rewrite Hv in Hp |- *. by rewrite <- Erow.
  - intros Hp. exists (entry_of pk r). split; [done|]. apply filter_In. split; [|done].
    by apply -> in_rev; apply in_map.
Qed.

Lemma without_versions old l pk :
  om_sorted l -> pk_ok T pk ->
  versions T (without (all_deletes old l) l) pk
  = List.filter (fun r => negb (row_deletes old (versions T l pk) r)) (versions T l pk).
Proof.
  intros Hs Hpk. unfold without. apply (versions_filter T HT). intros r Hr. cbn [fst]. f_equal.
  pose proof Hr as Hr0. apply (In_versions T HT) in Hr0 as (_ & Hu & _).
  rewrite <- (group_deletes_row old pk); [|done|by apply versions_sorted| |done].
  - apply bool_decide_ext. by apply all_deletes_In.
  - by intros x (_ & ? & _)%(In_versions T HT).
Qed.

Lemma filter_none {A} (p : A -> bool) xs : (forall x, In x xs -> p x = false) -> List.filter p xs = [].
Proof.
  induction xs as [|x xs IH]; intros Hp; [done|]. cbn. rewrite Hp by by left. apply IH. intros y Hy. apply Hp. by right.
Qed.

(** The histories afterwards. *)
Lemma row_deletes_vacuumed old h :
  (forall r, In r h -> is_ok (decodeEnterpriseValue T (ver_data r)) = true) ->
  map (decoded T) (List.filter (fun r => negb (row_deletes old h r)) h) = vacuumed old (map (decoded T) h).
Proof.
  intros Hok. unfold vacuumed. rewrite filter_map_swap, last_map.
  change (fun x => fst (decoded T x) <=? old) with (fun r => version r <=? old). fold (latest old h).
  unfold row_deletes. destruct (latest old h) as [hi|] eqn:El; cbn [option_map].
  2: { f_equal. by apply forallb_filter_id, forallb_forall. }
  apply last_Some_elem_of, list_elem_of_In, filter_In in El as [Hin Hle%Z.leb_le].
  unfold decoded at 2. destruct (decode_flags T _ (Hok hi Hin)) as [[Hh ->]|[Hh [vals ->]]].
  - rewrite (bool_decide_eq_true_2 (head (ver_data hi) = _)) by done. rewrite existsb_map.
    change (fun x => old <? fst (decoded T x)) with (fun x => old <? version x).
    destruct (existsb _ h) eqn:Ex; cbn [negb].
    + f_equal. apply forallb_filter_id, forallb_forall. intros r _. by rewrite andb_false_r.
    + rewrite filter_none; [done|]. intros r Hr.
      rewrite andb_true_r. apply negb_false_iff, Z.leb_le, Z.ltb_ge.
      rewrite <- not_true_iff_false in Ex. apply not_true_iff_false. intros Hlt. apply Ex, existsb_exists. by exists r.
  - rewrite (bool_decide_eq_false_2 (head (ver_data hi) = _)) by done. rewrite filter_map_swap. f_equal.
    apply List.filter_ext. intros r. cbn [fst decoded].
    destruct (Z.leb_spec (version r) old), (Z.ltb_spec (version r) (version hi)), (Z.leb_spec (version hi) (version r));
      cbn; lia.
Qed.

Lemma without_rep old l d :
  om_sorted l -> table_rep T l d -> table_rep T (without (all_deletes old l) l) (fun pk => vacuumed old (d pk)).
Proof.
  intros Hs [Hv Hd]. split.
  - intros k w pk v Hin. apply filter_In in Hin as [Hin _]. by apply Hv.
  - intros pk. destruct (versions T l pk) as [|r0 h0] eqn:Eh.
    + rewrite <- Hd, Eh. cbn. destruct (versions T (without _ l) pk) as [|r h] eqn:E2; [done|]. exfalso.
      assert (In r (versions T (without (all_deletes old l) l) pk)) as Hin by (rewrite E2; by left).
      apply (In_versions T HT) in Hin as (Hpk & Hu & Hin). apply filter_In in Hin as [Hin _].
      assert (In r (versions T l pk)) as Hin'; [|by rewrite Eh in Hin'].
      by apply (In_versions T HT).
    + assert (pk_ok T pk) as Hpk.
      { assert (In r0 (versions T l pk)) as Hin by (rewrite Eh; by left). by apply (In_versions T HT) in Hin as [? _]. }
      rewrite without_versions by done. rewrite row_deletes_vacuumed; [by rewrite Hd|].
      intros r Hr. apply (In_versions T HT) in Hr as (_ & Hu & Hin). eapply Hv; [exact Hin|by apply row_of_key].
Qed.

Lemma without_others old l : others_kept T l (without (all_deletes old l) l).
Proof.
  intros T2 d2 HT2 Hne [Hv Hd]. split.
  - intros k w pk v Hin. apply filter_In in Hin as [Hin _]. by apply Hv.
  - intros pk. rewrite <- Hd. f_equal. unfold without.
    rewrite (versions_filter T2 HT2 _ (fun _ => true)).
    + apply forallb_filter_id, forallb_forall. done.
    + intros r Hr. apply negb_true_iff, bool_decide_eq_false. intros Hin. cbn [fst] in Hin.
      unfold all_deletes in Hin. apply list_elem_of_In, in_concat in Hin as (dl & ([k g] & <- & Hg)%in_map_iff & Hin).
      apply map_order_In, list_elem_of_In, elem_of_map_to_list in Hg.
      apply table_groups_row in Hg as (pk' & Hpk' & -> & ->). cbn [snd] in Hin.
      apply list_elem_of_In, group_deletes_In in Hin as (ve & (r' & <- & Hr')%in_map_iff & Ek). cbn in Ek.
      apply (In_versions T2 HT2) in Hr as (Hpk & Hu & _).
      pose proof (row_of_key T2 HT2 pk (version r) Hpk Hu) as Erow. rewrite <- Ek in Erow.
      unfold row_key, row_prefix in Erow. rewrite <- app_assoc in Erow.
      rewrite (row_of_other T2) in Erow; [done|apply HT|done].
Qed.

(** ** Vacuum *)

Lemma ve_list_length l : (length (ve_list l) <= length l)%nat.
Proof.
  unfold ve_list. induction l as [|e l IH]; [done|]. cbn. destruct (row_of T (fst e)) as [[pk v]|]; cbn; lia.
Qed.

Lemma vacuum_run s n l d old :
  kv_rel s (length l + n)%nat l -> table_rep T l d ->
  exists s' l', Vacuum T old s = (Ok tt, s') /\ kv_rel s' n l' /\
    table_rep T l' (fun pk => vacuumed old (d pk)) /\ others_kept T l l'.
Proof.
  intros Hr Hd. pose proof (kv_rel_sorted _ _ _ Hr) as Hs. unfold Vacuum.
  destruct (kv_scan_law s _ l (fst (table_bounds T)) (snd (table_bounds T)) Hr) as (s1 & E1 & Hr1).
  unfold table_bounds at 1. cbn zeta. erewrite bind_ok by (apply store_run; exact E1).
  change (map to_entry _) with (table_entries T l). rewrite group_versions_table.
  destruct (vacuum_loop_run s1 n l old (map_order (map_to_list (table_groups l)))) as (s2 & E2 & Hr2).
  { eapply kv_rel_weaken; [|exact Hr1]. apply Nat.add_le_mono_r. transitivity (length (ve_list l)); [|apply ve_list_length].
    rewrite <- (group_add_count ve_group (ve_list l)). fold (table_groups l).
    rewrite !length_concat, !map_map. apply Nat.eq_le_incl, Permutation_list_sum, Permutation_map, map_order_perm. }
  exists s2, (without (all_deletes old l) l). split; [exact E2|]. split; [exact Hr2|].
  split; [by apply without_rep|apply without_others].
Qed.
End vacuum.
