(* ===== verification/HeapSpec.v ===== *)
(** What the tables of [Heap.v] promise: any run of requests on any number of tables
    over one store gives the answers of independent multi-version maps; reads are
    snapshots; scans are sorted and complete; vacuum is invisible to later readers;
    and over the B+ tree and the file pager the tables survive a crash. *)

From Stdlib Require Import ZArith Lia Sorted.
From stdpp Require Import gmap sorting.
From S2P Require Import Prelude OrdMap Key RowKey Page Pager PagerSpec PagerSim PagerRefine PagerCrash KvNode Monad.
From S2P Require Import BTree BTreeRep BTreeStep BTreeProof BTreeSpec KvSpec KvTree GoRuntime HeapValue Heap HeapRows.
From S2P Require Import HeapProof HeapScan HeapVacuum.
Open Scope Z_scope.
#[local] Opaque walk_bound.

(** * Runs of requests on several tables *)

Inductive table_request : Type :=
| TInsert (tx : Z) (values : row)
| TUpdate (tx : Z) (pkValues : list GoAny) (values : row)
| TDelete (tx : Z) (pkValues : list GoAny)
| TGet (tx : Z) (pkValues : list GoAny).

Inductive table_answer (E : Type) : Type :=
| TWritten (r : res (table_err E) unit)
| TRow (r : res (table_err E) row).
Arguments TWritten {E} r.
Arguments TRow {E} r.

Section serve.
Context {S E : Type} `{KvOps S E} `{GoRuntime}.

Definition table_serve (T : Schema) (q : table_request) (s : S) : table_answer E * S :=
  match q with
  | TInsert tx values => let '(r, s') := Heap.Insert T tx values s in (TWritten r, s')
  | TUpdate tx pk values => let '(r, s') := Update T tx pk values s in (TWritten r, s')
  | TDelete tx pk => let '(r, s') := Heap.Delete T tx pk s in (TWritten r, s')
  | TGet tx pk => let '(r, s') := Heap.Get T tx pk s in (TRow r, s')
  end.

Fixpoint tables_serve (qs : list (Schema * table_request)) (s : S) : list (table_answer E) * S :=
  match qs with
  | [] => ([], s)
  | (T, q) :: qs' =>
      let '(a, s1) := table_serve T q s in
      let '(l, s2) := tables_serve qs' s1 in (a :: l, s2)
  end.

(** The same on the histories: each table has its own. *)
Definition db_serve (T : Schema) (q : table_request) (d : db) : table_answer E * db :=
  match q with
  | TInsert tx values => let '(r, d') := db_insert T tx values d in (TWritten r, d')
  | TUpdate tx pk values => let '(r, d') := db_update T tx pk values d in (TWritten r, d')
  | TDelete tx pk => let '(r, d') := db_delete T tx pk d in (TWritten r, d')
  | TGet tx pk => (TRow (db_get T tx pk d), d)
  end.

Definition dbs : Type := Z -> db.
Definition dbs_put (t : Z) (d : db) (ds : dbs) : dbs := fun t' => if decide (t' = t) then d else ds t'.

Fixpoint dbs_serve (qs : list (Schema * table_request)) (ds : dbs) : list (table_answer E) * dbs :=
  match qs with
  | [] => ([], ds)
  | (T, q) :: qs' =>
      let '(a, d') := db_serve T q (ds (TableID T)) in
      let '(l, ds') := dbs_serve qs' (dbs_put (TableID T) d' ds) in (a :: l, ds')
  end.
End serve.

(** Requests with a transaction number and key values that fit their Go types, strings
    in keys without NUL, and rows whose encoding has at most [MaxValSize] bytes. *)
Definition request_ok (T : Schema) (q : table_request) : Prop :=
  match q with
  | TInsert tx values =>
      u64 tx /\ row_request T values /\ Forall key_cell (map (value_at values) (PKIndices T))
  | TUpdate tx pk values => u64 tx /\ row_request T values /\ Forall key_cell pk
  | TDelete tx pk => u64 tx /\ Forall key_cell pk
  | TGet tx pk => Forall key_cell pk
  end.

(** The tables, told apart by their numbers; their primary keys have no [KindBytes]
    column. *)
Definition tables_ok (tables : list Schema) : Prop :=
  Forall schema_ok tables /\
  forall T1 T2, In T1 tables -> In T2 tables -> TableID T1 = TableID T2 -> T1 = T2.

Definition tables_rep (tables : list Schema) (l : list (list byte * list byte)) (ds : dbs) : Prop :=
  forall T, In T tables -> table_rep T l (ds (TableID T)).

Section run.
Context {S E : Type} `{KvLaws S E} `{GoRuntimeLaws}.

Lemma table_serve_run T q s n l d :
  schema_ok T -> request_ok T q -> kv_rel s (Datatypes.S n) l -> table_rep T l d ->
  exists s' l', table_serve T q s = (fst (db_serve T q d), s') /\ kv_rel s' n l' /\
    table_rep T l' (snd (db_serve T q d)) /\ others_kept T l l'.
Proof.
  intros HT Hq Hr Hd. destruct q as [tx values|tx pk values|tx pk|tx pk]; cbn [table_serve db_serve request_ok] in *.
  - destruct Hq as (Hu & Hv & Hf).
    destruct (insert_run T HT s n l d tx values Hr Hd Hu Hv Hf) as (s' & l' & Es & Hr' & Hd' & Ho).
    exists s', l'. rewrite Es. destruct (db_insert T tx values d). done.
  - destruct Hq as (Hu & Hv & Hf).
    destruct (update_run T HT s n l d tx pk values Hr Hd Hu Hv Hf) as (s' & l' & Es & Hr' & Hd' & Ho).
    exists s', l'. rewrite Es. destruct (db_update T tx pk values d). done.
  - destruct Hq as (Hu & Hf).
    destruct (row_delete_run T HT s n l d tx pk Hr Hd Hu Hf) as (s' & l' & Es & Hr' & Hd' & Ho).
    exists s', l'. rewrite Es. destruct (db_delete T tx pk d). done.
  - destruct (get_run T HT s _ l d tx pk Hr Hd Hq) as (s' & Es & Hr'). exists s', l. rewrite Es.
    split; [done|]. split; [eapply kv_rel_weaken; [|exact Hr']; lia|]. split; [done|apply others_kept_refl].
Qed.

Lemma tables_run tables qs s n l ds :
  tables_ok tables -> Forall (fun x => In (fst x) tables /\ request_ok (fst x) (snd x)) qs ->
  kv_rel s (length qs + n)%nat l -> tables_rep tables l ds ->
  exists s' l', tables_serve qs s = (fst (dbs_serve qs ds), s') /\ kv_rel s' n l' /\
    tables_rep tables l' (snd (dbs_serve qs ds)).
Proof.
  intros [Hok Hinj]. revert s l ds. induction qs as [|[T q] qs IH]; intros s l ds Hqs Hr Hd; [by exists s, l|].
  inversion Hqs as [|? ? [HT Hq] Hqs']; subst. cbn [fst snd] in *. cbn [tables_serve dbs_serve length] in *.
  rewrite Forall_forall in Hok. pose proof (Hok T ltac:(by apply list_elem_of_In)) as HTok.
  destruct (table_serve_run T q s (length qs + n) l (ds (TableID T)) HTok Hq Hr (Hd T HT))
    as (s1 & l1 & E1 & Hr1 & Hd1 & Ho). rewrite E1.
  destruct (db_serve T q (ds (TableID T))) as [a d'] eqn:Ed. cbn [fst snd] in *.
  destruct (IH s1 l1 (dbs_put (TableID T) d' ds) Hqs' Hr1) as (s2 & l2 & E2 & Hr2 & Hd2).
  { intros T2 HT2. unfold dbs_put. destruct (decide (TableID T2 = TableID T)) as [Ei|Hne].
    - by rewrite (Hinj T2 T HT2 HT Ei).
    - apply Ho; [apply Hok; by apply list_elem_of_In|done|by apply Hd]. }
  exists s2, l2. rewrite E2. destruct (dbs_serve qs _) as [rs ds']. done.
Qed.

(** C2: any interleaving of Insert, Update, Delete and Get requests on any number of
    tables in one store gets exactly the answers, errors included, of independent
    multi-version maps: conflict, duplicate and not-found checks, key and value
    validation, and no table sees another's rows.  This is for tables without [KindBytes]
    columns in their primary key and for requests with strings without NUL in their keys
    and rows of at most 512 encoded bytes: [bytes_keys_overlap], [nul_keys_overlap] and
    [BTreeSpec.set_loses_large_value] show other answers without these limits. *)
Theorem heap_run_refines tables qs s n l ds :
  tables_ok tables -> Forall (fun x => In (fst x) tables /\ request_ok (fst x) (snd x)) qs ->
  kv_rel s (length qs + n)%nat l -> tables_rep tables l ds ->
  exists s' l', tables_serve qs s = (fst (dbs_serve qs ds), s') /\ kv_rel s' n l' /\
    tables_rep tables l' (snd (dbs_serve qs ds)).
Proof. apply tables_run. Qed.

(** ** Snapshots *)

Lemma visible_append tx tx' r h :
  visible tx' (h ++ [(tx, r)]) = if tx <=? tx' then r else visible tx' h.
Proof.
  unfold visible. rewrite List.filter_app. cbn [List.filter fst]. destruct (tx <=? tx').
  - by rewrite last_snoc.
  - by rewrite app_nil_r.
Qed.

(** What a row looks like to a transaction, as [Get] answers. *)
Definition read_answer (r : option row) : res (table_err E) row :=
  match r with Some vals => Ok vals | None => Err (HeapErr ErrRowNotFound) end.

(** snapshot isolation of Insert.  When it succeeds, the row did not exist for its
    transaction; afterwards transactions from [tx] on read the new row, earlier ones
    and readers of any other row read what they read before. *)
Theorem insert_snapshot T s n l d tx values s1 :
  schema_ok T -> u64 tx -> row_request T values ->
  Forall key_cell (map (value_at values) (PKIndices T)) ->
  kv_rel s (Datatypes.S n) l -> table_rep T l d -> Heap.Insert T tx values s = (Ok tt, s1) ->
  exists pk, pk_of T (map (value_at values) (PKIndices T)) = Ok pk /\ visible tx (d pk) = None /\
  forall tx' pkValues pk', Forall key_cell pkValues -> pk_of T pkValues = Ok pk' ->
    fst (Heap.Get T tx' pkValues s1)
    = read_answer (if decide (pk' = pk) then if tx <=? tx' then Some values else visible tx' (d pk)
                   else visible tx' (d pk')).
Proof.
  intros HT Hu Hv Hf Hr Hd Hi.
  destruct (insert_run T HT s n l d tx values Hr Hd Hu Hv Hf) as (s' & l' & Es & Hr' & Hd' & _).
  rewrite Hi in Es. injection Es as Er <-. unfold db_insert in Er, Hd'.
  destruct (negb _); [done|]. destruct (db_check T tx _ d) as [pk|] eqn:Ec; [|done].
  apply check_new in Ec as [Hp _]. destruct (visible tx (d pk)) eqn:Ev; [done|].
  exists pk. split; [done|]. split; [done|]. intros tx' pkValues pk' Hk Hp'.
  unfold db_append in Er, Hd'. destruct (encodeEnterpriseValue _ _ _); [|done].
  destruct (_ <? _); [done|]. cbn [snd] in Hd'.
  destruct (get_run T HT s1 n l' _ tx' pkValues Hr' Hd' Hk) as (s2 & -> & _). cbn [fst].
  unfold db_get. rewrite Hp'. unfold db_put. destruct (decide (pk' = pk)) as [->|]; [|done].
  by rewrite visible_append.
Qed.

(** ** Scan *)

Lemma row_prefix_compare T pk pk' :
  schema_ok T -> pk_ok T pk -> pk_ok T pk' ->
  bytes_compare (row_prefix T pk) (row_prefix T pk') = values_compare pk pk'.
Proof.
  intros HT Hpk Hpk'. unfold row_prefix. rewrite bytes_compare_app.
  rewrite <- (app_nil_r (concat (map pk_column pk))), <- (app_nil_r (concat (map pk_column pk'))).
  rewrite pk_columns_compare; [by destruct (values_compare pk pk')|apply Hpk|apply Hpk'| |by apply (pk_ok_no_bytes T HT)].
  by rewrite (proj2 Hpk), (proj2 Hpk').
Qed.

(** the iterator that [Scan] returns skips the first row: a client that calls
    [Next] until it is false, as the engine does, collects every row but the one with
    the smallest primary key. *)
Lemma rows_skip_first (rs : list visibleRow) n :
  (length rs <= n)%nat -> drain n (mkRows rs 0 None) = map (fun r => Some (row_values r)) (tl rs).
Proof. intros Hn. rewrite drain_from by lia. by destruct rs. Qed.

(** C9: Scan finds, in ascending order of the primary key as values and each once,
    exactly the rows visible to the transaction, whatever order the grouping map is
    visited in and however the sort breaks ties; but a client that reads the iterator it
    returns to its end gets these rows without the first. *)
Theorem scan_visible_rows T s n l d tx :
  schema_ok T -> kv_rel s n l -> table_rep T l d ->
  exists s' rs, Heap.Scan T tx s = (Ok (mkRows rs 0 None), s') /\ kv_rel s' n l /\
    (forall m, (length rs <= m)%nat -> drain m (mkRows rs 0 None) = map (fun r => Some (row_values r)) (tl rs)) /\
    StronglySorted (fun x y => forall pk pk', pk_ok T pk -> pk_ok T pk' ->
      row_pk x = row_prefix T pk -> row_pk y = row_prefix T pk' -> values_compare pk pk' = Lt) rs /\
    forall k vals, In (mkRow k vals) rs <->
      exists pk, pk_ok T pk /\ k = row_prefix T pk /\ visible tx (d pk) = Some vals.
Proof.
  intros HT Hr Hd. destruct (scan_run T HT s n l d tx Hr Hd) as (s' & rs & Es & Hr' & Hs & Hin).
  exists s', rs. split; [done|]. split; [done|]. split; [apply rows_skip_first|]. split; [|done].
  eapply sorted_weaken; [|exact Hs]. intros x y Hlt pk pk' Hpk Hpk' Hx Hy.
  unfold row_lt, bytes_lt in Hlt. by rewrite Hx, Hy, row_prefix_compare in Hlt.
Qed.

(** ** Vacuum *)

(** A history as the store holds it: versions ascend. *)
Definition ascending (h : history) : Prop := StronglySorted (fun x y => fst x < fst y) h.

Lemma filter_filter_swap {A} (p q : A -> bool) xs : List.filter p (List.filter q xs) = List.filter (fun x => q x && p x) xs.
Proof. induction xs as [|x xs IH]; [done|]. cbn. destruct (q x); cbn; [destruct (p x); by rewrite IH|done]. Qed.

Lemma last_filter_ge (h : history) v tx :
  ascending h -> (exists r, In (v, r) h) -> v <= tx ->
  last (List.filter (fun x => (v <=? fst x) && (fst x <=? tx)) h) = last (List.filter (fun x => fst x <=? tx) h).
Proof.
  intros Hs [r Hin] Hle. induction Hs as [|y h Hs IH Hy]; [done|]. rewrite Forall_forall in Hy.
  destruct Hin as [->|Hin].
  - cbn. rewrite Z.leb_refl, (proj2 (Z.leb_le v tx)) by done. cbn. do 2 f_equal. apply List.filter_ext_in.
    intros z Hz. specialize (Hy z ltac:(by apply list_elem_of_In)). cbn in Hy.
    by rewrite (proj2 (Z.leb_le v (fst z))) by lia.
  - pose proof (Hy (v, r) ltac:(by apply list_elem_of_In)) as Hlt. cbn in Hlt. cbn.
    rewrite (proj2 (Z.leb_gt v (fst y))), (proj2 (Z.leb_le (fst y) tx)) by lia. cbn [andb]. rewrite IH by done.
    assert (In (v, r) (List.filter (fun x => fst x <=? tx) h)) as Hf
      by (apply filter_In; split; [done|by apply Z.leb_le]).
    by destruct (List.filter (fun x => fst x <=? tx) h).
Qed.

(** Readers at or after the bound see the same row. *)
Lemma vacuumed_visible old tx h : ascending h -> old <= tx -> visible tx (vacuumed old h) = visible tx h.
Proof.
  intros Hs Hle. unfold vacuumed. destruct (last (List.filter (fun x => fst x <=? old) h)) as [[v [vals|]]|] eqn:El; [| |done].
  - assert (In (v, Some vals) h /\ v <= old) as [Hin Hv].
    { apply last_Some_elem_of, list_elem_of_In, filter_In in El as [? ?%Z.leb_le]. done. }
    unfold visible. rewrite filter_filter_swap, last_filter_ge; [done|done|by eexists|lia].
  - destruct (existsb _ h) eqn:Ex; [done|]. unfold visible.
    assert (List.filter (fun x => fst x <=? tx) h = List.filter (fun x => fst x <=? old) h) as ->; [|by rewrite El].
    apply List.filter_ext_in. intros x Hx. rewrite <- not_true_iff_false in Ex.
    assert (fst x <= old) by (apply Z.nlt_ge; intros Hlt; apply Ex, existsb_exists; exists x; split; [done|by apply Z.ltb_lt]).
    rewrite !(proj2 (Z.leb_le _ _)) by lia. done.
Qed.

Lemma table_rep_ascending T l d pk : schema_ok T -> om_sorted l -> table_rep T l d -> ascending (d pk).
Proof.
  intros HT Hs [_ Hd]. rewrite <- Hd. pose proof (versions_sorted T HT l pk Hs) as Hv.
  induction Hv as [|r h Hv IH Hr]; [constructor|]. constructor; [done|]. by apply Forall_map.
Qed.

(** What Vacuum may drop of a history: what is older than the newest version at or before
    the bound when that is a row, everything when that is a deletion and nothing was written
    after the bound. *)
Definition superfluous (old : Z) (h : history) (x : Z * option row) : Prop :=
  match last (List.filter (fun x => fst x <=? old) h) with
  | Some (v, Some _) => fst x < v
  | Some (_, None) => forall y, In y h -> fst y <= old
  | None => False
  end.

Lemma vacuumed_superfluous old h x : In x (vacuumed old h) <-> In x h /\ ~ superfluous old h x.
Proof.
  unfold vacuumed, superfluous. destruct (last (List.filter _ h)) as [[v [vals|]]|].
  - rewrite filter_In, Z.leb_le. split; (intros [? ?]; split; [done|lia]).
  - destruct (existsb _ h) eqn:Ex.
    + apply existsb_exists in Ex as (y & Hy & Hlt%Z.ltb_lt). split; [intros Hx; split; [done|]|by intros [? _]].
      intros Ha. specialize (Ha y Hy). lia.
    + split; [by intros []|]. intros [_ Hn]. exfalso. apply Hn. intros y Hy. apply Z.nlt_ge. intros Hlt.
      apply not_true_iff_false in Ex. apply Ex, existsb_exists. exists y. split; [done|by apply Z.ltb_lt].
  - split; [intros Hx; split; [done|by intros []]|by intros [? _]].
Qed.

(** C18: Vacuum drops from every row exactly the [superfluous] versions: those older than
    the newest one at or before the bound when that is a row, all of them when it is a
    deletion and none is newer than the bound.  When it is a deletion and there is a newer
    version, it drops nothing of the row, although nobody can see the versions before the
    deletion.  Every transaction at or after the bound reads every row as before, and
    other tables are untouched. *)
Theorem vacuum_invisible T s n l d old :
  schema_ok T -> kv_rel s (length l + n)%nat l -> table_rep T l d ->
  exists s' l' d', Vacuum T old s = (Ok tt, s') /\ kv_rel s' n l' /\ table_rep T l' d' /\ others_kept T l l' /\
    (forall pk x, In x (d' pk) <-> In x (d pk) /\ ~ superfluous old (d pk) x) /\
    forall tx pk, old <= tx -> visible tx (d' pk) = visible tx (d pk).
Proof.
  intros HT Hr Hd. destruct (vacuum_run T HT s n l d old Hr Hd) as (s' & l' & Es & Hr' & Hd' & Ho).
  exists s', l', (fun pk => vacuumed old (d pk)). split_and!; try done.
  - intros pk x. apply vacuumed_superfluous.
  - intros tx pk Hle. apply vacuumed_visible; [|done].
    eapply table_rep_ascending; [done| |exact Hd]. by eapply kv_rel_sorted.
Qed.
End run.

(** * On disk *)

Definition no_rows : dbs := fun _ _ => [].

Lemma tables_rep_empty tables : tables_rep tables [] no_rows.
Proof. intros T _. split; [by intros ? ? ? ? []|done]. Qed.

Section disk.
Context `{Pager.MapRange} `{GoRuntimeLaws}.

(** C7: from empty files to tables that survive a crash.  The pager and the B+ tree
    open over empty files; requests on any tables within the limits of
    [heap_run_refines] (no [KindBytes] and no NUL in primary keys, rows of at most 512 encoded
    bytes) then get the answers of multi-version maps that start empty; and when the
    process dies after them, opening the files again shows the same tables. *)
Theorem heap_end_to_end tables qs n :
  tables_ok tables -> Forall (fun x => In (fst x) tables /\ request_ok (fst x) (snd x)) qs ->
  4 + Z.of_nat (update_room 0 (length qs + n)) <= max_pages ->
  exists q s s1 q1 s2 l,
    Pager.Open None (Pager.newPager [] [] 0 []) = (Ok tt, q) /\
    BTree.Open None (BTree.newBtreeStore q) = (Ok tt, s) /\
    tables_serve qs s = (fst (dbs_serve (E := BTree.btree_err) qs no_rows), s1) /\
    Pager.Open None (Pager.restart (BTree.pg s1)) = (Ok tt, q1) /\
    BTree.Open None (BTree.newBtreeStore q1) = (Ok tt, s2) /\
    kv_rel s2 n l /\ tables_rep tables l (snd (dbs_serve (E := BTree.btree_err) qs no_rows)).
Proof.
  intros Hok Hqs Hn. destruct (Open_empty_files _ Hn) as (q & s & E & Es & Hs).
  assert (kv_rel s (length qs + n)%nat []) as Hr by (by eapply btree_kv_rel_intro).
  destruct (tables_run tables qs s n [] no_rows Hok Hqs Hr (tables_rep_empty tables)) as (s1 & l & E1 & Hr1 & Hd1).
  pose proof Hr1 as (h & Hw & Ht). destruct (tree_rep_crash s1 _ h _ Ht) as (q1 & s2 & E2 & E3 & Hs2).
  exists q, s, s1, q1, s2, l. split_and!; try done. by exists h.
Qed.
End disk.

(** * Two ways to reach another row

    Primary keys of kind [KindBytes] have no terminator in the row key, so the prefix
    of a shorter key covers the longer ones; a string key with a NUL byte, which the
    lookups do not refuse, covers versions of the key before the NUL. *)

Section overlap.
#[local] Existing Instance simple_runtime.

Definition bytes_table : Schema := mkSchema 7 [mkColumn [x6b] KindBytes; mkColumn [x76] KindUint64] [0].
Definition string_table : Schema := mkSchema 7 [mkColumn [x6b] KindString; mkColumn [x76] KindUint64] [0].

Lemma bytes_keys_overlap :
  let '(answers, _) := tables_serve (S := refStore)
    [(bytes_table, TInsert 1 [ABytes [x61; x62]; AUint64 5]);
     (bytes_table, TGet 1 [ABytes [x61]]);
     (bytes_table, TInsert 2 [ABytes [x61]; AUint64 6])] [] in
  answers = [TWritten (Ok tt); TRow (Ok [ABytes [x61; x62]; AUint64 5]);
             TWritten (Err (HeapErr ErrDuplicateKey))].
Proof. vm_compute. reflexivity. Qed.

Lemma nul_keys_overlap :
  let '(answers, _) := tables_serve (S := refStore)
    [(string_table, TInsert 1 [AString [x61]; AUint64 5]);
     (string_table, TGet 1 [AString [x61; x00]])] [] in
  answers = [TWritten (Ok tt); TRow (Ok [AString [x61]; AUint64 5])].
Proof. vm_compute. reflexivity. Qed.
End overlap.
