(* ===== verification/BTreeMaint.v ===== *)
(** [internal/engine/sql/kv/btree.go], continued: [Check], the integrity walk, and
    [Compact], the rewrite of the tree to fresh pages.

    The map [visited] of the Go code is threaded through the walks, which take
    fuel for their depth; loops over overflow chains are bounded as in Go.  [Compact]
    follows the Go function loop by loop, including the overflow chains it
    prepares twice and never writes. *)

From Stdlib Require Import ZArith Lia.
From stdpp Require Import gmap.
From S2P Require Import Prelude Page PagerSpec Key KvNode Monad BTree.
Open Scope Z_scope.
Open Scope st_scope.
Import BTree.

Module Maint.
Section maint.
Context {P : Type} `{PagerOps P}.

(** An error reported as [ErrTreeCorrupt] whatever it was. *)
Definition corrupt {A} (r : res kv_err A) : K (P := P) A :=
  match r with Ok a => ret a | Err _ => throw ErrTreeCorrupt end.

(** * Check *)

(** The loop of [checkOverflowChain]; [n] is what is left of [MaxOverflowChainLen]. *)
Fixpoint check_chain (n : nat) (ctx : ctx) (pageID bufLen : Z) (visited : gset Z) (pageCount : Z)
  : K (P := P) (Z * gset Z) :=
  if (pageID =? rootSentinel) || (pageID =? 0) then ret (bufLen, visited)
  else
    match n with
    | O => throw ErrTreeCorrupt
    | S n' =>
        if pageCount <=? pageID then throw ErrTreeCorrupt
        else if decide (pageID ∈ visited) then throw ErrTreeCorrupt
        else
          body <- ReadPage ctx pageID ;;
          '(nextPtr, chunk) <- check (decodeOverflowPage body) ;;
          check_chain n' ctx nextPtr (bufLen + zlen chunk) (visited ∪ {[pageID]}) pageCount
    end.

Definition checkOverflowChain (ctx : ctx) (ref : leafValueRef) (visited : gset Z) (pageCount : Z)
  : K (P := P) (gset Z) :=
  '(bufLen, visited) <- check_chain (Z.to_nat MaxOverflowChainLen) ctx (overflowPageID ref)
                          (zlen (inline ref)) visited pageCount ;;
  if negb (bufLen =? totalLen ref) then throw ErrTreeCorrupt else ret visited.

Fixpoint check_refs (ctx : ctx) (refs : list leafValueRef) (visited : gset Z) (pageCount : Z)
  : K (P := P) (gset Z) :=
  match refs with
  | [] => ret visited
  | ref :: refs' =>
      visited <- (if hasOverflow ref then checkOverflowChain ctx ref visited pageCount
                  else ret visited) ;;
      check_refs ctx refs' visited pageCount
  end.

(** [prevKey != nil && len(keys) > 0 && keys[0].Compare(prevKey) < 0] *)
Definition below_separator (prevKey : option Key) (keys : list Key) : bool :=
  match prevKey, keys with
  | Some p, k :: _ => bool_decide (Compare k p = Lt)
  | _, _ => false
  end.

(** The loop over the children of a node, each with the separator before it. *)
Fixpoint check_children (node : Z -> gset Z -> option Key -> K (P := P) (gset Z)) (children : list Z)
  (prevs : list (option Key)) (visited : gset Z) : K (P := P) (gset Z) :=
  match children, prevs with
  | c :: children', prev :: prevs' =>
      visited <- node c visited prev ;; check_children node children' prevs' visited
  | _, _ => ret visited
  end.

Fixpoint checkNode (fuel : nat) (ctx : ctx) (pageCount pageID : Z) (visited : gset Z)
  (prevKey : option Key) : K (P := P) (gset Z) :=
  match fuel with
  | O => fail OutOfFuel
  | S fuel' =>
      if pageCount <=? pageID then throw ErrTreeCorrupt
      else if decide (pageID ∈ visited) then throw ErrTreeCorrupt
      else
        let visited := visited ∪ {[pageID]} in
        body <- ReadPage ctx pageID ;;
        if is_type body NodeTypeLeaf then
          '(keys, refs, nextLeaf) <- corrupt (decodeLeafNodeRefs body) ;;
          if negb (keys_ascending keys) then throw ErrTreeCorrupt
          else if below_separator prevKey keys then throw ErrTreeCorrupt
          else
            visited <- check_refs ctx refs visited pageCount ;;
            if negb (nextLeaf =? rootSentinel) && negb (nextLeaf =? 0) && (pageCount <=? nextLeaf)
            then throw ErrTreeCorrupt
            else ret visited
        else if is_type body NodeTypeInternal then
          '(childPtrs, ikeys) <- corrupt (decodeInternalNode body) ;;
          if negb (keys_ascending ikeys) then throw ErrTreeCorrupt
          else check_children (checkNode fuel' ctx pageCount) childPtrs (None :: map Some ikeys) visited
        else throw ErrTreeCorrupt
  end.

Definition Check_ (fuel : nat) (ctx : ctx) : K (P := P) unit :=
  checkOpen ;;;
  root <- gets rootPageID ;;
  if root =? rootSentinel then ret tt
  else
    pc <- call (pg_PageCount ctx) ;;
    checkNode fuel ctx pc root ∅ None ;;;
    ret tt.

(** * Freeing a tree *)

Fixpoint freeOverflowChain (n : nat) (ctx : ctx) (pageID : Z) (visited : gset Z)
  : K (P := P) (gset Z) :=
  if (pageID =? rootSentinel) || (pageID =? 0) then ret visited
  else if decide (pageID ∈ visited) then ret visited
  else
    match n with
    | O => fail OutOfFuel
    | S n' => fun s =>
        let visited := visited ∪ {[pageID]} in
        match ReadPage ctx pageID s with
        | (Err _, s1) => (Ok visited, s1)
        | (Ok body, s1) =>
            match decodeOverflowPage body with
            | Err _ => (Ok visited, s1)
            | Ok (nextPtr, _) =>
                (ignore (FreePage ctx pageID) ;;; freeOverflowChain n' ctx nextPtr visited) s1
            end
        end
    end.

Fixpoint free_refs (n : nat) (ctx : ctx) (refs : list leafValueRef) (visited : gset Z)
  : K (P := P) (gset Z) :=
  match refs with
  | [] => ret visited
  | ref :: refs' =>
      visited <- (if hasOverflow ref then freeOverflowChain n ctx (overflowPageID ref) visited
                  else ret visited) ;;
      free_refs n ctx refs' visited
  end.

Fixpoint free_children (node : Z -> gset Z -> K (P := P) (gset Z)) (children : list Z)
  (visited : gset Z) : K (P := P) (gset Z) :=
  match children with
  | [] => ret visited
  | c :: children' => visited <- node c visited ;; free_children node children' visited
  end.

(** [freeNode]: a page that does not read is skipped, with what it leads to. *)
Fixpoint freeNode (fuel chain : nat) (ctx : ctx) (pageID : Z) (visited : gset Z)
  : K (P := P) (gset Z) :=
  match fuel with
  | O => fail OutOfFuel
  | S fuel' => fun s =>
      if (pageID =? rootSentinel) || (pageID =? 0) then (Ok visited, s)
      else if decide (pageID ∈ visited) then (Ok visited, s)
      else
        let visited := visited ∪ {[pageID]} in
        match ReadPage ctx pageID s with
        | (Err _, s1) => (Ok visited, s1)
        | (Ok body, s1) =>
            (visited <-
               (if is_type body NodeTypeLeaf then
                  free_refs chain ctx
                    (match decodeLeafNodeRefs body with Ok (_, refs, _) => refs | Err _ => [] end)
                    visited
                else if is_type body NodeTypeInternal then
                  free_children (freeNode fuel' chain ctx)
                    (match decodeInternalNode body with Ok (childPtrs, _) => childPtrs | Err _ => [] end)
                    visited
                else ret visited) ;;
             ignore (FreePage ctx pageID) ;;;
             ret visited) s1
        end
  end.

Definition freeTreePages (fuel chain : nat) (ctx : ctx) (root : Z) : K (P := P) unit :=
  if root =? rootSentinel then ret tt else freeNode fuel chain ctx root ∅ ;;; ret tt.

(** * Compact *)

Definition allKey : Key := EncodeBytes [].

Fixpoint scanAll_from (fuel leaves : nat) (ctx : ctx) (pageID : Z) : K (P := P) (list Entry) :=
  match fuel with
  | O => fail OutOfFuel
  | S fuel' =>
      body <- ReadPage ctx pageID ;;
      if is_type body NodeTypeLeaf then scanLeaf leaves ctx pageID allKey allKey []
      else if is_type body NodeTypeInternal then
        '(childPtrs, _) <- check (decodeInternalNode body) ;;
        scanAll_from fuel' leaves ctx (nth 0 childPtrs 0)
      else throw ErrTreeCorrupt
  end.

Definition scanAll (fuel leaves : nat) (ctx : ctx) : K (P := P) (list Entry) :=
  root <- gets rootPageID ;; scanAll_from fuel leaves ctx root.

(** [entries[i*MaxLeafKeys : min((i+1)*MaxLeafKeys, len(entries))]] *)
Definition leaf_chunk (entries : list Entry) (i : nat) : list Entry :=
  ztake MaxLeafKeys (zdrop (Z.of_nat i * MaxLeafKeys) entries).

Definition numLeaves (entries : list Entry) : nat :=
  Z.to_nat ((zlen entries + MaxLeafKeys - 1) / MaxLeafKeys).

(** The values of a chunk; a large one is packed, and pages are allocated for a
    chain that is never written. *)
Fixpoint pack_values (ctx : ctx) (chunk : list Entry) : K (P := P) (list (list byte)) :=
  match chunk with
  | [] => ret []
  | e :: chunk' =>
      v <- (if MaxValSize <? zlen (eValue e) then
              '(_, packed) <- prepareOverflow ctx (eValue e) ;; ret packed
            else ret (eValue e)) ;;
      vs <- pack_values ctx chunk' ;;
      ret (v :: vs)
  end.

(** Building leaves [i .. i+n-1], unlinked. *)
Fixpoint build_leaves (ctx : ctx) (entries : list Entry) (n i : nat) : K (P := P) (list (Z * list byte)) :=
  match n with
  | O => ret []
  | S n' =>
      let chunk := leaf_chunk entries i in
      vals <- pack_values ctx chunk ;;
      leafID <- AllocatePage ctx ;;
      leafBody <- check (encodeLeafNode (map eKey chunk) vals rootSentinel) ;;
      rest <- build_leaves ctx entries n' (S i) ;;
      ret ((leafID, leafBody) :: rest)
  end.

(** Encoding every leaf but the last again, with its link. *)
Fixpoint link_leaves (ctx : ctx) (entries : list Entry) (i : nat) (pages : list (Z * list byte))
  : K (P := P) (list (Z * list byte)) :=
  match pages with
  | (id, _) :: (((next, _) :: _) as rest) =>
      let chunk := leaf_chunk entries i in
      vals <- pack_values ctx chunk ;;
      leafBody <- check (encodeLeafNode (map eKey chunk) vals next) ;;
      rest' <- link_leaves ctx entries (S i) rest ;;
      ret ((id, leafBody) :: rest')
  | _ => ret pages
  end.

(** The separators of a node over children [start ..]. *)
Definition sep_keys (entries : list Entry) (start children : Z) : list Key :=
  map (fun j =>
         let firstIdx := start + (Z.of_nat j + 1) * MaxLeafKeys in
         let firstIdx := if zlen entries <=? firstIdx then zlen entries - 1 else firstIdx in
         match nth_error entries (Z.to_nat firstIdx) with Some e => eKey e | None => allKey end)
      (seq 0 (Z.to_nat (children - 1))).

(** Internal nodes [i .. i+n-1] of one level. *)
Fixpoint build_nodes (ctx : ctx) (entries : list Entry) (level : list Z) (n : nat) (i : Z)
  : K (P := P) (list (Z * list byte)) :=
  match n with
  | O => ret []
  | S n' =>
      let start := i * (MaxInternalKeys + 1) in
      let children := ztake (MaxInternalKeys + 1) (zdrop start level) in
      intID <- AllocatePage ctx ;;
      intBody <- check (encodeInternalNode children (sep_keys entries start (zlen children))) ;;
      rest <- build_nodes ctx entries level n' (i + 1) ;;
      ret ((intID, intBody) :: rest)
  end.

(** The levels, bottom up: the pages of all nodes, and the root. *)
Fixpoint build_levels (fuel : nat) (ctx : ctx) (entries : list Entry) (level : list Z)
  : K (P := P) (list (Z * list byte) * Z) :=
  if 1 <? zlen level then
    match fuel with
    | O => fail OutOfFuel
    | S fuel' =>
        let numInternals := (zlen level + (MaxInternalKeys + 1) - 1) / (MaxInternalKeys + 1) in
        pages <- build_nodes ctx entries level (Z.to_nat numInternals) 0 ;;
        '(rest, root) <- build_levels fuel' ctx entries (map fst pages) ;;
        ret (pages ++ rest, root)
    end
  else ret ([], nth 0 level 0).

(** Writing the meta page in a transaction of its own. *)
Definition write_meta (ctx : ctx) (root : Z) : K (P := P) unit :=
  BeginTx ctx ;;;
  or_rollback ctx (WritePage ctx MetaPageID (encodeMetaPage root)) ;;;
  CommitTx ctx ;;;
  modify (with_root root).

(** The post-build validation: the error is reported as corruption. *)
Definition validate_root (ctx : ctx) (root : Z) : K (P := P) unit := fun s =>
  match ReadPage ctx root s with
  | (Ok _, s1) => (Ok tt, s1)
  | (Err _, s1) => (Err (KvErr ErrTreeCorrupt), s1)
  end.

Definition Compact (fuel leaves : nat) (ctx : ctx) : K (P := P) unit :=
  checkOpen ;;;
  oldRoot <- gets rootPageID ;;
  if oldRoot =? rootSentinel then ret tt
  else
    entries <- scanAll fuel leaves ctx ;;
    match entries with
    | [] =>
        write_meta ctx rootSentinel ;;;
        freeTreePages fuel leaves ctx oldRoot
    | _ =>
        unlinked <- build_leaves ctx entries (numLeaves entries) 0 ;;
        leafPages <- link_leaves ctx entries 0 unlinked ;;
        '(nodePages, newRoot) <- build_levels (numLeaves entries) ctx entries (map fst leafPages) ;;
        for_each (leafPages ++ nodePages) (fun '(id, body) => WritePage ctx id body) ;;;
        validate_root ctx newRoot ;;;
        write_meta ctx newRoot ;;;
        freeTreePages fuel leaves ctx oldRoot
    end.

End maint.
End Maint.
