(* ===== verification/BTreeMaintProof.v ===== *)
(** [Check] and [Compact] of [BTreeMaint.v] on represented trees.

    [Check] accepts every tree the other operations build.  [Compact] rebuilds a
    tree of up to 57 leaves (399 entries) on fresh pages with the same entries and
    gives every page of the old tree back to the pager.  Beyond one internal node
    its separators are wrong, which the last part shows on a concrete tree. *)

From Stdlib Require Import ZArith Lia Sorted.
From stdpp Require Import gmap.
From S2P Require Import Prelude OrdMap Page PagerSpec Key KvNode Monad BTree BTreeRep BTreeStep BTreeProof BTreeMaint PagerMem.
Open Scope Z_scope.
Open Scope st_scope.
Import BTree Maint.

Section proofs.
Context {P : Type} `{PagerSpec P}.

(** * Check *)

(** The separator passed down with each child is the child's lower bound. *)
Definition prev_ok (lo : bound) (prev : option Key) : Prop :=
  match prev with Some p => lo = Fin (data p) | None => True end.

Fixpoint prevs_ok (lo : bound) (ch : list (Z * bound)) (prevs : list (option Key)) : Prop :=
  match ch, prevs with
  | [], _ => True
  | (_, u) :: ch', p :: prevs' => prev_ok lo p /\ prevs_ok u ch' prevs'
  | _ :: _, [] => False
  end.

Lemma separators_ok ch keys lo hi p :
  map snd ch = map Fin keys ++ [hi] -> prev_ok lo p ->
  prevs_ok lo ch (p :: map Some (map importKey keys)).
Proof.
  revert keys lo p. induction ch as [|[c u] ch IH]; intros keys lo p Hk Hp; [done|].
  destruct keys as [|k keys]; simpl in Hk.
  - injection Hk as -> Hk. apply map_eq_nil in Hk as ->. simpl. split; [done|done].
  - injection Hk as -> Hk. cbn [prevs_ok map]. split; [done|]. by apply IH.
Qed.

Lemma below_separator_ok lo hi es prev :
  leaf_ok lo hi es -> prev_ok lo prev -> below_separator prev (leaf_keys es) = false.
Proof.
  intros (_ & _ & _ & Hk) Hp. destruct prev as [p|]; [|done]. destruct es as [|e es]; [done|].
  cbn [below_separator leaf_keys map]. apply bool_decide_eq_false.
  destruct (Hk (fst e)) as [Hle _]; [by left|]. cbn in Hp. subst lo. cbn in Hle.
  unfold Compare. cbn [data importKey EncodeBytes]. by apply bytes_not_lt.
Qed.

Lemma check_small_refs s es v pc : check_refs (P := P) None (map small_ref es) v pc s = (Ok v, s).
Proof. revert s. induction es as [|e es IH]; intros s; [done|]. cbn [map check_refs small_ref hasOverflow]. by rewrite bind_ret, IH. Qed.

Lemma keys_ascending_leaf es : om_sorted es -> keys_ascending (leaf_keys es) = true.
Proof. intros Hs. apply keys_ascending_sorted. by rewrite data_leaf_keys. Qed.

Lemma checkNode_run s n m tx r pc :
  running s n (mkView m tx) r -> (forall id, is_Some (m !! id) -> id < pc) ->
  (forall h pid lo hi next first es ids, subtree m h pid lo hi next first es ids ->
     forall fuel v prev s, running s n (mkView m tx) r -> (h < fuel)%nat ->
     (next = rootSentinel \/ is_Some (m !! next)) -> NoDup ids -> (forall i, i ∈ ids -> i ∉ v) ->
     prev_ok lo prev ->
     exists s' v', checkNode fuel None pc pid v prev s = (Ok v', s') /\ running s' n (mkView m tx) r /\
       forall i, i ∈ v' <-> i ∈ v \/ i ∈ ids) /\
  (forall h ch lo hi next first es ids, chain m h ch lo hi next first es ids ->
     forall fuel v prevs s, running s n (mkView m tx) r -> (h < fuel)%nat ->
     (next = rootSentinel \/ is_Some (m !! next)) -> NoDup ids -> (forall i, i ∈ ids -> i ∉ v) ->
     prevs_ok lo ch prevs ->
     exists s' v', check_children (checkNode fuel None pc) (map fst ch) prevs v s = (Ok v', s') /\
       running s' n (mkView m tx) r /\ forall i, i ∈ v' <-> i ∈ v \/ i ∈ ids).
Proof.
  intros _ Hpc. apply subtree_chain_ind.
  - intros pid lo hi next es Hl Hok Hu [|fuel] v prev s0 Hr Hf Hnext Hnd Hv Hp; [lia|]. cbn [checkNode].
    rewrite (proj2 (Z.leb_gt _ _)) by eauto. rewrite decide_False by (apply Hv; constructor).
    destruct (ReadPage_run s0 n _ r pid _ Hr Hl) as (s1 & E1 & Hr1). erewrite bind_ok by exact E1.
    rewrite leaf_image_type. destruct (leaf_decode lo hi es next Hok Hu) as [D _]. rewrite D.
    unfold corrupt. rewrite bind_ret. rewrite (keys_ascending_leaf es) by apply Hok.
    rewrite (below_separator_ok lo hi) by done. cbn [negb].
    erewrite bind_ok by apply check_small_refs. exists s1, (v ∪ {[pid]}).
    destruct Hnext as [->|Hn].
    + rewrite Z.eqb_refl. cbn [negb andb]. split; [done|]. split; [done|]. set_solver.
    + rewrite (proj2 (Z.leb_gt pc next)) by eauto. rewrite andb_false_r. split; [done|]. split; [done|]. set_solver.
  - intros h pid lo hi next first ch keys es ids Hl Hk Hn Hks Hc IH [|fuel] v prev s0 Hr Hf Hnext Hnd Hv Hp; [lia|].
    cbn [checkNode].
    rewrite (proj2 (Z.leb_gt _ _)) by eauto. rewrite decide_False by (apply Hv; constructor).
    destruct (ReadPage_run s0 n _ r pid _ Hr Hl) as (s1 & E1 & Hr1). erewrite bind_ok by exact E1.
    destruct (node_image_type (map fst ch) keys) as [-> ->].
    rewrite node_decode; [|by eapply node_keys_count|done|done|].
    2: { eapply chain_ptrs_u64; [|exact Hc]. exact (fun i b => running_pages s1 n _ r i b Hr1). }
    unfold corrupt. rewrite bind_ret.
    destruct (chain_keys_sorted _ _ _ _ _ _ _ _ _ _ Hc Hk) as [Hsort _].
    assert (keys_ascending (map importKey keys) = true) as ->.
    { apply keys_ascending_sorted. rewrite map_map. cbn [data importKey EncodeBytes]. by rewrite map_id. }
    cbn [negb]. apply NoDup_cons in Hnd as [Hpid Hnd].
    destruct (IH fuel (v ∪ {[pid]}) (None :: map Some (map importKey keys)) s1) as (s2 & v2 & E2 & Hr2 & Hv2);
      [done|lia|done|done| |by apply (separators_ok ch keys lo hi None)|].
    { intros i Hi Hin. apply elem_of_union in Hin as [Hin|Hin%elem_of_singleton]; [|by subst].
      apply (Hv i); [by constructor|done]. }
    exists s2, v2. split; [exact E2|]. split; [done|]. intros i. rewrite Hv2, elem_of_cons. set_solver.
  - intros h lo next fuel v prevs s0 Hr _ _ _ _ _. exists s0, v. split; [by destruct prevs|].
    split; [done|]. intros i. rewrite elem_of_nil. tauto.
  - intros h c mid ch lo hi next next1 first es1 es2 ids1 ids2 Hlt Hs IH1 Hc IH2 fuel v prevs s0 Hr Hf Hnext
      Hnd Hv Hp.
    destruct prevs as [|p prevs]; [done|]. destruct Hp as [Hp Hps]. cbn [map fst check_children].
    apply NoDup_app in Hnd as (Hnd1 & Hdisj & Hnd2). setoid_rewrite elem_of_app in Hv.
    assert (next1 = rootSentinel \/ is_Some (m !! next1)) as Hnext1.
    { destruct (proj2 (subtree_alloc m) _ _ _ _ _ _ _ _ Hc) as (Ha & _ & [[-> _]|Hin]); [done|].
      right. by apply Ha. }
    destruct (IH1 fuel v p s0) as (s1 & v1 & E1 & Hr1 & Hv1); [done..|by eauto|done|].
    erewrite bind_ok by exact E1.
    destruct (IH2 fuel v1 prevs s1) as (s2 & v2 & E2 & Hr2 & Hv2); [done..| |done|].
    { intros i Hi Hin. apply Hv1 in Hin as [Hin|Hin]; [by eapply Hv; eauto|by eapply Hdisj]. }
    exists s2, v2. split; [exact E2|]. split; [done|]. intros i. rewrite Hv2, Hv1, elem_of_app. tauto.
Qed.

Lemma tree_rep_check s n h l fuel :
  tree_rep s n h l -> (h < fuel)%nat ->
  exists s', Check_ fuel None s = (Ok tt, s') /\ tree_rep s' n h l.
Proof.
  intros (m & r & Hr & Hmeta & Ht) Hf. unfold Check_.
  erewrite bind_ok by by eapply checkOpen_run. rewrite bind_gets, (rootPageID_run _ _ _ _ Hr).
  destruct (decide (r = rootSentinel)) as [->|Hne].
  - rewrite Z.eqb_refl. exists s. split; [done|]. exists m, rootSentinel. split; [done|].
    split; [done|]. by rewrite decide_True.
  - rewrite (proj2 (Z.eqb_neq _ _)) by done. destruct Ht as (first & ids & Hs & Hnd).
    pose proof Hr as (Hpg & Ho & Hc & Hroot). destruct (pg_count_law _ _ _ Hpg) as (pc & Ec & Hlt).
    assert (call (pg_PageCount None) s = (Ok pc, s)) as E0.
    { unfold call. rewrite Ec. by destruct s. }
    erewrite bind_ok by exact E0. apply NoDup_cons in Hnd as Hnd'. destruct Hnd' as [_ Hnd'].
    destruct (proj1 (checkNode_run s n m None r pc Hr Hlt) _ _ _ _ _ _ _ _ Hs fuel ∅ None s)
      as (s' & v' & E & Hr' & _); [done|done|by left|done| |done|].
    { intros i _ Hi. by apply elem_of_empty in Hi. }
    erewrite bind_ok by exact E. exists s'. split; [done|]. exists m, r. split; [done|].
    split; [done|]. rewrite decide_False by done. by exists first, ids.
Qed.

(** * Freeing a tree *)

Definition without (m1 m : gmap Z (list byte)) (ids : list Z) : Prop :=
  forall i, m1 !! i = if decide (i ∈ ids) then None else m !! i.

Lemma without_app m2 m1 m ids1 ids2 : without m1 m ids1 -> without m2 m1 ids2 -> without m2 m (ids1 ++ ids2).
Proof.
  intros H1 H2 i. rewrite H2, H1. destruct (decide (i ∈ ids2)), (decide (i ∈ ids1)), (decide (i ∈ ids1 ++ ids2));
    try done; rewrite elem_of_app in *; tauto.
Qed.

Lemma FreePage_run s n m r id :
  running s n (mkView m None) r -> is_Some (m !! id) ->
  exists s', FreePage None id s = (Ok tt, s') /\ running s' n (mkView (delete id m) None) r.
Proof.
  intros (Hr & ? & ? & ?) Hid. destruct (pg_free_law _ _ _ _ Hr eq_refl Hid) as (p' & E & Hr').
  exists (with_pg p' s). unfold FreePage, call. rewrite E. done.
Qed.

Lemma free_small_refs c s es v : free_refs (P := P) c None (map small_ref es) v s = (Ok v, s).
Proof. revert s. induction es as [|e es IH]; intros s; [done|]. cbn [map free_refs small_ref hasOverflow]. by rewrite bind_ret, IH. Qed.

Lemma freeNode_run n r c m :
  (forall h pid lo hi next first es ids, subtree m h pid lo hi next first es ids ->
     forall fuel v m0 s, running s n (mkView m0 None) r -> (h < fuel)%nat ->
     (forall i, i ∈ ids -> m0 !! i = m !! i) -> NoDup ids -> (forall i, i ∈ ids -> i ∉ v) ->
     exists s' v' m1, freeNode fuel c None pid v s = (Ok v', s') /\ running s' n (mkView m1 None) r /\
       without m1 m0 ids /\ forall i, i ∈ v' <-> i ∈ v \/ i ∈ ids) /\
  (forall h ch lo hi next first es ids, chain m h ch lo hi next first es ids ->
     forall fuel v m0 s, running s n (mkView m0 None) r -> (h < fuel)%nat ->
     (forall i, i ∈ ids -> m0 !! i = m !! i) -> NoDup ids -> (forall i, i ∈ ids -> i ∉ v) ->
     exists s' v' m1, free_children (freeNode fuel c None) (map fst ch) v s = (Ok v', s') /\
       running s' n (mkView m1 None) r /\ without m1 m0 ids /\ forall i, i ∈ v' <-> i ∈ v \/ i ∈ ids).
Proof.
  apply subtree_chain_ind.
  - intros pid lo hi next es Hl Hok Hu [|fuel] v m0 s0 Hr Hf Hm Hnd Hv; [lia|]. cbn [freeNode].
    assert (m0 !! pid = Some (leaf_image es next)) as Hl0 by (rewrite Hm by constructor; done).
    pose proof (running_pages _ _ _ _ pid _ Hr Hl0) as Hrange.
    rewrite (proj2 (Z.eqb_neq pid rootSentinel)) by (unfold rootSentinel, max_pages in *; lia).
    rewrite (proj2 (Z.eqb_neq pid 0)) by (unfold FirstDataPageID in *; lia). cbn [orb].
    rewrite decide_False by (apply Hv; constructor).
    destruct (ReadPage_run s0 n _ r pid _ Hr Hl0) as (s1 & E1 & Hr1). rewrite E1.
    rewrite leaf_image_type. destruct (leaf_decode lo hi es next Hok Hu) as [D _]. rewrite D.
    erewrite bind_ok by apply free_small_refs.
    destruct (FreePage_run s1 n m0 r pid Hr1) as (s2 & E2 & Hr2); [by eexists|].
    unfold ignore. unfold bind. rewrite E2. cbn [snd].
    exists s2, (v ∪ {[pid]}), (delete pid m0). split; [done|]. split; [done|]. split; [|set_solver].
    intros i. rewrite lookup_delete. destruct (decide (i ∈ [pid])) as [->%list_elem_of_singleton|Hi];
      [by rewrite decide_True|]. rewrite decide_False; [done|]. intros ->. apply Hi. by left.
  - intros h pid lo hi next first ch keys es ids Hl Hk Hn Hks Hc IH [|fuel] v m0 s0 Hr Hf Hm Hnd Hv; [lia|].
    cbn [freeNode].
    assert (m0 !! pid = Some (node_image (map fst ch) keys)) as Hl0 by (rewrite Hm by constructor; done).
    pose proof (running_pages _ _ _ _ pid _ Hr Hl0) as Hrange.
    rewrite (proj2 (Z.eqb_neq pid rootSentinel)) by (unfold rootSentinel, max_pages in *; lia).
    rewrite (proj2 (Z.eqb_neq pid 0)) by (unfold FirstDataPageID in *; lia). cbn [orb].
    rewrite decide_False by (apply Hv; constructor).
    destruct (ReadPage_run s0 n _ r pid _ Hr Hl0) as (s1 & E1 & Hr1). rewrite E1.
    destruct (node_image_type (map fst ch) keys) as [-> ->].
    assert (chain m0 h ch lo hi next first es ids) as Hc0.
    { eapply subtree_frame; [exact Hc|]. intros i Hi. apply Hm. by constructor. }
    rewrite node_decode; [|by eapply node_keys_count|done|done|].
    2: { eapply chain_ptrs_u64; [|exact Hc0]. exact (fun i b => running_pages s1 n _ r i b Hr1). }
    apply NoDup_cons in Hnd as [Hpid Hnd].
    destruct (IH fuel (v ∪ {[pid]}) m0 s1) as (s2 & v2 & m1 & E2 & Hr2 & Hw & Hv2); [done|lia| |done| |].
    { intros i Hi. apply Hm. by constructor. }
    { intros i Hi Hin. apply elem_of_union in Hin as [Hin|Hin%elem_of_singleton]; [|by subst].
      apply (Hv i); [by constructor|done]. }
    erewrite bind_ok by exact E2.
    destruct (FreePage_run s2 n m1 r pid Hr2) as (s3 & E3 & Hr3).
    { rewrite Hw, decide_False, Hl0 by done. by eexists. }
    unfold ignore. unfold bind. rewrite E3. cbn [snd].
    exists s3, v2, (delete pid m1). split; [done|]. split; [done|]. split.
    + intros i. rewrite lookup_delete, Hw. destruct (decide (pid = i)) as [<-|Hne].
      * rewrite (decide_True (P := pid ∈ pid :: ids)); [done|constructor].
      * destruct (decide (i ∈ ids)), (decide (i ∈ pid :: ids)); try done; rewrite elem_of_cons in *; naive_solver.
    + intros i. rewrite Hv2, elem_of_cons. set_solver.
  - intros h lo next fuel v m0 s0 Hr _ _ _ _. exists s0, v, m0. split; [done|]. split; [done|].
    split; [intros i; by rewrite decide_False by (by apply not_elem_of_nil)|]. intros i. rewrite elem_of_nil. tauto.
  - intros h cp mid ch lo hi next next1 first es1 es2 ids1 ids2 Hlt Hs IH1 Hc IH2 fuel v m0 s0 Hr Hf Hm Hnd Hv.
    cbn [map fst free_children].
    apply NoDup_app in Hnd as (Hnd1 & Hdisj & Hnd2). setoid_rewrite elem_of_app in Hv.
    setoid_rewrite elem_of_app in Hm.
    destruct (IH1 fuel v m0 s0) as (s1 & v1 & m1 & E1 & Hr1 & Hw1 & Hv1); [done|done|by auto|done|by eauto|].
    erewrite bind_ok by exact E1.
    destruct (IH2 fuel v1 m1 s1) as (s2 & v2 & m2 & E2 & Hr2 & Hw2 & Hv2); [done|done| |done| |].
    { intros i Hi. rewrite Hw1, decide_False; [by auto|]. intros Hi1. by eapply Hdisj. }
    { intros i Hi Hin. apply Hv1 in Hin as [Hin|Hin]; [by eapply Hv; eauto|by eapply Hdisj]. }
    exists s2, v2, m2. split; [exact E2|]. split; [done|]. split; [by eapply without_app|].
    intros i. rewrite Hv2, Hv1, elem_of_app. tauto.
Qed.

(** * Reading everything *)

Lemma scanAll_run s n m r h pid lo hi next first es ids fuel lv :
  running s n (mkView m None) r -> subtree m h pid lo hi next first es ids -> (h < fuel)%nat ->
  exists s', scanAll_from fuel lv None pid s = scanLeaf lv None first allKey allKey [] s' /\
    running s' n (mkView m None) r.
Proof.
  intros Hr Hs. revert s pid lo hi next first es ids fuel Hr Hs.
  induction h as [|h IH]; intros s pid lo hi next first es ids [|fuel] Hr Hs Hf; try lia; cbn [scanAll_from].
  - inversion Hs as [? ? ? ? ? Hl Hok Hu|]; subst.
    destruct (ReadPage_run s n _ r first _ Hr Hl) as (s1 & E1 & Hr1).
    erewrite bind_ok by exact E1. rewrite leaf_image_type. by exists s1.
  - inversion Hs as [|? ? ? ? ? ? ch keys ? ids0 Hl Hk Hn Hks Hc]; subst.
    destruct (ReadPage_run s n _ r pid _ Hr Hl) as (s1 & E1 & Hr1).
    erewrite bind_ok by exact E1. destruct (node_image_type (map fst ch) keys) as [-> ->].
    rewrite node_decode; [|by eapply node_keys_count|done|done|].
    2: { eapply chain_ptrs_u64; [|exact Hc]. exact (fun i b => running_pages s n _ r i b Hr). }
    unfold check. rewrite bind_lift.
    destruct ch as [|[c mid] ch]; [by destruct keys|].
    apply chain_cons_inv in Hc as (n1 & e1 & e2 & i1 & i2 & -> & -> & _ & Hsub & _).
    cbn [map fst nth]. eapply IH; [exact Hr1|exact Hsub|lia].
Qed.

(** The entries as the code holds them. *)
Definition to_entries (es : list entry) : list Entry := map (fun e => mkEntry (importKey (fst e)) (snd e)) es.

Lemma scan_result_all es : scan_result allKey allKey es = to_entries es.
Proof.
  unfold scan_result, to_entries. f_equal. unfold om_range. induction es as [|e es IH]; [done|].
  cbn [List.filter]. by rewrite IH.
Qed.

(** * Building leaves *)

Definition chunk_at (es : list entry) (i : nat) : list entry :=
  ztake MaxLeafKeys (zdrop (Z.of_nat i * MaxLeafKeys) es).

Lemma leaf_chunk_entries es i : leaf_chunk (to_entries es) i = to_entries (chunk_at es i).
Proof. unfold leaf_chunk, chunk_at, to_entries, ztake, zdrop. by rewrite skipn_map, firstn_map. Qed.

Lemma pack_small s es : Forall small_entry es -> pack_values (P := P) None (to_entries es) s = (Ok (map snd es), s).
Proof.
  intros Hs. revert s. induction Hs as [|e es [_ Hv] _ IH]; intros s; [done|].
  cbn [to_entries map pack_values eValue]. rewrite (proj2 (Z.ltb_ge _ _)) by done. rewrite bind_ret.
  unfold to_entries in IH. erewrite bind_ok by apply IH. done.
Qed.

Lemma chunk_small es i : Forall small_entry es -> Forall small_entry (chunk_at es i).
Proof. intros Hs. unfold chunk_at, ztake, zdrop. by apply Forall_take, Forall_drop. Qed.

(** Some bounds every chunk is within. *)
Lemma chunk_ok es i : Forall small_entry es -> om_sorted es -> leaf_ok NegInf PosInf (chunk_at es i).
Proof.
  intros Hs Ho. split; [by apply chunk_small|]. split.
  - unfold chunk_at, ztake, zlen. rewrite length_take. unfold MaxLeafKeys. lia.
  - split; [|by intros k _]. unfold chunk_at, ztake, zdrop.
    rewrite <- (take_drop (Z.to_nat (Z.of_nat i * MaxLeafKeys)) es) in Ho.
    apply om_sorted_app in Ho as (_ & Ho & _).
    rewrite <- (take_drop (Z.to_nat MaxLeafKeys) (drop _ es)) in Ho. by apply om_sorted_app in Ho as (? & _).
Qed.

Lemma encode_chunk es i next :
  Forall small_entry es -> om_sorted es ->
  encodeLeafNode (map eKey (to_entries (chunk_at es i))) (map snd (chunk_at es i)) next
    = Ok (leaf_image (chunk_at es i) next) /\ zlen (leaf_image (chunk_at es i) next) = DataPageBodySize.
Proof.
  intros Hs Ho. eapply leaf_encode; [by apply chunk_ok| |done]. unfold to_entries. by rewrite !map_map.
Qed.

(** Pages allocated in front of [m]: new, distinct, and nothing else changed. *)
Definition grown (m m1 : gmap Z (list byte)) (ids : list Z) : Prop :=
  NoDup ids /\ (forall i, i ∈ ids -> m !! i = None /\ is_Some (m1 !! i)) /\
  (forall i, i ∉ ids -> m1 !! i = m !! i).

Lemma grown_cons m m1 id b ids :
  m !! id = None -> grown (<[id := b]> m) m1 ids -> grown m m1 (id :: ids).
Proof.
  intros Hid (Hnd & Hnew & Hold). assert (id ∉ ids) as Hn.
  { intros Hin. destruct (Hnew id Hin) as [Hc _]. by rewrite lookup_insert_eq in Hc. }
  split; [by constructor|]. split.
  - intros i [->|Hi]%elem_of_cons.
    + split; [done|]. rewrite Hold by done. rewrite lookup_insert_eq. by eexists.
    + destruct (Hnew i Hi) as [Hc Hs]. split; [|done]. destruct (decide (id = i)) as [->|Hne]; [done|].
      by rewrite lookup_insert_ne in Hc.
  - intros i Hi. apply not_elem_of_cons in Hi as [Hne Hi]. rewrite Hold by done. by apply lookup_insert_ne.
Qed.

Definition unlinked (es : list entry) (i n : nat) : list (list byte) :=
  map (fun j => leaf_image (chunk_at es j) rootSentinel) (seq i n).

Lemma build_leaves_run es k i s n m r :
  running s (k + n) (mkView m None) r -> Forall small_entry es -> om_sorted es ->
  exists ids s' m1, build_leaves None (to_entries es) k i s = (Ok (zip ids (unlinked es i k)), s') /\
    length ids = k /\ running s' n (mkView m1 None) r /\ grown m m1 ids.
Proof.
  intros Hr Hs Ho. revert i s m Hr. induction k as [|k IH]; intros i s m Hr.
  - exists [], s, m. split; [done|]. split; [done|]. split; [done|]. split; [constructor|].
    split; [|done]. intros i0 Hi. by apply elem_of_nil in Hi.
  - cbn [build_leaves]. cbn zeta. rewrite leaf_chunk_entries. erewrite bind_ok by by apply pack_small, chunk_small.
    destruct (AllocatePage_run s (k + n) _ r Hr eq_refl) as (id & s1 & E1 & Hid & Hrange & Hr1).
    erewrite bind_ok by exact E1. destruct (encode_chunk es i rootSentinel Hs Ho) as [Ee _].
    rewrite Ee. unfold check. rewrite bind_lift.
    destruct (IH (S i) s1 _ Hr1) as (ids & s2 & m1 & E2 & Hlen & Hr2 & Hg). erewrite bind_ok by exact E2.
    exists (id :: ids), s2, m1. split; [done|]. split; [by cbn; rewrite Hlen|]. split; [done|].
    by eapply grown_cons.
Qed.

(** The linked images. *)
Fixpoint linked (es : list entry) (i : nat) (ids : list Z) : list (Z * list byte) :=
  match ids with
  | [] => []
  | id :: ids' => (id, leaf_image (chunk_at es i) (hd rootSentinel ids')) :: linked es (S i) ids'
  end.

Lemma link_leaves_run es i ids s :
  Forall small_entry es -> om_sorted es ->
  link_leaves (P := P) None (to_entries es) i (zip ids (unlinked es i (length ids))) s
  = (Ok (linked es i ids), s).
Proof.
  intros Hs Ho. revert i s. induction ids as [|id ids IH]; intros i s; [done|].
  destruct ids as [|id2 ids]; [done|]. specialize (IH (S i) s).
  change (unlinked es i (length (id :: id2 :: ids)))
    with (leaf_image (chunk_at es i) rootSentinel :: unlinked es (S i) (length (id2 :: ids))).
  change (unlinked es (S i) (length (id2 :: ids))) with
    (leaf_image (chunk_at es (S i)) rootSentinel :: unlinked es (S (S i)) (length ids)) in *.
  cbn [zip zip_with link_leaves] in *. cbn zeta. rewrite leaf_chunk_entries.
  erewrite bind_ok by by apply pack_small, chunk_small.
  destruct (encode_chunk es i id2 Hs Ho) as [Ee _]. rewrite Ee. unfold check. rewrite bind_lift.
  erewrite bind_ok by exact IH. done.
Qed.

Lemma linked_fst es i ids : map fst (linked es i ids) = ids.
Proof. revert i. induction ids as [|id ids IH]; intros i; [done|]. cbn. by rewrite IH. Qed.

(** * The shape of the new tree *)

Definition first_key (es : list entry) : list byte := match es with e :: _ => fst e | [] => [] end.

Definition separators (es : list entry) (i n : nat) : list (list byte) :=
  map (fun j => first_key (chunk_at es j)) (seq i n).

Definition rest_at (es : list entry) (i : nat) : list entry := zdrop (Z.of_nat i * MaxLeafKeys) es.

Lemma rest_step es i : rest_at es i = chunk_at es i ++ rest_at es (S i).
Proof.
  unfold rest_at, chunk_at, ztake, zdrop, MaxLeafKeys.
  rewrite <- (take_drop (Z.to_nat 7) (drop (Z.to_nat (Z.of_nat i * 7)) es)) at 1. f_equal.
  rewrite drop_drop. f_equal. lia.
Qed.

Lemma rest_length es i : zlen (rest_at es i) = Z.max 0 (zlen es - Z.of_nat i * 7).
Proof. unfold rest_at, zdrop, zlen, MaxLeafKeys. rewrite length_drop. lia. Qed.

Lemma chunk_nonempty es i : Z.of_nat i * 7 < zlen es -> chunk_at es i <> [].
Proof.
  intros Hi Hc. pose proof (rest_length es i) as H1. pose proof (rest_length es (S i)) as H2.
  rewrite rest_step, Hc in H1. cbn [app] in H1. lia.
Qed.

Lemma first_key_in es : es <> [] -> In (first_key es) (map fst es).
Proof. destruct es; [done|]. by left. Qed.

Lemma rest_sorted es i : om_sorted es -> om_sorted (rest_at es i).
Proof.
  intros Ho. unfold rest_at, zdrop. rewrite <- (take_drop (Z.to_nat (Z.of_nat i * MaxLeafKeys)) es) in Ho.
  by apply om_sorted_app in Ho as (_ & ? & _).
Qed.

(** A lower bound that sits at or before the first key of the chunk. *)
Definition low_ok (lo : bound) (c : list entry) : Prop :=
  lo = NegInf \/ exists k, lo = Fin k /\ In k (map fst c).

Lemma linked_chain m es ids i lo :
  Forall small_entry es -> om_sorted es -> ids <> [] -> Forall u64 ids ->
  (Z.of_nat i + zlen ids - 1) * 7 < zlen es -> zlen es <= (Z.of_nat i + zlen ids) * 7 ->
  (forall p, In p (linked es i ids) -> m !! fst p = Some (snd p)) ->
  (forall k, In k (map fst (rest_at es i)) -> bound_le lo k) -> low_ok lo (chunk_at es i) ->
  chain m 0 (zip ids (map Fin (separators es (S i) (length ids - 1)) ++ [PosInf])) lo PosInf rootSentinel
    (hd rootSentinel ids) (rest_at es i) ids.
Proof.
  intros Hs Ho. revert i lo. induction ids as [|id ids IH]; intros i lo Hne Hu Hlt Hle Hm Hlo Hlow; [done|].
  apply Forall_cons in Hu as [Hu0 Hu]. rewrite zlen_cons in Hlt, Hle. pose proof (zlen_nonneg ids) as Hz.
  pose proof (rest_sorted es i Ho) as Hrs. rewrite rest_step in Hrs, Hlo |- *.
  apply om_sorted_app in Hrs as (Hc & _ & Hcross). rewrite map_app in Hlo. setoid_rewrite in_app_iff in Hlo.
  destruct (chunk_ok es i Hs Ho) as (Hsm & Hn & Hso & _).
  assert (m !! id = Some (leaf_image (chunk_at es i) (hd rootSentinel ids))) as Hl by (apply (Hm (id, _)); by left).
  destruct ids as [|id2 ids].
  - assert (rest_at es (S i) = []) as ->.
    { apply nil_length_inv. pose proof (rest_length es (S i)) as Hr. change (zlen (@nil Z)) with 0 in *.
      unfold zlen in *. lia. }
    apply (ch_cons m 0 id PosInf [] lo PosInf rootSentinel rootSentinel id (chunk_at es i) [] [id] []).
    + destruct Hlow as [->|(k & -> & _)]; done.
    + constructor; [exact Hl| |split; [done|unfold rootSentinel; lia]].
      split; [done|]. split; [done|]. split; [done|]. intros k Hk. split; [by apply Hlo; left|done].
    + constructor.
  - assert (chunk_at es (S i) <> []) as Hne2.
    { apply chunk_nonempty. rewrite zlen_cons in Hlt, Hz. pose proof (zlen_nonneg ids). lia. }
    pose proof (first_key_in _ Hne2) as Hfk.
    assert (In (first_key (chunk_at es (S i))) (map fst (rest_at es (S i)))) as Hfr.
    { rewrite rest_step, map_app, in_app_iff. by left. }
    cbn [length Nat.sub]. unfold separators. cbn [seq map app zip zip_with].
    apply (ch_cons m 0 id _ _ lo PosInf rootSentinel id2 id (chunk_at es i) (rest_at es (S i)) [id] (id2 :: ids)).
    + destruct Hlow as [->|(k & -> & Hk)]; [done|]. by apply Hcross.
    + constructor; [exact Hl| |by apply Forall_cons in Hu as [? _]].
      split; [done|]. split; [done|]. split; [done|]. intros k Hk. split; [by apply Hlo; left|]. by apply Hcross.
    + specialize (IH (S i) (Fin (first_key (chunk_at es (S i))))).
      cbn [length Nat.sub] in IH. rewrite Nat.sub_0_r in IH. apply IH; [done|done|lia|lia| | |].
      * intros p Hp. apply Hm. by right.
      * intros k Hk. rewrite rest_step in Hk. pose proof (rest_sorted es (S i) Ho) as Hr2.
        rewrite rest_step in Hr2. apply om_sorted_app in Hr2 as (Hs1 & _ & Hcr).
        rewrite map_app, in_app_iff in Hk. destruct Hk as [Hk|Hk]; [|by apply bytes_lt_le, Hcr].
        destruct (chunk_at es (S i)) as [|[k0 v0] c]; [done|]. cbn in Hk |- *. destruct Hk as [->|Hk].
        -- apply bytes_le_refl.
        -- apply bytes_lt_le. apply om_sorted_cons in Hs1 as [_ Hs1]. by apply Hs1.
      * right. by exists (first_key (chunk_at es (S i))).
Qed.

(** The separators [Compact] computes for a single internal node are the first
    keys of its children but the first. *)
Lemma sep_keys_first es k :
  (Z.of_nat k - 1) * 7 < zlen es ->
  map data (sep_keys (to_entries es) 0 (Z.of_nat k)) = separators es 1 (k - 1).
Proof.
  intros Hlt. unfold sep_keys, separators. replace (Z.to_nat (Z.of_nat k - 1)) with (k - 1)%nat by lia.
  rewrite map_map, <- (seq_shift _ 0), map_map. apply map_ext_in. intros j Hj%in_seq.
  assert (zlen (to_entries es) = zlen es) as -> by (unfold to_entries, zlen; by rewrite length_map).
  unfold MaxLeafKeys. rewrite (proj2 (Z.leb_gt _ _)) by lia.
  assert (chunk_at es (S j) <> []) as Hne by (apply chunk_nonempty; lia).
  unfold to_entries. rewrite nth_error_map.
  unfold chunk_at, ztake, zdrop, MaxLeafKeys in *. replace (Z.of_nat (S j) * 7) with (0 + (Z.of_nat j + 1) * 7) in * by lia.
  destruct (drop (Z.to_nat (0 + (Z.of_nat j + 1) * 7)) es) as [|e l] eqn:E; [done|].
  rewrite <- (Nat.add_0_r (Z.to_nat _)), <- nth_error_skipn, E. done.
Qed.

Definition level_pages (es : list entry) (ids : list Z) (root : Z) : list (Z * list byte) :=
  if (1 <? length ids)%nat then [(root, node_image ids (separators es 1 (length ids - 1)))] else [].

Lemma separators_small es i n : Forall small_entry es -> (Z.of_nat i + Z.of_nat n - 1) * 7 < zlen es ->
  Forall (fun k => zlen k <= MaxKeySize) (separators es i n).
Proof.
  intros Hs Hlt. apply Forall_map, Forall_forall. intros j Hj%list_elem_of_In%in_seq.
  assert (chunk_at es j <> []) as Hne by (apply chunk_nonempty; lia).
  pose proof (chunk_small es j Hs) as Hc. destruct (chunk_at es j) as [|e c]; [done|].
  by apply Forall_cons in Hc as [[? _] _].
Qed.

Lemma build_levels_run es ids fuel s n m r mt :
  running s (S n) (mkView m None) r -> Forall small_entry es ->
  1 <= zlen ids <= 57 -> (zlen ids - 1) * 7 < zlen es -> Forall u64 ids -> (length ids <= fuel)%nat ->
  chain mt 0 (zip ids (map Fin (separators es 1 (length ids - 1)) ++ [PosInf])) NegInf PosInf rootSentinel
    (hd rootSentinel ids) es ids ->
  exists root s' m1,
    build_levels fuel None (to_entries es) ids s = (Ok (level_pages es ids root, root), s') /\
    running s' n (mkView m1 None) r /\
    (if (1 <? length ids)%nat then grown m m1 [root] else m1 = m /\ ids = [root]).
Proof.
  intros Hr Hs Hk Hlt Hu Hf Hc. unfold level_pages.
  assert (zlen ids = Z.of_nat (length ids)) as Hz by done.
  destruct ids as [|id [|id2 ids]]; [cbn in Hz; lia| |].
  - exists id, s, m. split; [by destruct fuel|]. split; [eapply running_weaken; [|exact Hr]; lia|done].
  - set (l := id :: id2 :: ids) in *. assert (length l = S (S (length ids))) as Hlen by done.
    rewrite (proj2 (Nat.ltb_lt _ _)) by lia. destruct fuel as [|[|fuel]]; [lia|lia|].
    cbn [build_levels]. rewrite (proj2 (Z.ltb_lt _ _)) by lia. cbn zeta. unfold MaxInternalKeys.
    replace ((zlen l + (56 + 1) - 1) / (56 + 1)) with 1
      by (apply (Z.div_unique _ _ _ (zlen l - 1)); lia).
    change (Z.to_nat 1) with 1%nat. cbn [build_nodes]. cbn zeta. unfold MaxInternalKeys.
    change (0 * (56 + 1)) with 0. replace (ztake (56 + 1) (zdrop 0 l)) with l
      by (unfold zdrop; rewrite drop_0, ztake_all by lia; done).
    destruct (AllocatePage_run s n _ r Hr eq_refl) as (root & s1 & E1 & Hid & Hrange & Hr1).
    pose proof (sep_keys_first es (length l) ltac:(lia)) as Hsep. rewrite <- Hz in Hsep.
    assert (zlen (sep_keys (to_entries es) 0 (zlen l)) = zlen l - 1) as Hcount.
    { unfold sep_keys, zlen. rewrite length_map, length_seq. lia. }
    destruct (node_encode l (sep_keys (to_entries es) 0 (zlen l))) as [Ee _].
    { lia. }
    { unfold MaxInternalKeys. lia. }
    { apply keys_ascending_sorted. rewrite Hsep.
      eapply (chain_keys_sorted _ _ _ _ _ _ _ _ _ _ Hc). apply map_snd_zip.
      unfold separators. rewrite length_app, !length_map, length_seq. cbn [length]. lia. }
    { apply (Forall_map data (fun k => zlen k <= MaxKeySize)). rewrite Hsep. apply separators_small; [done|]. lia. }
    { done. }
    rewrite bind_assoc. erewrite bind_ok by exact E1. unfold check. rewrite bind_assoc, Ee, Hsep, bind_lift.
    rewrite bind_assoc, !bind_ret. cbn [map fst].
    exists root, s1, (<[root := zero_body]> m). split; [done|]. split; [done|].
    eapply grown_cons; [exact Hid|]. split; [constructor|]. split; [|done]. intros i Hi. by apply elem_of_nil in Hi.
Qed.

(** * Writing the pages *)

Lemma write_all_run pages s n m r :
  running s n (mkView m None) r -> NoDup (map fst pages) ->
  Forall (fun p => is_Some (m !! fst p) /\ zlen (snd p) = DataPageBodySize) pages ->
  exists s' m1, for_each pages (fun '(id, body) => WritePage None id body) s = (Ok tt, s') /\
    running s' n (mkView m1 None) r /\
    (forall p, In p pages -> m1 !! fst p = Some (snd p)) /\
    (forall i, i ∉ map fst pages -> m1 !! i = m !! i).
Proof.
  revert s m. induction pages as [|[id body] pages IH]; intros s m Hr Hnd Hp.
  - exists s, m. split; [done|]. split; [done|]. split; [by intros p []|done].
  - apply NoDup_cons in Hnd as [Hid Hnd]. apply Forall_cons in Hp as [[Hs Hb] Hp]. cbn [fst snd] in *.
    destruct (WritePage_run s n _ r id body Hr Hs Hb) as (s1 & E1 & Hr1). cbn [v_pages v_tx] in Hr1.
    destruct (IH s1 (<[id := body]> m) Hr1 Hnd) as (s2 & m1 & E2 & Hr2 & Hin & Hout).
    { eapply Forall_impl; [exact Hp|]. intros [i b] [Hi ?]. split; [|done]. apply lookup_insert_is_Some'. by right. }
    exists s2, m1. cbn [for_each]. erewrite bind_ok by exact E1. split; [done|]. split; [done|]. split.
    + intros p [<-|Hin']; [|by apply Hin]. cbn [fst snd]. rewrite Hout by done. apply lookup_insert_eq.
    + intros i Hi. apply not_elem_of_cons in Hi as [Hne Hi]. rewrite Hout by done. by apply lookup_insert_ne.
Qed.

Lemma write_meta_run s n m r root :
  running s (S n) (mkView m None) r -> is_Some (m !! MetaPageID) ->
  exists s', write_meta None root s = (Ok tt, s') /\
    running s' n (mkView (<[MetaPageID := meta_image root]> m) None) root.
Proof.
  intros Hr Hm. unfold write_meta, or_rollback.
  destruct (BeginTx_run _ _ _ _ Hr eq_refl) as (s1 & E1 & Hr1). erewrite bind_ok by exact E1.
  destruct (WritePage_run s1 n _ r MetaPageID (encodeMetaPage root) Hr1 Hm) as (s2 & E2 & Hr2).
  { rewrite encodeMetaPage_image. apply zlen_meta_image. }
  erewrite bind_ok by (apply cleanup_ok; exact E2). cbn [v_pages v_tx] in Hr2.
  destruct (CommitTx_run s2 n _ r _ Hr2 eq_refl) as (s3 & E3 & Hr3). erewrite bind_ok by exact E3.
  exists (with_root root s3). split; [done|]. rewrite encodeMetaPage_image in Hr3.
  destruct Hr3 as (? & ? & ? & ?). by split.
Qed.

Lemma freeTree_run s n m r h root first l ids fuel c :
  running s n (mkView m None) r -> subtree m h root NegInf PosInf rootSentinel first l ids -> NoDup ids ->
  (h < fuel)%nat ->
  exists s' m1, freeTreePages fuel c None root s = (Ok tt, s') /\ running s' n (mkView m1 None) r /\
    without m1 m ids.
Proof.
  intros Hr Hs Hnd Hf. unfold freeTreePages. destruct (proj1 (subtree_alloc m) _ _ _ _ _ _ _ _ Hs) as (Ha & Hroot & _).
  destruct (Ha root Hroot) as [b Hb]. pose proof (running_pages _ _ _ _ root b Hr Hb) as Hrange.
  rewrite (proj2 (Z.eqb_neq root rootSentinel)) by (unfold rootSentinel, max_pages in *; lia).
  destruct (proj1 (freeNode_run n r c m) _ _ _ _ _ _ _ _ Hs fuel ∅ m s) as (s' & v & m1 & E & Hr1 & Hw & _);
    [done|done|done|done| |].
  { intros i _ Hi. by apply elem_of_empty in Hi. }
  erewrite bind_ok by exact E. by exists s', m1.
Qed.

(** * Compact *)

(** [tree_pages] with the pages of the tree named. *)
Definition tree_at (m : gmap Z (list byte)) (root : Z) (h : nat) (l : list entry) (ids : list Z) : Prop :=
  m !! MetaPageID = Some (meta_image root) /\ NoDup (MetaPageID :: ids) /\
  if decide (root = rootSentinel) then l = [] /\ ids = []
  else exists first, subtree m h root NegInf PosInf rootSentinel first l ids.

Lemma tree_at_pages m root h l ids : tree_at m root h l ids -> tree_pages m root h l.
Proof.
  intros (Hm & Hnd & Ht). split; [done|]. destruct (decide _); [by destruct Ht as [? _]|].
  destruct Ht as [first Ht]. by exists first, ids.
Qed.

(** The pages a tree of [k] leaves takes when packed. *)
Definition packed_pages (k : nat) : nat := if (1 <? k)%nat then S k else k.

Definition leaves_for (l : list entry) : nat := Z.to_nat ((zlen l + 6) / 7).

Lemma numLeaves_for l : numLeaves (to_entries l) = leaves_for l.
Proof. unfold numLeaves, leaves_for, to_entries, zlen, MaxLeafKeys. rewrite length_map. do 2 f_equal. lia. Qed.

Lemma leaves_for_bounds l k :
  k = leaves_for l -> zlen l <= Z.of_nat k * 7 /\ (0 < zlen l -> (Z.of_nat k - 1) * 7 < zlen l) /\ (0 < zlen l -> (0 < k)%nat).
Proof.
  intros ->. unfold leaves_for. pose proof (zlen_nonneg l). pose proof (Z.div_mod (zlen l + 6) 7 ltac:(lia)).
  pose proof (Z.mod_pos_bound (zlen l + 6) 7 ltac:(lia)).
  pose proof (Z.div_pos (zlen l + 6) 7 ltac:(lia) ltac:(lia)). lia.
Qed.

(** Every entry of a tree is small. *)
Lemma subtree_small m :
  (forall h pid lo hi next first es ids, subtree m h pid lo hi next first es ids -> Forall small_entry es) /\
  (forall h ch lo hi next first es ids, chain m h ch lo hi next first es ids -> Forall small_entry es).
Proof.
  apply subtree_chain_ind; try done.
  - intros pid lo hi next es _ (? & _) _. done.
  - intros. apply Forall_app. by split.
Qed.

(** The tree [Compact] leaves in a map that holds its pages. *)
Lemma packed_tree m es ids root :
  Forall small_entry es -> om_sorted es -> 1 <= zlen ids <= 57 ->
  (zlen ids - 1) * 7 < zlen es -> zlen es <= zlen ids * 7 -> Forall u64 ids ->
  (if (1 <? length ids)%nat then True else ids = [root]) ->
  (forall p, In p (linked es 0 ids ++ level_pages es ids root) -> m !! fst p = Some (snd p)) ->
  exists h first, subtree m h root NegInf PosInf rootSentinel first es
    (if (1 <? length ids)%nat then root :: ids else ids) /\ (h <= 1)%nat.
Proof.
  intros Hs Ho Hk Hlt Hle Hu Hroot Hm.
  assert (ids <> []) as Hne by (intros ->; change (zlen (@nil Z)) with 0 in Hk; lia).
  assert (chain m 0 (zip ids (map Fin (separators es 1 (length ids - 1)) ++ [PosInf])) NegInf PosInf rootSentinel
    (hd rootSentinel ids) es ids) as Hc.
  { apply (linked_chain m es ids 0 NegInf); [done|done|done|done|lia|lia| |done|by left].
    intros p Hp. apply Hm, in_app_iff. by left. }
  unfold level_pages in Hm. destruct (Nat.ltb_spec 1 (length ids)) as [H1|H1].
  - exists 1%nat, (hd rootSentinel ids). split; [|lia].
    assert (length ids = length (map Fin (separators es 1 (length ids - 1)) ++ [PosInf])) as Hlen.
    { unfold separators. rewrite length_app, !length_map, length_seq. cbn [length]. lia. }
    apply (st_node m 0 root NegInf PosInf rootSentinel _
      (zip ids (map Fin (separators es 1 (length ids - 1)) ++ [PosInf])) (separators es 1 (length ids - 1)) es ids).
    + rewrite map_fst_zip by lia. apply (Hm (root, _)), in_app_iff. right. by left.
    + by apply map_snd_zip.
    + unfold separators, zlen in *. rewrite length_map, length_seq. unfold MaxInternalKeys. lia.
    + apply separators_small; [done|]. unfold zlen in *. lia.
    + exact Hc.
  - subst ids. exists 0%nat, root. split; [|lia]. cbn in Hc.
    apply chain_cons_inv in Hc as (n1 & e1 & e2 & i1 & i2 & -> & Hids & _ & Hsub & Hc). inversion Hc; subst.
    rewrite app_nil_r in *. inversion Hsub; subst. exact Hsub.
Qed.

(** Building and writing the new tree, up to the switch of the root. *)
Lemma build_tree_run s n m r l :
  running s (n + leaves_for l + 1) (mkView m None) r -> Forall small_entry l -> om_sorted l ->
  0 < zlen l <= 399 ->
  exists leaves root ids s' m', exists pages nodes,
    build_leaves None (to_entries l) (numLeaves (to_entries l)) 0 s = (Ok pages, leaves) /\
    (forall s0, link_leaves (P := P) None (to_entries l) 0 pages s0 = (Ok (linked l 0 ids), s0)) /\
    (exists s1, build_levels (numLeaves (to_entries l)) None (to_entries l) ids leaves = (Ok (nodes, root), s1) /\
     for_each (linked l 0 ids ++ nodes) (fun '(id, body) => WritePage None id body) s1 = (Ok tt, s')) /\
    running s' n (mkView m' None) r /\
    let ids' := if (1 <? length ids)%nat then root :: ids else ids in
    length ids = leaves_for l /\ NoDup ids' /\ root ∈ ids' /\
    (forall i, i ∈ ids' -> m !! i = None) /\ (forall i, i ∉ ids' -> m' !! i = m !! i) /\
    exists h first, subtree m' h root NegInf PosInf rootSentinel first l ids' /\ (h <= 1)%nat.
Proof.
  intros Hr Hs Ho Hl. destruct (leaves_for_bounds l _ eq_refl) as (Hle & Hlt & Hpos).
  specialize (Hlt ltac:(lia)). specialize (Hpos ltac:(lia)). rewrite !numLeaves_for. set (k := leaves_for l) in *.
  destruct (build_leaves_run l k 0 s (S n) m r) as (ids & s1 & m1 & E1 & Hlen & Hr1 & Hnd & Hnew & Hold);
    [eapply running_weaken; [|exact Hr]; lia|done|done|].
  assert (zlen ids = Z.of_nat k) as Hz by (unfold zlen; by rewrite Hlen).
  assert (Forall u64 ids) as Hu.
  { apply Forall_forall. intros i Hi. destruct (Hnew i Hi) as [_ [b Hb]].
    pose proof (running_pages _ _ _ _ i b Hr1 Hb). unfold u64, max_pages, FirstDataPageID in *. lia. }
  assert (ids <> []) as Hne by (intros ->; cbn in Hlen; lia).
  assert (chain (list_to_map (linked l 0 ids)) 0 (zip ids (map Fin (separators l 1 (length ids - 1)) ++ [PosInf]))
    NegInf PosInf rootSentinel (hd rootSentinel ids) l ids) as Hc.
  { apply (linked_chain _ l ids 0 NegInf); [done|done|done|done|lia|lia| |done|by left].
    intros [i b] Hp. apply elem_of_list_to_map_1; [|by apply list_elem_of_In].
    change (linked l 0 ids).*1 with (map fst (linked l 0 ids)). by rewrite linked_fst. }
  destruct (build_levels_run l ids k s1 n m1 r _ Hr1 Hs ltac:(lia) ltac:(lia) Hu ltac:(lia) Hc)
    as (root & s2 & m2 & E2 & Hr2 & Hg).
  set (ids' := if (1 <? length ids)%nat then root :: ids else ids).
  assert (NoDup ids' /\ root ∈ ids' /\ (forall i, i ∈ ids' -> m !! i = None /\ is_Some (m2 !! i)) /\
    (forall i, i ∉ ids' -> m2 !! i = m !! i)) as (Hnd' & Hroot & Hnew' & Hold').
  { unfold ids'. destruct (1 <? length ids)%nat.
    - destruct Hg as (_ & Hg1 & Hg2). destruct (Hg1 root) as [Hr0 Hrs]; [by left|].
      assert (root ∉ ids) as Hn. { intros Hi. destruct (Hnew root Hi) as [_ [b Hb]]. congruence. }
      split; [by constructor|]. split; [by left|]. split.
      + intros i [->|Hi]%elem_of_cons; [by rewrite <- Hold|]. destruct (Hnew i Hi). split; [done|].
        rewrite Hg2; [done|]. intros ->%list_elem_of_singleton. contradiction.
      + intros i Hi. apply not_elem_of_cons in Hi as [Hi1 Hi2]. rewrite Hg2, Hold; [done|done|].
        by intros ->%list_elem_of_singleton.
    - destruct Hg as [-> ->]. split; [done|]. split; [by left|]. done. }
  assert (map fst (linked l 0 ids ++ level_pages l ids root) ≡ₚ ids') as Hfst.
  { rewrite map_app, linked_fst. unfold level_pages, ids'. destruct (1 <? length ids)%nat.
    - cbn [map fst]. solve_Permutation.
    - by rewrite app_nil_r. }
  assert (Forall (fun p => zlen (snd p) = DataPageBodySize) (linked l 0 ids ++ level_pages l ids root)) as Hbodies.
  { apply Forall_app. split.
    - clear -Hs Ho. generalize 0%nat. induction ids as [|id ids IH]; intros i; [constructor|].
      constructor; [|apply IH]. by apply encode_chunk.
    - unfold level_pages. destruct (Nat.ltb_spec 1 (length ids)); [|constructor]. constructor; [|constructor].
      pose proof (separators_small l 1 (length ids - 1) Hs ltac:(lia)) as Hss.
      cbn [snd]. rewrite <- (map_id (separators l 1 (length ids - 1))).
      change (fun x => x) with (fun x => data (importKey x)). rewrite <- (map_map importKey data).
      apply node_encode.
      + unfold separators, zlen. rewrite !length_map, length_seq. lia.
      + unfold separators, zlen, MaxInternalKeys. rewrite !length_map, length_seq. lia.
      + apply keys_ascending_sorted. rewrite map_map. cbn [data importKey EncodeBytes]. rewrite map_id.
        eapply (chain_keys_sorted _ _ _ _ _ _ _ _ _ _ Hc). apply map_snd_zip.
        unfold separators. rewrite length_app, !length_map, length_seq. cbn [length]. lia.
      + apply Forall_map. exact Hss.
      + done. }
  destruct (write_all_run (linked l 0 ids ++ level_pages l ids root) s2 n m2 r Hr2) as (s3 & m3 & E3 & Hr3 & Hin & Hout).
  { by rewrite Hfst. }
  { apply Forall_forall. intros p Hp. split; [|by eapply Forall_forall in Hbodies].
    apply Hnew'. rewrite <- Hfst. apply list_elem_of_In, in_map, list_elem_of_In, Hp. }
  exists s1, root, ids, s3, m3, (zip ids (unlinked l 0 k)), (level_pages l ids root). cbn zeta. fold ids'.
  split; [exact E1|]. split; [rewrite <- Hlen; intros s0; by apply link_leaves_run|].
  split; [by exists s2|]. split; [exact Hr3|]. split; [exact Hlen|]. split; [done|]. split; [done|].
  split; [intros i Hi; by apply Hnew'|]. split.
  - intros i Hi. rewrite Hout; [by apply Hold'|]. by rewrite Hfst.
  - apply packed_tree; [done|done|lia|lia|lia|done| |done].
    destruct (1 <? length ids)%nat; [done|]. by destruct Hg.
Qed.

Definition compacted (s : btreeStore) (n : nat) (m : gmap Z (list byte)) (l : list entry) (ids : list Z) : Prop :=
  exists m' r' h' ids', running s n (mkView m' None) r' /\ tree_at m' r' h' l ids' /\ (h' <= 1)%nat /\
    length ids' = packed_pages (leaves_for l) /\ (forall i, i ∈ ids -> m' !! i = None) /\
    (forall i, i ∉ MetaPageID :: ids ++ ids' -> m' !! i = m !! i).

Lemma subtree_root_ok s n m tx r h root first l ids :
  running s n (mkView m tx) r -> subtree m h root NegInf PosInf rootSentinel first l ids -> root <> rootSentinel.
Proof.
  intros Hr Hs. destruct (proj1 (subtree_alloc m) _ _ _ _ _ _ _ _ Hs) as (Ha & Hroot & _).
  destruct (Ha root Hroot) as [b Hb]. pose proof (running_pages _ _ _ _ root b Hr Hb).
  unfold rootSentinel, max_pages in *. lia.
Qed.

(** Switching to the new root and freeing the old tree. *)
Lemma switch_run s n m m2 r h first l l' ids ids' root h' fuel c :
  running s (S n) (mkView m2 None) r -> m !! MetaPageID = Some (meta_image r) ->
  subtree m h r NegInf PosInf rootSentinel first l ids -> NoDup (MetaPageID :: ids) -> (h < fuel)%nat ->
  NoDup ids' -> (forall i, i ∈ ids' -> m !! i = None) -> (forall i, i ∉ ids' -> m2 !! i = m !! i) ->
  (if decide (root = rootSentinel) then l' = [] /\ ids' = []
   else exists first', subtree m2 h' root NegInf PosInf rootSentinel first' l' ids') ->
  exists s' m', (write_meta None root ;;; freeTreePages fuel c None r) s = (Ok tt, s') /\
    running s' n (mkView m' None) root /\ tree_at m' root h' l' ids' /\ (forall i, i ∈ ids -> m' !! i = None) /\
    (forall i, i ∉ MetaPageID :: ids ++ ids' -> m' !! i = m !! i).
Proof.
  intros Hr Hmeta Hs Hnd Hf Hnd' Hnew Hold Ht. apply NoDup_cons in Hnd as [Hmi Hnd].
  assert (MetaPageID ∉ ids') as Hmi'. { intros Hi. specialize (Hnew _ Hi). congruence. }
  assert (forall i, i ∈ ids -> i ∉ ids') as Hdisj.
  { intros i Hi Hi'. destruct (proj1 (proj1 (subtree_alloc m) _ _ _ _ _ _ _ _ Hs) i Hi) as [b Hb].
    specialize (Hnew _ Hi'). congruence. }
  destruct (write_meta_run s n m2 r root Hr) as (s1 & E1 & Hr1); [rewrite Hold by done; by eexists|].
  erewrite bind_ok by exact E1. set (m3 := <[MetaPageID := meta_image root]> m2) in *.
  assert (subtree m3 h r NegInf PosInf rootSentinel first l ids) as Hs3.
  { eapply subtree_frame; [exact Hs|]. intros i Hi. unfold m3.
    rewrite lookup_insert_ne by (intros <-; contradiction). by apply Hold, Hdisj. }
  destruct (freeTree_run s1 n m3 root h r first l ids fuel c Hr1 Hs3 Hnd Hf) as (s2 & m4 & E2 & Hr2 & Hw).
  exists s2, m4. split; [exact E2|]. split; [exact Hr2|]. split; [|split].
  - split; [|split; [by constructor|]].
    + rewrite Hw, decide_False by done. apply lookup_insert_eq.
    + destruct (decide (root = rootSentinel)); [done|]. destruct Ht as [f' Ht]. exists f'.
      eapply subtree_frame; [exact Ht|]. intros i Hi. rewrite Hw, decide_False by (intros ?; by eapply Hdisj).
      unfold m3. by rewrite lookup_insert_ne by (intros <-; contradiction).
  - intros i Hi. by rewrite Hw, decide_True.
  - intros i Hi. apply not_elem_of_cons in Hi as [Hne Hi]. rewrite elem_of_app in Hi.
    rewrite Hw, decide_False by tauto. unfold m3. rewrite lookup_insert_ne by done. apply Hold. tauto.
Qed.

Lemma compact_run s n m r h l ids :
  running s (n + leaves_for l + 2) (mkView m None) r -> tree_at m r h l ids -> zlen l <= 399 ->
  exists c, forall fuel lv, (h < fuel)%nat -> (c <= lv)%nat ->
  exists s', Compact fuel lv None s = (Ok tt, s') /\ compacted s' n m l ids.
Proof.
  intros Hr (Hmeta & Hnd & Ht) Hl. unfold Compact.
  assert (forall A (k : Z -> K A), (checkOpen ;;; root <- gets rootPageID ;; k root) s = k r s) as Hpre.
  { intros A k. erewrite bind_ok by by eapply checkOpen_run. by rewrite bind_gets, (rootPageID_run _ _ _ _ Hr). }
  destruct (decide (r = rootSentinel)) as [->|Hne].
  - destruct Ht as [-> ->]. exists 0%nat. intros fuel lv _ _. rewrite Hpre, Z.eqb_refl. exists s. split; [done|].
    exists m, rootSentinel, 0%nat, []. split; [eapply running_weaken; [|exact Hr]; lia|].
    split; [split; [done|split; [done|by rewrite decide_True]]|]. split; [lia|]. split; [done|].
    split; [intros i Hi; by apply elem_of_nil in Hi|done].
  - destruct Ht as (first & Hs). destruct (proj1 (subtree_leaves m) _ _ _ _ _ _ _ _ Hs) as (c & Hlv & _). exists c.
    intros fuel lv Hf Hle. rewrite Hpre, (proj2 (Z.eqb_neq r rootSentinel)) by done.
    destruct (proj1 (subtree_sorted m) _ _ _ _ _ _ _ _ Hs) as [Ho _].
    pose proof (proj1 (subtree_small m) _ _ _ _ _ _ _ _ Hs) as Hsm.
    assert (exists s2, scanAll fuel lv None s = (Ok (to_entries l), s2) /\
      running s2 (n + leaves_for l + 2) (mkView m None) r) as (s2 & E2 & Hr2).
    { unfold scanAll. rewrite bind_gets, (rootPageID_run _ _ _ _ Hr).
      destruct (scanAll_run s _ m r h r _ _ _ _ l ids fuel lv Hr Hs Hf) as (s1 & E1 & Hr1). rewrite E1.
      destruct (scanLeaf_run s1 _ m r c first l allKey allKey [] lv Hr1 Hlv Ho Hle) as (s2 & E2 & Hr2).
      exists s2. rewrite E2, scan_result_all. by split. }
    erewrite bind_ok by exact E2. destruct l as [|e l].
    + destruct (switch_run s2 n m m r h first [] [] ids [] rootSentinel 0 fuel lv) as (s3 & m3 & E3 & Hr3 & Ht3 & Hfree & Hold);
        [eapply running_weaken; [|exact Hr2]; lia|done|done|done|done|constructor| |done|by rewrite decide_True|].
      { intros i Hi. by apply elem_of_nil in Hi. }
      exists s3. split; [exact E3|]. exists m3, rootSentinel, 0%nat, []. split_and!; try done. lia.
    + set (l1 := e :: l) in *.
      assert (0 < zlen l1 <= 399) as Hl1 by (split; [unfold l1; rewrite zlen_cons; pose proof (zlen_nonneg l); lia|done]).
      destruct (build_tree_run s2 (S n) m r l1) as (s3 & root & ids1 & s5 & m2 & pages & nodes & B1 & B2 & (s4 & B3 & B4)
        & Hr5 & Hlen & Hnd1 & Hroot & Hnew & Hold & h' & f' & Hs' & Hh');
        [eapply running_weaken; [|exact Hr2]; lia|done|done|done|].
      set (ids' := if (1 <? length ids1)%nat then root :: ids1 else ids1) in *.
      change (to_entries l1) with (mkEntry (importKey (fst e)) (snd e) :: to_entries l) in *. cbv iota.
      erewrite bind_ok by exact B1. erewrite bind_ok by apply B2. rewrite linked_fst. erewrite bind_ok by exact B3.
      cbv beta iota. erewrite bind_ok by exact B4. unfold validate_root.
      destruct (proj1 (proj1 (subtree_alloc m2) _ _ _ _ _ _ _ _ Hs') root Hroot) as [b Hb].
      destruct (ReadPage_run s5 (S n) _ r root b Hr5 Hb) as (s6 & E6 & Hr6). unfold bind at 1. rewrite E6.
      destruct (switch_run s6 n m m2 r h first l1 l1 ids ids' root h' fuel lv) as (s7 & m3 & E7 & Hr7 & Ht7 & Hfree & Hold7);
        try done.
      { rewrite decide_False by (by eapply subtree_root_ok). by exists f'. }
      exists s7. split; [exact E7|]. exists m3, root, h', ids'. split_and!; try done.
      unfold ids', packed_pages. rewrite <- Hlen. by destruct (1 <? length ids1)%nat; cbn; rewrite ?Hlen.
Qed.

(** Check accepts every tree the store can hold: ordered keys, keys at or above
    the separator of their node, no page reached twice, every page below the page
    count; the store is unchanged, and fuel one larger than the height suffices. *)
Theorem kv_check_accepts s n h l fuel :
  tree_rep s n h l -> (h < fuel)%nat ->
  exists s', Check_ fuel None s = (Ok tt, s') /\ tree_rep s' n h l.
Proof. apply tree_rep_check. Qed.

(** C19: Compact of a tree of at most 57 full leaves (399 entries), with values of at most
    [MaxValSize] = 512 bytes, succeeds: the store holds the same map in a tree of height
    at most one on the smallest number of pages that hold it, all of them new; every page
    of the old tree is free again, and no other page but the meta page has changed.
    Longer values and more entries are lost: [compact_loses_large_value],
    [compact_loses_keys]. *)
Theorem kv_compact_refines s n m r h l ids :
  running s (n + leaves_for l + 2) (mkView m None) r -> tree_at m r h l ids -> zlen l <= 399 ->
  exists c, forall fuel leaves, (h < fuel)%nat -> (c <= leaves)%nat ->
  exists s', Compact fuel leaves None s = (Ok tt, s') /\ compacted s' n m l ids.
Proof. apply compact_run. Qed.
End proofs.

(** * Beyond one internal node

    The separator at child [j] of internal node [i] is taken at entry
    [start + (j+1) * MaxLeafKeys], where [start] counts children, not entries; it is
    right for the first node of the first level only.  With 400 entries there are two
    internal nodes, and the root sends every key from the eighth on to the second,
    which holds the last leaf. *)

Definition nth_key (i : nat) : Key := importKey (be_encode 2 (Z.of_nat i)).

Definition fill_and_compact (n : nat) : K (P := memPager) unit :=
  Open None ;;;
  for_each (seq 0 n) (fun i => Set_ 5 None (nth_key i) []) ;;;
  Compact 5 200 None.

Theorem compact_loses_keys :
  let '(r, s) := fill_and_compact 400 (newBtreeStore empty_mem) in
  r = Ok tt /\ fst (Get 5 None (nth_key 10) s) = Err (KvErr ErrKeyNotFound) /\
  match fst (Scan 5 200 None allKey allKey s) with
  | Ok l => length l = 400%nat /\ existsb (fun e => bool_decide (data (eKey e) = data (nth_key 10))) l = true
  | Err _ => False
  end.
Proof. vm_compute. done. Qed.

(** * Values in overflow chains

    For a value of more than [MaxValSize] bytes Compact allocates the pages of a new chain
    and drops them unwritten.  The value of a single entry is read before and is corrupt
    after a Compact that reports success. *)

Definition large_then (c : K (P := memPager) unit) : K (P := memPager) (list byte) :=
  Open None ;;;
  Set_ 5 None (nth_key 1) (zrep 513 x62) ;;;
  c ;;;
  Get 5 None (nth_key 1).

Theorem compact_loses_large_value :
  fst (large_then (ret tt) (newBtreeStore empty_mem)) = Ok (zrep 513 x62) /\
  fst ((large_then (Compact 5 200 None)) (newBtreeStore empty_mem)) = Err (KvErr ErrTreeCorrupt) /\
  is_ok (fst ((Open None ;;; Set_ 5 None (nth_key 1) (zrep 513 x62) ;;; Compact 5 200 None) (newBtreeStore (P := memPager) empty_mem))) = true.
Proof. vm_compute. done. Qed.
