(* ===== verification/Examples.v ===== *)
(** The properties of the storage and the tables at concrete inputs: each instance applies a theorem of the
    development to a state or value on which its hypotheses hold. *)

From Stdlib Require Import ZArith Lia Sorted.
From stdpp Require Import gmap.
From S2P Require Import Prelude Crc Key RowKey OrdMap Page Pager PagerSpec PagerSim PagerRefine PagerCrash PagerTrace KvNode Monad BTree BTreeRep BTreeStep BTreeProof BTreeSpec BTreeMaint PagerMem BTreeMaintProof.
Open Scope Z_scope.

(** * Keys *)

Lemma sort_composite_order_witness :
  match EncodeSortComposite [AUint64 1; AInt64 (-2)], EncodeSortComposite [AUint64 1; AInt64 3] with
  | Ok kl, Ok km => Compare kl km = Lt
  | _, _ => False
  end.
Proof.
  exact (sort_composite_order [AUint64 1; AInt64 (-2)] [AUint64 1; AInt64 3] _ _
    ltac:(repeat constructor; vm_compute; intuition discriminate)
    ltac:(repeat constructor; vm_compute; intuition discriminate) eq_refl eq_refl eq_refl).
Defined.

Lemma sort_composite_roundtrip_witness :
  exists k, EncodeSortComposite [AUint64 1; AInt64 (-2)] = Ok k /\
    DecodeSortComposite k = Ok [AUint64 1; AInt64 (-2)].
Proof.
  apply (sort_composite_roundtrip [AUint64 1; AInt64 (-2)]); [discriminate|].
  repeat constructor; vm_compute; intuition discriminate.
Defined.

Lemma ParseKey_valid_witness :
  exists k, ParseKey (zrep 16 x01) [KindUint64; KindInt64] = Ok k /\
    map fkind (fields k) = [KindUint64; KindInt64].
Proof.
  eexists. split; [reflexivity|].
  exact (proj1 (proj2 (ParseKey_valid (zrep 16 x01) [KindUint64; KindInt64] _ eq_refl))).
Defined.

Lemma storage_composite_roundtrip_witness :
  exists k, EncodeStorageComposite [AString [x61]; ABytes [x00; x01]] = Ok k /\
    ParseStorageCompositeKey (data k) [KindString; KindBytes] = Ok k /\
    DecodeStorageComposite k = Ok [AString [x61]; ABytes [x00; x01]].
Proof.
  apply (storage_composite_roundtrip [AString [x61]; ABytes [x00; x01]]); [discriminate|].
  repeat constructor.
Defined.

Lemma row_key_roundtrip_witness :
  exists d, EncodeTableRowKey 7 [Uint64 1; String [x61]] 2 = Ok d /\
    DecodeTableRowKey d [KindUint64; KindString] = Ok (7, [Uint64 1; String [x61]], 2).
Proof.
  apply (row_key_roundtrip 7 [Uint64 1; String [x61]] 2);
    [vm_compute; intuition discriminate|vm_compute; intuition discriminate|discriminate| |].
  - repeat constructor; vm_compute; intuition discriminate.
  - repeat split; discriminate.
Defined.

Lemma row_key_order_witness :
  match EncodeTableRowKey 7 [Uint64 1] 9, EncodeTableRowKey 7 [Uint64 2] 3 with
  | Ok d1, Ok d2 => bytes_compare d1 d2 = Lt
  | _, _ => False
  end.
Proof.
  refine (row_key_order 7 7 [Uint64 1] [Uint64 2] 9 3 _ _ _ _ _ _ _ _ eq_refl _ eq_refl eq_refl);
    try (vm_compute; intuition discriminate); repeat constructor; vm_compute; intuition discriminate.
Defined.

Lemma PrefixEnd_bounds_witness : bytes_lt ([x01; xff] ++ [xff; xff]) [x02; x00].
Proof. exact (proj2 (proj1 (PrefixEnd_bounds [x01; xff] [x02; x00] eq_refl) [xff; xff])). Defined.

Lemma pk_prefix_isolates_witness :
  match EncodeTableRowPrefix 7 [Uint64 1], EncodeTableRowKey 7 [Uint64 1] 5 with
  | Ok p, Ok d => match PrefixEnd p with Some e => bytes_le p d /\ bytes_lt d e | None => False end
  | _, _ => False
  end.
Proof.
  refine (proj2 (pk_prefix_isolates 7 7 [Uint64 1] [Uint64 1] 5 _ _ _ _ _ _ _ eq_refl _ eq_refl eq_refl eq_refl) _);
    try (vm_compute; intuition discriminate); try (repeat constructor; vm_compute; intuition discriminate).
Defined.

(** * Pages *)

Definition sample_page : list byte := match encodeDataPage zero_body with Ok d => d | Err _ => [] end.


Lemma header_roundtrip_and_detection_witness :
  let h := mkHeader MagicNumber FormatVersion PageSize 2 freeListSentinel 0 in
  decodeHeader (encodeHeader h) = Ok h.
Proof.
  refine (proj1 (header_roundtrip_and_detection _ _)).
  vm_compute. intuition discriminate.
Defined.

Lemma wal_record_roundtrip_witness :
  decodeNextWALRecord (encodeWALRecord 1 2 zero_body ++ [xff]) = Ok (mkWal 1 2 zero_body, zlen (encodeWALRecord 1 2 zero_body)).
Proof.
  refine (proj1 (wal_record_roundtrip 1 2 zero_body _ _ _ _) [xff]);
    [vm_compute; intuition discriminate|vm_compute; intuition discriminate|discriminate|vm_compute; reflexivity].
Defined.

Lemma internal_node_roundtrip_witness :
  exists body, encodeInternalNode [3; 4] [importKey [x61]] = Ok body /\ zlen body = DataPageBodySize /\
    decodeInternalNode body = Ok ([3; 4], [importKey [x61]]).
Proof.
  apply (internal_node_roundtrip 3 [4] [importKey [x61]]); try reflexivity.
  - apply Z.leb_le. reflexivity.
  - vm_compute. intuition discriminate.
  - repeat constructor; vm_compute; intuition discriminate.
Defined.

Lemma leaf_node_roundtrip_witness :
  exists body, encodeLeafNode [importKey [x61]] [[x01; x02]] rootSentinel = Ok body /\ zlen body = DataPageBodySize /\
    decodeLeafNodeRefs body = Ok ([importKey [x61]], [mkRef 2 [x01; x02] 0 false], rootSentinel).
Proof.
  destruct (leaf_node_roundtrip [importKey [x61]] [[x01; x02]] rootSentinel) as (body & E1 & E2 & E3 & _);
    [reflexivity|apply Z.leb_le; reflexivity|reflexivity|vm_compute; intuition discriminate| |by exists body].
  constructor; [|constructor]. split; [apply Z.leb_le; reflexivity|left; apply Z.leb_le; reflexivity].
Defined.

(** * The pager *)

#[local] Existing Instance sorted_range.

(** A pager on empty files, inside a transaction. *)
Lemma fresh_transaction :
  exists p, pager_rel p 1 (mkView ∅ (Some ∅)).
Proof.
  destruct (fresh_pager 2) as (q & _ & Hq & _); [done|].
  destruct (@pg_begin_law _ _ filePager_spec q 1 _ Hq eq_refl) as (p & _ & Hp). by exists p.
Qed.

(** A pager on empty files, in a transaction that may write page 2. *)
Lemma fresh_writer :
  exists p, pager_rel p 1 (mkView {[2 := zero_body]} (Some {[2 := zero_body]})).
Proof.
  destruct (fresh_pager 3) as (q & _ & Hq & Hc); [done|].
  destruct (@pg_first_alloc _ _ filePager_spec q 2 _ Hq eq_refl Hc) as (p & _ & Hp).
  destruct (@pg_begin_law _ _ filePager_spec p 1 _ Hp eq_refl) as (p2 & _ & Hp2). by exists p2.
Qed.


Lemma txn_write_crash_safe_witness :
  exists p q, Pager.Open None (Pager.restart
      (snd (Pager.WritePage None 2 zero_body (Pager.with_sched [Pager.IoFail 3] p)))) = (Ok tt, q) /\
    pager_rel q 1 (mkView {[2 := zero_body]} None).
Proof.
  destruct fresh_writer as [p Hp]. exists p.
  destruct (Pager.WritePage None 2 zero_body (Pager.with_sched [Pager.IoFail 3] p)) as [r p'] eqn:E.
  refine (txn_write_crash_safe p 1 _ {[2 := zero_body]} 2 zero_body [Pager.IoFail 3] r p' Hp eq_refl _ _ E).
  - by eexists.
  - apply zlen_zero_body.
Defined.

Lemma crash_recovers_committed_witness :
  exists p q, Pager.Open None (Pager.restart p) = (Ok tt, q) /\ pager_rel q 1 (mkView {[2 := zero_body]} None).
Proof.
  destruct fresh_writer as [p Hp]. exists p. exact (crash_recovers_committed p 1 _ Hp).
Defined.

Lemma clean_shutdown_witness :
  exists p p' q, Pager.Close None p = (Ok tt, p') /\ Pager.Open None (Pager.restart p') = (Ok tt, q) /\
    pager_rel q 1 (mkView {[2 := zero_body]} None).
Proof.
  destruct fresh_writer as [p Hp]. exists p.
  destruct (clean_shutdown p 1 _ Hp) as (p' & q & E & _ & _ & _ & _ & _ & _ & Eo & Hq). by exists p', q.
Defined.


Lemma primary_header_loss_witness :
  exists p q, Pager.Open None (Pager.newPager (Pager.write_at (Pager.mainFile p) (Pager.page_offset HeaderPageID)
      (zrep PageSize x00)) (Pager.walFile p) 0 []) = (Ok tt, q) /\
    pager_rel q 1 (mkView {[2 := zero_body]} None).
Proof.
  destruct fresh_writer as [p Hp]. exists p.
  destruct (primary_header_loss p 1 _ (zrep PageSize x00) Hp) as (q & E & Hq & _); [| |by exists q].
  - vm_compute. reflexivity.
  - vm_compute. reflexivity.
Defined.

(** * The store *)

(** A store over the map pager that holds nothing, and one with one entry. *)
Lemma empty_tree n : 4 + Z.of_nat n <= max_pages -> exists s, tree_rep (P := memPager) s n 0 [].
Proof.
  intros Hn. destruct (Open_fresh (BTree.newBtreeStore empty_mem) n (mkView ∅ None)) as (s & _ & Hs);
    [apply empty_mem_rel; lia|done..|]. by exists s.
Qed.

Lemma one_entry_tree n :
  Z.of_nat n < 2 ^ 40 ->
  exists s h, tree_rep (P := memPager) s n h [([x61], [x01])] /\ (h <= 1)%nat.
Proof.
  intros Hn. destruct (empty_tree (3 + n)) as [s Hs]; [unfold max_pages; lia|].
  destruct (tree_rep_set s n 0 [] (importKey [x61]) [x01] 1 Hs) as (s' & h & _ & Hs' & Hh);
    [split; apply Z.leb_le; reflexivity|lia|]. by exists s', h.
Qed.

Lemma kv_set_refines_witness :
  exists s s' h, BTree.Set_ 1 None (importKey [x61]) [x01] s = (Ok tt, s') /\
    tree_rep (P := memPager) s' 0 h [([x61], [x01])].
Proof.
  destruct (empty_tree 3) as [s Hs]; [done|]. exists s.
  destruct (kv_set_refines s 0 0 [] (importKey [x61]) [x01] 1 Hs) as (s' & h & E & Hs' & _);
    [apply Z.leb_le; reflexivity|apply Z.leb_le; reflexivity|lia|]. by exists s', h.
Defined.

Lemma kv_scan_refines_witness :
  exists s s' lv, BTree.Scan 5 lv None (importKey []) (importKey []) s = (Ok [mkEntry (importKey [x61]) [x01]], s').
Proof.
  destruct (one_entry_tree 0) as (s & h & Hs & Hh); [done|]. exists s.
  destruct (kv_scan_refines s 0 h _ (importKey []) (importKey []) Hs) as (c & _ & Hc).
  destruct (Hc 5%nat c) as (s' & E & _); [lia|lia|]. by exists s', c.
Defined.

Lemma kv_run_refines_witness :
  exists s s', exists c, forall fuel, (c <= fuel)%nat ->
    kv_serve_all (P := memPager) fuel fuel [KSet (importKey [x61]) [x01]; KGet (importKey [x61])] s
    = ([ASet (Ok tt); AGet (Ok [x01])], s').
Proof.
  set (qs := [KSet (importKey [x61]) [x01]; KGet (importKey [x61])]).
  destruct (empty_tree (length qs * (0 + length qs + 3) + 0)) as [s Hs]; [done|]. exists s.
  destruct (kv_run_refines qs s 0 0 [] Hs) as (c & s' & h & E & _); [|by exists s', c].
  repeat constructor. apply Z.leb_le. reflexivity.
Defined.

Lemma kv_crash_durable_witness :
  exists q q1 s s', Pager.Open None (Pager.newPager [] [] 0 []) = (Ok tt, q) /\
    BTree.Open None (BTree.newBtreeStore q) = (Ok tt, s) /\
    Pager.Open None (Pager.restart (BTree.pg s)) = (Ok tt, q1) /\
    BTree.Open None (BTree.newBtreeStore q1) = (Ok tt, s') /\ tree_rep s' 0 0 [].
Proof.
  destruct (Open_empty_files 0) as (q & s & E1 & E2 & Hs); [done|].
  destruct (kv_crash_durable s 0 0 [] Hs) as (q1 & s' & E3 & E4 & Hs'). by exists q, q1, s, s'.
Defined.

Lemma kv_end_to_end_witness :
  exists s1 q1 s2 h, Pager.Open None (Pager.restart (BTree.pg s1)) = (Ok tt, q1) /\
    BTree.Open None (BTree.newBtreeStore q1) = (Ok tt, s2) /\ tree_rep s2 0 h [([x61], [x01])].
Proof.
  destruct (kv_end_to_end [KSet (importKey [x61]) [x01]] 0) as (q & s & c & s1 & q1 & s2 & h & _ & _ & _ & E1 & E2 & Hs);
    [done|repeat constructor; apply Z.leb_le; reflexivity|]. by exists s1, q1, s2, h.
Defined.

Lemma kv_check_accepts_witness :
  exists s s', Maint.Check_ (P := memPager) 5 None s = (Ok tt, s').
Proof.
  destruct (one_entry_tree 0) as (s & h & Hs & Hh); [done|]. exists s.
  destruct (kv_check_accepts s 0 h _ 5 Hs) as (s' & E & _); [lia|]. by exists s'.
Defined.

Lemma kv_compact_refines_witness :
  exists s s' m ids, forall fuel, exists c, (2 <= fuel)%nat -> forall leaves, (c <= leaves)%nat ->
    exists s'', Maint.Compact (P := memPager) fuel leaves None s = (Ok tt, s'') /\ compacted s'' 0 m [([x61], [x01])] ids /\ s' = s.
Proof.
  destruct (one_entry_tree 3) as (s & h & (m & r & Hr & Hp) & Hh); [done|].
  assert (exists ids, tree_at m r h [([x61], [x01])] ids) as [ids Ht].
  { destruct Hp as [Hm Hp]. destruct (decide (r = rootSentinel)) as [->|Hne]; [done|].
    destruct Hp as (first & ids & Hs & Hnd). exists ids. split; [done|]. split; [done|].
    rewrite decide_False by done. by exists first. }
  exists s, s, m, ids. intros fuel.
  destruct (kv_compact_refines s 0 m r h [([x61], [x01])] ids Hr Ht) as [c Hc]; [apply Z.leb_le; reflexivity|].
  exists c. intros Hf leaves Hl. destruct (Hc fuel leaves) as (s' & E & Hs'); [lia|done|]. by exists s'.
Defined.

(** * Tables

    A table of two columns, over the reference store and over the files. *)

From S2P Require Import Prelude OrdMap Key RowKey Page Pager PagerSpec PagerSim PagerRefine KvNode Monad BTree BTreeProof KvSpec KvTree GoRuntime.
From S2P Require Import HeapValue Heap HeapRows HeapProof HeapScan HeapVacuum HeapSpec.
#[local] Existing Instance simple_runtime.
#[local] Existing Instance simple_runtime_laws.
#[local] Opaque walk_bound.

Definition users : Schema := mkSchema 7 [mkColumn [x69] KindUint64; mkColumn [x6e] KindString] [0].
Definition user : row := [AUint64 1; AString [x62]].

Lemma users_ok : schema_ok users.
Proof.
  split; [reflexivity|split; [done|reflexivity]| |vm_compute; discriminate].
  repeat constructor; discriminate.
Qed.

Lemma user_request : row_request users user.
Proof.
  split; [repeat constructor; vm_compute; discriminate|].
  intros v. vm_compute. intros [= <-]. vm_compute. discriminate.
Qed.

Lemma user_key : Forall key_cell [AUint64 1].
Proof. repeat constructor; vm_compute; discriminate. Qed.

Lemma user_row_ok : row_ok users [AUint64 1; ANil].
Proof.
  constructor; [right; split; [done|split; [done|reflexivity]]|].
  constructor; [by left|constructor].
Qed.

Lemma empty_rep n : @kv_rel refStore ref_err _ _ [] n [].
Proof. split; [done|constructor]. Qed.

Lemma empty_table : table_rep users [] (fun _ => []).
Proof. split; [by intros ? ? ? ? []|done]. Qed.

Lemma row_value_roundtrip_witness :
  exists d, encodeEnterpriseValue users (Some [AUint64 1; ANil]) FlagNormal = Ok d /\
    decodeEnterpriseValue users d = Ok ([AUint64 1; ANil], false).
Proof. exact (proj1 (row_value_roundtrip users [AUint64 1; ANil] user_row_ok)). Defined.

Definition two_requests : list (Schema * table_request) := [(users, TInsert 5 user); (users, TGet 6 [AUint64 1])].

Lemma two_requests_ok :
  tables_ok [users] /\ Forall (fun x => In (fst x) [users] /\ request_ok (fst x) (snd x)) two_requests.
Proof.
  split; [split; [constructor; [apply users_ok|constructor]|by intros T1 T2 [<-|[]] [<-|[]]]|].
  constructor; [|constructor; [|constructor]]; (split; [by left|]).
  - split; [split; [done|reflexivity]|]. split; [apply user_request|apply user_key].
  - apply user_key.
Qed.

Lemma heap_run_refines_witness :
  exists s', tables_serve (S := refStore) (E := ref_err) two_requests [] = ([TWritten (Ok tt); TRow (Ok user)], s').
Proof.
  destruct (heap_run_refines (S := refStore) [users] two_requests [] 0 [] no_rows (proj1 two_requests_ok)
    (proj2 two_requests_ok) (empty_rep _) (tables_rep_empty _)) as (s' & l' & E & _).
  exists s'. rewrite E. vm_compute. reflexivity.
Defined.

Lemma insert_snapshot_witness :
  exists s1, Heap.Insert (S := refStore) users 5 user [] = (Ok tt, s1) /\
    fst (Heap.Get users 6 [AUint64 1] s1) = Ok user /\
    fst (Heap.Get users 4 [AUint64 1] s1) = Err (HeapErr ErrRowNotFound).
Proof.
  destruct (Heap.Insert (S := refStore) users 5 user []) as [r s1] eqn:E.
  assert (r = Ok tt) as -> by (vm_compute in E; injection E as <- _; reflexivity).
  exists s1. split; [reflexivity|].
  destruct (insert_snapshot (S := refStore) (E := ref_err) users [] 0 [] (fun _ => []) 5 user s1 users_ok ltac:(split; [done|reflexivity])
    user_request user_key (empty_rep _) empty_table E) as (pk & Hp & _ & Hg).
  vm_compute in Hp. injection Hp as <-. split.
  - refine (eq_trans (Hg 6 [AUint64 1] [Uint64 1] user_key eq_refl) _). vm_compute. reflexivity.
  - refine (eq_trans (Hg 4 [AUint64 1] [Uint64 1] user_key eq_refl) _). vm_compute. reflexivity.
Defined.

(** Row 1 is inserted and changed, row 2 inserted and deleted, row 3 inserted. *)
Definition busy_requests : list (Schema * table_request) :=
  [(users, TInsert 3 user); (users, TUpdate 5 [AUint64 1] [AUint64 1; AString [x63]]);
   (users, TInsert 4 [AUint64 2; ANil]); (users, TDelete 6 [AUint64 2]); (users, TInsert 5 [AUint64 3; AString [x64]])].

Definition busy_db : db := snd (dbs_serve (E := ref_err) busy_requests (fun _ _ => [])) 7.

Ltac small_row := split; [repeat constructor; vm_compute; discriminate|]; intros v; vm_compute; intros [= <-]; vm_compute; discriminate.

Lemma busy_ok : Forall (fun x => In (fst x) [users] /\ request_ok (fst x) (snd x)) busy_requests.
Proof.
  assert (forall i, u64 i -> Forall key_cell [AUint64 i]) as Hk by (intros i Hi; constructor; [done|constructor]).
  constructor; [|constructor; [|constructor; [|constructor; [|constructor; [|constructor]]]]]; (split; [by left|]); cbn [fst snd request_ok].
  - split; [split; [done|reflexivity]|]. split; [apply user_request|by apply Hk].
  - split; [split; [done|reflexivity]|]. split; [|by apply Hk].
    small_row.
  - split; [split; [done|reflexivity]|]. split; [|by apply Hk].
    small_row.
  - split; [split; [done|reflexivity]|by apply Hk].
  - split; [split; [done|reflexivity]|]. split; [|by apply Hk].
    small_row.
Qed.

Definition busy_store : refStore := snd (tables_serve (S := refStore) (E := ref_err) busy_requests []).

Lemma busy_rep : exists l, @kv_rel refStore ref_err _ _ busy_store (length l + 0)%nat l /\ table_rep users l busy_db.
Proof.
  destruct (tables_run (S := refStore) (E := ref_err) [users] busy_requests [] 0 [] (fun _ _ => []) (proj1 two_requests_ok) busy_ok
    (empty_rep _) (tables_rep_empty _)) as (s' & l & E & Hr & Hd).
  exists l. unfold busy_store. rewrite E. split; [destruct Hr as [-> Hs]; by split|]. exact (Hd users ltac:(by left)).
Qed.

(** Transaction 9 sees the rows 1 and 3; a client is shown the row 3. *)
Lemma scan_visible_rows_witness :
  exists s' rs, Heap.Scan (S := refStore) (E := ref_err) users 9 busy_store = (Ok (mkRows rs 0 None), s') /\
    map row_values rs = [[AUint64 1; AString [x63]]; [AUint64 3; AString [x64]]] /\
    drain 2 (mkRows rs 0 None) = [Some [AUint64 3; AString [x64]]].
Proof.
  destruct busy_rep as (l & Hr & Hd).
  destruct (scan_visible_rows (S := refStore) (E := ref_err) users busy_store _ l busy_db 9 users_ok Hr Hd)
    as (s' & rs & E & _ & Hdr & _ & _).
  assert (map row_values rs = [[AUint64 1; AString [x63]]; [AUint64 3; AString [x64]]]) as Em.
  { vm_compute in E. injection E as <- _. reflexivity. }
  exists s', rs. split; [exact E|]. split; [exact Em|].
  destruct rs as [|r1 [|r2 [|]]]; try discriminate Em. injection Em as _ <-. rewrite Hdr by done. reflexivity.
Defined.

(** Of row 1 the first version goes, of row 2 both. *)
Lemma vacuum_invisible_witness :
  exists s' d', Vacuum (S := refStore) (E := ref_err) users 6 busy_store = (Ok tt, s') /\
    ~ In (3, Some user) (d' [Uint64 1]) /\ In (5, Some [AUint64 1; AString [x63]]) (d' [Uint64 1]) /\
    ~ In (4, Some [AUint64 2; ANil]) (d' [Uint64 2]) /\ ~ In (6, None) (d' [Uint64 2]).
Proof.
  destruct busy_rep as (l & Hr & Hd).
  destruct (vacuum_invisible (S := refStore) (E := ref_err) users busy_store 0 l busy_db 6 users_ok Hr Hd)
    as (s' & l' & d' & E & _ & _ & _ & Hdrop & _).
  exists s', d'. split; [exact E|].
  assert (busy_db [Uint64 1] = [(3, Some user); (5, Some [AUint64 1; AString [x63]])]) as E1 by (vm_compute; reflexivity).
  assert (busy_db [Uint64 2] = [(4, Some [AUint64 2; ANil]); (6, None)]) as E2 by (vm_compute; reflexivity).
  assert (forall x, In x (d' [Uint64 1]) <-> _) as H1 by (intros x; exact (Hdrop [Uint64 1] x)).
  assert (forall x, In x (d' [Uint64 2]) <-> _) as H2 by (intros x; exact (Hdrop [Uint64 2] x)).
  rewrite E1 in H1. rewrite E2 in H2.
  rewrite !H1, !H2. split; [intros [_ Hn]; apply Hn; cbn; lia|]. split; [split; [by right; left|cbn; lia]|].
  split; (intros [_ Hn]; apply Hn; cbn; intros y [<-|[<-|[]]]; cbn; lia).
Defined.

Lemma heap_end_to_end_witness :
  exists s1 q1 s2, Pager.Open None (Pager.restart (BTree.pg s1)) = (Ok tt, q1) /\
    BTree.Open None (BTree.newBtreeStore q1) = (Ok tt, s2).
Proof.
  destruct (heap_end_to_end [users] two_requests 0 (proj1 two_requests_ok)
    (proj2 two_requests_ok)) as (q & s & s1 & q1 & s2 & l & _ & _ & _ & E1 & E2 & _);
    [apply Z.leb_le; reflexivity|]. by exists s1, q1, s2.
Defined.
