(* ===== verification/GoFmt.v ===== *)
(** Text: formatting with [fmt.Sprintf], the verbs [%d], [%t] and [%f], as far as the
    planner's hash keys use them, and which of them tell values apart; the quotes of a
    literal, and the statements that the metrics and logs engines read. *)

From Stdlib Require Import ZArith Lia.
From Stdlib Require Import Decimal DecimalZ DecimalString SpecFloat.
From Stdlib Require Import Strings.String.
From stdpp Require Import base list sets.
From S2P Require Import Prelude.
Open Scope Z_scope.

(** The bytes of a Go string constant. *)
Definition go_string (s : string) : list byte := list_byte_of_string s.
Arguments go_string s%_string_scope.

(** [%d] *)
Definition fmt_d (z : Z) : list byte := go_string (NilZero.string_of_int (Z.to_int z)).

(** [%t] *)
Definition fmt_t (b : bool) : list byte := go_string (if b then "true" else "false").

(** ** [%f]: six digits after the point, rounded to nearest, ties to even *)

(** [a / 2^k], rounded. *)
Definition round_shift (a k : Z) : Z :=
  let d := Z.shiftl 1 k in
  let q := a / d in
  let r := a mod d in
  if 2 * r <? d then q else if d <? 2 * r then q + 1 else q + q mod 2.

(** [m * 2^e * 10^6], rounded to an integer. *)
Definition micros (m : positive) (e : Z) : Z :=
  let a := Z.pos m * 1000000 in
  if 0 <=? e then Z.shiftl a e else round_shift a (- e).

Definition digit (z : Z) : byte := z2b (48 + z mod 10).

(** The six digits of a number below a million. *)
Definition six_digits (z : Z) : list byte :=
  map (fun d => digit (z / d)) [100000; 10000; 1000; 100; 10; 1].

Definition minus (s : bool) : list byte := if s then go_string "-" else [].

Definition fmt_f (f : spec_float) : list byte :=
  match f with
  | S754_nan => go_string "NaN"
  | S754_infinity s => go_string (if s then "-Inf" else "+Inf")
  | S754_zero s => minus s ++ go_string "0.000000"
  | S754_finite s m e =>
      let n := micros m e in
      minus s ++ fmt_d (n / 1000000) ++ go_string "." ++ six_digits (n mod 1000000)
  end.

(** * Text in quotes, and statements *)

(** [stripQuotes] of the metrics and logs engines: text between two equal quotes. *)
Definition stripQuotes (s : list byte) : list byte :=
  match s with
  | q :: (_ :: _) as rest =>
      if (bool_decide (q = x27) || bool_decide (q = x22)) && bool_decide (last rest = Some q) then removelast rest else s
  | _ => s
  end.

(** What the metrics and logs engines read of a statement of the parser library: an
    operand is its text, with the value when it is a literal. *)
Module Query.
Record operand := mkOperand { o_String : list byte; o_Literal : option (list byte); is_ColName : bool; is_Argument : bool }.

Inductive op := EqualOp | LessThanOp | GreaterThanOp | LessEqualOp | GreaterEqualOp | LikeOp | NotLikeOp | OtherOp.

Inductive expr :=
| AndExpr (l r : expr)
| OrExpr (l r : expr)
| NotExpr (e : expr)
| ComparisonExpr (o : op) (l r : operand)
| BetweenExpr (IsBetween : bool) (l from to : operand)
| OtherExpr.

(** A SELECT with its table and its WHERE, if there is one. *)
Record select := mkSelect { sel_From : list byte; sel_Where : option expr }.

Inductive insert_rows := Values (rows : list (list operand)) | SelectRows.

Record insert := mkInsert { ins_Table : list byte; ins_Columns : list (list byte); ins_Rows : insert_rows }.

Inductive stmt := StmtInsert (i : option insert) | StmtSelect (s : option select) | StmtOther.
End Query.

(** * Numbers keep their value, and contain no NUL *)

Lemma go_string_inj s t : go_string s = go_string t -> s = t.
Proof.
  unfold go_string. intros E.
  rewrite <- (string_of_list_byte_of_string s), <- (string_of_list_byte_of_string t).
  by rewrite E.
Qed.

Lemma uint_string_inj u v :
  NilZero.string_of_uint u = NilZero.string_of_uint v -> u <> Nil -> v <> Nil -> u = v.
Proof.
  intros E Hu Hv. apply (f_equal NilZero.uint_of_string) in E.
  rewrite !NilZero.usu in E by done. congruence.
Qed.

Lemma to_int_not_nil z : Z.to_int z <> Pos Nil /\ Z.to_int z <> Neg Nil.
Proof.
  assert (Z.to_int z <> Pos Nil /\ Z.to_int z <> Neg Nil) as H; [|done].
  destruct z as [|p|p]; cbn; split; try done.
  all: intros [= E]; by apply (DecimalPos.Unsigned.to_uint_nonnil p).
Qed.

Lemma fmt_d_inj x y : fmt_d x = fmt_d y -> x = y.
Proof.
  intros E%go_string_inj. apply (f_equal NilZero.int_of_string) in E.
  destruct (to_int_not_nil x), (to_int_not_nil y).
  rewrite !NilZero.isi in E by done. injection E as E.
  apply (f_equal Z.of_int) in E. by rewrite !DecimalZ.of_to in E.
Qed.

Definition no_nul (bs : list byte) : Prop := x00 ∉ bs.

Lemma no_nul_app a b : no_nul (a ++ b) <-> no_nul a /\ no_nul b.
Proof. unfold no_nul. rewrite elem_of_app. tauto. Qed.

(** A byte that is neither a digit nor a minus sign does not occur in a number. *)
Section other_byte.
Context (c : byte) (Hc : c ∉ go_string "-0123456789").

Lemma not_in_uint u : c ∉ go_string (NilEmpty.string_of_uint u).
Proof.
  induction u; cbn; try apply not_elem_of_nil; apply not_elem_of_cons; split; try done.
  all: intros ->; apply Hc; cbn; set_solver.
Qed.

Lemma not_in_uint0 u : c ∉ go_string (NilZero.string_of_uint u).
Proof.
  destruct u; try exact (not_in_uint _). cbn. intros Hin. apply Hc. cbn. set_solver.
Qed.

Lemma not_in_fmt_d z : c ∉ fmt_d z.
Proof.
  unfold fmt_d. destruct (Z.to_int z); cbn [NilZero.string_of_int]; [apply not_in_uint0|].
  unfold go_string. cbn. apply not_elem_of_cons. split; [|apply not_in_uint0].
  intros ->. apply Hc. cbn. set_solver.
Qed.
End other_byte.

(** A byte does not occur in a given string. *)
Ltac not_in_const := refine (bool_decide_unpack _ _); exact Logic.I.

Lemma no_nul_fmt_d z : no_nul (fmt_d z).
Proof. apply not_in_fmt_d. not_in_const. Qed.

(** The first separator splits a string. *)
Lemma separator_inj (c : byte) a b r s :
  c ∉ a -> c ∉ b -> a ++ c :: r = b ++ c :: s -> a = b /\ r = s.
Proof.
  revert b. induction a as [|x a IH]; intros [|y b] Ha Hb E; cbn in *.
  - by injection E.
  - injection E as -> E. by destruct Hb; left.
  - injection E as -> E. by destruct Ha; left.
  - injection E as -> E. apply not_elem_of_cons in Ha as [_ Ha], Hb as [_ Hb].
    by destruct (IH b Ha Hb E) as [-> ->].
Qed.

Lemma fmt_t_inj a b : fmt_t a = fmt_t b -> a = b.
Proof. by destruct a, b. Qed.

(** [%f] does not: small numbers all print as zero. *)
Lemma fmt_f_collides :
  exists f g, SFeqb f g = false /\ fmt_f f = fmt_f g.
Proof.
  exists (SFdiv 53 1024 (S754_finite false 1 0) (S754_finite false 10000000 0)),
    (SFdiv 53 1024 (S754_finite false 1 0) (S754_finite false 20000000 0)).
  by vm_compute.
Qed.
