(* ===== verification/Datum.v ===== *)
(** [internal/engine/engine.go]: typed values, rows and the numbers of rows.

    A Go [any] that holds one of the permitted dynamic types is a [Val]; a [Datum]
    pairs it with a declared type, which nothing forces to agree with it. *)

From Stdlib Require Import ZArith Lia SpecFloat.
From stdpp Require Import base list.
From S2P Require Import Prelude.
Open Scope Z_scope.

(** [engine.Type], a [uint8]: other numbers are values of the type too. *)
Inductive Ty : Type :=
| TypeNull | TypeInt64 | TypeUint64 | TypeFloat64 | TypeBool | TypeString | TypeBytes
| TypeOther (n : Z).

#[export] Instance Ty_eq_dec : EqDecision Ty.
Proof. solve_decision. Defined.

Inductive Val : Type :=
| VNil | VInt64 (v : Z) | VUint64 (v : Z) | VFloat64 (v : spec_float) | VBool (v : bool)
| VString (v : list byte) | VBytes (v : list byte).

#[export] Instance spec_float_eq_dec : EqDecision spec_float.
Proof. solve_decision. Defined.
#[export] Instance Val_eq_dec : EqDecision Val.
Proof. solve_decision. Defined.

Record Datum := mkDatum { d_Type : Ty; d_Value : Val }.

#[export] Instance Datum_eq_dec : EqDecision Datum.
Proof. solve_decision. Defined.

Record Column := mkColumn { Name : list byte; c_Type : Ty; NotNull : bool; DefaultValue : option Datum }.

(** [engine.Schema] is a struct of one field, the columns. *)
Definition Schema : Type := list Column.

Record Row := mkRow { Datums : list Datum; RowID : Z }.

(** [engine.Row{}] *)
Definition no_row : Row := mkRow [] 0.

Definition is_nil (v : Val) : bool := match v with VNil => true | _ => false end.

(** ** Copies *)

Definition Datum_DeepCopy (d : Datum) : Datum :=
  if bool_decide (d_Type d = TypeBytes) then
    match d_Value d with
    | VBytes b => mkDatum (d_Type d) (VBytes (copy_into (zrep (zlen b) x00) 0 (zlen b) b))
    | _ => mkDatum (d_Type d) (d_Value d)
    end
  else mkDatum (d_Type d) (d_Value d).

Definition Row_DeepCopy (r : Row) : Row := mkRow (map Datum_DeepCopy (Datums r)) (RowID r).

Lemma Datum_DeepCopy_id d : Datum_DeepCopy d = d.
Proof.
  unfold Datum_DeepCopy. destruct d as [t v]; cbn. case_bool_decide; [|done].
  destruct v; try done. pose proof (zlen_nonneg v). do 2 f_equal.
  unfold copy_into, splice. rewrite Z.sub_0_r, (ztake_all (zlen v)), ztake_0 by lia.
  rewrite zdrop_all by (rewrite zlen_rep; lia). apply app_nil_r.
Qed.

Lemma Row_DeepCopy_id r : Row_DeepCopy r = r.
Proof.
  destruct r as [ds i]. unfold Row_DeepCopy. f_equal. cbn.
  rewrite <- (map_id ds) at 2. apply map_ext. apply Datum_DeepCopy_id.
Qed.

(** ** Row numbers *)

Inductive rowid_err : Type := ErrMissingRowID | ErrRowIDOffsetOverflow | ErrRowIDGenerationOverflow.

Definition MaxUint32 : Z := 2 ^ 32 - 1.

Definition EncodeRowID (generation physicalOffset : Z) : res rowid_err Z :=
  if MaxUint32 <? generation then Err ErrRowIDGenerationOverflow
  else if MaxUint32 - 1 <? physicalOffset then Err ErrRowIDOffsetOverflow
  else Ok (Z.lor (wrap64 (Z.shiftl generation 32)) (wrap64 (physicalOffset + 1))).

Definition DecodeRowID (rowID : Z) : res rowid_err (Z * Z) :=
  let low := Z.land rowID 4294967295 in
  if low =? 0 then Err ErrMissingRowID
  else Ok (Z.shiftr rowID 32, wrap64 (low - 1)).

Lemma lor_parts g x : 0 <= g -> 0 <= x < 2 ^ 32 -> Z.lor (Z.shiftl g 32) x = g * 2 ^ 32 + x.
Proof.
  intros Hg Hx. rewrite <- Z.add_lor_land.
  rewrite Z.shiftl_mul_pow2 by lia. assert (Z.land (g * 2 ^ 32) x = 0) as ->; [|lia].
  apply Z.bits_inj'. intros n Hn. rewrite Z.land_spec, Z.bits_0.
  destruct (decide (n < 32)).
  - rewrite Z.mul_pow2_bits_low by done. done.
  - rewrite <- (Z.mod_small x (2 ^ 32)) by done.
    rewrite Z.mod_pow2_bits_high by lia.
    apply andb_false_r.
Qed.

(** The number of a row, when it fits. *)
Lemma EncodeRowID_ok g o :
  0 <= g <= MaxUint32 -> 0 <= o < MaxUint32 -> EncodeRowID g o = Ok (g * 2 ^ 32 + (o + 1)).
Proof.
  unfold EncodeRowID, MaxUint32. intros Hg Ho.
  rewrite !(proj2 (Z.ltb_ge _ _)) by lia.
  rewrite (wrap64_id (Z.shiftl g 32)) by (unfold u64; rewrite Z.shiftl_mul_pow2; lia).
  rewrite (wrap64_id (o + 1)) by (unfold u64; lia). by rewrite lor_parts by lia.
Qed.

Lemma DecodeRowID_parts g o :
  0 <= g <= MaxUint32 -> 0 <= o < MaxUint32 -> DecodeRowID (g * 2 ^ 32 + (o + 1)) = Ok (g, o).
Proof.
  unfold DecodeRowID, MaxUint32. intros Hg Ho.
  change 4294967295 with (Z.ones 32). rewrite Z.land_ones by lia.
  rewrite Z.add_comm, Z.mod_add, Z.mod_small by lia.
  rewrite (proj2 (Z.eqb_neq _ _)) by lia.
  rewrite Z.shiftr_div_pow2 by lia. rewrite Z.div_add, Z.div_small by lia.
  rewrite wrap64_id by (unfold u64; lia). repeat f_equal; lia.
Qed.

(** Row numbers. [EncodeRowID] accepts exactly the generations and offsets that fit,
    an accepted pair is what [DecodeRowID] returns, the number is never the sentinel,
    and every 64-bit number that decodes is the number of the pair it decodes to. *)
Theorem rowid_roundtrip g o n :
  0 <= g -> 0 <= o -> u64 n ->
  (match EncodeRowID g o with
   | Ok id => u64 id /\ DecodeRowID id = Ok (g, o) /\ id <> 0
   | Err _ => MaxUint32 < g \/ MaxUint32 <= o
   end) /\
  (match DecodeRowID n with
   | Ok (g', o') => EncodeRowID g' o' = Ok n
   | Err e => e = ErrMissingRowID /\ n mod 2 ^ 32 = 0
   end).
Proof.
  intros Hg Ho Hn. split.
  - destruct (decide (g <= MaxUint32 /\ o < MaxUint32)) as [Hi|Hi].
    + rewrite EncodeRowID_ok by lia. rewrite DecodeRowID_parts by lia.
      unfold u64, MaxUint32 in *. split_and!; try done; nia.
    + unfold EncodeRowID. destruct (MaxUint32 <? g) eqn:E1; [lia|].
      destruct (MaxUint32 - 1 <? o) eqn:E2; lia.
  - unfold DecodeRowID. change 4294967295 with (Z.ones 32). rewrite Z.land_ones by lia.
    destruct (n mod 2 ^ 32 =? 0) eqn:E; [by split; [|apply Z.eqb_eq]|].
    pose proof (Z.mod_pos_bound n (2 ^ 32) ltac:(lia)). unfold u64 in *.
    rewrite Z.shiftr_div_pow2, wrap64_id by (unfold u64; lia).
    pose proof (Z.div_lt_upper_bound n (2 ^ 32) (2 ^ 32) ltac:(lia) ltac:(lia)).
    pose proof (Z.div_pos n (2 ^ 32) ltac:(lia) ltac:(lia)).
    rewrite EncodeRowID_ok by (unfold MaxUint32; lia).
    pose proof (Z_div_mod_eq_full n (2 ^ 32)). f_equal. lia.
Qed.

(** * Well-typed values *)

(** A value of a type, in the range of the Go type: [NULL] belongs to every type. *)
Definition typed (t : Ty) (v : Val) : Prop :=
  match t, v with
  | _, VNil => True
  | TypeInt64, VInt64 z => i64 z
  | TypeUint64, VUint64 z => u64 z
  | TypeFloat64, VFloat64 _ | TypeBool, VBool _ | TypeString, VString _ | TypeBytes, VBytes _ => True
  | _, _ => False
  end.

(** A datum of a type that is not NULL: no type assertion of the planner fails on it. *)
Definition present (t : Ty) (d : Datum) : Prop := d_Type d = t /\ typed t (d_Value d) /\ d_Value d <> VNil.
