(* ===== verification/Expr.v ===== *)
(** [internal/engine/sql/planner/binder.go]: bound expressions and their evaluation.

    Evaluation is not total in the code: a Go type assertion on a datum whose value
    does not have the dynamic type of its declared type panics, which is the error
    [Panic] (what a panic leaves behind in the operators' states is not modelled).  The theorem at the end is type soundness: an expression that has a type
    over the columns of a table evaluates, without error or panic, to a value of that
    type on every row whose values are present. *)

From Stdlib Require Import ZArith Lia SpecFloat.
From Stdlib Require Import Strings.String.
From stdpp Require Import base list.
From S2P Require Import Prelude Datum.
Open Scope Z_scope.

Inductive eval_err : Type := Panic | ErrColumnRange | ErrUnsupportedOp | ErrNotBool.

Definition ev : Type -> Type := res eval_err.

(** [l[i]], which panics out of range. *)
Definition index {A} (l : list A) (i : Z) : ev A :=
  if i <? 0 then Err Panic
  else match l !! Z.to_nat i with Some x => Ok x | None => Err Panic end.

(** Type assertions [v.(T)]. *)
Definition as_int64 (v : Val) : ev Z := match v with VInt64 z => Ok z | _ => Err Panic end.
Definition as_uint64 (v : Val) : ev Z := match v with VUint64 z => Ok z | _ => Err Panic end.
Definition as_float64 (v : Val) : ev spec_float := match v with VFloat64 f => Ok f | _ => Err Panic end.
Definition as_bool (v : Val) : ev bool := match v with VBool b => Ok b | _ => Err Panic end.
Definition as_string (v : Val) : ev (list byte) := match v with VString s => Ok s | _ => Err Panic end.
Definition as_bytes (v : Val) : ev (list byte) := match v with VBytes s => Ok s | _ => Err Panic end.

(** ** Comparing data *)

Definition assert2 {A} (assert : Val -> ev A) (compare : A -> A -> bool) (a b : Datum) : ev bool :=
  x ← assert (d_Value a); y ← assert (d_Value b); Ok (compare x y).

(** The loop over two byte slices of the same length. *)
Fixpoint same_bytes (a b : list byte) : bool :=
  match a, b with
  | x :: a', y :: b' => if negb (bool_decide (x = y)) then false else same_bytes a' b'
  | _, _ => true
  end.

Definition datumEqual (a b : Datum) : ev bool :=
  if negb (bool_decide (d_Type a = d_Type b)) then Ok false
  else
    match d_Type a with
    | TypeInt64 => assert2 as_int64 Z.eqb a b
    | TypeUint64 => assert2 as_uint64 Z.eqb a b
    | TypeFloat64 => assert2 as_float64 SFeqb a b
    | TypeBool => assert2 as_bool Bool.eqb a b
    | TypeString => assert2 as_string (fun x y => bool_decide (x = y)) a b
    | TypeBytes =>
        assert2 as_bytes (fun x y => if negb (zlen x =? zlen y) then false else same_bytes x y) a b
    | _ => Ok false
    end.

Definition string_less (x y : list byte) : bool := bool_decide (bytes_compare x y = Lt).

Definition datumLess (a b : Datum) : ev bool :=
  match d_Type a with
  | TypeInt64 => assert2 as_int64 Z.ltb a b
  | TypeUint64 => assert2 as_uint64 Z.ltb a b
  | TypeFloat64 => assert2 as_float64 SFltb a b
  | TypeString => assert2 as_string string_less a b
  | _ => Ok false
  end.

(** ** Bound expressions *)

Inductive BoundExpr : Type :=
| colRef (idx : Z) (typ : Ty)
| literalExpr (d : Datum)
| cmpExpr (left right : BoundExpr) (op : string)
| boolExpr (left right : BoundExpr) (op : string)
| InPredicate (ColIdx : Z) (Values : list Datum)
| BetweenPredicate (ColIdx : Z) (Lo Hi : Datum).

Definition bool_datum (b : bool) : Datum := mkDatum TypeBool (VBool b).

(** A guarded [row.Datums[idx]]. *)
Definition column_of (idx : Z) (row : Row) : ev Datum :=
  if zlen (Datums row) <=? idx then Err ErrColumnRange else index (Datums row) idx.

(** The loop of [InPredicate.Eval]. *)
Fixpoint in_values (val : Datum) (values : list Datum) : ev bool :=
  match values with
  | [] => Ok false
  | v :: values' =>
      eq ← datumEqual val v;
      if eq : bool then Ok true else in_values val values'
  end.

Definition or_else (b : ev bool) (c : ev bool) : ev bool := x ← b; if x : bool then Ok true else c.

Definition operand (d : Datum) : ev bool :=
  match d_Value d with VBool b => Ok b | _ => Err ErrNotBool end.

Fixpoint Eval (e : BoundExpr) (row : Row) : ev Datum :=
  match e with
  | colRef idx _ => column_of idx row
  | literalExpr d => Ok d
  | cmpExpr le re op =>
      l ← Eval le row;
      r ← Eval re row;
      eq ← datumEqual l r;
      if (op =? "=")%string then Ok (bool_datum eq)
      else if (op =? "<")%string then lt ← datumLess l r; Ok (bool_datum lt)
      else if (op =? ">")%string then gt ← datumLess r l; Ok (bool_datum gt)
      else Err ErrUnsupportedOp
  | boolExpr le re op =>
      l ← Eval le row;
      lb ← operand l;
      if (op =? "and")%string && negb lb then Ok (bool_datum false)
      else if (op =? "or")%string && lb then Ok (bool_datum true)
      else
        r ← Eval re row;
        rb ← operand r;
        if (op =? "and")%string then Ok (bool_datum (lb && rb))
        else Ok (bool_datum (lb || rb))
  | InPredicate idx values =>
      val ← column_of idx row;
      found ← in_values val values;
      Ok (bool_datum found)
  | BetweenPredicate idx lo hi =>
      val ← column_of idx row;
      geLo ← or_else (datumEqual val lo) (datumLess lo val);
      leHi ← or_else (datumEqual val hi) (datumLess val hi);
      Ok (bool_datum (geLo && leHi))
  end.

(** [if b, ok := d.Value.(bool); ok && b] *)
Definition is_true (d : Datum) : bool := match d_Value d with VBool b => b | _ => false end.

(** * Types of expressions *)

(** The types the program orders and tests for equality. *)
Definition known (t : Ty) : bool :=
  match t with TypeNull | TypeOther _ => false | _ => true end.

(** [e] has type [t] over columns of types [ts]. *)
Inductive has_type (ts : list Ty) : BoundExpr -> Ty -> Prop :=
| T_col idx typ t : 0 <= idx -> ts !! Z.to_nat idx = Some t -> has_type ts (colRef idx typ) t
| T_lit d t : present t d -> has_type ts (literalExpr d) t
| T_eq l r t t' : has_type ts l t -> has_type ts r t' -> has_type ts (cmpExpr l r "=") TypeBool
| T_lt l r t : has_type ts l t -> has_type ts r t -> has_type ts (cmpExpr l r "<") TypeBool
| T_gt l r t : has_type ts l t -> has_type ts r t -> has_type ts (cmpExpr l r ">") TypeBool
| T_bool l r op : has_type ts l TypeBool -> has_type ts r TypeBool -> has_type ts (boolExpr l r op) TypeBool
| T_in idx t values :
    0 <= idx -> ts !! Z.to_nat idx = Some t -> Forall (fun d => d_Type d = t -> present t d) values ->
    has_type ts (InPredicate idx values) TypeBool
| T_between idx t lo hi :
    0 <= idx -> ts !! Z.to_nat idx = Some t -> present t lo -> present t hi ->
    has_type ts (BetweenPredicate idx lo hi) TypeBool.

(** A row of a table with columns of types [ts], without NULL. *)
Definition row_typed (ts : list Ty) (row : Row) : Prop := Forall2 present ts (Datums row).

(** Case analysis on a present datum: its type, then its value. *)
Ltac present_values :=
  repeat match goal with
  | H : present _ ?d |- _ =>
      let v := fresh "v" in let ty := fresh "ty" in
      destruct d as [ty v]; destruct H as (? & ? & ?); cbn in *; subst ty; destruct v; cbn in *; try done
  end.
Ltac present_cases t := destruct t; present_values.

Lemma same_bytes_spec a b : zlen a = zlen b -> same_bytes a b = bool_decide (a = b).
Proof.
  unfold zlen. intros Hl. apply Nat2Z.inj in Hl. revert b Hl.
  induction a as [|x a IH]; intros [|y b] Hl; try done. cbn in *.
  case_bool_decide as E; cbn.
  - subst. rewrite IH by lia. by apply bool_decide_ext; split; [intros ->|intros [=]].
  - symmetry. apply bool_decide_eq_false. congruence.
Qed.

Lemma bytes_equal_spec a b :
  (if negb (zlen a =? zlen b) then false else same_bytes a b) = bool_decide (a = b).
Proof.
  destruct (zlen a =? zlen b) eqn:E; cbn.
  - apply same_bytes_spec. by apply Z.eqb_eq.
  - symmetry. apply bool_decide_eq_false. intros ->. by rewrite Z.eqb_refl in E.
Qed.

(** Equality of two present data of a type other than [float64] is equality. *)
Lemma datumEqual_spec t a b :
  present t a -> present t b -> t <> TypeFloat64 -> datumEqual a b = Ok (bool_decide (a = b)).
Proof.
  intros Ha Hb Ht. present_cases t. all: unfold datumEqual, assert2; cbn; f_equal.
  - destruct (Z.eqb_spec v0 v); symmetry; [apply bool_decide_eq_true|apply bool_decide_eq_false]; congruence.
  - destruct (Z.eqb_spec v0 v); symmetry; [apply bool_decide_eq_true|apply bool_decide_eq_false]; congruence.
  - by destruct v, v0.
  - apply bool_decide_ext. split; [by intros ->|by intros [=]].
  - rewrite bytes_equal_spec. apply bool_decide_ext. split; [by intros ->|by intros [=]].
Qed.

Lemma datumEqual_total t t' a b :
  present t a -> (t' = t -> present t b) -> d_Type b = t' -> exists r, datumEqual a b = Ok r.
Proof.
  intros Ha Hb Ht. unfold datumEqual. case_bool_decide as E; cbn; [|by eexists].
  assert (present t b) as Hb' by (apply Hb; destruct Ha as [<- _]; congruence). clear Hb E Ht.
  present_cases t; by eexists.
Qed.

Lemma datumLess_total t a b : present t a -> present t b -> exists r, datumLess a b = Ok r.
Proof. intros Ha Hb. present_cases t; by eexists. Qed.

Lemma bool_present b : present TypeBool (bool_datum b).
Proof. done. Qed.

Lemma operand_bool d : present TypeBool d -> exists b, operand d = Ok b.
Proof. intros H. destruct d as [t v], H as (E & H & H0). cbn in *. subst t. destruct v; try done. by eexists. Qed.

Lemma column_present ts row idx t :
  row_typed ts row -> 0 <= idx -> ts !! Z.to_nat idx = Some t ->
  exists d, column_of idx row = Ok d /\ present t d.
Proof.
  intros Hr Hi Ht. destruct (Forall2_lookup_l _ _ _ _ _ Hr Ht) as (d & Hd & Hp).
  exists d. split; [|done]. unfold column_of, index, zlen.
  apply lookup_lt_Some in Hd as Hl.
  rewrite (proj2 (Z.leb_gt _ _)), (proj2 (Z.ltb_ge _ _)) by lia. by rewrite Hd.
Qed.

Lemma in_values_total t val values :
  present t val -> Forall (fun d => d_Type d = t -> present t d) values ->
  exists b, in_values val values = Ok b.
Proof.
  intros Hv. induction 1 as [|d values Hd Hvs [b IH]]; [by eexists|]. cbn.
  destruct (datumEqual_total t (d_Type d) val d Hv) as [r ->]; [by intros <-; apply Hd|done|].
  cbn. destruct r; [by eexists|]. rewrite IH. by eexists.
Qed.

Lemma eval_typed ts e t row :
  has_type ts e t -> row_typed ts row -> exists d, Eval e row = Ok d /\ present t d.
Proof.
  intros He Hr. induction He; cbn [Eval].
  - by eapply column_present.
  - by eexists.
  - destruct IHHe1 as (x & -> & Hx), IHHe2 as (y & -> & Hy). cbn.
    destruct (datumEqual_total t t' x y) as [b ->]; [done|by intros ->|by destruct Hy|].
    by eexists.
  - destruct IHHe1 as (x & -> & Hx), IHHe2 as (y & -> & Hy). cbn.
    destruct (datumEqual_total t t x y) as [b ->]; [done|done|by destruct Hy|].
    destruct (datumLess_total t x y) as [b' E]; [done..|]. cbn. rewrite E. by eexists.
  - destruct IHHe1 as (x & -> & Hx), IHHe2 as (y & -> & Hy). cbn.
    destruct (datumEqual_total t t x y) as [b ->]; [done|done|by destruct Hy|].
    destruct (datumLess_total t y x) as [b' E]; [done..|]. cbn. rewrite E. by eexists.
  - destruct IHHe1 as (x & -> & Hx), IHHe2 as (y & -> & Hy). cbn.
    destruct (operand_bool x Hx) as [lb ->], (operand_bool y Hy) as [rb ->]. cbn.
    repeat case_match; by eexists.
  - destruct (column_present _ _ _ _ Hr H H0) as (d & -> & Hd). cbn.
    destruct (in_values_total _ _ _ Hd H1) as [b ->]. by eexists.
  - destruct (column_present _ _ _ _ Hr H H0) as (d & -> & Hd). cbn.
    destruct (datumEqual_total t t d lo) as [b1 ->]; [done..|by destruct H1|].
    destruct (datumEqual_total t t d hi) as [b2 ->]; [done..|by destruct H2|].
    destruct (datumLess_total t lo d) as [b3 E3]; [done..|].
    destruct (datumLess_total t d hi) as [b4 E4]; [done..|].
    destruct b1, b2; cbn; rewrite ?E3, ?E4; by eexists.
Qed.

(** C25: Type soundness of expressions. On a row of the table's types without NULL, an
    expression that has type [t] over the table's columns evaluates to a value of
    type [t]: no type assertion fails and no error is returned. *)
Theorem eval_type_sound ts e t row :
  has_type ts e t -> row_typed ts row -> exists d, Eval e row = Ok d /\ present t d.
Proof. apply eval_typed. Qed.
