(* ===== verification/Operator.v ===== *)
(** [internal/engine/sql/planner]: physical operators ([plan.go], [limit.go], and the
    filter and projection of [translate.go]).

    The interface [Operator] is a class over the node's own mutable fields [S] and a
    state [W] that all nodes of a plan share (the store below the scans).  A struct
    field that no method writes is a parameter of the node.  Loops take fuel, which
    the methods pass on; [contract] is what an operator promises: opened, it returns
    its rows one by one, then [EOF] for ever, and closed it can be opened again, for
    all large enough amounts of fuel.  Each node's theorem derives its contract from
    its children's. *)

From Stdlib Require Import ZArith Lia.
From stdpp Require Import base list.
From S2P Require Import Prelude Monad Datum Expr.
Open Scope Z_scope.
Open Scope st_scope.

(** [H] stands for the errors of the heap below. *)
Inductive plan_err (H : Type) : Type :=
| EOF | NoFuel | ErrEval (e : eval_err) | ErrUnsupportedJoinKey | ErrHeap (h : H).
Arguments EOF {H}.
Arguments NoFuel {H}.
Arguments ErrEval {H} e.
Arguments ErrUnsupportedJoinKey {H}.
Arguments ErrHeap {H} h.

(** A column with its table's alias, for joins ([join.go]). *)
Record SchemaField := mkField { f_Column : Column; TableAlias : list byte }.
Definition PlannerSchema : Type := list SchemaField.

Definition ToEngineSchema (ps : PlannerSchema) : Schema := map f_Column ps.
Definition PlannerSchemaFromEngineSchema (schema : Schema) (tableAlias : list byte) : PlannerSchema :=
  map (fun col => mkField col tableAlias) schema.

Class Operator (W S H : Type) := {
  Open : nat -> st (W * S) (plan_err H) unit;
  Next : nat -> st (W * S) (plan_err H) Row;
  Close : st (W * S) (plan_err H) unit;
  op_Schema : Schema;
  (** the method [PlannerSchema], which some nodes have *)
  op_PlannerSchema : option PlannerSchema }.

Definition GetPlannerSchema {W S H} (op : Operator W S H) : PlannerSchema :=
  match op_PlannerSchema with
  | Some ps => ps
  | None => PlannerSchemaFromEngineSchema op_Schema []
  end.

(** * Running parts of the state *)

(** A method of a child, whose state is the part [get] of its parent's. *)
Definition on {W S C E A} (get : S -> C) (put : C -> S -> S) (c : st (W * C) E A) : st (W * S) E A :=
  fun '(w, s) => let '(r, (w', c')) := c (w, get s) in (r, (w', put c' s)).

(** The node's own fields. *)
Definition own {W S E A} (f : S -> A) : st (W * S) E A := gets (fun s => f (snd s)).
Definition update {W S E} (f : S -> S) : st (W * S) E unit := modify (fun s => (fst s, f (snd s))).

Definition eval {X H A} (r : ev A) : st X (plan_err H) A :=
  lift (match r with Ok a => Ok a | Err e => Err (ErrEval e) end).

(** The outcome of [c] as a value, for code that inspects the error. *)
Definition attempt {X E A} (c : st X E A) : st X E (res E A) := fun s => let '(r, s') := c s in (Ok r, s').

(** Running [c] keeps the invariant of the shared state and ends as [Q] says. *)
Definition runs {W S E A} (I : W -> Prop) (c : st (W * S) E A) (w : W) (s : S)
  (Q : res E A -> S -> Prop) : Prop :=
  let '(r, (w', s')) := c (w, s) in I w' /\ Q r s'.

Section runs.
Context {W S E : Type} (I : W -> Prop).
Implicit Types (w : W) (s : S).

Lemma runs_ret {A} (a : A) w s (Q : res E A -> S -> Prop) : I w -> Q (Ok a) s -> runs I (ret a) w s Q.
Proof. done. Qed.

Lemma runs_fail {A} (e : E) w s (Q : res E A -> S -> Prop) : I w -> Q (Err e) s -> runs I (fail e) w s Q.
Proof. done. Qed.

Lemma runs_mono {A} (c : st (W * S) E A) w s (Q Q' : res E A -> S -> Prop) :
  runs I c w s Q -> (forall r s', Q r s' -> Q' r s') -> runs I c w s Q'.
Proof. unfold runs. destruct (c (w, s)) as [r [w' s']]. intros [? ?] HQ. auto. Qed.

Lemma runs_bind {A B} (c : st (W * S) E A) (k : A -> st (W * S) E B) w s Q :
  runs I c w s (fun r s' => match r with
                            | Ok a => forall w', I w' -> runs I (k a) w' s' Q
                            | Err e => Q (Err e) s'
                            end) -> runs I (bind c k) w s Q.
Proof.
  unfold runs at 1 3, bind. destruct (c (w, s)) as [[a|e] [w' s']]; intros [Hw HQ]; [|done].
  by apply HQ.
Qed.

Lemma runs_own {A B} (f : S -> A) (k : A -> st (W * S) E B) w s Q :
  runs I (k (f s)) w s Q -> runs I (bind (own f) k) w s Q.
Proof. done. Qed.

Lemma runs_update {B} (f : S -> S) (k : unit -> st (W * S) E B) w s Q :
  runs I (k tt) w (f s) Q -> runs I (bind (update f) k) w s Q.
Proof. done. Qed.

Lemma runs_on {C A} (get : S -> C) (put : C -> S -> S) (c : st (W * C) E A) w s Q :
  runs I c w (get s) (fun r c' => Q r (put c' s)) -> runs I (on get put c) w s Q.
Proof. unfold runs, on. by destruct (c (w, get s)) as [r [w' c']]. Qed.

Lemma runs_attempt {A B} (c : st (W * S) E A) (k : res E A -> st (W * S) E B) w s Q :
  runs I c w s (fun r s' => forall w', I w' -> runs I (k r) w' s' Q) -> runs I (bind (attempt c) k) w s Q.
Proof.
  unfold runs at 1 3, bind, attempt. destruct (c (w, s)) as [r [w' s']]. intros [Hw HQ]. by apply HQ.
Qed.

Lemma runs_ignore {A} (c : st (W * S) E A) w s (Q : res E unit -> S -> Prop) :
  runs I c w s (fun _ s' => Q (Ok tt) s') -> runs I (ignore c) w s Q.
Proof. unfold runs, ignore. by destruct (c (w, s)) as [r [w' s']]. Qed.

Lemma runs_cleanup {A B} (c : st (W * S) E A) (h : st (W * S) E B) w s Q :
  runs I c w s (fun r s' => match r with
                            | Ok a => Q (Ok a) s'
                            | Err e => forall w', I w' -> runs I h w' s' (fun _ s'' => Q (Err e) s'')
                            end) -> runs I (cleanup c h) w s Q.
Proof.
  unfold runs at 1 3, cleanup. destruct (c (w, s)) as [[a|e] [w' s']]; intros [Hw HQ]; [done|].
  specialize (HQ w' Hw). unfold runs in HQ. by destruct (h (w', s')) as [r [w'' s'']].
Qed.
End runs.

Lemma runs_eval {W S H A B} (I : W -> Prop) (a : A) (k : A -> st (W * S) (plan_err H) B) w s Q :
  runs I (k a) w s Q -> runs I (bind (eval (Ok a)) k) w s Q.
Proof. done. Qed.

(** * The contract of an operator *)

Record contract {W S H} (op : Operator W S H) (I : W -> Prop) (k : nat) (rows : list Row)
  (Ready : S -> Prop) (Live : list Row -> S -> Prop) : Prop := {
  c_open n w s : (k <= n)%nat -> I w -> Ready s ->
    runs I (Open n) w s (fun r s' => r = Ok tt /\ Live rows s');
  c_next n w s row rest : (k <= n)%nat -> I w -> Live (row :: rest) s ->
    runs I (Next n) w s (fun r s' => r = Ok row /\ Live rest s');
  c_end n w s : (k <= n)%nat -> I w -> Live [] s ->
    runs I (Next n) w s (fun r s' => r = Err EOF /\ Live [] s');
  c_close w s rest : I w -> Live rest s ->
    runs I Close w s (fun r s' => r = Ok tt /\ Ready s') }.

(** The operator, in state [s0], returns the rows [rows] each time it is opened. *)
Definition yields {W S H} (op : Operator W S H) (I : W -> Prop) (s0 : S) (rows : list Row) : Prop :=
  exists k Ready Live, contract op I k rows Ready Live /\ Ready s0.

(** Open, read to the end, close: what a client does with a plan. *)
Section client.
Context {W S H : Type} (op : Operator W S H).

Fixpoint read_all (m n : nat) : st (W * S) (plan_err H) (list Row) := fun s =>
  match m with
  | O => (Err NoFuel, s)
  | Datatypes.S m' =>
      match Next n s with
      | (Ok row, s') =>
          match read_all m' n s' with
          | (Ok rows, s'') => (Ok (row :: rows), s'')
          | (Err e, s'') => (Err e, s'')
          end
      | (Err EOF, s') => (Ok [], s')
      | (Err e, s') => (Err e, s')
      end
  end.

Definition run_plan (n : nat) : st (W * S) (plan_err H) (list Row) :=
  Open n ;;; rows <- read_all n n ;; Close ;;; ret rows.

Lemma read_all_yields I k rows Ready Live m n w s rest :
  contract op I k rows Ready Live -> (k <= n)%nat -> (length rest < m)%nat -> I w -> Live rest s ->
  runs I (read_all m n) w s (fun r s' => r = Ok rest /\ Live [] s').
Proof.
  intros Hc Hk. revert m w s. induction rest as [|row rest IH]; intros [|m] w s Hm Hw Hl;
    cbn [length read_all] in *; try lia; unfold runs in *; cbn [read_all].
  - pose proof (c_end _ _ _ _ _ _ Hc n w s Hk Hw Hl) as HN. unfold runs in HN.
    destruct (Next n (w, s)) as [r [w' s']]. by destruct HN as (? & -> & ?).
  - pose proof (c_next _ _ _ _ _ _ Hc n w s row rest Hk Hw Hl) as HN. unfold runs in HN.
    destruct (Next n (w, s)) as [r [w' s']]. destruct HN as (Hw' & -> & Hl').
    specialize (IH m w' s' ltac:(lia) Hw' Hl').
    destruct (read_all m n (w', s')) as [r' [w'' s'']]. by destruct IH as (? & -> & ?).
Qed.

Lemma run_plan_yields I k rows Ready Live n w s :
  contract op I k rows Ready Live -> (k <= n)%nat -> (length rows < n)%nat -> I w -> Ready s ->
  runs I (run_plan n) w s (fun r s' => r = Ok rows /\ Ready s').
Proof.
  intros Hc Hk Hn Hw Hr. unfold run_plan. apply runs_bind.
  eapply runs_mono; [by eapply c_open|]. intros r s1 (-> & Hl) w1 Hw1.
  apply runs_bind. eapply runs_mono; [by eapply read_all_yields|]. intros r s2 (-> & Hl2) w2 Hw2.
  apply runs_bind. eapply runs_mono; [by eapply c_close|]. intros r s3 (-> & Hr3) w3 Hw3.
  by apply runs_ret.
Qed.
End client.

(** With enough fuel, reading the plan to its end returns [rows]. *)
Definition returns {W S H} (op : Operator W S H) (I : W -> Prop) (s0 : S) (rows : list Row) : Prop :=
  exists k, forall n w, (k <= n)%nat -> I w -> runs I (run_plan op n) w s0 (fun r _ => r = Ok rows).

Lemma yields_returns {W S H} (op : Operator W S H) I s0 rows : yields op I s0 rows -> returns op I s0 rows.
Proof.
  intros (k & Ready & Live & Hc & Hr). exists (k + length rows + 1)%nat. intros n w Hn Hw.
  eapply runs_mono; [eapply run_plan_yields; eauto with lia|]. by intros r s' (-> & _).
Qed.
