(* ===== verification/Nodes.v ===== *)
(** [internal/engine/sql/planner]: the nodes without a buffer: the sequential scan
    ([plan.go]), the filter and the projection ([translate.go]) and the limit
    ([limit.go]), each with its contract. *)

From Stdlib Require Import ZArith Lia.
From stdpp Require Import base list.
From S2P Require Import Prelude Monad Datum Expr Operator.
Open Scope Z_scope.
Open Scope st_scope.

Record TxContext := mkTx { ReadTxID : Z; WriteTxID : Z }.

(** * SeqScanNode *)

(** [TableHeap] and its [HeapScanIterator], over iterators [It]. *)
Class TableHeap (W It H : Type) := {
  heap_Scan : TxContext -> st W (plan_err H) It;
  iter_Next : st (W * It) (plan_err H) (list byte * Z);
  iter_Close : st (W * It) (plan_err H) unit }.

Class RowDecoder (H : Type) := Decode : list byte -> Schema -> res (plan_err H) Row.

Section SeqScanNode.
Context {W It H : Type} (heap : TableHeap W It H) (decoder : RowDecoder H).
Context (schema : Schema) (tx : TxContext).

(** The field [iter], which is [nil] while the node is closed. *)
Definition scan_state : Type := option It.

Definition SeqScan_Open : st (W * scan_state) (plan_err H) unit := fun '(w, s) =>
  match heap_Scan tx w with
  | (Ok iter, w') => (Ok tt, (w', Some iter))
  | (Err e, w') => (Err e, (w', s))
  end.

(** A method of the iterator, when there is one. *)
Definition with_iter {A} (none : res (plan_err H) A) (c : st (W * It) (plan_err H) A)
  : st (W * scan_state) (plan_err H) A := fun '(w, s) =>
  match s with
  | None => (none, (w, None))
  | Some iter => let '(r, (w', iter')) := c (w, iter) in (r, (w', Some iter'))
  end.

Definition SeqScan_Next : st (W * scan_state) (plan_err H) Row :=
  '(encoded, rowID) <- with_iter (Err EOF) iter_Next ;;
  row <- lift (Decode encoded schema) ;;
  let row := mkRow (Datums row) rowID in
  ret (Row_DeepCopy row).

Definition SeqScan_Close : st (W * scan_state) (plan_err H) unit := fun '(w, s) =>
  match s with
  | Some iter => let '(r, (w', _)) := iter_Close (w, iter) in (r, (w', None))
  | None => (Ok tt, (w, None))
  end.

Definition SeqScanNode : Operator W scan_state H :=
  {| Open _ := SeqScan_Open; Next _ := SeqScan_Next; Close := SeqScan_Close;
     op_Schema := schema; op_PlannerSchema := None |}.

(** What the heap promises: a scan visits the encoded tuples [tuples], then ends. *)
Record scans (I : W -> Prop) (tuples : list (list byte * Z)) (At : list (list byte * Z) -> It -> Prop)
  : Prop := {
  s_open w : I w -> exists w' it, heap_Scan tx w = (Ok it, w') /\ I w' /\ At tuples it;
  s_next w it t ts : I w -> At (t :: ts) it -> runs I iter_Next w it (fun r it' => r = Ok t /\ At ts it');
  s_end w it : I w -> At [] it -> runs I iter_Next w it (fun r it' => r = Err EOF /\ At [] it');
  s_close w it ts : I w -> At ts it -> runs I iter_Close w it (fun r it' => r = Ok tt) }.

(** The row of a tuple. *)
Definition decodes (t : list byte * Z) (row : Row) : Prop :=
  exists r, Decode (fst t) schema = Ok r /\ row = mkRow (Datums r) (snd t).

Lemma scan_contract I tuples At rows :
  scans I tuples At -> Forall2 decodes tuples rows ->
  contract SeqScanNode I 0 rows (fun s => s = None)
    (fun rest s => exists it ts, s = Some it /\ At ts it /\ Forall2 decodes ts rest).
Proof.
  intros Hs Hd. constructor; cbn.
  - intros n w s _ Hw ->. destruct (s_open _ _ _ Hs w Hw) as (w' & it & E & Hw' & Ha).
    unfold runs, SeqScan_Open. rewrite E. eauto 10.
  - intros n w s row rest _ Hw (it & ts & -> & Ha & Hf).
    inversion Hf as [|t ? ts' ? (r & Er & ->) Hf']; subst.
    pose proof (s_next _ _ _ Hs w it t ts' Hw Ha) as HN. unfold runs, SeqScan_Next, bind, with_iter in *.
    destruct (iter_Next (w, it)) as [x [w' it']]. destruct HN as (Hw' & -> & Ha').
    destruct t as [encoded rowID]. cbn in *. unfold lift. rewrite Er. cbn.
    split; [done|]. rewrite Row_DeepCopy_id. eauto 10.
  - intros n w s _ Hw (it & ts & -> & Ha & Hf). inversion Hf; subst.
    pose proof (s_end _ _ _ Hs w it Hw Ha) as HN. unfold runs, SeqScan_Next, bind, with_iter in *.
    destruct (iter_Next (w, it)) as [x [w' it']]. destruct HN as (Hw' & -> & Ha'). eauto 10.
  - intros w s rest Hw (it & ts & -> & Ha & _).
    pose proof (s_close _ _ _ Hs w it ts Hw Ha) as HN. unfold runs, SeqScan_Close in *.
    destruct (iter_Close (w, it)) as [x [w' it']]. by destruct HN as (Hw' & ->).
Qed.
End SeqScanNode.

(** * FilterNode *)

Section FilterNode.
Context {W C H : Type} (child : Operator W C H) (pred : BoundExpr).

(** The loop of [Next]: [m] turns, the child's methods with fuel [n]. *)
Fixpoint filter_next (m n : nat) : st (W * C) (plan_err H) Row :=
  match m with
  | O => fail NoFuel
  | Datatypes.S m' =>
      row <- Next n ;;
      d <- eval (Eval pred row) ;;
      if is_true d then ret row else filter_next m' n
  end.

Definition FilterNode : Operator W C H :=
  {| Open := Open; Next n := filter_next n n; Close := Close;
     op_Schema := op_Schema; op_PlannerSchema := None |}.

(** The rows whose predicate is true. *)
Definition selects (row : Row) : bool :=
  match Eval pred row with Ok d => is_true d | Err _ => false end.

Definition evaluates (row : Row) : Prop := exists d, Eval pred row = Ok d.

Lemma filter_next_run I k rows Ready Live m n w s rest :
  contract child I k rows Ready Live -> (k <= n)%nat -> (length rest < m)%nat ->
  Forall evaluates rest -> I w -> Live rest s ->
  runs I (filter_next m n) w s (fun r s' =>
    match List.filter selects rest with
    | [] => r = Err EOF /\ Live [] s'
    | row :: l => r = Ok row /\ exists rest', l = List.filter selects rest' /\ Live rest' s' /\
                  Forall evaluates rest' /\ (length rest' < length rest)%nat
    end).
Proof.
  intros Hc Hk. revert m w s. induction rest as [|row rest IH]; intros [|m] w s Hm He Hw Hl;
    cbn [length] in *; try lia; cbn [filter_next List.filter]; apply runs_bind.
  - eapply runs_mono; [by eapply c_end|]. by intros r s' (-> & ?).
  - inversion He as [|? ? [d Ed] He']; subst.
    eapply runs_mono; [by eapply c_next|]. intros r s' (-> & Hl') w' Hw'.
    unfold selects at 1. rewrite Ed. apply runs_eval. destruct (is_true d).
    + apply runs_ret; [done|]. split; [done|]. exists rest. eauto with lia.
    + eapply runs_mono; [apply IH; eauto with lia|]. intros r s'' HQ.
      destruct (List.filter selects rest); [done|]. destruct HQ as (-> & rest' & -> & ? & ? & ?).
      split; [done|]. exists rest'. eauto with lia.
Qed.

Lemma filter_contract I k rows Ready Live :
  contract child I k rows Ready Live -> Forall evaluates rows ->
  contract FilterNode I (k + length rows + 1) (List.filter selects rows) Ready
    (fun l s => exists rest, l = List.filter selects rest /\ Live rest s /\
                 Forall evaluates rest /\ (length rest <= length rows)%nat).
Proof.
  intros Hc He. constructor; cbn [Open Next Close FilterNode].
  - intros n w s Hn Hw Hr. eapply runs_mono; [eapply c_open; eauto with lia|].
    intros r s' (-> & Hl). eauto 10.
  - intros n w s row l Hn Hw (rest & E & Hl & He' & Hlen).
    eapply runs_mono; [eapply (filter_next_run _ k) with (rest := rest); eauto with lia|]. rewrite <- E.
    intros r s' (-> & rest' & -> & ? & ? & ?). split; [done|]. exists rest'. eauto with lia.
  - intros n w s Hn Hw (rest & E & Hl & He' & Hlen).
    eapply runs_mono; [eapply (filter_next_run _ k) with (rest := rest); eauto with lia|]. rewrite <- E.
    intros r s' (-> & ?). split; [done|]. exists []. cbn. eauto with lia.
  - intros w s l Hw (rest & _ & Hl & _). by eapply c_close.
Qed.
End FilterNode.

(** * ProjectNode *)

Section ProjectNode.
Context {W C H : Type} (child : Operator W C H).

Record ProjectionExpr := mkProj { Expr : BoundExpr; Col : Column }.

Context (exprs : list ProjectionExpr) (outSchema : Schema).

Fixpoint project_datums (pes : list ProjectionExpr) (row : Row) : ev (list Datum) :=
  match pes with
  | [] => Ok []
  | pe :: pes' => d ← Eval (Expr pe) row; ds ← project_datums pes' row; Ok (d :: ds)
  end.

Definition ProjectNode : Operator W C H :=
  {| Open := Open;
     Next n := row <- Next n ;;
               out <- eval (project_datums exprs row) ;;
               ret (mkRow out 0);
     Close := Close; op_Schema := outSchema; op_PlannerSchema := None |}.

Definition projects (row out : Row) : Prop :=
  project_datums exprs row = Ok (Datums out) /\ RowID out = 0.

Lemma project_contract I k rows Ready Live outs :
  contract child I k rows Ready Live -> Forall2 projects rows outs ->
  contract ProjectNode I k outs Ready (fun l s => exists rest, Forall2 projects rest l /\ Live rest s).
Proof.
  intros Hc Hp. constructor; cbn [Open Next Close ProjectNode].
  - intros n w s Hn Hw Hr. eapply runs_mono; [by eapply c_open|]. intros r s' (-> & Hl). eauto.
  - intros n w s out l Hn Hw (rest & Hf & Hl).
    inversion Hf as [|row [ds i] rest' ? [E Ei] Hf']; subst. cbn in *. subst i.
    apply runs_bind. eapply runs_mono; [by eapply c_next|]. intros r s' (-> & Hl') w' Hw'.
    rewrite E. apply runs_eval, runs_ret; eauto.
  - intros n w s Hn Hw (rest & Hf & Hl). inversion Hf; subst.
    apply runs_bind. eapply runs_mono; [by eapply c_end|]. intros r s' (-> & Hl'). eauto.
  - intros w s l Hw (rest & _ & Hl). by eapply c_close.
Qed.
End ProjectNode.

(** * LimitNode *)

Record limit_state (C : Type) := mkLimit { l_child : C; skipped : Z; emitted : Z }.
Arguments mkLimit {C}.
Arguments l_child {C}.
Arguments skipped {C}.
Arguments emitted {C}.

Section LimitNode.
Context {W C H : Type} (child : Operator W C H) (limit offset : Z).
Implicit Types s : limit_state C.

Definition on_child {A} : st (W * C) (plan_err H) A -> st (W * limit_state C) (plan_err H) A :=
  on l_child (fun c s => mkLimit c (skipped s) (emitted s)).

Definition Limit_Open (n : nat) : st (W * limit_state C) (plan_err H) unit :=
  update (fun s => mkLimit (l_child s) 0 (emitted s)) ;;;
  update (fun s => mkLimit (l_child s) (skipped s) 0) ;;;
  on_child (Open n).

Fixpoint limit_next (m n : nat) : st (W * limit_state C) (plan_err H) Row :=
  match m with
  | O => fail NoFuel
  | Datatypes.S m' =>
      row <- on_child (Next n) ;;
      skip <- own (fun s => skipped s <? offset) ;;
      if skip : bool then
        update (fun s => mkLimit (l_child s) (skipped s + 1) (emitted s)) ;;;
        limit_next m' n
      else
        update (fun s => mkLimit (l_child s) (skipped s) (emitted s + 1)) ;;;
        over <- own (fun s => (0 <? limit) && (limit <? emitted s)) ;;
        if over : bool then fail EOF else ret row
  end.

Definition LimitNode : Operator W (limit_state C) H :=
  {| Open := Limit_Open; Next n := limit_next n n; Close := on_child Close;
     op_Schema := op_Schema; op_PlannerSchema := None |}.

(** What the node still returns of the rows [rest] after some rows were skipped and emitted:
    it compares with the limit only when that is positive, so that a limit of 0 stops nothing. *)
Definition limited (sk em : Z) (rest : list Row) : list Row :=
  let l := zdrop (offset - sk) rest in
  if 0 <? limit then ztake (limit - em) l else l.

(** What the node returns of the rows of its child: [limit_rows_positive] and
    [limit_rows_zero] say what that is in terms of LIMIT and OFFSET. *)
Definition limit_rows : list Row -> list Row := limited 0 0.

Lemma limit_rows_positive rows : 0 < limit -> limit_rows rows = ztake limit (zdrop offset rows).
Proof. intros. unfold limit_rows, limited. rewrite (proj2 (Z.ltb_lt _ _)) by done. by rewrite !Z.sub_0_r. Qed.

(** LIMIT 0 asks for no row; the node returns all of them after the offset. *)
Lemma limit_rows_zero rows : limit <= 0 -> limit_rows rows = zdrop offset rows.
Proof. intros. unfold limit_rows, limited. rewrite (proj2 (Z.ltb_ge _ _)) by done. by rewrite Z.sub_0_r. Qed.

Lemma limited_nil sk em : limited sk em [] = [].
Proof. unfold limited. unfold zdrop, ztake. rewrite drop_nil, take_nil. by destruct (0 <? limit). Qed.

Lemma limited_skip sk em row rest :
  sk < offset -> limited sk em (row :: rest) = limited (sk + 1) em rest.
Proof.
  intros. unfold limited, zdrop.
  by replace (Z.to_nat (offset - sk)) with (S (Z.to_nat (offset - (sk + 1)))) by lia.
Qed.

Lemma limited_emit sk em row rest :
  offset <= sk -> 0 <= em ->
  limited sk em (row :: rest) =
    (if (0 <? limit) && (limit <? em + 1) then [] else row :: limited sk (em + 1) rest).
Proof.
  intros. unfold limited, zdrop, ztake.
  replace (Z.to_nat (offset - sk)) with O by lia. cbn [drop].
  destruct (0 <? limit) eqn:El; cbn [andb]; [|done].
  destruct (limit <? em + 1) eqn:Ee.
  - by replace (Z.to_nat (limit - em)) with O by lia.
  - by replace (Z.to_nat (limit - em)) with (S (Z.to_nat (limit - (em + 1)))) by lia.
Qed.

Lemma limited_over sk em rest : 0 < limit -> limit <= em -> limited sk em rest = [].
Proof.
  intros. unfold limited, ztake. rewrite (proj2 (Z.ltb_lt _ _)) by done.
  by replace (Z.to_nat (limit - em)) with O by lia.
Qed.

Lemma limit_next_run I k rows Ready Live m n w s rest :
  contract child I k rows Ready Live -> (k <= n)%nat -> (length rest < m)%nat ->
  0 <= emitted s -> I w -> Live rest (l_child s) ->
  runs I (limit_next m n) w s (fun r s' => exists rest',
    Live rest' (l_child s') /\ (length rest' <= length rest)%nat /\ 0 <= emitted s' /\
    match limited (skipped s) (emitted s) rest with
    | [] => r = Err EOF /\ limited (skipped s') (emitted s') rest' = []
    | row :: l => r = Ok row /\ l = limited (skipped s') (emitted s') rest'
    end).
Proof.
  intros Hc Hk. revert m w s. induction rest as [|row rest IH]; intros [|m] w s Hm He Hw Hl;
    cbn [length] in *; try lia; cbn [limit_next]; apply runs_bind, runs_on.
  - eapply runs_mono; [by eapply c_end|]. intros r c (-> & Hl'). exists []. cbn [l_child emitted skipped].
    rewrite limited_nil. eauto.
  - eapply runs_mono; [by eapply c_next|]. intros r c (-> & Hl') w' Hw'. apply runs_own.
    cbn [skipped]. destruct (skipped s <? offset) eqn:E.
    + apply Z.ltb_lt in E. apply runs_update. cbn [l_child skipped emitted].
      rewrite limited_skip by done. eapply runs_mono; [apply IH; cbn; eauto with lia|].
      cbn. intros r s' (rest' & ? & ? & ? & ?). exists rest'. eauto with lia.
    + apply Z.ltb_ge in E. rewrite limited_emit by done.
      apply runs_update, runs_own. cbn [l_child skipped emitted].
      destruct ((0 <? limit) && (limit <? emitted s + 1)) eqn:Eo.
      * apply runs_fail; [done|]. exists rest. cbn. split_and!; eauto with lia.
        apply limited_over; lia.
      * apply runs_ret; [done|]. exists rest. cbn. split_and!; eauto with lia.
Qed.

Lemma limit_contract I k rows Ready Live :
  contract child I k rows Ready Live ->
  contract LimitNode I (k + length rows + 1) (limit_rows rows) (fun s => Ready (l_child s))
    (fun l s => exists rest, l = limited (skipped s) (emitted s) rest /\ Live rest (l_child s) /\
                 (length rest <= length rows)%nat /\ 0 <= emitted s).
Proof.
  intros Hc. constructor; cbn [Open Next Close LimitNode].
  - intros n w s Hn Hw Hr. unfold Limit_Open. apply runs_update, runs_update, runs_on. cbn.
    eapply runs_mono; [eapply c_open; eauto with lia|]. intros r c (-> & Hl). cbn. eauto 10 with lia.
  - intros n w s row l Hn Hw (rest & E & Hl & Hlen & He).
    eapply runs_mono; [eapply (limit_next_run _ k) with (rest := rest); eauto with lia|]. rewrite <- E.
    intros r s' (rest' & ? & ? & ? & -> & ->). eauto 10 with lia.
  - intros n w s Hn Hw (rest & E & Hl & Hlen & He).
    eapply runs_mono; [eapply (limit_next_run _ k) with (rest := rest); eauto with lia|]. rewrite <- E.
    intros r s' (rest' & ? & ? & ? & -> & ?). eauto 10 with lia.
  - intros w s l Hw (rest & _ & Hl & _). apply runs_on. eapply runs_mono; [by eapply c_close|].
    by intros r c (-> & ?).
Qed.
End LimitNode.
