(* ===== verification/Sort.v ===== *)
(** [internal/engine/sql/planner/sort.go]: ORDER BY.

    The node buffers its child's rows and sorts them with [sort.SliceStable], whose
    documented behaviour is the class [GoSortLaws].  The comparison of the code may
    panic; on rows whose key columns are present and of a type the program orders
    (integers and strings) it is a strict weak order, and the node returns the stable
    sort of its input. *)

From Stdlib Require Import ZArith Lia Sorted Permutation.
From stdpp Require Import base list sorting.
From S2P Require Import Prelude Monad GoRuntime Datum Expr Operator.
Open Scope Z_scope.

(** * sort.SliceStable *)

(** A comparison that may panic ends the sort. *)
Class GoSort := sort_SliceStable : forall E A : Type, (A -> A -> res E bool) -> list A -> res E (list A).
Arguments sort_SliceStable {_ E A} less l.

(** Neither stands before the other. *)
Definition ties {A} (f : A -> A -> bool) (x y : A) : bool := negb (f x y) && negb (f y x).

(** [m] is [l] sorted by [f], equal elements in their original order. *)
Definition stable_sort_of {A} (f : A -> A -> bool) (l m : list A) : Prop :=
  Permutation m l /\ StronglySorted (not_after f) m /\
  forall x, List.filter (ties f x) m = List.filter (ties f x) l.

Class GoSortLaws `{GoSort} :=
  sort_SliceStable_ok E A (less : A -> A -> res E bool) (f : A -> A -> bool) (l : list A) :
    strict_weak f -> (forall x y, In x l -> In y l -> less x y = Ok (f x y)) ->
    exists m, sort_SliceStable less l = Ok m /\ stable_sort_of f l m.

(** ** A stable sort: insertion, with a comparison that may panic *)

Section insertion.
Context {E A : Type} (less : A -> A -> res E bool).

Fixpoint insert_checked (x : A) (l : list A) : res E (list A) :=
  match l with
  | [] => Ok [x]
  | y :: l' =>
      b ← less y x;
      if b : bool then l'' ← insert_checked x l'; Ok (y :: l'') else Ok (x :: l)
  end.

Definition insertion_sort_checked (l : list A) : res E (list A) :=
  foldr (fun x sorted => l' ← sorted; insert_checked x l') (Ok []) l.

Lemma insert_checked_ok f x l :
  (forall y, In y l -> less y x = Ok (f y x)) -> insert_checked x l = Ok (sorted_insert f x l).
Proof.
  induction l as [|y l IH]; intros Hf; [done|]. cbn [insert_checked sorted_insert].
  rewrite (Hf y) by (by left). cbn. destruct (f y x); [|done].
  rewrite IH; [done|]. intros z Hz. apply Hf. by right.
Qed.

Lemma insertion_sort_checked_ok f l :
  (forall x y, In x l -> In y l -> less x y = Ok (f x y)) ->
  insertion_sort_checked l = Ok (insertion_sort f l).
Proof.
  induction l as [|x l IH]; intros Hf; [done|]. unfold insertion_sort_checked, insertion_sort in *. cbn.
  rewrite IH by (intros; apply Hf; by right). cbn. apply insert_checked_ok.
  intros y Hy. apply Hf; [|by left]. right.
  by apply (Permutation_in y (insertion_sort_perm f l)).
Qed.
End insertion.

Section stable.
Context {A : Type} (f : A -> A -> bool) (Hf : strict_weak f).

Lemma ties_sym x y : ties f x y = ties f y x.
Proof. unfold ties. apply andb_comm. Qed.

Lemma ties_below x y z : ties f x y = true -> f z y = f z x.
Proof.
  unfold ties. rewrite andb_true_iff, !negb_true_iff. intros [H1 H2].
  destruct (f z y) eqn:Ey, (f z x) eqn:Ex; try done.
  - destruct (sw_cotrans _ Hf z x y Ey); congruence.
  - destruct (sw_cotrans _ Hf z y x Ex); congruence.
Qed.

Lemma sorted_insert_ties z x l :
  List.filter (ties f z) (sorted_insert f x l) = List.filter (ties f z) (x :: l).
Proof.
  induction l as [|y l IH]; [done|]. cbn [sorted_insert]. destruct (f y x) eqn:E; [|done].
  cbn [List.filter] in *. rewrite IH. destruct (ties f z x) eqn:Ex, (ties f z y) eqn:Ey; try done.
  rewrite (ties_below z x y Ex), <- (ties_below z y y Ey) in E.
  by rewrite (sw_irrefl _ Hf) in E.
Qed.

Lemma insertion_sort_stable l : stable_sort_of f l (insertion_sort f l).
Proof.
  split; [apply insertion_sort_perm|]. split; [by apply insertion_sort_sorted|].
  intros z. induction l as [|x l IH]; [done|]. unfold insertion_sort in *. cbn [foldr].
  rewrite sorted_insert_ties. cbn [List.filter]. by rewrite IH.
Qed.
End stable.

Definition simple_sort : GoSort := fun E A less l => insertion_sort_checked less l.

Lemma simple_sort_laws : @GoSortLaws simple_sort.
Proof.
  intros E A less f l Hf Hl. exists (insertion_sort f l). split.
  - by apply insertion_sort_checked_ok.
  - by apply insertion_sort_stable.
Qed.

(** * The comparison of ORDER BY *)

Record SortKey := mkSortKey { ColIdx : Z; Desc : bool }.

Fixpoint sort_less (keys : list SortKey) (r1 r2 : Row) : ev bool :=
  match keys with
  | [] => Ok false
  | key :: keys' =>
      d1 ← index (Datums r1) (ColIdx key);
      d2 ← index (Datums r2) (ColIdx key);
      eq ← datumEqual d1 d2;
      if eq : bool then sort_less keys' r1 r2
      else
        let n1 := is_nil (d_Value d1) in
        let n2 := is_nil (d_Value d2) in
        if negb (Bool.eqb n1 n2) then Ok (if Desc key then n2 else n1)
        else
          less ← datumLess d1 d2;
          Ok (if Desc key then negb less else less)
  end.

(** ** What it means: rows are compared column by column *)

Definition lex (c d : comparison) : comparison := match c with Eq => d | _ => c end.

Definition val_compare (a b : Val) : comparison :=
  match a, b with
  | VInt64 x, VInt64 y | VUint64 x, VUint64 y => Z.compare x y
  | VString x, VString y => bytes_compare x y
  | _, _ => Eq
  end.

(** A preorder on values: values that are not of the type are all equal, and first. *)
Definition rank (t : Ty) (v : Val) : option Val :=
  match t, v with
  | TypeInt64, VInt64 _ | TypeUint64, VUint64 _ | TypeString, VString _ => Some v
  | _, _ => None
  end.

Definition rank_compare (t : Ty) (a b : Val) : comparison :=
  match rank t a, rank t b with
  | Some x, Some y => val_compare x y
  | Some _, None => Gt
  | None, Some _ => Lt
  | None, None => Eq
  end.

Definition value_at (idx : Z) (r : Row) : Val :=
  default VNil (d_Value <$> Datums r !! Z.to_nat idx).

Definition key_type (ts : list Ty) (key : SortKey) : Ty := default TypeNull (ts !! Z.to_nat (ColIdx key)).

Fixpoint order_compare (ts : list Ty) (keys : list SortKey) (r1 r2 : Row) : comparison :=
  match keys with
  | [] => Eq
  | key :: keys' =>
      let c := rank_compare (key_type ts key) (value_at (ColIdx key) r1) (value_at (ColIdx key) r2) in
      lex (if Desc key then CompOpp c else c) (order_compare ts keys' r1 r2)
  end.

(** [r1] stands before [r2] in the order of the keys. *)
Definition ordered_before ts keys (r1 r2 : Row) : bool :=
  match order_compare ts keys r1 r2 with Lt => true | _ => false end.

Definition sortable (t : Ty) : bool :=
  match t with TypeInt64 | TypeUint64 | TypeString => true | _ => false end.

Definition keys_sortable (ts : list Ty) (keys : list SortKey) : Prop :=
  Forall (fun key => 0 <= ColIdx key /\ exists t, ts !! Z.to_nat (ColIdx key) = Some t /\ sortable t) keys.

(** ** The comparison is a strict weak order *)

Record preorder {A} (cmp : A -> A -> comparison) : Prop := {
  po_anti x y : cmp y x = CompOpp (cmp x y);
  po_trans x y z : cmp x y <> Gt -> cmp y z <> Gt -> cmp x z <> Gt }.

Lemma preorder_lex {A} (c d : A -> A -> comparison) :
  preorder c -> preorder d -> preorder (fun x y => lex (c x y) (d x y)).
Proof.
  intros [Ca Ct] [Da Dt]. split; intros x y.
  - rewrite Ca, Da. by destruct (c x y).
  - intros z. pose proof (Ca x y). pose proof (Ca y z). pose proof (Ca x z).
    pose proof (Ct x y z). pose proof (Ct y z x). pose proof (Ct z x y). pose proof (Dt x y z).
    destruct (c x y), (c y z), (c x z); cbn in *; try done; try tauto.
    all: intros _ _; try (exfalso; intuition congruence).
Qed.

Lemma preorder_opp {A} (c : A -> A -> comparison) : preorder c -> preorder (fun x y => CompOpp (c x y)).
Proof.
  intros [Ca Ct]. split; intros x y; [by rewrite (Ca x y)|]. intros z H1 H2.
  rewrite <- Ca in *. by apply (Ct _ y).
Qed.

Lemma preorder_rank t : preorder (rank_compare t).
Proof.
  unfold rank_compare. split.
  - intros x y. destruct t, x, y; try done; cbn; apply Z.compare_antisym || apply bytes_compare_antisym.
  - intros x y z. destruct t, x, y, z; cbn; try done.
    all: rewrite ?Z.compare_le_iff; try lia. apply bytes_le_trans.
Qed.

Lemma preorder_on {A B} (g : A -> B) (c : B -> B -> comparison) :
  preorder c -> preorder (fun x y => c (g x) (g y)).
Proof. intros [Ca Ct]. split; [intros; apply Ca|intros x y z; apply Ct]. Qed.

Lemma preorder_order ts keys : preorder (order_compare ts keys).
Proof.
  induction keys as [|key keys IH]; cbn [order_compare]; [by split|].
  apply preorder_lex; [|done].
  pose proof (preorder_on (value_at (ColIdx key)) _ (preorder_rank (key_type ts key))) as Hp.
  destruct (Desc key); [|done]. by apply (preorder_opp _ Hp).
Qed.

Lemma preorder_lt {A} (c : A -> A -> comparison) x y z :
  preorder c -> c x y = Lt -> c y z <> Gt -> c x z = Lt.
Proof.
  intros [Ca Ct] H1 H2. destruct (c x z) eqn:E; [|done|].
  all: assert (c y x <> Gt) as H3 by (apply (Ct _ z); [done|]; rewrite (Ca x z), E; done).
  all: by rewrite (Ca x y), H1 in H3.
Qed.

Lemma preorder_strict {A} (c : A -> A -> comparison) :
  preorder c -> strict_weak (fun x y => match c x y with Lt => true | _ => false end).
Proof.
  intros Hc. split.
  - intros x. pose proof (po_anti _ Hc x x). by destruct (c x x).
  - intros x y z. destruct (c x y) eqn:E1, (c y z) eqn:E2; try done. intros _ _.
    by rewrite (preorder_lt c x y z Hc E1) by by rewrite E2.
  - intros x y z. destruct (c x z) eqn:E; try done. intros _.
    destruct (c x y) eqn:E1; [|by left|].
    all: right; rewrite (po_anti _ Hc z y), (preorder_lt (fun a b => CompOpp (c a b)) z x y); try done.
    all: try by apply preorder_opp.
    all: cbn; rewrite ?E1; try done. all: rewrite (po_anti _ Hc x z), E; done.
Qed.

Lemma ordered_before_strict ts keys : strict_weak (ordered_before ts keys).
Proof. apply (preorder_strict _ (preorder_order ts keys)). Qed.

(** ** The code's comparison computes it *)

Lemma index_value idx ts row t :
  row_typed ts row -> 0 <= idx -> ts !! Z.to_nat idx = Some t ->
  exists d, index (Datums row) idx = Ok d /\ present t d /\ value_at idx row = d_Value d.
Proof.
  intros Hr Hi Ht. destruct (Forall2_lookup_l _ _ _ _ _ Hr Ht) as (d & Hd & Hp).
  exists d. unfold index, value_at. rewrite (proj2 (Z.ltb_ge _ _)) by lia. by rewrite Hd.
Qed.

Lemma compare_present t a b :
  sortable t -> present t a -> present t b ->
  rank_compare t (d_Value a) (d_Value b) = val_compare (d_Value a) (d_Value b) /\
  datumLess a b = Ok (match val_compare (d_Value a) (d_Value b) with Lt => true | _ => false end) /\
  (datumEqual a b = Ok (bool_decide (val_compare (d_Value a) (d_Value b) = Eq))).
Proof.
  intros Ht Ha Hb. rewrite (datumEqual_spec t) by (done || by destruct t).
  destruct t; try done; present_values; unfold assert2; cbn; split_and!; try done.
  all: try (f_equal; apply bool_decide_ext; rewrite ?Z.compare_eq_iff, ?bytes_compare_eq;
            split; [by intros [=]|by intros ->]).
  all: unfold string_less; f_equal; by destruct (bytes_compare _ _); case_bool_decide.
Qed.

Lemma present_not_nil t d : present t d -> is_nil (d_Value d) = false.
Proof. intros (_ & _ & H). by destruct (d_Value d). Qed.

Lemma sort_less_ok ts keys r1 r2 :
  keys_sortable ts keys -> row_typed ts r1 -> row_typed ts r2 ->
  sort_less keys r1 r2 = Ok (ordered_before ts keys r1 r2).
Proof.
  intros Hk H1 H2. induction Hk as [|key keys (Hi & t & Ht & Hs) Hk IH]; [done|].
  unfold ordered_before in *. cbn [sort_less order_compare].
  destruct (index_value _ _ _ _ H1 Hi Ht) as (d1 & -> & P1 & ->).
  destruct (index_value _ _ _ _ H2 Hi Ht) as (d2 & -> & P2 & ->).
  assert (key_type ts key = t) as -> by (unfold key_type; by rewrite Ht).
  destruct (compare_present t d1 d2 Hs P1 P2) as (-> & L & E). cbn. rewrite E. cbn.
  rewrite (present_not_nil _ _ P1), (present_not_nil _ _ P2), L. cbn.
  destruct (val_compare _ _) eqn:Ec; case_bool_decide; try done; cbn; by destruct (Desc key).
Qed.

(** * SortNode *)

Record sort_state (C : Type) := mkSort { s_child : C; s_rows : list Row; rowIdx : Z; opened : bool }.
Arguments mkSort {C}.
Arguments s_child {C}.
Arguments s_rows {C}.
Arguments rowIdx {C}.
Arguments opened {C}.

Section SortNode.
Context {W C H : Type} `{GoSort} (child : Operator W C H) (keys : list SortKey).
Implicit Types s : sort_state C.

Definition on_sorted {A} : st (W * C) (plan_err H) A -> st (W * sort_state C) (plan_err H) A :=
  on s_child (fun c s => mkSort c (s_rows s) (rowIdx s) (opened s)).

Definition Sort_Open (n : nat) : st (W * sort_state C) (plan_err H) unit :=
  on_sorted (Open n) ;;;
  rows <- on_sorted (read_all child n n) ;;
  rows <- eval (sort_SliceStable (sort_less keys) rows) ;;
  update (fun s => mkSort (s_child s) rows (rowIdx s) (opened s)) ;;;
  update (fun s => mkSort (s_child s) (s_rows s) 0 (opened s)) ;;;
  update (fun s => mkSort (s_child s) (s_rows s) (rowIdx s) true).

Definition Sort_Next : st (W * sort_state C) (plan_err H) Row :=
  finished <- own (fun s => negb (opened s) || (zlen (s_rows s) <=? rowIdx s)) ;;
  if finished : bool then fail EOF
  else
    r <- own (fun s => index (s_rows s) (rowIdx s)) ;;
    r <- eval r ;;
    update (fun s => mkSort (s_child s) (s_rows s) (rowIdx s + 1) (opened s)) ;;;
    ret r.

Definition Sort_Close : st (W * sort_state C) (plan_err H) unit :=
  update (fun s => mkSort (s_child s) [] (rowIdx s) (opened s)) ;;;
  update (fun s => mkSort (s_child s) (s_rows s) (rowIdx s) false) ;;;
  on_sorted Close.

Definition SortNode : Operator W (sort_state C) H :=
  {| Open := Sort_Open; Next _ := Sort_Next; Close := Sort_Close;
     op_Schema := op_Schema; op_PlannerSchema := None |}.

Lemma sort_contract I k rows Ready Live sorted :
  contract child I k rows Ready Live ->
  sort_SliceStable (E := eval_err) (sort_less keys) rows = Ok sorted ->
  contract SortNode I (k + length rows + 1) sorted (fun s => Ready (s_child s))
    (fun l s => opened s = true /\ 0 <= rowIdx s /\ l = zdrop (rowIdx s) (s_rows s) /\ Live [] (s_child s)).
Proof.
  intros Hc Hsort. constructor; cbn [Open Next Close SortNode].
  - intros n w s Hn Hw Hr. unfold Sort_Open. apply runs_bind, runs_on.
    eapply runs_mono; [eapply c_open; eauto with lia|]. intros r c (-> & Hl) w1 Hw1. cbn.
    apply runs_bind, runs_on. eapply runs_mono; [eapply read_all_yields with (rest := rows); [done|lia|lia|done..]|].
    intros r c2 (-> & Hl2) w2 Hw2. rewrite Hsort. apply runs_eval.
    apply runs_update, runs_update. unfold runs. cbn. eauto 10 with lia.
  - intros n w s row l Hn Hw (Ho & Hi & E & Hl). unfold Sort_Next. apply runs_own.
    assert (s_rows s !! Z.to_nat (rowIdx s) = Some row) as Hrow.
    { apply (f_equal (fun l => l !! 0%nat)) in E. cbn in E. unfold zdrop in E.
      rewrite lookup_drop, Nat.add_0_r in E. done. }
    apply lookup_lt_Some in Hrow as Hlt. unfold zlen.
    rewrite Ho, (proj2 (Z.leb_gt _ _)) by lia. cbn. apply runs_own.
    unfold index. rewrite (proj2 (Z.ltb_ge _ _)) by lia. rewrite Hrow. apply runs_eval, runs_update, runs_ret; [done|].
    cbn. split_and!; [done|done|lia| |done].
    rewrite <- (zdrop_zdrop 1), <- E by lia. done.
  - intros n w s Hn Hw (Ho & Hi & E & Hl). unfold Sort_Next. apply runs_own.
    assert (zlen (s_rows s) <= rowIdx s) as Hle.
    { apply (f_equal length) in E. unfold zdrop, zlen in *. rewrite length_drop in E. cbn in E. lia. }
    rewrite Ho, (proj2 (Z.leb_le _ _)) by done. by apply runs_fail.
  - intros w s l Hw (Ho & Hi & E & Hl). unfold Sort_Close. apply runs_update, runs_update, runs_on. cbn.
    eapply runs_mono; [by eapply c_close|]. by intros r c (-> & ?).
Qed.

(** Rows whose key columns are present: the buffered rows are the stable sort. *)
Lemma sort_rows_ok `{!GoSortLaws} ts rows :
  keys_sortable ts keys -> Forall (row_typed ts) rows ->
  exists sorted, sort_SliceStable (E := eval_err) (sort_less keys) rows = Ok sorted /\
    stable_sort_of (ordered_before ts keys) rows sorted.
Proof.
  intros Hk Hr. apply sort_SliceStable_ok; [apply ordered_before_strict|].
  rewrite List.Forall_forall in Hr. intros x y Hx Hy. apply sort_less_ok; auto.
Qed.
End SortNode.
