(* ===== verification/Join.v ===== *)
(** [internal/engine/sql/planner]: the joins ([join.go], [hash_join.go]).

    A nested-loop join re-opens its right child for every left row; a hash join reads
    the right child once into a table from key strings to rows and probes it with each
    left row.  Both re-check the join condition on every combined row. *)

From Stdlib Require Import ZArith Lia.
From Stdlib Require Strings.String.
From stdpp Require Import gmap.
From S2P Require Import Prelude OrdMap Monad GoFmt Datum Expr Operator.
Import String.StringSyntax.
Open Scope Z_scope.
Open Scope st_scope.

(** ** Rows of a join *)

Definition combineRows (l r : Row) : Row := mkRow (Datums l ++ Datums r) 0.

Definition nullPadRight (l : Row) (rightSchema : Schema) : Row :=
  mkRow (Datums l ++ map (fun col => mkDatum (c_Type col) VNil) rightSchema) 0.

(** The condition's value on a combined row; no condition is true. *)
Definition condition {X H} (cond : option BoundExpr) (row : Row) : st X (plan_err H) bool :=
  match cond with
  | None => ret true
  | Some c => d <- eval (Eval c row) ;; ret (is_true d)
  end.

(** * NestedLoopJoinNode *)

Record nlj_state (L R : Type) := mkNlj {
  n_left : L; n_right : R; leftRow : Row; leftMatched : bool; n_probeRows : Z; n_outputRows : Z }.
Arguments mkNlj {L R}.
Arguments n_left {L R}.
Arguments n_right {L R}.
Arguments leftRow {L R}.
Arguments leftMatched {L R}.
Arguments n_probeRows {L R}.
Arguments n_outputRows {L R}.

Section NestedLoopJoinNode.
Context {W L R H : Type} (left0 : Operator W L H) (right0 : Operator W R H).
Context (cond : option BoundExpr) (isLeftJoin : bool).
Notation state := (nlj_state L R).
Implicit Types s : state.

Definition n_plannerSchema : PlannerSchema := GetPlannerSchema left0 ++ GetPlannerSchema right0.

Definition nl {A} : st (W * L) (plan_err H) A -> st (W * state) (plan_err H) A :=
  on n_left (fun c s => mkNlj c (n_right s) (leftRow s) (leftMatched s) (n_probeRows s) (n_outputRows s)).
Definition nr {A} : st (W * R) (plan_err H) A -> st (W * state) (plan_err H) A :=
  on n_right (fun c s => mkNlj (n_left s) c (leftRow s) (leftMatched s) (n_probeRows s) (n_outputRows s)).

Definition set_leftRow (row : Row) s : state :=
  mkNlj (n_left s) (n_right s) row (leftMatched s) (n_probeRows s) (n_outputRows s).
Definition set_matched (b : bool) s : state :=
  mkNlj (n_left s) (n_right s) (leftRow s) b (n_probeRows s) (n_outputRows s).
Definition set_probe (z : Z) s : state :=
  mkNlj (n_left s) (n_right s) (leftRow s) (leftMatched s) z (n_outputRows s).
Definition set_output (z : Z) s : state :=
  mkNlj (n_left s) (n_right s) (leftRow s) (leftMatched s) (n_probeRows s) z.

(** [n.leftRow = lr.DeepCopy(); n.leftMatched = false; n.probeRows++] *)
Definition new_left (lr : Row) : st (W * state) (plan_err H) unit :=
  update (set_leftRow (Row_DeepCopy lr)) ;;;
  update (set_matched false) ;;;
  update (fun s => set_probe (n_probeRows s + 1) s).

Definition count_output : st (W * state) (plan_err H) unit :=
  update (fun s => set_output (n_outputRows s + 1) s).

Definition NLJ_Open (n : nat) : st (W * state) (plan_err H) unit :=
  nl (Open n) ;;;
  cleanup (nr (Open n)) (nl Close) ;;;
  update (set_probe 0) ;;;
  update (set_output 0) ;;;
  r <- attempt (nl (Next n)) ;;
  match r with
  | Err EOF => update (set_leftRow no_row)
  | Err e => ignore (nl Close) ;;; ignore (nr Close) ;;; fail e
  | Ok lr => new_left lr
  end.

(** The branch of [Next] at the end of the right rows that pads an unmatched row. *)
Definition nlj_pad (n : nat) (l : Row) : st (W * state) (plan_err H) Row :=
  let padded := nullPadRight l (op_Schema (Operator := right0)) in
  ignore (nr Close) ;;;
  nr (Open n) ;;;
  r <- attempt (nl (Next n)) ;;
  match r with
  | Err e =>
      update (set_leftRow no_row) ;;;
      match e with EOF => count_output ;;; ret padded | _ => fail e end
  | Ok lr => new_left lr ;;; count_output ;;; ret padded
  end.

(** The branch that moves to the next left row. *)
Definition nlj_advance (n : nat) : st (W * state) (plan_err H) unit :=
  nr Close ;;;
  nr (Open n) ;;;
  r <- attempt (nl (Next n)) ;;
  match r with
  | Err e => update (set_leftRow no_row) ;;; fail e
  | Ok lr => new_left lr
  end.

Fixpoint nlj_next (m n : nat) : st (W * state) (plan_err H) Row :=
  match m with
  | O => fail NoFuel
  | Datatypes.S m' =>
      l <- own leftRow ;;
      if zlen (Datums l) =? 0 then fail EOF
      else
        r <- attempt (nr (Next n)) ;;
        match r with
        | Err EOF =>
            unmatched <- own (fun s => isLeftJoin && negb (leftMatched s)) ;;
            if unmatched : bool then nlj_pad n l else nlj_advance n ;;; nlj_next m' n
        | Err e => fail e
        | Ok rr =>
            let joinedRow := combineRows l rr in
            matches <- condition cond joinedRow ;;
            if matches : bool then update (set_matched true) ;;; count_output ;;; ret joinedRow
            else nlj_next m' n
        end
  end.

Definition NLJ_Close : st (W * state) (plan_err H) unit :=
  update (set_leftRow no_row) ;;;
  errL <- attempt (nl Close) ;;
  errR <- attempt (nr Close) ;;
  lift errL ;;; lift errR.

Definition NestedLoopJoinNode : Operator W state H :=
  {| Open := NLJ_Open; Next n := nlj_next n n; Close := NLJ_Close;
     op_Schema := ToEngineSchema n_plannerSchema; op_PlannerSchema := Some n_plannerSchema |}.
End NestedLoopJoinNode.

(** * HashJoinNode *)

(** [HashKey] is a string type. *)
Notation HashKey := (list byte).

(** The empty key stands for NULL. *)
Definition encodeHashKey (d : Datum) : res eval_err (option HashKey) :=
  if is_nil (d_Value d) then Ok (Some [])
  else
    match d_Type d with
    | TypeInt64 => v ← as_int64 (d_Value d); Ok (Some (go_string "i:" ++ fmt_d v))
    | TypeUint64 => v ← as_uint64 (d_Value d); Ok (Some (go_string "u:" ++ fmt_d v))
    | TypeFloat64 => v ← as_float64 (d_Value d); Ok (Some (go_string "f:" ++ fmt_f v))
    | TypeBool => v ← as_bool (d_Value d); Ok (Some (go_string "b:" ++ fmt_t v))
    | TypeString => v ← as_string (d_Value d); Ok (Some (go_string "s:" ++ v))
    | _ => Ok None
    end.

(** The key of column [idx] of a row: [None] is [ErrUnsupportedJoinKey]. *)
Definition hash_key {X H} (row : Row) (idx : Z) : st X (plan_err H) HashKey :=
  k <- eval (d ← index (Datums row) idx; encodeHashKey d) ;;
  match k with Some key => ret key | None => fail ErrUnsupportedJoinKey end.

Record hash_state (L R : Type) := mkHash {
  h_left : L; h_right : R; hashTable : gmap HashKey (list Row); rightClosed : bool;
  activeProbe : Row; activeMatches : list Row; matchIdx : Z; matchedAny : bool;
  buildRows : Z; h_probeRows : Z; h_outputRows : Z; estimatedBytes : Z }.
Arguments mkHash {L R}.
Arguments h_left {L R}.
Arguments h_right {L R}.
Arguments hashTable {L R}.
Arguments rightClosed {L R}.
Arguments activeProbe {L R}.
Arguments activeMatches {L R}.
Arguments matchIdx {L R}.
Arguments matchedAny {L R}.
Arguments buildRows {L R}.
Arguments h_probeRows {L R}.
Arguments h_outputRows {L R}.
Arguments estimatedBytes {L R}.

Section HashJoinNode.
Context {W L R H : Type} (left0 : Operator W L H) (right0 : Operator W R H).
Context (leftKey rightKey : Z) (isLeftJoin : bool) (residual : option BoundExpr).
Notation state := (hash_state L R).
Implicit Types s : state.

Definition h_plannerSchema : PlannerSchema := GetPlannerSchema left0 ++ GetPlannerSchema right0.

Definition hl {A} : st (W * L) (plan_err H) A -> st (W * state) (plan_err H) A :=
  on h_left (fun c s => mkHash c (h_right s) (hashTable s) (rightClosed s) (activeProbe s)
    (activeMatches s) (matchIdx s) (matchedAny s) (buildRows s) (h_probeRows s) (h_outputRows s)
    (estimatedBytes s)).
Definition hr {A} : st (W * R) (plan_err H) A -> st (W * state) (plan_err H) A :=
  on h_right (fun c s => mkHash (h_left s) c (hashTable s) (rightClosed s) (activeProbe s)
    (activeMatches s) (matchIdx s) (matchedAny s) (buildRows s) (h_probeRows s) (h_outputRows s)
    (estimatedBytes s)).

Definition set_rightClosed (b : bool) s : state :=
  mkHash (h_left s) (h_right s) (hashTable s) b (activeProbe s) (activeMatches s) (matchIdx s)
    (matchedAny s) (buildRows s) (h_probeRows s) (h_outputRows s) (estimatedBytes s).
(** The fields [Open] resets: the table, the counters and the probe. *)
Definition reset_join s : state :=
  mkHash (h_left s) (h_right s) ∅ (rightClosed s) no_row [] 0 false 0 0 0 0.
(** [n.hashTable[keyVal] = append(...)] and the counters of the build. *)
Definition build_row (key : HashKey) (row : Row) s : state :=
  mkHash (h_left s) (h_right s)
    (<[key := default [] (hashTable s !! key) ++ [Row_DeepCopy row]]> (hashTable s))
    (rightClosed s) (activeProbe s) (activeMatches s) (matchIdx s) (matchedAny s)
    (buildRows s + 1) (h_probeRows s) (h_outputRows s) (estimatedBytes s + zlen (Datums row) * 16).
Definition set_activeProbe (row : Row) s : state :=
  mkHash (h_left s) (h_right s) (hashTable s) (rightClosed s) row (activeMatches s) (matchIdx s)
    (matchedAny s) (buildRows s) (h_probeRows s) (h_outputRows s) (estimatedBytes s).
Definition set_matches (rows : list Row) (i : Z) s : state :=
  mkHash (h_left s) (h_right s) (hashTable s) (rightClosed s) (activeProbe s) rows i
    (matchedAny s) (buildRows s) (h_probeRows s) (h_outputRows s) (estimatedBytes s).
Definition set_matchIdx (i : Z) s : state := set_matches (activeMatches s) i s.
Definition set_matchedAny (b : bool) s : state :=
  mkHash (h_left s) (h_right s) (hashTable s) (rightClosed s) (activeProbe s) (activeMatches s)
    (matchIdx s) b (buildRows s) (h_probeRows s) (h_outputRows s) (estimatedBytes s).
Definition count_probe s : state :=
  mkHash (h_left s) (h_right s) (hashTable s) (rightClosed s) (activeProbe s) (activeMatches s)
    (matchIdx s) (matchedAny s) (buildRows s) (h_probeRows s + 1) (h_outputRows s) (estimatedBytes s).
Definition count_join s : state :=
  mkHash (h_left s) (h_right s) (hashTable s) (rightClosed s) (activeProbe s) (activeMatches s)
    (matchIdx s) (matchedAny s) (buildRows s) (h_probeRows s) (h_outputRows s + 1) (estimatedBytes s).
Definition drop_table s : state :=
  mkHash (h_left s) (h_right s) ∅ (rightClosed s) no_row [] (matchIdx s) (matchedAny s)
    (buildRows s) (h_probeRows s) (h_outputRows s) (estimatedBytes s).

(** The error path of the build: close both children. *)
Definition abandon {A} (e : plan_err H) : st (W * state) (plan_err H) A :=
  ignore (hl Close) ;;; ignore (hr Close) ;;; update (set_rightClosed true) ;;; fail e.

(** The build loop: [m] turns. *)
Fixpoint build (m n : nat) : st (W * state) (plan_err H) unit :=
  match m with
  | O => fail NoFuel
  | Datatypes.S m' =>
      r <- attempt (hr (Next n)) ;;
      match r with
      | Err EOF => ret tt
      | Err e => abandon e
      | Ok row =>
          k <- attempt (hash_key row rightKey) ;;
          match k with
          | Err e => abandon e
          | Ok [] => build m' n
          | Ok key => update (build_row key row) ;;; build m' n
          end
      end
  end.

Definition Hash_Open (n : nat) : st (W * state) (plan_err H) unit :=
  hl (Open n) ;;;
  update (set_rightClosed false) ;;;
  cleanup (hr (Open n)) (hl Close) ;;;
  update reset_join ;;;
  build n n ;;;
  ignore (hr Close) ;;;
  update (set_rightClosed true).

Fixpoint hash_next (m n : nat) : st (W * state) (plan_err H) Row :=
  match m with
  | O => fail NoFuel
  | Datatypes.S m' =>
      more <- own (fun s => matchIdx s <? zlen (activeMatches s)) ;;
      if more : bool then
        x <- own (fun s => index (activeMatches s) (matchIdx s)) ;;
        matched <- eval x ;;
        update (fun s => set_matchIdx (matchIdx s + 1) s) ;;;
        combined <- own (fun s => combineRows (activeProbe s) matched) ;;
        holds <- condition residual combined ;;
        if holds : bool then update (set_matchedAny true) ;;; update count_join ;;; ret combined
        else hash_next m' n
      else
        pad <- own (fun s => isLeftJoin && (0 <? zlen (Datums (activeProbe s))) && negb (matchedAny s)) ;;
        if pad : bool then
          padded <- own (fun s => nullPadRight (activeProbe s) (op_Schema (Operator := right0))) ;;
          update (set_activeProbe no_row) ;;; update count_join ;;; ret padded
        else
          pr <- hl (Next n) ;;
          update count_probe ;;;
          update (set_activeProbe (Row_DeepCopy pr)) ;;;
          update (set_matchedAny false) ;;;
          key <- hash_key pr leftKey ;;
          match key with
          | [] => update (set_matches [] 0)
          | _ => update (fun s => set_matches (default [] (hashTable s !! key)) 0 s)
          end ;;;
          hash_next m' n
  end.

Definition Hash_Close : st (W * state) (plan_err H) unit :=
  update drop_table ;;;
  errL <- attempt (hl Close) ;;
  openRight <- own (fun s => negb (rightClosed s)) ;;
  errR <- (if openRight : bool
           then r <- attempt (hr Close) ;; update (set_rightClosed true) ;;; ret r
           else ret (Ok tt)) ;;
  lift errL ;;; lift errR.

Definition HashJoinNode : Operator W state H :=
  {| Open := Hash_Open; Next n := hash_next n n; Close := Hash_Close;
     op_Schema := ToEngineSchema h_plannerSchema; op_PlannerSchema := Some h_plannerSchema |}.
End HashJoinNode.
