(* ===== verification/JoinProof.v ===== *)
(** The two joins of [Join.v] against one specification: each left row combined with
    the right rows for which the condition holds, in order, or padded with NULL. *)

From Stdlib Require Import ZArith Lia.
From stdpp Require Import gmap.
From Stdlib Require Strings.String.
From S2P Require Import Prelude OrdMap Monad GoFmt Datum Expr Operator Join.
Import String.StringSyntax.
Open Scope Z_scope.
Open Scope st_scope.

(** * The rows of a join *)

Section join_rows.
Context (cond : option BoundExpr) (isLeftJoin : bool) (rightSchema : Schema).

Definition holds (row : Row) : bool :=
  match cond with
  | None => true
  | Some c => match Eval c row with Ok d => is_true d | Err _ => false end
  end.

Definition decided (row : Row) : Prop :=
  match cond with None => True | Some c => exists d, Eval c row = Ok d end.

(** The condition evaluates on every pair. *)
Definition all_decided (L R : list Row) : Prop :=
  Forall (fun l => Forall (fun r => decided (combineRows l r)) R) L.

Definition matched_rows (l : Row) (R : list Row) : list Row :=
  List.filter holds (map (combineRows l) R).

(** The rest of the output for a left row, with [b] whether it was matched before. *)
Definition left_rows (b : bool) (l : Row) (R : list Row) : list Row :=
  match matched_rows l R with
  | [] => if isLeftJoin && negb b then [nullPadRight l rightSchema] else []
  | m => m
  end.

Definition join_rows (L R : list Row) : list Row := flat_map (fun l => left_rows false l R) L.

Lemma left_rows_match b l r R :
  holds (combineRows l r) = true -> left_rows b l (r :: R) = combineRows l r :: left_rows true l R.
Proof.
  intros E. unfold left_rows, matched_rows. cbn. rewrite E. rewrite andb_false_r.
  by destruct (List.filter holds _).
Qed.

Lemma left_rows_skip b l r R :
  holds (combineRows l r) = false -> left_rows b l (r :: R) = left_rows b l R.
Proof. intros E. unfold left_rows, matched_rows. cbn. by rewrite E. Qed.

Lemma runs_condition {W S H A} (I : W -> Prop) row (k : bool -> st (W * S) (plan_err H) A) w s Q :
  decided row -> runs I (k (holds row)) w s Q -> runs I (bind (condition cond row) k) w s Q.
Proof.
  unfold condition, decided, holds. destruct cond as [c|]; [|done]. intros [d E]. by rewrite E.
Qed.
End join_rows.

(** The left rows have columns: an empty row is the code's mark for the end. *)
Definition has_columns (row : Row) : Prop := Datums row <> [].

Lemma has_columns_len row : has_columns row <-> zlen (Datums row) =? 0 = false.
Proof. unfold has_columns. destruct (Datums row); [done|]. rewrite zlen_cons. pose proof (zlen_nonneg l). split; [lia|done]. Qed.

(** * The nested-loop join *)

Section nlj.
Context {W SL SR H : Type} (left0 : Operator W SL H) (right0 : Operator W SR H).
Context (cond : option BoundExpr) (isLeftJoin : bool) (I : W -> Prop).
Context (kl kr : nat) (L R : list Row).
Context (ReadyL : SL -> Prop) (LiveL : list Row -> SL -> Prop).
Context (ReadyR : SR -> Prop) (LiveR : list Row -> SR -> Prop).
Context (Hleft : contract left0 I kl L ReadyL LiveL) (Hright : contract right0 I kr R ReadyR LiveR).
Notation state := (nlj_state SL SR).
Notation out := (left_rows cond isLeftJoin (op_Schema (Operator := right0))).
Notation rest_out := (fun rl => join_rows cond isLeftJoin (op_Schema (Operator := right0)) rl R).
Implicit Types s : state.

(** The join is inside a left row, with [rl] left rows and [rr] right rows to come. *)
Record nlj_at (rl rr : list Row) s : Prop := {
  na_left : LiveL rl (n_left s);
  na_right : LiveR rr (n_right s);
  na_row : has_columns (leftRow s);
  na_decided : Forall (fun r => decided cond (combineRows (leftRow s) r)) rr;
  na_rest : all_decided cond rl R;
  na_columns : Forall has_columns rl }.

(** The join is at its end. *)
Definition nlj_over s : Prop :=
  LiveL [] (n_left s) /\ LiveR R (n_right s) /\ Datums (leftRow s) = [].

Definition nlj_live (l : list Row) s : Prop :=
  (l = [] /\ nlj_over s) \/
  exists rl rr, nlj_at rl rr s /\ l = out (leftMatched s) (leftRow s) rr ++ rest_out rl /\
    (length rl <= length L)%nat /\ (length rr <= length R)%nat.

(** What follows the end of the right rows: re-open the right child and fetch a left row. *)
Lemma fetch_left {A} n w s rl (k : res (plan_err H) Row -> st (W * state) (plan_err H) A) Q :
  (kl <= n)%nat -> (kr <= n)%nat -> I w -> ReadyR (n_right s) -> LiveL rl (n_left s) ->
  (forall w' s', I w' -> LiveR R (n_right s') ->
     leftRow s' = leftRow s -> leftMatched s' = leftMatched s ->
     match rl with
     | [] => LiveL [] (n_left s') -> runs I (k (Err EOF)) w' s' Q
     | l :: rl' => LiveL rl' (n_left s') -> runs I (k (Ok l)) w' s' Q
     end) ->
  runs I (nr (Open n) ;;; bind (attempt (nl (Next n))) k) w s Q.
Proof.
  intros Hkl Hkr Hw Hr Hl Hk. apply runs_bind, runs_on.
  eapply runs_mono; [by eapply c_open|]. intros r c (-> & Hr') w1 Hw1.
  apply runs_attempt, runs_on. cbn [n_left]. destruct rl as [|l rl'].
  - eapply runs_mono; [by eapply c_end|]. intros r c' (-> & Hl') w2 Hw2. by apply Hk.
  - eapply runs_mono; [by eapply c_next|]. intros r c' (-> & Hl') w2 Hw2. by apply Hk.
Qed.

Lemma new_left_run l rl w s :
  I w -> LiveR R (n_right s) -> LiveL rl (n_left s) ->
  all_decided cond (l :: rl) R -> Forall has_columns (l :: rl) ->
  runs I (new_left (H := H) l) w s (fun r s' => r = Ok tt /\ nlj_at rl R s' /\ leftRow s' = l /\ leftMatched s' = false).
Proof.
  intros Hw Hr Hl Hd Hc. inversion Hd; inversion Hc; subst. unfold new_left.
  apply runs_update, runs_update. unfold runs. cbn. rewrite Row_DeepCopy_id. by split_and!.
Qed.

Lemma nlj_next_run n m w s rl rr :
  (kl <= n)%nat -> (kr <= n)%nat ->
  (length rr + length rl * (length R + 1) + 2 <= m)%nat ->
  (length rl <= length L)%nat -> (length rr <= length R)%nat ->
  I w -> nlj_at rl rr s ->
  runs I (nlj_next left0 right0 cond isLeftJoin m n) w s (fun r s' =>
    match out (leftMatched s) (leftRow s) rr ++ rest_out rl with
    | [] => r = Err EOF /\ nlj_live [] s'
    | row :: l => r = Ok row /\ nlj_live l s'
    end).
Proof.
  intros Hkl Hkr. revert w s rl rr. induction m as [|m IH]; intros w s rl rr Hm Hlen Hlenr Hw Ha; [lia|].
  destruct Ha as [Hl Hr Hrow Hdec Hrest Hcol]. cbn [nlj_next]. apply runs_own.
  apply has_columns_len in Hrow as E0. rewrite E0. apply runs_attempt, runs_on.
  destruct rr as [|r rr].
  - eapply runs_mono; [by eapply c_end|]. intros r c (-> & Hr') w1 Hw1. apply runs_own.
    cbn [leftMatched].
    change (out (leftMatched s) (leftRow s) []) with
      (if isLeftJoin && negb (leftMatched s) then [nullPadRight (leftRow s) (op_Schema (Operator := right0))] else []).
    destruct (isLeftJoin && negb (leftMatched s)) eqn:Ep.
    + unfold nlj_pad. apply runs_bind, runs_ignore, runs_on. cbn [n_right].
      eapply runs_mono; [by eapply c_close|]. intros r c2 (-> & Hr2) w2 Hw2.
      eapply (fetch_left n _ _ rl); [done..|]. cbn [leftRow leftMatched].
      intros w3 s3 Hw3 HR3 Erow _. destruct rl as [|l rl]; intros HL3.
      * apply runs_update. unfold count_output. apply runs_update, runs_ret; [done|].
        split; [done|]. left. by split_and!.
      * apply runs_bind. eapply runs_mono; [by eapply new_left_run|].
        intros r s4 (-> & Hat & El & Eb) w4 Hw4. apply runs_update, runs_ret; [done|].
        split; [done|]. right. exists rl, R. split; [by destruct Hat; split|]. cbn. rewrite El, Eb.
        cbn in Hlen. split_and!; [done|lia|lia].
    + apply runs_bind. unfold nlj_advance. apply runs_bind, runs_on. cbn [n_right].
      eapply runs_mono; [by eapply c_close|]. intros r c2 (-> & Hr2) w2 Hw2.
      eapply (fetch_left n _ _ rl); [done..|]. cbn [leftRow leftMatched].
      intros w3 s3 Hw3 HR3 Erow _. destruct rl as [|l rl]; intros HL3.
      * apply runs_update, runs_fail; [done|]. split; [done|]. left. by split_and!.
      * eapply runs_mono; [by eapply new_left_run|].
        intros r s4 (-> & Hat & El & Eb) w4 Hw4. cbn [length] in *.
        eapply runs_mono; [eapply (IH _ _ rl R); [lia|lia|lia|done|done]|]. rewrite El, Eb. done.
  - inversion Hdec as [|? ? Hd1 Hd2]; subst.
    eapply runs_mono; [by eapply c_next|]. intros x c (-> & Hr') w1 Hw1.
    apply runs_condition; [done|]. destruct (holds cond _) eqn:Eh.
    + rewrite left_rows_match by done. apply runs_update, runs_update, runs_ret; [done|].
      split; [done|]. right. exists rl, rr. cbn [length] in *. split; [done|].
      cbn. split_and!; [done|lia|lia].
    + rewrite left_rows_skip by done. cbn [length] in *.
      eapply runs_mono; [eapply (IH _ _ rl rr); [lia|lia|lia|done|done]|]. done.
Qed.

Lemma nlj_contract :
  all_decided cond L R -> Forall has_columns L ->
  contract (NestedLoopJoinNode left0 right0 cond isLeftJoin) I
    (kl + kr + (length L + 1) * (length R + 1) + 2) (rest_out L)
    (fun s => ReadyL (n_left s) /\ ReadyR (n_right s)) nlj_live.
Proof.
  intros Hd Hc. constructor; cbn [Open Next Close NestedLoopJoinNode].
  - intros n w s Hn Hw (Hl & Hr). unfold NLJ_Open. apply runs_bind, runs_on.
    eapply runs_mono; [eapply c_open; eauto with lia|]. intros r c (-> & Hl1) w1 Hw1.
    apply runs_bind, runs_cleanup, runs_on. cbn [n_right].
    eapply runs_mono; [eapply c_open; eauto with lia|]. intros r c2 (-> & Hr2) w2 Hw2.
    apply runs_update, runs_update, runs_attempt, runs_on. cbn.
    destruct L as [|l rl] eqn:EL.
    + eapply runs_mono; [eapply c_end; eauto with lia|]. intros r c3 (-> & Hl3) w3 Hw3.
      unfold runs. cbn. split; [done|]. split; [done|]. left. by split_and!.
    + eapply runs_mono; [eapply c_next; eauto with lia|]. intros r c3 (-> & Hl3) w3 Hw3.
      eapply runs_mono; [by eapply new_left_run|]. intros r s4 (-> & Hat & El & Eb).
      split; [done|]. right. exists rl, R. rewrite El, Eb. split_and!; [done|done|rewrite EL; cbn; lia|lia].
  - intros n w s row l Hn Hw [[[=] _]|(rl & rr & Hat & E & H1 & H2)].
    eapply runs_mono; [eapply (nlj_next_run n n _ _ rl rr); [nia..|done|done]|].
    cbv beta. by rewrite <- E.
  - intros n w s Hn Hw [[_ (Hl & Hr & E)]|(rl & rr & Hat & E & H1 & H2)].
    + destruct n as [|n]; [lia|]. cbn [nlj_next]. apply runs_own. rewrite E. cbn.
      apply runs_fail; [done|]. split; [done|]. left. by split_and!.
    + eapply runs_mono; [eapply (nlj_next_run n n _ _ rl rr); [nia..|done|done]|].
      cbv beta. by rewrite <- E.
  - intros w s l Hw Hlive. unfold NLJ_Close. apply runs_update, runs_attempt, runs_on.
    assert (exists rl rr, LiveL rl (n_left s) /\ LiveR rr (n_right s)) as (rl & rr & Hl & Hr).
    { destruct Hlive as [[_ (Hl & Hr & _)]|(rl & rr & [] & _)]; eauto. }
    eapply runs_mono; [by eapply c_close|]. intros r c (-> & Hl1) w1 Hw1.
    apply runs_attempt, runs_on. cbn.
    eapply runs_mono; [by eapply c_close|]. intros r c2 (-> & Hr1) w2 Hw2. by unfold runs.
Qed.
End nlj.

(** * The hash join *)

(** The key string of a column of a row, when the code computes one. *)
Definition key_of (idx : Z) (row : Row) : option HashKey :=
  match (d ← index (Datums row) idx; encodeHashKey d) with Ok k => k | Err _ => None end.

Definition keyed (idx : Z) (row : Row) : Prop := exists k, key_of idx row = Some k.

Lemma runs_hash_key {W S H A} (I : W -> Prop) row idx key (k : HashKey -> st (W * S) (plan_err H) A) w s Q :
  key_of idx row = Some key -> runs I (k key) w s Q -> runs I (bind (hash_key row idx) k) w s Q.
Proof.
  unfold key_of, hash_key, eval. destruct (d ← _; _) as [[?|]|] eqn:E; try done.
  intros [= ->]. done.
Qed.

Section hash.
Context {W SL SR H : Type} (left0 : Operator W SL H) (right0 : Operator W SR H).
Context (leftKey rightKey : Z) (isLeftJoin : bool) (cond : option BoundExpr) (I : W -> Prop).
Context (kl kr : nat) (L R : list Row).
Context (ReadyL : SL -> Prop) (LiveL : list Row -> SL -> Prop).
Context (ReadyR : SR -> Prop) (LiveR : list Row -> SR -> Prop).
Context (Hleft : contract left0 I kl L ReadyL LiveL) (Hright : contract right0 I kr R ReadyR LiveR).
Notation state := (hash_state SL SR).
Notation out := (left_rows cond isLeftJoin (op_Schema (Operator := right0))).
Notation rest_out := (fun rl => join_rows cond isLeftJoin (op_Schema (Operator := right0)) rl R).
Implicit Types s : state.

(** The keys find every pair the condition accepts: then both rows have the same key,
    which is not the key of NULL. *)
Definition keys_complete (l : Row) : Prop :=
  Forall (fun r => holds cond (combineRows l r) = true ->
            key_of leftKey l = key_of rightKey r /\ key_of leftKey l <> Some []) R.

Definition same_key (key : HashKey) (r : Row) : bool := bool_decide (key_of rightKey r = Some key).

(** The right rows in the table under a key. *)
Definition bucket (key : HashKey) : list Row := List.filter (same_key key) R.

Definition table_of (rows : list Row) (t : gmap HashKey (list Row)) : Prop :=
  forall key, key <> [] -> default [] (t !! key) = List.filter (same_key key) rows.

Lemma build_run n m w s rows rr :
  (kr <= n)%nat -> (length rr < m)%nat -> Forall (keyed rightKey) rr ->
  I w -> LiveR rr (h_right s) -> table_of rows (hashTable s) ->
  runs I (build left0 right0 rightKey m n) w s (fun r s' =>
    r = Ok tt /\ LiveR [] (h_right s') /\ table_of (rows ++ rr) (hashTable s') /\ h_left s' = h_left s /\
    activeProbe s' = activeProbe s /\ activeMatches s' = activeMatches s /\ matchIdx s' = matchIdx s).
Proof.
  intros Hk. revert w s rows rr. induction m as [|m IH]; intros w s rows rr Hm Hkey Hw Hr Ht; [lia|].
  cbn [build]. apply runs_attempt, runs_on. destruct rr as [|row rr].
  - eapply runs_mono; [by eapply c_end|]. intros r c (-> & Hr') w' Hw'.
    apply runs_ret; [done|]. rewrite app_nil_r. by split_and!.
  - inversion Hkey as [|? ? [key Ekey] Hkey']; subst. cbn [length] in *.
    eapply runs_mono; [by eapply c_next|]. intros r c (-> & Hr') w' Hw'.
    apply runs_attempt. unfold hash_key. unfold key_of in Ekey.
    destruct (d ← _; _) as [[key'|]|] eqn:E; try done. injection Ekey as ->.
    apply runs_eval, runs_ret; [done|]. intros w2 Hw2.
    assert (same_key key row) as Hsame by (apply bool_decide_pack; unfold key_of; by rewrite E).
    assert (forall key', key' <> key -> same_key key' row = false) as Hother.
    { intros key' Hne. apply bool_decide_eq_false. unfold key_of. rewrite E. congruence. }
    replace (rows ++ row :: rr) with ((rows ++ [row]) ++ rr) by by rewrite <- app_assoc.
    destruct key as [|b key].
    + eapply runs_mono; [apply (IH _ _ (rows ++ [row]) rr); [lia|done..|]|].
      * intros key' Hne. cbn [hashTable]. rewrite List.filter_app, (Ht key' Hne). cbn. rewrite Hother by done.
        by rewrite app_nil_r.
      * done.
    + apply runs_update. eapply runs_mono; [apply (IH _ _ (rows ++ [row]) rr); [lia|done..|]|].
      * intros key' Hne. rewrite List.filter_app. cbn [hashTable build_row List.filter].
        destruct (decide (key' = b :: key)) as [->|Hne'].
        -- pose proof (Ht (b :: key) Hne) as Hkeys. rewrite lookup_insert_eq, Row_DeepCopy_id.
           cbn in *. rewrite Hkeys. by destruct (same_key (b :: key) row).
        -- rewrite lookup_insert_ne by done. rewrite Hother by done. rewrite app_nil_r. by apply Ht.
      * done.
Qed.

(** ** Probing *)

(** What is left of the row being probed, with [ms] the matches to come. *)
Definition probe_rows s (ms : list Row) : list Row :=
  match Datums (activeProbe s) with
  | [] => []
  | _ => out (matchedAny s) (activeProbe s) ms
  end.

Record hash_at (rl ms : list Row) s : Prop := {
  ha_left : LiveL rl (h_left s);
  ha_right : ReadyR (h_right s);
  ha_closed : rightClosed s = true;
  ha_table : table_of R (hashTable s);
  ha_idx : 0 <= matchIdx s;
  ha_matches : zdrop (matchIdx s) (activeMatches s) = ms;
  ha_active : ms <> [] -> has_columns (activeProbe s);
  ha_decided : Forall (fun r => decided cond (combineRows (activeProbe s) r)) ms;
  ha_rest : all_decided cond rl R;
  ha_keys : Forall (keyed leftKey) rl;
  ha_complete : Forall keys_complete rl;
  ha_columns : Forall has_columns rl }.

Lemma filter_implied {A B} (p : A -> bool) (q : B -> bool) (f : A -> B) l :
  Forall (fun x => q (f x) = true -> p x = true) l ->
  List.filter q (map f (List.filter p l)) = List.filter q (map f l).
Proof.
  induction 1 as [|x l Hx Hl IH]; [done|]. cbn. destruct (p x) eqn:E; cbn; rewrite IH; [done|].
  destruct (q (f x)) eqn:E2; [|done]. by specialize (Hx eq_refl).
Qed.

(** The rows found under the key of a left row are the ones that matter. *)
Lemma bucket_rows b l key :
  keys_complete l -> key_of leftKey l = Some key ->
  out b l (match key with [] => [] | _ => bucket key end) = out b l R.
Proof.
  intros Hc Hk. unfold left_rows.
  assert (matched_rows cond l (match key with [] => [] | _ => bucket key end) = matched_rows cond l R) as E; [|by rewrite E].
  unfold matched_rows, bucket. destruct key as [|c key].
  - symmetry. clear Hright. induction Hc as [|r R' Hr Hc IH]; [done|]. cbn.
    destruct (holds cond (combineRows l r)); [by destruct Hr|done].
  - apply filter_implied. eapply Forall_impl; [exact Hc|]. cbn. intros r Hr Hh.
    destruct (Hr Hh) as [E _]. apply bool_decide_eq_true. congruence.
Qed.

Lemma bucket_length key : (length (bucket key) <= length R)%nat.
Proof. apply List.filter_length_le. Qed.

Lemma bucket_decided l key :
  Forall (fun r => decided cond (combineRows l r)) R ->
  Forall (fun r => decided cond (combineRows l r)) (bucket key).
Proof.
  rewrite !List.Forall_forall. intros Hd r Hr. apply List.filter_In in Hr as [Hr _]. by apply Hd.
Qed.

Definition hash_live (l : list Row) s : Prop :=
  exists rl ms, hash_at rl ms s /\ l = probe_rows s ms ++ rest_out rl /\
    (length rl <= length L)%nat /\ (length ms <= length R)%nat.

(** The state after a left row was fetched and its matches looked up. *)
Definition probed l key s : state :=
  set_matches (match key with [] => [] | _ => default [] (hashTable s !! key) end) 0
    (set_matchedAny false (set_activeProbe (Row_DeepCopy l) (count_probe s))).

Lemma probed_at rl l key s c :
  LiveL rl c -> ReadyR (h_right s) -> rightClosed s = true -> table_of R (hashTable s) ->
  key_of leftKey l = Some key -> all_decided cond (l :: rl) R ->
  Forall (keyed leftKey) rl -> Forall keys_complete (l :: rl) -> Forall has_columns (l :: rl) ->
  h_left s = c ->
  hash_at rl (match key with [] => [] | _ => bucket key end) (probed l key s) /\
  probe_rows (probed l key s) (match key with [] => [] | _ => bucket key end) = out false l R.
Proof.
  intros Hl Hr Hc Ht Hk Hd Hks Hcs Hcol <-. inversion Hd; inversion Hcs; inversion Hcol; subst.
  assert (match key with [] => [] | _ => default [] (hashTable s !! key) end =
          match key with [] => [] | _ => bucket key end) as E.
  { destruct key; [done|]. by apply Ht. }
  unfold probed. rewrite E, Row_DeepCopy_id. split.
  - split; cbn; try done.
    destruct key; [done|]. by apply bucket_decided.
  - unfold probe_rows. cbn. rewrite bucket_rows by done. unfold has_columns in *.
    by destruct (Datums l).
Qed.

Lemma hash_next_run n m w s rl ms :
  (kl <= n)%nat -> (length ms + length rl * (length R + 1) + 2 <= m)%nat ->
  (length rl <= length L)%nat -> (length ms <= length R)%nat ->
  I w -> hash_at rl ms s ->
  runs I (hash_next left0 right0 leftKey isLeftJoin cond m n) w s (fun r s' =>
    match probe_rows s ms ++ rest_out rl with
    | [] => r = Err EOF /\ hash_live [] s'
    | row :: l => r = Ok row /\ hash_live l s'
    end).
Proof.
  intros Hkl. revert w s rl ms. induction m as [|m IH]; intros w s rl ms Hm Hlen Hlenm Hw Ha; [lia|].
  cbn [hash_next]. apply runs_own. destruct ms as [|r ms].
  - assert (zlen (activeMatches s) <= matchIdx s) as Hle.
    { pose proof (f_equal length (ha_matches _ _ _ Ha)) as E. unfold zdrop, zlen in *. rewrite length_drop in E.
      pose proof (ha_idx _ _ _ Ha). cbn in E. lia. }
    rewrite (proj2 (Z.ltb_ge _ _)) by done. apply runs_own.
    destruct (isLeftJoin && (0 <? zlen (Datums (activeProbe s))) && negb (matchedAny s)) eqn:Ep.
    + apply andb_prop in Ep as [[El Ec]%andb_prop Em]. apply runs_own, runs_update, runs_update, runs_ret; [done|].
      unfold probe_rows, left_rows. cbn [matched_rows map List.filter]. assert (isLeftJoin && negb (matchedAny s) = true) as -> by by rewrite El.
      destruct (Datums (activeProbe s)) as [|d ds] eqn:Ed; [done|]. split; [done|].
      exists rl, []. cbn. split_and!; [|done|done|lia]. destruct Ha. by split.
    + assert (probe_rows s [] = []) as Hpr.
      { unfold probe_rows, left_rows. cbn [matched_rows map List.filter].
        destruct (Datums (activeProbe s)) as [|d ds]; [done|]. rewrite zlen_cons in Ep.
        pose proof (zlen_nonneg ds). rewrite (proj2 (Z.ltb_lt _ _)), andb_true_r in Ep by lia. by rewrite Ep. }
      rewrite Hpr. apply runs_bind, runs_on. destruct Ha as [Hl Hr Hc Ht Hi Hms Hact Hdec Hrest Hkeys Hcomp Hcol].
      destruct rl as [|l rl].
      * eapply runs_mono; [by eapply c_end|]. intros r c (-> & Hl'). split; [done|].
        exists [], []. split_and!; [by split|by rewrite app_nil_r; symmetry|cbn; lia|cbn; lia].
      * inversion Hkeys as [|? ? [key Hk] Hkeys']; subst.
        eapply runs_mono; [by eapply c_next|]. intros r c (-> & Hl') w1 Hw1.
        apply runs_update, runs_update, runs_update. eapply runs_hash_key; [exact Hk|].
        pose (s1 := mkHash c (h_right s) (hashTable s) (rightClosed s) (activeProbe s)
          (activeMatches s) (matchIdx s) (matchedAny s) (buildRows s) (h_probeRows s) (h_outputRows s)
          (estimatedBytes s)).
        match goal with |- runs _ (_ ;;; ?rec) ?w _ ?Q =>
          assert (runs I rec w (probed l key s1) Q) as Hrun; [|destruct key; exact Hrun] end.
        destruct (probed_at rl l key s1 c) as [Hat Eout]; [done..|].
        cbn [length] in *.
        assert (length (match key with [] => [] | _ => bucket key end) <= length R)%nat as Hb.
        { destruct key; [cbn; lia|apply bucket_length]. }
        eapply runs_mono; [eapply (IH w1 _ rl (match key with [] => [] | _ => bucket key end)); [lia|lia|exact Hb|done|exact Hat]|].
        cbv beta. by rewrite Eout.
  - pose proof (ha_matches _ _ _ Ha) as E. pose proof (ha_idx _ _ _ Ha) as Hi.
    assert (activeMatches s !! Z.to_nat (matchIdx s) = Some r) as Hrow.
    { apply (f_equal (fun l => l !! 0%nat)) in E. unfold zdrop in E.
      by rewrite lookup_drop, Nat.add_0_r in E. }
    apply lookup_lt_Some in Hrow as Hlt. unfold zlen.
    rewrite (proj2 (Z.ltb_lt _ _)) by lia. apply runs_own. unfold index.
    rewrite (proj2 (Z.ltb_ge _ _)) by lia. rewrite Hrow. apply runs_eval, runs_update, runs_own.
    pose proof (ha_decided _ _ _ Ha) as Hdec. inversion Hdec as [|? ? Hd1 Hd2]; subst.
    pose proof (ha_active _ _ _ Ha ltac:(done)) as Hact.
    assert (zdrop (matchIdx s + 1) (activeMatches s) = ms) as E'.
    { rewrite <- (zdrop_zdrop 1), E by lia. done. }
    apply runs_condition; [done|]. cbn [activeProbe set_matchIdx set_matches].
    assert (forall b, hash_at rl ms (set_matchedAny b (set_matchIdx (matchIdx s + 1) s))) as Hat.
    { destruct Ha. split; cbn; try done; lia. }
    unfold probe_rows. unfold has_columns in Hact.
    destruct (Datums (activeProbe s)) as [|d ds] eqn:Ed; [done|]. cbn [length] in *.
    destruct (holds cond _) eqn:Eh.
    + rewrite left_rows_match by done. apply runs_update, runs_update, runs_ret; [done|].
      split; [done|]. exists rl, ms. split_and!; [by destruct (Hat true); split| |lia|lia].
      unfold probe_rows. cbn. by rewrite Ed.
    + rewrite left_rows_skip by done.
      eapply runs_mono; [eapply (IH w _ rl ms); [lia|lia|lia|done|exact (Hat (matchedAny s))]|].
      unfold probe_rows. cbn. by rewrite Ed.
Qed.

Lemma hash_contract :
  all_decided cond L R -> Forall has_columns L ->
  Forall (keyed leftKey) L -> Forall (keyed rightKey) R -> Forall keys_complete L ->
  contract (HashJoinNode left0 right0 leftKey rightKey isLeftJoin cond) I
    (kl + kr + (length L + 1) * (length R + 1) + 2) (rest_out L)
    (fun s => ReadyL (h_left s) /\ ReadyR (h_right s)) hash_live.
Proof.
  intros Hd Hcol Hkl Hkr Hcomp. constructor; cbn [Open Next Close HashJoinNode].
  - intros n w s Hn Hw (Hl & Hr). unfold Hash_Open. apply runs_bind, runs_on.
    eapply runs_mono; [eapply c_open; eauto with lia|]. intros r c (-> & Hl1) w1 Hw1.
    apply runs_update, runs_bind, runs_cleanup, runs_on.
    eapply runs_mono; [eapply c_open; eauto with lia|]. intros r c2 (-> & Hr2) w2 Hw2.
    apply runs_update, runs_bind.
    eapply runs_mono; [apply (build_run n n _ _ [] R); [lia|nia|done|done|done|]|].
    { intros key _. cbn [reset_join hashTable]. by rewrite lookup_empty. }
    intros r s3 (-> & Hr3 & Ht3 & El & Ea & Em & Ei) w3 Hw3.
    apply runs_bind, runs_ignore, runs_on.
    eapply runs_mono; [by eapply c_close|]. intros r c4 (_ & Hr4) w4 Hw4. unfold runs. cbn.
    split; [done|]. split; [done|]. exists L, []. cbn in *.
    split_and!; [|by unfold probe_rows; cbn; rewrite Ea|lia|lia].
    split; cbn; try done; rewrite ?El, ?Em, ?Ei; done.
  - intros n w s row l Hn Hw (rl & ms & Hat & E & H1 & H2).
    eapply runs_mono; [eapply (hash_next_run n n _ _ rl ms); [lia|nia|done..]|].
    cbv beta. by rewrite <- E.
  - intros n w s Hn Hw (rl & ms & Hat & E & H1 & H2).
    eapply runs_mono; [eapply (hash_next_run n n _ _ rl ms); [lia|nia|done..]|].
    cbv beta. by rewrite <- E.
  - intros w s l Hw (rl & ms & Hat & _). unfold Hash_Close. apply runs_update, runs_attempt, runs_on.
    eapply runs_mono; [eapply c_close; [done|done|exact (ha_left _ _ _ Hat)]|].
    intros r c (-> & Hl1) w1 Hw1. apply runs_own. cbn. rewrite (ha_closed _ _ _ Hat). cbn.
    unfold runs. cbn. by destruct Hat.
Qed.
End hash.

(** * Equijoins *)

(** Types whose hash keys tell their values apart. *)
Definition hashable (t : Ty) : bool :=
  match t with TypeInt64 | TypeUint64 | TypeBool | TypeString => true | _ => false end.

Lemma encodeHashKey_present t d :
  hashable t -> present t d -> exists key, encodeHashKey d = Ok (Some key) /\ key <> [].
Proof.
  intros Ht Hd. destruct t; try done; present_values; unfold encodeHashKey; cbn; by eexists.
Qed.

Lemma encodeHashKey_inj t t' a b key :
  hashable t -> hashable t' -> present t a -> present t' b ->
  encodeHashKey a = Ok (Some key) -> encodeHashKey b = Ok (Some key) -> a = b.
Proof.
  intros Ht Ht' Ha Hb. destruct t, t'; try done; present_values; unfold encodeHashKey; cbn.
  all: intros [= <-]; intros [= E]; try done.
  - by apply fmt_d_inj in E as ->.
  - by apply fmt_d_inj in E as ->.
  - by apply fmt_t_inj in E as ->.
  - by rewrite E.
Qed.

(** [left.col = right.col] on combined rows whose left part has [nl] columns. *)
Definition equijoin (nl li ri : Z) (t t' : Ty) : BoundExpr :=
  cmpExpr (colRef li t) (colRef (nl + ri) t') "=".

(** The columns of the pair are equal. *)
Definition pair_equal (li ri : Z) (l r : Row) : bool :=
  bool_decide (Datums l !! Z.to_nat li = Datums r !! Z.to_nat ri).

Section equijoin.
Context (tl tr : list Ty) (li ri : Z) (t t' : Ty).
Context (Hli : 0 <= li) (Hri : 0 <= ri).
Context (Htl : tl !! Z.to_nat li = Some t) (Htr : tr !! Z.to_nat ri = Some t').
Context (Ht : hashable t) (Ht' : hashable t').
Notation cond := (Some (equijoin (zlen tl) li ri t t')).

Lemma index_present ts idx ty row :
  row_typed ts row -> 0 <= idx -> ts !! Z.to_nat idx = Some ty ->
  exists d, Datums row !! Z.to_nat idx = Some d /\ index (Datums row) idx = Ok d /\ present ty d.
Proof.
  intros Hr Hi Hty. destruct (Forall2_lookup_l _ _ _ _ _ Hr Hty) as (d & Hd & Hp).
  exists d. split_and!; try done. unfold index. rewrite (proj2 (Z.ltb_ge _ _)) by lia. by rewrite Hd.
Qed.

Lemma row_typed_length ts row : row_typed ts row -> zlen (Datums row) = zlen ts.
Proof. intros Hr. apply Forall2_length in Hr. unfold zlen. lia. Qed.

Lemma keyed_present ts idx ty row :
  row_typed ts row -> 0 <= idx -> ts !! Z.to_nat idx = Some ty -> hashable ty ->
  exists d key, Datums row !! Z.to_nat idx = Some d /\ present ty d /\
    encodeHashKey d = Ok (Some key) /\ key_of idx row = Some key /\ key <> [].
Proof.
  intros Hr Hi Hty Hh. destruct (index_present _ _ _ _ Hr Hi Hty) as (d & Hd & Ed & Hp).
  destruct (encodeHashKey_present _ _ Hh Hp) as (key & Ek & Hne). exists d, key.
  split_and!; try done. unfold key_of. rewrite Ed. cbn. by rewrite Ek.
Qed.

Lemma equijoin_eval l r :
  row_typed tl l -> row_typed tr r ->
  Eval (equijoin (zlen tl) li ri t t') (combineRows l r) = Ok (bool_datum (pair_equal li ri l r)).
Proof.
  intros Hl Hr. destruct (index_present _ _ _ _ Hl Hli Htl) as (a & Ha & _ & Pa).
  destruct (index_present _ _ _ _ Hr Hri Htr) as (b & Hb & _ & Pb).
  pose proof (row_typed_length _ _ Hl) as Hll. pose proof (row_typed_length _ _ Hr) as Hlr.
  apply lookup_lt_Some in Ha as La. apply lookup_lt_Some in Hb as Lb.
  unfold equijoin. cbn [Eval]. unfold column_of, index, combineRows. cbn [Datums].
  rewrite zlen_app. unfold zlen in *.
  rewrite !(proj2 (Z.leb_gt _ _)), !(proj2 (Z.ltb_ge _ _)) by lia.
  rewrite (lookup_app_l _ _ (Z.to_nat li)) by lia. rewrite Ha.
  replace (Z.to_nat (Z.of_nat (length tl) + ri)) with (length (Datums l) + Z.to_nat ri)%nat by lia.
  rewrite lookup_app_r by lia. rewrite Nat.add_comm, Nat.add_sub, Hb. cbn.
  unfold pair_equal. rewrite Ha, Hb. cbn.
  assert (datumEqual a b = Ok (bool_decide (a = b))) as ->.
  { destruct (decide (t = t')) as [<-|Hne].
    - apply (datumEqual_spec t); [done|done|]. intros ->. done.
    - unfold datumEqual. destruct Pa as [Ea _], Pb as [Eb _]. rewrite Ea, Eb.
      rewrite bool_decide_eq_false_2 by done. cbn.
      rewrite bool_decide_eq_false_2; [done|]. intros ->. congruence. }
  cbn. do 2 f_equal. apply bool_decide_ext. split; [by intros ->|by intros [=]].
Qed.

Lemma equijoin_holds l r :
  row_typed tl l -> row_typed tr r -> holds cond (combineRows l r) = pair_equal li ri l r.
Proof. intros Hl Hr. unfold holds. by rewrite equijoin_eval. Qed.

Lemma equijoin_decided L R :
  Forall (row_typed tl) L -> Forall (row_typed tr) R -> all_decided cond L R.
Proof.
  intros HL HR. eapply Forall_impl; [exact HL|]. intros l Hl. cbn.
  eapply Forall_impl; [exact HR|]. intros r Hr. eexists. by apply equijoin_eval.
Qed.

Lemma equijoin_keys L R :
  Forall (row_typed tl) L -> Forall (row_typed tr) R ->
  Forall (keyed li) L /\ Forall (keyed ri) R /\ Forall (keys_complete li ri cond R) L.
Proof.
  intros HL HR. split_and!.
  - eapply Forall_impl; [exact HL|]. intros l Hl. cbn.
    destruct (keyed_present _ _ _ _ Hl Hli Htl Ht) as (d & key & ? & ? & ? & ? & ?). by exists key.
  - eapply Forall_impl; [exact HR|]. intros r Hr. cbn.
    destruct (keyed_present _ _ _ _ Hr Hri Htr Ht') as (d & key & ? & ? & ? & ? & ?). by exists key.
  - eapply Forall_impl; [exact HL|]. intros l Hl. cbn.
    eapply Forall_impl; [exact HR|]. intros r Hr. cbn.
    destruct (keyed_present _ _ _ _ Hl Hli Htl Ht) as (a & key & Ha & Pa & Ea & -> & Hne).
    destruct (keyed_present _ _ _ _ Hr Hri Htr Ht') as (b & key' & Hb & Pb & Eb & -> & Hne').
    intros Hh. change (holds cond (combineRows l r) = true) in Hh.
    rewrite equijoin_holds in Hh by done. apply bool_decide_eq_true in Hh.
    rewrite Ha, Hb in Hh. injection Hh as ->. rewrite Ea in Eb. injection Eb as ->. by split; [|intros [=]].
Qed.

(** The rows of the join, told by equality of the columns. *)
Definition equijoin_rows (isLeftJoin : bool) (rightSchema : Schema) (L R : list Row) : list Row :=
  flat_map (fun l =>
    match List.filter (pair_equal li ri l) R with
    | [] => if isLeftJoin then [nullPadRight l rightSchema] else []
    | m => map (combineRows l) m
    end) L.

Lemma equijoin_join_rows isLeftJoin sch L R :
  Forall (row_typed tl) L -> Forall (row_typed tr) R ->
  join_rows cond isLeftJoin sch L R = equijoin_rows isLeftJoin sch L R.
Proof.
  intros HL HR. induction HL as [|l L Hl HL IH]; [done|]. cbn [join_rows equijoin_rows flat_map].
  unfold join_rows, equijoin_rows in IH. rewrite IH. f_equal.
  assert (matched_rows cond l R = map (combineRows l) (List.filter (pair_equal li ri l) R)) as E.
  { unfold matched_rows. clear IH. induction HR as [|r R Hr HR IH]; [done|].
    cbn [map List.filter]. rewrite equijoin_holds by done. destruct (pair_equal li ri l r); cbn; by rewrite IH. }
  unfold left_rows. rewrite E. rewrite andb_true_r. by destruct (List.filter (pair_equal li ri l) R).
Qed.
End equijoin.
