(* ===== verification/Agg.v ===== *)
(** [internal/engine/sql/planner/agg.go]: GROUP BY and the aggregates.

    The node groups rows under a string made of the group columns and keeps one list
    of accumulators per string, in the order in which the groups appear. *)

From Stdlib Require Import ZArith Lia SpecFloat.
From Stdlib Require Strings.String.
From stdpp Require Import gmap.
From Stdlib Require Import ZArith Lia.
From S2P Require Import Prelude OrdMap Monad GoFmt Datum Expr Operator Sort.
Import String.StringSyntax.
Open Scope Z_scope.
Open Scope st_scope.

(** * Accumulators *)

Inductive AggOp : Type := AggCount | AggSum | AggMin | AggMax.

#[export] Instance AggOp_eq_dec : EqDecision AggOp.
Proof. solve_decision. Defined.

Record AggRequest := mkAgg { Op : AggOp; a_ColIdx : Z }.

Record aggAccumulator := mkAcc {
  acc_op : AggOp; acc_count : Z; acc_sum : Datum; acc_min : Datum; acc_max : Datum; hasVal : bool }.

(** The zero [engine.Datum]. *)
Definition null_datum : Datum := mkDatum TypeNull VNil.

(** [aggAccumulator{op: op}] *)
Definition new_acc (op : AggOp) : aggAccumulator := mkAcc op 0 null_datum null_datum null_datum false.

(** [float64(x)] of an integer, and float addition. *)
Definition float64_of (z : Z) : spec_float := binary_normalize 53 1024 z 0 false.
Definition float64_add : spec_float -> spec_float -> spec_float := SFadd 53 1024.

Definition addDatums (a b : Datum) : ev Datum :=
  match d_Type a with
  | TypeInt64 =>
      av ← as_int64 (d_Value a);
      match d_Value b with
      | VFloat64 fb => Ok (mkDatum TypeFloat64 (VFloat64 (float64_add (float64_of av) fb)))
      | VInt64 ib => Ok (mkDatum TypeInt64 (VInt64 (swrap64 (av + ib))))
      | _ => Ok (mkDatum TypeInt64 (VInt64 (swrap64 (av + 0))))
      end
  | TypeFloat64 =>
      av ← as_float64 (d_Value a);
      match d_Value b with
      | VInt64 ib => Ok (mkDatum TypeFloat64 (VFloat64 (float64_add av (float64_of ib))))
      | VFloat64 fb => Ok (mkDatum TypeFloat64 (VFloat64 (float64_add av fb)))
      | _ => Ok (mkDatum TypeFloat64 (VFloat64 (float64_add av (S754_zero false))))
      end
  | _ => Ok a
  end.

Definition set_sum (d : Datum) (acc : aggAccumulator) :=
  mkAcc (acc_op acc) (acc_count acc) d (acc_min acc) (acc_max acc) (hasVal acc).
Definition set_min (d : Datum) (acc : aggAccumulator) :=
  mkAcc (acc_op acc) (acc_count acc) (acc_sum acc) d (acc_max acc) (hasVal acc).
Definition set_max (d : Datum) (acc : aggAccumulator) :=
  mkAcc (acc_op acc) (acc_count acc) (acc_sum acc) (acc_min acc) d (hasVal acc).

Definition accumulate (acc : aggAccumulator) (val : Datum) : ev aggAccumulator :=
  match acc_op acc with
  | AggCount =>
      Ok (mkAcc (acc_op acc) (swrap64 (acc_count acc + 1)) (acc_sum acc) (acc_min acc) (acc_max acc) (hasVal acc))
  | op =>
      if is_nil (d_Value val) then Ok acc
      else if negb (hasVal acc) then
        Ok (mkAcc (acc_op acc) (acc_count acc) (Datum_DeepCopy val) (Datum_DeepCopy val) (Datum_DeepCopy val) true)
      else
        match op with
        | AggSum => d ← addDatums (acc_sum acc) val; Ok (set_sum d acc)
        | AggMin => less ← datumLess val (acc_min acc);
                    if less : bool then Ok (set_min (Datum_DeepCopy val) acc) else Ok acc
        | AggMax => less ← datumLess (acc_max acc) val;
                    if less : bool then Ok (set_max (Datum_DeepCopy val) acc) else Ok acc
        | AggCount => Ok acc
        end
  end.

Definition result (acc : aggAccumulator) : Datum :=
  match acc_op acc with
  | AggCount => mkDatum TypeInt64 (VInt64 (acc_count acc))
  | op =>
      if negb (hasVal acc) then null_datum
      else match op with
           | AggSum => acc_sum acc
           | AggMin => acc_min acc
           | AggMax => acc_max acc
           | AggCount => null_datum
           end
  end.

(** * Group keys *)

Definition serializeDatum (d : Datum) : ev (list byte) :=
  if is_nil (d_Value d) then Ok (go_string "N")
  else
    match d_Type d with
    | TypeInt64 => v ← as_int64 (d_Value d); Ok (go_string "I" ++ fmt_d v)
    | TypeUint64 => v ← as_uint64 (d_Value d); Ok (go_string "U" ++ fmt_d v)
    | TypeFloat64 => v ← as_float64 (d_Value d); Ok (go_string "F" ++ fmt_f v)
    | TypeBool => v ← as_bool (d_Value d); Ok (if v : bool then go_string "BT" else go_string "BF")
    | TypeString => v ← as_string (d_Value d); Ok (go_string "S" ++ v)
    | TypeBytes =>
        b ← as_bytes (d_Value d);
        Ok (go_string "B" ++ fmt_d (zlen b) ++ go_string ":" ++ b)
    | _ => Ok (go_string "?")
    end.

(** [strings.Join(parts, "\x00")] *)
Fixpoint join (parts : list (list byte)) : list byte :=
  match parts with
  | [] => []
  | [p] => p
  | p :: parts' => p ++ [x00] ++ join parts'
  end.

(** The loops over [n.groupKeys] and over a group row's datums. *)
Fixpoint group_datums (groupKeys : list Z) (row : Row) : ev (list Datum) :=
  match groupKeys with
  | [] => Ok []
  | gk :: gks => d ← index (Datums row) gk; ds ← group_datums gks row; Ok (d :: ds)
  end.

Fixpoint serialize_all (ds : list Datum) : ev (list (list byte)) :=
  match ds with
  | [] => Ok []
  | d :: ds' => p ← serializeDatum d; ps ← serialize_all ds'; Ok (p :: ps)
  end.

Definition key_string (ds : list Datum) : ev (list byte) := ps ← serialize_all ds; Ok (join ps).

(** * The schema of the result *)

Definition aggName (a : AggRequest) : list byte :=
  go_string (match Op a with AggCount => "count" | AggSum => "sum" | AggMin => "min" | AggMax => "max" end).

Definition aggResultType (a : AggRequest) (schema : Schema) : Ty :=
  match Op a with
  | AggCount => TypeInt64
  | _ => if (0 <=? a_ColIdx a) && (a_ColIdx a <? zlen schema)
         then default TypeNull (c_Type <$> schema !! Z.to_nat (a_ColIdx a)) else TypeNull
  end.

(** * HashAggNode *)

Record groups_state := mkGroups { groupMap : gmap (list byte) (list aggAccumulator); groupRows : list Row }.

Fixpoint accumulate_all (aggs : list AggRequest) (accums : list aggAccumulator) (row : Row)
  : ev (list aggAccumulator) :=
  match aggs, accums with
  | agg :: aggs', acc :: accums' =>
      val ← (if 0 <=? a_ColIdx agg then index (Datums row) (a_ColIdx agg) else Ok null_datum);
      acc' ← accumulate acc val;
      r ← accumulate_all aggs' accums' row;
      Ok (acc' :: r)
  | _, _ => Ok accums
  end.

(** One turn of the loop of [Open], after the row was read. *)
Definition group_step (groupKeys : list Z) (aggs : list AggRequest) (row : Row) (g : groups_state)
  : ev groups_state :=
  groupRowDatums ← group_datums groupKeys row;
  keyStr ← key_string groupRowDatums;
  let '(accums, rows) :=
    match groupMap g !! keyStr with
    | Some accums => (accums, groupRows g)
    | None => (map (fun agg => new_acc (Op agg)) aggs, groupRows g ++ [mkRow groupRowDatums 0])
    end in
  accums' ← accumulate_all aggs accums row;
  Ok (mkGroups (<[keyStr := accums']> (groupMap g)) rows).

(** The rows of results, one for each group. *)
Fixpoint agg_results (m : gmap (list byte) (list aggAccumulator)) (rows : list Row) : ev (list Row) :=
  match rows with
  | [] => Ok []
  | gr :: rows' =>
      k ← key_string (Datums gr);
      r ← agg_results m rows';
      Ok (mkRow (map result (default [] (m !! k))) 0 :: r)
  end.

Record agg_state (C : Type) := mkAggState {
  g_child : C; groups : list Row; aggResults : list Row; outputIdx : Z; g_opened : bool }.
Arguments mkAggState {C}.
Arguments g_child {C}.
Arguments groups {C}.
Arguments aggResults {C}.
Arguments outputIdx {C}.
Arguments g_opened {C}.

Section HashAggNode.
Context {W C H : Type} (child : Operator W C H) (groupKeys : list Z) (aggs : list AggRequest).
Notation state := (agg_state C).
Implicit Types s : state.

Definition agg_schema : Schema :=
  let schema := op_Schema (Operator := child) in
  omap (fun gk => schema !! Z.to_nat gk) groupKeys ++
  map (fun agg => mkColumn (aggName agg) (aggResultType agg schema) false None) aggs.

Definition on_agg {A} : st (W * C) (plan_err H) A -> st (W * state) (plan_err H) A :=
  on g_child (fun c s => mkAggState c (groups s) (aggResults s) (outputIdx s) (g_opened s)).

Fixpoint group_loop (m n : nat) (g : groups_state) : st (W * state) (plan_err H) groups_state :=
  match m with
  | O => fail NoFuel
  | Datatypes.S m' =>
      r <- attempt (on_agg (Next n)) ;;
      match r with
      | Err EOF => ret g
      | Err e => ignore (on_agg Close) ;;; fail e
      | Ok row => g' <- eval (group_step groupKeys aggs row g) ;; group_loop m' n g'
      end
  end.

Definition Agg_Open (n : nat) : st (W * state) (plan_err H) unit :=
  on_agg (Open n) ;;;
  update (fun s => mkAggState (g_child s) [] [] 0 (g_opened s)) ;;;
  g <- group_loop n n (mkGroups ∅ []) ;;
  results <- eval (agg_results (groupMap g) (groupRows g)) ;;
  update (fun s => mkAggState (g_child s) (groups s) results (outputIdx s) (g_opened s)) ;;;
  update (fun s => mkAggState (g_child s) (groupRows g) (aggResults s) (outputIdx s) (g_opened s)) ;;;
  update (fun s => mkAggState (g_child s) (groups s) (aggResults s) (outputIdx s) true).

Definition Agg_Next : st (W * state) (plan_err H) Row :=
  o <- own g_opened ;;
  if negb o then fail EOF
  else
    empty <- own (fun s => (zlen groupKeys =? 0) && (zlen (groups s) =? 0)) ;;
    if empty : bool then
      update (fun s => mkAggState (g_child s) (groups s) (aggResults s) 1 (g_opened s)) ;;;
      ret (mkRow (map (fun agg => result (new_acc (Op agg))) aggs) 0)
    else
      over <- own (fun s => zlen (groups s) <=? outputIdx s) ;;
      if over : bool then fail EOF
      else
        gr <- own (fun s => index (groups s) (outputIdx s)) ;; gr <- eval gr ;;
        ar <- own (fun s => index (aggResults s) (outputIdx s)) ;; ar <- eval ar ;;
        update (fun s => mkAggState (g_child s) (groups s) (aggResults s) (outputIdx s + 1) (g_opened s)) ;;;
        ret (mkRow (Datums gr ++ Datums ar) 0).

Definition Agg_Close : st (W * state) (plan_err H) unit :=
  update (fun s => mkAggState (g_child s) [] [] (outputIdx s) false) ;;;
  on_agg Close.

Definition HashAggNode : Operator W state H :=
  {| Open := Agg_Open; Next _ := Agg_Next; Close := Agg_Close;
     op_Schema := agg_schema; op_PlannerSchema := None |}.
End HashAggNode.

(** * The aggregation of [Agg.v] against its specification: one row for each distinct
    tuple of group values, in order of first appearance, with the aggregates of the
    group's rows. *)

(** * Cells of a row *)

(** A table cell: NULL, or a present value of the column's type. *)
Definition cell (t : Ty) (d : Datum) : Prop := d = null_datum \/ present t d.

Definition row_cells (ts : list Ty) (row : Row) : Prop := Forall2 cell ts (Datums row).

Definition datum_at (idx : Z) (row : Row) : Datum := default null_datum (Datums row !! Z.to_nat idx).

Lemma index_cell ts idx t row :
  row_cells ts row -> 0 <= idx -> ts !! Z.to_nat idx = Some t ->
  index (Datums row) idx = Ok (datum_at idx row) /\ cell t (datum_at idx row).
Proof.
  intros Hr Hi Ht. destruct (Forall2_lookup_l _ _ _ _ _ Hr Ht) as (d & Hd & Hp).
  unfold index, datum_at. rewrite (proj2 (Z.ltb_ge _ _)) by lia. by rewrite Hd.
Qed.

(** * Group keys tell groups apart *)

(** [%f] prints different floats alike, so columns of floats are left out. *)
Definition groupable (t : Ty) : bool :=
  match t with TypeInt64 | TypeUint64 | TypeBool | TypeString | TypeBytes => true | _ => false end.

Definition nul_free (d : Datum) : Prop :=
  match d_Value d with VString s | VBytes s => no_nul s | _ => True end.

Lemma serialize_cell t d :
  groupable t -> cell t d -> exists p, serializeDatum d = Ok p /\ (nul_free d -> no_nul p).
Proof.
  intros Ht [->|Hd]; [by exists (go_string "N"); split; [|intros _; not_in_const]|].
  destruct t; try done; present_values; unfold serializeDatum, nul_free; cbn.
  all: eexists; split; [done|]; intros Hn.
  - apply (no_nul_app (go_string "I")). split; [not_in_const|apply no_nul_fmt_d].
  - apply (no_nul_app (go_string "U")). split; [not_in_const|apply no_nul_fmt_d].
  - destruct v; not_in_const.
  - apply (no_nul_app (go_string "S")). split; [not_in_const|done].
  - apply (no_nul_app (go_string "B")). split; [not_in_const|].
    apply no_nul_app. split; [apply no_nul_fmt_d|]. apply (no_nul_app (go_string ":")).
    split; [not_in_const|done].
Qed.

Lemma serialize_inj t a b p :
  groupable t -> cell t a -> cell t b -> serializeDatum a = Ok p -> serializeDatum b = Ok p -> a = b.
Proof.
  intros Ht [->|Ha] [->|Hb]; [done| | |]; destruct t; try done; present_values; unfold serializeDatum; cbn.
  all: intros [= <-]; intros [= E]; try done; try by destruct v.
  - by apply fmt_d_inj in E as ->.
  - by apply fmt_d_inj in E as ->.
  - by destruct v, v0.
  - by rewrite E.
  - assert (x3a ∉ go_string "-0123456789") as Hc by not_in_const.
    apply (separator_inj x3a) in E as [_ ->]; [done|by apply not_in_fmt_d..].
Qed.

Lemma join_cons p ps : ps <> [] -> join (p :: ps) = p ++ x00 :: join ps.
Proof. by destruct ps. Qed.

Lemma join_inj ps qs :
  length ps = length qs -> Forall no_nul ps -> Forall no_nul qs -> join ps = join qs -> ps = qs.
Proof.
  revert qs. induction ps as [|p ps IH]; intros [|q qs] Hl Hp Hq E; try done.
  inversion Hp as [|? ? Hp1 Hp2]; inversion Hq as [|? ? Hq1 Hq2]; subst. injection Hl as Hl.
  destruct ps as [|p' ps], qs as [|q' qs]; try done; [cbn in E; by rewrite E|].
  rewrite !join_cons in E by done. apply separator_inj in E as [-> E]; [|done..].
  by rewrite (IH (q' :: qs)).
Qed.

(** Keys of several columns must not contain NUL, the separator. *)
Definition key_ok (ts : list Ty) (k : list Datum) : Prop :=
  Forall2 cell ts k /\ ((length ts <= 1)%nat \/ Forall nul_free k).

Lemma serialize_all_ok ts k :
  forallb groupable ts -> Forall2 cell ts k ->
  exists ps, serialize_all k = Ok ps /\ length ps = length k /\ (Forall nul_free k -> Forall no_nul ps).
Proof.
  intros Hg. induction 1 as [|t d ts k Hd Hk IH]; [by exists []|]. cbn in Hg.
  apply andb_prop_elim in Hg as [Ht Hg]. destruct (IH Hg) as (ps & E & Hl & Hn).
  destruct (serialize_cell t d Ht Hd) as (p & Ep & Hp). exists (p :: ps). cbn. rewrite Ep, E. cbn.
  split_and!; [done|by rewrite Hl|]. intros Hf. inversion Hf; subst. constructor; auto.
Qed.

Lemma serialize_all_inj ts k k' ps :
  forallb groupable ts -> Forall2 cell ts k -> Forall2 cell ts k' ->
  serialize_all k = Ok ps -> serialize_all k' = Ok ps -> k = k'.
Proof.
  intros Hg Hk. revert k' ps. induction Hk as [|t d ts k Hd Hk IH]; intros k' ps Hk' E E';
    inversion Hk' as [|? d' ? k'' Hd' Hk'']; subst; [done|].
  cbn in Hg. apply andb_prop_elim in Hg as [Ht Hg]. cbn in E, E'.
  destruct (serializeDatum d) as [p|] eqn:Ep; [|done]. destruct (serializeDatum d') as [p'|] eqn:Ep'; [|done].
  cbn in *. destruct (serialize_all k) as [qs|] eqn:Eq; [|done]. destruct (serialize_all k'') as [qs'|] eqn:Eq'; [|done].
  cbn in *. injection E as <-. injection E' as -> ->.
  f_equal; [by eapply serialize_inj|]. by eapply IH.
Qed.

Lemma key_string_ok ts k : forallb groupable ts -> key_ok ts k -> exists s, key_string k = Ok s.
Proof.
  intros Hg [Hk _]. destruct (serialize_all_ok ts k Hg Hk) as (ps & E & _).
  exists (join ps). unfold key_string. by rewrite E.
Qed.

Lemma group_key_inj ts k k' s :
  forallb groupable ts -> key_ok ts k -> key_ok ts k' ->
  key_string k = Ok s -> key_string k' = Ok s -> k = k'.
Proof.
  intros Hg [Hk Hn] [Hk' Hn']. unfold key_string.
  destruct (serialize_all_ok ts k Hg Hk) as (ps & E & Hl & Hp).
  destruct (serialize_all_ok ts k' Hg Hk') as (ps' & E' & Hl' & Hp').
  rewrite E, E'. cbn. intros [= <-] [= Ej].
  pose proof (Forall2_length _ _ _ Hk) as L1. pose proof (Forall2_length _ _ _ Hk') as L2.
  assert (ps = ps') as ->; [|by eapply serialize_all_inj].
  destruct (decide (length ts <= 1)%nat) as [H1|H1].
  - destruct ps as [|p [|? ?]], ps' as [|p' [|? ?]]; cbn in *; try lia; try done. by rewrite Ej.
  - destruct Hn as [?|Hn]; [lia|]. destruct Hn' as [?|Hn']; [lia|].
    apply join_inj; [lia|auto..].
Qed.

(** * Distinct keys, in order of first appearance *)

Definition distinct_step {A} `{EqDecision A} (acc : list A) (k : A) : list A :=
  if decide (k ∈ acc) then acc else acc ++ [k].

Definition distinct {A} `{EqDecision A} (l : list A) : list A := foldl distinct_step [] l.

Section distinct.
Context {A : Type} `{EqDecision A}.
Implicit Types l : list A.

Lemma distinct_snoc l k : distinct (l ++ [k]) = distinct_step (distinct l) k.
Proof. unfold distinct. by rewrite foldl_app. Qed.

Lemma elem_of_distinct l x : x ∈ distinct l <-> x ∈ l.
Proof.
  induction l as [|k l IH] using rev_ind; [done|]. rewrite distinct_snoc.
  unfold distinct_step. case_decide as Hk; rewrite ?elem_of_app, ?list_elem_of_singleton; [|tauto].
  split; [tauto|]. intros [Hx| ->]; tauto.
Qed.

Lemma NoDup_distinct l : NoDup (distinct l).
Proof.
  induction l as [|k l IH] using rev_ind; [constructor|]. rewrite distinct_snoc.
  unfold distinct_step. case_decide; [done|]. apply NoDup_app. split_and!; [done| |by apply NoDup_singleton].
  intros x Hx ->%list_elem_of_singleton. done.
Qed.
End distinct.

(** * Accumulators *)

(** The values of a column that are not NULL. *)
Definition values (idx : Z) (rows : list Row) : list Datum :=
  List.filter (fun d => negb (is_nil (d_Value d))) (map (datum_at idx) rows).

Definition int_of (d : Datum) : Z := match d_Value d with VInt64 z => z | _ => 0 end.
Definition sum_of (ds : list Datum) : Z := foldr (fun d z => int_of d + z) 0 ds.

(** What SUM makes of the values of a column that is not of floats: the sum of signed integers,
    wrapped to 64 bits; of any other type, the unsigned integers among them, the first value,
    because [addDatums] has no case for it. *)
Definition summed (ds : list Datum) : Datum :=
  match ds with
  | d :: _ => match d_Type d with TypeInt64 => mkDatum TypeInt64 (VInt64 (swrap64 (sum_of ds))) | _ => d end
  | [] => null_datum
  end.

(** [d] is one of [ds], and none of them is smaller (greater). *)
Definition least (ds : list Datum) (d : Datum) : Prop :=
  d ∈ ds /\ Forall (fun x => val_compare (d_Value x) (d_Value d) <> Lt) ds.
Definition greatest (ds : list Datum) (d : Datum) : Prop :=
  d ∈ ds /\ Forall (fun x => val_compare (d_Value d) (d_Value x) <> Lt) ds.

(** The aggregate of a group's rows; without a value it is NULL, except for COUNT,
    which counts rows. *)
Definition agg_result (agg : AggRequest) (rows : list Row) (d : Datum) : Prop :=
  match Op agg with
  | AggCount => d = mkDatum TypeInt64 (VInt64 (swrap64 (zlen rows)))
  | op =>
      let ds := values (a_ColIdx agg) rows in
      (ds = [] /\ d = null_datum) \/
      (ds <> [] /\ match op with
                   | AggSum => d = summed ds
                   | AggMin => least ds d
                   | _ => greatest ds d
                   end)
  end.

(** The columns the aggregates work on. *)
Definition agg_ok (ts : list Ty) (agg : AggRequest) : Prop :=
  match Op agg with
  | AggCount => a_ColIdx agg < 0 \/ exists t, ts !! Z.to_nat (a_ColIdx agg) = Some t
  | AggSum => 0 <= a_ColIdx agg /\ exists t, ts !! Z.to_nat (a_ColIdx agg) = Some t /\ t <> TypeFloat64
  | _ => 0 <= a_ColIdx agg /\ exists t, ts !! Z.to_nat (a_ColIdx agg) = Some t /\ sortable t
  end.

Lemma swrap64_add a b : swrap64 (swrap64 a + b) = swrap64 (a + b).
Proof.
  unfold swrap64. f_equal.
  replace ((a + 2 ^ 63) mod 2 ^ 64 - 2 ^ 63 + b + 2 ^ 63) with ((a + 2 ^ 63) mod 2 ^ 64 + b) by lia.
  rewrite Zplus_mod_idemp_l. f_equal. lia.
Qed.

Lemma values_snoc idx rows row :
  values idx (rows ++ [row]) =
    values idx rows ++ (if is_nil (d_Value (datum_at idx row)) then [] else [datum_at idx row]).
Proof.
  unfold values. rewrite map_app, List.filter_app. cbn. by destruct (is_nil _).
Qed.

Lemma sum_of_snoc ds d : sum_of (ds ++ [d]) = sum_of ds + int_of d.
Proof. unfold sum_of. induction ds as [|x ds IH]; cbn in *; [lia|]. rewrite IH. lia. Qed.

Lemma values_present ts idx t rows :
  Forall (row_cells ts) rows -> 0 <= idx -> ts !! Z.to_nat idx = Some t ->
  Forall (present t) (values idx rows).
Proof.
  intros Hr Hi Ht. induction Hr as [|row rows Hrow Hr IH]; [constructor|]. unfold values in *. cbn.
  destruct (index_cell _ _ _ _ Hrow Hi Ht) as [_ [E|E]].
  - by rewrite E.
  - rewrite (present_not_nil _ _ E). by constructor.
Qed.

(** Comparison of present values is a total preorder. *)
Lemma val_compare_trans t a b c :
  sortable t -> present t a -> present t b -> present t c ->
  val_compare (d_Value a) (d_Value b) <> Gt -> val_compare (d_Value b) (d_Value c) <> Gt ->
  val_compare (d_Value a) (d_Value c) <> Gt.
Proof.
  intros Ht Ha Hb Hc. destruct (compare_present _ _ _ Ht Ha Hb) as [<- _], (compare_present _ _ _ Ht Hb Hc) as [<- _],
    (compare_present _ _ _ Ht Ha Hc) as [<- _]. apply (po_trans _ (preorder_rank t)).
Qed.

Lemma val_compare_anti t a b :
  sortable t -> present t a -> present t b ->
  val_compare (d_Value b) (d_Value a) = CompOpp (val_compare (d_Value a) (d_Value b)).
Proof.
  intros Ht Ha Hb. destruct (compare_present _ _ _ Ht Ha Hb) as [<- _], (compare_present _ _ _ Ht Hb Ha) as [<- _].
  apply (po_anti _ (preorder_rank t)).
Qed.

(** The new extremum, [p x y] telling that [x] beats [y]. *)
Lemma least_snoc t ds d x :
  sortable t -> Forall (present t) ds -> present t x -> least ds d ->
  least (ds ++ [x]) (match val_compare (d_Value x) (d_Value d) with Lt => x | _ => d end).
Proof.
  intros Ht Hp Hx [Hin Hall]. pose proof (proj1 (Forall_forall _ _) Hp d Hin) as Hd.
  unfold least. rewrite elem_of_app, list_elem_of_singleton, Forall_app, Forall_singleton.
  destruct (val_compare (d_Value x) (d_Value d)) eqn:E; try (split; [by left|by rewrite E]).
  split; [by right|]. split; [|by destruct (compare_present _ _ _ Ht Hx Hx) as [<- _];
    pose proof (po_anti _ (preorder_rank t) (d_Value x) (d_Value x)); destruct (rank_compare _ _ _)].
  rewrite Forall_forall in *. intros y Hy. specialize (Hall y Hy). specialize (Hp y Hy).
  intros Hyx. apply Hall. rewrite (val_compare_anti t d y) by done.
  destruct (val_compare (d_Value d) (d_Value y)) eqn:E2; try done; exfalso.
  all: apply (val_compare_trans t d y x); rewrite ?E2, ?Hyx; try done.
  all: by rewrite (val_compare_anti t x d), E.
Qed.

Lemma greatest_snoc t ds d x :
  sortable t -> Forall (present t) ds -> present t x -> greatest ds d ->
  greatest (ds ++ [x]) (match val_compare (d_Value d) (d_Value x) with Lt => x | _ => d end).
Proof.
  intros Ht Hp Hx [Hin Hall]. pose proof (proj1 (Forall_forall _ _) Hp d Hin) as Hd.
  unfold greatest. rewrite elem_of_app, list_elem_of_singleton, Forall_app, Forall_singleton.
  destruct (val_compare (d_Value d) (d_Value x)) eqn:E; try (split; [by left|by rewrite E]).
  split; [by right|]. split; [|by destruct (compare_present _ _ _ Ht Hx Hx) as [<- _];
    pose proof (po_anti _ (preorder_rank t) (d_Value x) (d_Value x)); destruct (rank_compare _ _ _)].
  rewrite Forall_forall in *. intros y Hy. specialize (Hall y Hy). specialize (Hp y Hy).
  intros Hxy. apply Hall. rewrite (val_compare_anti t y d) by done.
  destruct (val_compare (d_Value y) (d_Value d)) eqn:E2; try done; exfalso.
  all: apply (val_compare_trans t x y d); rewrite ?E2, ?Hxy; try done.
  all: by rewrite (val_compare_anti t d x), E.
Qed.

(** The accumulator after the rows [rows] of a group. *)
Definition acc_after (agg : AggRequest) (rows : list Row) (acc : aggAccumulator) : Prop :=
  acc_op acc = Op agg /\
  match Op agg with
  | AggCount => acc_count acc = swrap64 (zlen rows)
  | op =>
      let ds := values (a_ColIdx agg) rows in
      if hasVal acc then
        ds <> [] /\ match op with
                    | AggSum => acc_sum acc = summed ds
                    | AggMin => least ds (acc_min acc)
                    | _ => greatest ds (acc_max acc)
                    end
      else ds = []
  end.

Lemma acc_after_result agg rows acc : acc_after agg rows acc -> agg_result agg rows (result acc).
Proof.
  intros [Eop Hacc]. unfold agg_result, result. rewrite Eop.
  destruct (Op agg); [by rewrite Hacc|..]; destruct (hasVal acc); cbn; try (by left);
    destruct Hacc as [? ?]; by right.
Qed.

Lemma new_acc_after agg : acc_after agg [] (new_acc (Op agg)).
Proof. split; [done|]. by destruct (Op agg). Qed.

Lemma least_single d : present (d_Type d) d -> sortable (d_Type d) -> least [d] d /\ greatest [d] d.
Proof.
  intros Hd Ht. pose proof (po_anti _ (preorder_rank (d_Type d)) (d_Value d) (d_Value d)) as Ha.
  destruct (compare_present _ _ _ Ht Hd Hd) as [E _]. rewrite E in Ha.
  unfold least, greatest. rewrite !list_elem_of_singleton, !Forall_singleton.
  by destruct (val_compare _ _).
Qed.

Lemma int_of_present d : present TypeInt64 d -> d = mkDatum TypeInt64 (VInt64 (int_of d)) /\ i64 (int_of d).
Proof. intros Hd. present_values. Qed.

Lemma summed_single t d : present t d -> summed [d] = d.
Proof.
  intros Hd. unfold summed. destruct (d_Type d) eqn:Et; try done.
  assert (present TypeInt64 d) as H64 by (destruct Hd as [Hdt Hd]; split; [done|]; by rewrite <- Hdt, Et in Hd).
  destruct (int_of_present _ H64) as [-> Hr]. unfold sum_of, int_of in *. cbn [foldr d_Value].
  by rewrite Z.add_0_r, swrap64_id.
Qed.

Lemma summed_snoc t ds x :
  t <> TypeFloat64 -> ds <> [] -> Forall (present t) ds -> present t x ->
  addDatums (summed ds) x = Ok (summed (ds ++ [x])).
Proof.
  intros Hf Hne Hp Hx. destruct ds as [|d ds]; [done|]. apply Forall_cons in Hp as [[Hd _] _].
  cbn [summed app]. rewrite Hd. destruct t; try done; unfold addDatums; rewrite ?Hd; try done.
  destruct (int_of_present _ Hx) as [-> _]. cbn [d_Type d_Value as_int64 mbind res_bind].
  by rewrite app_comm_cons, sum_of_snoc, swrap64_add.
Qed.

Lemma acc_step ts agg rows acc row :
  agg_ok ts agg -> Forall (row_cells ts) rows -> row_cells ts row -> acc_after agg rows acc ->
  exists acc', accumulate acc (datum_at (a_ColIdx agg) row) = Ok acc' /\ acc_after agg (rows ++ [row]) acc'.
Proof.
  intros Hok Hrows Hrow [Eop Hacc]. unfold accumulate, agg_ok, acc_after in *. rewrite Eop.
  destruct (Op agg) eqn:Ea.
  - eexists. split; [done|]. cbn. split; [congruence|]. by rewrite Hacc, swrap64_add, zlen_app.
  - destruct Hok as (Hi & t & Ht & Hs). rewrite values_snoc.
    destruct (index_cell _ _ _ _ Hrow Hi Ht) as [_ [->|Hd]].
    { cbn. exists acc. by rewrite app_nil_r. }
    pose proof (values_present _ _ _ _ Hrows Hi Ht) as Hp.
    rewrite (present_not_nil _ _ Hd). destruct (hasVal acc) eqn:Eh; cbn [negb].
    + destruct Hacc as [Hne Hsum]. rewrite Hsum, (summed_snoc t) by done. cbn. eexists. split; [done|]. cbn.
      rewrite Eh. split; [done|]. split; [by destruct (values _ _)|done].
    + rewrite Hacc. eexists. split; [done|]. cbn -[summed]. rewrite Datum_DeepCopy_id. split; [done|]. split; [done|].
      by rewrite (summed_single t).
  - destruct Hok as (Hi & t & Ht & Hs). rewrite values_snoc.
    destruct (index_cell _ _ _ _ Hrow Hi Ht) as [_ [->|Hd]].
    { cbn. exists acc. by rewrite app_nil_r. }
    pose proof (values_present _ _ _ _ Hrows Hi Ht) as Hp.
    rewrite (present_not_nil _ _ Hd). destruct (hasVal acc) eqn:Eh; cbn [negb].
    + destruct Hacc as [Hne Hmin]. pose proof (least_snoc t _ _ _ Hs Hp Hd Hmin) as Hnew.
      pose proof (proj1 (Forall_forall _ _) Hp _ (proj1 Hmin)) as Hm.
      destruct (compare_present t _ _ Hs Hd Hm) as (_ & -> & _). cbn.
      destruct (val_compare _ _); eexists; (split; [done|]); cbn; rewrite ?Eh, ?Datum_DeepCopy_id;
        (split; [done|]); (split; [by destruct (values _ _)|done]).
    + rewrite Hacc. eexists. split; [done|]. cbn. rewrite Datum_DeepCopy_id. split; [done|]. split; [done|].
      destruct Hd as [Et Hd]. apply least_single; rewrite Et; done.
  - destruct Hok as (Hi & t & Ht & Hs). rewrite values_snoc.
    destruct (index_cell _ _ _ _ Hrow Hi Ht) as [_ [->|Hd]].
    { cbn. exists acc. by rewrite app_nil_r. }
    pose proof (values_present _ _ _ _ Hrows Hi Ht) as Hp.
    rewrite (present_not_nil _ _ Hd). destruct (hasVal acc) eqn:Eh; cbn [negb].
    + destruct Hacc as [Hne Hmax]. pose proof (greatest_snoc t _ _ _ Hs Hp Hd Hmax) as Hnew.
      pose proof (proj1 (Forall_forall _ _) Hp _ (proj1 Hmax)) as Hm.
      destruct (compare_present t _ _ Hs Hm Hd) as (_ & -> & _). cbn.
      destruct (val_compare _ _); eexists; (split; [done|]); cbn; rewrite ?Eh, ?Datum_DeepCopy_id;
        (split; [done|]); (split; [by destruct (values _ _)|done]).
    + rewrite Hacc. eexists. split; [done|]. cbn. rewrite Datum_DeepCopy_id. split; [done|]. split; [done|].
      destruct Hd as [Et Hd]. apply least_single; rewrite Et; done.
Qed.

Lemma accumulate_all_run ts aggs accs rows row :
  Forall (agg_ok ts) aggs -> Forall (row_cells ts) rows -> row_cells ts row ->
  Forall2 (fun agg acc => acc_after agg rows acc) aggs accs ->
  exists accs', accumulate_all aggs accs row = Ok accs' /\
    Forall2 (fun agg acc => acc_after agg (rows ++ [row]) acc) aggs accs'.
Proof.
  intros Hok Hrows Hrow. revert accs. induction Hok as [|agg aggs Ha Hok IH]; intros accs Hf;
    inversion Hf as [|? acc ? accs' Hacc Hf']; subst; [by exists []|].
  destruct (IH accs' Hf') as (r & Er & Hr). destruct (acc_step ts agg rows acc row Ha Hrows Hrow Hacc) as (acc' & Es & Hs).
  exists (acc' :: r). split; [|by constructor]. cbn [accumulate_all].
  assert (exists v, (if 0 <=? a_ColIdx agg then index (Datums row) (a_ColIdx agg) else Ok null_datum) = Ok v /\
    accumulate acc v = Ok acc') as (v & -> & Ev); [|cbn; rewrite Ev; cbn; by rewrite Er].
  destruct Hacc as [Eop _]. unfold agg_ok in Ha. unfold accumulate in *. rewrite Eop in *.
  destruct (0 <=? a_ColIdx agg) eqn:Ei.
  - apply Z.leb_le in Ei. exists (datum_at (a_ColIdx agg) row). split; [|done].
    assert (exists t, ts !! Z.to_nat (a_ColIdx agg) = Some t) as [t Ht].
    { destruct (Op agg); [destruct Ha as [?|?]; [lia|done]|..]; destruct Ha as (_ & t & ? & _); eauto. }
    by destruct (index_cell _ _ _ _ Hrow Ei Ht) as [-> _].
  - apply Z.leb_gt in Ei. exists null_datum. split; [done|].
    destruct (Op agg); [done|..]; destruct Ha; lia.
Qed.

(** * Groups *)

Section grouping.
Context (ts : list Ty) (groupKeys : list Z) (aggs : list AggRequest).
Implicit Types (rows : list Row) (row : Row) (g : groups_state) (k : list Datum).

(** The group values of a row. *)
Definition keys_of row : list Datum := map (fun gk => datum_at gk row) groupKeys.

(** The rows of a group. *)
Definition group_of k rows : list Row := List.filter (fun row => bool_decide (keys_of row = k)) rows.

Definition key_types : list Ty := map (fun gk => default TypeNull (ts !! Z.to_nat gk)) groupKeys.

(** The group columns exist, and the grouping of these rows by strings is faithful. *)
Definition group_keys_ok : Prop :=
  Forall (fun gk => 0 <= gk /\ exists t, ts !! Z.to_nat gk = Some t /\ groupable t) groupKeys.
Definition groups_ok row : Prop :=
  row_cells ts row /\ ((length groupKeys <= 1)%nat \/ Forall nul_free (keys_of row)).

Context (Hkeys : group_keys_ok) (Haggs : Forall (agg_ok ts) aggs).

Lemma keys_groupable : forallb groupable key_types.
Proof.
  unfold key_types. induction Hkeys as [|gk gks (_ & t & Ht & Hg) Hk IH]; [done|].
  cbn. rewrite Ht. apply andb_prop_intro. split; [done|]. by apply IH.
Qed.

Lemma keys_cells row : row_cells ts row -> Forall2 cell key_types (keys_of row).
Proof.
  intros Hr. unfold key_types, keys_of. induction Hkeys as [|gk gks (Hi & t & Ht & _) Hk IH]; [constructor|].
  cbn. rewrite Ht. constructor; [|by apply IH]. by destruct (index_cell _ _ _ _ Hr Hi Ht).
Qed.

Lemma keys_ok row : groups_ok row -> key_ok key_types (keys_of row).
Proof.
  intros [Hr Hn]. split; [by apply keys_cells|]. unfold key_types. by rewrite length_map.
Qed.

Lemma group_datums_ok row : row_cells ts row -> group_datums groupKeys row = Ok (keys_of row).
Proof.
  intros Hr. unfold keys_of. induction Hkeys as [|gk gks (Hi & t & Ht & _) Hk IH]; [done|].
  cbn. destruct (index_cell _ _ _ _ Hr Hi Ht) as [-> _]. cbn. by rewrite IH.
Qed.

(** The groups after the rows [rows]. *)
Record grouped rows g : Prop := {
  gr_rows : groupRows g = map (fun k => mkRow k 0) (distinct (map keys_of rows));
  gr_accs k s : k ∈ map keys_of rows -> key_string k = Ok s ->
    exists accs, groupMap g !! s = Some accs /\
      Forall2 (fun agg acc => acc_after agg (group_of k rows) acc) aggs accs;
  gr_only s : is_Some (groupMap g !! s) -> exists k, k ∈ map keys_of rows /\ key_string k = Ok s }.

Lemma group_of_snoc k rows row :
  group_of k (rows ++ [row]) = group_of k rows ++ (if bool_decide (keys_of row = k) then [row] else []).
Proof. unfold group_of. rewrite List.filter_app. cbn. by case_bool_decide. Qed.

Lemma group_of_absent k rows : k ∉ map keys_of rows -> group_of k rows = [].
Proof.
  intros Hk. unfold group_of. induction rows as [|row rows IH]; [done|]. cbn in *.
  apply not_elem_of_cons in Hk as [Hne Hk]. rewrite bool_decide_eq_false_2 by congruence. by apply IH.
Qed.

Lemma group_of_cells k rows : Forall groups_ok rows -> Forall (row_cells ts) (group_of k rows).
Proof.
  rewrite !List.Forall_forall. intros Hr row Hin. apply List.filter_In in Hin as [Hin _]. by apply Hr.
Qed.

Lemma group_step_run rows row g :
  Forall groups_ok rows -> groups_ok row -> grouped rows g ->
  exists g', group_step groupKeys aggs row g = Ok g' /\ grouped (rows ++ [row]) g'.
Proof.
  intros Hrows Hrow [Hgr Haccs Honly]. pose proof (proj1 Hrow) as Hcells.
  destruct (key_string_ok _ _ keys_groupable (keys_ok _ Hrow)) as [s Es].
  unfold group_step. rewrite group_datums_ok by done. cbn. rewrite Es. cbn.
  set (k := keys_of row) in *.
  assert (forall k', k' ∈ map keys_of rows -> key_string k' = Ok s -> k' = k) as Hsame.
  { intros k' (row' & -> & Hin)%list_elem_of_fmap Es'. pose proof (proj1 (Forall_forall _ _) Hrows _ Hin) as Hok'.
    eapply group_key_inj; [apply keys_groupable|by apply keys_ok..|done|done]. }
  assert (exists accs, Forall2 (fun agg acc => acc_after agg (group_of k rows) acc) aggs accs /\
    match groupMap g !! s with
    | Some accums => (accums, groupRows g)
    | None => (map (fun agg => new_acc (Op agg)) aggs, groupRows g ++ [mkRow k 0])
    end = (accs, map (fun k => mkRow k 0) (distinct (map keys_of (rows ++ [row]))))) as (accs & Hacc & ->).
  { rewrite map_app. cbn [map]. rewrite distinct_snoc. fold k. unfold distinct_step.
    destruct (groupMap g !! s) as [accums|] eqn:Em.
    - destruct (Honly s) as (k' & Hk' & Es'); [by rewrite Em|]. rewrite (Hsame k' Hk' Es') in Hk'.
      rewrite decide_True by by apply elem_of_distinct. exists accums. rewrite Hgr. split; [|done].
      destruct (Haccs k s Hk' Es) as (accs & E & Hf). rewrite Em in E. by injection E as ->.
    - assert (k ∉ map keys_of rows) as Hnew.
      { intros Hin. destruct (Haccs k s Hin Es) as (accs & E & _). congruence. }
      rewrite decide_False by by rewrite elem_of_distinct. eexists. split; [|by rewrite Hgr, map_app].
      rewrite group_of_absent by done. clear -aggs. induction aggs; constructor; [apply new_acc_after|done]. }
  destruct (accumulate_all_run ts aggs accs (group_of k rows) row) as (accs' & -> & Hacc'); [done|by apply group_of_cells|done..|].
  cbn. eexists. split; [done|]. split; cbn [groupRows groupMap].
  - done.
  - intros k' s' Hk' Es'. destruct (decide (s' = s)) as [->|Hne].
    + rewrite lookup_insert_eq. exists accs'. split; [done|].
      assert (k' = k) as ->.
      { rewrite map_app in Hk'. apply elem_of_app in Hk' as [Hk'| ->%list_elem_of_singleton]; [by apply Hsame|done]. }
      rewrite group_of_snoc. fold k. by rewrite bool_decide_eq_true_2.
    + rewrite lookup_insert_ne by done. rewrite map_app in Hk'.
      apply elem_of_app in Hk' as [Hk'|E%list_elem_of_singleton]; [|subst k'; fold k in Es'; congruence].
      rewrite group_of_snoc. rewrite bool_decide_eq_false_2, app_nil_r; [by apply Haccs|].
      fold k. intros <-. congruence.
  - intros s' Hs'. rewrite map_app. destruct (decide (s' = s)) as [->|Hne].
    + exists k. split; [|done]. apply elem_of_app. right. by apply list_elem_of_singleton.
    + rewrite lookup_insert_ne in Hs' by done. destruct (Honly s' Hs') as (k' & Hk' & E).
      exists k'. split; [|done]. apply elem_of_app. by left.
Qed.
End grouping.

(** * The node *)

Section agg_node.
Context {W C H : Type} (child : Operator W C H) (ts : list Ty) (groupKeys : list Z) (aggs : list AggRequest).
Context (Hkeys : group_keys_ok ts groupKeys) (Haggs : Forall (agg_ok ts) aggs).
Context (I : W -> Prop) (k : nat) (rows : list Row).
Context (Ready : C -> Prop) (Live : list Row -> C -> Prop) (Hc : contract child I k rows Ready Live).
Implicit Types s : agg_state C.

(** The row of a group. *)
Definition group_row (rows : list Row) (key : list Datum) (out : Row) : Prop :=
  RowID out = 0 /\
  exists ds, Datums out = key ++ ds /\
    Forall2 (fun agg d => agg_result agg (group_of groupKeys key rows) d) aggs ds.

(** One row for each distinct tuple of group values. *)
Definition grouped_rows (rows outs : list Row) : Prop :=
  Forall2 (group_row rows) (distinct (map (keys_of groupKeys) rows)) outs.

Definition put (gr ar : Row) : Row := mkRow (Datums gr ++ Datums ar) 0.

Lemma agg_results_run g :
  Forall (groups_ok ts groupKeys) rows -> grouped groupKeys aggs rows g ->
  exists results, agg_results (groupMap g) (groupRows g) = Ok results /\
    length (groupRows g) = length results /\
    grouped_rows rows (zip_with put (groupRows g) results).
Proof.
  intros Hrows [Hgr Haccs _]. rewrite Hgr. unfold grouped_rows.
  assert (Forall (fun key => key ∈ map (keys_of groupKeys) rows) (distinct (map (keys_of groupKeys) rows))) as Hin.
  { apply Forall_forall. intros key. by rewrite elem_of_distinct. }
  clear Hgr.
  induction Hin as [|key keys Hkey _ (results & E & Hl & Hf)]; [exists []; repeat split; constructor|].
  apply list_elem_of_fmap in Hkey as (row & Ekey & Hrow).
  pose proof (proj1 (Forall_forall _ _) Hrows _ Hrow) as Hok.
  destruct (key_string_ok _ _ (keys_groupable ts groupKeys Hkeys) (keys_ok ts groupKeys Hkeys _ Hok)) as [s Es].
  rewrite <- Ekey in Es. destruct (Haccs key s) as (accs & Em & Hacc); [apply list_elem_of_fmap; eauto|done|].
  exists (mkRow (map result accs) 0 :: results). cbn [map agg_results Datums length zip_with].
  rewrite Es. cbn [mbind res_bind]. rewrite E. cbn [mbind res_bind]. rewrite Em.
  split_and!; [done|by rewrite Hl|]. constructor; [|done]. split; [done|]. exists (map result accs). split; [done|].
  clear -Hacc. induction Hacc; constructor; [by apply acc_after_result|done].
Qed.

(** The groups of the rows. *)
Fixpoint group_fold (rest : list Row) (g : groups_state) : ev groups_state :=
  match rest with
  | [] => Ok g
  | row :: rest' => g' ← group_step groupKeys aggs row g; group_fold rest' g'
  end.

Lemma group_fold_ok past rest g :
  Forall (groups_ok ts groupKeys) (past ++ rest) -> grouped groupKeys aggs past g ->
  exists g', group_fold rest g = Ok g' /\ grouped groupKeys aggs (past ++ rest) g'.
Proof.
  revert past g. induction rest as [|row rest IH]; intros past g Hok Hg; [exists g; by rewrite app_nil_r|].
  apply Forall_app in Hok as Hok'. destruct Hok' as [Hok1 Hok2]. inversion Hok2; subst. cbn.
  destruct (group_step_run ts groupKeys aggs Hkeys Haggs past row g) as (g' & -> & Hg'); [done..|]. cbn.
  replace (past ++ row :: rest) with ((past ++ [row]) ++ rest) in * by by rewrite <- app_assoc.
  by apply IH.
Qed.

Lemma agg_loop_run m n w s rest g g' :
  (k <= n)%nat -> (length rest < m)%nat -> I w -> Live rest (g_child s) -> group_fold rest g = Ok g' ->
  runs I (group_loop child groupKeys aggs m n g) w s (fun r s' =>
    r = Ok g' /\ Live [] (g_child s') /\ outputIdx s' = outputIdx s).
Proof.
  intros Hk. revert w s rest g. induction m as [|m IH]; intros w s rest g Hm Hw Hl Hg; [lia|].
  cbn [group_loop]. apply runs_attempt, runs_on. destruct rest as [|row rest]; cbn in Hg.
  - injection Hg as ->. eapply runs_mono; [by eapply c_end|]. intros r c (-> & Hl') w1 Hw1. by apply runs_ret.
  - eapply runs_mono; [by eapply c_next|]. intros r c (-> & Hl') w1 Hw1. cbn [length] in *.
    destruct (group_step groupKeys aggs row g) as [g1|]; [|done]. apply runs_eval.
    eapply runs_mono; [apply (IH _ _ rest); [lia|done..]|]. done.
Qed.

Definition agg_live (outs : list Row) s : Prop :=
  g_opened s = true /\ 0 <= outputIdx s /\ Live [] (g_child s) /\
  length (groups s) = length (aggResults s) /\ (groupKeys <> [] \/ groups s <> []) /\
  outs = zdrop (outputIdx s) (zip_with put (groups s) (aggResults s)).

Lemma not_empty s : groupKeys <> [] \/ groups s <> [] -> (zlen groupKeys =? 0) && (zlen (groups s) =? 0) = false.
Proof.
  intros Hne. destruct groupKeys as [|gk gks], (groups s) as [|gr grs]; rewrite ?zlen_cons, ?zlen_nil; cbn; try done.
  - by destruct Hne.
  - pose proof (zlen_nonneg grs). lia.
  - pose proof (zlen_nonneg gks). destruct (1 + zlen gks =? 0) eqn:E; [lia|done].
  - pose proof (zlen_nonneg gks). destruct (1 + zlen gks =? 0) eqn:E; [lia|done].
Qed.

Lemma agg_next_row s row outs w :
  I w -> agg_live (row :: outs) s ->
  runs I (Agg_Next groupKeys aggs) w s (fun r s' => r = Ok row /\ agg_live outs s') (E := plan_err H).
Proof.
  intros Hw (Ho & Hi & Hl & Hlen & Hne & E). unfold Agg_Next. apply runs_own. rewrite Ho. cbn [negb].
  apply runs_own. rewrite not_empty by done. apply runs_own.
  assert (zip_with put (groups s) (aggResults s) !! Z.to_nat (outputIdx s) = Some row) as Hrow.
  { apply (f_equal (fun l => l !! 0%nat)) in E. unfold zdrop in E. by rewrite lookup_drop, Nat.add_0_r in E. }
  apply lookup_zip_with_Some in Hrow as (gr & ar & -> & Hgr & Har). apply lookup_lt_Some in Hgr as Hlt.
  unfold zlen. rewrite (proj2 (Z.leb_gt _ _)) by lia. apply runs_own. unfold index.
  rewrite (proj2 (Z.ltb_ge _ _)), Hgr by lia. apply runs_eval, runs_own.
  rewrite (proj2 (Z.ltb_ge _ _)), Har by lia. apply runs_eval, runs_update, runs_ret; [done|]. split; [done|].
  unfold agg_live. cbn. split_and!; [done|lia|done|done|done|].
  rewrite <- (zdrop_zdrop 1), <- E by lia. done.
Qed.

Lemma agg_next_end s w :
  I w -> agg_live [] s ->
  runs I (Agg_Next groupKeys aggs) w s (fun r s' => r = Err EOF /\ agg_live [] s') (E := plan_err H).
Proof.
  intros Hw Hlive. pose proof Hlive as (Ho & Hi & Hl & Hlen & Hne & E). unfold Agg_Next. apply runs_own. rewrite Ho.
  cbn [negb]. apply runs_own. rewrite not_empty by done. apply runs_own.
  assert (zlen (groups s) <= outputIdx s) as Hle.
  { apply (f_equal length) in E. unfold zdrop, zlen in *. rewrite length_drop, length_zip_with in E. cbn in E. lia. }
  rewrite (proj2 (Z.leb_le _ _)) by done. by apply runs_fail.
Qed.

Lemma agg_contract :
  Forall (groups_ok ts groupKeys) rows -> groupKeys <> [] \/ rows <> [] ->
  exists outs, grouped_rows rows outs /\
    contract (HashAggNode child groupKeys aggs) I (k + length rows + 1) outs
      (fun s => Ready (g_child s)) agg_live.
Proof.
  intros Hok Hne.
  destruct (group_fold_ok [] rows (mkGroups ∅ [])) as (g & Efold & Hg).
  { done. }
  { split; [done| |]; cbn.
    - by intros key s' ?%not_elem_of_nil.
    - intros s' [? E]. by rewrite lookup_empty in E. }
  destruct (agg_results_run g Hok Hg) as (results & Er & Hlen & Hf).
  eexists. split; [exact Hf|]. constructor; cbn [Open Next Close HashAggNode].
  - intros n w s Hn Hw Hr. unfold Agg_Open. apply runs_bind, runs_on.
    eapply runs_mono; [eapply c_open; eauto with lia|]. intros r c (-> & Hl) w1 Hw1.
    apply runs_update, runs_bind. eapply runs_mono; [eapply (agg_loop_run n n _ _ rows); [lia|lia|done|exact Hl|exact Efold]|].
    intros r s2 (-> & Hl2 & Ei) w2 Hw2. rewrite Er. apply runs_eval, runs_update, runs_update.
    unfold runs. cbn. cbn in Ei. split; [done|]. split; [done|]. unfold agg_live. cbn. rewrite Ei.
    split_and!; [done|lia|done|done| |done].
    destruct Hne as [Hne|Hne]; [by left|]. right. destruct Hg as [-> _ _]. destruct rows as [|row rows']; [done|].
    intros Hnil. apply fmap_nil_inv in Hnil. cbn [app] in Hnil.
    assert (keys_of groupKeys row ∈ distinct (map (keys_of groupKeys) (row :: rows'))) as Hin; [|by rewrite Hnil in Hin; apply not_elem_of_nil in Hin].
    apply elem_of_distinct. by left.
  - intros n w s row outs Hn Hw Hl. by apply agg_next_row.
  - intros n w s Hn Hw Hl. by apply agg_next_end.
  - intros w s outs Hw (_ & _ & Hl & _). unfold Agg_Close. apply runs_update, runs_on. cbn.
    eapply runs_mono; [by eapply c_close|]. by intros r c (-> & ?).
Qed.
End agg_node.
