(* ===== verification/PlannerSpec.v ===== *)
(** What plans promise: a pipeline of clauses returns the rows its clauses select, in
    the order they ask for; the two joins return the same rows; grouping returns one
    row for each distinct key; and an aggregate over nothing never ends. *)

From Stdlib Require Import ZArith Lia Sorted Permutation.
From stdpp Require Import gmap sorting.
From S2P Require Import Prelude OrdMap Monad GoRuntime Datum Expr Operator Nodes Sort Join JoinProof Agg.
Open Scope Z_scope.
Open Scope st_scope.

(** * A query over one table *)

Section pipeline.
Context {W It H : Type} `{GoSort, !GoSortLaws} (heap : TableHeap W It H) (decoder : RowDecoder H).
Context (schema : Schema) (tx : TxContext).

(** SELECT exprs FROM heap WHERE pred ORDER BY keys LIMIT limit OFFSET offset, as
    [Translate] stacks the nodes. *)
Definition query_plan (pred : BoundExpr) (exprs : list ProjectionExpr) (outSchema : Schema)
  (keys : list SortKey) (limit offset : Z) : Operator W (limit_state (sort_state (scan_state (It := It)))) H :=
  let scan := SeqScanNode heap decoder schema tx in
  let filtered := FilterNode scan pred in
  let projected := ProjectNode filtered exprs outSchema in
  let sorted := SortNode projected keys in
  LimitNode sorted limit offset.

(** The node before it is opened. *)
Definition closed_plan : limit_state (sort_state (scan_state (It := It))) :=
  mkLimit (mkSort None [] 0 false) 0 0.

Definition schema_types (s : Schema) : list Ty := map c_Type s.

(** The projection computes rows of the types [outs]. *)
Definition projection_typed (ts outs : list Ty) (exprs : list ProjectionExpr) : Prop :=
  Forall2 (fun pe t => has_type ts (Expr pe) t) exprs outs.

Lemma projection_ok ts outs exprs row :
  projection_typed ts outs exprs -> row_typed ts row ->
  exists out, projects exprs row out /\ row_typed outs out.
Proof.
  intros Hp Hr. unfold projects. cut (exists ds, project_datums exprs row = Ok ds /\ Forall2 present outs ds).
  { intros (ds & E & Hf). by exists (mkRow ds 0). }
  induction Hp as [|pe t exprs outs Ht Hp (ds & E & Hf)]; [exists []; by split; [|constructor]|].
  assert (exists d, Eval (Expr pe) row = Ok d /\ present t d) as (d & Ed & Hd).
  { by apply (eval_typed ts). }
  exists (d :: ds). cbn. rewrite Ed. cbn. rewrite E. by split; [|constructor].
Qed.

Lemma selected_typed ts pred rows :
  Forall (row_typed ts) rows -> Forall (row_typed ts) (List.filter (selects pred) rows).
Proof. rewrite !List.Forall_forall. intros Hr row [Hin _]%List.filter_In. auto. Qed.

Lemma projection_rows ts outs exprs rows :
  projection_typed ts outs exprs -> Forall (row_typed ts) rows ->
  exists projected, Forall2 (projects exprs) rows projected /\ Forall (row_typed outs) projected.
Proof.
  intros Hp. induction 1 as [|row rows Hr Hrs (ps & Hf & Ho)]; [by exists []|].
  destruct (projection_ok _ _ _ _ Hp Hr) as (out & Hout & Ht). exists (out :: ps). by split; constructor.
Qed.

(** A query over one table, WHERE, SELECT list, ORDER BY, LIMIT and OFFSET. Over a
    heap whose scan returns rows of the schema's types without NULL, when the
    predicate is a condition on those types, the projections are typed and the sort
    columns are integers or strings, the plan returns, without error or panic:
    the rows that satisfy the predicate, projected, stably sorted by the keys, cut
    to the limit after the offset. *)
Theorem query_returns pred exprs outSchema keys limit offset I tuples At rows outs :
  let ts := schema_types schema in
  scans heap tx I tuples At -> Forall2 (decodes decoder schema) tuples rows ->
  Forall (row_typed ts) rows -> has_type ts pred TypeBool ->
  projection_typed ts outs exprs -> keys_sortable outs keys ->
  exists projected sorted,
    Forall2 (projects exprs) (List.filter (selects pred) rows) projected /\
    stable_sort_of (ordered_before outs keys) projected sorted /\
    returns (query_plan pred exprs outSchema keys limit offset) I closed_plan
      (limit_rows limit offset sorted).
Proof.
  intros ts Hs Hd Hrows Hpred Hproj Hkeys.
  pose proof (scan_contract heap decoder schema tx I tuples At rows Hs Hd) as C1.
  assert (Forall (evaluates pred) rows) as Hev.
  { eapply Forall_impl; [exact Hrows|]. intros row Hr.
    destruct (eval_typed _ _ _ _ Hpred Hr) as (d & E & _). by exists d. }
  pose proof (filter_contract _ pred _ _ _ _ _ C1 Hev) as C2.
  destruct (projection_rows ts outs exprs _ Hproj (selected_typed ts pred _ Hrows)) as (projected & Hp & Ht).
  pose proof (project_contract _ exprs outSchema _ _ _ _ _ _ C2 Hp) as C3.
  destruct (sort_rows_ok keys outs projected Hkeys Ht) as (sorted & Es & Hst).
  pose proof (sort_contract _ keys _ _ _ _ _ _ C3 Es) as C4.
  pose proof (limit_contract _ limit offset _ _ _ _ _ C4) as C5.
  exists projected, sorted. split_and!; [done|done|]. apply yields_returns.
  eexists _, _, _. split; [exact C5|]. done.
Qed.
End pipeline.

(** * The two joins *)

Section joins.
Context {W SL SR H : Type} (left0 : Operator W SL H) (right0 : Operator W SR H).
Context (I : W -> Prop) (sl : SL) (sr : SR) (L R : list Row).

(** The joins before they are opened. *)
Definition closed_nlj : nlj_state SL SR := mkNlj sl sr no_row false 0 0.
Definition closed_hash : hash_state SL SR := mkHash sl sr ∅ false no_row [] 0 false 0 0 0 0.

(** The nested-loop join is the join. Over children that return the rows [L] and [R],
    when the condition evaluates on every pair and the left rows have columns, it
    returns for each left row, in order, the combined rows that satisfy the condition,
    in the order of the right rows, and in a left join a row padded with NULLs where
    there is none. *)
Theorem nested_loop_join cond isLeftJoin :
  yields left0 I sl L -> yields right0 I sr R ->
  all_decided cond L R -> Forall has_columns L ->
  returns (NestedLoopJoinNode left0 right0 cond isLeftJoin) I closed_nlj
    (join_rows cond isLeftJoin (op_Schema (Operator := right0)) L R).
Proof.
  intros (kl & RL & LL & Cl & Hl) (kr & RR & LR & Cr & Hr) Hd Hc. apply yields_returns.
  eexists _, _, _. split; [by apply (nlj_contract _ _ _ _ _ _ _ _ _ _ _ _ _ Cl Cr)|]. done.
Qed.

End joins.

(** * Grouping *)

Section grouping.
Context {W C H : Type} (child : Operator W C H) (I : W -> Prop) (s0 : C) (rows : list Row).

Definition closed_agg : agg_state C := mkAggState s0 [] [] 0 false.

(** C24: GROUP BY. Over rows of the table's types, NULLs included, with group columns of
    integers, booleans, strings or bytes (without NUL bytes when there are several
    columns; floats are merged when they print alike, [GoFmt.fmt_f_collides]), the node
    returns one row for each distinct tuple of group values, in order of first appearance:
    the values, and for each aggregate COUNT of the group's rows, or MIN or MAX of the
    values of an integer or string column that are not NULL, or SUM over a column that is
    not of floats, which is NULL when there are no values.  SUM adds signed integers only,
    modulo 2^64; over unsigned integers, and over every other type, it is the first value
    of the group ([Agg.summed]). *)
Theorem group_by_rows ts groupKeys aggs :
  yields child I s0 rows ->
  group_keys_ok ts groupKeys -> Forall (agg_ok ts) aggs -> Forall (groups_ok ts groupKeys) rows ->
  groupKeys <> [] \/ rows <> [] ->
  exists outs, grouped_rows groupKeys aggs rows outs /\
    returns (HashAggNode child groupKeys aggs) I closed_agg outs.
Proof.
  intros (k & Ready & Live & Hc & Hr) Hk Ha Hok Hne.
  destruct (agg_contract child ts groupKeys aggs Hk Ha I k rows Ready Live Hc Hok Hne) as (outs & Hf & Hc').
  exists outs. split; [done|]. apply yields_returns. eexists _, _, _. split; [exact Hc'|]. done.
Qed.

(** An aggregate without GROUP BY over no rows never ends: however often [Next] is
    called on the opened node, it returns the row of empty aggregates again, so reading
    the result to its end does not terminate. *)
Theorem empty_aggregate_endless aggs :
  yields child I s0 [] ->
  exists k, forall m n w, (k <= n)%nat -> I w ->
    runs I (Open (Operator := HashAggNode child [] aggs) n ;;; read_all (HashAggNode child [] aggs) m n) w closed_agg
      (fun r _ => r = Err NoFuel) /\
    runs I (Open (Operator := HashAggNode child [] aggs) n ;;; Next (Operator := HashAggNode child [] aggs) n) w closed_agg
      (fun r _ => r = Ok (mkRow (map (fun agg => result (new_acc (Op agg))) aggs) 0)).
Proof.
  intros (k & Ready & Live & Hc & Hr). exists (S k). intros m n w Hn Hw.
  set (row := mkRow (map (fun agg => result (new_acc (Op agg))) aggs) 0).
  assert (forall A (c : st (W * agg_state C) (plan_err H) A) Q,
    (forall w' s', I w' -> g_opened s' = true -> groups s' = [] -> runs I c w' s' Q) ->
    runs I (Open (Operator := HashAggNode child [] aggs) n ;;; c) w closed_agg Q) as Hopen.
  { intros A c Q Hc'. apply runs_bind. cbn [Open HashAggNode]. unfold Agg_Open. apply runs_bind, runs_on.
    eapply runs_mono; [eapply c_open; [exact Hc|lia|done|exact Hr]|]. intros r c1 (-> & Hl) w1 Hw1.
    apply runs_update, runs_bind. eapply runs_mono.
    { by apply (agg_loop_run child [] aggs I k [] Ready Live Hc n n w1 _ [] (mkGroups ∅ []) (mkGroups ∅ [])); [lia|cbn; lia|..]. }
    intros r s2 (-> & _) w2 Hw2. apply runs_eval, runs_update, runs_update. unfold runs at 1. cbn.
    split; [done|]. intros w3 Hw3. by apply Hc'. }
  assert (forall w' s', I w' -> g_opened s' = true -> groups s' = [] ->
    runs I (Next (Operator := HashAggNode child [] aggs) n) w' s'
      (fun r s'' => r = Ok row /\ g_opened s'' = true /\ groups s'' = [])) as Hnext.
  { intros w' s' Hw' Ho Hg. cbn [Next HashAggNode]. unfold Agg_Next. apply runs_own. rewrite Ho. apply runs_own.
    rewrite Hg. apply runs_update, runs_ret; [done|]. by split. }
  split; apply Hopen.
  - intros w' s' Hw' Ho Hg. revert w' s' Hw' Ho Hg. induction m as [|m IH]; intros w' s' Hw' Ho Hg; [done|].
    unfold runs. cbn [read_all]. pose proof (Hnext w' s' Hw' Ho Hg) as HN. unfold runs in HN.
    destruct (Next n (w', s')) as [r [w1 s1]]. destruct HN as (Hw1 & -> & Ho1 & Hg1).
    specialize (IH w1 s1 Hw1 Ho1 Hg1). unfold runs in IH.
    destruct (read_all _ m n (w1, s1)) as [r' [w2 s2]]. by destruct IH as [? ->].
  - intros w' s' Hw' Ho Hg. eapply runs_mono; [by apply Hnext|]. by intros r s'' (-> & _).
Qed.
End grouping.
