(* ===== verification/HeapManager.v ===== *)
(** [internal/engine/sql/heap_manager.go], [mutable_heap.go]: the tables of the heap
    layer as the planner sees them.

    The manager holds one adapter per table over one key-value store; an adapter is the
    planner's [TableHeap] and adds what the heap does not keep: the last transaction
    that wrote, a generation for row numbers, and a count of open scans.  The adapter's
    lock makes each method one step. *)

From Stdlib Require Import ZArith Lia.
From stdpp Require Import gmap.
From Stdlib Require Import ZArith Lia Sorted.
From stdpp Require Import gmap sorting.
From S2P Require Import Prelude OrdMap Key RowKey KvNode Monad KvSpec GoRuntime HeapValue Heap HeapRows HeapProof HeapScan Datum Expr Operator.
From S2P Require Import Nodes.
Open Scope Z_scope.
Open Scope st_scope.

Inductive sql_err (E : Type) : Type :=
| ErrTable (e : table_err E) | ErrRowKey (e : key_err) | ErrRowID (e : rowid_err)
| ErrTableHeapNotFound | ErrTableExists | ErrOpenTable (e : heap_err) | ErrConflict | ErrStaleRowID
| ErrHeapMutationUnsupported | ErrVacuumBlockedByActivePins.
Arguments ErrTable {E} e.
Arguments ErrRowKey {E} e.
Arguments ErrRowID {E} e.
Arguments ErrTableHeapNotFound {E}.
Arguments ErrTableExists {E}.
Arguments ErrOpenTable {E} e.
Arguments ErrConflict {E}.
Arguments ErrStaleRowID {E}.
Arguments ErrHeapMutationUnsupported {E}.
Arguments ErrVacuumBlockedByActivePins {E}.

(** * Values between the layers *)

(** A datum's value as the heap's [any]; the heap knows no floats and booleans. *)
Definition to_any (v : Val) : GoAny :=
  match v with
  | VNil => ANil
  | VInt64 z => AInt64 z
  | VUint64 z => AUint64 z
  | VString s => AString s
  | VBytes s => ABytes s
  | VFloat64 _ | VBool _ => AOther
  end.

Definition row_values_of (row : Row) : list GoAny := map (fun d => to_any (d_Value d)) (Datums row).

Definition engineTypeToKeyKind (t : Ty) : Kind :=
  match t with
  | TypeInt64 => KindInt64
  | TypeUint64 => KindUint64
  | TypeString => KindString
  | _ => KindBytes
  end.

Definition schemaColumnKinds (s : Datum.Schema) : list Kind := map (fun col => engineTypeToKeyKind (c_Type col)) s.

Definition keyValueToDatum (v : GoAny) (t : Ty) : Datum :=
  match t, v with
  | TypeInt64, AInt64 z => mkDatum t (VInt64 z)
  | TypeInt64, AUint64 z => mkDatum t (VInt64 (swrap64 z))
  | TypeUint64, AUint64 z => mkDatum t (VUint64 z)
  | TypeString, AString s => mkDatum t (VString s)
  | TypeBytes, ABytes s => mkDatum t (VBytes s)
  | _, _ => mkDatum TypeNull VNil
  end.

(** [encodeRowToBytes]: [nil] values are an empty tuple. *)
Definition encodeRowToBytes (vals : option (list GoAny)) : res key_err (list byte) :=
  match default [] vals with
  | [] => Ok []
  | vs => k ← EncodeStorageComposite vs; Ok (data k)
  end.

(** [sqlRowDecoder.Decode] *)
Definition decode_row (encodedTuple : list byte) (schema : Datum.Schema) : res key_err Row :=
  if zlen encodedTuple =? 0 then Ok no_row
  else
    k ← ParseStorageCompositeKey encodedTuple (schemaColumnKinds schema);
    rawVals ← DecodeStorageComposite k;
    Ok (Datum.mkRow (zip_with (fun v col => keyValueToDatum v (c_Type col)) rawVals schema) 0).

#[export] Instance sqlRowDecoder E : RowDecoder (sql_err E) := fun encoded schema =>
  match decode_row encoded schema with Ok r => Ok r | Err e => Err (ErrHeap (ErrRowKey e)) end.

(** * The manager *)

Record tableHeapAdapter := mkAdapter {
  ad_table : HeapValue.Schema; lastWriteTxID : Z; heapGeneration : Z; activePins : Z }.

Record heapManager (S : Type) := mkManager { hm_store : S; hm_adapters : gmap Z tableHeapAdapter }.
Arguments mkManager {S}.
Arguments hm_store {S}.
Arguments hm_adapters {S}.

Section manager.
Context {S E : Type} `{KvOps S E} `{GoRuntime}.
Notation manager := (heapManager S).

Definition hm : Type -> Type := st manager (sql_err E).

(** An operation of the heap, on the store. *)
Definition on_store {A} (c : st S (table_err E) A) : hm A := fun w =>
  match c (hm_store w) with
  | (Ok a, s') => (Ok a, mkManager s' (hm_adapters w))
  | (Err e, s') => (Err (ErrTable e), mkManager s' (hm_adapters w))
  end.

(** An update of a table's adapter. *)
Definition set_adapter (id : Z) (f : tableHeapAdapter -> tableHeapAdapter) : hm unit :=
  modify (fun w => mkManager (hm_store w) (alter f id (hm_adapters w))).

Definition adapter_of (id : Z) : hm tableHeapAdapter := fun w =>
  match hm_adapters w !! id with Some a => (Ok a, w) | None => (Err ErrTableHeapNotFound, w) end.

(** [GetTableHeap]: the adapter, which is known by its table's number. *)
Definition GetTableHeap (id : Z) : hm unit := adapter_of id ;;; ret tt.

Definition CreateTableHeap (id : Z) (schema : HeapValue.Schema) : hm unit := fun w =>
  match hm_adapters w !! id with
  | Some _ => (Err ErrTableExists, w)
  | None =>
      match OpenTable (mkSchema id (Columns schema) (PKIndices schema)) with
      | Err e => (Err (ErrOpenTable e), w)
      | Ok t => (Ok tt, mkManager (hm_store w) (<[id := mkAdapter t 0 0 0]> (hm_adapters w)))
      end
  end.

Definition add_pins (n : Z) (a : tableHeapAdapter) : tableHeapAdapter :=
  mkAdapter (ad_table a) (lastWriteTxID a) (heapGeneration a) (swrap64 (activePins a + n)).

(** ** Writing *)

Definition adapter_Insert (id : Z) (tx : TxContext) (row : Row) : hm unit :=
  a <- adapter_of id ;; on_store (Heap.Insert (ad_table a) (WriteTxID tx) (row_values_of row)).

Definition set_last (tx : Z) (a : tableHeapAdapter) : tableHeapAdapter :=
  mkAdapter (ad_table a) tx (heapGeneration a) (activePins a).

(** [InsertBatch] returns the number of rows. *)
Definition InsertBatch (id : Z) (tx : TxContext) (rows : list Row) : hm Z :=
  a <- adapter_of id ;;
  if WriteTxID tx <=? lastWriteTxID a then fail ErrConflict
  else
    for_each rows (fun row => on_store (Heap.Insert (ad_table a) (WriteTxID tx) (row_values_of row))) ;;;
    set_adapter id (set_last (WriteTxID tx)) ;;;
    ret (zlen rows).

(** A stream of inserts: the adapter's lock is held from [BeginInsertStream] until
    [Commit] or [Abort]. *)
Definition BeginInsertStream (id : Z) (tx : TxContext) : hm unit :=
  a <- adapter_of id ;;
  if WriteTxID tx <=? lastWriteTxID a then fail ErrConflict else ret tt.
Definition stream_Append (id : Z) (tx : TxContext) (row : Row) : hm unit := adapter_Insert id tx row.
Definition stream_Commit (id : Z) (tx : TxContext) : hm unit := set_adapter id (set_last (WriteTxID tx)).

(** ** Row mutations *)

Inductive MutationOp : Type := OpDelete | OpUpdate.
Record RowMutation := mkMutation { m_RowID : Z; m_Op : MutationOp; NewValues : list Datum }.

Definition row_id {A} (r : res rowid_err A) : hm A :=
  lift (match r with Ok a => Ok a | Err e => Err (ErrRowID e) end).

(** A mutable adapter has its own generation [gen], 0 when [AsMutable] makes it. *)
Definition checkWriteConflictLocked (gen rowID : Z) : hm unit :=
  '(g, _) <- row_id (DecodeRowID rowID) ;;
  if negb (g =? gen) then fail ErrStaleRowID else ret tt.

Definition applyLocked (mut : RowMutation) : hm unit :=
  '(_, _) <- row_id (DecodeRowID (m_RowID mut)) ;;
  fail ErrHeapMutationUnsupported.

(** [defer m.a.activePins.Add(-1)]: on every way out. *)
Definition pinned {A} (id : Z) (c : hm A) : hm A := fun w =>
  let '(_, w1) := set_adapter id (add_pins 1) w in
  let '(r, w2) := c w1 in
  let '(_, w3) := set_adapter id (add_pins (-1)) w2 in
  (r, w3).

Definition CheckWriteConflict (gen rowID : Z) : hm unit := checkWriteConflictLocked gen rowID.

(** [DeleteByRowID] and [UpdateByRowID], which have the same body. *)
Definition mutate_by_row_id (id gen rowID : Z) : hm unit :=
  pinned id (
    checkWriteConflictLocked gen rowID ;;;
    '(_, _) <- row_id (DecodeRowID rowID) ;;
    fail ErrHeapMutationUnsupported).

Fixpoint apply_mutations (muts : list RowMutation) (rowsAffected : Z) : hm Z :=
  match muts with
  | [] => ret rowsAffected
  | mut :: muts' => applyLocked mut ;;; apply_mutations muts' (rowsAffected + 1)
  end.

Definition BatchMutate (id gen : Z) (muts : list RowMutation) : hm Z :=
  pinned id (
    for_each muts (fun mut => checkWriteConflictLocked gen (m_RowID mut)) ;;;
    apply_mutations muts 0).

Definition BumpGeneration (id gen : Z) : hm Z :=
  a <- adapter_of id ;;
  if negb (activePins a =? 0) then fail ErrVacuumBlockedByActivePins else ret (wrap64 (gen + 1)).

(** * Scans *)

Record rowsAdapter := mkRowsAdapter { ra_rows : enterpriseRows; gen : Z; counter : Z }.

Definition adapter_Scan (id : Z) (tx : TxContext) : hm rowsAdapter :=
  set_adapter id (add_pins 1) ;;;
  a <- adapter_of id ;;
  rows <- cleanup (on_store (Heap.Scan (ad_table a) (ReadTxID tx))) (set_adapter id (add_pins (-1))) ;;
  ret (mkRowsAdapter rows (heapGeneration a) 0).

Definition heap_err_of {A} (r : res (sql_err E) A) : res (plan_err (sql_err E)) A :=
  match r with Ok a => Ok a | Err e => Err (ErrHeap e) end.

Definition rows_Next : st (manager * rowsAdapter) (plan_err (sql_err E)) (list byte * Z) := fun '(w, it) =>
  let '(more, rows) := Heap.Next (ra_rows it) in
  if negb more then (Err EOF, (w, mkRowsAdapter rows (gen it) (counter it)))
  else
    let vals := Heap.Values rows in
    let it' := mkRowsAdapter rows (gen it) (wrap64 (counter it + 1)) in
    match EncodeRowID (gen it) (counter it) with
    | Err e => (Err (ErrHeap (ErrRowID e)), (w, it'))
    | Ok rowID =>
        match encodeRowToBytes vals with
        | Err e => (Err (ErrHeap (ErrRowKey e)), (w, it'))
        | Ok encoded => (Ok (encoded, rowID), (w, it'))
        end
    end.

Definition rows_Close (id : Z) : st (manager * rowsAdapter) (plan_err (sql_err E)) unit := fun '(w, it) =>
  let '(_, w') := set_adapter id (add_pins (-1)) w in
  (Ok tt, (w', mkRowsAdapter (mkRows [] (idx (ra_rows it)) (curVals (ra_rows it))) (gen it) (counter it))).

(** The adapter as the planner's [TableHeap]. *)
Definition adapter_heap (id : Z) : TableHeap manager rowsAdapter (sql_err E) :=
  {| heap_Scan tx := fun w => let '(r, w') := adapter_Scan id tx w in (heap_err_of r, w');
     iter_Next := rows_Next;
     iter_Close := rows_Close id |}.
End manager.

(** * A scan of a table, from the store to the planner's rows: over any store that
    satisfies [KvLaws], the adapter's scan visits the encoded visible rows, without the
    first (the heap's iterator skips it), with row numbers from the table's generation,
    and decoding gives the rows back with the types of the columns. *)

(** * Rows as tuples *)

(** A row of the heap that the planner can read: values of the columns' kinds that the
    storage composite can hold; NULL is not among them. *)
Record readable (es : Datum.Schema) (vals : list GoAny) : Prop := {
  rd_values : Forall storable vals;
  rd_kinds : map any_kind vals = schemaColumnKinds es;
  rd_some : vals <> [] }.

(** Column types that have a kind of their own. *)
Definition stored_type (t : Ty) : bool :=
  match t with TypeInt64 | TypeUint64 | TypeString | TypeBytes => true | _ => false end.

Definition row_number (g c : Z) : Z := g * 2 ^ 32 + (c + 1).

(** The planner's row for the heap row that is the [c]-th of a scan. *)
Definition planner_row (es : Datum.Schema) (g c : Z) (vals : list GoAny) : Row :=
  Datum.mkRow (zip_with (fun v col => keyValueToDatum v (c_Type col)) vals es) (row_number g c).

Fixpoint planner_rows (es : Datum.Schema) (g c : Z) (rs : list (list GoAny)) : list Row :=
  match rs with
  | [] => []
  | vals :: rs' => planner_row es g c vals :: planner_rows es g (c + 1) rs'
  end.

Definition tuple_bytes (vals : list GoAny) : list byte :=
  match encodeRowToBytes (Some vals) with Ok b => b | Err _ => [] end.

Fixpoint scan_tuples (g c : Z) (rs : list (list GoAny)) : list (list byte * Z) :=
  match rs with
  | [] => []
  | vals :: rs' => (tuple_bytes vals, row_number g c) :: scan_tuples g (c + 1) rs'
  end.

Lemma tuple_encoded es vals :
  readable es vals -> encodeRowToBytes (Some vals) = Ok (tuple_bytes vals) /\
  decode_row (tuple_bytes vals) es =
    Ok (Datum.mkRow (zip_with (fun v col => keyValueToDatum v (c_Type col)) vals es) 0).
Proof.
  intros [Hs Hk Hne]. destruct (storage_composite_decodes vals Hne Hs) as (k & E1 & E2 & E3).
  assert (encodeRowToBytes (Some vals) = Ok (data k)) as Eb.
  { unfold encodeRowToBytes. destruct vals; [done|]. cbn [default from_option id]. by rewrite E1. }
  unfold tuple_bytes. rewrite Eb. split; [done|]. unfold decode_row. rewrite Hk in E2.
  destruct (zlen (data k) =? 0) eqn:El; [|by rewrite E2; cbn; rewrite E3].
  apply Z.eqb_eq in El. destruct (data k) as [|b bs]; [|rewrite zlen_cons in El; pose proof (zlen_nonneg bs); lia].
  destruct vals as [|v vals]; [done|]. destruct es as [|c es]; [done|]. exfalso.
  unfold ParseStorageCompositeKey in E2. cbn in E2. done.
Qed.

Lemma scan_decodes {E} es g c rs :
  Forall (readable es) rs ->
  Forall2 (decodes (sqlRowDecoder E) es) (scan_tuples g c rs) (planner_rows es g c rs).
Proof.
  intros Hr. revert c. induction Hr as [|vals rs Hv Hr IH]; intros c; [constructor|]; constructor; [|done].
  destruct (tuple_encoded es vals Hv) as [_ Ed]. unfold decodes. eexists. cbn [fst snd].
  unfold Decode, sqlRowDecoder. rewrite Ed. done.
Qed.

Lemma planner_row_typed es g c vals :
  Forall (fun col => stored_type (c_Type col)) es -> readable es vals ->
  row_typed (map c_Type es) (planner_row es g c vals).
Proof.
  intros Ht [Hs Hk _]. unfold row_typed, planner_row, schemaColumnKinds in *. cbn.
  revert vals Hs Hk. induction Ht as [|col es Hc Ht IH]; intros [|v vals] Hs Hk; try done.
  inversion Hs; subst. cbn in *. injection Hk as Hk1 Hk2. constructor; [|by apply IH].
  unfold present. destruct (c_Type col), v; done.
Qed.

Lemma planner_rows_typed es g c rs :
  Forall (fun col => stored_type (c_Type col)) es -> Forall (readable es) rs ->
  Forall (row_typed (map c_Type es)) (planner_rows es g c rs).
Proof.
  intros Ht Hr. revert c. induction Hr as [|vals rs Hv Hr IH]; intros c; [constructor|]; constructor; [|done].
  by apply planner_row_typed.
Qed.

(** * Scans *)

Section scans.
Context {S E : Type} `{KvLaws S E} `{GoRuntimeLaws}.
Notation manager := (heapManager S).

(** The manager's store holds [l], and the adapters are of the given tables and
    generations. *)
Definition serving (l : list (list byte * list byte)) (n : nat) (tables : list (Z * HeapValue.Schema * Z))
  (w : manager) : Prop :=
  kv_rel (hm_store w) n l /\
  Forall (fun '(id, T, g) => exists a, hm_adapters w !! id = Some a /\ ad_table a = T /\ heapGeneration a = g) tables.

Lemma serving_pins l n tables id p w :
  serving l n tables w ->
  serving l n tables (mkManager (hm_store w) (alter (add_pins p) id (hm_adapters w))).
Proof.
  intros [Hr Ht]. split; [done|]. eapply Forall_impl; [exact Ht|]. intros [[i T] g] (a & Ha & HT & Hg). cbn.
  destruct (decide (i = id)) as [->|Hne].
  - exists (add_pins p a). rewrite lookup_alter_eq, Ha. done.
  - exists a. by rewrite lookup_alter_ne.
Qed.

Context (id : Z) (T : HeapValue.Schema) (g : Z) (HT : schema_ok T) (Hg : 0 <= g <= MaxUint32).
Context (l : list (list byte * list byte)) (n : nat) (tables : list (Z * HeapValue.Schema * Z)).
Context (Hid : In (id, T, g) tables) (d : db) (Hd : table_rep T l d) (es : Datum.Schema).
Notation I := (serving l n tables).

(** The rows a transaction sees, in the order of their keys. *)
Definition visible_rows (tx : Z) (rs : list visibleRow) : Prop :=
  StronglySorted row_lt rs /\
  forall k vals, In (Heap.mkRow k vals) rs <->
    exists pk, pk_ok T pk /\ k = row_prefix T pk /\ visible tx (d pk) = Some vals.

Lemma row_lt_irrefl r : ~ row_lt r r.
Proof. unfold row_lt, bytes_lt. by rewrite bytes_compare_refl. Qed.

Lemma sorted_NoDup rs : StronglySorted row_lt rs -> NoDup rs.
Proof.
  induction 1 as [|r rs Hs IH Hr]; constructor; [|done]. intros Hin.
  rewrite Forall_forall in Hr. by apply (row_lt_irrefl r), Hr.
Qed.

Lemma visible_rows_unique tx rs rs' : visible_rows tx rs -> visible_rows tx rs' -> rs = rs'.
Proof.
  intros [Hs Hin] [Hs' Hin'].
  apply (StronglySorted_unique_strong row_lt); [|done|done|].
  - intros x y _ _ Hxy Hyx. unfold row_lt in *. destruct (row_lt_irrefl x). unfold row_lt. by eapply bytes_lt_trans.
  - apply NoDup_Permutation; [by apply sorted_NoDup..|]. intros [k vals].
    rewrite !list_elem_of_In, Hin, Hin'. done.
Qed.

(** The iterator before the tuples [ts]. *)
Definition scan_at (ts : list (list byte * Z)) (it : rowsAdapter) : Prop :=
  gen it = g /\ 0 <= counter it /\ 0 <= idx (ra_rows it) /\
  exists rest, rest = map row_values (drop (Z.to_nat (idx (ra_rows it) + 1)) (rows (ra_rows it))) /\
    ts = scan_tuples g (counter it) rest /\
    counter it + zlen rest < MaxUint32 /\ Forall (readable es) rest.

Lemma rows_next w it t ts :
  I w -> scan_at (t :: ts) it -> runs I (rows_Next (E := E)) w it (fun r it' => r = Ok t /\ scan_at ts it').
Proof.
  intros Hw (Eg & Hc & Hi & rest & Erest & Ets & Hlen & Hr). destruct it as [[rs i cv] g' c]. cbn in *. subst g'.
  destruct rest as [|vals rest]; [done|]. cbn in Ets. injection Ets as -> ->.
  inversion Hr as [|? ? Hv Hr']; subst.
  destruct (drop (Z.to_nat (i + 1)) rs) as [|r rs'] eqn:Edrop; [done|]. cbn in Erest. injection Erest as -> Erest.
  assert (rs !! Z.to_nat (i + 1) = Some r) as Hlk.
  { rewrite <- (Nat.add_0_r (Z.to_nat (i + 1))), <- lookup_drop, Edrop. done. }
  apply lookup_lt_Some in Hlk as Hlt. pose proof (zlen_nonneg rest). rewrite zlen_cons in Hlen.
  unfold runs, rows_Next, Heap.Next. cbn. unfold zlen. rewrite (proj2 (Z.leb_gt _ _)) by lia. cbn.
  rewrite EncodeRowID_ok by lia. rewrite Hlk. cbn [option_map Values curVals].
  destruct (tuple_encoded es (row_values r) Hv) as [-> _]. split; [done|]. split; [done|].
  unfold scan_at. cbn. unfold MaxUint32 in *. rewrite wrap64_id by (unfold u64; lia).
  split_and!; [done|lia|lia|]. exists rest. split_and!; [|done|lia|done].
  rewrite Erest. f_equal. rewrite (drop_S rs r (Z.to_nat (i + 1))) in Edrop by done. injection Edrop as <-.
  f_equal. lia.
Qed.

Lemma rows_end w it : I w -> scan_at [] it -> runs I (rows_Next (E := E)) w it (fun r it' => r = Err EOF /\ scan_at [] it').
Proof.
  intros Hw (Eg & Hc & Hi & rest & Erest & Ets & Hlen & Hr). destruct it as [[rs i cv] g' c]. cbn in *. subst g'.
  destruct rest as [|vals rest]; [|done].
  assert (zlen rs <= i + 1) as Hle.
  { apply (f_equal length) in Erest. unfold zlen. rewrite length_map, length_drop in Erest. cbn in Erest. lia. }
  unfold runs, rows_Next, Heap.Next. cbn. rewrite (proj2 (Z.leb_le _ _)) by done. cbn.
  split; [done|]. split; [done|]. unfold scan_at. cbn. split_and!; [done|lia|lia|].
  exists []. unfold zlen in *. split_and!; [|done|done|done]. by rewrite drop_ge by lia.
Qed.

Lemma rows_close w it ts : I w -> scan_at ts it -> runs I (rows_Close (E := E) id) w it (fun r _ => r = Ok tt).
Proof. intros Hw _. unfold runs, rows_Close. cbn. split; [|done]. by apply serving_pins. Qed.

Lemma open_scan tx rs w :
  visible_rows tx rs -> Forall (readable es) (map row_values (tl rs)) -> zlen rs < MaxUint32 -> I w ->
  forall wtx, exists w' it, heap_Scan (TableHeap := adapter_heap (E := E) id) (mkTx tx wtx) w = (Ok it, w') /\ I w' /\
    scan_at (scan_tuples g 0 (map row_values (tl rs))) it.
Proof.
  intros Hrs Hread Hlen Hw wtx. pose proof (serving_pins l n tables id 1 w Hw) as Hw1.
  destruct Hw1 as [Hrel Htab]. pose proof Htab as Htab'.
  rewrite Forall_forall in Htab'. specialize (Htab' (id, T, g) ltac:(by apply list_elem_of_In)) as (a & Ha & Ea & Eg).
  destruct (scan_run T HT _ n l d tx Hrel Hd) as (s' & rs' & Es & Hrel' & Hs' & Hin').
  assert (rs' = rs) as -> by (eapply visible_rows_unique; [split; [exact Hs'|exact Hin']|done]).
  eexists _, _. cbn [heap_Scan adapter_heap]. unfold adapter_Scan, bind, set_adapter, modify, adapter_of. cbn in *.
  rewrite Ha. unfold cleanup, on_store. cbn. rewrite Ea, Es. cbn. split; [done|]. split; [by split|].
  unfold scan_at. cbn. split_and!; [done|lia|lia|]. exists (map row_values (tl rs)).
  split_and!; [by destruct rs|done| |done]. unfold zlen in *. rewrite length_map. destruct rs; cbn in *; lia.
Qed.

Lemma adapter_scans tx wtx rs :
  visible_rows tx rs -> Forall (readable es) (map row_values (tl rs)) -> zlen rs < MaxUint32 ->
  scans (adapter_heap (E := E) id) (mkTx tx wtx) I (scan_tuples g 0 (map row_values (tl rs))) scan_at.
Proof.
  intros Hrs Hread Hlen. split; cbn [heap_Scan iter_Next iter_Close adapter_heap].
  - intros w Hw. by apply open_scan.
  - intros w it t ts. apply rows_next.
  - apply rows_end.
  - apply rows_close.
Qed.
End scans.
