(* ===== verification/SchemaCodec.v ===== *)
(** [internal/engine/sql/schema/schema.go]: the binary form of a table's schema, as the
    catalog stores it.  The position in the payload is modelled by the bytes that
    remain.  The theorems: what is encoded decodes to the same schema, and a payload of
    two columns in the format without flags, which the decoder means to tolerate, is
    misread. *)

From Stdlib Require Import ZArith Lia SpecFloat.
From stdpp Require Import base list.
From S2P Require Import Prelude Datum.
Open Scope Z_scope.

Definition flagNotNull : Z := 1.
Definition flagHasDefault : Z := 2.

Inductive schema_err : Type := ErrUnsupportedDefault | ErrTruncated | ErrUnknownDefaultType.

(** ** [byte(t)] and [Type(b)] *)

Definition type_code (t : Ty) : Z :=
  match t with
  | TypeNull => 0 | TypeInt64 => 1 | TypeUint64 => 2 | TypeFloat64 => 3
  | TypeBool => 4 | TypeString => 5 | TypeBytes => 6 | TypeOther n => n
  end.

Definition type_of_code (n : Z) : Ty :=
  match n with
  | 0 => TypeNull | 1 => TypeInt64 | 2 => TypeUint64 | 3 => TypeFloat64
  | 4 => TypeBool | 5 => TypeString | 6 => TypeBytes | _ => TypeOther n
  end.

(** ** [math.Float64bits] and [math.Float64frombits] *)

Definition sign_bit (s : bool) : Z := if s then 2 ^ 63 else 0.

Definition Float64bits (f : spec_float) : Z :=
  match f with
  | S754_zero s => sign_bit s
  | S754_infinity s => sign_bit s + 2047 * 2 ^ 52
  | S754_nan => 2047 * 2 ^ 52 + 2 ^ 51 + 1
  | S754_finite s m e =>
      if Z.pos m <? 2 ^ 52 then sign_bit s + Z.pos m
      else sign_bit s + (e + 1075) * 2 ^ 52 + (Z.pos m - 2 ^ 52)
  end.

Definition Float64frombits (u : Z) : spec_float :=
  let s := 2 ^ 63 <=? u in
  let e := (u / 2 ^ 52) mod 2048 in
  let m := u mod 2 ^ 52 in
  if e =? 0 then match m with Z.pos p => S754_finite s p (-1074) | _ => S754_zero s end
  else if e =? 2047 then if m =? 0 then S754_infinity s else S754_nan
  else match m + 2 ^ 52 with Z.pos p => S754_finite s p (e - 1075) | _ => S754_nan end.

(** ** Encode *)

(** [v, _ := d.Value.(T)]: the zero value when the assertion fails. *)
Definition encodeDatum (d : Datum) : res schema_err (list byte) :=
  let body :=
    match d_Type d with
    | TypeInt64 => Ok (be_encode 8 (wrap64 (match d_Value d with VInt64 v => v | _ => 0 end)))
    | TypeUint64 => Ok (be_encode 8 (match d_Value d with VUint64 v => v | _ => 0 end))
    | TypeFloat64 => Ok (be_encode 8 (Float64bits (match d_Value d with VFloat64 v => v | _ => S754_zero false end)))
    | TypeBool => Ok (match d_Value d with VBool true => [x01] | _ => [x00] end)
    | TypeString =>
        let v := match d_Value d with VString v => v | _ => [] end in
        Ok (be_encode 2 (wrap16 (zlen v)) ++ v)
    | TypeBytes =>
        let v := match d_Value d with VBytes v => v | _ => [] end in
        Ok (be_encode 2 (wrap16 (zlen v)) ++ v)
    | TypeNull => Ok []
    | TypeOther _ => Err ErrUnsupportedDefault
    end in
  b ← body; Ok (z2b (type_code (d_Type d)) :: b).

Definition column_flags (col : Column) : Z :=
  let flags := if NotNull col then Z.lor 0 flagNotNull else 0 in
  match DefaultValue col with Some _ => Z.lor flags flagHasDefault | None => flags end.

Definition encodeColumn (col : Column) : res schema_err (list byte) :=
  let head :=
    be_encode 2 (wrap16 (zlen (Name col))) ++ Name col ++ [z2b (type_code (c_Type col)); z2b (column_flags col)] in
  match DefaultValue col with
  | Some d => b ← encodeDatum d; Ok (head ++ b)
  | None => Ok head
  end.

Fixpoint encodeColumns (cols : list Column) : res schema_err (list byte) :=
  match cols with
  | [] => Ok []
  | col :: cols' => a ← encodeColumn col; b ← encodeColumns cols'; Ok (a ++ b)
  end.

Definition Encode (s : Schema) : res schema_err (list byte) :=
  b ← encodeColumns s; Ok (be_encode 2 (wrap16 (zlen s)) ++ b).

(** ** Decode *)

(** A datum and the bytes after it. *)
Definition decodeDatum (b : list byte) : res schema_err (Datum * list byte) :=
  match b with
  | [] => Err ErrTruncated
  | b0 :: _ =>
      let t := type_of_code (b2z b0) in
      match t with
      | TypeInt64 | TypeUint64 | TypeFloat64 =>
          if zlen b <? 9 then Err ErrTruncated
          else
            let u := be_decode (slice b 1 9) in
            let v := match t with
                     | TypeInt64 => VInt64 (swrap64 u)
                     | TypeUint64 => VUint64 u
                     | _ => VFloat64 (Float64frombits u)
                     end in
            Ok (mkDatum t v, zdrop 9 b)
      | TypeBool =>
          if zlen b <? 2 then Err ErrTruncated
          else Ok (mkDatum t (VBool (negb (be_decode (slice b 1 2) =? 0))), zdrop 2 b)
      | TypeString | TypeBytes =>
          if zlen b <? 3 then Err ErrTruncated
          else
            let l := be_decode (slice b 1 3) in
            if zlen b <? 3 + l then Err ErrTruncated
            else
              let v := slice b 3 (3 + l) in
              Ok (mkDatum t (match t with TypeString => VString v | _ => VBytes v end), zdrop (3 + l) b)
      | TypeNull => Ok (mkDatum t VNil, zdrop 1 b)
      | TypeOther _ => Err ErrUnknownDefaultType
      end
  end.

(** The name, type, flags and default of a column at [rest], and the bytes after it. *)
Definition decodeColumn (rest : list byte) : res schema_err (Column * list byte) :=
  if zlen rest <? 2 then Err ErrTruncated
  else
    let nameLen := be_decode (ztake 2 rest) in
    let rest := zdrop 2 rest in
    if zlen rest <? nameLen then Err ErrTruncated
    else
      let name := ztake nameLen rest in
      match zdrop nameLen rest with
      | [] => Err ErrTruncated
      | [t] => Ok (mkColumn name (type_of_code (b2z t)) false None, [])
      | t :: flags :: rest =>
          let notNull := negb (Z.land (b2z flags) flagNotNull =? 0) in
          if negb (Z.land (b2z flags) flagHasDefault =? 0) then
            '(dv, rest') ← decodeDatum rest;
            Ok (mkColumn name (type_of_code (b2z t)) notNull (Some dv), rest')
          else Ok (mkColumn name (type_of_code (b2z t)) notNull None, rest)
      end.

Fixpoint decodeColumns (n : nat) (rest : list byte) : res schema_err (list Column) :=
  match n with
  | O => Ok []
  | S n' => '(col, rest') ← decodeColumn rest; cols ← decodeColumns n' rest'; Ok (col :: cols)
  end.

Definition Decode (payload : list byte) : res schema_err Schema :=
  if zlen payload <? 2 then Err ErrTruncated
  else decodeColumns (Z.to_nat (be_decode (ztake 2 payload))) (zdrop 2 payload).

(** * Round trip *)

(** A type number is a byte and has one constructor. *)
Definition type_ok (t : Ty) : Prop := match t with TypeOther n => 7 <= n < 256 | _ => True end.

(** A float of the format, in its canonical form. *)
Definition float_ok (f : spec_float) : Prop :=
  match f with
  | S754_finite _ m e =>
      (Z.pos m < 2 ^ 52 /\ e = -1074) \/ (2 ^ 52 <= Z.pos m < 2 ^ 53 /\ -1074 <= e <= 971)
  | _ => True
  end.

(** A default value that the format can hold. *)
Definition default_ok (d : Datum) : Prop :=
  match d_Type d, d_Value d with
  | TypeNull, VNil => True
  | TypeInt64, VInt64 z => i64 z
  | TypeUint64, VUint64 z => u64 z
  | TypeFloat64, VFloat64 f => float_ok f
  | TypeBool, VBool _ => True
  | TypeString, VString s | TypeBytes, VBytes s => zlen s < 2 ^ 16
  | _, _ => False
  end.

Definition column_ok (col : Column) : Prop :=
  zlen (Name col) < 2 ^ 16 /\ type_ok (c_Type col) /\
  match DefaultValue col with Some d => default_ok d | None => True end.

Definition encodable (s : Schema) : Prop := zlen s < 2 ^ 16 /\ Forall column_ok s.

Lemma type_code_inverse t : type_ok t -> type_of_code (b2z (z2b (type_code t))) = t.
Proof.
  rewrite b2z_z2b. intros Ht. destruct t; try done. cbn in *. rewrite Z.mod_small by lia.
  unfold type_of_code. destruct n as [|p|p]; [lia| |lia].
  do 7 (destruct p as [p|p|]; try lia; try done).
Qed.

(** Sign and exponent [h] over a mantissa [m]. *)
Lemma bits_parts h m : 0 <= m < 2 ^ 52 -> (h * 2 ^ 52 + m) / 2 ^ 52 = h /\ (h * 2 ^ 52 + m) mod 2 ^ 52 = m.
Proof.
  intros Hm. rewrite Z.div_add_l, Z.div_small by lia. split; [lia|].
  rewrite Z.add_comm, Z.mod_add, Z.mod_small by lia. done.
Qed.

Lemma frombits_parts (s : bool) e m :
  0 <= e < 2048 -> 0 <= m < 2 ^ 52 ->
  let u := sign_bit s + e * 2 ^ 52 + m in
  (2 ^ 63 <=? u) = s /\ (u / 2 ^ 52) mod 2048 = e /\ u mod 2 ^ 52 = m /\ u64 u.
Proof.
  intros He Hm u. unfold u64.
  assert (u = ((if s then 2048 else 0) + e) * 2 ^ 52 + m) as Eu by (unfold u, sign_bit; destruct s; lia).
  destruct (bits_parts ((if s then 2048 else 0) + e) m Hm) as [Ed Em]. rewrite <- Eu in Ed, Em.
  rewrite Ed, Em. split_and!; [| |done|destruct s; lia|].
  - rewrite Eu. destruct s; [apply Z.leb_le|apply Z.leb_gt]; lia.
  - destruct s.
    + rewrite Z.add_comm. change 2048 with (1 * 2048) at 1. rewrite Z.mod_add, Z.mod_small by lia. done.
    + apply Z.mod_small. lia.
  - destruct s; lia.
Qed.

Lemma float_bits_inverse f : float_ok f -> Float64frombits (Float64bits f) = f /\ u64 (Float64bits f).
Proof.
  intros Hf. unfold Float64bits. destruct f as [s|s| |s m e]; [by destruct s| by destruct s|done|].
  cbn in Hf. destruct (Z.pos m <? 2 ^ 52) eqn:Em; [apply Z.ltb_lt in Em|apply Z.ltb_ge in Em].
  - assert (e = -1074) as -> by lia.
    destruct (frombits_parts s 0 (Z.pos m) ltac:(lia) ltac:(lia)) as (E1 & E2 & E3 & Hu).
    rewrite Z.mul_0_l, Z.add_0_r in *. split; [|done]. unfold Float64frombits. by rewrite E1, E2, E3.
  - assert (2 ^ 52 <= Z.pos m < 2 ^ 53 /\ -1074 <= e <= 971) as [Hm He] by lia.
    destruct (frombits_parts s (e + 1075) (Z.pos m - 2 ^ 52) ltac:(lia) ltac:(lia)) as (E1 & E2 & E3 & Hu).
    split; [|done]. unfold Float64frombits. rewrite E1, E2, E3.
    rewrite (proj2 (Z.eqb_neq _ 0)), (proj2 (Z.eqb_neq _ 2047)) by lia.
    replace (Z.pos m - 2 ^ 52 + 2 ^ 52) with (Z.pos m) by lia. f_equal. lia.
Qed.

(** ** Parts of a payload *)

Lemma tagged_body (x : byte) a rest k :
  zlen a = k ->
  slice (x :: a ++ rest) 1 (1 + k) = a /\ zdrop (1 + k) (x :: a ++ rest) = rest /\
  1 + k <= zlen (x :: a ++ rest).
Proof.
  intros <-. pose proof (zlen_nonneg a). pose proof (zlen_nonneg rest).
  change (x :: a ++ rest) with ([x] ++ a ++ rest). split_and!.
  - rewrite slice_app_r by (change (zlen [x]) with 1; lia). change (zlen [x]) with 1.
    rewrite slice_app_l by lia. apply slice_full; lia.
  - rewrite app_assoc. apply zdrop_app_eq. rewrite zlen_app. done.
  - rewrite !zlen_app. change (zlen [x]) with 1. lia.
Qed.

(** A length and that many bytes. *)
Lemma string_body (x : byte) v rest :
  zlen v < 2 ^ 16 -> let b := x :: (be_encode 2 (wrap16 (zlen v)) ++ v) ++ rest in
  be_decode (slice b 1 3) = zlen v /\ slice b 3 (3 + zlen v) = v /\ zdrop (3 + zlen v) b = rest /\
  3 + zlen v <= zlen b.
Proof.
  intros Hv b. pose proof (zlen_nonneg v) as Hz. unfold b. rewrite <- app_assoc.
  set (n := be_encode 2 (wrap16 (zlen v))). assert (zlen n = 2) as Hn by apply zlen_be_encode.
  destruct (tagged_body x n (v ++ rest) 2 Hn) as (E1 & E2 & E3). change (1 + 2) with 3 in *.
  split_and!.
  - rewrite E1. unfold n, wrap16. rewrite Z.mod_small by lia. apply be_decode_encode. lia.
  - unfold slice. rewrite E2. rewrite ztake_app_eq; [done|lia].
  - rewrite <- (zdrop_zdrop (zlen v) 3), E2 by lia. by apply zdrop_app_eq.
  - rewrite zlen_cons, !zlen_app, Hn. pose proof (zlen_nonneg rest). lia.
Qed.

Lemma encodeDatum_inverse d rest :
  default_ok d -> exists b, encodeDatum d = Ok b /\ decodeDatum (b ++ rest) = Ok (d, rest).
Proof.
  destruct d as [t v]. unfold default_ok. cbn. intros Hd.
  assert (forall (z : Z), u64 z -> be_decode (be_encode 8 z) = z) as H8 by (intros; by apply be_decode_encode).
  destruct t, v; try done; unfold encodeDatum; cbn [d_Type d_Value mbind res_bind].
  all: eexists; split; [done|]; unfold decodeDatum; cbn [app].
  all: rewrite (b2z_z2b _); cbn [type_code]; rewrite Z.mod_small by lia; cbn [type_of_code].
  - done.
  - destruct (tagged_body (z2b 1) (be_encode 8 (wrap64 v)) rest 8) as (E1 & E2 & E3); [apply zlen_be_encode|].
    change (1 + 8) with 9 in *. rewrite (proj2 (Z.ltb_ge _ _)), E1, E2, H8 by (done || apply wrap64_range).
    by rewrite swrap64_wrap64.
  - destruct (tagged_body (z2b 2) (be_encode 8 v) rest 8) as (E1 & E2 & E3); [apply zlen_be_encode|].
    change (1 + 8) with 9 in *. by rewrite (proj2 (Z.ltb_ge _ _)), E1, E2, H8 by done.
  - destruct (float_bits_inverse v Hd) as [Ef Hu].
    destruct (tagged_body (z2b 3) (be_encode 8 (Float64bits v)) rest 8) as (E1 & E2 & E3); [apply zlen_be_encode|].
    change (1 + 8) with 9 in *. rewrite (proj2 (Z.ltb_ge _ _)), E1, E2, H8 by done. by rewrite Ef.
  - destruct v; cbn [app].
    + destruct (tagged_body (z2b 4) [x01] rest 1 eq_refl) as (E1 & E2 & E3). cbn [app] in *. change (1 + 1) with 2 in *.
      by rewrite (proj2 (Z.ltb_ge _ _)), E1, E2 by done.
    + destruct (tagged_body (z2b 4) [x00] rest 1 eq_refl) as (E1 & E2 & E3). cbn [app] in *. change (1 + 1) with 2 in *.
      by rewrite (proj2 (Z.ltb_ge _ _)), E1, E2 by done.
  - destruct (string_body (z2b 5) v rest Hd) as (E1 & E2 & E3 & E4). pose proof (zlen_nonneg v).
    by rewrite !(proj2 (Z.ltb_ge _ _)), E1, E2, E3 by (rewrite ?E1; lia).
  - destruct (string_body (z2b 6) v rest Hd) as (E1 & E2 & E3 & E4). pose proof (zlen_nonneg v).
    by rewrite !(proj2 (Z.ltb_ge _ _)), E1, E2, E3 by (rewrite ?E1; lia).
Qed.

Lemma flags_decode col :
  negb (Z.land (b2z (z2b (column_flags col))) flagNotNull =? 0) = NotNull col /\
  negb (Z.land (b2z (z2b (column_flags col))) flagHasDefault =? 0) =
    match DefaultValue col with Some _ => true | None => false end.
Proof. rewrite b2z_z2b. unfold column_flags. by destruct (NotNull col), (DefaultValue col). Qed.

Lemma encodeColumn_inverse col rest :
  column_ok col -> exists b, encodeColumn col = Ok b /\ decodeColumn (b ++ rest) = Ok (col, rest).
Proof.
  intros (Hn & Ht & Hd). pose proof (zlen_nonneg (Name col)) as Hz. destruct (flags_decode col) as [F1 F2].
  assert (forall tail, let b := (be_encode 2 (wrap16 (zlen (Name col))) ++ Name col ++
      [z2b (type_code (c_Type col)); z2b (column_flags col)]) ++ tail in
    2 <= zlen b /\ be_decode (ztake 2 b) = zlen (Name col) /\ zlen (Name col) <= zlen (zdrop 2 b) /\
    ztake (zlen (Name col)) (zdrop 2 b) = Name col /\
    zdrop (zlen (Name col)) (zdrop 2 b) = z2b (type_code (c_Type col)) :: z2b (column_flags col) :: tail) as Hb.
  { intros tail b. unfold b. rewrite <- app_assoc. pose proof (zlen_nonneg tail).
    assert (zlen (be_encode 2 (wrap16 (zlen (Name col)))) = 2) as H2 by apply zlen_be_encode.
    rewrite zlen_app, ztake_app_eq, zdrop_app_eq, H2 by done. rewrite <- app_assoc.
    rewrite zlen_app, ztake_app_eq, zdrop_app_eq by done. pose proof (zlen_nonneg ([z2b (type_code (c_Type col)); z2b (column_flags col)] ++ tail)).
    split_and!; try done; try lia. unfold wrap16. rewrite Z.mod_small by lia. apply be_decode_encode. lia. }
  unfold encodeColumn. destruct (DefaultValue col) as [d|] eqn:Ed.
  - destruct (encodeDatum_inverse d rest Hd) as (b & Eb & Edec). rewrite Eb. cbn [mbind res_bind].
    eexists. split; [done|]. rewrite <- app_assoc. destruct (Hb (b ++ rest)) as (L1 & E1 & L2 & E2 & E3).
    unfold decodeColumn. rewrite (proj2 (Z.ltb_ge _ _)), E1, (proj2 (Z.ltb_ge _ _)), E2, E3 by done.
    rewrite F1, F2, Edec, type_code_inverse by done. cbn. rewrite <- Ed. by destruct col.
  - eexists. split; [done|]. destruct (Hb rest) as (L1 & E1 & L2 & E2 & E3).
    unfold decodeColumn. rewrite (proj2 (Z.ltb_ge _ _)), E1, (proj2 (Z.ltb_ge _ _)), E2, E3 by done.
    rewrite F1, F2, type_code_inverse by done. rewrite <- Ed. by destruct col.
Qed.

Lemma encodeColumns_inverse cols :
  Forall column_ok cols -> exists b, encodeColumns cols = Ok b /\ decodeColumns (length cols) b = Ok cols.
Proof.
  induction 1 as [|col cols Hc Hcs (b & Eb & Ed)]; [by exists []|].
  destruct (encodeColumn_inverse col b Hc) as (a & Ea & Edec).
  exists (a ++ b). cbn. rewrite Ea. cbn. rewrite Eb. cbn. split; [done|]. rewrite Edec. cbn. by rewrite Ed.
Qed.

(** Schemas survive the catalog. A schema of fewer than 2^16 columns, with names and
    default strings shorter than 2^16 bytes and default values of their declared types
    (integers in range, floats in canonical form), encodes, and decodes to itself. *)
Theorem schema_roundtrip s :
  encodable s -> exists payload, Encode s = Ok payload /\ Decode payload = Ok s.
Proof.
  intros [Hl Hc]. destruct (encodeColumns_inverse s Hc) as (b & Eb & Ed). pose proof (zlen_nonneg s).
  unfold Encode. rewrite Eb. eexists. split; [done|]. unfold Decode.
  assert (zlen (be_encode 2 (wrap16 (zlen s))) = 2) as H2 by apply zlen_be_encode.
  rewrite zlen_app, ztake_app_eq, zdrop_app_eq, H2 by done. pose proof (zlen_nonneg b).
  rewrite (proj2 (Z.ltb_ge _ _)) by lia. unfold wrap16. rewrite Z.mod_small, be_decode_encode by lia.
  unfold zlen. by rewrite Nat2Z.id.
Qed.

(** The format the decoder means to tolerate: a type and no flags for each column. *)
Definition old_column (col : Column) : list byte :=
  be_encode 2 (wrap16 (zlen (Name col))) ++ Name col ++ [z2b (type_code (c_Type col))].
Definition old_format (s : Schema) : list byte :=
  be_encode 2 (wrap16 (zlen s)) ++ concat (map old_column s).

(** Payloads without flags are read only when they have one column: one column
    decodes, but with two columns of type [INT] named [a] and [b] the decoder takes the
    next name's length for the first column's flags, and fails. *)
Theorem old_format_misread :
  let a := mkColumn [x61] TypeInt64 false None in
  let b := mkColumn [x62] TypeInt64 false None in
  Decode (old_format [a]) = Ok [a] /\ Decode (old_format [a; b]) = Err ErrTruncated.
Proof. by vm_compute. Qed.
