(* ===== verification/TxManager.v ===== *)
(** [internal/engine/sql/tx/tx.go]: the transaction manager.

    Its two counters are atomics, and any number of goroutines call its methods, so the
    model is a step relation: one step is one atomic access by one goroutine.  What
    holds under every interleaving is that a read transaction sees every write number
    handed out before it began and that write numbers ascend; read numbers do not. *)

From Stdlib Require Import ZArith Lia Sorted.
From stdpp Require Import gmap.
From S2P Require Import Prelude.
Open Scope Z_scope.

Record Manager := mkTxManager { nextRead : Z; nextWrite : Z }.

Definition NewManager (readBase writeBase : Z) : Manager := mkTxManager readBase writeBase.

(** [NextWriteTx] is one atomic addition. *)
Definition NextWriteTx (m : Manager) : Z * Manager :=
  let w := wrap64 (nextWrite m + 1) in (w, mkTxManager (nextRead m) w).

Definition CurrentReadTx (m : Manager) : Z := nextRead m.
Definition CurrentWriteTx (m : Manager) : Z := nextWrite m.

(** Where a goroutine is in [NextReadTx]: before the addition, before the load, and
    before the store of the loop's end. *)
Inductive read_pc : Type :=
| RAdd
| RLoad (r : Z)
| RStore (w : Z)
| RDone (r : Z).

(** One atomic access of [NextReadTx]. *)
Definition read_step (pc : read_pc) (m : Manager) : read_pc * Manager :=
  match pc with
  | RAdd => let r := wrap64 (nextRead m + 1) in (RLoad r, mkTxManager r (nextWrite m))
  | RLoad r => let w := nextWrite m in (if w <=? r then RDone r else RStore w, m)
  | RStore w => (RAdd, mkTxManager w (nextWrite m))
  | RDone r => (RDone r, m)
  end.

(** The call without interference, with fuel for the loop's steps. *)
Fixpoint run_read (n : nat) (pc : read_pc) (m : Manager) : option Z * Manager :=
  match pc with
  | RDone r => (Some r, m)
  | _ => match n with
         | O => (None, m)
         | S n' => let '(pc', m') := read_step pc m in run_read n' pc' m'
         end
  end.

Definition NextReadTx (n : nat) (m : Manager) : option Z * Manager := run_read n RAdd m.

(** * Without interference *)

(** [NextReadTx] terminates and is visible. Alone, it returns within five atomic
    steps a number that is at least the last write number and greater than the last
    read number. *)
Theorem next_read_terminates m n :
  0 <= nextRead m < 2 ^ 64 - 1 -> 0 <= nextWrite m < 2 ^ 64 - 1 -> (5 <= n)%nat ->
  exists r m', NextReadTx n m = (Some r, m') /\ nextWrite m <= r /\ nextRead m < r /\
    nextRead m' = r /\ nextWrite m' = nextWrite m.
Proof.
  destruct m as [rd wr]. cbn. intros Hr Hw Hn. do 5 (destruct n as [|n]; [lia|]).
  assert (wrap64 (rd + 1) = rd + 1) as E1 by (apply wrap64_id; unfold u64; lia).
  assert (wrap64 (wr + 1) = wr + 1) as E2 by (apply wrap64_id; unfold u64; lia).
  unfold NextReadTx. cbn. rewrite E1. destruct (Z.leb_spec wr (rd + 1)).
  - exists (rd + 1), (mkTxManager (rd + 1) wr). destruct n; split_and!; done || (cbn; lia).
  - cbn. rewrite E2, (proj2 (Z.leb_le wr (wr + 1))) by lia.
    exists (wr + 1), (mkTxManager (wr + 1) wr). destruct n; split_and!; done || (cbn; lia).
Qed.

(** * Any number of goroutines *)

(** A goroutine in [NextReadTx], with the write number [since] that had been handed out
    when the call began; the numbers that were returned, newest first. *)
Record reader := mkReader { since : Z; pc : read_pc }.
Record system := mkSystem {
  man : Manager; readers : gmap nat reader; read_ids : list Z; write_ids : list Z }.

Inductive step : system -> system -> Prop :=
| step_begin s i :
    readers s !! i = None ->
    step s (mkSystem (man s) (<[i := mkReader (nextWrite (man s)) RAdd]> (readers s)) (read_ids s) (write_ids s))
| step_read s i rd pc' m' :
    readers s !! i = Some rd -> read_step (pc rd) (man s) = (pc', m') ->
    step s (mkSystem m' (<[i := mkReader (since rd) pc']> (readers s)) (read_ids s) (write_ids s))
| step_return s i rd r :
    readers s !! i = Some rd -> pc rd = RDone r ->
    step s (mkSystem (man s) (delete i (readers s)) (r :: read_ids s) (write_ids s))
| step_write s w m' :
    NextWriteTx (man s) = (w, m') -> nextWrite (man s) < 2 ^ 64 - 1 ->
    step s (mkSystem m' (readers s) (read_ids s) (w :: write_ids s)).

Definition start (readBase writeBase : Z) : system := mkSystem (NewManager readBase writeBase) ∅ [] [].

Definition reachable (readBase writeBase : Z) : system -> Prop := rtc step (start readBase writeBase).

(** What a goroutine has seen is not newer than the counter, and a finished one returns
    at least what had been handed out when it began. *)
Definition reader_ok (m : Manager) (rd : reader) : Prop :=
  since rd <= nextWrite m /\
  match pc rd with
  | RDone r => since rd <= r
  | RStore w => since rd <= w <= nextWrite m
  | _ => True
  end.

Record invariant (writeBase : Z) (s : system) : Prop := {
  iv_base : 0 <= writeBase <= nextWrite (man s);
  iv_bound : nextWrite (man s) < 2 ^ 64;
  iv_readers i rd : readers s !! i = Some rd -> reader_ok (man s) rd;
  iv_writes : StronglySorted (fun x y => y < x) (nextWrite (man s) + 1 :: write_ids s);
  iv_above : Forall (fun w => writeBase < w) (write_ids s) }.

Lemma reader_ok_mono m m' rd : nextWrite m <= nextWrite m' -> reader_ok m rd -> reader_ok m' rd.
Proof. unfold reader_ok. intros Hm [H1 H2]. destruct (pc rd); lia. Qed.

Lemma invariant_step b s s' : step s s' -> invariant b s -> invariant b s'.
Proof.
  intros Hstep [Hb Hbound Hrd Hw Ha]. inversion Hstep as [? i Hn|? i rd pc' m' Hi E|? i rd r Hi E|? w m' E Hlt]; subst;
    cbn in *.
  - split; cbn; try done. intros j rd. destruct (decide (j = i)) as [->|].
    + rewrite lookup_insert_eq. intros [= <-]. unfold reader_ok. cbn. lia.
    + rewrite lookup_insert_ne by done. apply Hrd.
  - pose proof (Hrd i rd Hi) as [H1 H2].
    assert (nextWrite m' = nextWrite (man s) /\ reader_ok m' (mkReader (since rd) pc')) as [Em Hok].
    { unfold reader_ok in *. destruct (pc rd) as [|r|w|r]; cbn in E; injection E as <- <-; cbn in *; try (split; [done|lia]).
      destruct (Z.leb_spec (nextWrite (man s)) r); cbn; lia. }
    split; cbn; rewrite ?Em; try done. intros j rd'. destruct (decide (j = i)) as [->|].
    + rewrite lookup_insert_eq. by intros [= <-].
    + rewrite lookup_insert_ne by done. intros Hj. apply (reader_ok_mono (man s)); [lia|by eapply Hrd].
  - split; cbn; try done. intros j rd' [_ Hj]%lookup_delete_Some. by eapply Hrd.
  - injection E as <- <-. rewrite wrap64_id in * by (unfold u64; lia). cbn in *.
    inversion Hw as [|? ? Hs Hf]; subst. split; cbn.
    + lia.
    + lia.
    + intros j rd Hj. apply (reader_ok_mono (man s)); [cbn; lia|by eapply Hrd].
    + constructor; [constructor; [done|exact Hf]|]. constructor; [lia|].
      eapply Forall_impl; [exact Hf|]. cbn. intros. lia.
    + constructor; [lia|done].
Qed.

Lemma invariant_reachable rb wb s :
  0 <= wb < 2 ^ 64 -> reachable rb wb s -> invariant wb s.
Proof.
  intros Hwb Hr. unfold reachable in Hr. remember (start rb wb) as s0 eqn:E0.
  assert (invariant wb s0) as H0.
  { subst. split; cbn; [lia|lia|by intros; rewrite lookup_empty in *|by repeat constructor|constructor]. }
  clear E0. induction Hr as [|s0 s1 s2 Hstep Hr IH]; [done|]. apply IH. by eapply invariant_step.
Qed.

(** C26: Under every interleaving of calls from any number of goroutines, write numbers
    strictly ascend, and a finished [NextReadTx] has a number that is at least every
    write number handed out before it began. *)
Theorem read_sees_writes readBase writeBase s i rd r :
  0 <= writeBase < 2 ^ 64 -> reachable readBase writeBase s ->
  StronglySorted (fun x y => y < x) (write_ids s) /\
  (readers s !! i = Some rd -> pc rd = RDone r -> since rd <= r).
Proof.
  intros Hb Hr. pose proof (invariant_reachable _ _ _ Hb Hr) as Hi. split.
  - pose proof (iv_writes _ _ Hi) as Hw. by inversion Hw.
  - intros Hrd Epc. pose proof (iv_readers _ _ Hi i rd Hrd) as [_ H2]. by rewrite Epc in H2.
Qed.

(** ** Schedules *)

Inductive action : Type := ABegin (i : nat) | ARead (i : nat) | AReturn (i : nat) | AWrite.

(** The step an action makes, if it is possible. *)
Definition act (a : action) (s : system) : option system :=
  match a with
  | ABegin i =>
      match readers s !! i with
      | None => Some (mkSystem (man s) (<[i := mkReader (nextWrite (man s)) RAdd]> (readers s)) (read_ids s) (write_ids s))
      | Some _ => None
      end
  | ARead i =>
      rd ← readers s !! i;
      let '(pc', m') := read_step (pc rd) (man s) in
      Some (mkSystem m' (<[i := mkReader (since rd) pc']> (readers s)) (read_ids s) (write_ids s))
  | AReturn i =>
      rd ← readers s !! i;
      match pc rd with
      | RDone r => Some (mkSystem (man s) (delete i (readers s)) (r :: read_ids s) (write_ids s))
      | _ => None
      end
  | AWrite =>
      if nextWrite (man s) <? 2 ^ 64 - 1 then
        let '(w, m') := NextWriteTx (man s) in
        Some (mkSystem m' (readers s) (read_ids s) (w :: write_ids s))
      else None
  end.

Definition schedule (acts : list action) (s : system) : option system :=
  foldl (fun o a => s ← o; act a s) (Some s) acts.

Lemma act_step a s s' : act a s = Some s' -> step s s'.
Proof.
  destruct a as [i|i|i|]; cbn.
  - destruct (readers s !! i) eqn:E; [done|]. intros [= <-]. by apply step_begin.
  - destruct (readers s !! i) as [rd|] eqn:E; [|done]. cbn.
    destruct (read_step (pc rd) (man s)) as [pc' m'] eqn:Es. intros [= <-]. by eapply step_read.
  - destruct (readers s !! i) as [rd|] eqn:E; [|done]. cbn.
    destruct (pc rd) eqn:Ep; try done. intros [= <-]. by eapply step_return.
  - destruct (nextWrite (man s) <? 2 ^ 64 - 1) eqn:El; [|done]. intros [= <-].
    eapply step_write; [done|]. by apply Z.ltb_lt.
Qed.

Lemma schedule_reachable acts s s' : schedule acts s = Some s' -> rtc step s s'.
Proof.
  unfold schedule. revert s. induction acts as [|a acts IH]; intros s; cbn; [by intros [= <-]|].
  destruct (act a s) as [s1|] eqn:E.
  - intros Hs. eapply rtc_l; [by eapply act_step|]. by apply IH.
  - intros Hs. exfalso. clear IH. revert Hs. by induction acts.
Qed.

(** The goroutine 0 stores an old write number after goroutine 1 has moved on. *)
Definition overtaking : list action :=
  [ABegin 0; ARead 0; AWrite; AWrite; ARead 0; AWrite;
   ABegin 1; ARead 1; ARead 1; ARead 1; ARead 1; ARead 1; AReturn 1;
   ARead 0; ARead 0; ARead 0; AReturn 0;
   ABegin 2; ARead 2; ARead 2; AReturn 2].

(** Read numbers neither ascend nor are unique: with three concurrent calls of
    [NextReadTx] the numbers 4, 3 and 4 are returned, in this order, although the
    manager documents that it allocates monotonically increasing numbers and is safe
    for concurrent use. *)
Theorem read_numbers_repeat :
  exists s, reachable 0 0 s /\ read_ids s = [4; 3; 4].
Proof.
  destruct (schedule overtaking (start 0 0)) as [s|] eqn:E; [|by vm_compute in E].
  exists s. split; [by eapply schedule_reachable|]. vm_compute in E. by injection E as <-.
Qed.
