(* ===== verification/Binder.v ===== *)
(** [internal/engine/sql/planner/binder.go] and [join.go]: from the syntax of a query to
    bound expressions.

    The syntax tree is the parser library's; [sql_expr] and [select_expr] have the node
    types the code tells apart, and one constructor for every other.  What the
    code uses of Go's text functions is the class [GoText]. *)

From Stdlib Require Import ZArith Lia SpecFloat.
From Stdlib Require Import Strings.String.
From stdpp Require Import base list.
From S2P Require Import Prelude GoFmt Datum Expr Operator Nodes.
Open Scope Z_scope.

(** [strings.ToLower], [strings.ToUpper] and [fmt.Sscanf(s, "%f", &f)], which leaves 0
    when it fails. *)
Class GoText := { ToLower : list byte -> list byte; ToUpper : list byte -> list byte; Sscanf_f : list byte -> spec_float }.

(** * Syntax *)

Inductive lit_type : Type := IntVal | StrVal | FloatVal | OtherVal.
Inductive comparison_operator : Type := EqualOp | LessThanOp | GreaterThanOp | InOp | OtherOp.

#[export] Instance comparison_operator_eq_dec : EqDecision comparison_operator.
Proof. solve_decision. Defined.

Inductive sql_expr : Type :=
| ColName (qualifier name : list byte)
| Literal (typ : lit_type) (val : list byte)
| ComparisonExpr (op : comparison_operator) (l r : sql_expr)
| BetweenExpr (l from to : sql_expr)
| AndExpr (l r : sql_expr)
| OrExpr (l r : sql_expr)
| ValTuple (es : list sql_expr)
| FuncExpr (name : list byte) (args : list sql_expr)
| CountStar
| OtherExpr.

Inductive select_expr : Type := AliasedExpr (e : sql_expr) (alias : list byte) | OtherSelect.

Inductive bind_err : Type := ErrUnsupportedFeature | ErrAmbiguousColumn | ErrColumnNotFound.

(** * Numbers in text: [fmt.Sscanf(s, "%d", &i)] *)

Definition is_digit (b : byte) : bool := (48 <=? b2z b) && (b2z b <=? 57).
Definition is_blank (b : byte) : bool := existsb (fun c => bool_decide (b = c)) [x09; x0b; x0c; x0d; x20].

Fixpoint drop_blanks (s : list byte) : list byte :=
  match s with b :: s' => if is_blank b then drop_blanks s' else s | [] => [] end.

Fixpoint digits_value (acc : Z) (s : list byte) : Z :=
  match s with
  | b :: s' => if is_digit b then digits_value (acc * 10 + (b2z b - 48)) s' else acc
  | [] => acc
  end.

(** Blanks, a sign, digits; what follows is ignored.  [None] is an error: no digits, or a
    number out of range. *)
Definition Sscanf_d (s : list byte) : option Z :=
  let s := drop_blanks s in
  let '(neg, s) :=
    match s with
    | b :: s' => if bool_decide (b = x2d) then (true, s')
                 else if bool_decide (b = x2b) then (false, s') else (false, s)
    | [] => (false, s)
    end in
  match s with
  | b :: _ =>
      if is_digit b then
        let v := if neg : bool then - digits_value 0 s else digits_value 0 s in
        if (- 2 ^ 63 <=? v) && (v <? 2 ^ 63) then Some v else None
      else None
  | [] => None
  end.

Definition parseIntOrZero (s : list byte) : Z := default 0 (Sscanf_d s).

Section binder.
Context `{GoText}.

Definition parseFloatOrZero (s : list byte) : spec_float := Sscanf_f s.

(** * Columns *)

Definition same_name (a b : list byte) : bool := bool_decide (ToLower a = ToLower b).

(** The loop of [ResolveColumn] over a name without qualifier. *)
Fixpoint resolve_unique (name : list byte) (fs : PlannerSchema) (i matchIdx : Z) : res bind_err Z :=
  match fs with
  | [] => if matchIdx =? -1 then Err ErrColumnNotFound else Ok matchIdx
  | f :: fs' =>
      if same_name (Name (f_Column f)) name then
        if negb (matchIdx =? -1) then Err ErrAmbiguousColumn else resolve_unique name fs' (i + 1) i
      else resolve_unique name fs' (i + 1) matchIdx
  end.

Fixpoint resolve_qualified (qualifier name : list byte) (fs : PlannerSchema) (i : Z) : res bind_err Z :=
  match fs with
  | [] => Err ErrColumnNotFound
  | f :: fs' =>
      if same_name (TableAlias f) qualifier && same_name (Name (f_Column f)) name then Ok i
      else resolve_qualified qualifier name fs' (i + 1)
  end.

Definition ResolveColumn (ps : PlannerSchema) (qualifier name : list byte) : res bind_err Z :=
  if bool_decide (ToLower qualifier = []) then resolve_unique name ps 0 (-1)
  else resolve_qualified qualifier name ps 0.

(** [colIndex], which is case sensitive; -1 is not found. *)
Fixpoint colIndex_from (name : list byte) (schema : Schema) (i : Z) : Z :=
  match schema with
  | [] => -1
  | col :: schema' => if bool_decide (Name col = name) then i else colIndex_from name schema' (i + 1)
  end.
Definition colIndex (name : list byte) (schema : Schema) : Z := colIndex_from name schema 0.

(** The type of a resolved column. *)
Definition field_type (ps : PlannerSchema) (i : Z) : Ty :=
  default TypeNull ((fun f => c_Type (f_Column f)) <$> ps !! Z.to_nat i).

(** * Literals *)

Definition literalToDatum (typ : lit_type) (val : list byte) : Datum :=
  match typ with
  | IntVal => mkDatum TypeInt64 (VInt64 (parseIntOrZero val))
  | FloatVal => mkDatum TypeFloat64 (VFloat64 (parseFloatOrZero val))
  | StrVal => mkDatum TypeString (VString val)
  | OtherVal => mkDatum TypeNull VNil
  end.

Definition bindLiteral (typ : lit_type) (val : list byte) : res bind_err BoundExpr :=
  match typ with
  | OtherVal => Err ErrUnsupportedFeature
  | _ => Ok (literalExpr (literalToDatum typ val))
  end.

Fixpoint literal_values (es : list sql_expr) : res bind_err (list Datum) :=
  match es with
  | [] => Ok []
  | Literal typ val :: es' => ds ← literal_values es'; Ok (literalToDatum typ val :: ds)
  | _ :: _ => Err ErrUnsupportedFeature
  end.

Definition bindInPredicate (l r : sql_expr) (ps : PlannerSchema) : res bind_err BoundExpr :=
  match l with
  | ColName qualifier name =>
      idx ← ResolveColumn ps qualifier name;
      match r with
      | ValTuple es => values ← literal_values es; Ok (InPredicate idx values)
      | _ => Err ErrUnsupportedFeature
      end
  | _ => Err ErrUnsupportedFeature
  end.

Definition bindBetweenPredicate (l from to : sql_expr) (ps : PlannerSchema) : res bind_err BoundExpr :=
  match l with
  | ColName qualifier name =>
      idx ← ResolveColumn ps qualifier name;
      match from, to with
      | Literal t1 v1, Literal t2 v2 =>
          Ok (BetweenPredicate idx (literalToDatum t1 v1) (literalToDatum t2 v2))
      | _, _ => Err ErrUnsupportedFeature
      end
  | _ => Err ErrUnsupportedFeature
  end.

Definition comparisonOpString (op : comparison_operator) : string :=
  match op with EqualOp => "=" | LessThanOp => "<" | GreaterThanOp => ">" | _ => "?" end.

(** * Expressions *)

Fixpoint BindWherePlanner (e : sql_expr) (ps : PlannerSchema) : res bind_err BoundExpr :=
  match e with
  | ComparisonExpr op l r =>
      if bool_decide (op = InOp) then bindInPredicate l r ps
      else
        le ← BindWherePlanner l ps;
        re ← BindWherePlanner r ps;
        Ok (cmpExpr le re (comparisonOpString op))
  | BetweenExpr l from to => bindBetweenPredicate l from to ps
  | AndExpr l r =>
      le ← BindWherePlanner l ps;
      re ← BindWherePlanner r ps;
      Ok (boolExpr le re "and")
  | OrExpr l r =>
      le ← BindWherePlanner l ps;
      re ← BindWherePlanner r ps;
      Ok (boolExpr le re "or")
  | ColName qualifier name =>
      idx ← ResolveColumn ps qualifier name;
      Ok (colRef idx (field_type ps idx))
  | Literal typ val => bindLiteral typ val
  | _ => Err ErrUnsupportedFeature
  end.

Definition BindWhere (e : sql_expr) (schema : Schema) : res bind_err BoundExpr :=
  BindWherePlanner e (PlannerSchemaFromEngineSchema schema []).

(** ** The SELECT list *)

Definition question_mark : list byte := go_string "?".

Definition output_name (e : sql_expr) (alias : list byte) : list byte :=
  if bool_decide (alias = []) then
    match e with ColName _ name => name | _ => question_mark end
  else alias.

Definition output_type (bound : BoundExpr) : Ty := match bound with colRef _ typ => typ | _ => TypeString end.

Fixpoint bind_projections (exprs : list select_expr) (ps : PlannerSchema)
  : res bind_err (list ProjectionExpr) :=
  match exprs with
  | [] => Ok []
  | AliasedExpr e alias :: exprs' =>
      bound ← BindWherePlanner e ps;
      r ← bind_projections exprs' ps;
      Ok (mkProj bound (mkColumn (output_name e alias) (output_type bound) false None) :: r)
  | OtherSelect :: _ => Err ErrUnsupportedFeature
  end.

Definition BindProjectionPlanner (exprs : list select_expr) (ps : PlannerSchema)
  : res bind_err (list ProjectionExpr * PlannerSchema) :=
  projs ← bind_projections exprs ps;
  Ok (projs, PlannerSchemaFromEngineSchema (map Col projs) []).

Definition BindProjection (exprs : list select_expr) (schema : Schema)
  : res bind_err (list ProjectionExpr * Schema) :=
  '(proj, ps) ← BindProjectionPlanner exprs (PlannerSchemaFromEngineSchema schema []);
  Ok (proj, ToEngineSchema ps).
End binder.

(** * Binding, proved: a column reference finds the field it names, or reports that there
    is none or more than one; a condition that has a type binds to an expression of that
    type; and a comparison the binder lets through but cannot evaluate never succeeds. *)

Section binder.
Context `{GoText}.
Implicit Types (ps : PlannerSchema) (name qualifier : list byte).

(** The field is the one a reference means. *)
Definition names (qualifier name : list byte) (f : SchemaField) : bool :=
  (bool_decide (ToLower qualifier = []) || same_name (TableAlias f) qualifier) &&
  same_name (Name (f_Column f)) name.

Lemma resolve_unique_spec name ps i m :
  0 <= i -> (m = -1 \/ 0 <= m < i) ->
  match resolve_unique name ps i m with
  | Ok k =>
      (k = m /\ 0 <= m /\ Forall (fun f => same_name (Name (f_Column f)) name = false) ps) \/
      (m = -1 /\ i <= k /\ exists f, ps !! Z.to_nat (k - i) = Some f /\
        same_name (Name (f_Column f)) name = true /\
        forall j f', ps !! j = Some f' -> same_name (Name (f_Column f')) name = true -> j = Z.to_nat (k - i))
  | Err ErrColumnNotFound => m = -1 /\ Forall (fun f => same_name (Name (f_Column f)) name = false) ps
  | Err ErrAmbiguousColumn =>
      (0 <= m /\ exists j f, ps !! j = Some f /\ same_name (Name (f_Column f)) name = true) \/
      (exists j j' f f', (j < j')%nat /\ ps !! j = Some f /\ ps !! j' = Some f' /\
        same_name (Name (f_Column f)) name = true /\ same_name (Name (f_Column f')) name = true)
  | Err ErrUnsupportedFeature => False
  end.
Proof.
  revert i m. induction ps as [|f ps IH]; intros i m Hi Hm; cbn [resolve_unique].
  { destruct (Z.eqb_spec m (-1)); [by split|]. left. split_and!; [done|lia|done]. }
  destruct (same_name _ name) eqn:Ef.
  - destruct (Z.eqb_spec m (-1)) as [->|Hne]; cbn [negb].
    + specialize (IH (i + 1) i ltac:(lia) ltac:(lia)). destruct (resolve_unique name ps (i + 1) i) as [k|[]].
      * destruct IH as [(-> & _ & Hall)|(? & _)]; [|lia]. right. split_and!; [done|lia|].
        exists f. rewrite Z.sub_diag. split_and!; [done|done|]. intros [|j] f' Hj Hf'; [done|].
        cbn in Hj. rewrite Forall_forall in Hall. rewrite Hall in Hf'; [done|]. by eapply list_elem_of_lookup_2.
      * done.
      * right. destruct IH as [(_ & j & f' & Hj & Hf')|(j & j' & f1 & f2 & ? & ? & ? & ? & ?)].
        -- exists 0%nat, (S j), f, f'. split_and!; try done. lia.
        -- exists (S j), (S j'), f1, f2. split_and!; try done. lia.
      * lia.
    + left. split; [lia|]. by exists 0%nat, f.
  - specialize (IH (i + 1) m ltac:(lia) ltac:(lia)). destruct (resolve_unique name ps (i + 1) m) as [k|[]].
    + destruct IH as [(-> & ? & Hall)|(-> & Hk & f' & Hf' & Hn & Hu)]; [left; split_and!; [done|done|by constructor]|].
      right. split_and!; [done|lia|]. exists f'.
      replace (Z.to_nat (k - i)) with (S (Z.to_nat (k - (i + 1)))) by lia. split_and!; [done|done|].
      intros [|j] f2 Hj Hf2; [cbn in Hj; congruence|]. f_equal. by eapply Hu.
    + done.
    + destruct IH as [(? & j & f' & ? & ?)|(j & j' & f1 & f2 & ? & ? & ? & ? & ?)].
      * left. split; [done|]. by exists (S j), f'.
      * right. exists (S j), (S j'), f1, f2. split_and!; try done. lia.
    + destruct IH as [-> Hall]. split; [done|]. by constructor.
Qed.

Lemma resolve_qualified_spec qualifier name ps i :
  let p := fun f => same_name (TableAlias f) qualifier && same_name (Name (f_Column f)) name in
  match resolve_qualified qualifier name ps i with
  | Ok k => i <= k /\ exists f, ps !! Z.to_nat (k - i) = Some f /\ p f = true /\
      forall j f', ps !! j = Some f' -> p f' = true -> (Z.to_nat (k - i) <= j)%nat
  | Err ErrColumnNotFound => Forall (fun f => p f = false) ps
  | Err _ => False
  end.
Proof.
  cbv zeta. revert i. induction ps as [|f ps IH]; intros i; cbn [resolve_qualified]; [constructor|].
  destruct (_ && _) eqn:Ef.
  - split; [lia|]. exists f. rewrite Z.sub_diag. split_and!; [done|done|lia].
  - specialize (IH (i + 1)). destruct (resolve_qualified qualifier name ps (i + 1)) as [k|[]]; try done.
    + destruct IH as (Hk & f' & Hf' & Hp & Hu). split; [lia|]. exists f'.
      replace (Z.to_nat (k - i)) with (S (Z.to_nat (k - (i + 1)))) by lia. split_and!; [done|done|].
      intros [|j] f2 Hj Hf2; [cbn in Hj; congruence|]. specialize (Hu j f2 Hj Hf2). lia.
    + by constructor.
Qed.

(** The outcome of resolving a reference. *)
Definition resolved ps qualifier name (r : res bind_err Z) : Prop :=
  match r with
  | Ok i =>
      0 <= i /\ exists f, ps !! Z.to_nat i = Some f /\ names qualifier name f = true /\
      forall j f', ps !! j = Some f' -> names qualifier name f' = true ->
        if bool_decide (ToLower qualifier = []) then j = Z.to_nat i else (Z.to_nat i <= j)%nat
  | Err ErrColumnNotFound => Forall (fun f => names qualifier name f = false) ps
  | Err ErrAmbiguousColumn =>
      ToLower qualifier = [] /\
      exists j j' f f', (j < j')%nat /\ ps !! j = Some f /\ ps !! j' = Some f' /\
        names qualifier name f = true /\ names qualifier name f' = true
  | Err ErrUnsupportedFeature => False
  end.

Lemma resolve_ok ps qualifier name : resolved ps qualifier name (ResolveColumn ps qualifier name).
Proof.
  unfold ResolveColumn, resolved, names. destruct (decide (ToLower qualifier = [])) as [E|E].
  - rewrite !bool_decide_eq_true_2 by done. cbn [orb].
    pose proof (resolve_unique_spec name ps 0 (-1) ltac:(lia) ltac:(lia)) as Hs.
    destruct (resolve_unique name ps 0 (-1)) as [k|[]]; [|done| |].
    + destruct Hs as [(? & ? & _)|(_ & Hk & f & Hs)]; [lia|]. rewrite Z.sub_0_r in Hs.
      cbn [andb] in *. split; [done|]. by exists f.
    + destruct Hs as [(? & _)|Hs]; [lia|]. by split.
    + by destruct Hs.
  - rewrite !bool_decide_eq_false_2 by done. cbn [orb].
    pose proof (resolve_qualified_spec qualifier name ps 0) as Hs. cbv zeta in Hs.
    destruct (resolve_qualified qualifier name ps 0) as [k|[]]; try done.
    destruct Hs as (Hk & f & Hs). rewrite Z.sub_0_r in Hs. split; [done|]. by exists f.
Qed.

(** Column references. Without a qualifier a name resolves to the only field of that
    name, letter case aside; two such fields are an ambiguity, none is an error; with a
    qualifier it resolves to the first field of that table alias and name. *)
Theorem resolve_column ps qualifier name : resolved ps qualifier name (ResolveColumn ps qualifier name).
Proof. apply resolve_ok. Qed.

(** * Typed conditions *)

Definition field_types ps : list Ty := map (fun f => c_Type (f_Column f)) ps.

Definition literal_type (typ : lit_type) : option Ty :=
  match typ with
  | IntVal => Some TypeInt64 | StrVal => Some TypeString | FloatVal => Some TypeFloat64 | OtherVal => None
  end.

(** [e] is an expression of type [t] over the fields [ps]. *)
Inductive sql_type ps : sql_expr -> Ty -> Prop :=
| ST_col qualifier name i :
    ResolveColumn ps qualifier name = Ok i -> sql_type ps (ColName qualifier name) (field_type ps i)
| ST_lit typ val t : literal_type typ = Some t -> sql_type ps (Literal typ val) t
| ST_eq l r t t' : sql_type ps l t -> sql_type ps r t' -> sql_type ps (ComparisonExpr EqualOp l r) TypeBool
| ST_lt l r t : sql_type ps l t -> sql_type ps r t -> sql_type ps (ComparisonExpr LessThanOp l r) TypeBool
| ST_gt l r t : sql_type ps l t -> sql_type ps r t -> sql_type ps (ComparisonExpr GreaterThanOp l r) TypeBool
| ST_and l r : sql_type ps l TypeBool -> sql_type ps r TypeBool -> sql_type ps (AndExpr l r) TypeBool
| ST_or l r : sql_type ps l TypeBool -> sql_type ps r TypeBool -> sql_type ps (OrExpr l r) TypeBool
| ST_in qualifier name i es :
    ResolveColumn ps qualifier name = Ok i ->
    Forall (fun e => exists typ val t, e = Literal typ val /\ literal_type typ = Some t) es ->
    sql_type ps (ComparisonExpr InOp (ColName qualifier name) (ValTuple es)) TypeBool
| ST_between qualifier name i t1 v1 t2 v2 :
    ResolveColumn ps qualifier name = Ok i ->
    literal_type t1 = Some (field_type ps i) -> literal_type t2 = Some (field_type ps i) ->
    sql_type ps (BetweenExpr (ColName qualifier name) (Literal t1 v1) (Literal t2 v2)) TypeBool.

Lemma parseIntOrZero_range s : i64 (parseIntOrZero s).
Proof.
  unfold parseIntOrZero, Sscanf_d, i64. set (s' := drop_blanks s). clearbody s'.
  destruct (match s' with [] => _ | b :: s'' => _ end) as [neg l]. destruct l as [|b l]; [by split|].
  destruct (is_digit b); [|by split]. destruct (_ && _) eqn:E; [|by split].
  apply andb_prop in E as [E1 E2]. split; [by apply Z.leb_le|by apply Z.ltb_lt].
Qed.

Lemma literal_present typ val t : literal_type typ = Some t -> present t (literalToDatum typ val).
Proof.
  destruct typ; try done; intros [= <-]; (split; [done|split; [|done]]); try done. apply parseIntOrZero_range.
Qed.

Lemma bind_literal typ val t :
  literal_type typ = Some t -> bindLiteral typ val = Ok (literalExpr (literalToDatum typ val)).
Proof. by destruct typ. Qed.

Lemma resolved_type ps qualifier name i :
  ResolveColumn ps qualifier name = Ok i ->
  0 <= i /\ field_types ps !! Z.to_nat i = Some (field_type ps i).
Proof.
  intros E. pose proof (resolve_ok ps qualifier name) as Hr. rewrite E in Hr.
  destruct Hr as (Hi & f & Hf & _). split; [done|]. unfold field_types, field_type.
  rewrite Hf. apply (list_lookup_fmap_Some_2 (fun f => c_Type (f_Column f)) ps) in Hf. exact Hf.
Qed.

Lemma literal_values_ok es t :
  Forall (fun e => exists typ val t, e = Literal typ val /\ literal_type typ = Some t) es ->
  exists ds, literal_values es = Ok ds /\ Forall (fun d => d_Type d = t -> present t d) ds.
Proof.
  induction 1 as [|e es (typ & val & t' & -> & Ht) _ (ds & E & Hds)]; [by exists []|].
  exists (literalToDatum typ val :: ds). cbn. rewrite E. split; [done|]. constructor; [|done].
  pose proof (literal_present typ val t' Ht) as Hp. intros Et. destruct Hp as [Et' Hp]. rewrite Et in Et'. by subst.
Qed.

Lemma bind_typed ps e t :
  sql_type ps e t -> exists b, BindWherePlanner e ps = Ok b /\ has_type (field_types ps) b t.
Proof.
  induction 1 as [q name i E|typ val t Ht|l r t t' _ (bl & El & Hl) _ (br & Er & Hr)|l r t _ (bl & El & Hl) _ (br & Er & Hr)
    |l r t _ (bl & El & Hl) _ (br & Er & Hr)|l r _ (bl & El & Hl) _ (br & Er & Hr)|l r _ (bl & El & Hl) _ (br & Er & Hr)
    |q name i es E Hes|q name i t1 v1 t2 v2 E H1 H2]; cbn [BindWherePlanner].
  - rewrite E. destruct (resolved_type _ _ _ _ E). eexists. split; [done|]. by constructor.
  - rewrite (bind_literal _ _ _ Ht). eexists. split; [done|]. constructor. by apply literal_present.
  - cbn. rewrite El. cbn. rewrite Er. eexists. split; [done|]. by eapply T_eq.
  - cbn. rewrite El. cbn. rewrite Er. eexists. split; [done|]. by eapply T_lt.
  - cbn. rewrite El. cbn. rewrite Er. eexists. split; [done|]. by eapply T_gt.
  - rewrite El. cbn. rewrite Er. eexists. split; [done|]. by constructor.
  - rewrite El. cbn. rewrite Er. eexists. split; [done|]. by constructor.
  - destruct (resolved_type _ _ _ _ E). cbn. rewrite E. cbn.
    destruct (literal_values_ok es (field_type ps i) Hes) as (ds & -> & Hds).
    eexists. split; [done|]. by eapply T_in.
  - destruct (resolved_type _ _ _ _ E). cbn. rewrite E. eexists. split; [done|].
    eapply T_between; [done|done|by apply literal_present..].
Qed.

(** A well-typed condition can be run. A condition of a boolean type over the fields of
    a plan binds, and the bound expression evaluates to a boolean, without error or
    panic, on every row of those types without NULL. *)
Theorem condition_runs ps e row :
  sql_type ps e TypeBool -> row_typed (field_types ps) row ->
  exists b v, BindWherePlanner e ps = Ok b /\ Eval b row = Ok (bool_datum v).
Proof.
  intros He Hr. destruct (bind_typed _ _ _ He) as (b & Eb & Hb). destruct (eval_typed _ _ _ _ Hb Hr) as ([t v] & Ev & Ht & Hv & Hn).
  exists b. cbn in *. subst t. destruct v as [| | | |v| |]; try done. exists v. by split.
Qed.

(** Operands of different types are never equal, and a literal of digits is a signed integer: an
    unsigned column equals no literal. *)
Lemma mixed_types_never_equal ps l r t t' row :
  sql_type ps l t -> sql_type ps r t' -> t <> t' -> row_typed (field_types ps) row ->
  exists b, BindWherePlanner (ComparisonExpr EqualOp l r) ps = Ok b /\ Eval b row = Ok (bool_datum false).
Proof.
  intros Hl Hr Hne Hrow. destruct (bind_typed _ _ _ Hl) as (bl & El & Tl), (bind_typed _ _ _ Hr) as (br & Er & Tr).
  cbn. rewrite El. cbn. rewrite Er. eexists. split; [done|].
  destruct (eval_typed _ _ _ _ Tl Hrow) as (x & Ex & Hx & _), (eval_typed _ _ _ _ Tr Hrow) as (y & Ey & Hy & _).
  cbn. rewrite Ex. cbn. rewrite Ey. cbn. unfold datumEqual. rewrite bool_decide_false by congruence. done.
Qed.

(** SELECT *, as any entry of the list that is not an expression, is refused. *)
Lemma select_star_refused exprs ps : OtherSelect ∈ exprs -> forall projs, bind_projections exprs ps <> Ok projs.
Proof.
  induction exprs as [|se exprs IH]; [by intros ?%elem_of_nil|]. intros Hin projs. destruct se as [e alias|]; [|done]. cbn.
  apply elem_of_cons in Hin as [?|Hin]; [done|]. destruct (BindWherePlanner e ps); [|done]. cbn.
  destruct (bind_projections exprs ps) as [l|] eqn:E; [by destruct (IH Hin l)|done].
Qed.

(** Comparisons such as [<=], [<>], LIKE or NOT IN bind without an error, but the
    expression never evaluates: a query with one fails on its first row. *)
Theorem other_comparison_never_evaluates ps l r bl br :
  BindWherePlanner l ps = Ok bl -> BindWherePlanner r ps = Ok br ->
  exists b, BindWherePlanner (ComparisonExpr OtherOp l r) ps = Ok b /\
    forall row d, Eval b row <> Ok d.
Proof.
  intros El Er. cbn. rewrite El. cbn. rewrite Er. eexists. split; [done|]. intros row d. cbn.
  destruct (Eval bl row) as [x|]; [|done]. cbn. destruct (Eval br row) as [y|]; [|done]. cbn.
  by destruct (datumEqual x y).
Qed.
End binder.
