(* ===== verification/PlanCache.v ===== *)
(** [internal/engine/sql/planner/cache.go]: the plan cache, for plans of any type.

    The cache's lock makes each method one step.  The theorem: the cache is a queue of
    at most [maxSize] plans with distinct keys, the oldest of which makes room. *)

From Stdlib Require Import ZArith Lia.
From Stdlib Require Strings.String.
From stdpp Require Import gmap.
From S2P Require Import Prelude OrdMap GoFmt.
Import String.StringSyntax.
Open Scope Z_scope.

Record CacheKey := mkCacheKey { Fingerprint : list byte; SchemaVersion : Z }.

(** [CacheKey.String] *)
Definition key_string (k : CacheKey) : list byte := Fingerprint k ++ go_string "@v" ++ fmt_d (SchemaVersion k).

Record PlanCache (A : Type) := mkCache {
  maxSize : Z; disabled : bool; items : gmap (list byte) A; order : list (list byte); hits : Z; misses : Z }.
Arguments mkCache {A}.
Arguments maxSize {A}.
Arguments disabled {A}.
Arguments items {A}.
Arguments order {A}.
Arguments hits {A}.
Arguments misses {A}.

Section cache.
Context {A : Type}.
Implicit Types c : PlanCache A.

Definition NewPlanCache (size : Z) : PlanCache A :=
  if size <=? 0 then mkCache 0 true ∅ [] 0 0 else mkCache size false ∅ [] 0 0.

Definition count_hit c : PlanCache A :=
  mkCache (maxSize c) (disabled c) (items c) (order c) (wrap64 (hits c + 1)) (misses c).
Definition count_miss c : PlanCache A :=
  mkCache (maxSize c) (disabled c) (items c) (order c) (hits c) (wrap64 (misses c + 1)).

Definition Lookup (k : CacheKey) c : option A * PlanCache A :=
  if disabled c then (None, count_miss c)
  else match items c !! key_string k with
       | Some tmpl => (Some tmpl, count_hit c)
       | None => (None, count_miss c)
       end.

(** Eviction of the oldest plan of a full cache. *)
Definition evict c : PlanCache A :=
  if maxSize c <=? zlen (order c) then
    match order c with
    | oldest :: rest => mkCache (maxSize c) (disabled c) (delete oldest (items c)) rest (hits c) (misses c)
    | [] => c
    end
  else c.

Definition Store (k : CacheKey) (tmpl : A) c : PlanCache A :=
  if disabled c then c
  else
    let s := key_string k in
    match items c !! s with
    | Some _ => c
    | None =>
        let c := evict c in
        mkCache (maxSize c) (disabled c) (<[s := tmpl]> (items c)) (order c ++ [s]) (hits c) (misses c)
    end.

Definition Stats c : Z * Z * Z :=
  if disabled c then (hits c, misses c, 0) else (hits c, misses c, Z.of_nat (size (items c))).

(** * Keys *)

Lemma key_string_inj k k' : key_string k = key_string k' -> k = k'.
Proof.
  destruct k as [f v], k' as [f' v']. unfold key_string. cbn [Fingerprint SchemaVersion]. intros E.
  apply (f_equal (@rev byte)) in E. change (go_string "@v") with [x40; x76] in E.
  rewrite !rev_app_distr, <- !app_assoc in E. cbn [rev app] in E.
  assert (forall z, x76 ∉ rev (fmt_d z)) as Hv.
  { intros z Hin. apply list_elem_of_In, in_rev, list_elem_of_In in Hin. revert Hin. apply not_in_fmt_d. not_in_const. }
  apply separator_inj in E as [E1 E2]; [|apply Hv..]. injection E2 as E2.
  apply (f_equal (@rev byte)) in E1, E2. rewrite !rev_involutive in E1, E2.
  apply fmt_d_inj in E1 as ->. by rewrite E2.
Qed.

(** * The queue *)

(** The plans in the cache, oldest first. *)
Definition queue : Type := list (CacheKey * A).

Definition queue_lookup (k : CacheKey) (q : queue) : option A :=
  match List.find (fun x => bool_decide (key_string (fst x) = key_string k)) q with
  | Some (_, a) => Some a
  | None => None
  end.

Definition queue_store (size : Z) (k : CacheKey) (a : A) (q : queue) : queue :=
  match queue_lookup k q with
  | Some _ => q
  | None => (if size <=? zlen q then tl q else q) ++ [(k, a)]
  end.

Record cache_rep (size : Z) (q : queue) c : Prop := {
  cr_size : maxSize c = size;
  cr_enabled : disabled c = false;
  cr_order : order c = map (fun x => key_string (fst x)) q;
  cr_items s : items c !! s = snd <$> List.find (fun x => bool_decide (key_string (fst x) = s)) q;
  cr_distinct : NoDup (order c);
  cr_bound : zlen q <= size }.

Lemma find_none (q : queue) s :
  List.find (fun x => bool_decide (key_string (fst x) = s)) q = None <-> s ∉ map (fun x => key_string (fst x)) q.
Proof.
  induction q as [|x q IH]; cbn; [split; [intros _; apply not_elem_of_nil|done]|].
  rewrite not_elem_of_cons. case_bool_decide as E; [split; [done|intros [? _]; congruence]|].
  rewrite IH. split; [intros ?; split; [congruence|done]|tauto].
Qed.

Lemma find_app (q q' : queue) s :
  List.find (fun x => bool_decide (key_string (fst x) = s)) (q ++ q') =
  match List.find (fun x => bool_decide (key_string (fst x) = s)) q with
  | Some x => Some x
  | None => List.find (fun x => bool_decide (key_string (fst x) = s)) q'
  end.
Proof. induction q as [|x q IH]; [done|]. cbn. by case_bool_decide. Qed.

Lemma queue_lookup_spec k q : queue_lookup k q = snd <$> List.find (fun x => bool_decide (key_string (fst x) = key_string k)) q.
Proof. unfold queue_lookup. by destruct (List.find _ q) as [[? ?]|]. Qed.

Lemma evict_rep size q c :
  0 < size -> cache_rep size q c ->
  exists q', cache_rep size q' (evict c) /\ q' = (if size <=? zlen q then tl q else q) /\ zlen q' < size.
Proof.
  intros Hs [H1 H2 H3 H4 H5 H6]. unfold evict. rewrite H1, H3.
  assert (zlen (map (fun x : CacheKey * A => key_string (fst x)) q) = zlen q) as -> by (unfold zlen; by rewrite length_map).
  destruct (size <=? zlen q) eqn:E; [|exists q; split_and!; [by split|done|lia]].
  apply Z.leb_le in E. destruct q as [|[k a] q]; [change (zlen []) with 0 in E; lia|]. exists q. cbn [map fst] in *.
  rewrite zlen_cons in *. rewrite H3 in H5. apply NoDup_cons in H5 as [Hn Hd].
  split_and!; [|done|lia]. split; cbn; try done; [|lia].
  intros s. destruct (decide (s = key_string k)) as [->|Hne].
  - rewrite lookup_delete_eq. symmetry. apply fmap_None. by apply find_none.
  - rewrite lookup_delete_ne, H4 by done. cbn. by rewrite bool_decide_eq_false_2.
Qed.

(** The plan cache is a bounded queue. A new cache of positive size is the empty queue;
    looking a key up returns the plan stored under exactly that fingerprint and schema
    version, if it is still there; storing keeps the plan a key already has, and adds a
    new key at the end, after removing the oldest one if the cache is full. *)
Theorem plan_cache_queue size :
  0 < size ->
  cache_rep size [] (NewPlanCache size) /\
  forall q c k a, cache_rep size q c ->
    (fst (Lookup k c) = queue_lookup k q /\ cache_rep size q (snd (Lookup k c))) /\
    cache_rep size (queue_store size k a q) (Store k a c).
Proof.
  intros Hs. split.
  { unfold NewPlanCache. rewrite (proj2 (Z.leb_gt _ _)) by done. split; try done; [apply NoDup_nil_2|change (zlen []) with 0; lia]. }
  intros q c k a Hc. pose proof Hc as [H1 H2 H3 H4 H5 H6]. split.
  - unfold Lookup. rewrite H2, H4, queue_lookup_spec.
    destruct (snd <$> _) eqn:E; (split; [done|]); by split.
  - unfold Store, queue_store. rewrite H2, H4, queue_lookup_spec.
    destruct (snd <$> _) eqn:E; [done|]. apply fmap_None, find_none in E.
    destruct (evict_rep size q c Hs Hc) as (q' & [G1 G2 G3 G4 G5 G6] & Eq & Hlen).
    match goal with |- cache_rep _ _ ?c' => cut (cache_rep size (q' ++ [(k, a)]) c'); [by rewrite Eq|] end.
    assert (key_string k ∉ map (fun x => key_string (fst x)) q') as Hnew.
    { intros Hin. apply E. rewrite Eq in Hin. destruct (size <=? zlen q); [|done].
      destruct q; [done|]. by right. }
    split; cbn; try done.
    + by rewrite G3, map_app.
    + intros s. rewrite find_app. destruct (decide (s = key_string k)) as [->|Hne].
      * rewrite lookup_insert_eq. apply find_none in Hnew. rewrite Hnew. cbn. by rewrite bool_decide_eq_true_2.
      * rewrite lookup_insert_ne, G4 by done.
        destruct (List.find _ q') as [x|]; [done|]. cbn. by rewrite bool_decide_eq_false_2.
    + rewrite G3 in *. apply NoDup_app. split_and!; [done| |by apply NoDup_singleton].
      intros s Hs' ->%list_elem_of_singleton. done.
    + rewrite zlen_app. change (zlen [(k, a)]) with 1. lia.
Qed.
End cache.
