(* ===== verification/Translate.v ===== *)
(** [internal/engine/sql/planner]: from statements to plans: the plan template of the
    engine's SELECT path ([template.go]), and the full translation with joins, grouping,
    ordering and limits ([translate.go], [optimizer.go], and the aggregate functions of
    [agg.go]), which the engine does not call.

    Statements are the parser library's; the records below hold the parts the code
    reads.  The catalog is a parameter. *)

From Stdlib Require Import ZArith Lia.
From Stdlib Require Strings.String.
From stdpp Require Import gmap.
From S2P Require Import OrdMap Prelude GoFmt Datum Expr Operator Nodes Sort Join Agg Binder SchemaCodec PlannerSpec.
Import String.StringSyntax.
Open Scope Z_scope.

(** * Statements *)

Inductive join_type : Type := NormalJoin | LeftJoin | RightJoin | OtherJoin.

#[export] Instance join_type_eq_dec : EqDecision join_type.
Proof. solve_decision. Defined.

Inductive table_expr : Type :=
| AliasedTableExpr (name : list byte)
| AliasedOther
| JoinTableExpr (l r : table_expr) (join : join_type) (on : option sql_expr)
| OtherTable.

Record select_stmt := mkSelect {
  sel_Exprs : option (list select_expr); sel_From : list table_expr; sel_Where : option sql_expr;
  sel_GroupBy : list sql_expr; sel_OrderBy : list (sql_expr * bool);
  sel_Limit : option (option sql_expr * option sql_expr) }.

(** [RawAST] is [None] when the statement is not a SELECT. *)
Record statement := mkStatement { TargetTables : list (list byte); RawAST : option select_stmt }.

Record TableInfo := mkTableInfo { ti_TableID : Z; SchemaPayload : list byte }.

Class Catalog (K : Type) := GetTable : list byte -> res K TableInfo.

Inductive translate_err (K : Type) : Type :=
| ErrBind (e : bind_err) | ErrCatalog (e : K) | ErrSchema (e : schema_err)
| ErrNoTableHeap | ErrUnsupported | ErrTranslatePanic.
Arguments ErrBind {K} e.
Arguments ErrCatalog {K} e.
Arguments ErrSchema {K} e.
Arguments ErrNoTableHeap {K}.
Arguments ErrUnsupported {K}.
Arguments ErrTranslatePanic {K}.

Definition binds {K A} (r : res bind_err A) : res (translate_err K) A :=
  match r with Ok a => Ok a | Err e => Err (ErrBind e) end.

(** * Templates *)

Record PlanTemplate := mkTemplate {
  TableID : Z; InputSchema : Schema; OutputSchema : Schema;
  WhereExpr : option BoundExpr; Projections : list ProjectionExpr }.

(** A table's number and schema in the catalog. *)
Definition table_schema `{Catalog K} (name : list byte) : res (translate_err K) (Z * Schema) :=
  match GetTable name with
  | Err e => Err (ErrCatalog e)
  | Ok info =>
      match SchemaCodec.Decode (SchemaPayload info) with
      | Err e => Err (ErrSchema e)
      | Ok s => Ok (ti_TableID info, s)
      end
  end.

Definition Plan `{GoText} `{Catalog K} (stmt : statement) : res (translate_err K) PlanTemplate :=
  match TargetTables stmt with
  | [tableName] =>
      '(id, engSchema) ← table_schema tableName;
      whereExpr ← match RawAST stmt with
                  | Some sel => match sel_Where sel with
                                | Some e => pred ← binds (BindWhere e engSchema); Ok (Some pred)
                                | None => Ok None
                                end
                  | None => Ok None
                  end;
      '(projs, outSchema) ← match RawAST stmt with
                  | Some sel => match sel_Exprs sel with
                                | Some exprs => binds (BindProjection exprs engSchema)
                                | None => Ok ([], engSchema)
                                end
                  | None => Ok ([], engSchema)
                  end;
      Ok (mkTemplate id engSchema outSchema whereExpr projs)
  | _ => Err ErrUnsupported
  end.

Section build.
Context {W It H : Type} (heap : TableHeap W It H) (decoder : RowDecoder H) (tx : TxContext).

Definition filtered {S} (pred : option BoundExpr) (op : Operator W S H) : Operator W S H :=
  match pred with Some p => FilterNode op p | None => op end.

(** [PlanTemplate.Build]: no projections are a [nil] slice. *)
Definition Build (t : PlanTemplate) : Operator W (scan_state (It := It)) H :=
  let op := filtered (WhereExpr t) (SeqScanNode heap decoder (InputSchema t) tx) in
  match Projections t with
  | [] => op
  | projs => ProjectNode op projs (OutputSchema t)
  end.
End build.

(** * The full translation *)

(** An operator of some state, not opened. *)
Record planned (W H : Type) := mkPlanned { p_state : Type; p_op : Operator W p_state H; p_init : p_state }.
Arguments mkPlanned {W H} {p_state} p_op p_init.
Arguments p_state {W H}.
Arguments p_op {W H}.
Arguments p_init {W H}.

Inductive JoinStrategy : Type := JoinHash | JoinNestedLoop.

Definition SelectJoinStrategy (cond : option sql_expr) : JoinStrategy :=
  match cond with
  | Some (ComparisonExpr EqualOp (ColName lq _) (ColName rq _)) =>
      if negb (bool_decide (lq = [])) && negb (bool_decide (rq = [])) && negb (bool_decide (lq = rq))
      then JoinHash else JoinNestedLoop
  | _ => JoinNestedLoop
  end.

Section translate.
Context {W It H K : Type} `{GoText} `{Catalog K} `{GoSort}.
Context (tables : Z -> option (TableHeap W It H)) (decoder : RowDecoder H) (tx : TxContext).
Notation plan := (planned W H).
Notation result := (res (translate_err K)).

Definition planner_schema (p : plan) : PlannerSchema := GetPlannerSchema (p_op p).
Definition plan_schema (p : plan) : Schema := op_Schema (Operator := p_op p).

Definition filter_plan (p : plan) (pred : BoundExpr) : plan := mkPlanned (FilterNode (p_op p) pred) (p_init p).
Definition project_plan (p : plan) (projs : list ProjectionExpr) (s : Schema) : plan :=
  mkPlanned (ProjectNode (p_op p) projs s) (p_init p).
Definition sort_plan (p : plan) (keys : list SortKey) : plan :=
  mkPlanned (SortNode (p_op p) keys) (mkSort (p_init p) [] 0 false).
Definition limit_plan (p : plan) (limit offset : Z) : plan :=
  mkPlanned (LimitNode (p_op p) limit offset) (mkLimit (p_init p) 0 0).
Definition agg_plan (p : plan) (groupKeys : list Z) (aggs : list AggRequest) : plan :=
  mkPlanned (HashAggNode (p_op p) groupKeys aggs) (mkAggState (p_init p) [] [] 0 false).
Definition nested_loop_plan (l r : plan) (cond : option BoundExpr) (isLeftJoin : bool) : plan :=
  mkPlanned (NestedLoopJoinNode (p_op l) (p_op r) cond isLeftJoin)
    (mkNlj (p_init l) (p_init r) no_row false 0 0).
Definition hash_plan (l r : plan) (li ri : Z) (isLeftJoin : bool) (cond : option BoundExpr) : plan :=
  mkPlanned (HashJoinNode (p_op l) (p_op r) li ri isLeftJoin cond)
    (mkHash (p_init l) (p_init r) ∅ false no_row [] 0 false 0 0 0 0).

(** [resolveKeyIndex]: -1 when the column does not resolve. *)
Definition resolveKeyIndex (ps : PlannerSchema) (qualifier name : list byte) : Z :=
  match ResolveColumn ps qualifier name with Ok i => i | Err _ => -1 end.

Definition BuildJoin (l r : plan) (cond : option BoundExpr) (rawCond : option sql_expr) (isLeftJoin : bool) : plan :=
  match SelectJoinStrategy rawCond, rawCond with
  | JoinHash, Some (ComparisonExpr EqualOp (ColName lq ln) (ColName rq rn)) =>
      let li := resolveKeyIndex (planner_schema l) lq ln in
      let ri := resolveKeyIndex (planner_schema r) rq rn in
      if (0 <=? li) && (0 <=? ri) then hash_plan l r li ri isLeftJoin cond
      else nested_loop_plan l r cond isLeftJoin
  | _, _ => nested_loop_plan l r cond isLeftJoin
  end.

(** ** FROM *)

Definition translateAliasedTable (name : list byte) : result plan :=
  if bool_decide (name = []) then Err ErrUnsupported
  else
    '(id, engSchema) ← table_schema name;
    match tables id with
    | None => Err ErrNoTableHeap
    | Some heap => Ok (mkPlanned (SeqScanNode heap decoder engSchema tx) None)
    end.

(** The rest of [translateJoinTableExpr], once both sides are translated. *)
Definition join_tables (left0 right0 : plan) (join : join_type) (on : option sql_expr) : result plan :=
  cond ← match on with
         | Some e => b ← binds (BindWherePlanner e (planner_schema left0 ++ planner_schema right0)); Ok (Some b)
         | None => Ok None
         end;
  Ok (BuildJoin left0 right0 cond on (bool_decide (join = LeftJoin))).

Fixpoint translateTableExpr (te : table_expr) : result plan :=
  match te with
  | AliasedTableExpr name => translateAliasedTable name
  | JoinTableExpr l r join on =>
      if bool_decide (join = RightJoin) then Err ErrUnsupported
      else
        left0 ← translateTableExpr l;
        right0 ← translateTableExpr r;
        join_tables left0 right0 join on
  | AliasedOther | OtherTable => Err ErrUnsupported
  end.

(** The loop over the tables after the first. *)
Fixpoint cross_joins (p : plan) (tes : list table_expr) : result plan :=
  match tes with
  | [] => Ok p
  | te :: tes' => r ← translateTableExpr te; cross_joins (nested_loop_plan p r None false) tes'
  end.

Definition translateFrom (from : list table_expr) : result plan :=
  match from with
  | [] => Err ErrUnsupported
  | te :: tes => p ← translateTableExpr te; cross_joins p tes
  end.

(** ** Aggregates *)

Definition isAggregateExpr (e : sql_expr) : bool :=
  match e with
  | FuncExpr name _ =>
      existsb (fun agg => bool_decide (ToUpper name = agg)) [go_string "COUNT"; go_string "SUM"; go_string "MIN"; go_string "MAX"]
  | _ => false
  end.

Definition hasAggregates (exprs : option (list select_expr)) : bool :=
  existsb (fun e => match e with AliasedExpr x _ => isAggregateExpr x | OtherSelect => false end) (default [] exprs).

Definition aggColRefExpr (e : sql_expr) (schema : Schema) (op : AggOp) : result AggRequest :=
  match e with
  | ColName _ name =>
      let idx := colIndex name schema in
      if idx <? 0 then Err (ErrBind ErrColumnNotFound) else Ok (mkAgg op idx)
  | _ => Err ErrUnsupported
  end.

(** [fc.Exprs[0]] *)
Definition first_arg (args : list sql_expr) : result sql_expr :=
  match args with e :: _ => Ok e | [] => Err ErrTranslatePanic end.

Definition resolveAggregate (e : sql_expr) (schema : Schema) : result AggRequest :=
  match e with
  | CountStar => Ok (mkAgg AggCount (-1))
  | FuncExpr fname args =>
      let name := ToUpper fname in
      if bool_decide (name = go_string "COUNT") then
        match args with [] => Ok (mkAgg AggCount (-1)) | a :: _ => aggColRefExpr a schema AggCount end
      else if bool_decide (name = go_string "SUM") then a ← first_arg args; aggColRefExpr a schema AggSum
      else if bool_decide (name = go_string "MIN") then a ← first_arg args; aggColRefExpr a schema AggMin
      else if bool_decide (name = go_string "MAX") then a ← first_arg args; aggColRefExpr a schema AggMax
      else Err ErrUnsupported
  | _ => Err ErrUnsupported
  end.

Fixpoint group_key_indices (gbs : list sql_expr) (schema : Schema) : result (list Z) :=
  match gbs with
  | [] => Ok []
  | ColName _ name :: gbs' =>
      let idx := colIndex name schema in
      if idx <? 0 then Err (ErrBind ErrColumnNotFound)
      else r ← group_key_indices gbs' schema; Ok (idx :: r)
  | _ :: _ => Err ErrUnsupported
  end.

Fixpoint resolve_aggregates (exprs : list select_expr) (schema : Schema) : result (list AggRequest) :=
  match exprs with
  | [] => Ok []
  | AliasedExpr e _ :: exprs' =>
      if isAggregateExpr e then
        agg ← resolveAggregate e schema; r ← resolve_aggregates exprs' schema; Ok (agg :: r)
      else resolve_aggregates exprs' schema
  | OtherSelect :: _ => Err ErrUnsupported
  end.

Definition translateGroupBy (p : plan) (sel : select_stmt) : result plan :=
  let schema := plan_schema p in
  groupKeys ← group_key_indices (sel_GroupBy sel) schema;
  match sel_Exprs sel with
  | None => Err ErrTranslatePanic
  | Some exprs => aggs ← resolve_aggregates exprs schema; Ok (agg_plan p groupKeys aggs)
  end.

(** ** ORDER BY and LIMIT *)

Fixpoint sort_keys (orders : list (sql_expr * bool)) (schema : Schema) : result (list SortKey) :=
  match orders with
  | [] => Ok []
  | (ColName _ name, desc) :: orders' =>
      let idx := colIndex name schema in
      if idx <? 0 then Err (ErrBind ErrColumnNotFound)
      else r ← sort_keys orders' schema; Ok (mkSortKey idx desc :: r)
  | _ :: _ => Err ErrUnsupported
  end.

Definition translateOrderBy (p : plan) (orders : list (sql_expr * bool)) : result plan :=
  keys ← sort_keys orders (plan_schema p); Ok (sort_plan p keys).

Definition limit_number (e : option sql_expr) : Z :=
  match e with Some (Literal _ val) => parseIntOrZero val | _ => 0 end.

Definition translateLimit (p : plan) (limit : option sql_expr * option sql_expr) : plan :=
  limit_plan p (limit_number (fst limit)) (limit_number (snd limit)).

(** ** Translate *)

Definition Translate (stmt : statement) : result plan :=
  match RawAST stmt with
  | None => Err ErrUnsupported
  | Some sel =>
      p ← translateFrom (sel_From sel);
      p ← match sel_Where sel with
          | Some e => pred ← binds (BindWherePlanner e (planner_schema p)); Ok (filter_plan p pred)
          | None => Ok p
          end;
      p ← (if negb (zlen (sel_GroupBy sel) =? 0) || hasAggregates (sel_Exprs sel) then translateGroupBy p sel
           else match sel_Exprs sel with
                | Some exprs =>
                    '(projs, outSchema) ← binds (BindProjectionPlanner exprs (planner_schema p));
                    Ok (project_plan p projs (ToEngineSchema outSchema))
                | None => Ok p
                end);
      p ← match sel_OrderBy sel with [] => Ok p | orders => translateOrderBy p orders end;
      match sel_Limit sel with
      | Some limit => Ok (translateLimit p limit)
      | None => Ok p
      end
  end.
End translate.

(** * Translation, proved: a query over one table becomes a plan that returns its rows,
    and column references with a table's name never resolve, so that no join with a
    condition such as [t1.id = t2.id] can be planned. *)

Section translate.
Context {W It H K : Type} `{GoText} `{Catalog K} `{GoSort}.
Context (tables : Z -> option (TableHeap W It H)) (decoder : RowDecoder H) (tx : TxContext).
Notation plan := (planned W H).

(** * Aliases *)

Definition alias_free (ps : PlannerSchema) : Prop := Forall (fun f => TableAlias f = []) ps.

Lemma engine_schema_alias_free s : alias_free (PlannerSchemaFromEngineSchema s []).
Proof. apply Forall_fmap, Forall_true. done. Qed.

Lemma BuildJoin_alias_free (l r : plan) cond raw isLeftJoin :
  alias_free (planner_schema l) -> alias_free (planner_schema r) ->
  alias_free (planner_schema (BuildJoin l r cond raw isLeftJoin)).
Proof.
  intros Hl Hr. assert (alias_free (planner_schema l ++ planner_schema r)) as Happ by by apply Forall_app.
  unfold BuildJoin. repeat case_match; exact Happ.
Qed.

Lemma table_expr_alias_free te p :
  translateTableExpr tables decoder tx te = Ok p -> alias_free (planner_schema p).
Proof.
  revert p. induction te as [name| |l IHl r IHr join on|]; intros p; cbn [translateTableExpr]; try done.
  - unfold translateAliasedTable. case_bool_decide; [done|].
    destruct (table_schema name) as [[id s]|e]; [|done]. cbn.
    destruct (tables id); [|done]. intros [= <-]. apply engine_schema_alias_free.
  - case_bool_decide; [done|].
    destruct (translateTableExpr _ _ _ l) as [p1|] eqn:E1; [|done]. cbn.
    destruct (translateTableExpr _ _ _ r) as [p2|] eqn:E2; [|done]. cbn.
    unfold join_tables. destruct (match on with Some _ => _ | None => _ end) as [c|]; [|done].
    intros [= <-]. apply BuildJoin_alias_free; auto.
Qed.

Lemma cross_joins_alias_free tes p p' :
  alias_free (planner_schema p) -> cross_joins tables decoder tx p tes = Ok p' -> alias_free (planner_schema p').
Proof.
  revert p. induction tes as [|te tes IH]; intros p Hp; cbn [cross_joins]; [by intros [= <-]|].
  destruct (translateTableExpr _ _ _ te) as [r|] eqn:E; [|done]. cbn. apply IH.
  apply Forall_app. split; [done|]. by apply (table_expr_alias_free te).
Qed.

Lemma from_alias_free from p : translateFrom tables decoder tx from = Ok p -> alias_free (planner_schema p).
Proof.
  destruct from as [|te tes]; [done|]. cbn. destruct (translateTableExpr _ _ _ te) as [p0|] eqn:E; [|done].
  cbn. apply cross_joins_alias_free. by apply (table_expr_alias_free te).
Qed.

Lemma resolve_alias_free ps q name :
  ToLower [] = [] -> alias_free ps -> ToLower q <> [] -> ResolveColumn ps q name = Err ErrColumnNotFound.
Proof.
  intros HL Ha Hq. unfold ResolveColumn. rewrite bool_decide_eq_false_2 by done.
  generalize 0. induction Ha as [|f ps Hf Ha IH]; intros i; [done|]. cbn.
  unfold same_name at 1. rewrite Hf, HL, bool_decide_eq_false_2 by done. apply IH.
Qed.

(** Qualified columns cannot be planned. No field of a translated FROM clause carries a
    table alias, so a column reference with a table's name is never found; a JOIN whose
    condition compares such a reference, as [t1.id = t2.id] does, is refused, and with
    it every use of the hash join, which asks for two of them. *)
Theorem qualified_columns_refused q name :
  ToLower [] = [] -> ToLower q <> [] ->
  (forall from p, translateFrom tables decoder tx from = Ok p ->
     BindWherePlanner (ColName q name) (planner_schema p) = Err ErrColumnNotFound) /\
  (forall op l r join e p, op <> InOp ->
     translateTableExpr tables decoder tx (JoinTableExpr l r join (Some (ComparisonExpr op (ColName q name) e))) <> Ok p) /\
  (forall cond, SelectJoinStrategy cond = JoinHash ->
     exists lq ln rq rn, cond = Some (ComparisonExpr EqualOp (ColName lq ln) (ColName rq rn)) /\ lq <> [] /\ rq <> []).
Proof.
  intros HL Hq. split_and!.
  - intros from p E. cbn. by rewrite (resolve_alias_free _ q name HL (from_alias_free from p E) Hq).
  - intros op l r join e p Hop. cbn [translateTableExpr]. case_bool_decide; [done|].
    destruct (translateTableExpr _ _ _ l) as [p1|] eqn:E1; [|done]. cbn.
    destruct (translateTableExpr _ _ _ r) as [p2|] eqn:E2; [|done]. cbn.
    unfold join_tables. cbn [BindWherePlanner].
    rewrite (bool_decide_eq_false_2 (op = InOp)) by done.
    rewrite (resolve_alias_free _ q name HL); [done| |done].
    apply Forall_app. split; [by apply (table_expr_alias_free l)|by apply (table_expr_alias_free r)].
  - intros cond. unfold SelectJoinStrategy. destruct cond as [[| |[] [] []| | | | | | |]|]; try done.
    repeat case_bool_decide; try done. intros _. eauto 10.
Qed.

(** * From a statement to its rows *)

Context `{!GoSortLaws}.

(** The plan returns the rows, each time it is opened. *)
Definition plan_yields (p : plan) (I : W -> Prop) (rows : list Row) : Prop := yields (p_op p) I (p_init p) rows.

Definition where_rows (pred : option BoundExpr) (rows : list Row) : list Row :=
  match pred with Some b => List.filter (selects b) rows | None => rows end.

(** LIMIT and OFFSET as SQL means them: no clause keeps all rows, a clause keeps so many of
    the rows after the offset. *)
Definition cut_rows (limit : option (option sql_expr * option sql_expr)) (rows : list Row) : list Row :=
  match limit with
  | Some (l, o) => ztake (limit_number l) (zdrop (limit_number o) rows)
  | None => rows
  end.

(** A clause that the plan takes for no limit: [LIMIT 0], or a limit that is not a number. *)
Definition limit_ignored (limit : option (option sql_expr * option sql_expr)) : bool :=
  match limit with Some (l, _) => limit_number l <=? 0 | None => false end.

Definition offset_of (limit : option (option sql_expr * option sql_expr)) : Z :=
  match limit with Some (_, o) => limit_number o | None => 0 end.

Lemma filter_yields p I rows pred :
  plan_yields p I rows -> Forall (evaluates pred) rows ->
  plan_yields (filter_plan p pred) I (List.filter (selects pred) rows).
Proof.
  intros (k & R & L & Hc & Hi) He. eexists _, _, _. split; [by apply (filter_contract _ _ _ _ _ _ _ Hc)|exact Hi].
Qed.

Lemma project_yields p I rows projs s outs :
  plan_yields p I rows -> Forall2 (projects projs) rows outs -> plan_yields (project_plan p projs s) I outs.
Proof.
  intros (k & R & L & Hc & Hi) Hp. eexists _, _, _. split; [by apply (project_contract _ _ s _ _ _ _ _ _ Hc)|exact Hi].
Qed.

Lemma sort_yields p I ts rows keys :
  plan_yields p I rows -> keys_sortable ts keys -> Forall (row_typed ts) rows ->
  exists sorted, stable_sort_of (ordered_before ts keys) rows sorted /\ plan_yields (sort_plan p keys) I sorted.
Proof.
  intros (k & R & L & Hc & Hi) Hk Ht. destruct (sort_rows_ok keys ts rows Hk Ht) as (sorted & E & Hs).
  exists sorted. split; [done|]. eexists _, _, _. split; [by apply (sort_contract _ _ _ _ _ _ _ _ Hc)|exact Hi].
Qed.

Lemma limit_yields p I rows l o : plan_yields p I rows -> plan_yields (limit_plan p l o) I (limit_rows l o rows).
Proof.
  intros (k & R & L & Hc & Hi). eexists _, _, _. split; [exact (limit_contract _ _ _ _ _ _ _ _ Hc)|exact Hi].
Qed.

(** ** Clauses *)

(** A SELECT list of typed expressions without aggregates. *)
Definition select_typed (ps : PlannerSchema) (exprs : list select_expr) (outs : list Ty) : Prop :=
  Forall2 (fun se t => exists e alias, se = AliasedExpr e alias /\ isAggregateExpr e = false /\ sql_type ps e t) exprs outs.

Lemma select_plain ps exprs outs : select_typed ps exprs outs -> hasAggregates (Some exprs) = false.
Proof. unfold hasAggregates. cbn. induction 1 as [|se t exprs outs (e & a & -> & Ha & _) _ IH]; [done|]. cbn. by rewrite Ha. Qed.

Lemma select_bound ps exprs outs :
  select_typed ps exprs outs ->
  exists projs, bind_projections exprs ps = Ok projs /\ projection_typed (field_types ps) outs projs.
Proof.
  unfold projection_typed. induction 1 as [|se t exprs outs (e & a & -> & _ & Ht) _ (projs & E & Hp)]; [by exists []|].
  destruct (bind_typed ps e t Ht) as (b & Eb & Hb). cbn. rewrite Eb. cbn. rewrite E.
  eexists. split; [done|]. by constructor.
Qed.

Lemma stable_sort_nothing ts rows : stable_sort_of (ordered_before ts []) rows rows.
Proof.
  split_and!; [done| |done]. induction rows as [|r rows IH]; constructor; [done|].
  apply Forall_true. by intros r'.
Qed.

Lemma order_yields p I ts rows orders keys :
  plan_yields p I rows -> sort_keys (K := K) orders (plan_schema p) = Ok keys ->
  keys_sortable ts keys -> Forall (row_typed ts) rows ->
  exists p' sorted, match orders with [] => Ok p | o => translateOrderBy (K := K) p o end = Ok p' /\
    stable_sort_of (ordered_before ts keys) rows sorted /\ plan_yields p' I sorted.
Proof.
  intros Hy Ek Hk Ht. destruct orders as [|o orders].
  - injection Ek as <-. exists p, rows. split_and!; [done|apply stable_sort_nothing|done].
  - unfold translateOrderBy. rewrite Ek. cbn. destruct (sort_yields p I ts rows keys Hy Hk Ht) as (sorted & Hs & Hy').
    by exists (sort_plan p keys), sorted.
Qed.

Lemma engine_field_types s : field_types (PlannerSchemaFromEngineSchema s []) = schema_types s.
Proof. unfold field_types, PlannerSchemaFromEngineSchema, schema_types. rewrite map_map. by apply map_ext. Qed.

Lemma engine_schema_id s : ToEngineSchema (PlannerSchemaFromEngineSchema s []) = s.
Proof. unfold ToEngineSchema, PlannerSchemaFromEngineSchema. rewrite map_map. apply map_id. Qed.

Lemma clause_yields p I rows limit :
  plan_yields p I rows ->
  exists out, plan_yields (match limit with Some l => translateLimit p l | None => p end) I out /\
    (limit_ignored limit = false -> out = cut_rows limit rows) /\
    (limit_ignored limit = true -> out = zdrop (offset_of limit) rows).
Proof.
  intros Hy. destruct limit as [[l o]|]; [|by exists rows]. exists (limit_rows (limit_number l) (limit_number o) rows).
  cbn [limit_ignored offset_of cut_rows]. split; [by apply limit_yields|]. split; intros El.
  - apply limit_rows_positive. lia.
  - apply limit_rows_zero. lia.
Qed.

(** C22: From a SELECT statement over one table to its rows, for the statements and rows the
    planner can evaluate: the table is in the catalog under its own name and its heap returns
    rows of the schema's types without NULL; WHERE, if there is one, is a condition with a type
    ([sql_type]: AND and OR over =, which is false for operands of different types
    ([Binder.mixed_types_never_equal]), over < and > of operands of one type, over IN a list of
    literals and over BETWEEN literals of the column's type; the other comparisons, <=, >= and <>
    among them, bind and then fail on every row, [Binder.other_comparison_never_evaluates]);
    the SELECT list is spelled out, has types and no aggregates; there is no GROUP BY; ORDER BY
    names integer or string columns of the list.  Then [Translate] succeeds, and its plan
    returns, without error or panic, the rows that satisfy the condition, projected, in a stable
    sort by the ORDER BY columns, of which it keeps the LIMIT after the OFFSET when the limit is
    positive.  A limit that is not, LIMIT 0 above all, cuts nothing: all rows after the
    OFFSET are returned, where SQL asks for none. *)
Theorem translated_query_returns stmt name id schema heap I tuples At rows exprs cond orders limit outs projs keys :
  let fields := PlannerSchemaFromEngineSchema schema [] in
  RawAST stmt = Some (mkSelect (Some exprs) [AliasedTableExpr name] cond [] orders limit) ->
  name <> [] -> table_schema name = Ok (id, schema) -> tables id = Some heap ->
  scans heap tx I tuples At -> Forall2 (decodes decoder schema) tuples rows ->
  Forall (row_typed (schema_types schema)) rows ->
  (forall e, cond = Some e -> sql_type fields e TypeBool) ->
  select_typed fields exprs outs -> bind_projections exprs fields = Ok projs ->
  sort_keys (K := K) orders (map Col projs) = Ok keys -> keys_sortable outs keys ->
  exists p pred projected sorted out,
    Translate tables decoder tx stmt = Ok p /\
    match cond with Some e => exists b, BindWherePlanner e fields = Ok b /\ pred = Some b | None => pred = None end /\
    Forall2 (projects projs) (where_rows pred rows) projected /\
    stable_sort_of (ordered_before outs keys) projected sorted /\
    returns (p_op p) I (p_init p) out /\
    (limit_ignored limit = false -> out = cut_rows limit sorted) /\
    (limit_ignored limit = true -> out = zdrop (offset_of limit) sorted).
Proof.
  intros fields Hast Hname Htab Hheap Hscan Hdec Hrows Hcond Hsel Hproj Hkeys Hsort.
  set (p0 := mkPlanned (SeqScanNode heap decoder schema tx) None).
  assert (plan_yields p0 I rows) as Y0.
  { eexists _, _, _. split; [exact (scan_contract heap decoder schema tx I tuples At rows Hscan Hdec)|done]. }
  assert (exists p1 pred,
    match cond with
    | Some e => pred ← binds (K := K) (BindWherePlanner e fields); Ok (filter_plan p0 pred)
    | None => Ok p0 end = Ok p1 /\
    match cond with Some e => exists b, BindWherePlanner e fields = Ok b /\ pred = Some b | None => pred = None end /\
    plan_yields p1 I (where_rows pred rows) /\ planner_schema p1 = fields /\
    Forall (row_typed (schema_types schema)) (where_rows pred rows)) as (p1 & pred & E1 & Hpred & Y1 & S1 & R1).
  { destruct cond as [e|]; [|by exists p0, None].
    destruct (bind_typed _ _ _ (Hcond e eq_refl)) as (b & Eb & Hb). rewrite Eb. cbn.
    exists (filter_plan p0 b), (Some b). split_and!; [done|by eexists| |done|by apply selected_typed].
    apply filter_yields; [done|]. eapply Forall_impl; [exact Hrows|]. intros row Hr.
    rewrite <- engine_field_types in Hr. destruct (eval_typed _ _ _ _ Hb Hr) as (d & E & _). by exists d. }
  destruct (select_bound _ _ _ Hsel) as (projs' & Ep & Hpt). assert (projs' = projs) as -> by congruence.
  unfold fields in Hpt. rewrite engine_field_types in Hpt.
  destruct (projection_rows _ _ _ _ Hpt R1) as (projected & Hpd & Rpd).
  set (p2 := project_plan p1 projs (map Col projs)).
  assert (plan_yields p2 I projected) as Y2 by by apply project_yields with (rows := where_rows pred rows).
  destruct (order_yields p2 I outs projected orders keys Y2 Hkeys Hsort Rpd) as (p3 & sorted & E3 & Hs & Y3).
  destruct (clause_yields p3 I sorted limit Y3) as (out & Y4 & Hcut & Hall).
  exists (match limit with Some l => translateLimit p3 l | None => p3 end), pred, projected, sorted, out.
  split_and!; [|done|done|done| |done|done].
  - unfold Translate. rewrite Hast. cbn [sel_From sel_Where sel_GroupBy sel_Exprs sel_OrderBy sel_Limit].
    cbn [translateFrom translateTableExpr]. unfold translateAliasedTable. rewrite bool_decide_eq_false_2 by done.
    rewrite Htab. cbn [mbind res_bind]. rewrite Hheap. cbn [mbind res_bind cross_joins]. fold p0.
    change (planner_schema p0) with fields. rewrite E1. cbn [mbind res_bind].
    rewrite (select_plain _ _ _ Hsel). cbn [negb orb]. change (negb (zlen (@nil sql_expr) =? 0)) with false.
    cbn [orb]. rewrite S1. unfold BindProjectionPlanner. rewrite Ep. cbn [mbind res_bind binds].
    rewrite engine_schema_id. fold p2.
    enough (match orders with [] => Ok p2 | o => translateOrderBy (K := K) p2 o end = Ok p3) as E by (destruct orders; rewrite E; by destruct limit).
    exact E3.
  - by apply yields_returns.
Qed.
End translate.
