(* ===== verification/SqlText.v ===== *)
(** [internal/sqlparser/normalize.go]: comment stripping, the redaction of literals and
    the fingerprint of a statement.

    Both scanners walk over the text with an index; here the text before the index is
    kept only as far as they look back, the last byte.  A loop over [n] bytes takes
    [n] turns of fuel.  The theorem: redaction is a normal form, without quotes and
    with digits only inside of words. *)

From Stdlib Require Import ZArith Lia.
From Stdlib Require Strings.String.
From stdpp Require Import base list.
From S2P Require Import Prelude GoFmt.
Import String.StringSyntax.
Open Scope Z_scope.

Definition isDigit (c : byte) : bool := (48 <=? b2z c) && (b2z c <=? 57).
Definition isHexDigit (c : byte) : bool :=
  isDigit c || ((97 <=? b2z c) && (b2z c <=? 102)) || ((65 <=? b2z c) && (b2z c <=? 70)).
Definition isIdentChar (c : byte) : bool :=
  isDigit c || ((97 <=? b2z c) && (b2z c <=? 122)) || ((65 <=? b2z c) && (b2z c <=? 90)) || bool_decide (c = x5f).

Definition is_quote (c : byte) : bool := bool_decide (c = x27) || bool_decide (c = x22).

(** * Comments *)

(** To the end of the line, which is skipped too. *)
Fixpoint skip_line (s : list byte) : list byte :=
  match s with
  | [] => []
  | b :: s' => if bool_decide (b = x0a) then s' else skip_line s'
  end.

(** To the end of a block comment; one that is not closed ends before the last byte. *)
Fixpoint skip_block (s : list byte) : list byte :=
  match s with
  | b :: (c :: s'') as s' => if bool_decide (b = x2a) && bool_decide (c = x2f) then s'' else skip_block s'
  | _ => s
  end.

(** A quoted string after its first quote: its bytes, the closing quote included. *)
Fixpoint copy_quoted (quote : byte) (s : list byte) : list byte * list byte :=
  match s with
  | [] => ([], [])
  | b :: s' =>
      let copy := fun (_ : unit) =>
        if bool_decide (b = quote) then ([quote], s')
        else let '(out, rest) := copy_quoted quote s' in (b :: out, rest) in
      match s' with
      | c :: s'' =>
          if bool_decide (b = x5c) then let '(out, rest) := copy_quoted quote s'' in (b :: c :: out, rest)
          else copy tt
      | [] => copy tt
      end
  end.

(** One turn of the loop on a text that is not empty: what is written, and the rest. *)
Definition strip_turn (s : list byte) : list byte * list byte :=
  match s with
  | [] => ([], [])
  | b :: s' =>
      let c := head s' in
      if bool_decide (b = x2d) && bool_decide (c = Some x2d) then ([], skip_line (tail s'))
      else if bool_decide (b = x2f) && bool_decide (c = Some x2a) then ([], skip_block (tail s'))
      else if bool_decide (b = x23) then ([], skip_line s')
      else if is_quote b || bool_decide (b = x60) then
        let '(out, rest) := copy_quoted b s' in (b :: out, rest)
      else ([b], s')
  end.

Fixpoint strip_loop (n : nat) (s : list byte) : list byte :=
  match n, s with
  | S n', _ :: _ => let '(out, rest) := strip_turn s in out ++ strip_loop n' rest
  | _, _ => []
  end.

Definition stripCommentsLex (sql : list byte) : list byte := strip_loop (length sql) sql.

(** * Redaction *)

(** A quoted literal after its first quote: the last byte that was read, and the rest. *)
Fixpoint skip_quoted (quote last : byte) (s : list byte) : byte * list byte :=
  match s with
  | [] => (last, [])
  | b :: s' =>
      match s' with
      | c :: s'' =>
          if bool_decide (b = x5c) then skip_quoted quote c s''
          else if bool_decide (b = quote) then (b, s') else skip_quoted quote b s'
      | [] => (b, [])
      end
  end.

Fixpoint skip_while (p : byte -> bool) (last : byte) (s : list byte) : byte * list byte :=
  match s with
  | b :: s' => if p b then skip_while p b s' else (last, s)
  | [] => (last, [])
  end.

Definition number_char (c : byte) : bool := isDigit c || bool_decide (c = x2e).
Definition is_x (c : byte) : bool := bool_decide (c = x78) || bool_decide (c = x58).

(** [sql[i-1]] satisfies [p], when there is such a byte. *)
Definition before (p : byte -> bool) (prev : option byte) : bool := match prev with Some c => p c | None => false end.

Definition mark : byte := x3f.

(** One turn: the byte that is written, the last byte read, the rest. *)
Definition redact_turn (prev : option byte) (b : byte) (s' : list byte) : byte * (byte * list byte) :=
  if is_quote b then (mark, skip_quoted b b s')
  else if isDigit b then
    if bool_decide (b = x30) && before is_x (head s') then
      (mark, skip_while isHexDigit (default b (head s')) (tail s'))
    else if before isIdentChar prev then (b, (b, s'))
    else (mark, skip_while number_char b s')
  else if bool_decide (b = x2d) && before isDigit (head s') &&
          negb (before (fun c => isIdentChar c || bool_decide (c = x29)) prev) then
    (mark, skip_while number_char b s')
  else (b, (b, s')).

Fixpoint redact_loop (n : nat) (prev : option byte) (s : list byte) : list byte :=
  match n, s with
  | S n', b :: s' =>
      let '(out, (last, rest)) := redact_turn prev b s' in out :: redact_loop n' (Some last) rest
  | _, _ => []
  end.

Definition lexicalRedact (sql : list byte) : list byte := redact_loop (length sql) None sql.

(** ** Fuel *)

Lemma skip_line_length s : (length (skip_line s) <= length s)%nat.
Proof. induction s as [|b s IH]; [done|]. cbn [skip_line length]. case_bool_decide; lia. Qed.

Lemma skip_block_length s : (length (skip_block s) <= length s)%nat.
Proof.
  induction s as [|b s IH]; [done|]. destruct s as [|c s]; [done|].
  change (skip_block (b :: c :: s)) with (if bool_decide (b = x2a) && bool_decide (c = x2f) then s else skip_block (c :: s)).
  destruct (_ && _); cbn [length] in *; lia.
Qed.

Lemma skip_while_length p last s : (length (snd (skip_while p last s)) <= length s)%nat.
Proof. revert last. induction s as [|b s IH]; intros last; [done|]. cbn. destruct (p b); cbn; [|lia]. specialize (IH b). lia. Qed.

(** Induction over strings two bytes at a time. *)
Lemma bytes_ind2 (P : list byte -> Prop) :
  P [] -> (forall b, P [b]) -> (forall b c s, P (c :: s) -> P s -> P (b :: c :: s)) -> forall s, P s.
Proof.
  intros H0 H1 H2 s. assert (P s /\ forall b, P (b :: s)) as [? ?]; [|done].
  induction s as [|b s [IH1 IH2]]; split; auto.
Qed.

Lemma copy_quoted_length q s : (length (snd (copy_quoted q s)) <= length s)%nat.
Proof.
  induction s as [|b|b c s IH1 IH2] using bytes_ind2; [done|cbn; case_bool_decide; cbn; lia|].
  change (copy_quoted q (b :: c :: s)) with
    (if bool_decide (b = x5c) then let '(out, rest) := copy_quoted q s in (b :: c :: out, rest)
     else if bool_decide (b = q) then ([q], c :: s) else let '(out, rest) := copy_quoted q (c :: s) in (b :: out, rest)).
  destruct (copy_quoted q s), (copy_quoted q (c :: s)). repeat case_bool_decide; cbn in *; lia.
Qed.

Lemma skip_quoted_length q last s : (length (snd (skip_quoted q last s)) <= length s)%nat.
Proof.
  revert last. induction s as [|b|b c s IH1 IH2] using bytes_ind2; intros last; [done|cbn; lia|].
  change (skip_quoted q last (b :: c :: s)) with
    (if bool_decide (b = x5c) then skip_quoted q c s
     else if bool_decide (b = q) then (b, c :: s) else skip_quoted q b (c :: s)).
  specialize (IH1 b). specialize (IH2 c). repeat case_bool_decide; cbn in *; lia.
Qed.

Lemma redact_turn_length prev b s : (length (snd (snd (redact_turn prev b s))) <= length s)%nat.
Proof.
  unfold redact_turn. pose proof (skip_quoted_length b b s). pose proof (skip_while_length number_char b s).
  pose proof (skip_while_length isHexDigit (default b (head s)) (tail s)).
  assert (length (tail s) <= length s)%nat by (destruct s; cbn; lia).
  repeat case_match; cbn; lia.
Qed.

Lemma redact_fuel n prev s : (length s <= n)%nat -> redact_loop n prev s = redact_loop (length s) prev s.
Proof.
  revert prev s. induction n as [n IH] using lt_wf_ind. intros prev [|b s] Hn; [by destruct n|].
  destruct n as [|n]; [cbn in Hn; lia|]. cbn [redact_loop length]. pose proof (redact_turn_length prev b s) as Hl.
  destruct (redact_turn prev b s) as [out [last rest]]. cbn in *. f_equal.
  rewrite (IH n) by lia. destruct (decide (length s = n)) as [<-|]; [by rewrite (IH (length s)) by lia|].
  by rewrite (IH (length s)) by lia.
Qed.

Lemma redact_cons prev b s :
  redact_loop (length (b :: s)) prev (b :: s) =
  let '(out, (last, rest)) := redact_turn prev b s in out :: redact_loop (length rest) (Some last) rest.
Proof.
  cbn [redact_loop length]. pose proof (redact_turn_length prev b s) as Hl.
  destruct (redact_turn prev b s) as [out [last rest]]. cbn in Hl. by rewrite redact_fuel.
Qed.

(** * Redacted text *)

(** No quotes, and every digit follows a letter, a digit or an underscore, and is not
    the start of a hexadecimal number. *)
Fixpoint clean (prev : option byte) (s : list byte) : bool :=
  match s with
  | [] => true
  | b :: s' =>
      negb (is_quote b) &&
      (negb (isDigit b) || (before isIdentChar prev && negb (bool_decide (b = x30) && before is_x (head s')))) &&
      clean (Some b) s'
  end.

Lemma clean_fixed prev s : clean prev s = true -> redact_loop (length s) prev s = s.
Proof.
  revert prev. induction s as [|b s IH]; intros prev; [done|]. cbn [clean].
  intros [[Hq Hd]%andb_prop Hs]%andb_prop. rewrite redact_cons. unfold redact_turn.
  apply negb_true_iff in Hq. rewrite Hq. destruct (isDigit b) eqn:Eb.
  - cbn [negb orb] in Hd. apply andb_prop in Hd as [Hp Hx]. apply negb_true_iff in Hx. rewrite Hx, Hp.
    f_equal. by apply IH.
  - destruct (_ && _ && _) eqn:Em; [|f_equal; by apply IH].
    apply andb_prop in Em as [[Em1 Em2]%andb_prop _]. apply bool_decide_eq_true in Em1 as ->.
    destruct s as [|c s]; [done|]. cbn in Em2. cbn [clean] in Hs. rewrite Em2 in Hs.
    change (before isIdentChar (Some x2d)) with false in Hs. cbn [negb orb andb] in Hs.
    by rewrite andb_false_r in Hs.
Qed.

Lemma redact_head prev s :
  head (redact_loop (length s) prev s) = head s \/ head (redact_loop (length s) prev s) = Some mark.
Proof.
  destruct s as [|b s]; [by left|]. rewrite redact_cons. unfold redact_turn.
  repeat case_match; simplify_eq; cbn; auto.
Qed.

(** What follows a literal: the end, or no digit after a byte of a word. *)
Definition apart (last : byte) (rest : list byte) : Prop :=
  before isDigit (head rest) = true -> isIdentChar last = false.

Lemma skip_quoted_apart q last s : is_quote q = true -> let '(l, r) := skip_quoted q last s in apart l r.
Proof.
  intros Hq. revert last. induction s as [|b|b c s IH1 IH2] using bytes_ind2; intros last; [done|done|].
  change (skip_quoted q last (b :: c :: s)) with
    (if bool_decide (b = x5c) then skip_quoted q c s
     else if bool_decide (b = q) then (b, c :: s) else skip_quoted q b (c :: s)).
  repeat case_bool_decide; [apply IH2| |apply IH1]. subst. intros _.
  unfold is_quote in Hq. apply orb_prop in Hq as [Hq|Hq]; by apply bool_decide_eq_true in Hq as ->.
Qed.

Lemma skip_while_apart p last s :
  (forall c, isDigit c = true -> p c = true) -> let '(l, r) := skip_while p last s in apart l r.
Proof.
  intros Hp. revert last. induction s as [|b s IH]; intros last; [done|]. cbn. destruct (p b) eqn:E; [apply IH|].
  intros Hd. cbn in Hd. by rewrite Hp in E.
Qed.

Lemma number_digit c : isDigit c = true -> number_char c = true.
Proof. unfold number_char. by intros ->. Qed.

Lemma hex_digit c : isDigit c = true -> isHexDigit c = true.
Proof. unfold isHexDigit. by intros ->. Qed.

Lemma redact_turn_apart prev b s out last rest :
  redact_turn prev b s = (out, (last, rest)) ->
  (out = mark /\ apart last rest) \/
  (out = b /\ last = b /\ rest = s /\ is_quote b = false /\
   (isDigit b = true -> before isIdentChar prev = true /\ bool_decide (b = x30) && before is_x (head s) = false)).
Proof.
  unfold redact_turn. destruct (is_quote b) eqn:Eq.
  { intros [= <- Er]. left. split; [done|]. pose proof (skip_quoted_apart b b s Eq) as Ha. by rewrite Er in Ha. }
  pose proof (skip_while_apart number_char b s number_digit) as Hn.
  pose proof (skip_while_apart isHexDigit (default b (head s)) (tail s) hex_digit) as Hh.
  destruct (isDigit b) eqn:Ed.
  - destruct (_ && _) eqn:Ex; [|destruct (before isIdentChar prev) eqn:Ep].
    + intros [= <- Er]. rewrite Er in Hh. by left.
    + intros [= <- <- <-]. by right.
    + intros [= <- Er]. rewrite Er in Hn. by left.
  - destruct (_ && _ && _).
    + intros [= <- Er]. rewrite Er in Hn. by left.
    + intros [= <- <- <-]. by right.
Qed.

Lemma redact_clean prev prev' s :
  (before isIdentChar prev = true -> before isDigit (head s) = true -> before isIdentChar prev' = true) ->
  clean prev' (redact_loop (length s) prev s) = true.
Proof.
  remember (length s) as n eqn:En. revert s prev prev' En. induction n as [n IH] using lt_wf_ind.
  intros [|b s] prev prev' -> Hp; [done|]. rewrite redact_cons.
  pose proof (redact_turn_length prev b s) as Hl.
  destruct (redact_turn prev b s) as [out [last rest]] eqn:Et. cbn [fst snd] in Hl. cbn [clean].
  assert (clean (Some out) (redact_loop (length rest) (Some last) rest) = true /\ is_quote out = false /\
    (isDigit out = true -> before isIdentChar prev' = true /\
      bool_decide (out = x30) && before is_x (head (redact_loop (length rest) (Some last) rest)) = false))
    as (-> & -> & Hd).
  { destruct (redact_turn_apart _ _ _ _ _ _ Et) as [(-> & Ha)|(-> & -> & -> & Eq & Hd)].
    - split_and!; [|done|done]. apply (IH (length rest)); [cbn; lia|done|].
      cbn. intros Hi Hh. by rewrite Ha in Hi.
    - split_and!; [apply (IH (length s)); [cbn; lia|done|done]|done|].
      intros Eb. destruct (Hd Eb) as [Hi Hx]. split; [by apply Hp|].
      destruct (redact_head (Some b) s) as [->| ->]; [done|]. by destruct (bool_decide _). }
  destruct (isDigit out); [|done]. destruct (Hd eq_refl) as [-> ->]. done.
Qed.

(** Redaction is a normal form. The text [lexicalRedact] returns holds no quote, every
    digit in it continues a word, and redacting it again changes nothing. *)
Theorem redaction_normal_form sql :
  clean None (lexicalRedact sql) = true /\ lexicalRedact (lexicalRedact sql) = lexicalRedact sql.
Proof.
  assert (clean None (lexicalRedact sql) = true) as Hc by by apply redact_clean.
  split; [done|]. unfold lexicalRedact at 1. by apply clean_fixed.
Qed.

(** ** Literals at the end of a text *)

(** Bytes that are copied whatever surrounds them. *)
Definition plain (b : byte) : bool := negb (is_quote b) && negb (isDigit b) && negb (bool_decide (b = x2d)).

Lemma redact_plain p prev s :
  forallb plain p = true ->
  redact_loop (length (p ++ s)) prev (p ++ s) =
    p ++ redact_loop (length s) (match last p with Some b => Some b | None => prev end) s.
Proof.
  revert prev. induction p as [|b p IH]; intros prev; [done|]. cbn [forallb]. intros [Hb Hp]%andb_prop.
  cbn [app]. rewrite redact_cons. unfold redact_turn, plain in *. apply andb_prop in Hb as [[H1 H2]%andb_prop H3].
  apply negb_true_iff in H1, H2, H3. rewrite H1, H2, H3. cbn [andb]. f_equal. rewrite IH by done. rewrite last_cons. by destruct (last p).
Qed.

Lemma skip_digits last d : forallb isDigit d = true -> snd (skip_while number_char last d) = [].
Proof.
  revert last. induction d as [|b d IH]; intros last; [done|]. cbn [forallb skip_while].
  intros [Hb Hd]%andb_prop. rewrite (number_digit b Hb). by apply IH.
Qed.

Lemma redact_number prev d :
  d <> [] -> forallb isDigit d = true -> before isIdentChar prev = false -> redact_loop (length d) prev d = [mark].
Proof.
  intros Hne Hd Hp. destruct d as [|b d]; [done|]. cbn [forallb] in Hd. apply andb_prop in Hd as [Hb Hd].
  rewrite redact_cons. unfold redact_turn.
  assert (is_quote b = false) as ->.
  { destruct (is_quote b) eqn:E; [|done]. apply orb_prop in E as [E|E]; apply bool_decide_eq_true in E as ->; by vm_compute in Hb. }
  rewrite Hb, Hp. assert (before is_x (head d) = false) as ->.
  { destruct d as [|c d]; [done|]. cbn in *. apply andb_prop in Hd as [Hc _].
    destruct (is_x c) eqn:E; [|done]. apply orb_prop in E as [E|E]; apply bool_decide_eq_true in E as ->; by vm_compute in Hc. }
  rewrite andb_false_r. pose proof (skip_digits b d Hd) as Hs.
  destruct (skip_while number_char b d) as [l r]. cbn in Hs. by subst.
Qed.

(** A text that ends in a number: which number is forgotten. *)
Lemma redact_ends_in_number p d :
  forallb plain p = true -> before isIdentChar (last p) = false ->
  d <> [] -> forallb isDigit d = true -> lexicalRedact (p ++ d) = p ++ [mark].
Proof.
  intros Hp Hl Hne Hd. unfold lexicalRedact. rewrite redact_plain by done. f_equal.
  apply redact_number; [done|done|]. by destruct (last p).
Qed.

(** * Fingerprints *)

(** The parser library, and SHA-256. *)
Class SqlLibrary (A : Type) := {
  lib_Parse : list byte -> option A; CanonicalString : A -> list byte; Sum256 : list byte -> list byte }.

Section fingerprint.
Context {A : Type} `{SqlLibrary A}.

Definition Normalize (ast : A) : list byte := lexicalRedact (CanonicalString ast).

(** [Sanitize], by [sanitizeWithFallback]. *)
Definition Sanitize (sql : list byte) : list byte :=
  let stripped := stripCommentsLex sql in
  match lib_Parse stripped with
  | Some ast => Normalize ast
  | None => lexicalRedact stripped
  end.

Definition hex_digit_of (n : Z) : byte := z2b (if n <? 10 then 48 + n else 87 + n).
(** [fmt.Sprintf("%x", b)] *)
Definition fmt_x (b : list byte) : list byte := flat_map (fun c => [hex_digit_of (b2z c / 16); hex_digit_of (b2z c mod 16)]) b.

Definition FingerprintOf (sql : list byte) : list byte := fmt_x (Sum256 (Sanitize sql)).
End fingerprint.
