(* ===== verification/DmlRow.v ===== *)
(** [internal/engine/sql/dml_insert.go]: rows of INSERT statements: literals mapped to
    column types, defaults, NOT NULL, and the coercion of rows of a SELECT.

    The theorem: a row that is accepted has the table's column types, with values in the
    range of their Go types, and no NULL in a NOT NULL column. *)

From Stdlib Require Import ZArith Lia SpecFloat.
From stdpp Require Import gmap.
From S2P Require Import Prelude OrdMap GoFmt Datum Expr Operator Binder Agg.
Open Scope Z_scope.

(** What the code uses of floats in [strconv] and of Go's conversions from [float64],
    whose result is left to the implementation when the integer type cannot hold it. *)
Class GoFloat := {
  ParseFloat : list byte -> option spec_float;
  int64_of_float : spec_float -> Z;
  uint64_of_float : spec_float -> Z }.

Class GoFloatLaws `{GoFloat} := {
  int64_of_float_range f : i64 (int64_of_float f);
  uint64_of_float_range f : u64 (uint64_of_float f) }.

Inductive row_err : Type :=
| ErrColumnCountMismatch | ErrDuplicateColumn | ErrUnknownColumn | ErrTypeMismatch
| ErrUnsupportedInsertValue | ErrNotNullViolation.

(** A value of VALUES or SET: the node types the code tells apart. *)
Inductive insert_value : Type := NullVal | LiteralVal (typ : lit_type) (val : list byte) | OtherValue.

(** [strconv.ParseInt(s, 10, 64)] *)
Definition ParseInt (s : list byte) : option Z :=
  let '(neg, digits) :=
    match s with
    | b :: s' => if bool_decide (b = x2d) then (true, s') else if bool_decide (b = x2b) then (false, s') else (false, s)
    | [] => (false, [])
    end in
  if bool_decide (digits = []) || negb (forallb is_digit digits) then None
  else
    let v := digits_value 0 digits in
    if neg then (if v <=? 2 ^ 63 then Some (- v) else None)
    else if v <? 2 ^ 63 then Some v else None.

(** A negative float: [val < 0]. *)
Definition float_negative (f : spec_float) : bool := SFltb f (S754_zero false).

Section rows.
Context `{GoText} `{GoFloat}.
Notation row_res := (res row_err).

(** * Literals *)

Definition mapInt (val : list byte) (t : Ty) : row_res Datum :=
  match ParseInt val with
  | None => Err ErrTypeMismatch
  | Some z =>
      match t with
      | TypeInt64 => Ok (mkDatum TypeInt64 (VInt64 z))
      | TypeUint64 => if z <? 0 then Err ErrTypeMismatch else Ok (mkDatum TypeUint64 (VUint64 z))
      | TypeFloat64 => Ok (mkDatum TypeFloat64 (VFloat64 (float64_of z)))
      | TypeString => Ok (mkDatum TypeString (VString val))
      | TypeBytes => Ok (mkDatum TypeBytes (VBytes val))
      | _ => Err ErrTypeMismatch
      end
  end.

Definition mapFloat (val : list byte) (t : Ty) : row_res Datum :=
  match ParseFloat val with
  | None => Err ErrTypeMismatch
  | Some f =>
      match t with
      | TypeFloat64 => Ok (mkDatum TypeFloat64 (VFloat64 f))
      | TypeInt64 => Ok (mkDatum TypeInt64 (VInt64 (int64_of_float f)))
      | TypeUint64 => if float_negative f then Err ErrTypeMismatch else Ok (mkDatum TypeUint64 (VUint64 (uint64_of_float f)))
      | TypeString => Ok (mkDatum TypeString (VString val))
      | TypeBytes => Ok (mkDatum TypeBytes (VBytes val))
      | _ => Err ErrTypeMismatch
      end
  end.

Definition mapString (val : list byte) (t : Ty) : row_res Datum :=
  match t with
  | TypeString => Ok (mkDatum TypeString (VString val))
  | TypeBytes => Ok (mkDatum TypeBytes (VBytes val))
  | TypeFloat64 => match ParseFloat val with Some f => Ok (mkDatum TypeFloat64 (VFloat64 f)) | None => Err ErrTypeMismatch end
  | TypeInt64 => match ParseInt val with Some z => Ok (mkDatum TypeInt64 (VInt64 z)) | None => Err ErrTypeMismatch end
  | TypeUint64 =>
      match ParseInt val with
      | Some z => if z <? 0 then Err ErrTypeMismatch else Ok (mkDatum TypeUint64 (VUint64 z))
      | None => Err ErrTypeMismatch
      end
  | _ => Err ErrTypeMismatch
  end.

Definition mapLiteralByType (typ : lit_type) (val : list byte) (col : Column) : row_res Datum :=
  match typ with
  | IntVal => mapInt val (c_Type col)
  | FloatVal => mapFloat val (c_Type col)
  | StrVal => mapString val (c_Type col)
  | OtherVal => Err ErrUnsupportedInsertValue
  end.

Definition mapLiteral (expr : insert_value) (col : Column) : row_res Datum :=
  match expr with
  | NullVal => Ok (mkDatum (c_Type col) VNil)
  | LiteralVal typ val => mapLiteralByType typ val col
  | OtherValue => Err ErrUnsupportedInsertValue
  end.

(** * buildRow *)

(** [schemaIndexByName]: of two columns whose names differ in case, the later one. *)
Fixpoint index_from (i : nat) (s : Schema) (names : gmap (list byte) nat) : gmap (list byte) nat :=
  match s with
  | [] => names
  | col :: s' => index_from (S i) s' (<[ToLower (Name col) := i]> names)
  end.
Definition schemaIndexByName (s : Schema) : gmap (list byte) nat := index_from 0 s ∅.

Definition default_datum (col : Column) : Datum :=
  match DefaultValue col with Some d => Datum_DeepCopy d | None => mkDatum (c_Type col) VNil end.

(** The loop over the named columns. *)
Fixpoint assign_columns (s : Schema) (cols : list (list byte)) (exprs : list insert_value)
  (seen : gset (list byte)) (ds : list Datum) : row_res (list Datum) :=
  match cols, exprs with
  | c :: cols', e :: exprs' =>
      let colName := ToLower c in
      if bool_decide (colName ∈ seen) then Err ErrDuplicateColumn
      else
        match schemaIndexByName s !! colName ≫= (fun idx => (fun col => (idx, col)) <$> s !! idx) with
        | None => Err ErrUnknownColumn
        | Some (idx, col) =>
            d ← mapLiteral e col;
            assign_columns s cols' exprs' ({[colName]} ∪ seen) (<[idx := d]> ds)
        end
  | _, _ => Ok ds
  end.

(** The loop over the values when no columns are named. *)
Fixpoint map_values (s : Schema) (exprs : list insert_value) : row_res (list Datum) :=
  match s, exprs with
  | col :: s', e :: exprs' => d ← mapLiteral e col; ds ← map_values s' exprs'; Ok (d :: ds)
  | _, _ => Ok []
  end.

(** NOT NULL enforcement. *)
Definition null_violation (s : Schema) (ds : list Datum) : bool :=
  existsb (fun '(col, d) => NotNull col && is_nil (d_Value d)) (zip s ds).

Definition buildRow (s : Schema) (insertCols : list (list byte)) (rowExprs : list insert_value) : row_res Row :=
  ds ← (if 0 <? zlen insertCols then
          if negb (zlen insertCols =? zlen rowExprs) then Err ErrColumnCountMismatch
          else assign_columns s insertCols rowExprs ∅ (map default_datum s)
        else if negb (zlen rowExprs =? zlen s) then Err ErrColumnCountMismatch
        else map_values s rowExprs);
  if null_violation s ds then Err ErrNotNullViolation else Ok (mkRow ds 0).

(** * coerceRow *)

Definition coerceDatum (src : Datum) (col : Column) : row_res Datum :=
  let t := c_Type col in
  if is_nil (d_Value src) then Ok (mkDatum t VNil)
  else if bool_decide (d_Type src = t) then Ok (Datum_DeepCopy src)
  else
    match t, d_Value src with
    | TypeInt64, VInt64 z => Ok (mkDatum t (VInt64 z))
    | TypeInt64, VUint64 z => Ok (mkDatum t (VInt64 (swrap64 z)))
    | TypeInt64, VFloat64 f => Ok (mkDatum t (VInt64 (int64_of_float f)))
    | TypeUint64, VInt64 z => if z <? 0 then Err ErrTypeMismatch else Ok (mkDatum t (VUint64 z))
    | TypeUint64, VUint64 z => Ok (mkDatum t (VUint64 z))
    | TypeFloat64, VInt64 z | TypeFloat64, VUint64 z => Ok (mkDatum t (VFloat64 (float64_of z)))
    | TypeFloat64, VFloat64 f => Ok (mkDatum t (VFloat64 f))
    | TypeString, VString v | TypeString, VBytes v => Ok (mkDatum t (VString v))
    | TypeBytes, VString v | TypeBytes, VBytes v => Ok (mkDatum t (VBytes v))
    | _, _ => Err ErrTypeMismatch
    end.

Fixpoint coerce_columns (s : Schema) (src : list Datum) : row_res (list Datum) :=
  match s, src with
  | col :: s', d0 :: src' =>
      d ← coerceDatum d0 col;
      if NotNull col && is_nil (d_Value d) then Err ErrNotNullViolation
      else ds ← coerce_columns s' src'; Ok (d :: ds)
  | _, _ => Ok []
  end.

Definition coerceRow (s : Schema) (srcRow : Row) : row_res Row :=
  if negb (zlen (Datums srcRow) =? zlen s) then Err ErrColumnCountMismatch
  else ds ← coerce_columns s (Datums srcRow); Ok (mkRow ds 0).

(** * Accepted rows *)

Context `{!GoFloatLaws}.

(** A value a column can hold. *)
Definition fits (col : Column) (d : Datum) : Prop := d_Type d = c_Type col /\ typed (c_Type col) (d_Value d).

Definition row_fits (s : Schema) (row : Row) : Prop :=
  Forall2 (fun col d => fits col d /\ (NotNull col = true -> d_Value d <> VNil)) s (Datums row).

(** The table's default values are of their columns' types. *)
Definition defaults_fit (s : Schema) : Prop :=
  Forall (fun col => match DefaultValue col with Some d => fits col d | None => True end) s.

Lemma digits_value_nonneg acc l : 0 <= acc -> 0 <= digits_value acc l.
Proof.
  revert acc. induction l as [|b l IH]; intros acc Ha; [done|]. cbn [digits_value].
  destruct (is_digit b) eqn:E; [|done]. apply IH. unfold is_digit in E. lia.
Qed.

Lemma ParseInt_range val z : ParseInt val = Some z -> i64 z.
Proof.
  unfold ParseInt, i64. destruct (match val with [] => _ | b :: s' => _ end) as [neg digits].
  destruct (_ || _); [done|]. pose proof (digits_value_nonneg 0 digits ltac:(lia)).
  destruct neg.
  - destruct (Z.leb_spec (digits_value 0 digits) (2 ^ 63)); [|done]. intros ?. simplify_eq. lia.
  - destruct (Z.ltb_spec (digits_value 0 digits) (2 ^ 63)); [|done]. intros ?. simplify_eq. lia.
Qed.

Lemma swrap64_i64 z : i64 (swrap64 z).
Proof. unfold i64, swrap64. pose proof (Z.mod_pos_bound (z + 2 ^ 63) (2 ^ 64) ltac:(lia)). lia. Qed.

Lemma null_fits col : fits col (mkDatum (c_Type col) VNil).
Proof. split; [done|]. cbn. by destruct (c_Type col). Qed.

Lemma u64_of_i64 z : i64 z -> (z <? 0) = false -> u64 z.
Proof. unfold i64, u64. intros Hz Hs. apply Z.ltb_ge in Hs. lia. Qed.

Ltac datum_fits :=
  repeat case_match; try done; intros; simplify_eq/=; split; cbn; repeat case_match; simplify_eq/=; try done;
  eauto using ParseInt_range, int64_of_float_range, uint64_of_float_range, u64_of_i64.

Lemma mapLiteral_fits expr col d : mapLiteral expr col = Ok d -> fits col d.
Proof.
  destruct expr as [|typ val|]; cbn [mapLiteral]; [intros [= <-]; apply null_fits| |done].
  destruct typ; cbn [mapLiteralByType]; [..|done].
  - unfold mapInt. destruct (ParseInt val) eqn:Ep; [|done]. destruct (c_Type col) eqn:Et; unfold fits; rewrite Et; datum_fits.
  - unfold mapString. destruct (c_Type col) eqn:Et; unfold fits; rewrite Et; datum_fits.
  - unfold mapFloat. destruct (ParseFloat val) eqn:Ep; [|done]. destruct (c_Type col) eqn:Et; unfold fits; rewrite Et; datum_fits.
Qed.

Lemma defaults_ok s : defaults_fit s -> Forall2 fits s (map default_datum s).
Proof.
  induction 1 as [|col s Hc _ IH]; constructor; [|done]. unfold default_datum.
  destruct (DefaultValue col) as [d|]; [by rewrite Datum_DeepCopy_id|apply null_fits].
Qed.

Lemma assign_columns_fits s cols exprs seen ds ds' :
  Forall2 fits s ds -> assign_columns s cols exprs seen ds = Ok ds' -> Forall2 fits s ds'.
Proof.
  revert exprs seen ds. induction cols as [|c cols IH]; intros exprs seen ds Hd; [by intros [= <-]|].
  destruct exprs as [|e exprs]; [by intros [= <-]|]. cbn [assign_columns]. case_bool_decide; [done|].
  destruct (schemaIndexByName s !! ToLower c) as [idx|]; [|done]. cbn.
  match goal with |- context [fmap _ ?o] => destruct o as [col|] eqn:Ec end; cbn; [|done].
  change (s !! idx = Some col) in Ec.
  destruct (mapLiteral e col) as [d|] eqn:Em; [|done]. cbn. apply IH.
  apply mapLiteral_fits in Em. replace s with (<[idx := col]> s) by by apply list_insert_id.
  by apply Forall2_insert.
Qed.

Lemma map_values_fits s exprs ds :
  length exprs = length s -> map_values s exprs = Ok ds -> Forall2 fits s ds.
Proof.
  revert exprs ds. induction s as [|col s IH]; intros [|e exprs] ds Hl; try done; [by intros [= <-]|].
  cbn. destruct (mapLiteral e col) as [d|] eqn:Em; [|done]. cbn.
  destruct (map_values s exprs) as [ds'|] eqn:Ev; [|done]. intros [= <-]. injection Hl as Hl.
  constructor; [by eapply mapLiteral_fits|by eapply IH].
Qed.

Lemma not_null_fits s ds : Forall2 fits s ds -> null_violation s ds = false -> row_fits s (mkRow ds 0).
Proof.
  unfold row_fits, null_violation. cbn. induction 1 as [|col d s ds Hf _ IH]; intros Hn; [constructor|].
  cbn in Hn. apply orb_false_iff in Hn as [Hn Hn']. constructor; [|by apply IH].
  split; [done|]. intros Hnn E. rewrite Hnn, E in Hn. done.
Qed.

Lemma coerceDatum_fits src col d :
  typed (d_Type src) (d_Value src) -> coerceDatum src col = Ok d -> fits col d.
Proof.
  unfold coerceDatum. destruct (is_nil _); [intros _ [= <-]; apply null_fits|]. case_bool_decide as E.
  { rewrite Datum_DeepCopy_id, E. by intros ? [= <-]. }
  destruct src as [t v]. cbn. destruct (c_Type col) eqn:Et, v; try done; unfold fits; rewrite Et; intros Hv;
    datum_fits; destruct t; try done; first [apply swrap64_i64 | by apply u64_of_i64].
Qed.

Lemma coerce_columns_fits s src ds :
  length src = length s -> Forall (fun d => typed (d_Type d) (d_Value d)) src ->
  coerce_columns s src = Ok ds -> row_fits s (mkRow ds 0).
Proof.
  unfold row_fits. cbn. revert src ds. induction s as [|col s IH]; intros [|d0 src] ds Hl Hs; try done; [by intros [= <-]|].
  inversion Hs; subst. injection Hl as Hl. cbn. destruct (coerceDatum d0 col) as [d|] eqn:Ec; [|done]. cbn.
  destruct (NotNull col && is_nil (d_Value d)) eqn:En; [done|].
  destruct (coerce_columns s src) as [ds'|] eqn:Ecs; [|done]. intros [= <-]. constructor; [|by eapply IH].
  split; [by eapply coerceDatum_fits|]. intros Hnn E. by rewrite Hnn, E in En.
Qed.

(** Accepted rows fit the table. A row that [buildRow] makes of literals, defaults and
    NULLs, or [coerceRow] of a row whose values agree with their declared types, has one
    datum per column, of the column's type and within the range of its Go type, and
    none that is NULL in a NOT NULL column. *)
Theorem accepted_rows_fit s :
  (forall cols exprs row, defaults_fit s -> buildRow s cols exprs = Ok row -> row_fits s row) /\
  (forall src row, Forall (fun d => typed (d_Type d) (d_Value d)) (Datums src) -> coerceRow s src = Ok row -> row_fits s row).
Proof.
  split.
  - intros cols exprs row Hd. unfold buildRow.
    assert (forall r : res row_err (list Datum), (forall ds, r = Ok ds -> Forall2 fits s ds) ->
      (ds ← r; if null_violation s ds then Err ErrNotNullViolation else Ok (mkRow ds 0)) = Ok row -> row_fits s row) as K.
    { intros [ds|] Hr; [|done]. cbn. destruct (null_violation s ds) eqn:En; [done|]. intros [= <-].
      apply not_null_fits; auto. }
    apply K. intros ds. destruct (0 <? zlen cols).
    + destruct (negb _); [done|]. by apply assign_columns_fits, defaults_ok.
    + destruct (zlen exprs =? zlen s) eqn:El; [|done]. apply Z.eqb_eq in El. unfold zlen in El.
      apply map_values_fits. lia.
  - intros src row Hs. unfold coerceRow. destruct (zlen (Datums src) =? zlen s) eqn:El; [|done].
    apply Z.eqb_eq in El. unfold zlen in El. cbn. destruct (coerce_columns s (Datums src)) as [ds|] eqn:Ec; [|done].
    intros [= <-]. eapply coerce_columns_fits; [|done|done]. lia.
Qed.
End rows.
