(* ===== verification/VacuumManager.v ===== *)
(** [internal/engine/sql/vacuum/vacuum.go]: the background deletion of heap files.

    Workers, the queue and the callers run concurrently: a step is one critical section,
    one channel operation or one deletion.  What holds under every interleaving: the
    count covers what is queued or in work, no accepted request is lost, and when [Stop]
    has waited for the workers every one of them has been carried out. *)

From Stdlib Require Import ZArith Lia Permutation.
From stdpp Require Import base list relations.
From S2P Require Import Prelude.
Open Scope Z_scope.

(** [internal/systemids] *)
Definition SystemTableMinID : Z := 1.
Definition SystemTableMaxID : Z := 999.

Inductive State : Type := StateNew | StateStarted | StateStopped.

#[export] Instance State_eq_dec : EqDecision State.
Proof. solve_decision. Defined.

Inductive vacuum_err : Type :=
| ErrInvalidWorkerCount | ErrInvalidQueueSize | ErrSystemTableDeletionForbidden
| ErrVacuumNotStarted | ErrVacuumAlreadyStarted | ErrVacuumStopped | ErrVacuumQueueFull.

Record DeletionRequest := mkDeletion { d_TableID : Z; FilePath : list byte }.

(** The fields of [Manager]; the channel [pending] is its contents and capacity, [stopCh]
    whether it is closed. *)
Record Manager := mkVacuum {
  state : State; pending : list DeletionRequest; capacity : Z; pendingCount : Z; workers : Z; stopCh : bool }.

Definition NewManager (workers queueSize : Z) : res vacuum_err Manager :=
  if workers <? 1 then Err ErrInvalidWorkerCount
  else if queueSize <? 1 then Err ErrInvalidQueueSize
  else Ok (mkVacuum StateNew [] queueSize 0 workers false).

Definition ScheduleDeletion (r : DeletionRequest) (m : Manager) : res vacuum_err unit * Manager :=
  if (SystemTableMinID <=? d_TableID r) && (d_TableID r <=? SystemTableMaxID) then (Err ErrSystemTableDeletionForbidden, m)
  else
    match state m with
    | StateNew => (Err ErrVacuumNotStarted, m)
    | StateStopped => (Err ErrVacuumStopped, m)
    | StateStarted =>
        if zlen (pending m) <? capacity m then
          (Ok tt, mkVacuum (state m) (pending m ++ [r]) (capacity m) (pendingCount m + 1) (workers m) (stopCh m))
        else (Err ErrVacuumQueueFull, m)
    end.

(** [Start]: also how many workers it starts. *)
Definition Start (m : Manager) : res vacuum_err Z * Manager :=
  match state m with
  | StateStarted => (Err ErrVacuumAlreadyStarted, m)
  | StateStopped => (Err ErrVacuumStopped, m)
  | StateNew => (Ok (workers m), mkVacuum StateStarted (pending m) (capacity m) (pendingCount m) (workers m) (stopCh m))
  end.

(** [Stop] up to the wait: the critical section, then the closing of the channel. *)
Definition Stop_begin (m : Manager) : res vacuum_err unit * Manager :=
  match state m with
  | StateStarted => (Ok tt, mkVacuum StateStopped (pending m) (capacity m) (pendingCount m) (workers m) (stopCh m))
  | _ => (Err ErrVacuumNotStarted, m)
  end.
Definition Stop_close (m : Manager) : Manager :=
  mkVacuum (state m) (pending m) (capacity m) (pendingCount m) (workers m) true.

Definition PendingCount (m : Manager) : Z := pendingCount m.

(** * The system *)

(** Where a worker is: at the outer [select] or in the draining loop ([drain]), with a
    request in [process] before and after the file is removed. *)
Inductive worker : Type :=
| WSelect (drain : bool)
| WRemove (r : DeletionRequest) (drain : bool)
| WCount (r : DeletionRequest) (drain : bool)
| WExited.

(** With the requests that were accepted and the files that were removed. *)
Record system := mkSystem { man : Manager; pool : list worker; accepted : list DeletionRequest; removed : list DeletionRequest }.

Definition with_man (m : Manager) (s : system) : system := mkSystem m (pool s) (accepted s) (removed s).

Definition receive (m : Manager) : Manager :=
  mkVacuum (state m) (tail (pending m)) (capacity m) (pendingCount m) (workers m) (stopCh m).
Definition count_down (m : Manager) : Manager :=
  mkVacuum (state m) (pending m) (capacity m) (pendingCount m - 1) (workers m) (stopCh m).

Inductive step : system -> system -> Prop :=
| step_schedule s r m' :
    ScheduleDeletion r (man s) = (Ok tt, m') ->
    step s (mkSystem m' (pool s) (r :: accepted s) (removed s))
| step_start s k m' :
    Start (man s) = (Ok k, m') ->
    step s (mkSystem m' (pool s ++ replicate (Z.to_nat k) (WSelect false)) (accepted s) (removed s))
| step_stop s m' : Stop_begin (man s) = (Ok tt, m') -> step s (with_man m' s)
| step_close s : state (man s) = StateStopped -> step s (with_man (Stop_close (man s)) s)
| step_receive s i drain r q :
    pool s !! i = Some (WSelect drain) -> pending (man s) = r :: q ->
    step s (mkSystem (receive (man s)) (<[i := WRemove r drain]> (pool s)) (accepted s) (removed s))
| step_stopped s i :
    pool s !! i = Some (WSelect false) -> stopCh (man s) = true ->
    step s (mkSystem (man s) (<[i := WSelect true]> (pool s)) (accepted s) (removed s))
| step_exit s i :
    pool s !! i = Some (WSelect true) -> pending (man s) = [] ->
    step s (mkSystem (man s) (<[i := WExited]> (pool s)) (accepted s) (removed s))
| step_remove s i r drain :
    pool s !! i = Some (WRemove r drain) ->
    step s (mkSystem (man s) (<[i := WCount r drain]> (pool s)) (accepted s) (r :: removed s))
| step_count s i r drain :
    pool s !! i = Some (WCount r drain) ->
    step s (mkSystem (count_down (man s)) (<[i := WSelect drain]> (pool s)) (accepted s) (removed s)).

Definition start_system (m : Manager) : system := mkSystem m [] [] [].
Definition reachable (workers queueSize : Z) (s : system) : Prop :=
  exists m, NewManager workers queueSize = Ok m /\ rtc step (start_system m) s.

(** * The invariant *)

(** The request a worker has not removed yet, and the one it has not counted yet. *)
Definition unremoved (w : worker) : list DeletionRequest := match w with WRemove r _ => [r] | _ => [] end.
Definition uncounted (w : worker) : list DeletionRequest := match w with WRemove r _ | WCount r _ => [r] | _ => [] end.

Definition draining (w : worker) : bool :=
  match w with WSelect b | WRemove _ b | WCount _ b => b | WExited => true end.

Record invariant (k : Z) (s : system) : Prop := {
  iv_workers : workers (man s) = k;
  iv_count : pendingCount (man s) = zlen (pending (man s)) + zlen (flat_map uncounted (pool s));
  iv_accepted : Permutation (accepted s) (removed s ++ flat_map unremoved (pool s) ++ pending (man s));
  iv_new : state (man s) = StateNew -> pool s = [];
  iv_pool : state (man s) <> StateNew -> zlen (pool s) = k;
  iv_closed : stopCh (man s) = true -> state (man s) = StateStopped;
  iv_draining w : w ∈ pool s -> draining w = true -> stopCh (man s) = true;
  iv_exited : WExited ∈ pool s -> pending (man s) = [];
  iv_user r : r ∈ accepted s -> ~ (SystemTableMinID <= d_TableID r <= SystemTableMaxID) }.

Lemma flat_map_insert {A B} (f : A -> list B) l i x y :
  l !! i = Some x -> Permutation (f x ++ flat_map f (<[i := y]> l)) (f y ++ flat_map f l).
Proof.
  revert i. induction l as [|z l IH]; intros [|i] Hi; try done; cbn.
  - injection Hi as ->. rewrite !app_assoc. apply Permutation_app_tail, Permutation_app_comm.
  - specialize (IH i Hi). rewrite !(Permutation_app_swap_app _ (f z)). by apply Permutation_app_head.
Qed.

Lemma flat_map_zlen {A B} (f : A -> list B) l i x y :
  l !! i = Some x -> zlen (flat_map f (<[i := y]> l)) = zlen (flat_map f l) + zlen (f y) - zlen (f x).
Proof.
  intros Hi. pose proof (Permutation_length (flat_map_insert f l i x y Hi)) as Hl.
  rewrite !length_app in Hl. unfold zlen. lia.
Qed.

Lemma flat_map_replicate {A B} (f : A -> list B) n x : f x = [] -> flat_map f (replicate n x) = [].
Proof. intros E. induction n as [|n IH]; [done|]. cbn. by rewrite E, IH. Qed.

Lemma insert_draining (l : list worker) i x y w :
  l !! i = Some x -> w ∈ <[i := y]> l -> w = y \/ w ∈ l.
Proof.
  intros Hi [j Hj]%list_elem_of_lookup. destruct (decide (i = j)) as [<-|Hne].
  - rewrite list_lookup_insert_eq in Hj by (by eapply lookup_lt_Some). left. congruence.
  - rewrite list_lookup_insert_ne in Hj by done. right. by eapply list_elem_of_lookup_2.
Qed.

(** A worker's step that leaves the queue and the requests alone. *)
Lemma invariant_worker k s i x y m' acc rem' :
  invariant k s -> pool s !! i = Some x ->
  state m' = state (man s) -> workers m' = workers (man s) -> stopCh m' = stopCh (man s) -> acc = accepted s ->
  pendingCount m' + zlen (uncounted x) + zlen (pending (man s)) =
    pendingCount (man s) + zlen (uncounted y) + zlen (pending m') ->
  Permutation (rem' ++ unremoved y ++ pending m') (removed s ++ unremoved x ++ pending (man s)) ->
  (draining y = true -> draining x = true \/ stopCh (man s) = true) ->
  (x = WExited -> False) -> (pending (man s) = [] -> pending m' = []) -> (y = WExited -> pending m' = []) ->
  invariant k (mkSystem m' (<[i := y]> (pool s)) acc rem').
Proof.
  intros [I1 I2 I3 I4 I5 I6 I7 I8 I9] Hi Es Ew Ec -> Hcount Hperm Hdrain Hx Hq Hy.
  pose proof (flat_map_zlen uncounted _ i x y Hi) as Hl.
  pose proof (flat_map_insert unremoved _ i x y Hi) as Hp.
  split; cbn; rewrite ?Es, ?Ew, ?Ec; try done.
  - lia.
  - rewrite I3. apply (Permutation_app_inv_l (unremoved x)).
    transitivity (flat_map unremoved (pool s) ++ (removed s ++ unremoved x ++ pending (man s))).
    { solve_Permutation. }
    rewrite <- Hperm. transitivity (rem' ++ (unremoved y ++ flat_map unremoved (pool s)) ++ pending m').
    { solve_Permutation. }
    rewrite <- Hp. solve_Permutation.
  - intros En. rewrite (I4 En) in Hi. done.
  - intros Hn. rewrite <- (I5 Hn). unfold zlen. by rewrite length_insert.
  - intros w Hw Hd. destruct (insert_draining _ _ _ _ _ Hi Hw) as [->|Hin]; [|by eapply I7].
    destruct (Hdrain Hd) as [Hdx|]; [|done]. apply (I7 x); [|done]. by eapply list_elem_of_lookup_2.
  - intros Hw. destruct (insert_draining _ _ _ _ _ Hi Hw) as [<-|Hin]; [by apply Hy|]. by apply Hq, I8.
Qed.

Lemma deletions_step k s s' : 1 <= k -> step s s' -> invariant k s -> invariant k s'.
Proof.
  intros Hk Hstep I. pose proof I as [I1 I2 I3 I4 I5 I6 I7 I8 I9].
  inversion Hstep as [? r m' E|? n m' E|? m' E|? E|? i drain r q Hi E|? i Hi E|? i Hi E|? i r drain Hi|? i r drain Hi];
    subst; cbn [man pool accepted removed] in *.
  - unfold ScheduleDeletion in E. destruct (_ && _) eqn:Eu; [done|]. destruct (state (man s)) eqn:Es; try done.
    destruct (_ <? _); [|done]. injection E as <-. split; cbn; rewrite ?Es; try done.
    + rewrite I2, zlen_app. change (zlen [r]) with 1. lia.
    + rewrite I3. solve_Permutation.
    + intros Hw. by specialize (I6 (I7 WExited Hw eq_refl)).
    + intros r' [->|Hr]%elem_of_cons; [lia|by apply I9].
  - unfold Start in E. destruct (state (man s)) eqn:Es; try done. injection E as <- <-.
    rewrite (I4 eq_refl) in *. cbn [app] in *. split; cbn; try done.
    + by rewrite I2, flat_map_replicate.
    + by rewrite I3, flat_map_replicate.
    + intros _. unfold zlen. rewrite length_replicate. lia.
    + intros Hc. specialize (I6 Hc). congruence.
    + intros w Hw. apply elem_of_replicate in Hw as [-> _]. done.
    + intros Hw. apply elem_of_replicate in Hw as [? _]. done.
  - unfold Stop_begin in E. destruct (state (man s)) eqn:Es; try done. injection E as <-.
    split; cbn; try done. intros _. apply I5. congruence.
  - split; cbn; try done.
  - eapply invariant_worker; [exact I|exact Hi|..]; cbn; rewrite ?E, ?zlen_cons; cbn; try done; auto.
    + change (zlen []) with 0. change (zlen [r]) with 1. lia.
  - eapply invariant_worker; [exact I|exact Hi|..]; cbn; auto; try done.
  - eapply invariant_worker; [exact I|exact Hi|..]; cbn; auto; try done.
  - eapply invariant_worker; [exact I|exact Hi|..]; cbn; auto; try done. solve_Permutation.
  - eapply invariant_worker; [exact I|exact Hi|..]; cbn; auto; try done. change (zlen []) with 0. change (zlen [r]) with 1. lia.
Qed.

Lemma deletions_reachable k q s : reachable k q s -> 1 <= k /\ invariant k s.
Proof.
  intros (m & Em & Hr). unfold NewManager in Em. destruct (k <? 1) eqn:Ek; [done|]. apply Z.ltb_ge in Ek.
  destruct (q <? 1); [done|]. injection Em as <-. split; [done|].
  remember (start_system _) as s0 eqn:E0. assert (invariant k s0) as I0.
  { subst. split; cbn; try done; intros; by apply elem_of_nil in H. }
  clear E0. induction Hr as [|s0 s1 s2 Hs _ IH]; [done|]. apply IH. by eapply deletions_step.
Qed.

(** C30: No accepted deletion is lost. Under every interleaving of callers and workers: the
    requests that were accepted are those whose files were removed, those a worker
    holds and those in the queue, each once, and none is of a system table; when
    [PendingCount] is 0, as [Drain] waits for, or when the manager is stopped and all
    its workers have ended, as [Stop] waits for, every accepted file was removed. *)
Theorem deletions_carried_out k q s :
  reachable k q s ->
  Permutation (accepted s) (removed s ++ flat_map unremoved (pool s) ++ pending (man s)) /\
  (forall r, r ∈ accepted s -> ~ (SystemTableMinID <= d_TableID r <= SystemTableMaxID)) /\
  (PendingCount (man s) = 0 \/ (state (man s) = StateStopped /\ forall w, w ∈ pool s -> w = WExited) ->
   Permutation (accepted s) (removed s)).
Proof.
  intros Hr. destruct (deletions_reachable k q s Hr) as [Hk [I1 I2 I3 I4 I5 I6 I7 I8 I9]].
  split_and!; [done|done|]. intros Hdone.
  assert (pending (man s) = [] /\ flat_map unremoved (pool s) = []) as [Ep Eu].
  { destruct Hdone as [H0|[Hs Hw]].
    - unfold PendingCount in H0. rewrite I2 in H0. pose proof (zlen_nonneg (pending (man s))).
      pose proof (zlen_nonneg (flat_map uncounted (pool s))).
      split; [destruct (pending (man s)); [done|]; rewrite zlen_cons in *; pose proof (zlen_nonneg l); lia|].
      assert (flat_map uncounted (pool s) = []) as E.
      { destruct (flat_map uncounted (pool s)) as [|r l]; [done|]. rewrite zlen_cons in *. pose proof (zlen_nonneg l). lia. }
      clear -E. induction (pool s) as [|w l IH]; [done|]. cbn in *. apply app_eq_nil in E as [E1 E2].
      rewrite (IH E2). by destruct w.
    - assert (WExited ∈ pool s) as Hex.
      { specialize (I5 ltac:(congruence)). destruct (pool s) as [|w l]; [change (zlen []) with 0 in I5; lia|].
        rewrite <- (Hw w) by left. left. }
      split; [by apply I8|]. clear -Hw. induction (pool s) as [|w l IH]; [done|]. cbn.
      rewrite (Hw w) by left. apply IH. intros w' Hw'. apply Hw. by right. }
  rewrite I3, Ep, Eu, !app_nil_r. done.
Qed.
