(* ===== verification/SqlEngine.v ===== *)
(** [internal/engine/sql/engine.go], [dml_insert.go], [dml_update.go], [dml_delete.go]: the
    SQL engine: dispatch, the cached SELECT path, DML and DDL.

    Its state is the heap manager, the transaction numbers, the plan cache, the catalog
    and the queue of file deletions; the last two are interfaces.  Statements are what
    the parser library returns, in the parts the code reads.  Log output is left out. *)

From Stdlib Require Import ZArith Lia SpecFloat.
From Stdlib Require Strings.String.
From stdpp Require Import gmap.
From S2P Require Import Prelude OrdMap Key KvNode Monad KvSpec GoRuntime HeapValue Heap GoFmt Datum Expr Operator Nodes.
From S2P Require Import Sort Join Agg Binder SchemaCodec HeapManager TxManager PlanCache Translate DmlRow VacuumManager.
Import String.StringSyntax.
Open Scope Z_scope.
Open Scope st_scope.

(** * Statements *)

Inductive insert_rows : Type :=
| Values (rows : list (list insert_value))
(** INSERT ... SELECT: the SELECT, printed and parsed again, which may fail *)
| SelectRows (reparsed : option statement).

Record insert_stmt := mkInsert { ins_Table : list byte; ins_Columns : list (list byte); ins_Rows : insert_rows }.
Record update_stmt := mkUpdate { upd_TableExprs : list table_expr; upd_Exprs : list (list byte * insert_value); upd_Where : option sql_expr }.
Record delete_stmt := mkDelete { del_TableExprs : list table_expr; del_Where : option sql_expr }.

(** CREATE TABLE with the names and type names of its columns, when it has a
    specification; DROP TABLE with its tables. *)
Inductive ddl_stmt : Type :=
| CreateTable (name : list byte) (spec : option (list (list byte * list byte)))
| DropTable (tables : list (list byte))
| OtherDDL.

(** [Type()] with the accessors [RawInsert] and the like, which may be [nil]. *)
Inductive sql_stmt : Type :=
| StmtSelect (stmt : statement)
| StmtInsert (stmt : option insert_stmt)
| StmtUpdate (stmt : option update_stmt)
| StmtDelete (stmt : option delete_stmt)
| StmtDDL (stmt : option ddl_stmt)
| StmtUnknown.

Record request := mkRequest {
  r_Stmt : sql_stmt; r_Fingerprint : list byte; r_UserID : Z; r_Tx : TxContext; AllowFullTableDelete : bool }.

(** * Interfaces *)

(** The part of the catalog the engine uses, over its state [C]. *)
Class CatalogOps (C K : Type) := {
  cat_GetTable : list byte -> C -> res K TableInfo;
  cat_SchemaVersion : C -> Z;
  cat_CheckGlobalPermission : Z -> C -> res K bool;
  cat_AllocateTableID : st C K Z;
  cat_RegisterTable : Z -> list byte -> list byte -> list byte -> st C K unit;
  cat_DropTable : list byte -> st C K unit }.

Inductive engine_err (E K : Type) : Type :=
| EErrUnsupportedFeature | EErrUnsupportedDML | EErrUnsupportedDDL | EErrBatchTooLarge | EErrWhereRequired
| EErrDeleteAllRequiresConfirmation | EErrUnsupportedWhereExpr | EErrRowNotFound | EErrMissingRowID
| EErrMutationLimitExceeded | EErrEmptyTableName | EErrEmptySchema | EErrDuplicateColumn | EErrColumnType
| EErrParse | EErrNoFuel
| EErrRow (e : row_err) | EErrCatalog (e : K) | EErrSchema (e : schema_err) | EErrHeap (e : sql_err E)
| EErrBind (e : bind_err) | EErrTranslate (e : translate_err K) | EErrPlan (e : plan_err (sql_err E)).
Arguments EErrUnsupportedFeature {E K}.
Arguments EErrUnsupportedDML {E K}.
Arguments EErrUnsupportedDDL {E K}.
Arguments EErrBatchTooLarge {E K}.
Arguments EErrWhereRequired {E K}.
Arguments EErrDeleteAllRequiresConfirmation {E K}.
Arguments EErrUnsupportedWhereExpr {E K}.
Arguments EErrRowNotFound {E K}.
Arguments EErrMissingRowID {E K}.
Arguments EErrMutationLimitExceeded {E K}.
Arguments EErrEmptyTableName {E K}.
Arguments EErrEmptySchema {E K}.
Arguments EErrDuplicateColumn {E K}.
Arguments EErrColumnType {E K}.
Arguments EErrParse {E K}.
Arguments EErrNoFuel {E K}.
Arguments EErrRow {E K} e.
Arguments EErrCatalog {E K} e.
Arguments EErrSchema {E K} e.
Arguments EErrHeap {E K} e.
Arguments EErrBind {E K} e.
Arguments EErrTranslate {E K} e.
Arguments EErrPlan {E K} e.

(** * State *)

Record engine (S C : Type) := mkEngine {
  en_tables : heapManager S; en_txm : TxManager.Manager; en_cache : PlanCache PlanTemplate; en_catalog : C;
  en_vacuum : VacuumManager.Manager }.
Arguments mkEngine {S C}.
Arguments en_tables {S C}.
Arguments en_txm {S C}.
Arguments en_cache {S C}.
Arguments en_catalog {S C}.
Arguments en_vacuum {S C}.

(** The limits, and the directory of the heap files, without a slash at its end. *)
Record config := mkConfig { maxBatchSize : Z; maxMutationRows : Z; dataDir : list byte }.

(** [NewSQLEngine], of dependencies that are not [nil]; 0 stands for the default. *)
Definition NewSQLEngine (MaxBatchSize MaxMutationRows : Z) (dir : list byte) : config :=
  mkConfig (if MaxBatchSize <=? 0 then 1000 else MaxBatchSize)
    (if MaxMutationRows =? 0 then 1000 else MaxMutationRows) dir.

Section engine.
Context {S E C K : Type} `{KvOps S E} `{GoRuntime} `{GoText} `{GoFloat} `{CatalogOps C K}.
Context (cfg : config).
Notation state := (engine S C).
Notation manager := (heapManager S).
Notation err := (engine_err E K).
Notation run := (st state err).
Notation scan := (scan_state (It := rowsAdapter)).

(** ** Parts of the state *)

Definition on_tables {A} (c : hm (S := S) (E := E) A) : run A := fun s =>
  let '(r, t) := c (en_tables s) in
  (match r with Ok a => Ok a | Err e => Err (EErrHeap e) end,
   mkEngine t (en_txm s) (en_cache s) (en_catalog s) (en_vacuum s)).

Definition on_catalog {A} (c : st C K A) : run A := fun s =>
  let '(r, cat) := c (en_catalog s) in
  (match r with Ok a => Ok a | Err e => Err (EErrCatalog e) end,
   mkEngine (en_tables s) (en_txm s) (en_cache s) cat (en_vacuum s)).

Definition ask_catalog {A} (f : C -> res K A) : run A := fun s =>
  (match f (en_catalog s) with Ok a => Ok a | Err e => Err (EErrCatalog e) end, s).

(** A method of an operator, whose state the caller holds; [w] is the table layer. *)
Definition on_op {A} (c : st (manager * scan) (plan_err (sql_err E)) A) (o : scan) : run (res (plan_err (sql_err E)) A * scan) := fun s =>
  let '(r, (t, o')) := c (en_tables s, o) in
  (Ok (r, o'), mkEngine t (en_txm s) (en_cache s) (en_catalog s) (en_vacuum s)).

Definition NextWrite : run Z := fun s =>
  let '(w, m) := NextWriteTx (en_txm s) in
  (Ok w, mkEngine (en_tables s) m (en_cache s) (en_catalog s) (en_vacuum s)).

(** [NextReadTx], alone; five steps are enough ([TxManager.next_read_terminates]). *)
Definition NextRead : run Z := fun s =>
  match NextReadTx 5 (en_txm s) with
  | (Some r, m) => (Ok r, mkEngine (en_tables s) m (en_cache s) (en_catalog s) (en_vacuum s))
  | (None, m) => (Err EErrNoFuel, mkEngine (en_tables s) m (en_cache s) (en_catalog s) (en_vacuum s))
  end.

Definition cache_lookup (k : CacheKey) : run (option PlanTemplate) := fun s =>
  let '(t, c) := Lookup k (en_cache s) in (Ok t, mkEngine (en_tables s) (en_txm s) c (en_catalog s) (en_vacuum s)).
Definition cache_store (k : CacheKey) (t : PlanTemplate) : run unit :=
  modify (fun s => mkEngine (en_tables s) (en_txm s) (PlanCache.Store k t (en_cache s)) (en_catalog s) (en_vacuum s)).

(** The catalog as the planner reads it. *)
Definition catalog_of (c : C) : Catalog K := fun name => cat_GetTable name c.

Definition get_table (name : list byte) : run TableInfo := ask_catalog (cat_GetTable name).
Definition decode_schema (info : TableInfo) : run Datum.Schema :=
  lift (match SchemaCodec.Decode (SchemaPayload info) with Ok s => Ok s | Err e => Err (EErrSchema e) end).

Definition plan_statement (stmt : statement) : run PlanTemplate := fun s =>
  (match Plan (H0 := catalog_of (en_catalog s)) stmt with Ok t => Ok t | Err e => Err (EErrTranslate e) end, s).

(** ** SELECT *)

(** A plan and the state of its nodes: an opened one is the result's stream. *)
Record stream := mkStream { str_op : Operator manager scan (sql_err E); str_state : scan }.

Definition build_plan (tmpl : PlanTemplate) (tx : TxContext) : Operator manager scan (sql_err E) :=
  Build (adapter_heap (Translate.TableID tmpl)) (sqlRowDecoder E) tx tmpl.

(** The cache-first SELECT path; the methods of the plan get [n] as fuel. *)
Definition executeSelect (n : nat) (req : request) (stmt : statement) : run stream :=
  readTx <- NextRead ;;
  let tx := mkTx readTx (WriteTxID (r_Tx req)) in
  schemaVersion <- gets (fun s => cat_SchemaVersion (en_catalog s)) ;;
  let cacheKey := mkCacheKey (r_Fingerprint req) schemaVersion in
  found <- cache_lookup cacheKey ;;
  tmpl <- match found with
          | Some tmpl => ret tmpl
          | None => tmpl <- plan_statement stmt ;; cache_store cacheKey tmpl ;;; ret tmpl
          end ;;
  on_tables (GetTableHeap (Translate.TableID tmpl)) ;;;
  let op := build_plan tmpl tx in
  '(r, o) <- on_op (Open (Operator := op) n) None ;;
  match r with
  | Ok _ => ret (mkStream op o)
  | Err e => ignore (on_op (Close (Operator := op)) o) ;;; fail (EErrPlan e)
  end.

(** ** INSERT *)

Fixpoint build_rows (s : Datum.Schema) (cols : list (list byte)) (values : list (list insert_value)) : res row_err (list Row) :=
  match values with
  | [] => Ok []
  | v :: values' => row ← buildRow s cols v; rows ← build_rows s cols values'; Ok (row :: rows)
  end.

Definition row_result {A} (r : res row_err A) : run A :=
  lift (match r with Ok a => Ok a | Err e => Err (EErrRow e) end).

(** The table of an INSERT: its number and schema. *)
Definition insert_target (name : list byte) : run (Z * Datum.Schema) :=
  tableInfo <- get_table name ;;
  engSchema <- decode_schema tableInfo ;;
  on_tables (GetTableHeap (ti_TableID tableInfo)) ;;;
  ret (ti_TableID tableInfo, engSchema).

(** The loop of [execInsertSelect]; [o] is the state of the SELECT's plan, which the
    caller closes. *)
Fixpoint insert_loop (m n : nat) (op : Operator manager scan (sql_err E)) (id : Z) (tx : TxContext) (s : Datum.Schema)
  (o : scan) (rowsAffected : Z) : run (res err Z * scan) :=
  match m with
  | O => ret (Err EErrNoFuel, o)
  | Datatypes.S m' =>
      '(r, o') <- on_op (Next (Operator := op) n) o ;;
      match r with
      | Err EOF => ret (Ok rowsAffected, o')
      | Err e => ret (Err (EErrPlan e), o')
      | Ok srcRow =>
          match coerceRow s srcRow with
          | Err e => ret (Err (EErrRow e), o')
          | Ok targetRow =>
              a <- attempt (on_tables (stream_Append id tx targetRow)) ;;
              match a with
              | Err e => ret (Err e, o')
              | Ok _ => insert_loop m' n op id tx s o' (rowsAffected + 1)
              end
          end
      end
  end.

Definition execInsertSelect (n : nat) (tx : TxContext) (stmt : insert_stmt) (reparsed : option statement) : run Z :=
  '(id, engSchema) <- insert_target (ins_Table stmt) ;;
  match reparsed with
  | None => fail EErrParse
  | Some selectStmt =>
      tmpl <- plan_statement selectStmt ;;
      on_tables (GetTableHeap (Translate.TableID tmpl)) ;;;
      let physOp := build_plan tmpl tx in
      '(opened, o) <- on_op (Open (Operator := physOp) n) None ;;
      match opened with
      | Err e => fail (EErrPlan e)
      | Ok _ =>
          began <- attempt (on_tables (BeginInsertStream id tx)) ;;
          '(r, o') <- match began with
                      | Err e => ret (Err e, o)
                      | Ok _ => insert_loop n n physOp id tx engSchema o 0
                      end ;;
          match r with
          | Err e => ignore (on_op (Close (Operator := physOp)) o') ;;; fail e
          | Ok rowsAffected =>
              on_tables (stream_Commit id tx) ;;;
              ignore (on_op (Close (Operator := physOp)) o') ;;;
              ret rowsAffected
          end
      end
  end.

Definition execInsert (n : nat) (tx : TxContext) (stmt : option insert_stmt) : run Z :=
  match stmt with
  | None => fail EErrUnsupportedDML
  | Some insert =>
      match ins_Rows insert with
      | SelectRows reparsed => execInsertSelect n tx insert reparsed
      | Values values =>
          if maxBatchSize cfg <? zlen values then fail EErrBatchTooLarge
          else
            '(id, engSchema) <- insert_target (ins_Table insert) ;;
            mappedRows <- row_result (build_rows engSchema (ins_Columns insert) values) ;;
            on_tables (InsertBatch id tx mappedRows)
      end
  end.

(** ** UPDATE and DELETE *)

Definition extractSingleDMLTableName (exprs : list table_expr) : run (list byte) :=
  match exprs with
  | [AliasedTableExpr name] => if bool_decide (name = []) then fail EErrUnsupportedDML else ret name
  | _ => fail EErrUnsupportedDML
  end.

Fixpoint collect_loop (m n : nat) (op : Operator manager scan (sql_err E)) (o : scan) (matched : list Row)
  : run (res err (list Row) * scan) :=
  match m with
  | O => ret (Err EErrNoFuel, o)
  | Datatypes.S m' =>
      '(r, o') <- on_op (Next (Operator := op) n) o ;;
      match r with
      | Err EOF => ret (Ok matched, o')
      | Err e => ret (Err (EErrPlan e), o')
      | Ok row =>
          let matched := matched ++ [Row_DeepCopy row] in
          if (0 <? maxMutationRows cfg) && (maxMutationRows cfg <? zlen matched)
          then ret (Err EErrMutationLimitExceeded, o')
          else collect_loop m' n op o' matched
      end
  end.

Definition collectMatchingRowsEnterprise (n : nat) (tx : TxContext) (id : Z) (s : Datum.Schema) (cond : option sql_expr)
  : run (list Row) :=
  pred <- match cond with
          | None => ret None
          | Some e => match BindWhere e s with
                      | Ok b => ret (Some b)
                      | Err ErrUnsupportedFeature => fail EErrUnsupportedWhereExpr
                      | Err e => fail (EErrBind e)
                      end
          end ;;
  let source := filtered pred (SeqScanNode (adapter_heap id) (sqlRowDecoder E) s tx) in
  '(opened, o) <- on_op (Open (Operator := source) n) None ;;
  match opened with
  | Err e => fail (EErrPlan e)
  | Ok _ =>
      '(r, o') <- collect_loop n n source o [] ;;
      ignore (on_op (Close (Operator := source)) o') ;;;
      lift r
  end.

(** A mutable adapter's generation is 0 when [AsMutable] makes it. *)
Definition batch_mutate (id : Z) (muts : list RowMutation) : run Z := on_tables (BatchMutate id 0 muts).

Fixpoint mutations (f : Row -> run RowMutation) (matched : list Row) : run (list RowMutation) :=
  match matched with
  | [] => ret []
  | row :: matched' =>
      if RowID row =? 0 then fail EErrMissingRowID
      else m <- f row ;; ms <- mutations f matched' ;; ret (m :: ms)
  end.

(** What both statements do with the rows that match. *)
Definition mutate_matching (n : nat) (tx : TxContext) (id : Z) (s : Datum.Schema) (cond : option sql_expr)
  (f : Row -> run RowMutation) : run Z :=
  matched <- collectMatchingRowsEnterprise n tx id s cond ;;
  if zlen matched =? 0 then fail EErrRowNotFound
  else muts <- mutations f matched ;; batch_mutate id muts.

Definition execDelete (n : nat) (tx : TxContext) (allowAll : bool) (stmt : option delete_stmt) : run Z :=
  match stmt with
  | None => fail EErrUnsupportedDML
  | Some del =>
      if bool_decide (del_Where del = None) && negb allowAll then fail EErrDeleteAllRequiresConfirmation
      else
        tableName <- extractSingleDMLTableName (del_TableExprs del) ;;
        '(id, engSchema) <- insert_target tableName ;;
        mutate_matching n tx id engSchema (del_Where del) (fun row => ret (mkMutation (RowID row) OpDelete []))
  end.

(** [setByName], from the SET assignments. *)
Fixpoint set_by_name (s : Datum.Schema) (exprs : list (list byte * insert_value)) (set : gmap (list byte) Datum)
  : res row_err (gmap (list byte) Datum) :=
  match exprs with
  | [] => Ok set
  | (name, e) :: exprs' =>
      let colName := ToLower name in
      match set !! colName with
      | Some _ => Err ErrDuplicateColumn
      | None =>
          match schemaIndexByName s !! colName ≫= (fun idx => s !! idx) with
          | None => Err ErrUnknownColumn
          | Some col => d ← mapLiteral e col; set_by_name s exprs' (<[colName := d]> set)
          end
      end
  end.

(** The loop over [setByName] that changes a copy of a row's values. *)
Fixpoint assign_set (s : Datum.Schema) (assignments : list (list byte * Datum)) (newValues : list Datum) : run (list Datum) :=
  match assignments with
  | [] => ret newValues
  | (colName, d) :: assignments' =>
      match schemaIndexByName s !! colName with
      | Some idx =>
          if (idx <? length newValues)%nat then assign_set s assignments' (<[idx := d]> newValues)
          else fail (EErrPlan (ErrEval Panic))
      | None => fail EErrUnsupportedDML
      end
  end.

Definition execUpdate (n : nat) (tx : TxContext) (stmt : option update_stmt) : run Z :=
  match stmt with
  | None => fail EErrUnsupportedDML
  | Some upd =>
      match upd_Where upd with
      | None => fail EErrWhereRequired
      | Some cond =>
          tableName <- extractSingleDMLTableName (upd_TableExprs upd) ;;
          tableInfo <- get_table tableName ;;
          engSchema <- decode_schema tableInfo ;;
          setByName <- row_result (set_by_name engSchema (upd_Exprs upd) ∅) ;;
          on_tables (GetTableHeap (ti_TableID tableInfo)) ;;;
          mutate_matching n tx (ti_TableID tableInfo) engSchema (Some cond) (fun row =>
            newValues <- assign_set engSchema (map_order (map_to_list setByName)) (Datums row) ;;
            ret (mkMutation (RowID row) OpUpdate newValues))
      end
  end.

(** ** DDL *)

Definition vitessTypeToKeyKind (vt : list byte) : option Kind :=
  let among := existsb (fun t => bool_decide (vt = t)) in
  if among [go_string "int"; go_string "integer"; go_string "bigint"; go_string "smallint"; go_string "tinyint";
    go_string "mediumint"] then Some KindInt64
  else if among [go_string "varchar"; go_string "char"; go_string "text"; go_string "tinytext";
    go_string "mediumtext"; go_string "longtext"] then Some KindString
  else if among [go_string "blob"; go_string "varbinary"; go_string "binary"; go_string "tinyblob";
    go_string "mediumblob"; go_string "longblob"] then Some KindBytes
  else if among [go_string "boolean"; go_string "bool"] then Some KindInt64
  else None.

Fixpoint ddl_columns (cols : list (list byte * list byte)) (colNames : list (list byte)) : res err (list HeapValue.Column) :=
  match cols with
  | [] => Ok []
  | (name, typ) :: cols' =>
      if bool_decide (name = []) then ddl_columns cols' colNames
      else if bool_decide (name ∈ colNames) then Err EErrDuplicateColumn
      else
        match vitessTypeToKeyKind typ with
        | None => Err EErrColumnType
        | Some kind => r ← ddl_columns cols' (name :: colNames); Ok (HeapValue.mkColumn name kind :: r)
        end
  end.

(** The first column is the primary key. *)
Definition ddlColumnsToHeapSchema (spec : option (list (list byte * list byte))) : res err HeapValue.Schema :=
  match default [] spec with
  | [] => Err EErrEmptySchema
  | cols =>
      columns ← ddl_columns cols [];
      if bool_decide (columns = []) then Err EErrEmptySchema else Ok (mkSchema 0 columns [0])
  end.

Definition keyKindToEngineType (k : Kind) : Ty :=
  match k with
  | KindUint64 => TypeUint64
  | KindInt64 => TypeInt64
  | KindString => TypeString
  | KindBytes => TypeBytes
  | _ => TypeNull
  end.

(** The engine's schema of a heap schema. *)
Definition engine_schema (s : HeapValue.Schema) : Datum.Schema :=
  map (fun col => Datum.mkColumn (HeapValue.Name col) (keyKindToEngineType (col_Kind col)) false None) (Columns s).

Definition EncodeSchemaPayload (s : HeapValue.Schema) : res schema_err (list byte) := SchemaCodec.Encode (engine_schema s).

Definition sql_name : list byte := go_string "sql".

Definition check_ddl (user : Z) : run unit :=
  ok <- ask_catalog (cat_CheckGlobalPermission user) ;;
  if ok : bool then ret tt else fail EErrUnsupportedFeature.

(** [executeCreateTable] returns the table's number, which its message names.  When the
    registration fails it removes the heap's file. *)
Definition executeCreateTable (user : Z) (tableName : list byte) (spec : option (list (list byte * list byte))) : run Z :=
  if bool_decide (tableName = []) then fail EErrEmptyTableName
  else
    check_ddl user ;;;
    schema <- lift (ddlColumnsToHeapSchema spec) ;;
    if bool_decide (Columns schema = []) then fail EErrEmptySchema
    else
      schemaPayload <- lift (match EncodeSchemaPayload schema with Ok p => Ok p | Err e => Err (EErrSchema e) end) ;;
      tableID <- on_catalog cat_AllocateTableID ;;
      on_tables (CreateTableHeap tableID schema) ;;;
      on_catalog (cat_RegisterTable tableID sql_name tableName schemaPayload) ;;;
      ret tableID.

Definition HeapPath (tableID : Z) : list byte := dataDir cfg ++ go_string "/heap_" ++ fmt_d tableID ++ go_string ".db".

Definition schedule_deletion (tableID : Z) : run unit := modify (fun s =>
  mkEngine (en_tables s) (en_txm s) (en_cache s) (en_catalog s)
    (snd (ScheduleDeletion (mkDeletion tableID (HeapPath tableID)) (en_vacuum s)))).

Definition executeDropTable (user : Z) (tables : list (list byte)) : run unit :=
  match tables with
  | [] => fail EErrEmptyTableName
  | tableName :: _ =>
      if bool_decide (tableName = []) then fail EErrEmptyTableName
      else
        check_ddl user ;;;
        info <- get_table tableName ;;
        on_catalog (cat_DropTable tableName) ;;;
        schedule_deletion (ti_TableID info)
  end.

Definition executeDDL (user : Z) (stmt : option ddl_stmt) : run unit :=
  match stmt with
  | None | Some OtherDDL => fail EErrUnsupportedDDL
  | Some (CreateTable name spec) => executeCreateTable user name spec ;;; ret tt
  | Some (DropTable tables) => executeDropTable user tables
  end.

(** ** Execute *)

Inductive sql_result : Type := RStream (s : stream) | RRows (rowsAffected : Z) | RMessage.

Definition Execute (n : nat) (req : request) : run sql_result :=
  let tx w := mkTx (ReadTxID (r_Tx req)) w in
  match r_Stmt req with
  | StmtSelect stmt => s <- executeSelect n req stmt ;; ret (RStream s)
  | StmtDDL ddl => w <- NextWrite ;; executeDDL (r_UserID req) ddl ;;; ret RMessage
  | StmtInsert ins => w <- NextWrite ;; k <- execInsert n (tx w) ins ;; ret (RRows k)
  | StmtUpdate upd => w <- NextWrite ;; k <- execUpdate n (tx w) upd ;; ret (RRows k)
  | StmtDelete del => w <- NextWrite ;; k <- execDelete n (tx w) (AllowFullTableDelete req) del ;; ret (RRows k)
  | StmtUnknown => fail EErrUnsupportedFeature
  end.
End engine.
