(* ===== verification/SqlEngineProof.v ===== *)
(** The SQL engine, proved over any store that satisfies [KvLaws]: what a SELECT returns,
    what the plan cache does to it, what an INSERT leaves in the table, and that UPDATE
    and DELETE never succeed. *)

From Stdlib Require Import ZArith Lia.
From stdpp Require Import gmap.
From S2P Require Import Prelude OrdMap Key RowKey KvNode Monad KvSpec GoRuntime HeapValue Heap HeapRows HeapProof HeapScan GoFmt Datum Expr Operator Nodes.
From S2P Require Import Sort Join Agg Binder SchemaCodec HeapManager TxManager PlannerSpec PlanCache Translate DmlRow VacuumManager SqlEngine SqlText.
Open Scope Z_scope.
Open Scope st_scope.

(** * Computations that end in an error *)

Definition fails {S E A} (c : st S E A) : Prop := forall s, exists e s', c s = (Err e, s').

Lemma fails_fail {S E A} (e : E) : fails (fail (S := S) (A := A) e).
Proof. intros s. by exists e, s. Qed.

Lemma fails_bind {S E A B} (c : st S E A) (k : A -> st S E B) : (forall a, fails (k a)) -> fails (bind c k).
Proof. intros Hk s. unfold bind. destruct (c s) as [[a|e] s']; [apply Hk|eauto]. Qed.

Lemma fails_bind_l {S E A B} (c : st S E A) (k : A -> st S E B) : fails c -> fails (bind c k).
Proof. intros Hc s. unfold bind. destruct (Hc s) as (e & s' & ->). eauto. Qed.

Section engine.
Context {S E C K : Type} `{KvLaws S E} `{GoRuntimeLaws} `{GoText} `{GoFloat} `{CatalogOps C K}.
Context (cfg : config).
Notation state := (engine S C).
Notation manager := (heapManager S).
Notation err := (engine_err E K).
Implicit Types s : state.

(** * UPDATE and DELETE *)

Lemma apply_mutations_fail mut muts k : fails (apply_mutations (S := S) (E := E) (mut :: muts) k).
Proof.
  cbn [apply_mutations]. apply fails_bind_l. unfold applyLocked. apply fails_bind. intros [? ?]. apply fails_fail.
Qed.

Lemma BatchMutate_fails id gen mut muts : fails (BatchMutate (S := S) (E := E) id gen (mut :: muts)).
Proof.
  intros w. unfold BatchMutate, pinned. destruct (set_adapter id (add_pins 1) w) as [r0 w1].
  assert (fails (for_each (mut :: muts) (fun mut => checkWriteConflictLocked (S := S) (E := E) gen (m_RowID mut)) ;;;
    apply_mutations (mut :: muts) 0)) as Hf by (apply fails_bind; intros _; apply apply_mutations_fail).
  destruct (Hf w1) as (e & w2 & ->). destruct (set_adapter id (add_pins (-1)) w2). eauto.
Qed.

Lemma mutations_length f matched s muts s' :
  mutations (S := S) (E := E) (C := C) (K := K) f matched s = (Ok muts, s') -> length muts = length matched.
Proof.
  revert s muts s'. induction matched as [|row matched IH]; intros s muts s'; cbn [mutations]; [by intros [= <- _]|].
  destruct (RowID row =? 0); [done|]. unfold bind. destruct (f row s) as [[m|] s1]; [|done].
  destruct (mutations f matched s1) as [[ms|] s2] eqn:Em; [|done]. intros [= <- _]. cbn. by rewrite (IH _ _ _ Em).
Qed.

Lemma mutate_matching_fails n tx id es cond f :
  fails (mutate_matching (S := S) (E := E) (C := C) (K := K) cfg n tx id es cond f).
Proof.
  unfold mutate_matching. apply fails_bind. intros matched.
  destruct (zlen matched =? 0) eqn:El; [apply fails_fail|]. apply Z.eqb_neq in El.
  intros s. unfold bind. destruct (mutations f matched s) as [[muts|e] s1] eqn:Em; [|eauto].
  apply mutations_length in Em. destruct muts as [|mut muts].
  { destruct matched; [done|]. done. }
  unfold batch_mutate, on_tables. destruct (BatchMutate_fails id 0 mut muts (en_tables s1)) as (e & w & ->). eauto.
Qed.

(** C29: UPDATE and DELETE never succeed. Whatever the statement and the state, both end in
    an error: when rows match, the batch of mutations is refused as unsupported. *)
Theorem update_delete_never_succeed n tx s :
  (forall allowAll stmt, exists e s', execDelete (E := E) cfg n tx allowAll stmt s = (Err e, s')) /\
  (forall stmt, exists e s', execUpdate (E := E) cfg n tx stmt s = (Err e, s')).
Proof.
  split.
  - intros allowAll stmt. apply (fails_bind (ret tt) (fun _ => execDelete cfg n tx allowAll stmt)). intros _.
    unfold execDelete. destruct stmt as [del|]; [|apply fails_fail]. destruct (_ && _); [apply fails_fail|].
    apply fails_bind. intros name. apply fails_bind. intros [id es]. apply mutate_matching_fails.
  - intros stmt. apply (fails_bind (ret tt) (fun _ => execUpdate cfg n tx stmt)). intros _.
    unfold execUpdate. destruct stmt as [upd|]; [|apply fails_fail]. destruct (upd_Where upd); [|apply fails_fail].
    do 5 (apply fails_bind; intros ?). apply mutate_matching_fails.
Qed.

(** * Templates *)

Definition template_typed (es : Datum.Schema) (tmpl : PlanTemplate) (outs : list Ty) : Prop :=
  InputSchema tmpl = es /\
  (forall b, WhereExpr tmpl = Some b -> has_type (schema_types es) b TypeBool) /\
  projection_typed (schema_types es) outs (Projections tmpl).

(** What a template returns on the rows of its table. *)
Definition template_answer (tmpl : PlanTemplate) (rows out : list Row) : Prop :=
  match Projections tmpl with
  | [] => out = where_rows (WhereExpr tmpl) rows
  | _ => Forall2 (projects (Projections tmpl)) (where_rows (WhereExpr tmpl) rows) out
  end.

Lemma template_yields {W It H'} (heap : TableHeap W It H') (dec : RowDecoder H') tx I tuples At rows es tmpl outs :
  scans heap tx I tuples At -> Forall2 (decodes dec es) tuples rows -> Forall (row_typed (schema_types es)) rows ->
  template_typed es tmpl outs ->
  exists out, template_answer tmpl rows out /\ yields (Build heap dec tx tmpl) I None out.
Proof.
  intros Hs Hd Hr (Hin & Hw & Hp). unfold Build, template_answer. rewrite Hin.
  assert (yields (filtered (WhereExpr tmpl) (SeqScanNode heap dec es tx)) I None (where_rows (WhereExpr tmpl) rows) /\
    Forall (row_typed (schema_types es)) (where_rows (WhereExpr tmpl) rows)) as [Y R].
  { pose proof (scan_contract heap dec es tx I tuples At rows Hs Hd) as C0.
    destruct (WhereExpr tmpl) as [b|]; cbn [filtered where_rows].
    - split; [|by apply selected_typed]. eexists _, _, _. refine (conj (filter_contract _ b _ _ _ _ _ C0 _) eq_refl).
      eapply Forall_impl; [exact Hr|]. intros row Hrow.
      destruct (eval_typed _ _ _ _ (Hw b eq_refl) Hrow) as (d & Ed & _). by exists d.
    - split; [|done]. eexists _, _, _. exact (conj C0 eq_refl). }
  destruct (Projections tmpl) as [|pe projs]; [by eexists|].
  destruct (projection_rows _ _ _ _ Hp R) as (out & Ho & _). exists out. split; [done|].
  destruct Y as (k & Rd & L & Hc & Hi). eexists _, _, _. split; [|exact Hi].
  by apply (project_contract _ _ (OutputSchema tmpl) _ _ _ _ _ _ Hc).
Qed.

Lemma plan_typed `{Catalog K} stmt name id es exprs from cond gb ob lim outs :
  let fields := PlannerSchemaFromEngineSchema es [] in
  TargetTables stmt = [name] -> RawAST stmt = Some (mkSelect exprs from cond gb ob lim) ->
  table_schema name = Ok (id, es) ->
  (forall e, cond = Some e -> sql_type fields e TypeBool) ->
  match exprs with Some xs => select_typed fields xs outs | None => outs = [] end ->
  exists tmpl, Plan stmt = Ok tmpl /\ Translate.TableID tmpl = id /\ template_typed es tmpl outs /\
    match cond with
    | Some e => exists b, BindWherePlanner e fields = Ok b /\ WhereExpr tmpl = Some b
    | None => WhereExpr tmpl = None
    end /\
    match exprs with Some xs => bind_projections xs fields = Ok (Projections tmpl) | None => Projections tmpl = [] end.
Proof.
  intros fields Ht Hast Htab Hcond Hsel. unfold Plan. rewrite Ht, Htab, Hast. cbn [mbind res_bind sel_Where sel_Exprs].
  assert (exists pred, match cond with Some e => (pred ← binds (K := K) (BindWhere e es); Ok (Some pred)) | None => Ok None end = Ok pred /\
    match cond with Some e => exists b, BindWherePlanner e fields = Ok b /\ pred = Some b | None => pred = None end /\
    forall b, pred = Some b -> has_type (schema_types es) b TypeBool) as (pred & -> & Hpred & Hpt).
  { destruct cond as [e|]; [|by exists None]. unfold BindWhere.
    destruct (bind_typed _ _ _ (Hcond e eq_refl)) as (b & Eb & Hb). fold fields. rewrite Eb. exists (Some b).
    split_and!; [done|by exists b|]. intros b' [= <-]. by rewrite <- engine_field_types. }
  cbn [mbind res_bind]. destruct exprs as [xs|].
  - destruct (select_bound _ _ _ Hsel) as (projs & Ep & Hp). unfold fields in Hp. rewrite engine_field_types in Hp.
    unfold BindProjection, BindProjectionPlanner. fold fields. rewrite Ep. cbn [mbind res_bind binds].
    eexists. split; [reflexivity|]. by split_and!.
  - subst outs. eexists. split; [reflexivity|]. split_and!; try done. split_and!; try done. constructor.
Qed.

(** * SELECT *)

(** The template a SELECT uses, before its plan is stored. *)
Definition cache_key (req : request) s : CacheKey := mkCacheKey (r_Fingerprint req) (cat_SchemaVersion (en_catalog s)).

(** The engine after the transaction number and the template are there. *)
Definition select_state (m : TxManager.Manager) (req : request) (tmpl : PlanTemplate) s : state :=
  let '(found, c) := Lookup (cache_key req s) (en_cache s) in
  mkEngine (en_tables s) m
    (match found with Some _ => c | None => PlanCache.Store (cache_key req s) tmpl c end)
    (en_catalog s) (en_vacuum s).

Definition select_template (req : request) (stmt : statement) s : res (translate_err K) PlanTemplate :=
  match fst (Lookup (cache_key req s) (en_cache s)) with
  | Some tmpl => Ok tmpl
  | None => Plan (H0 := catalog_of (en_catalog s)) stmt
  end.

Lemma executeSelect_template n req stmt s r m tmpl a :
  NextReadTx 5 (en_txm s) = (Some r, m) -> select_template req stmt s = Ok tmpl ->
  hm_adapters (en_tables s) !! Translate.TableID tmpl = Some a ->
  executeSelect (E := E) n req stmt s =
    (let op := build_plan tmpl (mkTx r (WriteTxID (r_Tx req))) in
     '(r, o) <- on_op (Open (Operator := op) n) None ;;
     match r with
     | Ok _ => ret (mkStream op o)
     | Err e => ignore (on_op (Close (Operator := op)) o) ;;; fail (EErrPlan e)
     end) (select_state m req tmpl s).
Proof.
  intros Er Et Ha. unfold executeSelect, select_template, select_state, cache_key in *.
  unfold bind at 1. unfold NextRead. rewrite Er. rewrite bind_gets. cbn [en_catalog en_cache en_txm en_tables en_vacuum].
  unfold bind at 1. unfold cache_lookup. cbn [en_cache].
  destruct (Lookup _ (en_cache s)) as [[t|] c] eqn:El; cbn [fst] in Et.
  - injection Et as ->. rewrite bind_ret. unfold bind at 1. unfold on_tables, GetTableHeap, adapter_of, bind at 1. cbn [en_tables].
    by rewrite Ha.
  - unfold bind at 1. unfold bind at 1. unfold plan_statement. cbn [en_catalog]. rewrite Et.
    unfold bind at 1. unfold cache_store, modify. cbn [en_tables en_txm en_cache en_catalog en_vacuum].
    unfold ret at 1. unfold bind at 1. unfold on_tables, GetTableHeap, adapter_of, bind at 1. cbn [en_tables].
    by rewrite Ha.
Qed.

Section select.
Context (id : Z) (T : HeapValue.Schema) (g : Z) (HT : schema_ok T) (Hg : 0 <= g <= MaxUint32).
Context (l : list (list byte * list byte)) (nn : nat) (tables : list (Z * HeapValue.Schema * Z)).
Context (Hid : In (id, T, g) tables) (d : db) (Hd : table_rep T l d) (es : Datum.Schema).
Context (Hes : Forall (fun col => stored_type (c_Type col)) es).
Notation I := (serving l nn tables).

(** The stream a SELECT returns, from a template of the right types. *)
Lemma select_streams req stmt s r m tmpl outs rs :
  I (en_tables s) -> NextReadTx 5 (en_txm s) = (Some r, m) ->
  select_template req stmt s = Ok tmpl -> Translate.TableID tmpl = id -> template_typed es tmpl outs ->
  visible_rows T d r rs -> Forall (readable es) (map row_values (tl rs)) -> zlen rs < MaxUint32 ->
  exists out k, template_answer tmpl (planner_rows es g 0 (map row_values (tl rs))) out /\
  forall n, (k <= n)%nat -> exists str s', executeSelect (E := E) n req stmt s = (Ok str, s') /\
    en_cache s' = en_cache (select_state m req tmpl s) /\ I (en_tables s') /\
    runs I (read_all (str_op str) n n) (en_tables s') (str_state str) (fun r _ => r = Ok out).
Proof.
  intros Hs Er Et Eid Hty Hv Hrd Hlen. pose proof Hs as Hs0. destruct Hs0 as [_ Hadapt].
  rewrite Forall_forall in Hadapt. pose proof (Hadapt (id, T, g) ltac:(by apply list_elem_of_In)) as Ha. cbn in Ha.
  destruct Ha as (a & Ha & _).
  set (tx := mkTx r (WriteTxID (r_Tx req))).
  pose proof (adapter_scans (E := E) id T g HT Hg l nn tables Hid d Hd es r (WriteTxID (r_Tx req)) rs Hv Hrd Hlen) as Hscan.
  destruct (template_yields (adapter_heap (E := E) id) (sqlRowDecoder E) tx I _ _ _ es tmpl outs Hscan
    (scan_decodes es g 0 _ Hrd)
    ltac:(pose proof (planner_rows_typed es g 0 (map row_values (tl rs)) Hes Hrd) as Hp; exact Hp) Hty)
    as (out & Ho & k & Ready & Live & Hc & Hi).
  exists out, (k + length out + 1)%nat. split; [done|]. intros n Hn.
  rewrite (executeSelect_template n req stmt s r m tmpl a Er Et ltac:(by rewrite Eid)). unfold build_plan. rewrite Eid.
  fold tx. set (op := Build (adapter_heap (E := E) id) (sqlRowDecoder E) tx tmpl) in *.
  assert (en_tables (select_state m req tmpl s) = en_tables s) as Etab.
  { unfold select_state. by destruct (Lookup _ _). }
  pose proof (c_open _ _ _ _ _ _ Hc n (en_tables s) None ltac:(lia) Hs Hi) as Hopen. unfold runs in Hopen.
  match type of Hopen with context [Open n ?x] => set (y := Open n x) in Hopen end.
  destruct y as [ro [w o]] eqn:Eo. destruct Hopen as (Hw & -> & Hl). unfold y in Eo.
  cbv zeta. unfold bind at 1. unfold on_op. rewrite Etab. rewrite Eo.
  eexists _, _. split; [reflexivity|]. split; [reflexivity|]. split; [exact Hw|]. cbn [str_op str_state en_tables].
  eapply runs_mono; [apply (read_all_yields op I k out Ready Live n n w o out Hc); (lia || done)|]. by intros r' o' [-> _].
Qed.

(** The statement whose plan a SELECT runs: its own when the cache has no plan under its
    fingerprint, else the one whose plan is there. *)
Definition planned_from (req : request) (stmt planned : statement) s : Prop :=
  match fst (Lookup (cache_key req s) (en_cache s)) with
  | Some tmpl => Plan (H0 := catalog_of (en_catalog s)) planned = Ok tmpl
  | None => planned = stmt
  end.

(** C27: What a SELECT over one table returns, from the statement to the rows, over tables
    in a key-value store.  The rows are those of the statement whose plan is used: its own when
    the plan cache has none under its fingerprint, else the one whose plan is there, which may
    differ in its literals ([cached_plan_ignores_literals]).  The scope: that statement's table is
    in the catalog with a schema of integers, strings and bytes; its WHERE clause is a condition
    with a type ([sql_type]: AND and OR over =, < and >, IN and BETWEEN of literals); its SELECT
    list is spelled out, typed and without aggregates (SELECT * is refused,
    [Binder.select_star_refused]); the visible rows but the first have no NULL.  Then the engine
    opens a stream that returns, without error: the rows visible to the new read transaction, in
    key order and without the first, that satisfy the condition, projected.  GROUP BY, ORDER BY
    and LIMIT are accepted and play no part. *)
Theorem select_end_to_end req stmt planned s r m name info exprs from cond gb ob lim outs rs :
  let fields := PlannerSchemaFromEngineSchema es [] in
  I (en_tables s) -> NextReadTx 5 (en_txm s) = (Some r, m) ->
  planned_from req stmt planned s ->
  TargetTables planned = [name] -> RawAST planned = Some (mkSelect exprs from cond gb ob lim) ->
  cat_GetTable name (en_catalog s) = Ok info -> ti_TableID info = id ->
  SchemaCodec.Decode (SchemaPayload info) = Ok es ->
  (forall e, cond = Some e -> sql_type fields e TypeBool) ->
  match exprs with Some xs => select_typed fields xs outs | None => outs = [] end ->
  visible_rows T d r rs -> Forall (readable es) (map row_values (tl rs)) -> zlen rs < MaxUint32 ->
  exists pred projs out k,
    match cond with Some e => exists b, BindWherePlanner e fields = Ok b /\ pred = Some b | None => pred = None end /\
    match exprs with Some xs => bind_projections xs fields = Ok projs | None => projs = [] end /\
    (let rows := where_rows pred (planner_rows es g 0 (map row_values (tl rs))) in
     match projs with [] => out = rows | _ => Forall2 (projects projs) rows out end) /\
    forall n, (k <= n)%nat -> exists str s', executeSelect (E := E) n req stmt s = (Ok str, s') /\
      I (en_tables s') /\
      runs I (read_all (str_op str) n n) (en_tables s') (str_state str) (fun r _ => r = Ok out).
Proof.
  intros fields Hs Er Hplan Ht Hast Hcat Hinfo Hdec Hcond Hsel Hv Hrd Hlen.
  destruct (plan_typed (H6 := catalog_of (en_catalog s)) planned name id es exprs from cond gb ob lim outs Ht Hast)
    as (tmpl & Ep & Eid & Hty & Hpred & Hproj); [|done|done|].
  { unfold table_schema, catalog_of, GetTable. by rewrite Hcat, Hdec, Hinfo. }
  assert (select_template req stmt s = Ok tmpl) as Etm.
  { unfold select_template, planned_from in *. destruct (fst _); [congruence|by subst planned]. }
  destruct (select_streams req stmt s r m tmpl outs rs Hs Er Etm Eid Hty Hv Hrd Hlen) as (out & k & Ha & Hk).
  exists (WhereExpr tmpl), (Projections tmpl), out, k. split; [by destruct cond|]. split; [destruct exprs; exact Hproj|]. split; [exact Ha|].
  intros n Hn. destruct (Hk n Hn) as (str & s' & E1 & _ & E3 & E4). by exists str, s'.
Qed.
End select.

(** * INSERT *)

Section insert.
Context (id : Z) (T : HeapValue.Schema) (HT : schema_ok T).

(** The rows of a batch, inserted one after the other up to the first that is refused. *)
Fixpoint db_insert_all tx (rows : list Row) (d : db) : HeapProof.result (E := E) * db :=
  match rows with
  | [] => (Ok tt, d)
  | row :: rows' =>
      match db_insert T tx (row_values_of row) d with
      | (Ok _, d') => db_insert_all tx rows' d'
      | (Err e, d') => (Err e, d')
      end
  end.

(** Values the table can hold, on one page. *)
Definition insertable (row : Row) : Prop :=
  row_request T (row_values_of row) /\ Forall key_cell (map (HeapValue.value_at (row_values_of row)) (PKIndices T)).

Lemma insert_rows_run tx rows :
  u64 tx -> Forall insertable rows -> forall (w : manager) n l d,
  kv_rel (hm_store w) (length rows + n) l -> table_rep T l d ->
  exists (t' : S) l', for_each rows (fun row => on_store (E := E) (Heap.Insert T tx (row_values_of row))) w =
      (match fst (db_insert_all tx rows d) with Ok _ => Ok tt | Err e => Err (ErrTable e) end, mkManager t' (hm_adapters w)) /\
    kv_rel t' n l' /\ table_rep T l' (snd (db_insert_all tx rows d)) /\ others_kept T l l'.
Proof.
  intros Hu. induction 1 as [|row rows [Hr Hk] Hrows IH]; intros w n l d Hs Hd; cbn [for_each db_insert_all].
  - exists (hm_store w), l. destruct w. auto using others_kept_refl.
  - destruct (insert_run T HT (hm_store w) (length rows + n) l d tx _ Hs Hd Hu Hr Hk) as (s1 & l1 & E1 & Hs1 & Hd1 & Ho1).
    unfold bind at 1, on_store at 1. rewrite E1. destruct (db_insert T tx (row_values_of row) d) as [[[]|e] d1]; cbn [fst snd] in *.
    + destruct (IH (mkManager s1 (hm_adapters w)) n l1 d1 Hs1 Hd1) as (s2 & l2 & E2 & Hs2 & Hd2 & Ho2).
      exists s2, l2. split; [exact E2|]. split; [done|]. split; [done|]. intros T2 d2 HT2 Hne Hr2. by apply Ho2, Ho1.
    + exists s1, l1. split; [done|]. split; [|done]. eapply kv_rel_weaken; [|exact Hs1]. lia.
Qed.

End insert.

(** * The cache *)

Lemma lookup_stored k (t : PlanTemplate) c : disabled c = false -> fst (Lookup k (PlanCache.Store k t (snd (Lookup k c)))) <> None.
Proof.
  intros Hd. unfold Lookup at 2. rewrite Hd.
  assert (forall c', disabled c' = false -> fst (Lookup k (PlanCache.Store (A := PlanTemplate) k t c')) <> None) as Hs.
  { intros c' Hd'. unfold PlanCache.Store, Lookup. rewrite Hd'. destruct (items c' !! key_string k) eqn:Ei.
    - rewrite Hd', Ei. done.
    - cbn. assert (disabled (evict c') = false) as -> by (unfold evict; repeat case_match; done).
      by rewrite lookup_insert_eq. }
  destruct (items c !! key_string k); by apply Hs.
Qed.

(** A SELECT that succeeded leaves the catalog alone and its plan in the cache. *)
Lemma executeSelect_caches n req stmt s str s' :
  disabled (en_cache s) = false -> executeSelect (E := E) n req stmt s = (Ok str, s') ->
  en_catalog s' = en_catalog s /\ fst (Lookup (cache_key req s') (en_cache s')) <> None.
Proof.
  intros Hd. unfold executeSelect. unfold bind at 1. unfold NextRead.
  destruct (NextReadTx 5 (en_txm s)) as [[r|] m]; [|done]. rewrite bind_gets. cbn [en_catalog].
  set (k := mkCacheKey _ _). unfold bind at 1. unfold cache_lookup. cbn [en_tables en_txm en_cache en_catalog en_vacuum].
  assert (forall tmpl s1, en_catalog s1 = en_catalog s -> fst (Lookup k (en_cache s1)) <> None ->
    (on_tables (K := K) (GetTableHeap (E := E) (Translate.TableID tmpl)) ;;;
     (let op := build_plan tmpl (mkTx r (WriteTxID (r_Tx req))) in
      '(r, o) <- on_op (Open (Operator := op) n) None ;;
      match r with
      | Ok _ => ret (mkStream op o)
      | Err e => ignore (on_op (Close (Operator := op)) o) ;;; fail (EErrPlan e)
      end)) s1 = (Ok str, s') ->
    en_catalog s' = en_catalog s /\ fst (Lookup (cache_key req s') (en_cache s')) <> None) as Hrest.
  { intros tmpl s1 Hc Hl. unfold bind at 1. unfold on_tables.
    destruct (GetTableHeap _ _) as [[?|?] ?]; [|done]. cbv zeta. unfold bind at 1. unfold on_op. cbn [en_tables].
    destruct (Open _ _) as [[?|?] [? ?]]; [|done]. intros [= _ <-]. cbn [en_catalog en_cache].
    split; [done|]. unfold cache_key. cbn. by rewrite Hc. }

  destruct (Lookup k (en_cache s)) as [[tmpl|] c] eqn:El.
  - rewrite bind_ret. apply Hrest; [done|]. cbn. unfold Lookup in *. rewrite Hd in El.
    destruct (items (en_cache s) !! key_string k) eqn:Ei; [|done]. injection El as <- <-.
    change (fst (if disabled (en_cache s) then (None, count_miss (count_hit (en_cache s))) else
      match items (en_cache s) !! key_string k with
      | Some t => (Some t, count_hit (count_hit (en_cache s))) | None => (None, count_miss (count_hit (en_cache s))) end) <> None).
    by rewrite Hd, Ei.
  - unfold bind at 1. unfold bind at 1. unfold plan_statement. destruct (Plan stmt) as [tmpl|e]; [|done].
    apply Hrest; [done|]. cbn. pose proof (lookup_stored k tmpl (en_cache s) Hd) as Hls. by rewrite El in Hls.
Qed.

Lemma bind_ext {X Y A B} (c : st X Y A) (k k' : A -> st X Y B) (s : X) :
  (forall a (s' : X), c s = (Ok a, s') -> k a s' = k' a s') -> bind c k s = bind c k' s.
Proof. intros H'. unfold bind. destruct (c s) as [[a|e] s'] eqn:Ec; [by apply H'|done]. Qed.

(** With a plan in the cache, the statement is not looked at. *)
Lemma executeSelect_hit n req stmt stmt' s :
  fst (Lookup (cache_key req s) (en_cache s)) <> None ->
  executeSelect (E := E) n req stmt s = executeSelect n req stmt' s.
Proof.
  intros Hl. unfold executeSelect. apply bind_ext. intros r s1 E1.
  assert (en_cache s1 = en_cache s /\ en_catalog s1 = en_catalog s) as [Ec Ek].
  { unfold NextRead in E1. destruct (NextReadTx 5 (en_txm s)) as [[?|] ?]; [|done]. by injection E1 as _ <-. }
  rewrite !bind_gets. apply bind_ext. intros found s2 E2. unfold cache_lookup in E2. unfold cache_key in Hl.
  rewrite Ec, Ek in E2. destruct (Lookup _ (en_cache s)) as [[tmpl|] c]; [|done]. by injection E2 as <- _.
Qed.

(** The plan cache forgets literals. Two statements whose canonical texts differ only in
    a number at the end have the same fingerprint, because it is computed from the
    redacted text, but a cached plan holds the numbers of its statement: once the
    first SELECT has succeeded, the second is answered as if it were the first. *)
Theorem cached_plan_ignores_literals `{SqlLibrary A} text d d' sql sql' ast ast' :
  forallb plain text = true -> before isIdentChar (last text) = false ->
  d <> [] -> d' <> [] -> forallb isDigit d = true -> forallb isDigit d' = true ->
  lib_Parse (stripCommentsLex sql) = Some ast -> CanonicalString ast = text ++ d ->
  lib_Parse (stripCommentsLex sql') = Some ast' -> CanonicalString ast' = text ++ d' ->
  FingerprintOf sql = FingerprintOf sql' /\
  forall n req req' stmt stmt' s str s',
    r_Fingerprint req = FingerprintOf sql -> r_Fingerprint req' = FingerprintOf sql' ->
    disabled (en_cache s) = false -> executeSelect (E := E) n req stmt s = (Ok str, s') ->
    forall n', executeSelect (E := E) n' req' stmt' s' = executeSelect n' req' stmt s'.
Proof.
  intros Ht Hl Hd Hd' Hn Hn' Hp Hc Hp' Hc'.
  assert (FingerprintOf sql = FingerprintOf sql') as Ef.
  { unfold FingerprintOf, Sanitize, Normalize. rewrite Hp, Hp', Hc, Hc'. by rewrite !redact_ends_in_number. }
  split; [done|]. intros n req req' stmt stmt' s str s' Er Er' Hdis Hex n'.
  destruct (executeSelect_caches _ _ _ _ _ _ Hdis Hex) as [_ Hlk]. apply executeSelect_hit.
  unfold cache_key in *. rewrite Er', <- Ef, <- Er. exact Hlk.
Qed.
End engine.
