(* ===== verification/ExamplesEngine.v ===== *)
(** The properties of the query planner and of the SQL engine at concrete inputs: a heap that is a list of
    tuples, whose decoder reads a number and a string from a tuple's first two bytes. *)

From Stdlib Require Import ZArith Lia SpecFloat Sorted.
From Stdlib Require Strings.String.
From stdpp Require Import gmap sorting.
From S2P Require Import Prelude GoFmt Datum Expr Operator Nodes Sort Join JoinProof Agg PlannerSpec.
From S2P Require Import SchemaCodec TxManager Binder PlanCache Translate.
Import String.StringSyntax.
Open Scope Z_scope.
#[local] Existing Instance simple_sort.
#[local] Existing Instance simple_sort_laws.

(** * A heap of a list *)

Definition tuple : Type := list byte * Z.

Definition list_heap (ts : list tuple) : TableHeap unit (list tuple) unit :=
  {| heap_Scan _ w := (Ok ts, w);
     iter_Next '(w, it) := match it with t :: it' => (Ok t, (w, it')) | [] => (Err EOF, (w, [])) end;
     iter_Close s := (Ok tt, s) |}.

Definition pair_decoder : RowDecoder unit := fun bs _ =>
  match bs with
  | a :: b :: _ => Ok (mkRow [mkDatum TypeInt64 (VInt64 (b2z a)); mkDatum TypeString (VString [b])] 0)
  | _ => Err (ErrHeap tt)
  end.

Definition pair_schema : Schema := [mkColumn [x69] TypeInt64 false None; mkColumn [x6e] TypeString false None].
Definition pair_types : list Ty := [TypeInt64; TypeString].

Definition pair_row (a b : byte) (id : Z) : Row :=
  mkRow [mkDatum TypeInt64 (VInt64 (b2z a)); mkDatum TypeString (VString [b])] id.

Definition no_tx : TxContext := mkTx 0 0.
Definition any_state (w : unit) : Prop := True.

Lemma list_heap_scans ts : scans (list_heap ts) no_tx any_state ts (fun rest it => it = rest).
Proof. split; [by intros [] _; exists tt, ts|by intros w it t rest _ ->|by intros w it _ ->|by intros]. Qed.

Definition pair_tuples : list tuple := [([x03; x61], 1); ([x01; x62], 2); ([x02; x61], 3)].
Definition pair_rows : list Row := [pair_row x03 x61 1; pair_row x01 x62 2; pair_row x02 x61 3].

Lemma pair_decodes : Forall2 (decodes pair_decoder pair_schema) pair_tuples pair_rows.
Proof. by repeat (constructor; [eexists; split; reflexivity|]). Qed.

Definition pair_node (ts : list tuple) : Operator unit (scan_state (It := list tuple)) unit :=
  SeqScanNode (list_heap ts) pair_decoder pair_schema no_tx.

Lemma pair_yields : yields (pair_node pair_tuples) any_state None pair_rows.
Proof.
  eexists _, _, _. split; [exact (scan_contract _ _ _ _ _ _ _ _ (list_heap_scans _) pair_decodes)|done].
Qed.

Lemma none_yields : yields (pair_node []) any_state None [].
Proof.
  eexists _, _, _.
  split; [exact (scan_contract (list_heap []) pair_decoder pair_schema no_tx _ _ _ [] (list_heap_scans _) (List.Forall2_nil _))|done].
Qed.

Ltac typed_rows := repeat first [constructor | done].

Lemma pair_typed : Forall (row_typed pair_types) pair_rows.
Proof. typed_rows; vm_compute; intuition congruence. Qed.

(** * Plans *)

(** [SELECT n, i FROM t WHERE i > 1 ORDER BY n, i LIMIT 1 OFFSET 1] *)
Definition over_one : BoundExpr := cmpExpr (colRef 0 TypeInt64) (literalExpr (mkDatum TypeInt64 (VInt64 1))) ">".
Definition swapped : list ProjectionExpr :=
  [mkProj (colRef 1 TypeString) (mkColumn [x6e] TypeString false None); mkProj (colRef 0 TypeInt64) (mkColumn [x69] TypeInt64 false None)].

Lemma over_one_type : has_type (schema_types pair_schema) over_one TypeBool.
Proof. apply (T_gt _ _ _ TypeInt64); [by constructor|]. constructor. by split_and!. Qed.

Lemma query_returns_witness :
  exists rows, returns (query_plan (list_heap pair_tuples) pair_decoder pair_schema no_tx over_one swapped []
    [mkSortKey 0 false; mkSortKey 1 false] 1 1) any_state closed_plan rows.
Proof.
  destruct (query_returns (list_heap pair_tuples) pair_decoder pair_schema no_tx over_one swapped []
    [mkSortKey 0 false; mkSortKey 1 false] 1 1 any_state pair_tuples (fun rest it => it = rest) pair_rows
    [TypeString; TypeInt64] (list_heap_scans _) pair_decodes pair_typed over_one_type
    ltac:(by repeat constructor) ltac:(constructor; [|constructor; [|constructor]]; (split; [done|eexists; split; reflexivity])))
    as (projected & sorted & _ & _ & Hr).
  exists (limit_rows 1 1 sorted). exact Hr.
Defined.

Lemma nested_loop_join_witness :
  returns (NestedLoopJoinNode (pair_node pair_tuples) (pair_node []) (Some over_one) true) any_state (closed_nlj None None)
    (join_rows (Some over_one) true pair_schema pair_rows []).
Proof.
  apply (nested_loop_join (pair_node pair_tuples) (pair_node []) any_state None None pair_rows [] (Some over_one) true
    pair_yields none_yields).
  - by repeat constructor.
  - by repeat constructor.
Defined.


(** The row of a group under COUNT and SUM of the first column. *)
Lemma counted_summed key out n x :
  group_row [1] [mkAgg AggCount 0; mkAgg AggSum 0] pair_rows key out ->
  swrap64 (zlen (group_of [1] key pair_rows)) = n -> summed (values 0 (group_of [1] key pair_rows)) = mkDatum TypeInt64 (VInt64 x) ->
  out = mkRow (key ++ [mkDatum TypeInt64 (VInt64 n); mkDatum TypeInt64 (VInt64 x)]) 0.
Proof.
  destruct out as [ds id]. intros (Eid & l & El & Hl) En Ex. cbn in Eid, El. subst id ds.
  apply Forall2_cons_inv_l in Hl as (d1 & l1 & A1 & Hl & ->). apply Forall2_cons_inv_l in Hl as (d2 & l2 & A2 & Hl & ->).
  apply Forall2_nil_inv_l in Hl as ->. unfold agg_result in A1, A2. cbn [Op a_ColIdx] in A1, A2. rewrite A1, En.
  destruct A2 as [[E2 _]|[_ A2]]; [by rewrite E2 in Ex|]. by rewrite A2, Ex.
Qed.

(** [SELECT n, COUNT(i), SUM(i) FROM t GROUP BY n] *)
Lemma group_by_rows_witness :
  returns (HashAggNode (pair_node pair_tuples) [1] [mkAgg AggCount 0; mkAgg AggSum 0]) any_state (closed_agg None)
    [mkRow [mkDatum TypeString (VString [x61]); mkDatum TypeInt64 (VInt64 2); mkDatum TypeInt64 (VInt64 5)] 0;
     mkRow [mkDatum TypeString (VString [x62]); mkDatum TypeInt64 (VInt64 1); mkDatum TypeInt64 (VInt64 1)] 0].
Proof.
  destruct (group_by_rows (pair_node pair_tuples) any_state None pair_rows pair_types [1] [mkAgg AggCount 0; mkAgg AggSum 0]
    pair_yields) as (outs & Hg & Hr).
  - constructor; [|constructor]. split; [done|]. exists TypeString. by split.
  - constructor; [right; by exists TypeInt64|]. constructor; [|constructor]. split; [done|]. by exists TypeInt64.
  - pose proof pair_typed as Ht. rewrite List.Forall_forall in Ht |- *. intros row Hrow. split; [|left; reflexivity].
    specialize (Ht row Hrow). eapply Forall2_impl; [exact Ht|]. intros t d Hd. by right.
  - by left.
  - match goal with |- returns _ _ _ ?rows => assert (outs = rows) as <-; [|exact Hr] end.
    unfold grouped_rows in Hg.
    assert (distinct (map (keys_of [1]) pair_rows) = [[mkDatum TypeString (VString [x61])]; [mkDatum TypeString (VString [x62])]]) as Ed
      by (vm_compute; reflexivity).
    rewrite Ed in Hg. apply Forall2_cons_inv_l in Hg as (o1 & os & G1 & Hg & ->).
    apply Forall2_cons_inv_l in Hg as (o2 & os2 & G2 & Hg & ->). apply Forall2_nil_inv_l in Hg as ->.
    rewrite (counted_summed [mkDatum TypeString (VString [x61])] o1 2 5 G1), (counted_summed [mkDatum TypeString (VString [x62])] o2 1 1 G2)
      by (vm_compute; reflexivity).
    reflexivity.
Defined.

(** [SELECT COUNT of everything FROM empty] *)
Lemma empty_aggregate_witness :
  exists k, forall m, runs any_state
    (Monad.bind (Open (Operator := HashAggNode (pair_node []) [] [mkAgg AggCount (-1)]) k)
      (fun _ => read_all (HashAggNode (pair_node []) [] [mkAgg AggCount (-1)]) m k))
    tt (closed_agg None) (fun r _ => r = Err NoFuel).
Proof.
  destruct (empty_aggregate_endless (pair_node []) any_state None [mkAgg AggCount (-1)] none_yields) as (k & Hk).
  exists k. intros m. exact (proj1 (Hk m k tt (le_n k) I)).
Defined.

(** * Data and expressions *)

Lemma rowid_roundtrip_witness : EncodeRowID 1 2 = Ok 4294967299 /\ DecodeRowID 4294967299 = Ok (1, 2).
Proof.
  destruct (rowid_roundtrip 1 2 4294967299 ltac:(lia) ltac:(lia) ltac:(split; lia)) as [_ H].
  split; [|reflexivity]. change (DecodeRowID 4294967299) with (@Ok rowid_err _ (1, 2)) in H. exact H.
Defined.

Lemma eval_type_sound_witness : exists d, Eval over_one (pair_row x03 x61 1) = Ok d /\ present TypeBool d.
Proof. exact (eval_type_sound _ _ _ _ over_one_type (List.Forall_inv pair_typed)). Defined.

Lemma schema_roundtrip_witness :
  exists payload, SchemaCodec.Encode pair_schema = Ok payload /\ SchemaCodec.Decode payload = Ok pair_schema.
Proof. apply (schema_roundtrip pair_schema). split; [done|]. by repeat constructor. Defined.

(** * Transaction numbers *)

Lemma next_read_terminates_witness : fst (NextReadTx 5 (mkTxManager 1 7)) = Some 8.
Proof.
  destruct (next_read_terminates (mkTxManager 1 7) 5 ltac:(cbn; lia) ltac:(cbn; lia) (le_n 5)) as (r & m' & E & _).
  rewrite E. vm_compute in E. by injection E as <- _.
Defined.

(** The schedule [overtaking] up to where goroutine 1 has its number, after three writes. *)
Definition overtaken : option system := schedule (firstn 12 overtaking) (start 0 0).

Lemma read_sees_writes_witness :
  match overtaken with
  | Some s => write_ids s = [3; 2; 1] /\ StronglySorted (fun x y : Z => y < x) (write_ids s) /\
      match readers s !! 1%nat with Some rd => pc rd = RDone 4 /\ since rd = 3 /\ since rd <= 4 | None => False end
  | None => False
  end.
Proof.
  unfold overtaken. destruct (schedule (firstn 12 overtaking) (start 0 0)) as [s|] eqn:E; [|by vm_compute in E].
  destruct (readers s !! 1%nat) as [rd|] eqn:Er; [|by vm_compute in E; injection E as <-; vm_compute in Er].
  destruct (read_sees_writes 0 0 s 1 rd 4 ltac:(lia) (schedule_reachable _ _ _ E)) as [Hw Hr].
  assert (write_ids s = [3; 2; 1] /\ pc rd = RDone 4 /\ since rd = 3) as (Ew & Ep & Es).
  { vm_compute in E. injection E as <-. vm_compute in Er. injection Er as <-. done. }
  split; [done|]. split; [done|]. split; [done|]. split; [done|]. by apply Hr.
Defined.

(** * Binding *)

Definition plain_text : GoText := {| ToLower s := s; ToUpper s := s; Sscanf_f _ := S754_zero false |}.

Definition pair_fields : PlannerSchema := PlannerSchemaFromEngineSchema pair_schema [].

(** [i < 5] *)
Definition below_five : sql_expr := ComparisonExpr LessThanOp (ColName [] [x69]) (Literal IntVal [x35]).

Lemma condition_runs_witness :
  exists b v, BindWherePlanner (H := plain_text) below_five pair_fields = Ok b /\ Eval b (pair_row x03 x61 1) = Ok (bool_datum v).
Proof.
  apply (condition_runs (H := plain_text) pair_fields below_five); [|exact (List.Forall_inv pair_typed)].
  apply (ST_lt _ _ _ TypeInt64); [|by constructor].
  exact (ST_col (H := plain_text) pair_fields [] [x69] 0 eq_refl).
Defined.

Lemma other_comparison_witness :
  exists b, BindWherePlanner (H := plain_text) (ComparisonExpr OtherOp (ColName [] [x69]) (Literal IntVal [x35])) pair_fields = Ok b /\
    forall row d, Eval b row <> Ok d.
Proof.
  exact (other_comparison_never_evaluates (H := plain_text) pair_fields (ColName [] [x69]) (Literal IntVal [x35]) _ _ eq_refl eq_refl).
Defined.

(** * The plan cache *)

Lemma plan_cache_queue_witness : cache_rep (A := nat) 2 [] (NewPlanCache 2).
Proof. exact (proj1 (plan_cache_queue 2 ltac:(lia))). Defined.

(** * Translation *)

Definition name_t : list byte := [x74].

Definition one_table : Catalog unit := fun name =>
  if bool_decide (name = name_t) then
    match SchemaCodec.Encode pair_schema with Ok payload => Ok (mkTableInfo 7 payload) | Err _ => Err tt end
  else Err tt.

Definition one_heap (id : Z) : option (TableHeap unit (list tuple) unit) :=
  if id =? 7 then Some (list_heap pair_tuples) else None.

(** [SELECT n, i FROM t WHERE i < 5 ORDER BY i LIMIT k], with the digit of [k] *)
Definition pair_query (k : byte) : statement := mkStatement [name_t] (Some (mkSelect
  (Some [AliasedExpr (ColName [] [x6e]) []; AliasedExpr (ColName [] [x69]) []])
  [AliasedTableExpr name_t] (Some below_five) [] [(ColName [] [x69], false)]
  (Some (Some (Literal IntVal [k]), None)))).

Lemma below_five_type : sql_type (H := plain_text) pair_fields below_five TypeBool.
Proof.
  apply (ST_lt _ _ _ TypeInt64); [|by constructor].
  exact (ST_col (H := plain_text) pair_fields [] [x69] 0 eq_refl).
Qed.

(** LIMIT 2 returns two of the three rows, LIMIT 0 all three. *)
Lemma translated_query_witness :
  (exists p out, Translate (H0 := plain_text) (H1 := one_table) one_heap pair_decoder no_tx (pair_query x32) = Ok p /\
     returns (p_op p) any_state (p_init p) out /\ length out = 2%nat) /\
  (exists p out, Translate (H0 := plain_text) (H1 := one_table) one_heap pair_decoder no_tx (pair_query x30) = Ok p /\
     returns (p_op p) any_state (p_init p) out /\ length out = 3%nat).
Proof.
  assert (forall k, exists p out sorted,
    Translate (H0 := plain_text) (H1 := one_table) one_heap pair_decoder no_tx (pair_query k) = Ok p /\
    returns (p_op p) any_state (p_init p) out /\ length sorted = 3%nat /\
    (limit_ignored (Some (Some (Literal IntVal [k]), None)) = false ->
      out = cut_rows (Some (Some (Literal IntVal [k]), None)) sorted) /\
    (limit_ignored (Some (Some (Literal IntVal [k]), None)) = true -> out = sorted)) as Hq.
  { intros k.
    destruct (translated_query_returns (H0 := plain_text) (H1 := one_table) one_heap pair_decoder no_tx (pair_query k) name_t 7 pair_schema
      (list_heap pair_tuples) any_state pair_tuples (fun rest it => it = rest) pair_rows
      [AliasedExpr (ColName [] [x6e]) []; AliasedExpr (ColName [] [x69]) []] (Some below_five) [(ColName [] [x69], false)]
      (Some (Some (Literal IntVal [k]), None)) [TypeString; TypeInt64] _ _ eq_refl ltac:(done) ltac:(vm_compute; reflexivity)
      eq_refl (list_heap_scans _) pair_decodes pair_typed
      ltac:(intros e [= <-]; exact below_five_type)
      ltac:(constructor; [|constructor; [|constructor]]; eexists _, _; (split_and!; [reflexivity|reflexivity|]);
        [exact (ST_col (H := plain_text) pair_fields [] [x6e] 1 eq_refl)|exact (ST_col (H := plain_text) pair_fields [] [x69] 0 eq_refl)])
      eq_refl eq_refl
      ltac:(constructor; [|constructor]; (split; [done|eexists; split; reflexivity])))
      as (p & pred & projected & sorted & out & E & (c & Ec & ->) & Hf & (Hs & _) & Hr & Hcut & Hall).
    exists p, out, sorted. split_and!; try done. rewrite (Permutation_length Hs), <- (Forall2_length _ _ _ Hf).
    vm_compute in Ec. injection Ec as <-. vm_compute. reflexivity. }
  split.
  - destruct (Hq x32) as (p & out & sorted & E & Hr & Hl & Hcut & _). exists p, out. split_and!; [done|done|].
    rewrite (Hcut eq_refl). destruct sorted as [|r1 [|r2 [|r3 [|]]]]; try discriminate. reflexivity.
  - destruct (Hq x30) as (p & out & sorted & E & Hr & Hl & _ & Hall). exists p, out. split_and!; [done|done|].
    by rewrite (Hall eq_refl).
Defined.

(** [t JOIN t ON t.i = t.i] *)
Lemma qualified_columns_witness :
  translateTableExpr (H0 := plain_text) (H1 := one_table) one_heap pair_decoder no_tx
    (JoinTableExpr (AliasedTableExpr name_t) (AliasedTableExpr name_t) NormalJoin
      (Some (ComparisonExpr EqualOp (ColName name_t [x69]) (ColName name_t [x69])))) = Err (ErrBind ErrColumnNotFound).
Proof.
  destruct (qualified_columns_refused (H0 := plain_text) (H1 := one_table) one_heap pair_decoder no_tx name_t [x69] eq_refl ltac:(done))
    as (_ & Hj & _).
  specialize (Hj EqualOp (AliasedTableExpr name_t) (AliasedTableExpr name_t) NormalJoin (ColName name_t [x69])).
  destruct (translateTableExpr _ _ _ _) as [p|e] eqn:E.
  - destruct (Hj p ltac:(done) eq_refl).
  - rewrite <- E. vm_compute. reflexivity.
Defined.

(** * The SQL engine

    A table of two columns and two rows in the reference store, known to a catalog of one
    table. *)

From S2P Require Import Prelude OrdMap Key RowKey KvNode Monad KvSpec GoRuntime HeapValue Heap HeapRows HeapProof HeapScan GoFmt Datum Expr Operator Nodes.
From S2P Require Import Sort Join Agg Binder SchemaCodec HeapManager TxManager PlannerSpec PlanCache Translate DmlRow VacuumManager SqlEngine SqlText SqlEngineProof Examples.
#[local] Existing Instance simple_runtime.
#[local] Existing Instance simple_runtime_laws.

Definition plain_go_text : GoText := {| ToLower s := s; ToUpper s := s; Sscanf_f _ := S754_zero false |}.
Definition plain_go_float : GoFloat := {| ParseFloat _ := None; int64_of_float _ := 0; uint64_of_float _ := 0 |}.
#[local] Existing Instance plain_go_text.
#[local] Existing Instance plain_go_float.

Lemma plain_go_float_laws : GoFloatLaws.
Proof. split; intros; cbn; [unfold i64|unfold u64]; lia. Qed.
#[local] Existing Instance plain_go_float_laws.

(** * Rows *)

Definition users_columns : Datum.Schema := [Datum.mkColumn [x69] TypeUint64 false None; Datum.mkColumn [x6e] TypeString false None].

Lemma accepted_rows_fit_witness :
  row_fits users_columns (Datum.mkRow [mkDatum TypeUint64 (VUint64 7); mkDatum TypeString (VString [x62])] 0).
Proof.
  apply (proj1 (accepted_rows_fit users_columns) [] [LiteralVal IntVal [x37]; LiteralVal StrVal [x62]]); [|vm_compute; reflexivity].
  by repeat constructor.
Defined.

(** * Deletions *)

Definition some_file : DeletionRequest := mkDeletion 1000 [x66].

Lemma deletions_carried_out_witness :
  exists s, reachable 1 1 s /\ Permutation (accepted s) (removed s) /\ accepted s = [some_file].
Proof.
  set (m0 := mkVacuum StateNew [] 1 0 1 false).
  set (m1 := mkVacuum StateStarted [] 1 0 1 false). set (m2 := mkVacuum StateStarted [some_file] 1 1 1 false).
  assert (reachable 1 1 (mkSystem m1 [WSelect false] [some_file] [some_file])) as Hr.
  { exists m0. split; [reflexivity|].
    eapply rtc_l; [apply (step_start (start_system m0) 1 m1); reflexivity|].
    eapply rtc_l; [eapply (step_schedule _ some_file m2); reflexivity|].
    eapply rtc_l; [eapply (step_receive _ 0 false some_file []); reflexivity|].
    eapply rtc_l; [eapply (step_remove _ 0); reflexivity|].
    eapply rtc_l; [eapply (step_count _ 0); reflexivity|]. apply rtc_refl. }
  eexists. split; [exact Hr|]. split; [|reflexivity].
  destruct (deletions_carried_out 1 1 _ Hr) as (_ & _ & H). apply H. by left.
Defined.

(** * SELECT *)

Definition unit_catalog : CatalogOps unit unit := {|
  cat_GetTable name _ :=
    match SchemaCodec.Encode users_columns with
    | Ok payload => if bool_decide (name = [x75]) then Ok (mkTableInfo 7 payload) else Err tt
    | Err _ => Err tt
    end;
  cat_SchemaVersion _ := 1;
  cat_CheckGlobalPermission _ _ := Ok true;
  cat_AllocateTableID s := (Ok 1000, s);
  cat_RegisterTable _ _ _ _ s := (Ok tt, s);
  cat_DropTable _ s := (Ok tt, s) |}.
#[local] Existing Instance unit_catalog.

Definition row_one : row := [AUint64 1; AString [x62]].
Definition row_two : row := [AUint64 2; AString [x63]].
Definition encoded_row (r : row) : list byte := match encodeEnterpriseValue users (Some r) FlagNormal with Ok v => v | Err _ => [] end.

(** The two rows, written by transaction 5. *)
Definition users_store : refStore :=
  om_set (row_key users [Uint64 2] 5) (encoded_row row_two) (om_set (row_key users [Uint64 1] 5) (encoded_row row_one) []).
Definition users_db : db := db_put [Uint64 2] ([] ++ [(5, Some row_two)]) (db_put [Uint64 1] ([] ++ [(5, Some row_one)]) (fun _ => [])).

Lemma users_pk i : u64 i -> pk_ok users [Uint64 i].
Proof. intros Hi. split; [constructor; [by constructor|constructor]|done]. Qed.

Lemma users_rep : table_rep users users_store users_db /\ om_sorted users_store.
Proof.
  assert (u64 5) as H5 by done.
  pose proof (set_version_rep users users_ok [] (fun _ => []) [Uint64 1] 5 (Some row_one) (encoded_row row_one)
    ltac:(constructor) empty_table (users_pk 1 ltac:(done)) H5 ltac:(vm_compute; reflexivity) eq_refl) as R1.
  assert (om_sorted (om_set (row_key users [Uint64 1] 5) (encoded_row row_one) [])) as O1 by (apply om_set_sorted; constructor).
  split; [|by apply om_set_sorted].
  exact (set_version_rep users users_ok _ _ [Uint64 2] 5 (Some row_two) (encoded_row row_two)
    O1 R1 (users_pk 2 ltac:(done)) H5 ltac:(vm_compute; reflexivity) eq_refl).
Qed.

Definition users_rows : list visibleRow :=
  [Heap.mkRow (row_prefix users [Uint64 1]) row_one; Heap.mkRow (row_prefix users [Uint64 2]) row_two].

Lemma users_visible : visible_rows users users_db 6 users_rows.
Proof.
  split; [repeat constructor; vm_compute; reflexivity|]. intros k vals. split.
  - intros [[= <- <-]|[[= <- <-]|[]]]; eexists; (split; [|split; [reflexivity|vm_compute; reflexivity]]); by apply users_pk.
  - intros (pk & _ & -> & Hv). unfold users_db, db_put in Hv.
    destruct (decide (pk = [Uint64 2])) as [->|_]; [right; left; vm_compute in Hv; by injection Hv as <-|].
    destruct (decide (pk = [Uint64 1])) as [->|_]; [left; vm_compute in Hv; by injection Hv as <-|done].
Qed.

Definition users_engine : engine refStore unit :=
  mkEngine (mkManager users_store {[7 := mkAdapter users 5 1 0]}) (mkTxManager 5 5) (NewPlanCache 10) tt (mkVacuum StateStarted [] 1 0 1 false).

(** [SELECT n FROM u WHERE i = 2] *)
Definition users_query (i : list byte) : statement := mkStatement [[x75]] (Some (mkSelect
  (Some [AliasedExpr (ColName [] [x6e]) []]) [AliasedTableExpr [x75]]
  (Some (ComparisonExpr EqualOp (ColName [] [x69]) (Literal IntVal i))) [] [] None)).
Definition users_request (fp : list byte) (i : list byte) : request := mkRequest (StmtSelect (users_query i)) fp 1 (mkTx 0 0) false.
Definition users_fields : PlannerSchema := PlannerSchemaFromEngineSchema users_columns [].

Lemma users_serving : @serving refStore ref_err _ _ users_store 0 [(7, users, 1)] (en_tables users_engine).
Proof.
  split; [split; [reflexivity|apply users_rep]|]. constructor; [|constructor]. by exists (mkAdapter users 5 1 0).
Qed.

(** [SELECT n FROM u WHERE n = v]; the request has the fingerprint of the text without [v]. *)
Definition named_query (v : byte) : statement := mkStatement [[x75]] (Some (mkSelect
  (Some [AliasedExpr (ColName [] [x6e]) []]) [AliasedTableExpr [x75]]
  (Some (ComparisonExpr EqualOp (ColName [] [x6e]) (Literal StrVal [v]))) [] [] None)).
Definition named_request (v : byte) : request := mkRequest (StmtSelect (named_query v)) [x31] 1 (mkTx 0 0) false.

(** The engine with the plan of [WHERE n = 'c'] in its cache. *)
Definition users_cached : engine refStore unit :=
  mkEngine (en_tables users_engine) (en_txm users_engine)
    (match Plan (H0 := catalog_of tt) (named_query x63) with
     | Ok tmpl => PlanCache.Store (cache_key (named_request x63) users_engine) tmpl (NewPlanCache 10)
     | Err _ => NewPlanCache 10
     end) tt (en_vacuum users_engine).

(** The query for [v] has the row [c] as its only answer. *)
Definition answers_c (s : engine refStore unit) (v : byte) : Prop :=
  exists k, forall n, (k <= n)%nat -> exists str s',
    executeSelect (E := ref_err) n (named_request v) (named_query v) s = (Ok str, s') /\
    runs (serving users_store 0 [(7, users, 1)]) (read_all (str_op str) n n) (en_tables s') (str_state str)
      (fun r _ => r = Ok [mkRow [mkDatum TypeString (VString [x63])] 0]).

(** The row [c] is found, without a plan in the cache, and when asked for [d] with the plan for
    [c] there. *)
Lemma select_end_to_end_witness : answers_c users_engine x63 /\ answers_c users_cached x64.
Proof.
  cut (forall s v, s = users_engine /\ v = x63 \/ s = users_cached /\ v = x64 -> answers_c s v).
  { intros Ha. split; apply Ha; [by left|by right]. }
  intros s v Hsv. unfold answers_c.
  destruct (select_end_to_end (E := ref_err) 7 users 1 users_ok ltac:(vm_compute; by split) users_store 0 [(7, users, 1)]
    ltac:(by left) users_db (proj1 users_rep) users_columns ltac:(by repeat constructor)
    (named_request v) (named_query v) (named_query x63) s 6 (snd (NextReadTx 5 (mkTxManager 5 5))) [x75]
    (match cat_GetTable [x75] tt with Ok info => info | Err _ => mkTableInfo 0 [] end)
    (Some [AliasedExpr (ColName [] [x6e]) []]) [AliasedTableExpr [x75]]
    (Some (ComparisonExpr EqualOp (ColName [] [x6e]) (Literal StrVal [x63]))) [] [] None [TypeString] users_rows
    ltac:(destruct Hsv as [[-> _]|[-> _]]; exact users_serving) ltac:(destruct Hsv as [[-> _]|[-> _]]; vm_compute; reflexivity)
    ltac:(destruct Hsv as [[-> ->]|[-> ->]]; vm_compute; reflexivity)
    eq_refl eq_refl ltac:(destruct Hsv as [[-> _]|[-> _]]; vm_compute; reflexivity) ltac:(vm_compute; reflexivity)
    ltac:(vm_compute; reflexivity)
    ltac:(intros e [= <-]; eapply ST_eq; [exact (ST_col users_fields [] [x6e] 1 eq_refl)|by constructor])
    ltac:(constructor; [|constructor]; eexists _, _; (split_and!; [reflexivity|reflexivity|]); exact (ST_col users_fields [] [x6e] 1 eq_refl))
    users_visible
    ltac:(constructor; [|constructor]; split; [repeat constructor; vm_compute; discriminate|reflexivity|done])
    ltac:(vm_compute; reflexivity))
    as (pred & projs & out & k & (b & Eb & ->) & Ep & Hout & Hk).
  assert (out = [mkRow [mkDatum TypeString (VString [x63])] 0]) as ->.
  { vm_compute in Eb. injection Eb as <-. vm_compute in Ep. injection Ep as <-. cbv zeta in Hout.
    match type of Hout with Forall2 _ ?rows _ =>
      let r := eval vm_compute in rows in replace rows with r in Hout by (vm_compute; reflexivity) end.
    apply Forall2_cons_inv_l in Hout as ([ds id] & out' & [Ed Eid] & Hout & ->).
    apply Forall2_nil_inv_l in Hout as ->. vm_compute in Ed. injection Ed as <-. cbn in Eid. by rewrite Eid. }
  exists k. intros n Hn. destruct (Hk n Hn) as (str & s' & E & _ & Hr). by exists str, s'.
Defined.

(** Texts stand for their own syntax trees. *)
Definition text_library : SqlLibrary (list byte) := {| lib_Parse s := Some s; CanonicalString s := s; Sum256 s := s |}.
#[local] Existing Instance text_library.

Definition select_text : list byte := go_string "select n from u where i = ".

(** The second SELECT, of the row 3, is answered as the first, of the row 2. *)
Lemma cached_plan_ignores_literals_witness :
  exists str s', executeSelect (E := ref_err) 5 (users_request (FingerprintOf (select_text ++ [x32])) [x32]) (users_query [x32]) users_engine = (Ok str, s') /\
    forall n, executeSelect (E := ref_err) n (users_request (FingerprintOf (select_text ++ [x33])) [x33]) (users_query [x33]) s'
      = executeSelect n (users_request (FingerprintOf (select_text ++ [x33])) [x33]) (users_query [x32]) s'.
Proof.
  set (req := users_request (FingerprintOf (select_text ++ [x32])) [x32]).
  assert (match executeSelect (E := ref_err) 5 req (users_query [x32]) users_engine with (Ok _, _) => true | _ => false end = true) as Hok
    by (vm_compute; reflexivity).
  destruct (executeSelect (E := ref_err) 5 req (users_query [x32]) users_engine) as [[str|] s'] eqn:E; [|discriminate].
  exists str, s'. split; [reflexivity|].
  exact (proj2 (cached_plan_ignores_literals select_text [x32] [x33] (select_text ++ [x32]) (select_text ++ [x33])
    (select_text ++ [x32]) (select_text ++ [x33]) ltac:(vm_compute; reflexivity) ltac:(vm_compute; reflexivity) ltac:(done) ltac:(done) eq_refl eq_refl
    ltac:(vm_compute; reflexivity) eq_refl ltac:(vm_compute; reflexivity) eq_refl) 5%nat req (users_request (FingerprintOf (select_text ++ [x33])) [x33]) (users_query [x32]) (users_query [x33]) users_engine str s' eq_refl eq_refl eq_refl E).
Defined.

(** * INSERT *)

(** [INSERT INTO u VALUES (3, 'b'), (3, 'c')]: refused, but the first row stays. *)
Definition two_rows : list (list insert_value) :=
  [[LiteralVal IntVal [x33]; LiteralVal StrVal [x62]]; [LiteralVal IntVal [x33]; LiteralVal StrVal [x63]]].
Definition two_insert : insert_stmt := mkInsert [x75] [] (Values two_rows).
Definition small_config : config := NewSQLEngine 10 10 [x64].

Definition third_row (c : byte) : Row := Datum.mkRow [mkDatum TypeUint64 (VUint64 3); mkDatum TypeString (VString [c])] 0.

Lemma third_insertable c : insertable users (third_row c).
Proof.
  split; [split|].
  - constructor; [|constructor; [|constructor]]; vm_compute; [by split|done].
  - intros v. destruct c; vm_compute; intros [= <-]; vm_compute; discriminate.
  - constructor; [|constructor]. vm_compute. by split.
Qed.

