(* ===== verification/Gorilla.v ===== *)
(** [internal/engine/metrics/gorilla.go], the bit streams: timestamps by the difference of
    differences, floats by exclusive or.

    Both the encoder and the decoder have the fields of [gorilla].  The code only moves
    the 64 bits of a float, so a value is [math.Float64bits] of it.  Reading past the
    end of the buffer and a negative shift are panics: the reading functions return
    [None]. *)

From Stdlib Require Import ZArith Lia.
From stdpp Require Import base option list.
From stdpp Require Import base option list sets.
From S2P Require Import Prelude.
Open Scope Z_scope.

Record gorilla := mkGorilla {
  buf : list byte; bitPos : Z; prevTime : Z; prevDelta : Z; prevValue : Z;
  prevLeading : Z; prevTrailing : Z; hasPrevTime : bool; hasPrevValue : bool }.

Implicit Types e d : gorilla.

Definition set_stream (b : list byte) (pos : Z) e : gorilla :=
  mkGorilla b pos (prevTime e) (prevDelta e) (prevValue e) (prevLeading e) (prevTrailing e) (hasPrevTime e) (hasPrevValue e).
Definition set_time (ts delta : Z) e : gorilla :=
  mkGorilla (buf e) (bitPos e) ts delta (prevValue e) (prevLeading e) (prevTrailing e) true (hasPrevValue e).
Definition set_value (bits : Z) e : gorilla :=
  mkGorilla (buf e) (bitPos e) (prevTime e) (prevDelta e) bits (prevLeading e) (prevTrailing e) (hasPrevTime e) true.
Definition set_window (leading trailing : Z) e : gorilla :=
  mkGorilla (buf e) (bitPos e) (prevTime e) (prevDelta e) (prevValue e) leading trailing (hasPrevTime e) (hasPrevValue e).

(** * Zero bits *)

Definition leading_step (k : Z) (s : Z * Z) : Z * Z :=
  let '(n, x) := s in if Z.shiftr x (64 - k) =? 0 then (n + k, wrap64 (Z.shiftl x k)) else (n, x).

Definition leadingZeros64 (x : Z) : Z :=
  if x =? 0 then 64
  else
    let '(n, x) := leading_step 2 (leading_step 4 (leading_step 8 (leading_step 16 (leading_step 32 (0, x))))) in
    if Z.shiftr x 63 =? 0 then n + 1 else n.

(** The loop ends after at most 64 rounds on a 64-bit number that is not 0. *)
Fixpoint trailing_loop (fuel : nat) (n x : Z) : Z :=
  match fuel with
  | O => n
  | S fuel' => if Z.land x 1 =? 0 then trailing_loop fuel' (n + 1) (Z.shiftr x 1) else n
  end.

Definition trailingZeros64 (x : Z) : Z := if x =? 0 then 64 else trailing_loop 64 0 x.

(** * Encoder *)

Definition newGorillaEncoder (cap : Z) : gorilla := mkGorilla (zrep cap x00) 0 0 0 0 0 0 false false.

Definition bytes e : list byte := ztake ((bitPos e + 7) / 8) (buf e).

Definition ensureCapacity (bits : Z) e : gorilla :=
  let needed := (bitPos e + bits + 7) / 8 in
  if needed <=? zlen (buf e) then e
  else set_stream (copy_into (zrep (needed * 2) x00) 0 (needed * 2) (buf e)) (bitPos e) e.

Definition set_bit (bitIdx : Z) (b : byte) : byte := z2b (Z.lor (b2z b) (Z.shiftl 1 bitIdx)).

Definition writeBit (bit : Z) e : gorilla :=
  let e := ensureCapacity 1 e in
  let byteIdx := bitPos e / 8 in
  let bitIdx := 7 - bitPos e mod 8 in
  set_stream (if negb (bit =? 0) then alter (set_bit bitIdx) (Z.to_nat byteIdx) (buf e) else buf e) (bitPos e + 1) e.

Fixpoint write_bits (n : nat) (value : Z) e : gorilla :=
  match n with
  | O => e
  | S i => write_bits i value (writeBit (Z.land (Z.shiftr value (Z.of_nat i)) 1) e)
  end.

Definition writeBits (value nBits : Z) e : gorilla := write_bits (Z.to_nat nBits) value (ensureCapacity nBits e).

Definition writeTimestamp (ts : Z) e : gorilla :=
  if negb (hasPrevTime e) then set_time ts 0 (writeBits (wrap64 ts) 64 e)
  else
    let delta := swrap64 (ts - prevTime e) in
    let dod := swrap64 (delta - prevDelta e) in
    set_time ts delta
      (if dod =? 0 then writeBit 0 e
       else if (-63 <=? dod) && (dod <=? 64) then writeBits (Z.land (wrap64 dod) 127) 7 (writeBits 2 2 e)
       else if (-255 <=? dod) && (dod <=? 256) then writeBits (Z.land (wrap64 dod) 511) 9 (writeBits 6 3 e)
       else if (-2047 <=? dod) && (dod <=? 2048) then writeBits (Z.land (wrap64 dod) 4095) 12 (writeBits 14 4 e)
       else writeBits (wrap64 dod) 32 (writeBits 15 4 e)).

(** [(1 << n) - 1] as a [uint64]. *)
Definition ones64 (n : Z) : Z := wrap64 (wrap64 (Z.shiftl 1 n) - 1).

Definition writeFloat (bits : Z) e : gorilla :=
  if negb (hasPrevValue e) then set_value bits (writeBits bits 64 e)
  else
    let xor := Z.lxor bits (prevValue e) in
    set_value bits
      (if xor =? 0 then writeBit 0 e
       else
         let e := writeBit 1 e in
         let leading := leadingZeros64 xor in
         let trailing := trailingZeros64 xor in
         if (prevLeading e <=? leading) && (prevTrailing e <=? trailing) then
           let e := writeBit 0 e in
           let meaningfulLen := 64 - prevLeading e - prevTrailing e in
           let meaningful := Z.land (Z.shiftr xor (prevTrailing e)) (ones64 meaningfulLen) in
           writeBits meaningful meaningfulLen e
         else
           let e := writeBit 1 e in
           let e := writeBits leading 5 e in
           let meaningfulLen := 64 - leading - trailing in
           let e := writeBits meaningfulLen 6 e in
           let meaningful := Z.land (Z.shiftr xor trailing) (ones64 meaningfulLen) in
           set_window leading trailing (writeBits meaningful meaningfulLen e)).

(** * Decoder *)

Definition newGorillaDecoder (data : list byte) : gorilla := mkGorilla data 0 0 0 0 0 0 false false.

Definition readBit d : option (Z * gorilla) :=
  b ← buf d !! Z.to_nat (bitPos d / 8);
  Some (Z.land (Z.shiftr (b2z b) (7 - bitPos d mod 8)) 1, set_stream (buf d) (bitPos d + 1) d).

Fixpoint read_bits (n : nat) (v : Z) d : option (Z * gorilla) :=
  match n with
  | O => Some (v, d)
  | S n' => '(bit, d) ← readBit d; read_bits n' (Z.lor (wrap64 (Z.shiftl v 1)) bit) d
  end.

Definition readBits (nBits : Z) d : option (Z * gorilla) := read_bits (Z.to_nat nBits) 0 d.

(** The control bits and the difference of differences. *)
Definition read_dod d : option (Z * gorilla) :=
  '(control, d) ← readBit d;
  if control =? 0 then Some (0, d)
  else
    '(control2, d) ← readBit d;
    if control2 =? 0 then
      '(dod, d) ← readBits 7 d;
      Some (if negb (Z.land dod 64 =? 0) then dod - 128 else dod, d)
    else
      '(control3, d) ← readBit d;
      if control3 =? 0 then
        '(dod, d) ← readBits 9 d;
        Some (if 256 <? dod then dod - 512 else dod, d)
      else
        '(control4, d) ← readBit d;
        if control4 =? 0 then
          '(dod, d) ← readBits 12 d;
          Some (if 2048 <? dod then dod - 4096 else dod, d)
        else
          '(dod, d) ← readBits 32 d;
          Some (if 2147483647 <? dod then dod - 4294967296 else dod, d).

Definition readTimestamp d : option (Z * gorilla) :=
  if negb (hasPrevTime d) then
    '(v, d) ← readBits 64 d;
    let ts := swrap64 v in
    Some (ts, set_time ts 0 d)
  else
    '(dod, d) ← read_dod d;
    let dod := swrap64 (dod + prevDelta d) in
    let ts := swrap64 (prevTime d + dod) in
    Some (ts, set_time ts dod d).

Definition readFloat d : option (Z * gorilla) :=
  if negb (hasPrevValue d) then
    '(bits, d) ← readBits 64 d;
    Some (bits, set_value bits d)
  else
    '(bit, d) ← readBit d;
    if bit =? 0 then Some (prevValue d, set_value (prevValue d) d)
    else
      '(control, d) ← readBit d;
      '(xor, d) ←
        (if control =? 0 then
           let meaningfulLen := 64 - prevLeading d - prevTrailing d in
           '(meaningful, d) ← readBits meaningfulLen d;
           Some (wrap64 (Z.shiftl meaningful (prevTrailing d)), d)
         else
           '(leading, d) ← readBits 5 d;
           '(meaningfulLen, d) ← readBits 6 d;
           let trailing := 64 - leading - meaningfulLen in
           '(meaningful, d) ← readBits meaningfulLen d;
           if trailing <? 0 then None
           else Some (wrap64 (Z.shiftl meaningful trailing), set_window leading trailing d));
      let val := Z.lxor (prevValue d) xor in
      Some (val, set_value val d).

Definition remaining d : Z := zlen (buf d) * 8 - bitPos d.

(** * Whole streams *)

(** A stream interleaves timestamps and values; the reader knows which comes next. *)
Inductive sample : Type := Time (ts : Z) | Value (bits : Z).

Definition write_sample e (s : sample) : gorilla :=
  match s with Time ts => writeTimestamp ts e | Value bits => writeFloat bits e end.

Definition encode (cap : Z) (l : list sample) : list byte := bytes (foldl write_sample (newGorillaEncoder cap) l).

Definition read_like (s : sample) d : option (sample * gorilla) :=
  match s with
  | Time _ => '(ts, d) ← readTimestamp d; Some (Time ts, d)
  | Value _ => '(bits, d) ← readFloat d; Some (Value bits, d)
  end.

Fixpoint read_all_like (l : list sample) d : option (list sample) :=
  match l with
  | [] => Some []
  | s :: l' => '(x, d) ← read_like s d; xs ← read_all_like l' d; Some (x :: xs)
  end.

(** The samples read back, of the kinds of [l]. *)
Definition decode_like (l : list sample) (data : list byte) : option (list sample) := read_all_like l (newGorillaDecoder data).

(** * The bit streams of [Gorilla.v] read back as they were written, when no second
    difference of timestamps is one the format cannot hold. *)

(** * Bits of bytes *)

Definition byte_bits (b : byte) : list bool := map (fun i => Z.testbit (b2z b) i) [7; 6; 5; 4; 3; 2; 1; 0].
Definition bits_of (bs : list byte) : list bool := flat_map byte_bits bs.

Fixpoint bits_msb (n : nat) (v : Z) : list bool :=
  match n with O => [] | S i => Z.testbit v (Z.of_nat i) :: bits_msb i v end.

Lemma zlen_bits_of bs : zlen (bits_of bs) = 8 * zlen bs.
Proof. induction bs as [|b bs IH]; [done|]. cbn [bits_of flat_map]. fold (bits_of bs). rewrite zlen_app, IH, zlen_cons. change (zlen (byte_bits b)) with 8. lia. Qed.

Lemma zlen_bits_msb n v : zlen (bits_msb n v) = Z.of_nat n.
Proof. induction n as [|n IH]; [done|]. cbn [bits_msb]. rewrite zlen_cons, IH. lia. Qed.

Lemma bits_of_app a b : bits_of (a ++ b) = bits_of a ++ bits_of b.
Proof. apply flat_map_app. Qed.

Lemma bits_of_zeros n : bits_of (zrep n x00) = replicate (8 * Z.to_nat n) false.
Proof.
  change (zrep n x00) with (replicate (Z.to_nat n) x00). induction (Z.to_nat n) as [|k IH]; [done|]. cbn [replicate bits_of flat_map]. fold (bits_of (replicate k x00)).
  rewrite IH. replace (8 * S k)%nat with (8 + 8 * k)%nat by lia. rewrite replicate_add. done.
Qed.

Definition small_indices : list nat := [0; 1; 2; 3; 4; 5; 6; 7]%nat.

Lemma small_index (P : nat -> Prop) : Forall P small_indices -> forall i, (i < 8)%nat -> P i.
Proof.
  intros H i Hi. rewrite Forall_forall in H. apply H. unfold small_indices.
  do 8 (destruct i as [|i]; [set_solver|]). lia.
Qed.

Lemma set_bit_bits b i : (i < 8)%nat -> byte_bits (set_bit (7 - Z.of_nat i) b) = <[i := true]> (byte_bits b).
Proof. revert i. apply small_index. unfold small_indices. destruct b; repeat (constructor; [reflexivity|]); constructor. Qed.

Lemma byte_bit b i : (i < 8)%nat -> byte_bits b !! i = Some (Z.testbit (b2z b) (7 - Z.of_nat i)).
Proof. revert i. apply small_index. unfold small_indices. repeat (constructor; [reflexivity|]). constructor. Qed.

(** The byte and the position in it of bit [8 * q + i]. *)
Lemma bits_of_set bs q i :
  (i < 8)%nat -> bits_of (alter (set_bit (7 - Z.of_nat i)) q bs) = <[(8 * q + i)%nat := true]> (bits_of bs).
Proof.
  intros Hi. revert q. induction bs as [|b bs IH]; intros q; [done|]. cbn [bits_of flat_map]. fold (bits_of bs).
  assert (length (byte_bits b) = 8%nat) as Hl by done. destruct q as [|q].
  - change (alter (set_bit (7 - Z.of_nat i)) 0%nat (b :: bs)) with (set_bit (7 - Z.of_nat i) b :: bs).
    cbn [bits_of flat_map]. fold (bits_of bs). rewrite set_bit_bits by done.
    rewrite Nat.mul_0_r, Nat.add_0_l. by rewrite insert_app_l by lia.
  - change (alter (set_bit (7 - Z.of_nat i)) (Datatypes.S q) (b :: bs)) with (b :: alter (set_bit (7 - Z.of_nat i)) q bs).
    cbn [bits_of flat_map]. fold (bits_of (alter (set_bit (7 - Z.of_nat i)) q bs)). rewrite IH.
    replace (8 * S q + i)%nat with (length (byte_bits b) + (8 * q + i))%nat by lia. by rewrite insert_app_r.
Qed.

Lemma bits_of_lookup bs q i b :
  (i < 8)%nat -> bs !! q = Some b -> bits_of bs !! (8 * q + i)%nat = Some (Z.testbit (b2z b) (7 - Z.of_nat i)).
Proof.
  intros Hi. revert q. induction bs as [|b' bs IH]; intros [|q] Hq; try done; cbn [bits_of flat_map]; fold (bits_of bs).
  - injection Hq as ->. rewrite Nat.mul_0_r, Nat.add_0_l, lookup_app_l by done. by apply byte_bit.
  - rewrite lookup_app_r by (change (length (byte_bits b')) with 8%nat; lia).
    replace (8 * S q + i - length (byte_bits b'))%nat with (8 * q + i)%nat by (change (length (byte_bits b')) with 8%nat; lia).
    by apply IH.
Qed.

(** * Writing *)

(** The stream holds the bits [w], and only zeros after them. *)
Definition holds e (w : list bool) : Prop :=
  bitPos e = zlen w /\ exists k, bits_of (buf e) = w ++ replicate k false.

Lemma holds_pos e w : holds e w -> 0 <= bitPos e.
Proof. intros [-> _]. apply zlen_nonneg. Qed.

Lemma ensureCapacity_stream n e : exists b, ensureCapacity n e = set_stream b (bitPos e) e.
Proof. unfold ensureCapacity. case_match; [exists (buf e); by destruct e|by eexists]. Qed.

Lemma ensureCapacity_holds n e w :
  0 <= n -> holds e w -> holds (ensureCapacity n e) w /\ bitPos e + n <= 8 * zlen (buf (ensureCapacity n e)).
Proof.
  intros Hn Hw. pose proof (holds_pos _ _ Hw) as Hp. destruct Hw as [Hl (k & Hb)]. unfold ensureCapacity.
  set (needed := (bitPos e + n + 7) / 8). assert (8 * needed >= bitPos e + n) as Hneed.
  { pose proof (Z_div_mod_eq_full (bitPos e + n + 7) 8). pose proof (Z.mod_pos_bound (bitPos e + n + 7) 8 ltac:(lia)). unfold needed. lia. }
  destruct (Z.leb_spec needed (zlen (buf e))) as [Hle|Hgt]; [split; [split; [done|by exists k]|lia]|].
  pose proof (zlen_nonneg (buf e)) as Hbuf. cbn [buf bitPos set_stream].
  assert (copy_into (zrep (needed * 2) x00) 0 (needed * 2) (buf e) = buf e ++ zrep (needed * 2 - zlen (buf e)) x00) as ->.
  { unfold copy_into, splice. rewrite ztake_0, (ztake_all (needed * 2 - 0)) by lia. cbn [app]. f_equal.
    rewrite Z.add_0_l. apply zdrop_zrep. lia. }
  split; [|rewrite zlen_app, zlen_rep by lia; lia]. split; [done|].
  cbn [buf set_stream]. rewrite bits_of_app, Hb, bits_of_zeros, <- app_assoc, <- replicate_add. by eexists.
Qed.

(** What a write does: it appends bits and leaves the other fields alone. *)
Definition wrote e (c : list bool) (e' : gorilla) : Prop :=
  forall w, holds e w -> holds e' (w ++ c) /\ e' = set_stream (buf e') (bitPos e') e.

Lemma wrote_nil e : wrote e [] e.
Proof. intros w Hw. rewrite app_nil_r. split; [done|by destruct e]. Qed.

Lemma wrote_app e c e1 c' e2 : wrote e c e1 -> wrote e1 c' e2 -> wrote e (c ++ c') e2.
Proof.
  intros H1 H2 w Hw. destruct (H1 w Hw) as [Hw1 E1]. destruct (H2 _ Hw1) as [Hw2 E2]. rewrite app_assoc.
  split; [done|]. rewrite E2, E1. done.
Qed.

Lemma wrote_bit b e : wrote e [negb (b =? 0)] (writeBit b e).
Proof.
  intros w Hw. pose proof (holds_pos _ _ Hw) as Hp. unfold writeBit. destruct (ensureCapacity_stream 1 e) as (bs & Es).
  destruct (ensureCapacity_holds 1 e w ltac:(lia) Hw) as [[Hl (k & Hb)] Hroom].
  rewrite Es in *. cbn [buf bitPos set_stream] in *. split; [|done].
  split; [cbn [bitPos set_stream]; rewrite zlen_app; change (zlen [negb (b =? 0)]) with 1; lia|].
  assert (exists k', k = S k') as (k' & ->).
  { apply (f_equal zlen) in Hb. rewrite zlen_bits_of, zlen_app in Hb. destruct k as [|k']; [|by eexists].
    change (zlen (replicate 0 false)) with 0 in Hb. lia. }
  exists k'. cbn [buf set_stream]. destruct (b =? 0); cbn [negb].
  - rewrite Hb, <- app_assoc. done.
  - set (q := Z.to_nat (bitPos e / 8)). set (i := Z.to_nat (bitPos e mod 8)).
    pose proof (Z.mod_pos_bound (bitPos e) 8 ltac:(lia)) as Hm. pose proof (Z.div_pos (bitPos e) 8 Hp ltac:(lia)) as Hq.
    pose proof (Z_div_mod_eq_full (bitPos e) 8) as Hd.
    replace (7 - bitPos e mod 8) with (7 - Z.of_nat i) by lia. rewrite bits_of_set by lia. rewrite Hb.
    replace (8 * q + i)%nat with (length w + 0)%nat by (unfold zlen in Hl; lia).
    rewrite insert_app_r. cbn [replicate]. by rewrite <- app_assoc.
Qed.

Lemma wrote_bits v e n : wrote e (bits_msb n v) (write_bits n v e).
Proof.
  revert e. induction n as [|n IH]; intros e; cbn [write_bits bits_msb]; [apply wrote_nil|].
  apply (wrote_app e [Z.testbit v (Z.of_nat n)] (writeBit (Z.land (Z.shiftr v (Z.of_nat n)) 1) e)); [|apply IH].
  replace (Z.testbit v (Z.of_nat n)) with (negb (Z.land (Z.shiftr v (Z.of_nat n)) 1 =? 0)); [apply wrote_bit|].
  change (Z.land (Z.shiftr v (Z.of_nat n)) 1) with (Z.land (Z.shiftr v (Z.of_nat n)) (Z.ones 1)). rewrite Z.land_ones by lia.
  change (2 ^ 1) with 2. rewrite <- Z.bit0_mod, Z.shiftr_spec, Z.add_0_l by lia.
  by destruct (Z.testbit v (Z.of_nat n)).
Qed.

Lemma wrote_writeBits v n e : 0 <= n -> wrote e (bits_msb (Z.to_nat n) v) (writeBits v n e).
Proof.
  intros Hn. unfold writeBits. apply (wrote_app e [] (ensureCapacity n e)); [|apply wrote_bits].
  intros w Hw. rewrite app_nil_r. split; [by apply ensureCapacity_holds|].
  destruct (ensureCapacity_stream n e) as (b & ->). done.
Qed.

(** * Reading *)

(** The bits the decoder has not read. *)
Definition rests d (r : list bool) : Prop := 0 <= bitPos d /\ drop (Z.to_nat (bitPos d)) (bits_of (buf d)) = r.

(** The decoder moved on and is otherwise as before. *)
Definition moved d d' : Prop := d' = set_stream (buf d) (bitPos d') d.

Lemma moved_trans d d1 d2 : moved d d1 -> moved d1 d2 -> moved d d2.
Proof. unfold moved. intros E1 E2. rewrite E2, E1. done. Qed.

Lemma readBit_run d b r : rests d (b :: r) -> exists d', readBit d = Some (Z.b2z b, d') /\ moved d d' /\ rests d' r.
Proof.
  intros [Hp Hr]. pose proof (Z.mod_pos_bound (bitPos d) 8 ltac:(lia)) as Hm.
  pose proof (Z.div_pos (bitPos d) 8 Hp ltac:(lia)) as Hq. pose proof (Z_div_mod_eq_full (bitPos d) 8) as Hd.
  set (q := Z.to_nat (bitPos d / 8)). set (i := Z.to_nat (bitPos d mod 8)).
  assert (Z.to_nat (bitPos d) = 8 * q + i)%nat as Epos by lia.
  assert (bits_of (buf d) !! (8 * q + i)%nat = Some b) as Hb.
  { rewrite <- Epos, <- (Nat.add_0_r (Z.to_nat _)), <- lookup_drop, Hr. done. }
  destruct (buf d !! q) as [x|] eqn:Ex.
  2: { apply lookup_ge_None in Ex. apply lookup_lt_Some in Hb. pose proof (zlen_bits_of (buf d)) as Hl. unfold zlen in Hl. lia. }
  exists (set_stream (buf d) (bitPos d + 1) d). unfold readBit. fold q. rewrite Ex. cbn [mbind option_bind].
  rewrite (bits_of_lookup _ q i x) in Hb by (done || lia). injection Hb as <-. split; [|split; [done|]].
  - do 2 f_equal. replace (bitPos d mod 8) with (Z.of_nat i) by lia.
    change 1 with (Z.ones 1). rewrite Z.land_ones by lia. change (2 ^ 1) with 2.
    by rewrite <- Z.bit0_mod, Z.shiftr_spec, Z.add_0_l by lia.
  - split; cbn [bitPos buf set_stream]; [lia|]. rewrite Z2Nat.inj_add by lia. rewrite Nat.add_comm, <- skipn_skipn, Hr. done.
Qed.

Lemma mod_bit v i : 0 <= i -> v mod 2 ^ (i + 1) = Z.b2z (Z.testbit v i) * 2 ^ i + v mod 2 ^ i.
Proof.
  intros Hi. rewrite Z.pow_add_r by lia. rewrite Z.rem_mul_r by (try lia; apply Z.pow_nonzero; lia).
  rewrite Z.pow_1_r, <- Z.bit0_mod, <- Z.shiftr_div_pow2, Z.shiftr_spec, Z.add_0_l by lia. lia.
Qed.

Lemma push_bit acc b : 0 <= acc < 2 ^ 63 -> Z.lor (wrap64 (Z.shiftl acc 1)) (Z.b2z b) = 2 * acc + Z.b2z b.
Proof.
  intros Ha. rewrite Z.shiftl_mul_pow2 by lia. change (2 ^ 1) with 2. rewrite wrap64_id by (unfold u64; lia).
  rewrite (Z.mul_comm acc 2). destruct b; cbn [Z.b2z]; [|by rewrite Z.lor_0_r, Z.add_0_r].
  apply Z.bits_inj'. intros n Hn. rewrite Z.lor_spec. destruct (Z.eq_dec n 0) as [->|Hne].
  - by rewrite Z.testbit_even_0, Z.testbit_odd_0.
  - replace n with (Z.succ (n - 1)) by lia. rewrite Z.testbit_even_succ, Z.testbit_odd_succ by lia.
    change 1 with (2 * 0 + 1) at 2. rewrite Z.testbit_odd_succ, Z.bits_0 by lia. apply orb_false_r.
Qed.

Lemma read_bits_run n : forall v acc d r,
  (n <= 64)%nat -> 0 <= acc < 2 ^ (64 - Z.of_nat n) -> rests d (bits_msb n v ++ r) ->
  exists d', read_bits n acc d = Some (acc * 2 ^ Z.of_nat n + v mod 2 ^ Z.of_nat n, d') /\ moved d d' /\ rests d' r.
Proof.
  induction n as [|n IH]; intros v acc d r Hn Ha Hr; cbn [read_bits bits_msb app] in *.
  - exists d. change (2 ^ Z.of_nat 0) with 1. rewrite Z.mod_1_r. split; [do 2 f_equal; lia|]. split; [by destruct d|done].
  - destruct (readBit_run _ _ _ Hr) as (d1 & -> & M1 & R1). cbn [mbind option_bind].
    assert (2 ^ (64 - Z.of_nat n) = 2 * 2 ^ (64 - Z.of_nat (S n))) as Epow.
    { rewrite <- Z.pow_succ_r by lia. f_equal. lia. }
    assert (2 ^ (64 - Z.of_nat (S n)) <= 2 ^ 63) as Hle by (apply Z.pow_le_mono_r; lia).
    rewrite push_bit by lia.
    destruct (IH v (2 * acc + Z.b2z (Z.testbit v (Z.of_nat n))) d1 r ltac:(lia)) as (d2 & E & M2 & R2); [|done|].
    { rewrite Epow. destruct (Z.testbit _ _); cbn [Z.b2z]; lia. }
    exists d2. split; [|split; [by eapply moved_trans|done]]. rewrite E. do 2 f_equal.
    replace (Z.of_nat (S n)) with (Z.of_nat n + 1) by lia. rewrite mod_bit by lia. rewrite Z.pow_add_r by lia. lia.
Qed.

Lemma readBits_run n v d r :
  0 <= n <= 64 -> rests d (bits_msb (Z.to_nat n) v ++ r) ->
  exists d', readBits n d = Some (v mod 2 ^ n, d') /\ moved d d' /\ rests d' r.
Proof.
  intros Hn Hr. destruct (read_bits_run (Z.to_nat n) v 0 d r ltac:(lia) ltac:(split; [lia|apply Z.pow_pos_nonneg; lia]) Hr)
    as (d' & E & H). exists d'. split; [|done]. unfold readBits. rewrite E, Z2Nat.id by lia. done.
Qed.

(** * Timestamps *)

(** The bits written for a difference of differences, and what they are read as. *)
Definition dod_code (dod : Z) : list bool :=
  if dod =? 0 then [false]
  else if (-63 <=? dod) && (dod <=? 64) then bits_msb 2 2 ++ bits_msb 7 (Z.land (wrap64 dod) 127)
  else if (-255 <=? dod) && (dod <=? 256) then bits_msb 3 6 ++ bits_msb 9 (Z.land (wrap64 dod) 511)
  else if (-2047 <=? dod) && (dod <=? 2048) then bits_msb 4 14 ++ bits_msb 12 (Z.land (wrap64 dod) 4095)
  else bits_msb 4 15 ++ bits_msb 32 (wrap64 dod).

Definition dod_read (dod : Z) : Z :=
  if dod =? 64 then -64
  else if (-2047 <=? dod) && (dod <=? 2048) then dod
  else (dod + 2 ^ 31) mod 2 ^ 32 - 2 ^ 31.

Lemma mod_wrap64 v n : 0 <= n <= 64 -> wrap64 v mod 2 ^ n = v mod 2 ^ n.
Proof.
  intros Hn. unfold wrap64. symmetry. apply Znumtheory.Zmod_div_mod; [by apply Z.pow_pos_nonneg; lia|done|].
  exists (2 ^ (64 - n)). rewrite <- Z.pow_add_r by lia. f_equal. lia.
Qed.

Lemma masked dod n : 0 <= n <= 64 -> Z.land (wrap64 dod) (Z.ones n) mod 2 ^ n = dod mod 2 ^ n.
Proof.
  intros Hn. rewrite Z.land_ones, Z.mod_mod by (try lia; apply Z.pow_nonzero; lia). by apply mod_wrap64.
Qed.

Ltac read_control :=
  match goal with
  | H : rests ?d (?b :: ?r) |- context [readBit ?d] =>
      let d' := fresh "d" in let M := fresh "M" in let R := fresh "R" in
      destruct (readBit_run d b r H) as (d' & -> & M & R); cbn [mbind option_bind Z.b2z Z.eqb negb]
  end.

(** The number read is in the range of [n] bits with a sign. *)
Lemma signed_mod dod n : -2 ^ n <= dod < 0 -> dod mod 2 ^ n = dod + 2 ^ n.
Proof. intros H. symmetry. apply (Z.mod_unique dod (2 ^ n) (-1)); lia. Qed.

Ltac moved_chain :=
  repeat match goal with M : moved ?a ?b |- moved ?a ?c => first [exact M|apply (moved_trans a b c M); clear M] end.

(** Seven bits with a sign hold -64, not 64. *)
Lemma signed_seven dod :
  -63 <= dod <= 64 ->
  (if negb (Z.land (dod mod 2 ^ 7) 64 =? 0) then dod mod 2 ^ 7 - 128 else dod mod 2 ^ 7) = if dod =? 64 then -64 else dod.
Proof.
  intros Hd. set (f x := (if negb (Z.land (x mod 2 ^ 7) 64 =? 0) then x mod 2 ^ 7 - 128 else x mod 2 ^ 7) =? (if x =? 64 then -64 else x)).
  assert (forallb (fun k => f (Z.of_nat k - 63)) (seq 0 128) = true) as H by reflexivity.
  rewrite forallb_forall in H. apply Z.eqb_eq. specialize (H (Z.to_nat (dod + 63)) ltac:(apply in_seq; lia)).
  unfold f in H. by replace (Z.of_nat (Z.to_nat (dod + 63)) - 63) with dod in H by lia.
Qed.

Lemma read_dod_run dod d r :
  rests d (dod_code dod ++ r) ->
  exists d', read_dod d = Some (dod_read dod, d') /\ moved d d' /\ rests d' r.
Proof.
  intros Hr. unfold read_dod, dod_read. unfold dod_code in Hr.
  destruct (Z.eqb_spec dod 0) as [->|Hne].
  { cbn [app] in Hr. read_control. eexists. by split_and!. }
  destruct (_ && _) eqn:E7 in Hr; [|destruct (_ && _) eqn:E9 in Hr; [|destruct (_ && _) eqn:E12 in Hr]];
    rewrite <- app_assoc in Hr.
  - change (bits_msb 2 2) with [true; false] in Hr. cbn [app] in Hr. do 2 read_control.
    destruct (readBits_run 7 _ _ _ ltac:(lia) R0) as (d2 & -> & M2 & R2). cbn [mbind option_bind].
    exists d2. split; [|split; [moved_chain|done]]. do 2 f_equal.
    change 127 with (Z.ones 7). rewrite masked by lia. rewrite signed_seven by lia.
    destruct (dod =? 64); [done|]. by replace ((-2047 <=? dod) && (dod <=? 2048)) with true by lia.
  - change (bits_msb 3 6) with [true; true; false] in Hr. cbn [app] in Hr. do 3 read_control.
    destruct (readBits_run 9 _ _ _ ltac:(lia) R1) as (d3 & -> & M3 & R3). cbn [mbind option_bind].
    exists d3. split; [|split; [moved_chain|done]]. do 2 f_equal.
    change 511 with (Z.ones 9). rewrite masked by lia.
    replace (dod =? 64) with false by lia. replace ((-2047 <=? dod) && (dod <=? 2048)) with true by lia.
    change (2 ^ 9) with 512. case_match; Z.to_euclidean_division_equations; lia.
  - change (bits_msb 4 14) with [true; true; true; false] in Hr. cbn [app] in Hr. do 4 read_control.
    destruct (readBits_run 12 _ _ _ ltac:(lia) R2) as (d4 & -> & M4 & R4). cbn [mbind option_bind].
    exists d4. split; [|split; [moved_chain|done]]. do 2 f_equal.
    change 4095 with (Z.ones 12). rewrite masked by lia. rewrite E12.
    replace (dod =? 64) with false by lia. change (2 ^ 12) with 4096. case_match; Z.to_euclidean_division_equations; lia.
  - change (bits_msb 4 15) with [true; true; true; true] in Hr. cbn [app] in Hr. do 4 read_control.
    destruct (readBits_run 32 _ _ _ ltac:(lia) R2) as (d4 & -> & M4 & R4). cbn [mbind option_bind].
    exists d4. split; [|split; [moved_chain|done]]. do 2 f_equal.
    rewrite mod_wrap64 by lia. rewrite E12. replace (dod =? 64) with false by lia.
    change (2 ^ 32) with 4294967296. change (2 ^ 31) with 2147483648. case_match; Z.to_euclidean_division_equations; lia.
Qed.

Definition delta_of e (ts : Z) : Z := swrap64 (ts - prevTime e).
Definition dod_of e (ts : Z) : Z := swrap64 (delta_of e ts - prevDelta e).

Definition time_code e (ts : Z) : list bool :=
  if hasPrevTime e then dod_code (dod_of e ts) else bits_msb (Z.to_nat 64) (wrap64 ts).
Definition time_next e (ts : Z) : gorilla := set_time ts (if hasPrevTime e then delta_of e ts else 0) e.

(** The encoder [e] has written [c] and its other fields are those of [n]. *)
Definition left e (c : list bool) (n e' : gorilla) : Prop :=
  forall w, holds e w -> holds e' (w ++ c) /\ e' = set_stream (buf e') (bitPos e') n.

(** Writing a few bits after others. *)
Lemma wrote_prefix v n e c e' : 0 <= n -> wrote (writeBits v n e) c e' -> wrote e (bits_msb (Z.to_nat n) v ++ c) e'.
Proof. intros Hn. apply wrote_app. by apply wrote_writeBits. Qed.

Lemma wrote_dod dod e :
  wrote e (dod_code dod)
    (if dod =? 0 then writeBit 0 e
     else if (-63 <=? dod) && (dod <=? 64) then writeBits (Z.land (wrap64 dod) 127) 7 (writeBits 2 2 e)
     else if (-255 <=? dod) && (dod <=? 256) then writeBits (Z.land (wrap64 dod) 511) 9 (writeBits 6 3 e)
     else if (-2047 <=? dod) && (dod <=? 2048) then writeBits (Z.land (wrap64 dod) 4095) 12 (writeBits 14 4 e)
     else writeBits (wrap64 dod) 32 (writeBits 15 4 e)).
Proof.
  unfold dod_code. destruct (dod =? 0); [apply (wrote_bit 0)|].
  repeat case_match; match goal with |- wrote _ (bits_msb ?n _ ++ bits_msb ?k _) _ =>
    apply (wrote_prefix _ (Z.of_nat n)); [lia|apply (wrote_writeBits _ (Z.of_nat k)); lia] end.
Qed.

Lemma left_time ts delta c e e' : wrote e c e' -> left e c (set_time ts delta e) (set_time ts delta e').
Proof. intros Hw w Hw0. destruct (Hw w Hw0) as [H E]. split; [exact H|]. by rewrite E. Qed.

Lemma write_time e ts : left e (time_code e ts) (time_next e ts) (writeTimestamp ts e).
Proof.
  unfold time_code, time_next, writeTimestamp. destruct (hasPrevTime e); cbn [negb]; apply left_time.
  - apply wrote_dod.
  - apply wrote_writeBits. lia.
Qed.

(** The decoder knows what the encoder knew. *)
Definition same e d : Prop := d = set_stream (buf d) (bitPos d) e.

Lemma same_moved e d d' : same e d -> moved d d' -> same e d'.
Proof. unfold same, moved. intros E ->. rewrite E. done. Qed.

Lemma swrap64_range x : i64 (swrap64 x).
Proof. unfold swrap64, i64. pose proof (Z.mod_pos_bound (x + 2 ^ 63) (2 ^ 64) ltac:(lia)). lia. Qed.

Lemma swrap64_swrap64_add x y : swrap64 (swrap64 x + y) = swrap64 (x + y).
Proof.
  unfold swrap64. f_equal. replace ((x + 2 ^ 63) mod 2 ^ 64 - 2 ^ 63 + y + 2 ^ 63) with ((x + 2 ^ 63) mod 2 ^ 64 + y) by lia.
  rewrite Zplus_mod_idemp_l. f_equal. lia.
Qed.

Lemma same_time ts delta e d : same e d -> same (set_time ts delta e) (set_time ts delta d).
Proof. unfold same. intros Hs. by rewrite Hs. Qed.

(** The second and later timestamps are read as the previous one plus this. *)
Definition delta_read e (ts : Z) : Z := swrap64 (dod_read (dod_of e ts) + prevDelta e).

Lemma read_next_time e d ts r :
  same e d -> rests d (time_code e ts ++ r) -> hasPrevTime e = true ->
  exists d', readTimestamp d = Some (swrap64 (prevTime e + delta_read e ts), d') /\
    same (set_time (swrap64 (prevTime e + delta_read e ts)) (delta_read e ts) e) d' /\ rests d' r.
Proof.
  intros Hs Hr Ep. unfold readTimestamp, time_code in *. rewrite Ep in Hr.
  replace (hasPrevTime d) with true by (by rewrite Hs). cbn [negb].
  destruct (read_dod_run _ _ _ Hr) as (d1 & -> & M & R). cbn [mbind option_bind].
  pose proof (same_moved _ _ _ Hs M) as Hs1.
  assert (prevDelta d1 = prevDelta e /\ prevTime d1 = prevTime e) as [-> ->] by (by rewrite Hs1).
  unfold delta_read. eexists. split; [reflexivity|]. split; [|exact R]. by apply same_time.
Qed.

Lemma read_time e d ts r :
  same e d -> rests d (time_code e ts ++ r) -> i64 ts ->
  (hasPrevTime e = true -> dod_read (dod_of e ts) = dod_of e ts) ->
  exists d', readTimestamp d = Some (ts, d') /\ same (time_next e ts) d' /\ rests d' r.
Proof.
  intros Hs Hr Hi Hok. unfold time_next. destruct (hasPrevTime e) eqn:Ep.
  - destruct (read_next_time _ _ _ _ Hs Hr Ep) as (d1 & E & Hs1 & R).
    assert (delta_read e ts = delta_of e ts) as Ed.
    { unfold delta_read. rewrite Hok by done. unfold dod_of. rewrite swrap64_swrap64_add, Z.sub_add.
      apply swrap64_id, swrap64_range. }
    assert (swrap64 (prevTime e + delta_read e ts) = ts) as Et.
    { rewrite Ed. unfold delta_of. rewrite Z.add_comm, swrap64_swrap64_add, Z.sub_add. by apply swrap64_id. }
    rewrite Et, Ed in *. by exists d1.
  - unfold readTimestamp, time_code in *. rewrite Ep in Hr. replace (hasPrevTime d) with false by (by rewrite Hs). cbn [negb].
    destruct (readBits_run 64 _ _ _ ltac:(lia) Hr) as (d1 & -> & M & R). cbn [mbind option_bind].
    rewrite Z.mod_small by apply wrap64_range. rewrite swrap64_wrap64 by done.
    eexists. split; [reflexivity|]. split; [|exact R]. unfold same. rewrite (same_moved _ _ _ Hs M). done.
Qed.

(** * Values *)

(** The window of the exclusive or starts as 0 and 0, and every number of leading and
    trailing zeros is at least that: the encoder never sets another. *)
Definition no_window e : Prop := prevLeading e = 0 /\ prevTrailing e = 0 /\ u64 (prevValue e).

Lemma leading_step_nonneg k s : 0 <= k -> 0 <= fst s -> 0 <= fst (leading_step k s).
Proof. intros Hk Hs. unfold leading_step. destruct s as [n x]. case_match; cbn in *; lia. Qed.

Lemma leadingZeros64_nonneg x : 0 <= leadingZeros64 x.
Proof.
  unfold leadingZeros64. destruct (x =? 0); [done|].
  assert (0 <= fst (leading_step 2 (leading_step 4 (leading_step 8 (leading_step 16 (leading_step 32 (0, x))))))) as H.
  { repeat (apply leading_step_nonneg; [done|]). done. }
  destruct (leading_step 2 _) as [n y]. cbn in H. case_match; lia.
Qed.

Lemma trailing_loop_ge fuel n x : n <= trailing_loop fuel n x.
Proof. revert n x. induction fuel as [|fuel IH]; intros n x; cbn; [done|]. case_match; [|done]. specialize (IH (n + 1) (Z.shiftr x 1)). lia. Qed.

Lemma trailingZeros64_nonneg x : 0 <= trailingZeros64 x.
Proof. unfold trailingZeros64. destruct (x =? 0); [done|]. apply trailing_loop_ge. Qed.

Lemma lxor_u64 x y : u64 x -> u64 y -> u64 (Z.lxor x y).
Proof.
  intros Hx Hy. assert (Z.lxor x y = Z.lxor x y mod 2 ^ 64) as ->.
  { apply Z.bits_inj'. intros n Hn. destruct (Z.ltb_spec n 64) as [Hlt|Hge]; [by rewrite Z.mod_pow2_bits_low|].
    rewrite Z.mod_pow2_bits_high, Z.lxor_spec by lia.
    rewrite <- (Z.mod_small x (2 ^ 64) Hx), <- (Z.mod_small y (2 ^ 64) Hy), !Z.mod_pow2_bits_high by lia. done. }
  apply Z.mod_pos_bound. lia.
Qed.

Definition float_code e (bits : Z) : list bool :=
  if hasPrevValue e then
    let x := Z.lxor bits (prevValue e) in
    if x =? 0 then [false] else [true; false] ++ bits_msb (Z.to_nat 64) x
  else bits_msb (Z.to_nat 64) bits.

Lemma left_value v c e e' : wrote e c e' -> left e c (set_value v e) (set_value v e').
Proof. intros Hw w Hw0. destruct (Hw w Hw0) as [H E]. split; [exact H|]. by rewrite E. Qed.

Lemma writeBit_window b e : prevLeading (writeBit b e) = prevLeading e /\ prevTrailing (writeBit b e) = prevTrailing e.
Proof. unfold writeBit. destruct (ensureCapacity_stream 1 e) as (bs & ->). done. Qed.

Lemma write_float e bits : no_window e -> u64 bits -> left e (float_code e bits) (set_value bits e) (writeFloat bits e).
Proof.
  intros (El & Et & Hp) Hb. unfold float_code, writeFloat. destruct (hasPrevValue e); cbn [negb]; apply left_value;
    [|apply wrote_writeBits; lia].
  set (x := Z.lxor bits (prevValue e)). destruct (x =? 0); [apply (wrote_bit 0)|].
  destruct (writeBit_window 1 e) as [E1 E2]. destruct (writeBit_window 0 (writeBit 1 e)) as [E3 E4].
  cbv zeta. rewrite E3, E4, E1, E2, El, Et.
  replace (0 <=? leadingZeros64 x) with true by (pose proof (leadingZeros64_nonneg x); lia).
  replace (0 <=? trailingZeros64 x) with true by (pose proof (trailingZeros64_nonneg x); lia). cbn [andb].
  change (64 - 0 - 0) with 64. change (ones64 64) with (Z.ones 64).
  rewrite Z.shiftr_0_r, Z.land_ones by lia. rewrite Z.mod_small by (by apply lxor_u64).
  apply (wrote_app e [true] (writeBit 1 e)); [apply (wrote_bit 1)|].
  apply (wrote_app (writeBit 1 e) [false] (writeBit 0 (writeBit 1 e))); [apply (wrote_bit 0)|].
  apply wrote_writeBits. lia.
Qed.

Lemma read_float e d bits r :
  no_window e -> u64 bits -> same e d -> rests d (float_code e bits ++ r) ->
  exists d', readFloat d = Some (bits, d') /\ same (set_value bits e) d' /\ rests d' r.
Proof.
  intros (El & Et & Hp) Hb Hs Hr. unfold readFloat, float_code in *.
  assert (hasPrevValue d = hasPrevValue e) as -> by (by rewrite Hs).
  destruct (hasPrevValue e) eqn:Ep; cbn [negb].
  - set (x := Z.lxor bits (prevValue e)) in *. pose proof (lxor_u64 _ _ Hb Hp : u64 x) as Hx.
    destruct (Z.eqb_spec x 0) as [E0|Hne].
    + cbn [app] in Hr. read_control. pose proof (same_moved _ _ _ Hs M) as Hs1.
      assert (prevValue d0 = bits) as ->.
      { rewrite Hs1. cbn [prevValue set_stream]. symmetry. by apply Z.lxor_eq. }
      eexists. split; [reflexivity|]. split; [|exact R]. unfold same. rewrite Hs1. done.
    + cbn [app] in Hr. rewrite <- ?app_assoc in Hr. do 2 read_control.
      pose proof (same_moved _ _ _ (same_moved _ _ _ Hs M) M0) as Hs1.
      assert (prevLeading d1 = 0 /\ prevTrailing d1 = 0) as [-> ->] by (by rewrite Hs1).
      change (64 - 0 - 0) with 64. destruct (readBits_run 64 x d1 r ltac:(lia) R0) as (d2 & -> & M2 & R2).
      cbn [mbind option_bind]. pose proof (same_moved _ _ _ Hs1 M2) as Hs2.
      assert (prevValue d2 = prevValue e /\ prevTrailing d2 = 0) as [-> ->] by (by rewrite Hs2).
      rewrite Z.mod_small by exact Hx. rewrite Z.shiftl_0_r, wrap64_id by exact Hx.
      assert (Z.lxor (prevValue e) x = bits) as ->.
      { unfold x. by rewrite (Z.lxor_comm bits), <- Z.lxor_assoc, Z.lxor_nilpotent, Z.lxor_0_l. }
      eexists. split; [reflexivity|]. split; [|exact R2]. unfold same. rewrite Hs2. done.
  - destruct (readBits_run 64 bits d r ltac:(lia) Hr) as (d1 & -> & M & R). cbn [mbind option_bind].
    rewrite Z.mod_small by exact Hb. eexists. split; [reflexivity|]. split; [|exact R].
    unfold same. rewrite (same_moved _ _ _ Hs M). done.
Qed.

(** * Streams *)

Definition sample_code e (s : sample) : list bool := match s with Time ts => time_code e ts | Value bits => float_code e bits end.
Definition sample_next e (s : sample) : gorilla := match s with Time ts => time_next e ts | Value bits => set_value bits e end.

Fixpoint samples_code e (l : list sample) : list bool :=
  match l with [] => [] | s :: l' => sample_code e s ++ samples_code (sample_next e s) l' end.

Definition in_range (s : sample) : Prop := match s with Time ts => i64 ts | Value bits => u64 bits end.

Lemma sample_next_window e s : in_range s -> no_window e -> no_window (sample_next e s).
Proof. destruct s; [done|]. by intros Hb (? & ? & ?). Qed.

Lemma write_sample_left e s : no_window e -> in_range s -> left e (sample_code e s) (sample_next e s) (write_sample e s).
Proof. destruct s; intros Hw Hr; [apply write_time|by apply write_float]. Qed.

Lemma sample_stream b pos e s :
  sample_next (set_stream b pos e) s = set_stream b pos (sample_next e s) /\ sample_code (set_stream b pos e) s = sample_code e s.
Proof.
  destruct s as [ts|v]; [|done]. unfold sample_next, sample_code, time_next, time_code, dod_of, delta_of.
  cbn [hasPrevTime prevTime prevDelta set_stream]. by destruct (hasPrevTime e).
Qed.

Lemma samples_code_stream b pos e l : samples_code (set_stream b pos e) l = samples_code e l.
Proof.
  revert e. induction l as [|s l IH]; intros e; [done|]. cbn [samples_code].
  destruct (sample_stream b pos e s) as [-> ->]. by rewrite IH.
Qed.

Lemma write_all l : forall e w,
  no_window e -> Forall in_range l -> holds e w -> holds (foldl write_sample e l) (w ++ samples_code e l).
Proof.
  induction l as [|s l IH]; intros e w Hw Hl Hh; cbn [foldl samples_code]; [by rewrite app_nil_r|].
  apply Forall_cons in Hl as [Hs Hl]. destruct (write_sample_left e s Hw Hs w Hh) as [H1 E1]. rewrite app_assoc.
  rewrite <- (samples_code_stream (buf (write_sample e s)) (bitPos (write_sample e s)) (sample_next e s)), <- E1.
  apply IH; [|done|done]. rewrite E1. by apply (sample_next_window e s).
Qed.

(** The samples, when read in the state [e], come back as they are. *)
Fixpoint readable_from e (l : list sample) : Prop :=
  match l with
  | [] => True
  | s :: l' =>
      match s with Time ts => hasPrevTime e = true -> dod_read (dod_of e ts) = dod_of e ts | Value _ => True end /\
      readable_from (sample_next e s) l'
  end.

Lemma read_all l : forall e d r,
  same e d -> rests d (samples_code e l ++ r) -> no_window e -> Forall in_range l -> readable_from e l ->
  read_all_like l d = Some l.
Proof.
  induction l as [|s l IH]; intros e d r Hs Hr Hw Hl Hok; [done|]. cbn [samples_code read_all_like readable_from] in *.
  apply Forall_cons in Hl as [Hi Hl]. destruct Hok as [Hok1 Hok]. rewrite <- app_assoc in Hr.
  assert (exists d', read_like s d = Some (s, d') /\ same (sample_next e s) d' /\ rests d' (samples_code (sample_next e s) l ++ r))
    as (d' & -> & Hs' & Hr').
  { destruct s as [ts|v]; cbn [read_like sample_next sample_code in_range] in *.
    - destruct (read_time e d ts _ Hs Hr Hi Hok1) as (d' & -> & H). by exists d'.
    - destruct (read_float e d v _ Hw Hi Hs Hr) as (d' & -> & H). by exists d'. }
  cbn [mbind option_bind]. rewrite (IH _ _ r Hs' Hr' (sample_next_window _ _ Hi Hw) Hl Hok). done.
Qed.

(** The encoded bytes are the bits and less than a byte of zeros. *)
Lemma bits_of_take n bs : bits_of (ztake n bs) = take (8 * Z.to_nat n) (bits_of bs).
Proof.
  unfold ztake. generalize (Z.to_nat n) as k. intros k. revert k. induction bs as [|b bs IH]; intros [|k]; try done.
  cbn [take bits_of flat_map]. fold (bits_of bs). fold (bits_of (take k bs)). rewrite IH.
  replace (8 * S k)%nat with (length (byte_bits b) + 8 * k)%nat by (change (length (byte_bits b)) with 8%nat; lia).
  by rewrite take_app_add.
Qed.

Lemma encoded_rests cap l :
  Forall in_range l -> exists r, rests (newGorillaDecoder (encode cap l)) (samples_code (newGorillaEncoder cap) l ++ r).
Proof.
  intros Hl. assert (holds (newGorillaEncoder cap) []) as H0 by (split; [done|eexists; apply bits_of_zeros]).
  destruct (write_all l (newGorillaEncoder cap) [] ltac:(done) Hl H0) as [Hp (k & Hb)]. cbn [app] in *.
  unfold encode, bytes. set (e := foldl _ _ l) in *. set (c := samples_code _ l) in *.
  exists (take (8 * Z.to_nat ((bitPos e + 7) / 8) - length c) (replicate k false)).
  split; [done|]. cbn [newGorillaDecoder bitPos buf]. change (Z.to_nat 0) with 0%nat. rewrite drop_0, bits_of_take, Hb.
  rewrite take_app_ge; [done|]. unfold zlen in Hp. Z.to_euclidean_division_equations; lia.
Qed.

Lemma same_new cap data : same (newGorillaEncoder cap) (newGorillaDecoder data).
Proof. done. Qed.

Definition times (l : list sample) : list Z := omap (fun s => match s with Time ts => Some ts | Value _ => None end) l.

(** Second differences the format holds: 32 bits with a sign, but not 64. *)
Definition dod_ok (dod : Z) : Prop := -2 ^ 31 <= dod < 2 ^ 31 /\ dod <> 64.

Fixpoint regular_from (prev delta : Z) (ts : list Z) : Prop :=
  match ts with
  | [] => True
  | t :: ts' => dod_ok (swrap64 (swrap64 (t - prev) - delta)) /\ regular_from t (swrap64 (t - prev)) ts'
  end.
Definition regular (ts : list Z) : Prop := match ts with [] => True | t :: ts' => regular_from t 0 ts' end.

Lemma dod_read_ok dod : dod_read dod = dod <-> dod_ok dod.
Proof.
  unfold dod_read, dod_ok. change (2 ^ 31) with 2147483648. change (2 ^ 32) with 4294967296.
  destruct (Z.eqb_spec dod 64) as [->|Hne]; [lia|]. destruct (_ && _) eqn:E; Z.to_euclidean_division_equations; lia.
Qed.

Lemma regular_readable l : forall e,
  (if hasPrevTime e then regular_from (prevTime e) (prevDelta e) (times l) else regular (times l)) -> readable_from e l.
Proof.
  induction l as [|[ts|v] l IH]; intros e Hr; cbn [readable_from]; [done| |].
  - cbn in Hr. unfold sample_next, time_next. destruct (hasPrevTime e) eqn:Ep.
    + destruct Hr as [H1 H2]. split; [intros _; by apply dod_read_ok|]. apply IH. exact H2.
    + split; [done|]. apply IH. exact Hr.
  - split; [done|]. apply IH. exact Hr.
Qed.

(** C31: Streams read back as they were written: timestamps of 64 bits and the bits of any
    values, interleaved as one likes and into a buffer of any first capacity, when every
    second difference of the timestamps fits 32 bits and none is 64. *)
Theorem gorilla_roundtrip cap l :
  Forall in_range l -> regular (times l) -> decode_like l (encode cap l) = Some l.
Proof.
  intros Hl Hr. destruct (encoded_rests cap l Hl) as (r & H).
  by apply (read_all l (newGorillaEncoder cap) _ r (same_new _ _) H); [|done|apply regular_readable].
Qed.

(** A timestamp 64 after the previous one is read as 64 before it. A second timestamp
    reads back exactly when its distance from the first fits 32 bits and is not 64, the
    upper end of the range the encoder puts in 7 bits. *)
Theorem timestamp_loss cap t t' :
  i64 t -> i64 t' ->
  (decode_like [Time t; Time t'] (encode cap [Time t; Time t']) = Some [Time t; Time t'] <-> dod_ok (swrap64 (t' - t))) /\
  (t' = t + 64 -> decode_like [Time t; Time t'] (encode cap [Time t; Time t']) = Some [Time t; Time (swrap64 (t - 64))]).
Proof.
  intros Ht Ht'. destruct (encoded_rests cap [Time t; Time t'] ltac:(constructor; [exact Ht|constructor; [exact Ht'|constructor]])) as (r & Hr).
  cbn [samples_code sample_code sample_next] in Hr. rewrite <- !app_assoc in Hr.
  destruct (read_time _ _ t _ (same_new _ _) Hr Ht ltac:(done)) as (d1 & E1 & S1 & R1).
  destruct (read_next_time _ _ t' _ S1 R1 eq_refl) as (d2 & E2 & _ & _).
  unfold decode_like. cbn [read_all_like read_like]. rewrite E1. cbn [mbind option_bind]. rewrite E2. cbn [mbind option_bind].
  set (delta := swrap64 (t' - t)).
  assert (prevTime (time_next (newGorillaEncoder cap) t) = t) as -> by done.
  assert (delta_read (time_next (newGorillaEncoder cap) t) t' = swrap64 (dod_read delta)) as ->.
  { unfold delta_read, dod_of, delta_of. cbn. rewrite Z.sub_0_r, Z.add_0_r. f_equal. f_equal. apply swrap64_id, swrap64_range. }
  split; [|intros ->; unfold delta; replace (t + 64 - t) with 64 by lia; reflexivity].
  assert (i64 (dod_read delta)) as Hd.
  { pose proof (swrap64_range (t' - t)). fold delta in H. unfold dod_read, i64 in *. change (2 ^ 31) with 2147483648.
    change (2 ^ 32) with 4294967296. repeat case_match; Z.to_euclidean_division_equations; lia. }
  rewrite (swrap64_id _ Hd), <- dod_read_ok. split.
  - intros [= E]. unfold delta at 2. rewrite <- E.
    rewrite <- Z.add_opp_r, swrap64_swrap64_add. symmetry. rewrite <- (swrap64_id _ Hd) at 2. f_equal. lia.
  - intros ->. do 3 f_equal. unfold delta. rewrite Z.add_comm, swrap64_swrap64_add, Z.sub_add. f_equal. by apply swrap64_id.
Qed.

(** * The cost of values *)

Fixpoint value_cost (prev : Z) (bs : list Z) : Z :=
  match bs with [] => 0 | b :: bs' => (if b =? prev then 1 else 66) + value_cost b bs' end.

Lemma values_code bs : forall e,
  hasPrevValue e = true -> zlen (samples_code e (map Value bs)) = value_cost (prevValue e) bs.
Proof.
  induction bs as [|b bs IH]; intros e He; [done|]. cbn [map samples_code sample_code sample_next value_cost]. rewrite zlen_app, IH by done.
  f_equal. unfold float_code. rewrite He. cbv zeta. destruct (Z.eqb_spec b (prevValue e)) as [->|Hne].
  - by rewrite Z.lxor_nilpotent.
  - destruct (Z.eqb_spec (Z.lxor b (prevValue e)) 0) as [E|_]; [by apply Z.lxor_eq in E|].
    rewrite zlen_app, zlen_bits_msb. done.
Qed.

(** Values are never compressed: a value that is not the previous one always takes 66
    bits, however many bits the two share. *)
Lemma values_never_shrink cap b bs :
  Forall u64 (b :: bs) ->
  bitPos (foldl write_sample (newGorillaEncoder cap) (map Value (b :: bs))) = 64 + value_cost b bs.
Proof.
  intros Hb. destruct (write_all (map Value (b :: bs)) (newGorillaEncoder cap) [] ltac:(done)) as [-> _].
  - apply Forall_map. eapply Forall_impl; [exact Hb|]. done.
  - split; [done|]. eexists. apply bits_of_zeros.
  - cbn [app map samples_code sample_code sample_next]. rewrite zlen_app, values_code by done. by cbn [prevValue set_value].
Qed.
