(* ===== verification/PagerFile.v ===== *)
(** What the pager promises to a client that opens and closes it itself and uses no
    transactions: the logs and metrics stores.

    [pf_rel p n c m]: the pager is open, has [c] pages in all, of which those of [m] are
    allocated with these bodies and the others from [FirstDataPageID] on are free, and
    room for [n] more.  [pf_files p n c m]: a pager of a new process over files that hold
    this.  Both pagers of the library have it. *)

From Stdlib Require Import ZArith Lia.
From stdpp Require Import gmap.
From S2P Require Import Prelude Page Monad Pager PagerSpec PagerSim PagerRefine PagerCrash PagerMem.
Open Scope Z_scope.

Class FilePagerOps (P : Type) `{PagerOps P} := {
  pf_Open : ctx -> P -> res pager_err unit * P;
  pf_Close : ctx -> P -> res pager_err unit * P;
  (** a new process over the same files *)
  pf_restart : P -> P }.

Class FilePager (P : Type) `{FilePagerOps P} := {
  pf_rel : P -> nat -> Z -> gmap Z (list byte) -> Prop;
  pf_files : P -> nat -> Z -> gmap Z (list byte) -> Prop;

  pf_weaken p n n' c m : (n' <= n)%nat -> pf_rel p n c m -> pf_rel p n' c m;

  pf_ok p n c m : pf_rel p n c m ->
    FirstDataPageID <= c <= max_pages /\
    forall id b, m !! id = Some b -> zlen b = DataPageBodySize /\ FirstDataPageID <= id < c;

  pf_count p n c m : pf_rel p n c m -> pg_PageCount None p = (Ok c, p);

  pf_read p n c m id b : pf_rel p n c m -> m !! id = Some b ->
    exists p', pg_ReadPage None id p = (Ok b, p') /\ pf_rel p' n c m;

  pf_read_none p n c m id : pf_rel p n c m -> 0 <= id -> m !! id = None ->
    exists p', pg_ReadPage None id p = (Err ErrInvalidPageID, p') /\ pf_rel p' n c m;

  pf_write p n c m id b : pf_rel p n c m -> is_Some (m !! id) -> zlen b = DataPageBodySize ->
    exists p', pg_WritePage None id b p = (Ok tt, p') /\ pf_rel p' n c (<[id := b]> m);

  pf_write_none p n c m id b : pf_rel p n c m -> 0 <= id -> m !! id = None ->
    pg_WritePage None id b p = (Err ErrInvalidPageID, p);

  (** a free page is reused; without one the file grows *)
  pf_alloc p n c m : pf_rel p (S n) c m ->
    exists id p', pg_AllocatePage None p = (Ok id, p') /\ m !! id = None /\ FirstDataPageID <= id <= c /\
      ((forall i, FirstDataPageID <= i < c -> is_Some (m !! i)) -> id = c) /\
      pf_rel p' n (Z.max c (id + 1)) (<[id := zero_body]> m);

  pf_free p n c m id : pf_rel p n c m -> is_Some (m !! id) ->
    exists p', pg_FreePage None id p = (Ok tt, p') /\ pf_rel p' n c (delete id m);

  pf_free_none p n c m id : pf_rel p n c m -> FirstDataPageID <= id -> m !! id = None ->
    exists r p', pg_FreePage None id p = (r, p') /\ pf_rel p' n c m;

  pf_open p n c m : pf_files p n c m -> exists p', pf_Open None p = (Ok tt, p') /\ pf_rel p' n c m;

  (** after [Close], and after a crash between two calls *)
  pf_close p n c m : pf_rel p n c m ->
    exists p', pf_Close None p = (Ok tt, p') /\ pf_files (pf_restart p') n c m;
  pf_crash p n c m : pf_rel p n c m -> pf_files (pf_restart p) n c m }.

(** * The pager in memory *)

#[export] Instance memPager_file_ops : FilePagerOps memPager := {|
  pf_Open _ p := (Ok tt, p); pf_Close _ p := (Ok tt, p); pf_restart p := p |}.

Definition mem_file (p : memPager) (n : nat) (c : Z) (m : gmap Z (list byte)) : Prop :=
  mem_rel p n (mkView m None) /\ mp_next p = c.

(** It never reuses a page. *)
Lemma mem_alloc_law p n c m : mem_file p (S n) c m ->
  exists id p', pg_AllocatePage None p = (Ok id, p') /\ m !! id = None /\ FirstDataPageID <= id <= c /\
    ((forall i, FirstDataPageID <= i < c -> is_Some (m !! i)) -> id = c) /\
    mem_file p' n (Z.max c (id + 1)) (<[id := zero_body]> m).
Proof.
  intros [Hr <-]. destruct (mem_alloc p n (mkView m None) Hr eq_refl) as (p' & E & Hn & Hid & Hr').
  exists (mp_next p), p'. split_and!; try done; try lia. split; [done|].
  destruct Hr as (Ev & _). cbn in E. unfold mem_outside in E. rewrite Ev in E. injection E as <-. cbn. lia.
Qed.

#[export] Instance memPager_file : FilePager memPager.
Proof.
  refine {| pf_rel := mem_file; pf_files := mem_file |}.
  - intros p n n' c m Hle [Hr Hc]. split; [|done]. exact (@pg_rel_weaken memPager _ memPager_spec p n n' _ Hle Hr).
  - intros p n c m [Hr <-]. destruct Hr as (_ & H1 & H2 & H3 & _). split; [lia|]. intros id b Hb. exact (H3 id b Hb).
  - intros p n c m [_ <-]. done.
  - intros p n c m id b [Hr Hc] Hb. exists p. destruct Hr as (Ev & Hr). cbn. unfold mem_read. rewrite Ev. cbn.
    by rewrite Hb.
  - intros p n c m id [Hr Hc] _ Hb. exists p. destruct Hr as (Ev & Hr). cbn. unfold mem_read. rewrite Ev. cbn.
    by rewrite Hb.
  - intros p n c m id b [Hr Hc] Hid Hb.
    destruct (@pg_write_law memPager _ memPager_spec p n _ id b Hr Hid Hb) as (p' & E & Hr'). exists p'. split; [done|]. split; [done|].
    destruct Hr as (Ev & _). cbn in E. unfold mem_write in E. rewrite Ev in E. cbn in E. destruct Hid as [b' Hb'].
    rewrite Hb', Hb, Z.eqb_refl in E. by injection E as <-.
  - intros p n c m id b [Hr Hc] _ Hb. destruct Hr as (Ev & Hr). cbn. unfold mem_write. rewrite Ev. cbn. by rewrite Hb.
  - exact mem_alloc_law.
  - intros p n c m id [Hr Hc] Hid. destruct (@pg_free_law memPager _ memPager_spec p n _ id Hr eq_refl Hid) as (p' & E & Hr').
    exists p'. split; [done|]. split; [done|]. destruct Hr as (Ev & _). cbn in E. unfold mem_outside in E. rewrite Ev in E.
    by injection E as <-.
  - intros p n c m id [Hr Hc] _ Hid. exists (Ok tt). destruct Hr as (Ev & Hr). cbn. unfold mem_outside. rewrite Ev. cbn.
    rewrite delete_id by done. eexists. split; [reflexivity|]. split; [|done]. split; [done|exact Hr].
  - intros p n c m Hr. by exists p.
  - intros p n c m Hr. by exists p.
  - done.
Defined.

Lemma empty_mem_file n : 2 + Z.of_nat n <= max_pages -> mem_file empty_mem n FirstDataPageID ∅.
Proof. intros Hn. split; [by apply empty_mem_rel|done]. Qed.

(** * The pager over two files *)

Section files.
Context `{MapRange}.
Open Scope st_scope.
Import Pager.

#[export] Instance filePager_file_ops : FilePagerOps filePager := {|
  pf_Open := Open; pf_Close := Close; pf_restart := restart |}.

Definition file_rel (p : filePager) (n : nat) (c : Z) (m : gmap Z (list byte)) : Prop :=
  exists fl recs, pager_inv p n fl m recs /\ inTxn p = false /\ pageCount p = c.

Definition file_files (p : filePager) (n : nat) (c : Z) (m : gmap Z (list byte)) : Prop :=
  exists q, Open None p = (Ok tt, q) /\ file_rel q n c m.

Lemma file_opened f cnt head fl m n :
  disk_inv f cnt head fl m -> cnt + Z.of_nat n <= max_pages -> file_rel (opened f cnt head fl) n cnt m.
Proof. intros Hd Hn. exists fl, []. split; [by apply opened_inv|done]. Qed.

(** The page count is what the free and the allocated pages cover. *)
Lemma count_eq a b : 2 <= a -> 2 <= b -> (forall id, 2 <= id < a <-> 2 <= id < b) -> a = b.
Proof. intros Ha Hb Hab. pose proof (Hab (a - 1)). pose proof (Hab (b - 1)). pose proof (Hab a). pose proof (Hab b). lia. Qed.

Lemma file_alloc p n c m : file_rel p (S n) c m ->
  exists id p', AllocatePage None p = (Ok id, p') /\ m !! id = None /\ FirstDataPageID <= id <= c /\
    ((forall i, FirstDataPageID <= i < c -> is_Some (m !! i)) -> id = c) /\
    file_rel p' n (Z.max c (id + 1)) (<[id := zero_body]> m).
Proof.
  intros (fl & recs & Hi & Ht & <-). pose proof (pi_disk _ _ _ _ _ Hi) as Hd. pose proof (di_count _ _ _ _ _ Hd) as Hc.
  pose proof (di_cover _ _ _ _ _ Hd) as Hcov. unfold FirstDataPageID. destruct fl as [|id fl].
  - destruct (AllocatePage_new_inv Hi n eq_refl eq_refl Ht) as (p' & E & Ht' & Hi').
    exists (pageCount p), p'. split; [exact E|]. split.
    { destruct (m !! pageCount p) eqn:El; [|done]. destruct (di_used Hd (pageCount p)); [by eexists|lia]. }
    split_and!; try done; try lia. exists [], recs. split; [exact Hi'|]. split; [done|].
    pose proof (pi_disk _ _ _ _ _ Hi') as Hd'. pose proof (di_count _ _ _ _ _ Hd').
    apply count_eq; [lia|lia|]. intros id. rewrite (di_cover _ _ _ _ _ Hd'), lookup_insert_is_Some'.
    specialize (Hcov id). rewrite elem_of_nil in *. split.
    + intros [?|[E0|Hs]]; [done|lia|]. specialize (proj2 Hcov (or_intror Hs)). lia.
    + intros Hr. destruct (decide (pageCount p = id)); [right; by left|].
      destruct (proj1 Hcov ltac:(lia)) as [?|?]; [done|right; by right].
  - destruct (AllocatePage_free_inv Hi id fl eq_refl Ht) as (p' & E & Ht' & Hi').
    pose proof (di_free Hd id ltac:(constructor)) as Hid. pose proof (di_disj _ _ _ _ _ Hd id ltac:(constructor)) as Hm.
    exists id, p'. split; [exact E|]. split; [exact Hm|]. split; [lia|]. split.
    { intros Hall. destruct (Hall id Hid) as [? ?]. congruence. }
    exists fl, recs. split; [destruct Hi'; split; try assumption; lia|]. split; [done|].
    pose proof (pi_disk _ _ _ _ _ Hi') as Hd'. pose proof (di_count _ _ _ _ _ Hd').
    apply count_eq; [lia|lia|]. intros i. rewrite (di_cover _ _ _ _ _ Hd'), lookup_insert_is_Some'.
    specialize (Hcov i). rewrite elem_of_cons in Hcov. rewrite Z.max_l by lia. intuition congruence.
Qed.

Lemma file_write_none p n c m id b : file_rel p n c m -> 0 <= id -> m !! id = None ->
  WritePage None id b p = (Err ErrInvalidPageID, p).
Proof.
  intros (fl & recs & Hi & Ht & <-) H0 Hm. unfold WritePage. rewrite op_guards by apply Hi.
  destruct (decide (2 <= id < pageCount p)) as [Hr|Hr]; [|by erewrite bind_err by (by apply validatePageID_bad)].
  erewrite bind_ok by (by apply validatePageID_ok). rewrite bind_gets, decide_True; [done|].
  rewrite (pi_freeSet _ _ _ _ _ Hi), elem_of_list_to_set.
  destruct (proj1 (di_cover _ _ _ _ _ (pi_disk _ _ _ _ _ Hi) id) Hr) as [?|[? ?]]; [done|congruence].
Qed.

Lemma file_free p n c m id : file_rel p n c m -> is_Some (m !! id) ->
  exists p', FreePage None id p = (Ok tt, p') /\ file_rel p' n c (delete id m).
Proof.
  intros (fl & recs & Hi & Ht & <-) Hid. destruct (FreePage_inv Hi id Hid Ht) as (p' & E & Ht' & Hi').
  exists p'. split; [exact E|]. exists (id :: fl), recs. split; [done|]. split; [done|].
  pose proof (pi_disk _ _ _ _ _ Hi) as Hd. pose proof (di_count _ _ _ _ _ Hd). pose proof (di_used Hd id Hid).
  pose proof (pi_disk _ _ _ _ _ Hi') as Hd'. pose proof (di_count _ _ _ _ _ Hd').
  apply count_eq; [lia|lia|]. intros i. rewrite (di_cover _ _ _ _ _ Hd'), (di_cover _ _ _ _ _ Hd), elem_of_cons.
  destruct (decide (i = id)) as [->|Hne]; [rewrite lookup_delete_eq; intuition|rewrite lookup_delete_ne by done; intuition congruence].
Qed.

Lemma file_free_none p n c m id : file_rel p n c m -> FirstDataPageID <= id -> m !! id = None ->
  exists r p', FreePage None id p = (r, p') /\ file_rel p' n c m.
Proof.
  intros (fl & recs & Hi & Ht & <-) Hid Hm. unfold FirstDataPageID in Hid. unfold FreePage. rewrite op_guards by apply Hi.
  rewrite bind_gets, Ht, (proj2 (Z.eqb_neq _ _)) by lia. rewrite bind_gets.
  assert (file_rel p n (pageCount p) m) as Hp by (by exists fl, recs).
  destruct (Z.leb_spec (pageCount p) id) as [Hle|Hlt]; [by eexists _, p|]. rewrite bind_gets. rewrite decide_True; [by eexists _, p|].
  rewrite (pi_freeSet _ _ _ _ _ Hi), elem_of_list_to_set.
  destruct (proj1 (di_cover _ _ _ _ _ (pi_disk _ _ _ _ _ Hi) id) ltac:(lia)) as [?|[? ?]]; [done|congruence].
Qed.

Lemma file_crash p n c m : file_rel p n c m -> file_files (restart p) n c m.
Proof.
  intros (fl & recs & Hi & Ht & <-). rewrite restart_newPager by apply Hi.
  destruct (Open_uncommitted (mainFile p) (walFile p) (pageCount p) (freeListHead p) fl m recs) as (f' & E & Hd).
  - apply Hi.
  - rewrite (pi_wal _ _ _ _ _ Hi). eapply torn_log_full, data_records_ok, Hi.
  - intros t. eapply committed_none, Hi.
  - eexists. split; [exact E|]. apply file_opened; [done|apply Hi].
Qed.

Lemma file_close p n c m : file_rel p n c m ->
  exists p', Close None p = (Ok tt, p') /\ file_files (restart p') n c m.
Proof.
  intros (fl & recs & Hi & Ht & <-).
  destruct (replay_nothing p (pageCount p) (freeListHead p) fl m ∅ recs) as (f' & E & Hd).
  { apply Hi. } { apply Hi. }
  { rewrite (pi_wal _ _ _ _ _ Hi). eapply torn_log_full, data_records_ok, Hi. }
  { apply disk_torn_intro, Hi. } { intros t. eapply committed_none, Hi. }
  destruct (Open_uncommitted f' [] (pageCount p) (freeListHead p) fl m []) as (f2 & E2 & Hd2);
    [by apply disk_torn_empty|by apply (torn_log_full [])|done|].
  pose proof (pi_sched _ _ _ _ _ Hi) as Hs. pose proof (pi_threshold _ _ _ _ _ Hi) as Hth.
  exists (with_state stateClosed (with_walSize 0 (with_wal [] (with_main f' p)))). split.
  - unfold Close. erewrite bind_ok by (apply checkState_open, Hi). unfold checkpoint. erewrite bind_ok by exact E.
    do 3 erewrite bind_ok by (by apply io_call_ok). reflexivity.
  - rewrite restart_newPager by (exact Hth). eexists. split; [exact E2|]. apply file_opened; [done|apply Hi].
Qed.

#[export] Instance filePager_file : FilePager filePager.
Proof.
  refine {| pf_rel := file_rel; pf_files := file_files |}.
  - intros p n n' c m Hle (fl & recs & Hi & H'). exists fl, recs. split; [|done]. destruct Hi; split; try assumption; lia.
  - intros p n c m (fl & recs & Hi & _ & <-). pose proof (pi_disk _ _ _ _ _ Hi) as Hd. pose proof (di_count _ _ _ _ _ Hd).
    unfold FirstDataPageID. split; [lia|]. intros id b Hb. split; [exact (proj1 (di_pages _ _ _ _ _ Hd id b Hb))|].
    apply (di_used Hd). by eexists.
  - intros p n c m (fl & recs & Hi & _ & <-). by eapply PageCount_inv.
  - intros p n c m id b (fl & recs & Hi & Ht & Hc) Hb. exists p. split; [|by exists fl, recs].
    apply (ReadPage_inv Hi). unfold view_of. by rewrite Ht.
  - intros p n c m id (fl & recs & Hi & Ht & Hc) H0 Hb. exists p. split; [|by exists fl, recs].
    apply (ReadPage_unallocated Hi); [done|]. unfold view_of. by rewrite Ht.
  - intros p n c m id b (fl & recs & Hi & Ht & Hc) Hid Hb. destruct (inv_write_direct Hi id b Ht Hid Hb) as (E & Hi').
    eexists. split; [exact E|]. by exists fl, recs.
  - exact file_write_none.
  - exact file_alloc.
  - exact file_free.
  - exact file_free_none.
  - done.
  - exact file_close.
  - exact file_crash.
Defined.

(** Files that do not exist yet hold no page. *)
Lemma fresh_files n : 2 + Z.of_nat n <= max_pages -> pf_files (newPager [] [] 0 []) n FirstDataPageID ∅.
Proof.
  intros Hn. destruct (fresh_pager n Hn) as (q & E & Hr & Hc). exists q. split; [exact E|].
  destruct Hr as (fl & c & recs & Hi & Hv). unfold view_of in Hv. destruct (inTxn q) eqn:Ht; [done|].
  injection Hv as <-. exists fl, recs. split; [done|]. split; [done|].
  rewrite (PageCount_inv _ _ _ _ _ Hi) in Hc. by injection Hc.
Qed.
End files.
