(* ===== verification/FlatStore.v ===== *)
(** The pages of the flat stores of [metrics], [logs] and the rollups: a header of two
    [uint32] (the number of records and the offset of the first byte behind them), then
    the records, then zeros.

    [page_image] is a page with given records, [put] a write into a slice at an offset.
    What an append does to a page, and what the decoding loops make of it, is proved
    here once for any record format. *)

From Stdlib Require Import ZArith Lia.
From stdpp Require Import base option list.
From stdpp Require Import gmap list.
From S2P Require Import Prelude Page Monad PagerSpec PagerFile.
Open Scope Z_scope.

(** * Writing into a page *)

(** [copy(body[off:], d)], with [binary.LittleEndian.PutUint32] and the like. *)
Definition put (off : Z) (d body : list byte) : list byte := copy_into body off (zlen body) d.
Definition put32 (off v : Z) : list byte -> list byte := put off (le_encode 4 v).
Definition put64 (off v : Z) : list byte -> list byte := put off (le_encode 8 v).

Definition get32 (off : Z) (body : list byte) : Z := le_decode (slice body off (off + 4)).

Lemma put_splice off d body : 0 <= off -> off + zlen d <= zlen body -> put off d body = splice body off d.
Proof. intros H1 H2. unfold put, copy_into. by rewrite ztake_all by lia. Qed.

Lemma zlen_put off d body : 0 <= off -> off + zlen d <= zlen body -> zlen (put off d body) = zlen body.
Proof. intros H1 H2. rewrite put_splice by done. by apply zlen_splice. Qed.

(** A page in three parts, the middle one overwritten. *)
Lemma put_middle a b c d : zlen b = zlen d -> put (zlen a) d (a ++ b ++ c) = a ++ d ++ c.
Proof.
  intros Hl. pose proof (zlen_nonneg a). pose proof (zlen_nonneg c). pose proof (zlen_nonneg d).
  rewrite put_splice; [|lia|rewrite !zlen_app; lia]. unfold splice.
  rewrite ztake_app_eq by done. f_equal. f_equal. rewrite app_assoc, zdrop_app_eq; [done|rewrite zlen_app; lia].
Qed.

Lemma put_app off a b body :
  0 <= off -> off + zlen a + zlen b <= zlen body ->
  put (off + zlen a) b (put off a body) = put off (a ++ b) body.
Proof.
  intros H1 H2. pose proof (zlen_nonneg a). pose proof (zlen_nonneg b).
  rewrite <- (ztake_zdrop off body), <- (ztake_zdrop (zlen a) (zdrop off body)), <- (ztake_zdrop (zlen b) (zdrop (zlen a) (zdrop off body))).
  set (x := ztake off body). set (y := ztake (zlen a) (zdrop off body)). set (z := ztake (zlen b) (zdrop (zlen a) (zdrop off body))).
  set (w := zdrop (zlen b) _).
  assert (zlen x = off) as Hx by (apply zlen_ztake; lia).
  assert (zlen y = zlen a) as Hy by (apply zlen_ztake; rewrite zlen_zdrop; lia).
  assert (zlen z = zlen b) as Hz by (apply zlen_ztake; rewrite !zlen_zdrop by (rewrite ?zlen_zdrop; lia); lia).
  rewrite <- Hx. rewrite put_middle by done.
  replace (zlen x + zlen a) with (zlen (x ++ a)) by (rewrite zlen_app; lia). rewrite (app_assoc x a), put_middle by done.
  rewrite (app_assoc y z), put_middle by (rewrite !zlen_app; lia). by rewrite <- !app_assoc.
Qed.

(** * Pages of records *)

(** The loop of the decoding functions: [parse] takes one record off the front, and the
    loop ends early when it cannot. A record takes a byte at least, so the length of the
    page bounds the rounds of a damaged header. *)
Fixpoint parse_records {R} (parse : list byte -> option (R * list byte)) (n : nat) (rest : list byte) : list R :=
  match n with
  | O => []
  | S n' => match parse rest with Some (r, rest') => r :: parse_records parse n' rest' | None => [] end
  end.

Definition decode_records {R} (parse : list byte -> option (R * list byte)) (hs : Z) (body : list byte) : list R :=
  if zlen body <? hs then []
  else parse_records parse (Z.to_nat (Z.min (get32 0 body) (zlen body))) (zdrop hs body).

(** A page of [size] bytes with the encoded records [es] behind a header of [hs] bytes. *)
Definition page_header (hs n off : Z) : list byte := le_encode 4 n ++ le_encode 4 off ++ zrep (hs - 8) x00.
Definition page_image (size hs : Z) (es : list (list byte)) : list byte :=
  page_header hs (zlen es) (hs + zlen (concat es)) ++ concat es ++ zrep (size - hs - zlen (concat es)) x00.

Section pages.
Context (size hs : Z) (Hhs : 8 <= hs) (Hsize : hs <= size < 2 ^ 32).

Definition page_fits (es : list (list byte)) : Prop := hs + zlen (concat es) <= size /\ Forall (fun e => e <> []) es.

Lemma zlen_header n off : zlen (page_header hs n off) = hs.
Proof. unfold page_header. rewrite !zlen_app, !zlen_le_encode, zlen_rep by lia. lia. Qed.

Lemma zlen_image es : page_fits es -> zlen (page_image size hs es) = size.
Proof.
  intros [Hf _]. pose proof (zlen_nonneg (concat es)). unfold page_image.
  rewrite !zlen_app, zlen_header, zlen_rep by lia. lia.
Qed.

Lemma concat_length es : Forall (fun e : list byte => e <> []) es -> zlen es <= zlen (concat es).
Proof.
  induction 1 as [|e es He _ IH]; [done|]. cbn [concat]. rewrite zlen_app, zlen_cons.
  destruct e; [done|]. rewrite zlen_cons. pose proof (zlen_nonneg e). lia.
Qed.

Lemma header_fields n off rest : 0 <= n < 2 ^ 32 -> 0 <= off < 2 ^ 32 ->
  get32 0 (page_header hs n off ++ rest) = n /\ get32 4 (page_header hs n off ++ rest) = off.
Proof.
  intros Hn Ho. unfold get32, page_header. rewrite <- !app_assoc. split.
  - rewrite slice_app_l by (rewrite ?zlen_le_encode; lia). rewrite slice_full by (rewrite ?zlen_le_encode; lia).
    by apply le_decode_encode.
  - rewrite slice_app_r by (rewrite ?zlen_le_encode; lia). rewrite zlen_le_encode. change (4 - Z.of_nat 4) with 0.
    change (4 + 4 - Z.of_nat 4) with 4.
    rewrite slice_app_l by (rewrite ?zlen_le_encode; lia). rewrite slice_full by (rewrite ?zlen_le_encode; lia).
    by apply le_decode_encode.
Qed.

Lemma image_fields es : page_fits es ->
  get32 0 (page_image size hs es) = zlen es /\ get32 4 (page_image size hs es) = hs + zlen (concat es).
Proof.
  intros [Hf Hne]. pose proof (concat_length es Hne). pose proof (zlen_nonneg es). apply header_fields; lia.
Qed.

(** [writeHeader] on a page whose other fields are in place. *)
Lemma put_header n off n' off' rest :
  put32 4 off (put32 0 n (page_header hs n' off' ++ rest)) = page_header hs n off ++ rest.
Proof.
  unfold put32. pose proof (zlen_nonneg rest). pose proof (zlen_le_encode 4 n) as Hn. pose proof (zlen_le_encode 4 off) as Ho.
  pose proof (put_app 0 (le_encode 4 n) (le_encode 4 off) (page_header hs n' off' ++ rest)) as E.
  rewrite Hn in E. change (0 + Z.of_nat 4) with 4 in E. rewrite E; [|done|rewrite zlen_app, zlen_header, Ho; lia].
  unfold page_header. rewrite <- !app_assoc, (app_assoc (le_encode 4 n')), (app_assoc (le_encode 4 n)).
  apply (put_middle []). by rewrite !zlen_app, !zlen_le_encode.
Qed.

(** A page without records. *)
Lemma image_empty : put32 4 hs (put32 0 0 (zrep size x00)) = page_image size hs [].
Proof.
  assert (zrep size x00 = page_header hs 0 0 ++ zrep (size - hs) x00) as ->.
  { unfold page_header. change (le_encode 4 0) with (zrep 4 x00). rewrite !zrep_app by lia. f_equal. lia. }
  rewrite put_header. unfold page_image. cbn [concat app].
  change (zlen (@nil (list byte))) with 0. change (zlen (@nil byte)) with 0. by rewrite Z.add_0_r, Z.sub_0_r.
Qed.

(** One record more. *)
Lemma image_append es e :
  page_fits es -> page_fits (es ++ [e]) ->
  put32 4 (hs + zlen (concat es) + zlen e) (put32 0 (zlen es + 1) (put (hs + zlen (concat es)) e (page_image size hs es)))
    = page_image size hs (es ++ [e]).
Proof.
  intros [Hf _] [Hf' _]. rewrite concat_app in *. cbn [concat] in *. rewrite app_nil_r in *. rewrite zlen_app in Hf'.
  pose proof (zlen_nonneg (concat es)). pose proof (zlen_nonneg e). unfold page_image at 1.
  replace (size - hs - zlen (concat es)) with (zlen e + (size - hs - zlen (concat es ++ e))) by (rewrite zlen_app; lia).
  rewrite <- zrep_app by (rewrite ?zlen_app; lia). rewrite app_assoc.
  replace (hs + zlen (concat es)) with (zlen (page_header hs (zlen es) (hs + zlen (concat es)) ++ concat es)) at 2
    by (rewrite zlen_app, zlen_header; lia).
  rewrite put_middle by (by rewrite zlen_rep by lia). rewrite <- app_assoc, put_header.
  unfold page_image. rewrite concat_app. cbn [concat]. rewrite app_nil_r, !zlen_app, <- !app_assoc.
  change (zlen [e]) with 1. by rewrite Z.add_assoc.
Qed.

(** The records of a page, decoded. *)
Section decoding.
Context {R : Type} (enc : R -> list byte) (parse : list byte -> option (R * list byte)) (ok : R -> Prop).
Hypothesis parse_enc : forall r rest, ok r -> parse (enc r ++ rest) = Some (r, rest).

Lemma parse_records_app rs rest n :
  Forall ok rs -> (length rs <= n)%nat ->
  parse_records parse n (concat (map enc rs) ++ rest) = rs ++ parse_records parse (n - length rs) rest.
Proof.
  intros Hok. revert n. induction Hok as [|r rs Hr _ IH]; intros n Hn; [by rewrite Nat.sub_0_r|].
  destruct n as [|n]; [cbn in Hn; lia|]. cbn [map concat length parse_records]. rewrite <- app_assoc, parse_enc by done.
  cbn in Hn. rewrite IH by lia. done.
Qed.

Lemma decode_image rs :
  Forall ok rs -> page_fits (map enc rs) -> decode_records parse hs (page_image size hs (map enc rs)) = rs.
Proof.
  intros Hok Hf. unfold decode_records. rewrite zlen_image by done. rewrite (proj2 (Z.ltb_ge _ _)) by lia.
  destruct (image_fields _ Hf) as [-> _]. destruct Hf as [Hf Hne]. pose proof (concat_length _ Hne) as Hl.
  rewrite Z.min_l by lia. unfold page_image. rewrite zdrop_app_eq by (by rewrite zlen_header).
  assert (Z.to_nat (zlen (map enc rs)) = length rs) as -> by (unfold zlen; rewrite length_map; lia).
  rewrite parse_records_app by done. rewrite Nat.sub_diag. apply app_nil_r.
Qed.
End decoding.
End pages.

(** * The flat page stores: [MetricsStore] of [internal/engine/metrics/store.go], [LogsStore]
    of [internal/engine/logs/store.go] and the pages of [RollupManager] in
    [internal/engine/metrics/rollup.go].

    The three are the same code over the pager, up to the names of the errors and the
    size of the page header: a store keeps a copy of its last page, appends a record to
    it, and writes the page back.  The operations are defined here once, with the header
    size as a parameter; [Metrics.v], [Logs.v] and [Rollup.v] add their records and
    indexes.

    The abstract state of a store is a map from page numbers to lists of records:
    [flat_rel] says that the pager holds exactly their images. *)

Open Scope st_scope.

(** The errors of the three packages under one name each, and a panic. *)
Inductive store_err : Type :=
| ErrStoreNotOpen | ErrStoreAlreadyOpen | ErrRecordTooLarge | ErrRollupNoSource | ErrPager (e : pager_err) | ErrPanic.

Record flat (P : Type) := mkFlat { pager : P; currentPageID : Z; currentBody : list byte; opened : bool }.
Arguments mkFlat {P}.
Arguments pager {P}.
Arguments currentPageID {P}.
Arguments currentBody {P}.
Arguments opened {P}.

Definition maxBodySize : Z := DataPageBodySize.

Section ops.
Context {P : Type} `{FilePagerOps P} (hs : Z).
Implicit Types s : flat P.

Definition fstore : Type -> Type := st (flat P) store_err.

Definition NewStore (pg : P) : flat P := mkFlat pg 0 [] false.

Definition with_pager (p : P) s : flat P := mkFlat p (currentPageID s) (currentBody s) (opened s).
Definition with_page (id : Z) (body : list byte) s : flat P := mkFlat (pager s) id body (opened s).
Definition with_body (body : list byte) s : flat P := with_page (currentPageID s) body s.
Definition with_opened (b : bool) s : flat P := mkFlat (pager s) (currentPageID s) (currentBody s) b.

(** A call of the pager. *)
Definition on_pager {A} (op : P -> res pager_err A * P) : fstore A := fun s =>
  match op (pager s) with
  | (Ok a, p) => (Ok a, with_pager p s)
  | (Err e, p) => (Err (ErrPager e), with_pager p s)
  end.

Definition writeHeader (num nextWriteOffset : Z) : fstore unit :=
  modify (fun s => with_body (put32 4 nextWriteOffset (put32 0 num (currentBody s))) s).
Definition readNum : fstore Z := gets (fun s => get32 0 (currentBody s)).
Definition readNextWriteOffset : fstore Z := gets (fun s => get32 4 (currentBody s)).

Definition flushPage (cx : ctx) : fstore unit := fun s =>
  on_pager (pg_WritePage cx (currentPageID s) (currentBody s)) s.

(** A new page becomes the current one: the allocation and the empty header. *)
Definition new_page (cx : ctx) : fstore unit :=
  pageID <- on_pager (pg_AllocatePage cx) ;;
  modify (with_page pageID (zrep maxBodySize x00)) ;;;
  writeHeader 0 hs.

(** [for id := FirstDataPageID; id < pageCount; id++ { lastID = id }] *)
Definition last_page (pageCount : Z) : Z :=
  fold_left (fun _ id => id) (seqZ FirstDataPageID (pageCount - FirstDataPageID)) FirstDataPageID.

Definition Open (cx : ctx) : fstore unit :=
  o <- gets opened ;;
  if o then fail ErrStoreAlreadyOpen
  else
    on_pager (pf_Open cx) ;;;
    pageCount <- on_pager (pg_PageCount cx) ;;
    (if pageCount <=? FirstDataPageID then new_page cx ;;; flushPage cx
     else
       let lastID := last_page pageCount in
       modify (fun s => with_page lastID (currentBody s) s) ;;;
       body <- on_pager (pg_ReadPage cx lastID) ;;
       modify (with_body (copy_into (zrep maxBodySize x00) 0 maxBodySize body))) ;;;
    modify (with_opened true).

Definition Close (cx : ctx) : fstore unit :=
  o <- gets opened ;;
  if negb o then fail ErrStoreNotOpen
  else
    flushPage cx ;;;
    modify (with_opened false) ;;;
    on_pager (pf_Close cx).

(** The part of the append methods that finds room for a record: the number of records
    and the offset, on the current page or on a new one. *)
Definition reserve (cx : ctx) (recSize : Z) : fstore (Z * Z) :=
  num <- readNum ;;
  nextOffset <- readNextWriteOffset ;;
  if maxBodySize <? nextOffset + recSize then
    flushPage cx ;;;
    new_page cx ;;;
    ret (0, hs)
  else ret (num, nextOffset).

(** A pass over pages: [page] is what the loop body makes of a page, [skip] the errors of
    a read that are passed over. *)
Fixpoint scan_pages {A} (cx : ctx) (skip : pager_err -> bool) (page : list byte -> res store_err (list A)) (ids : list Z)
  : fstore (list A) :=
  match ids with
  | [] => ret []
  | id :: ids' => fun s =>
      match pg_ReadPage cx id (pager s) with
      | (Ok body, p) => (a <- lift (page body) ;; b <- scan_pages cx skip page ids' ;; ret (a ++ b)) (with_pager p s)
      | (Err e, p) =>
          if skip e then scan_pages cx skip page ids' (with_pager p s)
          else (Err (ErrPager e), with_pager p s)
      end
  end.

(** [for pageID := FirstDataPageID; pageID < pageCount; pageID++] *)
Definition scan_all {A} (cx : ctx) (skip : pager_err -> bool) (page : list byte -> res store_err (list A)) : fstore (list A) :=
  pageCount <- on_pager (pg_PageCount cx) ;;
  scan_pages cx skip page (seqZ FirstDataPageID (pageCount - FirstDataPageID)).
End ops.

Lemma last_page_eq c : FirstDataPageID < c -> last_page c = c - 1.
Proof.
  unfold last_page, FirstDataPageID. intros Hc. replace (c - 2) with (Z.of_nat (S (Z.to_nat (c - 3)))) by lia.
  rewrite seqZ_S, fold_left_app. cbn. lia.
Qed.

(** * Refinement of a map of record lists *)

Section refinement.
Context {P : Type} `{FilePager P} {R : Type} (hs : Z) (enc : R -> list byte).
Context (Hhs : 8 <= hs <= maxBodySize).
Implicit Types (s : flat P) (pages : gmap Z (list R)) (rs : list R).

Definition image rs : list byte := page_image maxBodySize hs (map enc rs).
Definition fits rs : Prop := page_fits maxBodySize hs (map enc rs).

(** The store is open, every page holds its records, and the copy of the current page is
    that page. *)
Record flat_rel s (n : nat) (c : Z) pages : Prop := {
  fr_opened : opened s = true;
  fr_pager : pf_rel (pager s) n c (image <$> pages);
  fr_fits : map_Forall (fun _ => fits) pages;
  fr_cur : exists rs, pages !! currentPageID s = Some rs /\ currentBody s = image rs }.

(** The same in the middle of an append: the current page [rs] is not yet written. *)
Record flat_mid s (n : nat) (c : Z) pages rs : Prop := {
  fm_opened : opened s = true;
  fm_pager : exists b, pf_rel (pager s) n c (<[currentPageID s := b]> (image <$> pages));
  fm_fits : map_Forall (fun _ => fits) pages;
  fm_cur : pages !! currentPageID s = Some rs;
  fm_body : currentBody s = image rs }.

Lemma size_ok : hs <= maxBodySize < 2 ^ 32.
Proof. split; [lia|]. vm_compute. done. Qed.
Hint Resolve size_ok : core.

Lemma zlen_img rs : fits rs -> zlen (image rs) = maxBodySize.
Proof. intros Hf. apply zlen_image; [lia|done]. Qed.

Lemma fits_nil : fits [].
Proof. split; [|constructor]. cbn. change (zlen (@nil byte)) with 0. lia. Qed.

Lemma image_insert pages id rs : image <$> <[id := rs]> pages = <[id := image rs]> (image <$> pages).
Proof. apply fmap_insert. Qed.

Lemma rel_mid s n c pages rs : flat_rel s n c pages -> pages !! currentPageID s = Some rs -> flat_mid s n c pages rs.
Proof.
  intros [Ho Hp Hf (rs' & Hc & Hb)] Hl. assert (rs' = rs) as -> by congruence. split; try done.
  exists (image rs). rewrite insert_id; [done|]. by rewrite lookup_fmap, Hl.
Qed.

Lemma flat_rel_weaken s n n' c pages : (n' <= n)%nat -> flat_rel s n c pages -> flat_rel s n' c pages.
Proof. intros Hle [Ho Hp Hf Hc]. split; try done. by apply (pf_weaken _ n n'). Qed.

(** Writing the current page back. *)
Lemma flush_ok s n c pages rs : flat_mid s n c pages rs ->
  exists s', flushPage None s = (Ok tt, s') /\ flat_rel s' n c pages /\
    currentPageID s' = currentPageID s /\ currentBody s' = currentBody s.
Proof.
  intros [Ho [b Hp] Hf Hc Hb].
  destruct (pf_write _ _ _ _ (currentPageID s) (image rs) Hp) as (p' & E & Hp').
  { rewrite lookup_insert_eq. by eexists. }
  { apply zlen_img. by apply (Hf (currentPageID s)). }
  exists (with_pager p' s). unfold flushPage, on_pager. rewrite Hb, E. split; [done|]. split; [|done].
  split; try done; [|by exists rs]. rewrite insert_insert_eq in Hp'. cbn.
  rewrite insert_id in Hp'; [done|]. by rewrite lookup_fmap, Hc.
Qed.

(** A page more: a free page, or a new one at the end. *)
Lemma new_page_ok s n c pages :
  opened s = true \/ pages = ∅ -> pf_rel (pager s) (S n) c (image <$> pages) -> map_Forall (fun _ => fits) pages ->
  exists id s', new_page hs None s = (Ok tt, s') /\ pages !! id = None /\ FirstDataPageID <= id <= c /\
    ((forall i, FirstDataPageID <= i < c -> is_Some (pages !! i)) -> id = c) /\
    currentPageID s' = id /\ currentBody s' = image [] /\ opened s' = opened s /\
    pf_rel (pager s') n (Z.max c (id + 1)) (<[id := zero_body]> (image <$> pages)).
Proof.
  intros Ho Hp Hf. destruct (pf_alloc _ _ _ _ Hp) as (id & p' & E & Hn & Hid & Hd & Hp').
  exists id. unfold new_page. erewrite bind_ok by (unfold on_pager; by rewrite E).
  rewrite bind_modify. eexists. split; [reflexivity|].
  split; [by rewrite lookup_fmap, fmap_None in Hn|]. split; [done|]. split.
  { intros Hall. apply Hd. intros i Hi. rewrite lookup_fmap, fmap_is_Some. by apply Hall. }
  split; [done|]. split; [|done]. apply image_empty; [lia|done].
Qed.

Lemma insert_fits pages id rs : map_Forall (fun _ => fits) pages -> fits rs -> map_Forall (fun _ => fits) (<[id := rs]> pages).
Proof. intros Hf Hr. by apply map_Forall_insert_2. Qed.

(** ** Opening and closing *)

Lemma open_fresh p n : pf_files p (S n) FirstDataPageID ∅ ->
  exists s', Open hs None (NewStore p) = (Ok tt, s') /\ currentPageID s' = FirstDataPageID /\
    flat_rel s' n (FirstDataPageID + 1) {[FirstDataPageID := []]}.
Proof.
  intros Hp. destruct (pf_open _ _ _ _ Hp) as (p1 & E1 & Hp1).
  destruct (new_page_ok (with_pager p1 (NewStore p)) n FirstDataPageID ∅) as (id & s2 & E2 & _ & Hid & Hd & Hc & Hb & Ho & Hp2).
  { by right. } { by rewrite fmap_empty. } { apply map_Forall_empty. }
  assert (id = FirstDataPageID) as -> by lia.
  destruct (flush_ok (with_opened true s2) n (FirstDataPageID + 1) {[FirstDataPageID := []]} []) as (s3 & E3 & Hr & Hc3 & Hb3).
  { split; cbn [opened with_opened pager currentPageID currentBody]; [done| |intros i x Hx; apply lookup_singleton_Some in Hx as [_ <-]; apply fits_nil|by rewrite Hc, lookup_singleton_eq|done].
    exists zero_body. rewrite Hc. rewrite fmap_empty in Hp2. rewrite map_fmap_singleton, insert_singleton_eq. by apply Hp2. }
  exists s3. split; [|split; [by rewrite Hc3|done]].
  unfold Open. rewrite bind_gets. cbn [opened NewStore]. erewrite bind_ok by (unfold on_pager; cbn [pager NewStore]; by rewrite E1).
  erewrite bind_ok by (unfold on_pager; cbn [pager with_pager]; by rewrite (pf_count _ _ _ _ Hp1)).
  change (FirstDataPageID <=? FirstDataPageID) with true. cbn iota. rewrite bind_assoc.
  change (with_pager p1 (with_pager p1 (NewStore p))) with (with_pager p1 (NewStore p)).
  erewrite bind_ok by exact E2. revert E3. unfold flushPage, bind, on_pager. cbn [with_opened pager currentPageID currentBody].
  destruct (pg_WritePage _ _ _ _) as [[[]|e] q]; [|done]. intros [= <-]. done.
Qed.

Lemma open_existing p n c pages rs :
  pf_files p n c (image <$> pages) -> map_Forall (fun _ => fits) pages -> pages !! (c - 1) = Some rs ->
  exists s', Open hs None (NewStore p) = (Ok tt, s') /\ currentPageID s' = c - 1 /\ flat_rel s' n c pages.
Proof.
  intros Hp Hf Hl. destruct (pf_open _ _ _ _ Hp) as (p1 & E1 & Hp1).
  assert ((image <$> pages) !! (c - 1) = Some (image rs)) as Hi by (by rewrite lookup_fmap, Hl).
  destruct (pf_ok _ _ _ _ Hp1) as [Hc Hin]. destruct (Hin _ _ Hi) as [Hz Hc2].
  destruct (pf_read _ _ _ _ _ _ Hp1 Hi) as (p2 & E2 & Hp2).
  eexists. unfold Open. rewrite bind_gets. cbn [opened NewStore].
  erewrite bind_ok by (unfold on_pager; cbn [pager NewStore]; by rewrite E1).
  erewrite bind_ok by (unfold on_pager; cbn [pager with_pager]; by rewrite (pf_count _ _ _ _ Hp1)).
  rewrite (proj2 (Z.leb_gt _ _)) by lia. rewrite last_page_eq by lia. rewrite bind_assoc, bind_modify, bind_assoc.
  erewrite bind_ok by (unfold on_pager; cbn [pager with_page with_pager]; by rewrite E2).
  rewrite bind_modify. unfold modify. cbn [with_body with_page with_pager with_opened currentPageID pager].
  split; [reflexivity|]. split; [done|]. split; cbn; [done|done|done|].
  exists rs. split; [done|]. unfold copy_into. rewrite ztake_all by (rewrite Hz; unfold maxBodySize; lia).
  unfold splice. rewrite ztake_0. cbn [app]. rewrite zdrop_all; [apply app_nil_r|].
  rewrite zlen_rep by (vm_compute; done). rewrite Hz. unfold maxBodySize. lia.
Qed.

Lemma open_twice s cx : opened s = true -> Open hs cx s = (Err ErrStoreAlreadyOpen, s).
Proof. intros Ho. unfold Open. by rewrite bind_gets, Ho. Qed.

Lemma close_ok s n c pages : flat_rel s n c pages ->
  exists s', Close None s = (Ok tt, s') /\ opened s' = false /\ pf_files (pf_restart (pager s')) n c (image <$> pages).
Proof.
  intros Hr. pose proof (fr_opened _ _ _ _ Hr) as Ho. destruct (fr_cur _ _ _ _ Hr) as (rs & Hc & _).
  destruct (flush_ok s n c pages rs (rel_mid _ _ _ _ _ Hr Hc)) as (s1 & E1 & Hr1 & _).
  destruct (pf_close _ _ _ _ (fr_pager _ _ _ _ Hr1)) as (p2 & E2 & Hp2).
  exists (with_pager p2 (with_opened false s1)). unfold Close. rewrite bind_gets, Ho. cbn [negb].
  erewrite bind_ok by exact E1. rewrite bind_modify. unfold on_pager. cbn [pager with_opened]. by rewrite E2.
Qed.

(** ** Appending *)

Definition add_record (e : list byte) (num off : Z) (body : list byte) : list byte :=
  put32 4 (off + zlen e) (put32 0 (num + 1) (put off e body)).

Lemma fits_snoc rs r : fits rs -> enc r <> [] -> hs + zlen (concat (map enc rs)) + zlen (enc r) <= maxBodySize -> fits (rs ++ [r]).
Proof.
  intros [Hf Hn] Hne Hle. unfold fits. rewrite map_app. split.
  - rewrite concat_app, zlen_app. cbn [map concat]. rewrite app_nil_r. lia.
  - apply Forall_app. split; [done|]. by repeat constructor.
Qed.

(** The page after the reservation and the place on it. *)
Lemma reserve_ok s n c pages rs (r : R) :
  flat_rel s (S n) c pages -> pages !! currentPageID s = Some rs -> enc r <> [] -> hs + zlen (enc r) <= maxBodySize ->
  exists s' c' pages' rs',
    reserve hs None (zlen (enc r)) s = (Ok (zlen rs', hs + zlen (concat (map enc rs'))), s') /\
    flat_mid s' n c' pages' rs' /\ fits (rs' ++ [r]) /\
    ((hs + zlen (concat (map enc rs)) + zlen (enc r) <= maxBodySize /\
      rs' = rs /\ c' = c /\ pages' = pages /\ currentPageID s' = currentPageID s)
     \/ (maxBodySize < hs + zlen (concat (map enc rs)) + zlen (enc r) /\
         rs' = [] /\ pages !! currentPageID s' = None /\ FirstDataPageID <= currentPageID s' <= c /\
         ((forall i, FirstDataPageID <= i < c -> is_Some (pages !! i)) -> currentPageID s' = c) /\
         c' = Z.max c (currentPageID s' + 1) /\ pages' = <[currentPageID s' := []]> pages)).
Proof.
  intros Hr Hc Hne Hle. pose proof (rel_mid _ _ _ _ _ Hr Hc) as Hm. pose proof (fm_body _ _ _ _ _ Hm) as Hb.
  pose proof (fr_fits _ _ _ _ Hr (currentPageID s) _ Hc) as Hf.
  destruct (image_fields maxBodySize hs ltac:(lia) size_ok _ Hf) as [E1 E2].
  assert (zlen (map enc rs) = zlen rs) as Hl by (unfold zlen; by rewrite length_map).
  unfold reserve, readNum, readNextWriteOffset. rewrite !bind_gets, Hb. fold (image rs) in E1, E2. rewrite E1, E2, Hl.
  destruct (Z.ltb_spec maxBodySize (hs + zlen (concat (map enc rs)) + zlen (enc r))) as [Hlt|Hge].
  - destruct (flush_ok s (S n) c pages rs Hm) as (s1 & F1 & Hr1 & _ & _).
    destruct (new_page_ok s1 n c pages) as (id & s2 & F2 & Hn & Hid & Hd & Hc2 & Hb2 & Ho2 & Hp2).
    { left. apply Hr1. } { apply Hr1. } { apply Hr1. }
    exists s2, (Z.max c (id + 1)), (<[id := []]> pages), []. split.
    { rewrite (bind_ok _ _ _ _ _ F1), (bind_ok _ _ _ _ _ F2). unfold ret. cbn. change (zlen (@nil byte)) with 0. by rewrite Z.add_0_r. }
    split.
    { split; [rewrite Ho2; apply Hr1| |by apply insert_fits; [apply Hr|apply fits_nil]|by rewrite Hc2, lookup_insert_eq|done].
      exists zero_body. rewrite Hc2, image_insert, insert_insert_eq. done. }
    split; [apply fits_snoc; [apply fits_nil|done|cbn; change (zlen (@nil byte)) with 0; lia]|].
    right. rewrite Hc2. split_and!; try done; lia.
  - exists s, c, pages, rs. split; [done|]. split.
    { destruct Hm as [? [b Hb'] ? ? ?]. split; try done. exists b. by apply (pf_weaken _ (S n)); [lia|]. }
    split; [by apply fits_snoc|]. by left.
Qed.

(** Writing the record into the copy of the page. *)
Lemma add_record_ok s n c pages rs (r : R) :
  flat_mid s n c pages rs -> fits (rs ++ [r]) ->
  flat_mid (with_body (add_record (enc r) (zlen rs) (hs + zlen (concat (map enc rs))) (currentBody s)) s) n c
    (<[currentPageID s := rs ++ [r]]> pages) (rs ++ [r]).
Proof.
  intros [Ho [b Hp] Hf Hc Hb] Hfit. pose proof (Hf _ _ Hc) as Hfr. split; cbn; [done| | |by rewrite lookup_insert_eq|].
  - exists b. rewrite image_insert, insert_insert_eq. done.
  - by apply insert_fits.
  - rewrite Hb. unfold image, add_record. rewrite map_app. cbn [map].
    rewrite <- (image_append maxBodySize hs ltac:(lia) (map enc rs) (enc r)); [|done|unfold fits in Hfit; by rewrite map_app in Hfit].
    assert (zlen (map enc rs) = zlen rs) as -> by (unfold zlen; by rewrite length_map). done.
Qed.

(** ** Scanning *)

Context (parse : list byte -> option (R * list byte)) (ok : R -> Prop).
Hypothesis parse_enc : forall r rest, ok r -> parse (enc r ++ rest) = Some (r, rest).

Lemma decode_img rs : Forall ok rs -> fits rs -> decode_records parse hs (image rs) = rs.
Proof. intros Hok Hf. apply (decode_image maxBodySize hs ltac:(lia) size_ok enc parse ok parse_enc); done. Qed.

Lemma scan_pages_ok {A} s n c pages skip (page : list byte -> res store_err (list A)) (g : list R -> list A) ids :
  flat_rel s n c pages -> (forall id rs, pages !! id = Some rs -> page (image rs) = Ok (g rs)) ->
  Forall (fun id => 0 <= id /\ (is_Some (pages !! id) \/ skip ErrInvalidPageID = true)) ids ->
  exists p, scan_pages None skip page ids s
    = (Ok (concat (map (fun id => from_option g [] (pages !! id)) ids)), with_pager p s) /\ flat_rel (with_pager p s) n c pages.
Proof.
  intros Hr Hg Hids. revert s Hr. induction Hids as [|id ids [Hge Hid] _ IH]; intros s Hr.
  { exists (pager s). by destruct s. }
  cbn [scan_pages map concat]. destruct (pages !! id) as [rs|] eqn:El; cbn [from_option].
  - destruct (pf_read (pager s) n c (image <$> pages) id (image rs)) as (p1 & E1 & Hp1); [apply Hr|by rewrite lookup_fmap, El|].
    rewrite E1, (Hg _ _ El). rewrite bind_lift.
    assert (flat_rel (with_pager p1 s) n c pages) as Hr1 by (destruct Hr; by split).
    destruct (IH _ Hr1) as (p & E & Hr'). exists p. by rewrite (bind_ok _ _ _ _ _ E).
  - destruct Hid as [[? ?]|Hs]; [congruence|].
    destruct (pf_read_none (pager s) n c (image <$> pages) id) as (p1 & E1 & Hp1); [apply Hr|done|by rewrite lookup_fmap, El|].
    rewrite E1, Hs. assert (flat_rel (with_pager p1 s) n c pages) as Hr1 by (destruct Hr; by split).
    destruct (IH _ Hr1) as (p & E & Hr'). exists p. by rewrite E.
Qed.
End refinement.
