(* ===== verification/FlatList.v ===== *)
(** A flat store that frees no page is a list: its pages lie in a row from the first data
    page on, the last is the current one, and records are added at the end. *)

From Stdlib Require Import ZArith Lia.
From stdpp Require Import gmap list.
From S2P Require Import Prelude Page Monad PagerSpec PagerFile FlatStore.
Open Scope Z_scope.

Section table.
Context {R : Type}.
Implicit Types pps : list (list R).

Definition table pps : gmap Z (list R) := map_seqZ FirstDataPageID pps.

Lemma table_lookup pps pre last : pps = pre ++ [last] -> table pps !! (FirstDataPageID + zlen pps - 1) = Some last.
Proof.
  intros ->. unfold table. apply lookup_map_seqZ_Some. unfold zlen. rewrite length_app. cbn. split; [lia|].
  replace (Z.to_nat _) with (length pre) by lia. by rewrite list_lookup_middle.
Qed.

Lemma table_dense pps i : FirstDataPageID <= i < FirstDataPageID + zlen pps -> is_Some (table pps !! i).
Proof. intros Hi. apply lookup_map_seqZ_is_Some. unfold zlen in Hi. lia. Qed.

Lemma table_snoc pps pg : table (pps ++ [pg]) = <[FirstDataPageID + zlen pps := pg]> (table pps).
Proof. unfold table. by rewrite map_seqZ_snoc. Qed.

Lemma table_last pre last pg : table (pre ++ [pg]) = <[FirstDataPageID + zlen pre := pg]> (table (pre ++ [last])).
Proof. by rewrite !table_snoc, insert_insert_eq. Qed.

Lemma table_scan {A} (g : list R -> list A) pps :
  map (fun id => from_option g [] (table pps !! id)) (seqZ FirstDataPageID (zlen pps)) = map g pps.
Proof.
  apply list_eq. intros i. rewrite !list_lookup_fmap. destruct (decide (Z.of_nat i < zlen pps)) as [Hi|Hi].
  - rewrite lookup_seqZ_lt by lia. cbn. unfold table. rewrite lookup_map_seqZ. rewrite option_guard_True by lia.
    replace (Z.to_nat _) with i by lia. destruct (pps !! i) as [pg|] eqn:E; [done|].
    apply lookup_ge_None in E. unfold zlen in Hi. lia.
  - rewrite lookup_seqZ_ge by lia. rewrite lookup_ge_None_2; [done|]. unfold zlen in Hi. lia.
Qed.

Lemma table_Forall (Q : R -> Prop) pps id rs : Forall (Forall Q) pps -> table pps !! id = Some rs -> Forall Q rs.
Proof. intros Hq Hl. apply lookup_map_seqZ_Some in Hl as [_ Hl]. rewrite Forall_lookup in Hq. by eapply Hq. Qed.

Lemma table_concat (Q : R -> Prop) pps id rs : Forall Q (concat pps) -> table pps !! id = Some rs -> Forall Q rs.
Proof.
  intros Hq Hl. apply lookup_map_seqZ_Some in Hl as [_ Hl]. apply list_elem_of_lookup_2 in Hl.
  rewrite Forall_forall in *. intros r Hr. apply Hq. apply list_elem_of_In, in_concat. exists rs.
  by rewrite <- !list_elem_of_In.
Qed.

Lemma filter_concat f pps : concat (map (fun rs => List.filter f rs) pps) = List.filter f (concat pps).
Proof. induction pps as [|p pps IH]; [done|]. cbn. by rewrite List.filter_app, IH. Qed.
End table.

Section dense.
Context {P : Type} `{FilePager P} {R : Type} (hs : Z) (enc : R -> list byte).
Context (Hhs : 8 <= hs <= maxBodySize) (enc_not_nil : forall r, enc r <> []).
Implicit Types (f : flat P) (pps : list (list R)).

Record dense_rel f (n : nat) pps : Prop := {
  dr_flat : flat_rel hs enc f n (FirstDataPageID + zlen pps) (table pps);
  dr_cur : currentPageID f = FirstDataPageID + zlen pps - 1 }.

Lemma dense_weaken f n n' pps : (n' <= n)%nat -> dense_rel f n pps -> dense_rel f n' pps.
Proof. intros Hle [Hf Hc]. split; [|done]. by apply (flat_rel_weaken _ _ _ n n'). Qed.

Lemma dense_last f n pps : dense_rel f n pps -> exists pre last, pps = pre ++ [last] /\ table pps !! currentPageID f = Some last.
Proof.
  intros [Hf Hc]. destruct (fr_cur _ _ _ _ _ _ Hf) as (rs & Hl & _). destruct pps as [|p pps _] using rev_ind.
  - unfold table in Hl. apply lookup_map_seqZ_Some in Hl as [Hle _]. rewrite Hc in Hle. change (zlen (@nil (list R))) with 0 in Hle. lia.
  - exists pps, p. split; [done|]. rewrite Hc. by apply (table_lookup _ pps).
Qed.

Lemma dense_not_nil f n pps : dense_rel f n pps -> pps <> [].
Proof. intros Hr. destruct (dense_last _ _ _ Hr) as (pre & last & -> & _). by destruct pre. Qed.

(** ** Opening and closing *)

Definition holds (p : P) (n : nat) pps : Prop :=
  pf_files p n (FirstDataPageID + zlen pps) (image hs enc <$> table pps) /\
  map_Forall (fun _ => fits hs enc) (table pps) /\ pps <> [].

Lemma open_new p n : pf_files p (S n) FirstDataPageID ∅ ->
  exists f, Open hs None (NewStore p) = (Ok tt, f) /\ dense_rel f n [[]].
Proof.
  intros Hp. destruct (open_fresh hs enc Hhs p n Hp) as (f & E & Hc & Hr). exists f. split; [done|].
  split; [|done]. replace (table [[]]) with ({[FirstDataPageID := []]} : gmap Z (list R)); [exact Hr|].
  unfold table. by rewrite map_seqZ_singleton.
Qed.

Lemma open_again p n pps : holds p n pps -> exists f, Open hs None (NewStore p) = (Ok tt, f) /\ dense_rel f n pps.
Proof.
  intros (Hp & Hf & Hne). destruct pps as [|last pre _] using rev_ind; [done|].
  destruct (open_existing hs enc p n _ _ last Hp Hf (table_lookup _ _ _ eq_refl)) as (f & E & Hc & Hr).
  by exists f.
Qed.

Lemma close_holds f n pps : dense_rel f n pps ->
  exists f', Close None f = (Ok tt, f') /\ holds (pf_restart (pager f')) n pps.
Proof.
  intros Hr. pose proof (dense_not_nil _ _ _ Hr). destruct Hr as [Hf _].
  destruct (close_ok hs enc Hhs _ _ _ _ Hf) as (f' & E & _ & Hp). exists f'. split; [done|]. split; [done|]. split; [apply Hf|done].
Qed.

Lemma crash_holds f n pps : dense_rel f n pps -> holds (pf_restart (pager f)) n pps.
Proof.
  intros Hr. pose proof (dense_not_nil _ _ _ Hr). destruct Hr as [Hf _]. split; [apply pf_crash, Hf|]. split; [apply Hf|done].
Qed.

(** ** Appending *)

(** Behind the last page's records, or on a page of its own. *)
Definition add_rec (r : R) pps : list (list R) :=
  match rev pps with
  | last :: pre =>
      if maxBodySize <? hs + zlen (concat (map enc last)) + zlen (enc r) then pps ++ [[r]] else rev pre ++ [last ++ [r]]
  | [] => []
  end.

Lemma add_rec_snoc r pre last :
  add_rec r (pre ++ [last]) =
    if maxBodySize <? hs + zlen (concat (map enc last)) + zlen (enc r) then (pre ++ [last]) ++ [[r]] else pre ++ [last ++ [r]].
Proof. unfold add_rec. rewrite rev_app_distr. cbn. by rewrite rev_involutive. Qed.

Lemma add_rec_concat r pps : pps <> [] -> concat (add_rec r pps) = concat pps ++ [r].
Proof.
  intros Hne. destruct pps as [|last pre _] using rev_ind; [done|]. rewrite add_rec_snoc.
  destruct (_ <? _); rewrite !concat_app; cbn; by rewrite ?app_nil_r, <- ?app_assoc.
Qed.

Lemma add_rec_not_nil r pps : pps <> [] -> add_rec r pps <> [].
Proof. intros Hne E. pose proof (add_rec_concat r pps Hne) as Hc. rewrite E in Hc. by destruct (concat pps). Qed.

Lemma add_rec_ok (Q : R -> Prop) r pps : Q r -> Forall (Forall Q) pps -> Forall (Forall Q) (add_rec r pps).
Proof.
  intros Hr Hok. destruct pps as [|last pre _] using rev_ind; [done|]. rewrite add_rec_snoc. destruct (_ <? _).
  - apply Forall_app. split; [done|]. by apply Forall_singleton, Forall_singleton.
  - apply Forall_app in Hok as [Hpre Hl]. apply Forall_app. split; [exact Hpre|]. rewrite Forall_singleton in Hl.
    apply Forall_singleton, Forall_app. split; [exact Hl|]. by apply Forall_singleton.
Qed.

(** The page and the offset of the record that is added. *)
Definition next_place (r : R) pps : Z * Z :=
  match rev pps with
  | last :: pre =>
      let off := hs + zlen (concat (map enc last)) in
      if maxBodySize <? off + zlen (enc r) then (FirstDataPageID + zlen pps, hs) else (FirstDataPageID + zlen pps - 1, off)
  | [] => (0, 0)
  end.

(** Its index among the records of the page. *)
Definition next_index (r : R) pps : Z :=
  match rev pps with
  | last :: pre => if maxBodySize <? hs + zlen (concat (map enc last)) + zlen (enc r) then 0 else zlen last
  | [] => 0
  end.

(** The page of a reservation, in terms of the list of pages. *)
Lemma place pre last r cur c' pages rs id :
  cur = FirstDataPageID + zlen (pre ++ [last]) - 1 ->
  ((hs + zlen (concat (map enc last)) + zlen (enc r) <= maxBodySize /\ rs = last /\
    c' = FirstDataPageID + zlen (pre ++ [last]) /\ pages = table (pre ++ [last]) /\ id = cur)
   \/ (maxBodySize < hs + zlen (concat (map enc last)) + zlen (enc r) /\ rs = [] /\
    table (pre ++ [last]) !! id = None /\ FirstDataPageID <= id <= FirstDataPageID + zlen (pre ++ [last]) /\
    ((forall i, FirstDataPageID <= i < FirstDataPageID + zlen (pre ++ [last]) -> is_Some (table (pre ++ [last]) !! i)) ->
     id = FirstDataPageID + zlen (pre ++ [last])) /\
    c' = (FirstDataPageID + zlen (pre ++ [last])) `max` (id + 1) /\ pages = <[id := []]> (table (pre ++ [last])))) ->
  let pps' := add_rec r (pre ++ [last]) in
  <[id := rs ++ [r]]> pages = table pps' /\ c' = FirstDataPageID + zlen pps' /\ id = FirstDataPageID + zlen pps' - 1 /\
  next_place r (pre ++ [last]) = (id, hs + zlen (concat (map enc rs))) /\ next_index r (pre ++ [last]) = zlen rs.
Proof.
  assert (forall x : list R, zlen (pre ++ [x]) = zlen pre + 1) as El by (intros; by rewrite zlen_app).
  intros -> [(Hle & -> & -> & -> & ->)|(Hlt & -> & Hn & Hid & Hd & -> & ->)]; cbn zeta; unfold next_place, next_index;
    rewrite add_rec_snoc, rev_app_distr; cbn [rev app].
  - rewrite (proj2 (Z.ltb_ge _ _)) by lia. rewrite !El. split; [|done].
    replace (FirstDataPageID + (zlen pre + 1) - 1) with (FirstDataPageID + zlen pre) by lia. symmetry. apply table_last.
  - specialize (Hd (table_dense _)). subst id. rewrite (proj2 (Z.ltb_lt _ _)) by done.
    rewrite insert_insert_eq, (table_snoc (pre ++ [last])). rewrite (zlen_app (pre ++ [last])), zlen_cons.
    change (zlen (@nil (list R))) with 0. change (zlen (@nil byte)) with 0. rewrite Z.add_0_r.
    split_and!; try done; try lia. cbn. change (zlen (@nil byte)) with 0. by rewrite Z.add_0_r.
Qed.

(** The three parts of an append: the reservation, the record with the header, the flush. *)
Lemma append_dense f n pps r :
  dense_rel f (S n) pps -> hs + zlen (enc r) <= maxBodySize ->
  exists f1 f2, let '(id, off) := next_place r pps in
    reserve hs None (zlen (enc r)) f = (Ok (next_index r pps, off), f1) /\ currentPageID f1 = id /\
    hs <= off /\ off + zlen (enc r) <= zlen (currentBody f1) /\
    flushPage None (with_body (add_record (enc r) (next_index r pps) off (currentBody f1)) f1) = (Ok tt, f2) /\
    dense_rel f2 n (add_rec r pps).
Proof.
  intros Hr Hle. destruct (dense_last _ _ _ Hr) as (pre & last & -> & Hl). destruct Hr as [Hf Hcur].
  destruct (reserve_ok hs enc Hhs f n _ _ last r Hf Hl (enc_not_nil r) Hle) as (f1 & c' & pages & rs & E1 & Hm & Hfit & Hcase).
  pose proof (add_record_ok hs enc Hhs _ _ _ _ _ r Hm Hfit) as Hm2.
  destruct (flush_ok hs enc Hhs _ _ _ _ _ Hm2) as (f2 & E2 & Hr2 & Hc2 & _).
  destruct (place pre last r _ _ _ _ _ Hcur Hcase) as (Ht & Hc' & Hid & Hloc & Hidx). cbn zeta in *.
  exists f1, f2. rewrite Hloc, Hidx. pose proof (zlen_nonneg (concat (map enc rs))).
  split_and!; try done; try lia.
  - rewrite (fm_body _ _ _ _ _ _ _ Hm), zlen_img by (done || by eapply (fm_fits _ _ _ _ _ _ _ Hm), Hm).
    destruct Hfit as [Hfit _]. rewrite map_app, concat_app, zlen_app in Hfit. cbn in Hfit. rewrite app_nil_r in Hfit. lia.
  - split; [by rewrite <- Ht, <- Hc'|]. rewrite Hc2. exact Hid.
Qed.

(** ** Scanning *)

Context (parse : list byte -> option (R * list byte)) (ok : R -> Prop).
Hypothesis parse_enc : forall r rest, ok r -> parse (enc r ++ rest) = Some (r, rest).

Lemma decode_dense f n pps id rs : dense_rel f n pps -> Forall (Forall ok) pps -> table pps !! id = Some rs ->
  decode_records parse hs (image hs enc rs) = rs.
Proof.
  intros [Hf _] Hok Hl. apply (decode_img hs enc Hhs parse ok parse_enc); [by eapply table_Forall|].
  by apply (fr_fits _ _ _ _ _ _ Hf id).
Qed.

Lemma scan_dense {A} f n pps skip (page : list R -> res store_err (list A)) (g : list R -> list A) :
  dense_rel f n pps -> Forall (Forall ok) pps -> (forall id rs, table pps !! id = Some rs -> page rs = Ok (g rs)) ->
  exists p, scan_all None skip (fun body => page (decode_records parse hs body)) f = (Ok (concat (map g pps)), with_pager p f) /\
    dense_rel (with_pager p f) n pps.
Proof.
  intros Hr Hok Hg. pose proof Hr as [Hf Hc].
  destruct (scan_pages_ok hs enc f n _ _ skip (fun body => page (decode_records parse hs body)) g
    (seqZ FirstDataPageID (zlen pps)) Hf) as (p & E & Hf').
  { intros id rs Hl. rewrite (decode_dense f n pps id) by done. by eapply Hg. }
  { apply Forall_forall. intros id Hid. apply list_elem_of_In, list_elem_of_In, elem_of_seqZ in Hid. unfold FirstDataPageID in *.
    split; [lia|]. left. apply table_dense. unfold FirstDataPageID. lia. }
  exists p. split; [|by split]. unfold scan_all. erewrite bind_ok; [rewrite Z.add_simpl_l; rewrite E; do 2 f_equal|].
  - by rewrite table_scan.
  - unfold on_pager. rewrite (pf_count _ _ _ _ (fr_pager _ _ _ _ _ _ Hf)). by destruct f.
Qed.
End dense.

(** * Records by page *)

(** A list, or nothing when it is empty. *)
Definition as_nil {A} (l : list A) : option (list A) := match l with [] => None | _ => Some l end.

Lemma filter_and_nil {A} (f g : A -> bool) l : List.filter f l = [] -> List.filter (fun x => f x && g x) l = [].
Proof. induction l as [|x l IH]; [done|]. cbn. destruct (f x); [done|]. apply IH. Qed.

Lemma filter_filter {A} (f g : A -> bool) l : List.filter g (List.filter f l) = List.filter (fun x => f x && g x) l.
Proof. induction l as [|x l IH]; [done|]. cbn. destruct (f x); cbn; [destruct (g x)|]; by rewrite IH. Qed.

Lemma filter_snd {A B} (g : B -> bool) (l : list (A * B)) : map snd (List.filter (fun x => g x.2) l) = List.filter g (map snd l).
Proof. induction l as [|x l IH]; [done|]. cbn. destruct (g x.2); cbn; by rewrite IH. Qed.

Section groups.
Context {L : Type} (page pos : L -> Z).

(** Positions collected under their page, in the order of the list. *)
Definition group_pages (locs : list L) : gmap Z (list Z) :=
  foldl (fun m loc => <[page loc := default [] (m !! page loc) ++ [pos loc]]> m) ∅ locs.

Lemma group_pages_lookup locs id :
  group_pages locs !! id = as_nil (map pos (List.filter (fun x => page x =? id) locs)).
Proof.
  induction locs as [|x locs IH] using rev_ind; [done|]. unfold group_pages. rewrite foldl_app. cbn [foldl]. fold (group_pages locs).
  rewrite List.filter_app, map_app. cbn [List.filter]. destruct (Z.eqb_spec (page x) id) as [->|Hne].
  - rewrite lookup_insert_eq, IH. cbn. by destruct (map pos _).
  - rewrite lookup_insert_ne by done. cbn. by rewrite app_nil_r.
Qed.
End groups.

(** Summands that are nothing can be left out. *)
Lemma concat_missing {A} (g : Z -> list A) ids all :
  NoDup ids -> NoDup all -> ids ⊆ all -> (forall id, id ∉ ids -> g id = []) -> concat (map g ids) ≡ₚ concat (map g all).
Proof.
  intros Hn Ha Hs Hg. destruct (submseteq_Permutation ids all (NoDup_submseteq _ _ Hn Hs)) as (k & Hk).
  rewrite <- !flat_map_concat_map, Hk, flat_map_app. rewrite Hk in Ha. apply NoDup_app in Ha as (_ & Hd & _).
  assert (flat_map g k = []) as ->; [|by rewrite app_nil_r].
  assert (forall id, id ∈ k -> g id = []) as Hk0 by (intros id Hid; apply Hg; intros Hid'; by apply (Hd id)).
  clear Hk Hd. induction k as [|id k IH]; [done|]. cbn. rewrite Hk0 by constructor. apply IH. intros i Hi. apply Hk0. by constructor.
Qed.
