(* ===== verification/MetricsPoint.v ===== *)
(** The points of [internal/engine/metrics]: their binary form ([store.go] and the record
    codec of [gorilla.go]), the parsing of their tags, and the index of tags
    ([index.go]).

    A point's value is [math.Float64bits] of it: this code only moves the bits.  An
    out-of-range slice is a panic. *)

From Stdlib Require Import ZArith Lia.
From stdpp Require Import gmap list.
From S2P Require Import Prelude OrdMap Page FlatStore GoRuntime.
Open Scope Z_scope.

Definition headerSize : Z := 8.

Record Point := mkPoint { Timestamp : Z; Tags : list byte; MetricName : list byte; Value : Z }.

Definition serializedSize (p : Point) : Z := 8 + 2 + zlen (Tags p) + 2 + zlen (MetricName p) + 8.

(** * Records *)

Definition encodeRawPoint (pt : Point) : list byte :=
  le_encode 8 (wrap64 (Timestamp pt)) ++ le_encode 2 (zlen (Tags pt)) ++ Tags pt ++
  le_encode 2 (zlen (MetricName pt)) ++ MetricName pt ++ le_encode 8 (Value pt).

(** The writes of [AppendPoint]. *)
Definition write_point (pt : Point) (offset : Z) (body : list byte) : list byte :=
  let body := put64 offset (wrap64 (Timestamp pt)) body in
  let offset := offset + 8 in
  let body := put offset (le_encode 2 (zlen (Tags pt))) body in
  let offset := offset + 2 in
  let body := put offset (Tags pt) body in
  let offset := offset + zlen (Tags pt) in
  let body := put offset (le_encode 2 (zlen (MetricName pt))) body in
  let offset := offset + 2 in
  let body := put offset (MetricName pt) body in
  let offset := offset + zlen (MetricName pt) in
  put64 offset (Value pt) body.

(** The next [n] bytes. *)
Definition take_bytes (n : Z) (rest : list byte) : option (list byte * list byte) :=
  if zlen rest <? n then None else Some (ztake n rest, zdrop n rest).

(** One round of the loop of [decodePage]. *)
Definition parse_point (rest : list byte) : option (Point * list byte) :=
  '(ts, rest) ← take_bytes 8 rest;
  '(tagsLen, rest) ← take_bytes 2 rest;
  '(tags, rest) ← take_bytes (le_decode tagsLen) rest;
  '(nameLen, rest) ← take_bytes 2 rest;
  '(name, rest) ← take_bytes (le_decode nameLen) rest;
  '(bits, rest) ← take_bytes 8 rest;
  Some (mkPoint (swrap64 (le_decode ts)) tags name (le_decode bits), rest).

Definition decodePage (body : list byte) : list Point := decode_records parse_point headerSize body.

(** The point at the front and the number of bytes consumed; [None] for none.  The
    length of the name is read without a check. *)
Definition decodeRawPoint (data : list byte) : res store_err (option (Point * Z)) :=
  if zlen data <? 8 + 2 + 2 + 8 then Ok None
  else
    let ts := swrap64 (le_decode (slice data 0 8)) in
    let tagsLen := le_decode (slice data 8 10) in
    let off := 10 in
    if zlen data <? off + tagsLen then Ok None
    else
      let tags := slice data off (off + tagsLen) in
      let off := off + tagsLen in
      if zlen data <? off + 2 then Err ErrPanic
      else
        let nameLen := le_decode (slice data off (off + 2)) in
        let off := off + 2 in
        if zlen data <? off + nameLen then Ok None
        else
          let name := slice data off (off + nameLen) in
          let off := off + nameLen in
          if zlen data <? off + 8 then Ok None
          else Ok (Some (mkPoint ts tags name (le_decode (slice data off (off + 8))), off + 8)).

(** * Tags *)

(** The UTF-8 encodings of the runes of [unicode.IsSpace]. *)
Definition space_runes : list (list byte) :=
  [[x09]; [x0a]; [x0b]; [x0c]; [x0d]; [x20]; [xc2; x85]; [xc2; xa0]; [xe1; x9a; x80];
   [xe2; x80; x80]; [xe2; x80; x81]; [xe2; x80; x82]; [xe2; x80; x83]; [xe2; x80; x84]; [xe2; x80; x85];
   [xe2; x80; x86]; [xe2; x80; x87]; [xe2; x80; x88]; [xe2; x80; x89]; [xe2; x80; x8a];
   [xe2; x80; xa8]; [xe2; x80; xa9]; [xe2; x80; xaf]; [xe2; x81; x9f]; [xe3; x80; x80]].

Fixpoint strip_prefix (p s : list byte) : option (list byte) :=
  match p, s with
  | [], _ => Some s
  | b :: p', c :: s' => if bool_decide (b = c) then strip_prefix p' s' else None
  | _ :: _, [] => None
  end.

(** Drops the [runes] at the front, each a byte at least. *)
Fixpoint trim_front (fuel : nat) (runes : list (list byte)) (s : list byte) : list byte :=
  match fuel with
  | O => s
  | S fuel' => match head (omap (fun r => strip_prefix r s) runes) with Some s' => trim_front fuel' runes s' | None => s end
  end.
Definition trim_left (runes : list (list byte)) (s : list byte) : list byte := trim_front (length s) runes s.
Definition trim (runes : list (list byte)) (s : list byte) : list byte :=
  rev (trim_left (map (fun r => rev r) runes) (rev (trim_left runes s))).

Definition TrimSpace : list byte -> list byte := trim space_runes.

(** [bytes.Split(s, sep)] and [bytes.SplitN(s, sep, 2)] for one byte. *)
Fixpoint split_on (sep : byte) (s : list byte) : list (list byte) :=
  match s with
  | [] => [[]]
  | b :: s' =>
      if bool_decide (b = sep) then [] :: split_on sep s'
      else match split_on sep s' with p :: ps => (b :: p) :: ps | [] => [[b]] end
  end.

Fixpoint split_once (sep : byte) (s : list byte) : option (list byte * list byte) :=
  match s with
  | [] => None
  | b :: s' => if bool_decide (b = sep) then Some ([], s') else '(p, q) ← split_once sep s'; Some (b :: p, q)
  end.

Notation tag_pairs := (gmap (list byte) (list byte)).

Definition add_pair (m : tag_pairs) (pair : list byte) : tag_pairs :=
  match split_once x3d (TrimSpace pair) with
  | Some (k, v) => <[TrimSpace k := trim [[x22]] (TrimSpace v)]> m
  | None => m
  end.

(** [None] is the panic of [s[1:0]]. *)
Definition splitTagPairs (s : list byte) : option tag_pairs :=
  match s with
  | [] => Some ∅
  | b :: s' =>
      if bool_decide (b = x7b) then
        match s' with [] => None | _ => Some (foldl add_pair ∅ (split_on x2c (removelast s'))) end
      else Some (foldl add_pair ∅ (split_on x2c s))
  end.

Definition has_pair (pairs : tag_pairs) (kv : list byte * list byte) : bool :=
  bool_decide (default [] (pairs !! kv.1) = kv.2).

Definition matchTags (tagsStr : list byte) (required : tag_pairs) : option bool :=
  if decide (required = ∅) then Some true
  else pairs ← splitTagPairs tagsStr; Some (forallb (has_pair pairs) (map_to_list required)).

(** * Tag index *)

Record RecordLocator := mkLoc { loc_PageID : Z; loc_Offset : Z; loc_Timestamp : Z }.

#[export] Instance RecordLocator_eq_dec : EqDecision RecordLocator.
Proof. solve_decision. Defined.

Notation value_locs := (gmap (list byte) (list RecordLocator)).
Notation tag_locs := (gmap (list byte) value_locs).

(** Times and durations in nanoseconds. *)
Record TagIndex := mkTagIndex {
  index : tag_locs; retentionWindow : Z; lastSweep : Z }.

Definition NewTagIndex (window now : Z) : TagIndex := mkTagIndex ∅ window now.

Definition locs_at (m : tag_locs) (k v : list byte) : list RecordLocator :=
  default [] (default ∅ (m !! k) !! v).

Definition insert_pair (loc : RecordLocator) (m : tag_locs) (kv : list byte * list byte) : tag_locs :=
  let vals : value_locs := default ∅ (m !! kv.1) in
  <[kv.1 := <[kv.2 := default [] (vals !! kv.2) ++ [loc]]> vals]> m.

(** Both lists in the order of pages and offsets. *)
Fixpoint intersectLocs (fuel : nat) (a b : list RecordLocator) : list RecordLocator :=
  match fuel, a, b with
  | S fuel', x :: a', y :: b' =>
      if (loc_PageID x <? loc_PageID y) || (loc_PageID x =? loc_PageID y) && (loc_Offset x <? loc_Offset y)
      then intersectLocs fuel' a' b
      else if (loc_PageID y <? loc_PageID x) || (loc_PageID x =? loc_PageID y) && (loc_Offset y <? loc_Offset x)
      then intersectLocs fuel' a b'
      else x :: intersectLocs fuel' a' b'
  | _, _, _ => []
  end.

Section index.
Context `{GoRuntime}.

Definition Insert (tagsStr : list byte) (loc : RecordLocator) (idx : TagIndex) : option TagIndex :=
  pairs ← splitTagPairs tagsStr;
  Some (mkTagIndex (foldl (insert_pair loc) (index idx) (map_order (map_to_list pairs))) (retentionWindow idx) (lastSweep idx)).

(** [None] is [nil]. *)
Definition Search (key val : list byte) (idx : TagIndex) : option (list RecordLocator) :=
  match locs_at (index idx) key val with [] => None | locs => Some locs end.

Fixpoint search_rest (idx : TagIndex) (result : list RecordLocator) (cs : list (list byte * list byte))
  : option (list RecordLocator) :=
  match cs with
  | [] => Some result
  | (k, v) :: cs' =>
      match locs_at (index idx) k v with
      | [] => None
      | locs =>
          match intersectLocs (length result + length locs) result locs with
          | [] => None
          | result' => search_rest idx result' cs'
          end
      end
  end.

Definition SearchAll (constraints : tag_pairs) (idx : TagIndex) : option (list RecordLocator) :=
  match map_order (map_to_list constraints) with
  | [] => None
  | (k, v) :: cs => match locs_at (index idx) k v with [] => None | locs => search_rest idx locs cs end
  end.

Definition keep_vals (cutoff : Z) (locs : list RecordLocator) : option (list RecordLocator) :=
  match filter (fun loc => cutoff <= loc_Timestamp loc) locs with [] => None | kept => Some kept end.

Definition Sweep (now : Z) (idx : TagIndex) : TagIndex :=
  let cutoff := (now - retentionWindow idx) / 10 ^ 9 in
  mkTagIndex
    (omap (fun vals : value_locs =>
             let vals' : value_locs := omap (keep_vals cutoff) vals in if decide (vals' = ∅) then None else Some vals') (index idx))
    (retentionWindow idx) now.

Definition Stats (idx : TagIndex) : Z * Z :=
  (Z.of_nat (size (index idx)),
   foldr (fun kv n => foldr (fun vl n => zlen vl.2 + n) n (map_to_list kv.2)) 0 (map_to_list (index idx))).
End index.
