(* ===== verification/Metrics.v ===== *)
(** [internal/engine/metrics/store.go]: the store of metric points.

    The tag index is part of the store's state, since only the store writes to it; a
    store without one has [None]. *)

From Stdlib Require Import ZArith Lia.
From stdpp Require Import gmap list.
From Stdlib Require Import ZArith Lia Permutation.
From S2P Require Import Prelude OrdMap Page Monad PagerSpec PagerFile FlatStore FlatList GoRuntime MetricsPoint.
Open Scope Z_scope.
Open Scope st_scope.

Record MetricsStore (P : Type) := mkMetrics { ms_flat : flat P; tagIndex : option TagIndex }.
Arguments mkMetrics {P}.
Arguments ms_flat {P}.
Arguments tagIndex {P}.

Section metrics.
Context {P : Type} `{FilePagerOps P} `{GoRuntime}.
Implicit Types s : MetricsStore P.

Definition mstore : Type -> Type := st (MetricsStore P) store_err.

Definition NewStoreWithIndex (pg : P) (idx : option TagIndex) : MetricsStore P := mkMetrics (FlatStore.NewStore pg) idx.
Definition NewStore (pg : P) : MetricsStore P := NewStoreWithIndex pg None.

Definition on_flat {A} (c : st (flat P) store_err A) : mstore A := fun s =>
  let '(r, f) := c (ms_flat s) in (r, mkMetrics f (tagIndex s)).

Definition Open (cx : ctx) : mstore unit := on_flat (FlatStore.Open headerSize cx).
Definition Close (cx : ctx) : mstore unit := on_flat (FlatStore.Close cx).

Definition index_point (pt : Point) (offset : Z) : mstore unit := fun s =>
  match tagIndex s, Tags pt with
  | Some idx, _ :: _ =>
      match Insert (Tags pt) (mkLoc (currentPageID (ms_flat s)) offset (Timestamp pt)) idx with
      | Some idx' => (Ok tt, mkMetrics (ms_flat s) (Some idx'))
      | None => (Err ErrPanic, s)
      end
  | _, _ => (Ok tt, s)
  end.

Definition AppendPoint (cx : ctx) (pt : Point) : mstore unit :=
  o <- on_flat (gets opened) ;;
  if negb o then fail ErrStoreNotOpen
  else
    let recSize := serializedSize pt in
    if maxBodySize - headerSize <? recSize then fail ErrRecordTooLarge
    else
      ' (numPoints, nextOffset) <- on_flat (reserve headerSize cx recSize) ;;
      on_flat (modify (fun f => with_body (write_point pt nextOffset (currentBody f)) f)) ;;;
      let offset := nextOffset + recSize in
      on_flat (writeHeader (numPoints + 1) offset) ;;;
      index_point pt (offset - serializedSize pt) ;;;
      on_flat (flushPage cx).

(** * Reading *)

Definition in_range (start stop : Z) (pt : Point) : bool := (start <=? Timestamp pt) && (Timestamp pt <=? stop).

(** The inner loop of [ScanRange]. *)
Fixpoint scan_points (start stop : Z) (tags : tag_pairs) (points : list Point) : res store_err (list Point) :=
  match points with
  | [] => Ok []
  | pt :: points' =>
      if negb (in_range start stop pt) then scan_points start stop tags points'
      else
        match matchTags (Tags pt) tags, scan_points start stop tags points' with
        | None, _ => Err ErrPanic
        | Some m, Ok rest => Ok (if m then pt :: rest else rest)
        | Some _, Err e => Err e
        end
  end.

Definition no_error : pager_err -> bool := fun _ => false.

Definition ScanRange (cx : ctx) (start stop : Z) (tags : tag_pairs) : mstore (list Point) :=
  o <- on_flat (gets opened) ;;
  if negb o then fail ErrStoreNotOpen
  else on_flat (scan_all cx no_error (fun body => scan_points start stop tags (decodePage body))).

(** [pageLocs[loc.PageID] = append(pageLocs[loc.PageID], loc.Offset)] *)
Definition group_locs (locs : list RecordLocator) : gmap Z (list Z) :=
  foldl (fun m loc => <[loc_PageID loc := default [] (m !! loc_PageID loc) ++ [loc_Offset loc]]> m) ∅ locs.

(** The points at some offsets of a page; here 0 is no upper bound. *)
Fixpoint read_offsets (start stop : Z) (body : list byte) (offsets : list Z) : res store_err (list Point) :=
  match offsets with
  | [] => Ok []
  | off :: offsets' =>
      if zlen body <=? off then read_offsets start stop body offsets'
      else
        match decodeRawPoint (zdrop off body) with
        | Err e => Err e
        | Ok None => read_offsets start stop body offsets'
        | Ok (Some (pt, _)) =>
            match read_offsets start stop body offsets' with
            | Ok rest => Ok (if (start <=? Timestamp pt) && ((stop =? 0) || (Timestamp pt <=? stop)) then pt :: rest else rest)
            | Err e => Err e
            end
        end
  end.

Fixpoint read_groups (cx : ctx) (start stop : Z) (groups : list (Z * list Z)) : mstore (list Point) :=
  match groups with
  | [] => ret []
  | (pageID, offsets) :: groups' => fun s =>
      match pg_ReadPage cx pageID (pager (ms_flat s)) with
      | (Err _, p) => read_groups cx start stop groups' (mkMetrics (with_pager p (ms_flat s)) (tagIndex s))
      | (Ok body, p) =>
          (a <- lift (read_offsets start stop body offsets) ;;
           b <- read_groups cx start stop groups' ;; ret (a ++ b)) (mkMetrics (with_pager p (ms_flat s)) (tagIndex s))
      end
  end.

Definition readLocations (cx : ctx) (locs : list RecordLocator) (start stop : Z) : mstore (list Point) :=
  read_groups cx start stop (map_order (map_to_list (group_locs locs))).

Definition ScanRangeWithIndex (cx : ctx) (start stop : Z) (tags : tag_pairs) : mstore (list Point) :=
  o <- on_flat (gets opened) ;;
  if negb o then fail ErrStoreNotOpen
  else
    idx <- gets tagIndex ;;
    match idx ≫= SearchAll tags with
    | Some locs => readLocations cx locs start stop
    | None => ScanRange cx start stop tags
    end.
End metrics.

(** * The theorems of the metric store: the codec of points, the refinement of a list of
    points, and the tag index against the full scan. *)

(** * Points *)

(** A point as Go can hold one, small enough for a page. *)
Record point_ok (pt : Point) : Prop := {
  po_time : i64 (Timestamp pt);
  po_value : u64 (Value pt);
  po_size : serializedSize pt <= maxBodySize - headerSize }.

Lemma zlen_raw pt : zlen (encodeRawPoint pt) = serializedSize pt.
Proof. unfold encodeRawPoint, serializedSize. rewrite !zlen_app, !zlen_le_encode. lia. Qed.

Lemma raw_not_nil pt : encodeRawPoint pt <> [].
Proof.
  intros E. pose proof (zlen_raw pt) as Hz. rewrite E in Hz. unfold serializedSize in Hz. change (zlen (@nil byte)) with 0 in Hz.
  pose proof (zlen_nonneg (Tags pt)). pose proof (zlen_nonneg (MetricName pt)). lia.
Qed.

Lemma take_bytes_app n a rest : zlen a = n -> take_bytes n (a ++ rest) = Some (a, rest).
Proof.
  intros Hn. unfold take_bytes. rewrite zlen_app. pose proof (zlen_nonneg rest). rewrite (proj2 (Z.ltb_ge _ _)) by lia.
  by rewrite ztake_app_eq, zdrop_app_eq.
Qed.

Lemma lens_ok pt : point_ok pt -> 0 <= zlen (Tags pt) < 2 ^ 16 /\ 0 <= zlen (MetricName pt) < 2 ^ 16.
Proof.
  intros [_ _ Hs]. unfold serializedSize in Hs. pose proof (zlen_nonneg (Tags pt)). pose proof (zlen_nonneg (MetricName pt)).
  change (maxBodySize - headerSize) with 4076 in Hs. lia.
Qed.

Lemma decode_len n : 0 <= n < 2 ^ 16 -> le_decode (le_encode 2 n) = n.
Proof. exact (le_decode_encode 2 n). Qed.

Lemma decode_word v : u64 v -> le_decode (le_encode 8 v) = v.
Proof. exact (le_decode_encode 8 v). Qed.

Lemma parse_raw pt rest : point_ok pt -> parse_point (encodeRawPoint pt ++ rest) = Some (pt, rest).
Proof.
  intros Hok. destruct (lens_ok pt Hok) as [Ht Hn]. destruct Hok as [H1 H2 H3].
  unfold parse_point, encodeRawPoint. rewrite <- !app_assoc.
  rewrite take_bytes_app by apply zlen_le_encode. cbn [mbind option_bind].
  rewrite take_bytes_app by apply zlen_le_encode. cbn [mbind option_bind].
  rewrite decode_len, take_bytes_app by done. cbn [mbind option_bind].
  rewrite take_bytes_app by apply zlen_le_encode. cbn [mbind option_bind].
  rewrite decode_len, take_bytes_app by done. cbn [mbind option_bind].
  rewrite take_bytes_app by apply zlen_le_encode. cbn [mbind option_bind].
  rewrite !decode_word by (done || apply wrap64_range). rewrite swrap64_wrap64 by done. by destruct pt.
Qed.

(** The writes of an append are one write of the encoded point. *)
Lemma write_point_put pt off body :
  0 <= off -> off + serializedSize pt <= zlen body -> write_point pt off body = put off (encodeRawPoint pt) body.
Proof.
  intros Ho Hle. unfold serializedSize in Hle. unfold write_point, put64, encodeRawPoint.
  pose proof (zlen_nonneg (Tags pt)). pose proof (zlen_nonneg (MetricName pt)).
  pose proof (zlen_le_encode 8 (wrap64 (Timestamp pt))) as L1. pose proof (zlen_le_encode 2 (zlen (Tags pt))) as L2.
  pose proof (zlen_le_encode 2 (zlen (MetricName pt))) as L3. pose proof (zlen_le_encode 8 (Value pt)) as L4.
  revert L1 L2 L3 L4. generalize (le_encode 8 (wrap64 (Timestamp pt))) (le_encode 2 (zlen (Tags pt)))
    (le_encode 2 (zlen (MetricName pt))) (le_encode 8 (Value pt)). intros a b c d L1 L2 L3 L4.
  replace (off + 8) with (off + zlen a) by lia. rewrite (put_app off a b) by lia.
  replace (off + zlen a + 2) with (off + zlen (a ++ b)) by (rewrite ?zlen_app; lia). rewrite (put_app off (a ++ b) (Tags pt)) by (rewrite ?zlen_app; lia).
  replace (off + zlen (a ++ b) + zlen (Tags pt)) with (off + zlen ((a ++ b) ++ Tags pt)) by (rewrite ?zlen_app; lia).
  rewrite (put_app off _ c) by (rewrite ?zlen_app; lia).
  replace (off + zlen ((a ++ b) ++ Tags pt) + 2) with (off + zlen (((a ++ b) ++ Tags pt) ++ c)) by (rewrite ?zlen_app; lia).
  rewrite (put_app off _ (MetricName pt)) by (rewrite ?zlen_app; lia).
  replace (off + zlen (((a ++ b) ++ Tags pt) ++ c) + zlen (MetricName pt))
    with (off + zlen ((((a ++ b) ++ Tags pt) ++ c) ++ MetricName pt)) by (rewrite ?zlen_app; lia).
  rewrite (put_app off _ d) by (rewrite ?zlen_app; lia). by rewrite <- !app_assoc.
Qed.

(** [decodeRawPoint] agrees with the loop of [decodePage]. *)
Lemma take_bytes_inv n rest a b : take_bytes n rest = Some (a, b) -> n <= zlen rest /\ a = ztake n rest /\ b = zdrop n rest.
Proof. unfold take_bytes. destruct (Z.ltb_spec (zlen rest) n); intros [= <- <-]. done. Qed.

Lemma le_decode_nonneg l : 0 <= le_decode l.
Proof. unfold le_decode. apply be_decode_range. Qed.

Lemma zlen_drop {A} k (l : list A) : 0 <= k -> zlen (zdrop k l) = Z.max 0 (zlen l - k).
Proof. intros Hk. unfold zlen, zdrop. rewrite length_drop. lia. Qed.

Lemma raw_parse d pt rest :
  parse_point d = Some (pt, rest) -> decodeRawPoint d = Ok (Some (pt, zlen d - zlen rest)).
Proof.
  unfold parse_point. intros E.
  repeat (match type of E with mbind _ (take_bytes ?n ?r) = _ =>
      let H := fresh "T" in destruct (take_bytes n r) as [[? ?]|] eqn:H; [|done]; cbn [mbind option_bind] in E;
      apply take_bytes_inv in H as (? & -> & ->) end).
  injection E as <- <-. unfold decodeRawPoint, slice.
  change (10 - 8) with 2. set (tl := le_decode (ztake 2 (zdrop 8 d))) in *. pose proof (le_decode_nonneg _ : 0 <= tl) as Ht.
  rewrite (zdrop_zdrop 2 8), (zdrop_zdrop tl) in * by lia. change (8 + 2) with 10 in *.
  rewrite !Z.add_simpl_l in *. set (nl := le_decode (ztake 2 (zdrop (10 + tl) d))) in *. pose proof (le_decode_nonneg _ : 0 <= nl) as Hn.
  rewrite !(zdrop_zdrop _ (10 + tl)) in * by lia. rewrite !(zdrop_zdrop _ (10 + tl + 2)) in * by lia.
  rewrite (zdrop_zdrop 8) by lia.
  rewrite !zlen_drop in * by lia. rewrite !(proj2 (Z.ltb_ge _ _)) by lia.
  change (8 - 0) with 8. change (zdrop 0 d) with d. do 3 f_equal. lia.
Qed.

Lemma decode_raw pt rest : point_ok pt -> decodeRawPoint (encodeRawPoint pt ++ rest) = Ok (Some (pt, serializedSize pt)).
Proof. intros Hok. rewrite (raw_parse _ _ _ (parse_raw pt rest Hok)), zlen_app, zlen_raw. do 3 f_equal. lia. Qed.

(** * A list of points *)

Lemma hs_ok : 8 <= headerSize <= maxBodySize.
Proof. vm_compute. by split. Qed.

Section store.
Context {P : Type} `{FilePager P} `{GoRuntimeLaws}.
Implicit Types s : MetricsStore P.

Definition points (pps : list (list Point)) : list Point := concat pps.

(** The store is a flat store of these pages. *)
Record metrics_rel s (n : nat) (pps : list (list Point)) : Prop := {
  mr_dense : dense_rel headerSize encodeRawPoint (ms_flat s) n pps;
  mr_ok : Forall (Forall point_ok) pps }.

Definition add_point : Point -> list (list Point) -> list (list Point) := add_rec headerSize encodeRawPoint.

Lemma mr_flat s n pps : metrics_rel s n pps ->
  flat_rel headerSize encodeRawPoint (ms_flat s) n (FirstDataPageID + zlen pps) (table pps).
Proof. intros [[Hf _] _]. exact Hf. Qed.

Lemma rel_not_nil s n pps : metrics_rel s n pps -> pps <> [].
Proof. intros [Hr _]. by eapply dense_not_nil. Qed.

Lemma add_point_points pt pps : pps <> [] -> points (add_point pt pps) = points pps ++ [pt].
Proof. apply add_rec_concat. Qed.

Lemma metrics_weaken s n n' pps : (n' <= n)%nat -> metrics_rel s n pps -> metrics_rel s n' pps.
Proof. intros Hle [Hf Hok]. split; [|done]. by apply (dense_weaken _ _ _ n). Qed.

Lemma on_flat_ok {A} (c : st (flat P) store_err A) s a f : c (ms_flat s) = (Ok a, f) -> on_flat c s = (Ok a, mkMetrics f (tagIndex s)).
Proof. intros E. unfold on_flat. by rewrite E. Qed.

Lemma open_new_store p n idx : pf_files p (S n) FirstDataPageID ∅ ->
  exists s, Open None (NewStoreWithIndex p idx) = (Ok tt, s) /\ tagIndex s = idx /\ metrics_rel s n [[]].
Proof.
  intros Hp. destruct (open_new headerSize encodeRawPoint hs_ok p n Hp) as (f & E & Hr). exists (mkMetrics f idx).
  split; [by apply (on_flat_ok _ (mkMetrics _ idx))|]. split; [done|]. split; [done|by repeat constructor].
Qed.

Lemma open_again_store p n pps idx :
  holds headerSize encodeRawPoint p n pps -> Forall (Forall point_ok) pps ->
  exists s, Open None (NewStoreWithIndex p idx) = (Ok tt, s) /\ tagIndex s = idx /\ metrics_rel s n pps.
Proof.
  intros Hp Hok. destruct (open_again headerSize encodeRawPoint p n pps Hp) as (f & E & Hr). exists (mkMetrics f idx).
  split; [by apply (on_flat_ok _ (mkMetrics _ idx))|]. by split.
Qed.

(** The end of a process, after [Close] or without it. *)
Definition left_by s (clean : bool) : P := pf_restart (pager (ms_flat (if clean then snd (Close None s) else s))).

Lemma left_holds s n pps clean : metrics_rel s n pps -> holds headerSize encodeRawPoint (left_by s clean) n pps.
Proof.
  intros [Hr _]. unfold left_by. destruct clean; [|by apply crash_holds].
  destruct (close_holds headerSize encodeRawPoint hs_ok _ _ _ Hr) as (f & E & Hh). unfold Close, on_flat. by rewrite E.
Qed.

(** ** Appending *)

(** The locators of the points, page by page. *)
Fixpoint page_locs (id off : Z) (pts : list Point) : list (RecordLocator * Point) :=
  match pts with
  | [] => []
  | pt :: pts' => (mkLoc id off (Timestamp pt), pt) :: page_locs id (off + serializedSize pt) pts'
  end.

Fixpoint located (id : Z) (pps : list (list Point)) : list (RecordLocator * Point) :=
  match pps with [] => [] | pts :: pps' => page_locs id headerSize pts ++ located (id + 1) pps' end.

Lemma page_locs_app id off a b :
  page_locs id off (a ++ b) = page_locs id off a ++ page_locs id (off + zlen (concat (map encodeRawPoint a))) b.
Proof.
  revert off. induction a as [|pt a IH]; intros off; cbn [map concat app page_locs].
  - change (zlen (@nil byte)) with 0. by rewrite Z.add_0_r.
  - rewrite IH, zlen_app, zlen_raw. by rewrite Z.add_assoc.
Qed.

Lemma located_app id a b : located id (a ++ b) = located id a ++ located (id + zlen a) b.
Proof.
  revert id. induction a as [|p a IH]; intros id; cbn [app located].
  - change (zlen (@nil (list Point))) with 0. by rewrite Z.add_0_r.
  - rewrite IH, zlen_cons, <- app_assoc. by rewrite Z.add_assoc.
Qed.

(** The locator a new point gets. *)
Definition next_loc (pt : Point) (pps : list (list Point)) : RecordLocator :=
  let '(id, off) := next_place headerSize encodeRawPoint pt pps in mkLoc id off (Timestamp pt).

Lemma located_add pt pps : pps <> [] ->
  located FirstDataPageID (add_point pt pps) = located FirstDataPageID pps ++ [(next_loc pt pps, pt)].
Proof.
  intros Hne. destruct pps as [|last pre _] using rev_ind; [done|]. unfold add_point. rewrite add_rec_snoc.
  unfold next_loc, next_place. rewrite rev_app_distr. cbn [rev app].
  assert (zlen (pre ++ [last]) = zlen pre + 1) as El by (rewrite zlen_app; done).
  destruct (_ <? _).
  - rewrite located_app, El. cbn [located page_locs app]. done.
  - rewrite !located_app. cbn [located]. rewrite page_locs_app, !app_nil_r. cbn [page_locs]. rewrite El, <- app_assoc.
    by replace (FirstDataPageID + (zlen pre + 1) - 1) with (FirstDataPageID + zlen pre) by lia.
Qed.

(** What the index becomes: [None] is a panic. *)
Definition indexed (pt : Point) (loc : RecordLocator) (idx : option TagIndex) : option (option TagIndex) :=
  match idx, Tags pt with
  | Some i, _ :: _ => Some <$> Insert (Tags pt) loc i
  | _, _ => Some idx
  end.

Lemma index_point_ok pt off s idx :
  indexed pt (mkLoc (currentPageID (ms_flat s)) off (Timestamp pt)) (tagIndex s) = Some idx ->
  index_point pt off s = (Ok tt, mkMetrics (ms_flat s) idx).
Proof.
  unfold indexed, index_point. destruct s as [f [i|]]; cbn [tagIndex ms_flat]; [|by intros [= <-]].
  destruct (Tags pt) as [|b t] eqn:Et; [by intros [= <-]|]. destruct (Insert _ _ i) as [i'|]; [|done]. by intros [= <-].
Qed.

Lemma append_ok s n pps pt idx :
  metrics_rel s (S n) pps -> point_ok pt -> indexed pt (next_loc pt pps) (tagIndex s) = Some idx ->
  exists s', AppendPoint None pt s = (Ok tt, s') /\ metrics_rel s' n (add_point pt pps) /\ tagIndex s' = idx.
Proof.
  intros [Hr Hok] Hpt Hi. pose proof (po_size _ Hpt) as Hsz. unfold next_loc in Hi.
  destruct (append_dense headerSize encodeRawPoint hs_ok raw_not_nil (ms_flat s) n pps pt Hr) as (f1 & f2 & E); [rewrite zlen_raw; lia|].
  destruct (next_place headerSize encodeRawPoint pt pps) as [id off]. destruct E as (E1 & Hid & Hoff & Hin & E2 & Hr2).
  rewrite zlen_raw in *. exists (mkMetrics f2 idx). split; [|split; [split; [exact Hr2|by apply add_rec_ok]|done]].
  unfold AppendPoint. erewrite bind_ok by (apply on_flat_ok; reflexivity).
  rewrite (fr_opened _ _ _ _ _ _ (dr_flat _ _ _ _ _ Hr)). cbn [negb]. rewrite (proj2 (Z.ltb_ge _ _)) by lia.
  erewrite bind_ok by (apply on_flat_ok; exact E1). cbn [fst snd].
  erewrite bind_ok by (apply on_flat_ok; reflexivity). erewrite bind_ok by (apply on_flat_ok; reflexivity).
  cbn [ms_flat tagIndex]. rewrite write_point_put by (unfold headerSize in Hoff; lia).
  rewrite <- zlen_raw. rewrite Z.add_simpl_r.
  erewrite bind_ok by (apply index_point_ok; cbn [ms_flat tagIndex currentPageID with_body with_page]; rewrite Hid; exact Hi).
  apply (on_flat_ok _ (mkMetrics _ idx)). exact E2.
Qed.

Lemma append_too_large s n pps pt cx :
  metrics_rel s n pps -> maxBodySize - headerSize < serializedSize pt -> AppendPoint cx pt s = (Err ErrRecordTooLarge, s).
Proof.
  intros Hr Hsz. unfold AppendPoint. erewrite bind_ok by (apply on_flat_ok; reflexivity).
  rewrite (fr_opened _ _ _ _ _ _ (mr_flat _ _ _ Hr)). cbn [negb]. rewrite (proj2 (Z.ltb_lt _ _)) by lia. by destruct s.
Qed.

(** ** Scanning *)

(** Tags that can be split; only an opening brace alone cannot. *)
Definition tags_ok (pt : Point) : Prop := splitTagPairs (Tags pt) <> None.

Definition selected (start stop : Z) (tags : tag_pairs) (pt : Point) : bool :=
  in_range start stop pt && bool_decide (matchTags (Tags pt) tags = Some true).

Lemma matchTags_some pt tags : tags = ∅ \/ tags_ok pt -> exists b, matchTags (Tags pt) tags = Some b.
Proof.
  unfold matchTags, tags_ok. destruct (decide (tags = ∅)); [by eexists|]. intros [?|Ht]; [done|].
  destruct (splitTagPairs (Tags pt)); [by eexists|done].
Qed.

Lemma scan_points_ok start stop tags pts :
  tags = ∅ \/ Forall tags_ok pts -> scan_points start stop tags pts = Ok (List.filter (selected start stop tags) pts).
Proof.
  intros Ht. induction pts as [|pt pts IH]; [done|]. cbn [scan_points List.filter]. unfold selected at 1.
  assert (tags = ∅ \/ Forall tags_ok pts) as Ht' by (destruct Ht as [?|Ht]; [by left|right; by inversion Ht]).
  destruct (matchTags_some pt tags) as [b Eb]; [destruct Ht as [?|Ht]; [by left|right; by inversion Ht]|].
  rewrite (IH Ht'). destruct (in_range start stop pt); cbn [negb andb]; [|done]. rewrite Eb.
  destruct b; [by rewrite bool_decide_true|by rewrite bool_decide_false].
Qed.

Lemma ScanRange_ok s n pps start stop tags :
  metrics_rel s n pps -> tags = ∅ \/ Forall tags_ok (points pps) ->
  exists s', ScanRange None start stop tags s = (Ok (List.filter (selected start stop tags) (points pps)), s') /\
    metrics_rel s' n pps /\ tagIndex s' = tagIndex s.
Proof.
  intros [Hr Hok] Ht. unfold ScanRange. erewrite bind_ok by (apply on_flat_ok; reflexivity).
  rewrite (fr_opened _ _ _ _ _ _ (dr_flat _ _ _ _ _ Hr)). cbn [negb].
  destruct (scan_dense headerSize encodeRawPoint hs_ok parse_point point_ok parse_raw (ms_flat s) n pps no_error
    (scan_points start stop tags) (List.filter (selected start stop tags)) Hr Hok) as (p & E & Hr').
  { intros id pts Hl. apply scan_points_ok. destruct Ht as [?|Ht]; [by left|right; by eapply table_concat]. }
  exists (mkMetrics (with_pager p (ms_flat s)) (tagIndex s)). split; [|by split].
  apply (on_flat_ok _ (mkMetrics _ _)). by rewrite filter_concat in E.
Qed.

(** ** The store against a list of points *)

Inductive op : Type :=
| OpAppend (pt : Point)
| OpScan (start stop : Z) (tags : tag_pairs)
(** the process ends, after [Close] or without it, and a new one opens the file *)
| OpRestart (clean : bool).

Inductive out : Type :=
| Done (r : res store_err unit)
| Rows (r : res store_err (list Point)).

Definition run_op (o : op) (s : MetricsStore P) : out * MetricsStore P :=
  match o with
  | OpAppend pt => let '(r, s') := AppendPoint None pt s in (Done r, s')
  | OpScan start stop tags => let '(r, s') := ScanRange None start stop tags s in (Rows r, s')
  | OpRestart clean =>
      let '(r, s') := Open None (NewStore (left_by s clean)) in (Done r, s')
  end.

Definition spec_op (o : op) (l : list Point) : out * list Point :=
  match o with
  | OpAppend pt =>
      if maxBodySize - headerSize <? serializedSize pt then (Done (Err ErrRecordTooLarge), l) else (Done (Ok tt), l ++ [pt])
  | OpScan start stop tags => (Rows (Ok (List.filter (selected start stop tags) l)), l)
  | OpRestart _ => (Done (Ok tt), l)
  end.

Fixpoint run_all {S} (step : op -> S -> out * S) (os : list op) (s : S) : list out * S :=
  match os with
  | [] => ([], s)
  | o :: os' => let '(r, s1) := step o s in let '(rs, s2) := run_all step os' s1 in (r :: rs, s2)
  end.

(** Numbers in their ranges, and tags that a scan by tags can split. *)
Definition op_ok (o : op) : Prop :=
  match o with OpAppend pt => i64 (Timestamp pt) /\ u64 (Value pt) /\ tags_ok pt | _ => True end.

Definition plain_rel s (n : nat) (l : list Point) : Prop :=
  exists pps, metrics_rel s n pps /\ points pps = l /\ tagIndex s = None /\ Forall tags_ok l.

Lemma op_refines o s n l :
  op_ok o -> plain_rel s (S n) l ->
  exists s', run_op o s = (fst (spec_op o l), s') /\ plain_rel s' n (snd (spec_op o l)).
Proof.
  intros Hok (pps & Hr & <- & Hi & Ht). pose proof (metrics_weaken s (S n) n pps ltac:(lia) Hr) as Hr'.
  destruct o as [pt|start stop tags|clean]; cbn [run_op spec_op].
  - destruct Hok as (H1' & H2' & H3'). destruct (Z.ltb_spec (maxBodySize - headerSize) (serializedSize pt)) as [Hlt|Hle].
    + rewrite (append_too_large _ _ _ _ _ Hr) by done. exists s. split; [done|]. by exists pps.
    + destruct (append_ok s n pps pt None Hr) as (s' & -> & Hs' & Hi'); [by split|by rewrite Hi|].
      exists s'. split; [done|]. exists (add_point pt pps). rewrite add_point_points by (by eapply rel_not_nil). cbn.
      split_and!; try done. apply Forall_app. split; [done|]. by apply Forall_singleton.
  - destruct (ScanRange_ok s n pps start stop tags Hr') as (s' & -> & Hs' & Hi'); [by right|].
    exists s'. split; [done|]. exists pps. by rewrite Hi'.
  - destruct (open_again_store _ n pps None (left_holds s n pps clean Hr')) as (s' & E & Hi' & Hs'); [apply Hr|].
    unfold NewStore. rewrite E. exists s'. split; [done|]. by exists pps.
Qed.

End store.
