(* ===== verification/TagIndexProof.v ===== *)
(** The tag index against the full scan: an index that was told of every point answers a
    query as the scan does, and one that was not hides points. *)

From Stdlib Require Import ZArith Lia Sorted Permutation.
From stdpp Require Import gmap list.
From Stdlib Require Import ZArith Lia.
From S2P Require Import Prelude OrdMap Page Monad PagerSpec PagerFile FlatStore FlatList GoRuntime MetricsPoint Metrics.
Open Scope Z_scope.

(** * What the index holds *)

Definition pairs_of (tags : list byte) : tag_pairs := default ∅ (splitTagPairs tags).

Definition has_tag (k v : list byte) (lp : RecordLocator * Point) : bool := bool_decide (pairs_of (Tags lp.2) !! k = Some v).

(** Under every tag, the locators of the points that have it, in their order. *)
Definition index_complete (idx : TagIndex) (l : list (RecordLocator * Point)) : Prop :=
  forall k v, locs_at (index idx) k v = map fst (List.filter (has_tag k v) l).

Lemma locs_at_insert loc m kv k v :
  locs_at (insert_pair loc m kv) k v = locs_at m k v ++ (if decide ((k, v) = kv) then [loc] else []).
Proof.
  destruct kv as [k' v']. unfold insert_pair, locs_at. cbn [fst snd]. destruct (decide (k = k')) as [->|Hk].
  - rewrite lookup_insert_eq. cbn [default from_option id]. destruct (decide (v = v')) as [->|Hv].
    + rewrite lookup_insert_eq, decide_True by done. done.
    + rewrite lookup_insert_ne by done. rewrite decide_False by congruence. cbn. by rewrite app_nil_r.
  - rewrite lookup_insert_ne by done. rewrite decide_False by congruence. by rewrite app_nil_r.
Qed.

Lemma locs_at_inserts loc kvs m k v :
  NoDup kvs -> locs_at (foldl (insert_pair loc) m kvs) k v = locs_at m k v ++ (if decide ((k, v) ∈ kvs) then [loc] else []).
Proof.
  intros Hn. revert m. induction Hn as [|kv kvs Hni Hn IH]; intros m; cbn [foldl].
  - rewrite decide_False by apply not_elem_of_nil. by rewrite app_nil_r.
  - rewrite IH, locs_at_insert, <- app_assoc. f_equal. destruct (decide ((k, v) = kv)) as [<-|Hne].
    + rewrite (decide_False (P := (k, v) ∈ kvs)) by done. rewrite decide_True by constructor. done.
    + cbn. destruct (decide ((k, v) ∈ kvs)); [rewrite decide_True by by constructor|rewrite decide_False by (by inversion 1)]; done.
Qed.

Section index.
Context `{GoRuntimeLaws}.

Lemma insert_complete idx l loc pt idx' :
  index_complete idx l -> Insert (Tags pt) loc idx = Some idx' -> index_complete idx' (l ++ [(loc, pt)]).
Proof.
  intros Hc. unfold Insert. destruct (splitTagPairs (Tags pt)) as [pairs|] eqn:Ep; [|done]. cbn. intros [= <-] k v. cbn [index].
  rewrite locs_at_inserts.
  - rewrite (Hc k v), List.filter_app, map_app. f_equal. cbn. unfold has_tag, pairs_of. cbn. rewrite Ep. cbn.
    assert ((k, v) ∈ map_order (map_to_list pairs) <-> pairs !! k = Some v) as Hin.
    { rewrite (map_order_perm _ (map_to_list pairs)). apply elem_of_map_to_list. }
    destruct (decide (pairs !! k = Some v)); [rewrite bool_decide_true by done|rewrite bool_decide_false by done];
      [rewrite decide_True by (by apply Hin)|rewrite decide_False by (by rewrite Hin)]; done.
  - rewrite (map_order_perm _ (map_to_list pairs)). apply NoDup_map_to_list.
Qed.

Lemma empty_complete window now : index_complete (NewTagIndex window now) [].
Proof. intros k v. done. Qed.

(** * Intersections *)

Definition loc_lt (x y : RecordLocator) : Prop :=
  loc_PageID x < loc_PageID y \/ (loc_PageID x = loc_PageID y /\ loc_Offset x < loc_Offset y).

Definition sorted_locs (l : list (RecordLocator * Point)) : Prop := StronglySorted loc_lt (map fst l).

Lemma loc_lt_bool x y :
  (loc_PageID x <? loc_PageID y) || (loc_PageID x =? loc_PageID y) && (loc_Offset x <? loc_Offset y) = true <-> loc_lt x y.
Proof. rewrite orb_true_iff, andb_true_iff, Z.eqb_eq, !Z.ltb_lt. done. Qed.

Lemma loc_lt_bool' x y :
  (loc_PageID y <? loc_PageID x) || (loc_PageID x =? loc_PageID y) && (loc_Offset y <? loc_Offset x) = true <-> loc_lt y x.
Proof. rewrite orb_true_iff, andb_true_iff, Z.eqb_eq, !Z.ltb_lt. unfold loc_lt. intuition. Qed.

Lemma intersect_step fuel x a y b :
  (loc_lt x y -> intersectLocs (S fuel) (x :: a) (y :: b) = intersectLocs fuel a (y :: b)) /\
  (loc_lt y x -> intersectLocs (S fuel) (x :: a) (y :: b) = intersectLocs fuel (x :: a) b) /\
  (x = y -> intersectLocs (S fuel) (x :: a) (y :: b) = x :: intersectLocs fuel a b).
Proof.
  cbn [intersectLocs]. split_and!.
  - intros Hlt. by rewrite (proj2 (loc_lt_bool x y) Hlt).
  - intros Hlt. destruct (_ || _) eqn:E; [apply loc_lt_bool in E; unfold loc_lt in *; lia|].
    by rewrite (proj2 (loc_lt_bool' x y) Hlt).
  - intros <-. destruct (_ || _) eqn:E; [apply loc_lt_bool in E; unfold loc_lt in *; lia|].
    destruct (_ || _) eqn:E2; [apply loc_lt_bool' in E2; unfold loc_lt in *; lia|]. done.
Qed.

Lemma filter_above (f : RecordLocator * Point -> bool) x l :
  Forall (loc_lt x) (map fst l) -> Forall (loc_lt x) (map fst (List.filter f l)).
Proof. induction l as [|y l IH]; cbn; [done|]. inversion 1; subst. destruct (f y); cbn; [constructor|]; auto. Qed.

Lemma intersect_nil fuel a : intersectLocs fuel a [] = [].
Proof. by destruct fuel, a. Qed.

Lemma intersect_filters f g l fuel :
  sorted_locs l -> (length (List.filter f l) + length (List.filter g l) <= fuel)%nat ->
  intersectLocs fuel (map fst (List.filter f l)) (map fst (List.filter g l)) = map fst (List.filter (fun lp => f lp && g lp) l).
Proof.
  unfold sorted_locs. revert fuel. induction l as [|x l IH]; intros fuel Hs Hf; [by rewrite intersect_nil|].
  inversion Hs as [|? ? Hs' Hx]; subst. cbn [List.filter] in *.
  pose proof (filter_above f _ _ Hx) as Hxf. pose proof (filter_above g _ _ Hx) as Hxg.
  destruct (f x) eqn:Ef, (g x) eqn:Eg; cbn [map andb length] in *; [| | |by apply IH].
  - destruct fuel as [|fuel]; [lia|]. rewrite (proj2 (proj2 (intersect_step _ _ _ _ _))) by done. f_equal. apply IH; [done|lia].
  - destruct (map fst (List.filter g l)) as [|y b] eqn:Eb.
    + rewrite intersect_nil, <- (IH fuel Hs' ltac:(lia)). by rewrite intersect_nil.
    + destruct fuel as [|fuel]; [lia|]. rewrite (proj1 (intersect_step _ _ _ _ _)) by (by inversion Hxg). apply IH; [done|lia].
  - destruct (map fst (List.filter f l)) as [|y a] eqn:Ea.
    + rewrite <- (IH fuel Hs' ltac:(lia)). destruct fuel; done.
    + destruct fuel as [|fuel]; [lia|]. rewrite (proj1 (proj2 (intersect_step _ _ _ _ _))) by (by inversion Hxf).
      apply IH; [done|lia].
Qed.

(** * Searching *)

(** A point with all of the tags. *)
Definition has_tags (cs : list (list byte * list byte)) (lp : RecordLocator * Point) : bool :=
  forallb (fun kv => has_tag kv.1 kv.2 lp) cs.

Lemma search_rest_ok idx l f cs :
  index_complete idx l -> sorted_locs l -> List.filter f l <> [] ->
  search_rest idx (map fst (List.filter f l)) cs = as_nil (map fst (List.filter (fun lp => f lp && has_tags cs lp) l)).
Proof.
  intros Hc Hs. revert f. induction cs as [|[k v] cs IH]; intros f Hne; cbn [search_rest].
  - rewrite (List.filter_ext (fun lp => f lp && has_tags [] lp) f) by (intros; apply andb_true_r). by destruct (List.filter f l).
  - assert (forall x, f x && has_tags ((k, v) :: cs) x = (f x && has_tag k v x) && has_tags cs x) as Hext by (intros; apply andb_assoc).
    rewrite (List.filter_ext _ _ Hext), (Hc k v).
    pose proof (intersect_filters f (has_tag k v) l _ Hs (le_n _)) as Hi. rewrite <- !(length_map fst) in Hi.
    destruct (map fst (List.filter (has_tag k v) l)) as [|y b] eqn:Eb.
    + rewrite intersect_nil in Hi. symmetry in Hi. apply map_eq_nil in Hi. by rewrite (filter_and_nil _ _ _ Hi).
    + rewrite Hi. destruct (map fst (List.filter (fun lp => f lp && has_tag k v lp) l)) as [|z c] eqn:Ec.
      * apply map_eq_nil in Ec. by rewrite (filter_and_nil _ _ _ Ec).
      * rewrite <- Ec. apply (IH (fun lp => f lp && has_tag k v lp)). intros E. by rewrite E in Ec.
Qed.

(** [SearchAll] is the list of the points with all of the tags. *)
Lemma SearchAll_ok idx l tags :
  index_complete idx l -> sorted_locs l -> tags <> ∅ ->
  SearchAll tags idx = as_nil (map fst (List.filter (has_tags (map_order (map_to_list tags))) l)).
Proof.
  intros Hc Hs Hne. unfold SearchAll. destruct (map_order (map_to_list tags)) as [|[k v] cs] eqn:Eo.
  - pose proof (map_order_perm _ (map_to_list tags)) as Hp. rewrite Eo in Hp. apply Permutation_nil_l in Hp. symmetry in Hp.
    by apply map_to_list_empty_iff in Hp.
  - rewrite (Hc k v). change (has_tags ((k, v) :: cs)) with (fun lp => has_tag k v lp && has_tags cs lp).
    destruct (List.filter (has_tag k v) l) as [|y b] eqn:Ef; cbn [map].
    + by rewrite (filter_and_nil _ _ _ Ef).
    + change (fst y :: map fst b) with (map fst (y :: b)). rewrite <- Ef. apply search_rest_ok; [done|done|]. by rewrite Ef.
Qed.
End index.

(** * Locators *)

Lemma zlen_snoc {A} (l : list A) x : zlen (l ++ [x]) = zlen l + 1.
Proof. by rewrite zlen_app. Qed.

Lemma size_pos pt : 0 < serializedSize pt.
Proof. unfold serializedSize. pose proof (zlen_nonneg (Tags pt)). pose proof (zlen_nonneg (MetricName pt)). lia. Qed.

Lemma page_locs_snd id off pts : map snd (page_locs id off pts) = pts.
Proof. revert off. induction pts as [|pt pts IH]; intros off; [done|]. cbn. by rewrite IH. Qed.

Lemma located_snd id pps : map snd (located id pps) = points pps.
Proof. revert id. induction pps as [|p pps IH]; intros id; [done|]. cbn. by rewrite map_app, page_locs_snd, IH. Qed.

Lemma page_locs_above id off pts : Forall (fun x => loc_PageID x = id /\ off <= loc_Offset x) (map fst (page_locs id off pts)).
Proof.
  revert off. induction pts as [|pt pts IH]; intros off; constructor; [by cbn|]. pose proof (size_pos pt).
  eapply Forall_impl; [apply IH|]. cbn. intros x [? ?]. split; [done|lia].
Qed.

Lemma located_above id pps : Forall (fun x => id <= loc_PageID x) (map fst (located id pps)).
Proof.
  revert id. induction pps as [|p pps IH]; intros id; [constructor|]. cbn [located]. rewrite map_app. apply Forall_app. split.
  - eapply Forall_impl; [apply page_locs_above|]. cbn. intros x [-> _]. lia.
  - eapply Forall_impl; [apply IH|]. cbn. lia.
Qed.

Lemma StronglySorted_app_2 {A} (R : A -> A -> Prop) l k :
  StronglySorted R l -> StronglySorted R k -> (forall x y, x ∈ l -> y ∈ k -> R x y) -> StronglySorted R (l ++ k).
Proof.
  intros Hl Hk Hlk. induction Hl as [|x l Hl IH Hx]; [done|]. cbn. constructor.
  - apply IH. intros y z Hy. apply Hlk. by constructor.
  - apply Forall_app. split; [done|]. apply Forall_forall. intros y Hy. apply Hlk; [constructor|]. by apply list_elem_of_In, list_elem_of_In.
Qed.

Lemma located_sorted id pps : sorted_locs (located id pps).
Proof.
  unfold sorted_locs. revert id. induction pps as [|p pps IH]; intros id; [constructor|]. cbn [located]. rewrite map_app.
  apply StronglySorted_app_2; [|apply IH|].
  - generalize headerSize. induction p as [|pt p IHp]; intros off; constructor; [apply IHp|]. pose proof (size_pos pt).
    eapply Forall_impl; [apply page_locs_above|]. cbn. intros x [? ?]. right. cbn. lia.
  - intros x y Hx Hy. pose proof (page_locs_above id headerSize p) as Hp. pose proof (located_above (id + 1) pps) as Hl.
    rewrite Forall_forall in Hp, Hl. specialize (Hp x Hx). specialize (Hl y Hy). cbn in *. left. lia.
Qed.

(** The locators on one page. *)
Lemma located_page (f : RecordLocator * Point -> bool) id start pps :
  List.filter (fun x => loc_PageID x =? id) (map fst (List.filter f (located start pps))) =
  map fst (List.filter f (from_option (page_locs id headerSize) [] ((map_seqZ start pps : gmap Z (list Point)) !! id))).
Proof.
  revert start. induction pps as [|p pps IH]; intros start; [done|]. cbn [located map_seqZ].
  rewrite List.filter_app, map_app, List.filter_app. replace (Z.succ start) with (start + 1) by lia. rewrite IH.
  destruct (decide (start = id)) as [->|Hne].
  - rewrite lookup_insert_eq. cbn [from_option].
    assert ((map_seqZ (id + 1) pps : gmap Z (list Point)) !! id = None) as -> by (apply lookup_map_seqZ_None; lia). cbn. rewrite app_nil_r.
    apply forallb_filter_id, forallb_forall. intros x Hx. apply list_elem_of_In, list_elem_of_fmap in Hx as (y & -> & Hy).
    apply list_elem_of_In, filter_In in Hy as [Hy _]. apply Z.eqb_eq.
    pose proof (page_locs_above id headerSize p) as Hp. rewrite Forall_forall in Hp. apply Hp. apply list_elem_of_In, in_map, Hy.
  - rewrite lookup_insert_ne by done.
    assert (List.filter (fun x => loc_PageID x =? id) (map fst (List.filter f (page_locs start headerSize p))) = []) as ->; [|done].
    generalize headerSize. induction p as [|pt p IHp]; intros off; [done|]. cbn. destruct (f _); cbn; [|apply IHp].
    rewrite (proj2 (Z.eqb_neq _ _)) by done. apply IHp.
Qed.

(** * Reading by locators *)

Lemma group_locs_lookup locs id :
  group_locs locs !! id = as_nil (map loc_Offset (List.filter (fun x => loc_PageID x =? id) locs)).
Proof. exact (group_pages_lookup loc_PageID loc_Offset locs id). Qed.

Section store.
Context {P : Type} `{FilePager P} `{GoRuntimeLaws}.
Implicit Types s : MetricsStore P.
Context (start stop : Z).

Definition reached (pt : Point) : bool := (start <=? Timestamp pt) && ((stop =? 0) || (Timestamp pt <=? stop)).

Lemma read_suffix f id a b :
  Forall point_ok (a ++ b) -> fits headerSize encodeRawPoint (a ++ b) ->
  read_offsets start stop (image headerSize encodeRawPoint (a ++ b))
    (map loc_Offset (map fst (List.filter f (page_locs id (headerSize + zlen (concat (map encodeRawPoint a))) b)))) =
  Ok (map snd (List.filter (fun lp => f lp && reached lp.2)
    (page_locs id (headerSize + zlen (concat (map encodeRawPoint a))) b))).
Proof.
  revert a. induction b as [|pt b IH]; intros a Hok Hf; [done|]. cbn [page_locs List.filter].
  assert (a ++ pt :: b = (a ++ [pt]) ++ b) as Ea by (by rewrite <- app_assoc).
  assert (headerSize + zlen (concat (map encodeRawPoint a)) + serializedSize pt
    = headerSize + zlen (concat (map encodeRawPoint (a ++ [pt])))) as Eo.
  { rewrite map_app, concat_app, zlen_app. cbn [map concat]. rewrite app_nil_r, zlen_raw. lia. }
  rewrite Eo. rewrite Ea in Hok, Hf |- *. specialize (IH (a ++ [pt]) Hok Hf).
  destruct (f _); cbn [map andb]; [|exact IH]. cbn [read_offsets fst loc_Offset snd].
  assert (zdrop (headerSize + zlen (concat (map encodeRawPoint a))) (image headerSize encodeRawPoint ((a ++ [pt]) ++ b))
    = encodeRawPoint pt ++ concat (map encodeRawPoint b) ++
      zrep (maxBodySize - headerSize - zlen (concat (map encodeRawPoint ((a ++ [pt]) ++ b)))) x00) as Ed.
  { unfold image, page_image. rewrite !map_app, !concat_app. cbn [map concat]. rewrite app_nil_r, <- !app_assoc, app_assoc.
    apply zdrop_app_eq. rewrite zlen_app, zlen_header; [done|]. vm_compute. done. }
  rewrite zlen_img by (done || apply hs_ok). rewrite Ed.
  rewrite (proj2 (Z.leb_gt _ _)); cycle 1.
  { destruct Hf as [Hf _]. rewrite !map_app, !concat_app, !zlen_app in Hf. cbn [map concat] in Hf. rewrite app_nil_r, zlen_raw in Hf.
    pose proof (size_pos pt). pose proof (zlen_nonneg (concat (map encodeRawPoint b))). lia. }
  rewrite decode_raw by (apply Forall_app in Hok as [Hok _]; apply Forall_app in Hok as [_ Hok]; by inversion Hok).
  rewrite IH. unfold reached. by destruct (_ && _).
Qed.

Lemma read_page f id pts :
  Forall point_ok pts -> fits headerSize encodeRawPoint pts ->
  read_offsets start stop (image headerSize encodeRawPoint pts) (map loc_Offset (map fst (List.filter f (page_locs id headerSize pts)))) =
  Ok (map snd (List.filter (fun lp => f lp && reached lp.2) (page_locs id headerSize pts))).
Proof. intros Hok Hf. exact (read_suffix f id [] pts Hok Hf). Qed.

(** The points of a page that a locator list reaches. *)
Definition page_hits (f : RecordLocator * Point -> bool) (pps : list (list Point)) (id : Z) : list Point :=
  from_option (fun pts => map snd (List.filter (fun lp => f lp && reached lp.2) (page_locs id headerSize pts))) [] (table pps !! id).

Lemma read_groups_ok f n pps groups s :
  metrics_rel s n pps ->
  Forall (fun g => exists pts, table pps !! g.1 = Some pts /\
    g.2 = map loc_Offset (map fst (List.filter f (page_locs g.1 headerSize pts)))) groups ->
  exists s', read_groups None start stop groups s = (Ok (concat (map (page_hits f pps) (map fst groups))), s') /\
    metrics_rel s' n pps /\ tagIndex s' = tagIndex s.
Proof.
  intros Hr Hg. revert s Hr. induction Hg as [|[id offs] groups (pts & Hl & Ho) _ IH]; intros s Hr; [by exists s|].
  cbn [fst snd] in Hl, Ho. subst offs. cbn [read_groups map concat fst]. pose proof (mr_flat _ _ _ Hr) as Hf. destruct Hr as [[_ Hc] Hok].
  destruct (pf_read _ _ _ _ id (image headerSize encodeRawPoint pts) (fr_pager _ _ _ _ _ _ Hf)) as (p & E & Hp).
  { by rewrite lookup_fmap, Hl. }
  rewrite E. rewrite read_page; [|by eapply table_Forall|by apply (fr_fits _ _ _ _ _ _ Hf id)]. rewrite bind_lift.
  assert (metrics_rel (mkMetrics (with_pager p (ms_flat s)) (tagIndex s)) n pps) as Hr1 by (split; [split; [by destruct Hf|done]|done]).
  destruct (IH _ Hr1) as (s' & E' & Hr' & Hi). exists s'. rewrite (bind_ok _ _ _ _ _ E'). split; [|done].
  unfold page_hits at 2. by rewrite Hl.
Qed.

Lemma hits_all f pps :
  concat (map (page_hits f pps) (seqZ FirstDataPageID (zlen pps)))
    = map snd (List.filter (fun lp => f lp && reached lp.2) (located FirstDataPageID pps)).
Proof.
  unfold page_hits, table. generalize FirstDataPageID as start0. induction pps as [|p pps IH]; intros start0; [done|].
  rewrite zlen_cons, seqZ_cons by (pose proof (zlen_nonneg pps); lia). cbn [map concat located].
  rewrite List.filter_app, map_app, <- (IH (start0 + 1)). replace (Z.pred (1 + zlen pps)) with (zlen pps) by lia.
  rewrite map_seqZ_cons, lookup_insert_eq. cbn [from_option]. f_equal. f_equal. apply map_ext_in. intros id Hid.
  apply list_elem_of_In, elem_of_seqZ in Hid. by rewrite lookup_insert_ne by lia.
Qed.

Lemma readLocations_ok f n pps s :
  metrics_rel s n pps ->
  exists r s', readLocations None (map fst (List.filter f (located FirstDataPageID pps))) start stop s = (Ok r, s') /\
    r ≡ₚ map snd (List.filter (fun lp => f lp && reached lp.2) (located FirstDataPageID pps)) /\
    metrics_rel s' n pps /\ tagIndex s' = tagIndex s.
Proof.
  intros Hr. unfold readLocations. set (locs := map fst _). set (groups := map_order (map_to_list (group_locs locs))).
  assert (forall id, group_locs locs !! id =
    as_nil (map loc_Offset (map fst (List.filter f (from_option (page_locs id headerSize) [] (table pps !! id)))))) as Hl.
  { intros id. rewrite group_locs_lookup. unfold locs. by rewrite located_page. }
  assert (forall g, g ∈ groups -> group_locs locs !! g.1 = Some g.2) as Hin.
  { intros [id offs] Hg. unfold groups in Hg. rewrite (map_order_perm _ _) in Hg. by apply elem_of_map_to_list in Hg. }
  destruct (read_groups_ok f n pps groups s Hr) as (s' & E & Hr').
  { apply Forall_forall. intros g Hg. apply list_elem_of_In, list_elem_of_In in Hg. pose proof (Hin g Hg) as Hg'. rewrite Hl in Hg'.
    destruct (table pps !! g.1) as [pts|]; [|done]. exists pts. split; [done|]. cbn [from_option] in Hg'.
    destruct (map loc_Offset _); [done|]. by injection Hg' as <-. }
  eexists _, s'. split; [exact E|]. split; [|done]. rewrite <- hits_all. apply concat_missing.
  - unfold groups. rewrite (Permutation_map fst (map_order_perm _ _)). apply NoDup_fst_map_to_list.
  - apply NoDup_seqZ.
  - intros id Hid. apply list_elem_of_fmap in Hid as (g & -> & Hg). specialize (Hin g Hg). rewrite Hl in Hin.
    destruct (table pps !! g.1) as [pts|] eqn:Et; [|done]. apply lookup_map_seqZ_Some in Et as [Hle Et].
    apply lookup_lt_Some in Et. apply elem_of_seqZ. unfold zlen. lia.
  - intros id Hid. unfold page_hits. destruct (table pps !! id) as [pts|] eqn:Et; [|done]. cbn [from_option].
    destruct (group_locs locs !! id) as [offs|] eqn:Eg.
    { destruct Hid. apply list_elem_of_fmap. exists (id, offs). split; [done|]. unfold groups. rewrite (map_order_perm _ _).
      by apply elem_of_map_to_list. }
    rewrite Hl, Et in Eg. cbn [from_option] in Eg. rewrite filter_and_nil; [done|].
    by destruct (List.filter f (page_locs id headerSize pts)).
Qed.
End store.

(** * Queries *)

Lemma filter_locs_sorted f l : sorted_locs l -> sorted_locs (List.filter f l).
Proof.
  unfold sorted_locs. induction l as [|x l IH]; cbn; [done|]. inversion 1; subst. destruct (f x); cbn; [|auto].
  constructor; [auto|]. by apply filter_above.
Qed.

Section queries.
Context {P : Type} `{FilePager P} `{GoRuntimeLaws}.
Implicit Types s : MetricsStore P.

(** The two ways to compare tags agree on constraints that are not empty strings. *)
Lemma has_tags_match tags (lp : RecordLocator * Point) :
  tags_ok lp.2 -> tags <> ∅ -> map_Forall (fun _ v => v <> []) tags ->
  has_tags (map_order (map_to_list tags)) lp = bool_decide (matchTags (Tags lp.2) tags = Some true).
Proof.
  intros Hok Hne Hv. unfold matchTags. rewrite decide_False by done. unfold tags_ok in Hok.
  destruct (splitTagPairs (Tags lp.2)) as [pairs|] eqn:Ep; [|done]. cbn [mbind option_bind].
  assert (has_tags (map_order (map_to_list tags)) lp = forallb (has_pair pairs) (map_to_list tags)) as ->.
  { apply eq_bool_prop_intro. rewrite !Is_true_true. unfold has_tags. rewrite !forallb_forall. split; intros Hall kv Hin.
    - specialize (Hall kv). rewrite map_order_In in Hall. specialize (Hall Hin). unfold has_tag, pairs_of in Hall. rewrite Ep in Hall.
      apply bool_decide_eq_true in Hall. cbn in Hall. unfold has_pair. rewrite Hall. by apply bool_decide_eq_true.
    - rewrite map_order_In in Hin. specialize (Hall kv Hin). unfold has_pair in Hall. apply bool_decide_eq_true in Hall.
      unfold has_tag, pairs_of. rewrite Ep. apply bool_decide_eq_true. cbn. destruct kv as [k v]. cbn [fst snd] in *.
      apply list_elem_of_In, elem_of_map_to_list in Hin. specialize (Hv _ _ Hin). cbn in Hv.
      destruct (pairs !! k); cbn in Hall; congruence. }
  by destruct (forallb _ _).
Qed.

Lemma append_indexed s n pps pt idx l :
  metrics_rel s (S n) pps -> point_ok pt -> tags_ok pt -> tagIndex s = Some idx -> index_complete idx l ->
  exists s' idx', AppendPoint None pt s = (Ok tt, s') /\ metrics_rel s' n (add_point pt pps) /\
    tagIndex s' = Some idx' /\ index_complete idx' (l ++ [(next_loc pt pps, pt)]).
Proof.
  intros Hr Hpt Ht Hi Hc. destruct (Tags pt) as [|b t] eqn:Et.
  - destruct (append_ok s n pps pt (Some idx) Hr Hpt) as (s' & E & Hr' & Hi'); [unfold indexed; by rewrite Hi, Et|].
    exists s', idx. split_and!; try done. intros k v. rewrite (Hc k v), List.filter_app, map_app. cbn. unfold has_tag, pairs_of. cbn.
    rewrite Et. cbn. by rewrite app_nil_r.
  - destruct (Insert (Tags pt) (next_loc pt pps) idx) as [idx'|] eqn:Ei; cycle 1.
    { unfold tags_ok in Ht. unfold Insert in Ei. by destruct (splitTagPairs (Tags pt)). }
    destruct (append_ok s n pps pt (Some idx') Hr Hpt) as (s' & E & Hr' & Hi').
    { unfold indexed. rewrite Hi, Et. rewrite Et in Ei. by rewrite Ei. }
    exists s', idx'. split_and!; try done. by eapply insert_complete.
Qed.

(** What a query by tags returns when the index knows some of the points. *)
Lemma query_ok s n pps idx known start stop tags :
  metrics_rel s n pps -> tagIndex s = Some idx -> index_complete idx (List.filter known (located FirstDataPageID pps)) ->
  Forall tags_ok (points pps) -> tags <> ∅ ->
  let hit lp := known lp && has_tags (map_order (map_to_list tags)) lp in
  exists r s', ScanRangeWithIndex None start stop tags s = (Ok r, s') /\ metrics_rel s' n pps /\ tagIndex s' = tagIndex s /\
    r ≡ₚ match List.filter hit (located FirstDataPageID pps) with
         | [] => List.filter (selected start stop tags) (points pps)
         | _ => map snd (List.filter (fun lp => hit lp && reached start stop lp.2) (located FirstDataPageID pps))
         end.
Proof.
  intros Hr Hi Hc Ht Hne hit. unfold ScanRangeWithIndex. erewrite bind_ok by (apply on_flat_ok; reflexivity).
  rewrite (fr_opened _ _ _ _ _ _ (mr_flat _ _ _ Hr)). cbn [negb].
  assert (mkMetrics (ms_flat s) (tagIndex s) = s) as -> by (by destruct s). rewrite bind_gets, Hi. cbn [mbind option_bind].
  rewrite (SearchAll_ok idx _ tags Hc) by (done || apply filter_locs_sorted, located_sorted). rewrite filter_filter. fold hit.
  destruct (List.filter hit (located FirstDataPageID pps)) as [|lp lps] eqn:Ef; cbn [map as_nil].
  - destruct (ScanRange_ok s n pps start stop tags Hr (or_intror Ht)) as (s' & E & Hr' & Hi').
    eexists _, s'. split; [exact E|]. rewrite Hi in Hi'. done.
  - change (fst lp :: map fst lps) with (map fst (lp :: lps)). rewrite <- Ef.
    destruct (readLocations_ok start stop hit n pps s Hr) as (r & s' & E & Hp & Hr' & Hi').
    exists r, s'. split; [exact E|]. rewrite Hi in Hi'. done.
Qed.

(** ** An index that knows every point *)

Definition indexed_rel s (n : nat) (pps : list (list Point)) : Prop :=
  metrics_rel s n pps /\ Forall tags_ok (points pps) /\
  exists idx, tagIndex s = Some idx /\ index_complete idx (located FirstDataPageID pps).

Lemma filter_nil_of {A} (f : A -> bool) l : (forall x, In x l -> f x = false) -> List.filter f l = [].
Proof. induction l as [|x l IH]; intros Hf; [done|]. cbn. rewrite Hf by by left. apply IH. intros y Hy. apply Hf. by right. Qed.

Lemma filter_nil_false {A} (f : A -> bool) l : List.filter f l = [] -> forall x, In x l -> f x = false.
Proof. intros E x Hin. destruct (f x) eqn:Ef; [|done]. assert (In x []) as []. rewrite <- E. by apply filter_In. Qed.

(** What a query by tags reads through such an index: a bound of 0 is no upper bound there. *)
Definition found (start stop : Z) (tags : tag_pairs) (pt : Point) : bool :=
  reached start stop pt && bool_decide (matchTags (Tags pt) tags = Some true).

Lemma query_without_tags s n pps start stop :
  indexed_rel s n pps ->
  exists s', ScanRangeWithIndex None start stop ∅ s = (Ok (List.filter (selected start stop ∅) (points pps)), s') /\
    indexed_rel s' n pps.
Proof.
  intros (Hr & Ht & idx & Hi & Hc). destruct (ScanRange_ok s n pps start stop ∅ Hr (or_introl eq_refl)) as (s' & E & Hr' & Hi').
  exists s'. split; [|split; [exact Hr'|split; [done|exists idx; by rewrite Hi']]].
  unfold ScanRangeWithIndex. erewrite bind_ok by (apply on_flat_ok; reflexivity).
  rewrite (fr_opened _ _ _ _ _ _ (mr_flat _ _ _ Hr)). cbn [negb].
  assert (mkMetrics (ms_flat s) (tagIndex s) = s) as -> by (by destruct s). rewrite bind_gets, Hi. cbn [mbind option_bind].
  unfold SearchAll. assert (map_order (map_to_list (∅ : tag_pairs)) = []) as ->; [|exact E].
  apply Permutation_nil_r. rewrite map_order_perm. by rewrite map_to_list_empty.
Qed.

Lemma query_indexed s n pps start stop tags :
  indexed_rel s n pps -> tags <> ∅ -> map_Forall (fun _ v => v <> []) tags ->
  exists r s', ScanRangeWithIndex None start stop tags s = (Ok r, s') /\ indexed_rel s' n pps /\
    r ≡ₚ List.filter (found start stop tags) (points pps).
Proof.
  intros (Hr & Ht & idx & Hi & Hc) Hne Hv.
  destruct (query_ok s n pps idx (fun _ => true) start stop tags Hr Hi) as (r & s' & E & Hr' & Hi' & Hp).
  { by rewrite (List.filter_true (located FirstDataPageID pps)). } { done. } { done. }
  exists r, s'. split; [exact E|]. split; [split; [done|split; [done|exists idx; by rewrite Hi']]|]. etransitivity; [exact Hp|]. cbn [andb]. clear Hp.
  assert (forall lp, In lp (located FirstDataPageID pps) -> has_tags (map_order (map_to_list tags)) lp
    = bool_decide (matchTags (Tags lp.2) tags = Some true)) as Hm.
  { intros lp Hin. apply has_tags_match; [|done..]. rewrite Forall_forall in Ht. apply Ht.
    rewrite <- (located_snd FirstDataPageID pps). by apply list_elem_of_In, in_map. }
  assert (List.filter (fun lp => has_tags (map_order (map_to_list tags)) lp && reached start stop lp.2) (located FirstDataPageID pps)
    = List.filter (fun lp => found start stop tags lp.2) (located FirstDataPageID pps)) as Ef.
  { apply filter_ext_in. intros lp Hin. rewrite (Hm lp Hin). apply andb_comm. }
  rewrite Ef. destruct (List.filter (fun lp => has_tags (map_order (map_to_list tags)) lp) _) eqn:En; [|by rewrite (filter_snd (found start stop tags)), located_snd].
  rewrite (filter_nil_of (selected _ _ _)), (filter_nil_of (found _ _ _)); [done|intros pt Hin..];
    rewrite <- (located_snd FirstDataPageID pps) in Hin; apply in_map_iff in Hin as (lp & <- & Hin);
    specialize (Hm lp Hin); rewrite (filter_nil_false (fun lp => has_tags (map_order (map_to_list tags)) lp) _ En lp Hin) in Hm;
    unfold found, selected; rewrite <- Hm; apply andb_false_r.
Qed.

Lemma found_selected start stop tags pt : stop <> 0 -> found start stop tags pt = selected start stop tags pt.
Proof. intros Hz. unfold found, selected, reached, in_range. by rewrite (proj2 (Z.eqb_neq _ _)). Qed.

Lemma found_unbounded start tags pt :
  found start 0 tags pt = (start <=? Timestamp pt) && bool_decide (matchTags (Tags pt) tags = Some true).
Proof. unfold found, reached. cbn [orb Z.eqb]. by rewrite andb_true_r. Qed.

Lemma append_all_indexed p pts window now :
  pf_files p (S (length pts)) FirstDataPageID ∅ -> Forall (fun pt => point_ok pt /\ tags_ok pt) pts ->
  exists s pps,
    bind (Open None) (fun _ => for_each pts (AppendPoint None)) (NewStoreWithIndex p (Some (NewTagIndex window now))) = (Ok tt, s) /\
    indexed_rel s 0 pps /\ points pps = pts.
Proof.
  intros Hp Hpts. destruct (open_new_store p (length pts) (Some (NewTagIndex window now)) Hp) as (s & E & Hi & Hr).
  rewrite (bind_ok _ _ _ _ _ E).
  assert (indexed_rel s (length pts) [[]]) as Hs.
  { split; [done|]. split; [constructor|]. eexists. split; [exact Hi|]. apply empty_complete. }
  change pts with (points [[]] ++ pts) at 2. clear E Hi Hr Hp. revert s Hs. generalize ([[]] : list (list Point)).
  induction Hpts as [|pt pts [Hpt Htag] _ IH]; intros pps s Hs; [exists s, pps; rewrite app_nil_r; done|].
  destruct Hs as (Hr & Ht & idx & Hi & Hc). cbn [length] in Hr.
  destruct (append_indexed s (length pts) pps pt idx _ Hr Hpt Htag Hi Hc) as (s' & idx' & E & Hr' & Hi' & Hc').
  assert (pps <> []) as Hne by (by eapply rel_not_nil).
  destruct (IH (add_point pt pps) s') as (s1 & pps1 & E1 & Hr1 & Hp1).
  { split; [done|]. rewrite add_point_points by done. split; [apply Forall_app; split; [done|by apply Forall_singleton]|].
    exists idx'. by rewrite located_add. }
  exists s1, pps1. cbn [for_each]. rewrite (bind_ok _ _ _ _ _ E). split; [done|]. split; [done|].
  rewrite Hp1, add_point_points by done. by rewrite <- app_assoc.
Qed.

(** C14: With the index kept from the first point on and tags with values in the query, the
    indexed scan and the scan of all pages both return, and agree up to the order of the points
    where the query has an upper time bound ([stop] is not 0) or names no tag: both return the
    points in the time range that carry all the tags.  Where [stop] is 0 and tags are given they
    differ: 0 is no upper bound for the index, which returns every point with the tags from
    [start] on, and is the bound 0 for the scan of all pages. *)
Theorem index_answers_as_scan p pts window now start stop tags :
  pf_files p (S (length pts)) FirstDataPageID ∅ -> Forall (fun pt => point_ok pt /\ tags_ok pt) pts ->
  map_Forall (fun _ v => v <> []) tags ->
  exists s indexed s1 scanned s2,
    bind (Open None) (fun _ => for_each pts (AppendPoint None)) (NewStoreWithIndex p (Some (NewTagIndex window now))) = (Ok tt, s) /\
    ScanRangeWithIndex None start stop tags s = (Ok indexed, s1) /\
    ScanRange None start stop tags s = (Ok scanned, s2) /\
    scanned = List.filter (fun pt => in_range start stop pt && bool_decide (matchTags (Tags pt) tags = Some true)) pts /\
    (stop <> 0 \/ tags = ∅ -> indexed ≡ₚ scanned) /\
    (stop = 0 -> tags <> ∅ ->
      indexed ≡ₚ List.filter (fun pt => (start <=? Timestamp pt) && bool_decide (matchTags (Tags pt) tags = Some true)) pts).
Proof.
  intros Hp Hpts Hv. destruct (append_all_indexed p pts window now Hp Hpts) as (s & pps & E & Hs & <-).
  destruct (ScanRange_ok s 0 pps start stop tags) as (s2 & E2 & _); [apply Hs|right; apply Hs|].
  destruct (decide (tags = ∅)) as [->|Hne].
  - destruct (query_without_tags s 0 pps start stop Hs) as (s1 & E1 & _). exists s. do 4 eexists. by split_and!.
  - destruct (query_indexed s 0 pps start stop tags Hs Hne Hv) as (r & s1 & E1 & _ & Hperm).
    exists s, r, s1. do 2 eexists. split_and!; try done.
    + intros [Hstop|?]; [|done]. etransitivity; [exact Hperm|]. apply Permutation_refl', filter_ext.
      intros pt. by apply found_selected.
    + intros -> _. etransitivity; [exact Hperm|]. apply Permutation_refl', filter_ext. intros pt. apply found_unbounded.
Qed.

(** ** An index of a new process *)

Lemma map_order_singleton (k v : list byte) : map_order (map_to_list ({[k := v]} : tag_pairs)) = [(k, v)].
Proof. apply Permutation_singleton_r. by rewrite map_order_perm, map_to_list_singleton. Qed.

Lemma sorted_last {A} (R : A -> A -> Prop) l x : StronglySorted R (l ++ [x]) -> Forall (fun y => R y x) l.
Proof.
  induction l as [|y l IH]; [constructor|]. cbn. inversion 1 as [|? ? Hs Hy]; subst. constructor; [|by apply IH].
  apply Forall_app in Hy as [_ Hy]. by inversion Hy.
Qed.

(** After a restart the index is empty, and a point appended then hides the older points
    with its tag from a query by that tag, although a scan finds them. *)
Theorem restart_hides_points s n pps window now pt k v start stop :
  metrics_rel s (S n) pps -> tagIndex s = Some (NewTagIndex window now) -> Forall tags_ok (points pps) ->
  point_ok pt -> tags_ok pt -> pairs_of (Tags pt) !! k = Some v -> start <= Timestamp pt <= stop -> stop <> 0 ->
  exists s1 s2 s3, AppendPoint None pt s = (Ok tt, s1) /\
    ScanRangeWithIndex None start stop {[k := v]} s1 = (Ok [pt], s2) /\
    ScanRange None start stop {[k := v]} s1 = (Ok (List.filter (selected start stop {[k := v]}) (points pps ++ [pt])), s3).
Proof.
  intros Hr Hi Ht Hpt Htag Hkv Hrange Hstop.
  destruct (append_indexed s n pps pt _ [] Hr Hpt Htag Hi (empty_complete _ _)) as (s1 & idx & E1 & Hr1 & Hi1 & Hc1). cbn [app] in Hc1.
  assert (pps <> []) as Hne by (by eapply rel_not_nil).
  assert (Forall tags_ok (points (add_point pt pps))) as Ht1.
  { rewrite add_point_points by done. apply Forall_app. split; [done|]. by apply Forall_singleton. }
  set (known := fun lp : RecordLocator * Point => bool_decide (lp.1 = next_loc pt pps)).
  assert (List.filter known (located FirstDataPageID (add_point pt pps)) = [(next_loc pt pps, pt)]) as Hk.
  { rewrite located_add by done. rewrite List.filter_app. cbn. unfold known at 2. cbn. rewrite bool_decide_true by done.
    assert (List.filter known (located FirstDataPageID pps) = []) as ->; [|done].
    pose proof (located_sorted FirstDataPageID (add_point pt pps)) as Hs. rewrite located_add in Hs by done.
    unfold sorted_locs in Hs. rewrite map_app in Hs. cbn in Hs.
    apply sorted_last in Hs. clear -Hs. induction (located FirstDataPageID pps) as [|[x q] l IH]; [done|].
    cbn in *. inversion Hs as [|? ? Hx Hl]; subst. unfold known. cbn. rewrite bool_decide_false; [by apply IH|].
    intros ->. unfold loc_lt in Hx. lia. }
  rewrite <- Hk in Hc1.
  destruct (query_ok s1 n (add_point pt pps) idx known start stop {[k := v]} Hr1 Hi1 Hc1 Ht1) as (r & s2 & E2 & _ & _ & Hp).
  { apply insert_non_empty. }
  destruct (ScanRange_ok s1 n _ start stop {[k := v]} Hr1 (or_intror Ht1)) as (s3 & E3 & _).
  rewrite add_point_points in E3 by done. exists s1, s2, s3. split; [exact E1|]. split; [|exact E3].
  assert (r = [pt]) as ->; [|exact E2].
  rewrite map_order_singleton in Hp. cbn zeta in Hp. rewrite <- !filter_filter, Hk in Hp.
  assert (has_tags [(k, v)] (next_loc pt pps, pt) = true) as Hh by (cbn; unfold has_tag; cbn; by rewrite bool_decide_true).
  cbn [List.filter] in Hp. rewrite Hh in Hp. cbn [List.filter snd] in Hp.
  assert (reached start stop pt = true) as Hreach.
  { unfold reached. rewrite (proj2 (Z.leb_le _ _)), (proj2 (Z.leb_le (Timestamp pt) _)) by lia. by rewrite orb_true_r. }
  rewrite Hreach in Hp. by apply Permutation_singleton_r.
Qed.
End queries.

(** * The metric store where it does not do what it means to: a page left empty by a crash,
    tags that panic, tags in JSON; and what a sweep of the tag index keeps. *)

(** * Splitting tags *)

Lemma strip_prefix_no (c : byte) p s s' : strip_prefix p s = Some s' -> c ∉ s -> c ∉ s'.
Proof.
  revert s. induction p as [|b p IH]; intros s; cbn; [by intros [= ->]|]. destruct s as [|d s]; [done|].
  destruct (bool_decide _); [|done]. intros E Hc. apply (IH s E). set_solver.
Qed.

Lemma trim_front_no (c : byte) fuel runes s : c ∉ s -> c ∉ trim_front fuel runes s.
Proof.
  revert s. induction fuel as [|fuel IH]; intros s Hc; cbn [trim_front]; [done|].
  destruct (head _) as [s'|] eqn:E; [|done]. apply IH. apply head_Some_elem_of in E.
  apply list_elem_of_omap in E as (r & _ & E). by eapply strip_prefix_no.
Qed.

Lemma rev_no (c : byte) (s : list byte) : c ∉ s -> c ∉ rev s.
Proof. intros Hc Hin. apply Hc. apply list_elem_of_In, in_rev, list_elem_of_In, Hin. Qed.

Lemma trim_no (c : byte) runes s : c ∉ s -> c ∉ trim runes s.
Proof. intros Hc. unfold trim, trim_left. by apply rev_no, trim_front_no, rev_no, trim_front_no. Qed.

Lemma split_once_no (c : byte) s : c ∉ s -> split_once c s = None.
Proof.
  induction s as [|b s IH]; [done|]. intros Hc. cbn. rewrite bool_decide_false by set_solver. rewrite IH by set_solver. done.
Qed.

Lemma split_on_no (c sep : byte) s : c ∉ s -> Forall (fun p => c ∉ p) (split_on sep s).
Proof.
  induction s as [|b s IH]; intros Hc; cbn; [repeat constructor; set_solver|]. specialize (IH ltac:(set_solver)).
  destruct (bool_decide _); [constructor; [set_solver|done]|]. destruct (split_on sep s); [repeat constructor; set_solver|].
  inversion IH; subst. constructor; [set_solver|done].
Qed.

(** Without an equals sign there is no pair. *)
Lemma no_pairs m ps : Forall (fun p => x3d ∉ p) ps -> foldl add_pair m ps = m.
Proof.
  intros Hp. revert m. induction Hp as [|p ps Hp _ IH]; intros m; [done|]. cbn [foldl]. rewrite IH. unfold add_pair.
  by rewrite split_once_no by by apply trim_no.
Qed.

Lemma removelast_no (c : byte) s : c ∉ s -> c ∉ removelast s.
Proof. induction s as [|b s IH]; [done|]. intros Hc. cbn. destruct s; [set_solver|]. set_solver. Qed.

(** The code means to read tags written as a JSON object, but it splits at equals signs:
    such tags match no constraint. *)
Theorem json_tags_never_match body required :
  body <> [] -> x3d ∉ body -> required <> ∅ -> map_Forall (fun _ v => v <> []) required ->
  matchTags (x7b :: body) required = Some false.
Proof.
  intros Hb He Hne Hv. unfold matchTags. rewrite decide_False by done.
  assert (splitTagPairs (x7b :: body) = Some ∅) as ->.
  { unfold splitTagPairs. rewrite bool_decide_true by done. destruct body as [|b body]; [done|].
    rewrite no_pairs; [done|]. by apply split_on_no, removelast_no. }
  cbn [mbind option_bind]. f_equal. apply not_true_iff_false. intros Hall. rewrite forallb_forall in Hall.
  destruct (map_choose required Hne) as (k & v & Hkv). specialize (Hall (k, v)). rewrite <- list_elem_of_In in Hall.
  specialize (Hall (proj2 (elem_of_map_to_list _ _ _) Hkv)). unfold has_pair in Hall. apply bool_decide_eq_true in Hall. cbn in Hall.
  by apply (Hv k v Hkv).
Qed.

(** * Sweeping *)

(** A sweep keeps the locators of the retention window under each tag. *)
Theorem sweep_keeps_window now idx k v :
  locs_at (index (Sweep now idx)) k v =
    filter (fun loc => (now - retentionWindow idx) / 10 ^ 9 <= loc_Timestamp loc) (locs_at (index idx) k v).
Proof.
  unfold Sweep, locs_at. cbn [index]. rewrite lookup_omap. destruct (index idx !! k) as [vals|]; [|done]. cbn [mbind option_bind default from_option id].
  set (vals' := omap (keep_vals _) vals).
  assert (default [] (vals' !! v) = filter (fun loc => (now - retentionWindow idx) / 10 ^ 9 <= loc_Timestamp loc) (default [] (vals !! v))) as Hv.
  { unfold vals'. rewrite lookup_omap. destruct (vals !! v) as [locs|]; [|done]. cbn. unfold keep_vals. by destruct (filter _ locs). }
  destruct (decide (vals' = ∅)) as [E|E]; cbn; [|exact Hv]. rewrite E, lookup_empty in Hv. exact Hv.
Qed.

(** * A page left empty *)

(** The header over the first eight bytes of a record. *)
Lemma header_over a rest n off :
  zlen a = 8 -> put32 4 off (put32 0 n (a ++ rest)) = le_encode 4 n ++ le_encode 4 off ++ rest.
Proof.
  intros Ha. unfold put32. pose proof (zlen_le_encode 4 n) as L1. pose proof (zlen_le_encode 4 off) as L2.
  pose proof (put_app 0 (le_encode 4 n) (le_encode 4 off) (a ++ rest)) as E. rewrite L1 in E. change (0 + Z.of_nat 4) with 4 in E.
  pose proof (zlen_nonneg rest). rewrite E by (rewrite ?zlen_app; lia). rewrite app_assoc.
  apply (put_middle [] a). rewrite zlen_app. lia.
Qed.

Section store.
Context {P : Type} `{FilePager P} `{GoRuntime}.
Implicit Types s : MetricsStore P.

(** The state of an open store whose last page is still zero: the process ended between the
    allocation of the page and the first write of it. *)
Record torn_rel s (n : nat) (c : Z) (m : gmap Z (list byte)) : Prop := {
  tr_opened : opened (ms_flat s) = true;
  tr_body : currentBody (ms_flat s) = zero_body;
  tr_pager : pf_rel (pager (ms_flat s)) n c m;
  tr_cur : is_Some (m !! currentPageID (ms_flat s)) }.

(** What such a store writes: the header in place of the timestamp. *)
Definition torn_page (pt : Point) : list byte :=
  le_encode 4 1 ++ le_encode 4 (serializedSize pt) ++
  (le_encode 2 (zlen (Tags pt)) ++ Tags pt ++ le_encode 2 (zlen (MetricName pt)) ++ MetricName pt ++ le_encode 8 (Value pt)) ++
  zrep (maxBodySize - serializedSize pt) x00.

Lemma zlen_fresh_body : zlen zero_body = maxBodySize.
Proof. change zero_body with (zrep maxBodySize x00). by apply zlen_rep. Qed.

Lemma torn_body pt :
  point_ok pt ->
  put32 4 (0 + serializedSize pt) (put32 0 (0 + 1) (write_point pt 0 zero_body)) = torn_page pt.
Proof.
  intros [_ _ Hs]. pose proof (size_pos pt). change headerSize with 8 in Hs. rewrite write_point_put by (rewrite ?zlen_fresh_body; lia).
  assert (zero_body = [] ++ zrep (serializedSize pt) x00 ++ zrep (maxBodySize - serializedSize pt) x00) as ->.
  { cbn [app]. change zero_body with (zrep maxBodySize x00). rewrite zrep_app by lia. f_equal. lia. }
  rewrite (put_middle [] _ _ (encodeRawPoint pt)) by (rewrite zlen_raw, zlen_rep; lia). cbn [app].
  unfold encodeRawPoint. rewrite <- !app_assoc, header_over by apply zlen_le_encode. unfold torn_page. by rewrite <- !app_assoc.
Qed.

Lemma append_torn s n c m pt :
  torn_rel s n c m -> tagIndex s = None -> point_ok pt ->
  exists s', AppendPoint None pt s = (Ok tt, s') /\ pf_rel (pager (ms_flat s')) n c (<[currentPageID (ms_flat s) := torn_page pt]> m).
Proof.
  intros [Ho Hb Hp Hc] Hi Hpt. pose proof (po_size _ Hpt) as Hsz.
  assert (zlen (torn_page pt) = DataPageBodySize) as Hz.
  { unfold torn_page. rewrite !zlen_app, !zlen_le_encode, zlen_rep by (unfold headerSize in Hsz; lia). unfold serializedSize, maxBodySize. lia. }
  destruct (pf_write _ _ _ _ (currentPageID (ms_flat s)) (torn_page pt) Hp Hc Hz) as (p & E & Hp').
  exists (mkMetrics (with_pager p (with_body (torn_page pt) (ms_flat s))) None). split; [|exact Hp'].
  unfold AppendPoint. erewrite bind_ok by (apply on_flat_ok; reflexivity). rewrite Ho. cbn [negb].
  rewrite (proj2 (Z.ltb_ge _ _)) by lia.
  assert (reserve headerSize None (serializedSize pt) (ms_flat s) = (Ok (0, 0), ms_flat s)) as Er.
  { unfold reserve, readNum, readNextWriteOffset. rewrite !bind_gets, Hb. change (get32 0 zero_body) with 0. change (get32 4 zero_body) with 0.
    rewrite (proj2 (Z.ltb_ge _ _)) by (unfold headerSize in Hsz; lia). done. }
  erewrite bind_ok by (apply on_flat_ok; exact Er). cbn [fst snd].
  erewrite bind_ok by (apply on_flat_ok; reflexivity). erewrite bind_ok by (apply on_flat_ok; reflexivity).
  cbn [ms_flat tagIndex with_body with_page currentPageID currentBody pager opened]. rewrite Hb, torn_body by done.
  erewrite bind_ok by (apply index_point_ok; cbn [tagIndex]; rewrite Hi; reflexivity).
  apply (on_flat_ok _ (mkMetrics _ None)). unfold flushPage, on_pager. cbn [ms_flat with_body with_page currentPageID currentBody pager opened].
  by rewrite E.
Qed.

(** The first point on a page left empty loses its timestamp: whatever it was, the file is
    the same. *)
Theorem torn_page_forgets_time s n c m pt t' :
  torn_rel s n c m -> tagIndex s = None -> point_ok pt -> i64 t' ->
  let pt' := mkPoint t' (Tags pt) (MetricName pt) (Value pt) in
  exists s1 s2 m', AppendPoint None pt s = (Ok tt, s1) /\ AppendPoint None pt' s = (Ok tt, s2) /\
    pf_rel (pager (ms_flat s1)) n c m' /\ pf_rel (pager (ms_flat s2)) n c m'.
Proof.
  intros Hr Hi Hpt Ht pt'. assert (point_ok pt') as Hpt' by (destruct Hpt; by split).
  destruct (append_torn s n c m pt Hr Hi Hpt) as (s1 & E1 & H1'). destruct (append_torn s n c m pt' Hr Hi Hpt') as (s2 & E2 & H2').
  by exists s1, s2, (<[currentPageID (ms_flat s) := torn_page pt]> m).
Qed.

(** * Tags that panic *)

Lemma scan_points_panic start stop tags pts pt :
  pt ∈ pts -> in_range start stop pt = true -> tags <> ∅ -> splitTagPairs (Tags pt) = None ->
  scan_points start stop tags pts = Err ErrPanic.
Proof.
  intros Hin Hr Hne Hs. induction pts as [|p pts IH]; [by apply not_elem_of_nil in Hin|]. cbn [scan_points].
  apply elem_of_cons in Hin as [<-|Hin].
  - rewrite Hr. cbn [negb]. unfold matchTags. rewrite decide_False, Hs by done. done.
  - rewrite (IH Hin). destruct (in_range start stop p); cbn [negb]; [|done]. by destruct (matchTags _ _).
Qed.

Lemma scan_points_ok_or_panic start stop tags pts :
  scan_points start stop tags pts = Err ErrPanic \/ exists r, scan_points start stop tags pts = Ok r.
Proof.
  induction pts as [|p pts IH]; cbn [scan_points]; [by right; eexists|]. destruct (negb _); [done|].
  destruct IH as [->|[r ->]]; destruct (matchTags _ _); eauto.
Qed.

Lemma scan_pages_panic (s : flat P) n c pages skip (page : list byte -> res store_err (list Point)) ids id pts :
  flat_rel headerSize encodeRawPoint s n c pages -> Forall (fun id => is_Some (pages !! id)) ids ->
  (forall body, page body = Err ErrPanic \/ exists r, page body = Ok r) ->
  id ∈ ids -> pages !! id = Some pts -> page (image headerSize encodeRawPoint pts) = Err ErrPanic ->
  exists f : flat P, scan_pages None skip page ids s = (Err ErrPanic, f).
Proof.
  intros Hr Hids Hpage Hin Hl Hp. revert s Hr. induction Hids as [|i ids [ps Hps] _ IH]; intros s Hr; [by apply not_elem_of_nil in Hin|].
  cbn [scan_pages]. destruct (pf_read (pager s) n c (image headerSize encodeRawPoint <$> pages) i (image headerSize encodeRawPoint ps)) as (p & E & Hp').
  { apply Hr. } { by rewrite lookup_fmap, Hps. }
  rewrite E. assert (flat_rel headerSize encodeRawPoint (with_pager p s) n c pages) as Hr' by (destruct Hr; by split).
  destruct (decide (i = id)) as [->|Hne].
  - assert (ps = pts) as -> by congruence. rewrite Hp. by eexists.
  - apply elem_of_cons in Hin as [?|Hin]; [congruence|]. destruct (Hpage (image headerSize encodeRawPoint ps)) as [->|[r ->]]; [by eexists|].
    rewrite bind_lift. destruct (IH Hin _ Hr') as (s' & E'). exists s'. by rewrite (bind_err _ _ _ _ _ E').
Qed.

(** A point whose tags are an opening brace is stored; afterwards every query by tags over
    its time panics. *)
Theorem brace_tags_break_queries s n pps pt start stop tags :
  metrics_rel s (S n) pps -> tagIndex s = None -> point_ok pt -> Tags pt = [x7b] ->
  start <= Timestamp pt <= stop -> tags <> ∅ ->
  exists s1 s2, AppendPoint None pt s = (Ok tt, s1) /\ ScanRange None start stop tags s1 = (Err ErrPanic, s2).
Proof.
  intros Hr Hi Hpt Ht Hrange Hne.
  destruct (append_ok s n pps pt None Hr Hpt) as (s1 & E1 & Hr1 & _); [unfold indexed; by rewrite Hi|].
  assert (pt ∈ points (add_point pt pps)) as Hin.
  { rewrite add_point_points by (by eapply rel_not_nil). apply elem_of_app. right. by apply list_elem_of_singleton. }
  apply list_elem_of_In, in_concat in Hin as (pts & Hpts & Hin). apply list_elem_of_In, list_elem_of_lookup in Hpts as (i & Hpts).
  apply list_elem_of_In in Hin. set (pps1 := add_point pt pps) in *. pose proof (mr_flat _ _ _ Hr1) as Hf. destruct Hr1 as [[_ Hc] Hok].
  assert (table pps1 !! (FirstDataPageID + Z.of_nat i) = Some pts) as Hl.
  { apply lookup_map_seqZ_Some. split; [lia|]. by replace (Z.to_nat _) with i by lia. }
  destruct (scan_pages_panic (ms_flat s1) n _ _ no_error (fun body => scan_points start stop tags (decodePage body))
    (seqZ FirstDataPageID (zlen pps1)) (FirstDataPageID + Z.of_nat i) pts Hf) as (f & E).
  - apply Forall_forall. intros id Hid. apply list_elem_of_In, list_elem_of_In, elem_of_seqZ in Hid. by apply table_dense.
  - intros body. apply scan_points_ok_or_panic.
  - apply elem_of_seqZ. apply lookup_lt_Some in Hpts. unfold zlen. lia.
  - done.
  - unfold decodePage. rewrite (decode_img headerSize encodeRawPoint hs_ok parse_point point_ok parse_raw); [|by eapply table_Forall|by apply (fr_fits _ _ _ _ _ _ Hf _ _ Hl)].
    apply (scan_points_panic _ _ _ _ pt); [done| |done|by rewrite Ht].
    unfold in_range. rewrite (proj2 (Z.leb_le _ _)), (proj2 (Z.leb_le (Timestamp pt) _)) by lia. done.
  - exists s1, (mkMetrics f (tagIndex s1)). split; [done|]. unfold ScanRange. erewrite bind_ok by (apply on_flat_ok; reflexivity).
    rewrite (fr_opened _ _ _ _ _ _ Hf). cbn [negb].
    assert (mkMetrics (ms_flat s1) (tagIndex s1) = s1) as -> by (by destruct s1). unfold on_flat, scan_all.
    erewrite bind_ok; cycle 1.
    { unfold on_pager. rewrite (pf_count _ _ _ _ (fr_pager _ _ _ _ _ _ Hf)). reflexivity. }
    assert (with_pager (pager (ms_flat s1)) (ms_flat s1) = ms_flat s1) as -> by (by destruct (ms_flat s1)).
    rewrite Z.add_simpl_l, E. done.
Qed.
End store.
