(* ===== verification/Rollup.v ===== *)
(** [internal/engine/metrics/rollup.go]: the buckets of downsampled points.

    The manager reads the pages of the metric store and keeps its own pages, a flat store
    with a header of twelve bytes.  A resolution is its number of whole seconds.  A float is
    its bits, as in a point; a sum that is not a number has those of [math.NaN()].  The
    goroutine runs [tick]. *)

From Stdlib Require Import ZArith Lia SpecFloat.
From stdpp Require Import gmap list.
From Stdlib Require Import ZArith Lia SpecFloat Permutation.
From S2P Require Import Agg Prelude Page Monad PagerSpec PagerFile FlatStore FlatList GoRuntime MetricsPoint Metrics.
Open Scope Z_scope.
Open Scope st_scope.

Definition rollupHeaderSize : Z := 12.
Definition rollupBucketSize : Z := 8 + 4 + 8 + 8 + 8.

Record RollupBucket := mkBucket {
  BucketStart : Z; PointCount : Z; SumValue : Z; MinValue : Z; MaxValue : Z }.

(** * Floats and their bits *)

(** [math.Float64frombits] *)
Definition Float64frombits (b : Z) : spec_float :=
  let s := Z.testbit b 63 in
  let e := (b / 2 ^ 52) mod 2 ^ 11 in
  let m := b mod 2 ^ 52 in
  if e =? 2047 then (if m =? 0 then S754_infinity s else S754_nan)
  else if e =? 0 then match m with Z.pos p => S754_finite s p (-1074) | _ => S754_zero s end
  else match m + 2 ^ 52 with Z.pos p => S754_finite s p (e - 1075) | _ => S754_nan end.

Definition sign_bit (s : bool) : Z := if s then 2 ^ 63 else 0.

(** [math.Float64bits] *)
Definition Float64bits (f : spec_float) : Z :=
  wrap64 match f with
  | S754_nan => 0x7FF8000000000001
  | S754_infinity s => sign_bit s + 2047 * 2 ^ 52
  | S754_zero s => sign_bit s
  | S754_finite s m e =>
      sign_bit s + (if Z.pos m <? 2 ^ 52 then Z.pos m else (e + 1075) * 2 ^ 52 + (Z.pos m - 2 ^ 52))
  end.

Definition add_float64 (a b : Z) : Z := Float64bits (float64_add (Float64frombits a) (Float64frombits b)).
Definition less_float64 (a b : Z) : bool := SFltb (Float64frombits a) (Float64frombits b).

(** * Buckets in bytes *)

Definition encodeRollup (rb : RollupBucket) : list byte :=
  le_encode 8 (wrap64 (BucketStart rb)) ++ le_encode 4 (PointCount rb) ++ le_encode 8 (SumValue rb) ++
  le_encode 8 (MinValue rb) ++ le_encode 8 (MaxValue rb).

(** The writes of [appendRollupBucket]. *)
Definition write_bucket (rb : RollupBucket) (off : Z) (body : list byte) : list byte :=
  let body := put64 off (wrap64 (BucketStart rb)) body in
  let off := off + 8 in
  let body := put32 off (PointCount rb) body in
  let off := off + 4 in
  let body := put64 off (SumValue rb) body in
  let off := off + 8 in
  let body := put64 off (MinValue rb) body in
  let off := off + 8 in
  put64 off (MaxValue rb) body.

(** One round of the loop of [decodeRollupPage]. *)
Definition parse_bucket (rest : list byte) : option (RollupBucket * list byte) :=
  if zlen rest <? rollupBucketSize then None
  else
    Some (mkBucket (swrap64 (le_decode (slice rest 0 8))) (le_decode (slice rest 8 12))
            (le_decode (slice rest 12 20)) (le_decode (slice rest 20 28)) (le_decode (slice rest 28 36)), zdrop 36 rest).

Definition decodeRollupPage (body : list byte) : list RollupBucket := decode_records parse_bucket rollupHeaderSize body.

(** * Aggregation *)

Record bucketAcc := mkAcc { acc_count : Z; acc_sum : Z; acc_min : Z; acc_max : Z; hasFirst : bool }.

Definition empty_acc : bucketAcc := mkAcc 0 0 0 0 false.

Definition add_value (v : Z) (acc : bucketAcc) : bucketAcc :=
  let count := wrap32 (acc_count acc + 1) in
  let sum := add_float64 (acc_sum acc) v in
  if negb (hasFirst acc) then mkAcc count sum v v true
  else mkAcc count sum (if less_float64 v (acc_min acc) then v else acc_min acc) (if less_float64 (acc_max acc) v then v else acc_max acc) true.

(** Division truncates. *)
Definition bucket_start (bucketSecs ts : Z) : Z := swrap64 (Z.quot ts bucketSecs * bucketSecs).

Definition add_to_bucket (bucketSecs : Z) (m : gmap Z bucketAcc) (pt : Point) : gmap Z bucketAcc :=
  let b := bucket_start bucketSecs (Timestamp pt) in
  <[b := add_value (Value pt) (default empty_acc (m !! b))]> m.

Definition bucket_of (kv : Z * bucketAcc) : RollupBucket :=
  mkBucket kv.1 (acc_count kv.2) (acc_sum kv.2) (acc_min kv.2) (acc_max kv.2).

Record RollupManager (P : Type) := mkRollup { sourceStore : option (MetricsStore P); rm_flat : flat P; resolutions : list Z }.
Arguments mkRollup {P}.
Arguments sourceStore {P}.
Arguments rm_flat {P}.
Arguments resolutions {P}.

Section rollup.
Context {P : Type} `{FilePagerOps P} `{GoRuntime}.
Implicit Types s : RollupManager P.

Definition rstore : Type -> Type := st (RollupManager P) store_err.

Definition NewRollupManager (source : option (MetricsStore P)) (pg : P) (res : list Z) : RollupManager P :=
  mkRollup source (FlatStore.NewStore pg) res.

Definition on_rollup {A} (c : st (flat P) store_err A) : rstore A := fun s =>
  let '(r, f) := c (rm_flat s) in (r, mkRollup (sourceStore s) f (resolutions s)).

Definition on_source {A} (c : st (MetricsStore P) store_err A) : rstore A := fun s =>
  match sourceStore s with
  | None => (Err ErrPanic, s)
  | Some m => let '(r, m') := c m in (r, mkRollup (Some m') (rm_flat s) (resolutions s))
  end.

(** The errors [ErrRollupAlreadyOpen] and [ErrRollupNotOpen] are those of the flat store. *)
Definition OpenRollup (cx : ctx) : rstore unit :=
  o <- on_rollup (gets opened) ;;
  if o then fail ErrStoreAlreadyOpen
  else
    src <- gets sourceStore ;;
    match src with
    | None => fail ErrRollupNoSource
    | Some _ => on_rollup (FlatStore.Open rollupHeaderSize cx)
    end.

Definition CloseRollup (cx : ctx) : rstore unit := on_rollup (FlatStore.Close cx).

(** Without [Open] there is no page, and reading its header panics. *)
Definition appendRollupBucket (cx : ctx) (rb : RollupBucket) : rstore unit :=
  on_rollup (
    body <- gets currentBody ;;
    if zlen body <? 8 then fail ErrPanic
    else
      ' (numBuckets, off) <- reserve rollupHeaderSize cx rollupBucketSize ;;
      modify (fun f => with_body (write_bucket rb off (currentBody f)) f) ;;;
      writeHeader (numBuckets + 1) (off + rollupBucketSize) ;;;
      flushPage cx).

(** All points of the metric store; pages that cannot be read are passed over. *)
Definition source_points (cx : ctx) : rstore (list Point) :=
  on_source (on_flat (scan_all cx (fun _ => true) (fun body => Ok (decodePage body)))).

Definition downsample (cx : ctx) (seconds : Z) : rstore unit :=
  let bucketSecs := if seconds <? 1 then 1 else seconds in
  points <- source_points cx ;;
  let buckets := foldl (add_to_bucket bucketSecs) ∅ points in
  for_each (map_order (map_to_list buckets)) (fun kv => appendRollupBucket cx (bucket_of kv)).

Definition ForceDownsample : ctx -> Z -> rstore unit := downsample.

(** One tick of [runLoop]. *)
Definition tick (cx : ctx) : rstore unit := fun s =>
  for_each (resolutions s) (fun r => ignore (downsample cx r)) s.

Definition ScanRollups (cx : ctx) (start stop : Z) : rstore (list RollupBucket) :=
  on_rollup (scan_all cx (fun _ => true) (fun body =>
    Ok (List.filter (fun rb => (start <=? BucketStart rb) && (BucketStart rb <=? stop)) (decodeRollupPage body)))).
End rollup.

(** * The theorems of the rollups: the bits of floats, the buckets of a downsampling, and
    what repeating it does. *)

(** * Floats *)

Lemma digits_bounds m : 2 ^ (Z.pos (digits2_pos m) - 1) <= Z.pos m < 2 ^ Z.pos (digits2_pos m).
Proof.
  induction m as [m IH|m IH|]; cbn [digits2_pos]; [| |by vm_compute].
  all: rewrite Pos2Z.inj_succ; replace (Z.succ (Z.pos (digits2_pos m)) - 1) with (Z.pos (digits2_pos m)) by lia;
    rewrite Z.pow_succ_r by lia; replace (Z.pos (digits2_pos m)) with (Z.succ (Z.pos (digits2_pos m) - 1)) at 1 by lia;
    rewrite Z.pow_succ_r by lia; lia.
Qed.

Lemma finite_cases m e :
  bounded 53 1024 m e = true ->
  (2 ^ 52 <= Z.pos m < 2 ^ 53 /\ -1074 <= e <= 971) \/ (Z.pos m < 2 ^ 52 /\ e = -1074).
Proof.
  unfold bounded, canonical_mantissa, fexp, emin. rewrite andb_true_iff, Z.leb_le. intros [Hc He].
  apply Zeq_bool_eq in Hc. pose proof (digits_bounds m) as Hd.
  set (d := Z.pos (digits2_pos m)) in *. assert (0 < d) by (subst d; lia).
  destruct (decide (d = 53)) as [->|Hne]; [left; split; [exact Hd|lia]|]. right. split; [|lia].
  assert (d <= 52) by lia. assert (2 ^ d <= 2 ^ 52) by (apply Z.pow_le_mono_r; lia). lia.
Qed.

Lemma sign_bits s r : 0 <= r < 2 ^ 63 ->
  wrap64 (sign_bit s + r) = sign_bit s + r /\ Z.testbit (sign_bit s + r) 63 = s /\
  ((sign_bit s + r) / 2 ^ 52) mod 2 ^ 11 = r / 2 ^ 52 /\ (sign_bit s + r) mod 2 ^ 52 = r mod 2 ^ 52.
Proof.
  intros Hr. assert (0 <= sign_bit s + r < 2 ^ 64) as Hb by (destruct s; unfold sign_bit; lia).
  split; [by apply wrap64_id|]. split; [|split].
  - destruct (Z.testbit _ 63) eqn:E.
    + apply Z.testbit_true in E; [|lia]. destruct s; [done|]. cbn [sign_bit] in E. rewrite Z.add_0_l, Z.div_small in E by lia. done.
    + apply Z.testbit_false in E; [|lia]. destruct s; [|done]. unfold sign_bit in E.
      replace (2 ^ 63 + r) with (r + 1 * 2 ^ 63) in E by lia. rewrite Z.div_add, Z.div_small in E by lia. done.
  - destruct s; unfold sign_bit.
    + replace (2 ^ 63 + r) with (r + 2 ^ 11 * 2 ^ 52) by lia. rewrite Z.div_add by lia.
      rewrite <- (Z.mul_1_l (2 ^ 11)) at 1. rewrite Z.mod_add by lia. apply Z.mod_small. split; [apply Z.div_pos; lia|apply Z.div_lt_upper_bound; lia].
    + rewrite Z.add_0_l. apply Z.mod_small. split; [apply Z.div_pos; lia|apply Z.div_lt_upper_bound; lia].
  - destruct s; unfold sign_bit; [|done]. replace (2 ^ 63 + r) with (r + 2 ^ 11 * 2 ^ 52) by lia. by rewrite Z.mod_add by lia.
Qed.

(** The bits of a float give it back. *)
Theorem float_bits_roundtrip f : valid_binary 53 1024 f = true -> Float64frombits (Float64bits f) = f.
Proof.
  intros Hv. destruct f as [s|s| |s m e]; unfold Float64bits.
  - destruct (sign_bits s 0 ltac:(lia)) as (E & Es & Ee & Em). rewrite Z.add_0_r in *. unfold Float64frombits.
    rewrite E, Es, Ee, Em. done.
  - destruct (sign_bits s (2047 * 2 ^ 52) ltac:(lia)) as (E & Es & Ee & Em). unfold Float64frombits.
    rewrite E, Es, Ee, Em. done.
  - done.
  - cbn [valid_binary] in Hv. destruct (finite_cases m e Hv) as [[Hm He]|[Hm ->]].
    + rewrite (proj2 (Z.ltb_ge _ _)) by lia.
      destruct (sign_bits s ((e + 1075) * 2 ^ 52 + (Z.pos m - 2 ^ 52))) as (E & Es & Ee & Em); [nia|].
      unfold Float64frombits. rewrite E, Es, Ee, Em.
      rewrite Z.div_add_l, (Z.div_small (Z.pos m - 2 ^ 52)), Z.add_0_r by lia.
      rewrite (Z.add_comm (_ * _)), Z.mod_add, Z.mod_small by lia.
      rewrite (proj2 (Z.eqb_neq _ _)), (proj2 (Z.eqb_neq _ _)) by lia.
      replace (Z.pos m - 2 ^ 52 + 2 ^ 52) with (Z.pos m) by lia. f_equal. lia.
    + rewrite (proj2 (Z.ltb_lt _ _)) by lia. destruct (sign_bits s (Z.pos m)) as (E & Es & Ee & Em); [lia|].
      unfold Float64frombits. rewrite E, Es, Ee, Em. rewrite (Z.div_small (Z.pos m)), Z.mod_small by lia. done.
Qed.

(** * Buckets in bytes *)

Record bucket_ok (rb : RollupBucket) : Prop := {
  bo_start : i64 (BucketStart rb); bo_count : 0 <= PointCount rb < 2 ^ 32;
  bo_sum : u64 (SumValue rb); bo_min : u64 (MinValue rb); bo_max : u64 (MaxValue rb) }.

Lemma rhs_ok : 8 <= rollupHeaderSize <= maxBodySize.
Proof. vm_compute. by split. Qed.

Lemma zlen_rollup rb : zlen (encodeRollup rb) = rollupBucketSize.
Proof. unfold encodeRollup. by rewrite !zlen_app, !zlen_le_encode. Qed.

Lemma rollup_not_nil rb : encodeRollup rb <> [].
Proof. intros E. pose proof (zlen_rollup rb) as Hz. by rewrite E in Hz. Qed.

Lemma slice_middle {A} (a b c : list A) x y : x = zlen a -> y = x + zlen b -> slice (a ++ b ++ c) x y = b.
Proof.
  intros -> ->. pose proof (zlen_nonneg a). pose proof (zlen_nonneg b). rewrite slice_app_r by lia.
  rewrite slice_app_l by lia. apply slice_full; lia.
Qed.

Lemma slice_front {A} (a c : list A) y : y = zlen a -> slice (a ++ c) 0 y = a.
Proof. intros ->. apply (slice_middle [] a c); done. Qed.

Lemma parse_rollup rb rest : bucket_ok rb -> parse_bucket (encodeRollup rb ++ rest) = Some (rb, rest).
Proof.
  intros [H1 H2 H3 H4 H5]. pose proof (zlen_rollup rb) as Hz. unfold parse_bucket. rewrite zlen_app, Hz.
  pose proof (zlen_nonneg rest). rewrite (proj2 (Z.ltb_ge _ _)) by lia. rewrite (zdrop_app_eq 36) by (symmetry; exact Hz).
  unfold encodeRollup.
  pose proof (zlen_le_encode 8 (wrap64 (BucketStart rb))) as L1. pose proof (zlen_le_encode 4 (PointCount rb)) as L2.
  pose proof (zlen_le_encode 8 (SumValue rb)) as L3. pose proof (zlen_le_encode 8 (MinValue rb)) as L4.
  pose proof (zlen_le_encode 8 (MaxValue rb)) as L5.
  pose proof (decode_word _ (wrap64_range (BucketStart rb))) as D1. pose proof (le_decode_encode 4 _ H2 : le_decode (le_encode 4 (PointCount rb)) = _) as D2.
  pose proof (decode_word _ H3) as D3. pose proof (decode_word _ H4) as D4. pose proof (decode_word _ H5) as D5.
  revert L1 L2 L3 L4 L5 D1 D2 D3 D4 D5. generalize (le_encode 8 (wrap64 (BucketStart rb))) (le_encode 4 (PointCount rb)) (le_encode 8 (SumValue rb))
    (le_encode 8 (MinValue rb)) (le_encode 8 (MaxValue rb)). intros a b c d e L1 L2 L3 L4 L5 D1 D2 D3 D4 D5.
  rewrite <- !app_assoc. rewrite (slice_front a) by (by rewrite L1).
  rewrite (slice_middle a b) by (rewrite ?L1, ?L2; done).
  rewrite (app_assoc a b). rewrite (slice_middle (a ++ b) c) by (rewrite ?zlen_app, ?L1, ?L2, ?L3; done).
  rewrite (app_assoc (a ++ b) c). rewrite (slice_middle ((a ++ b) ++ c) d) by (rewrite ?zlen_app, ?L1, ?L2, ?L3, ?L4; done).
  rewrite (app_assoc ((a ++ b) ++ c) d). rewrite (slice_middle (((a ++ b) ++ c) ++ d) e) by (rewrite ?zlen_app, ?L1, ?L2, ?L3, ?L4, ?L5; done).
  rewrite D1, D2, D3, D4, D5, swrap64_wrap64 by done. by destruct rb.
Qed.

Lemma write_bucket_put rb off body :
  0 <= off -> off + rollupBucketSize <= zlen body -> write_bucket rb off body = put off (encodeRollup rb) body.
Proof.
  intros Ho Hle. unfold rollupBucketSize in Hle. unfold write_bucket, put32, put64, encodeRollup.
  pose proof (zlen_le_encode 8 (wrap64 (BucketStart rb))) as L1. pose proof (zlen_le_encode 4 (PointCount rb)) as L2.
  pose proof (zlen_le_encode 8 (SumValue rb)) as L3. pose proof (zlen_le_encode 8 (MinValue rb)) as L4.
  pose proof (zlen_le_encode 8 (MaxValue rb)) as L5.
  revert L1 L2 L3 L4 L5. generalize (le_encode 8 (wrap64 (BucketStart rb))) (le_encode 4 (PointCount rb)) (le_encode 8 (SumValue rb))
    (le_encode 8 (MinValue rb)) (le_encode 8 (MaxValue rb)). intros a b c d e L1 L2 L3 L4 L5.
  replace (off + 8) with (off + zlen a) by lia. rewrite (put_app off a b) by lia.
  replace (off + zlen a + 4) with (off + zlen (a ++ b)) by (rewrite zlen_app; lia). rewrite (put_app off (a ++ b) c) by (rewrite ?zlen_app; lia).
  replace (off + zlen (a ++ b) + 8) with (off + zlen ((a ++ b) ++ c)) by (rewrite !zlen_app; lia).
  rewrite (put_app off _ d) by (rewrite ?zlen_app; lia).
  replace (off + zlen ((a ++ b) ++ c) + 8) with (off + zlen (((a ++ b) ++ c) ++ d)) by (rewrite !zlen_app; lia).
  rewrite (put_app off _ e) by (rewrite ?zlen_app; lia). by rewrite <- !app_assoc.
Qed.

(** * The points of a bucket *)

Definition collect (secs : Z) (pts : list Point) : gmap Z bucketAcc := foldl (add_to_bucket secs) ∅ pts.

Definition bucket_values (secs b : Z) (pts : list Point) : list Z :=
  map Value (List.filter (fun pt => bucket_start secs (Timestamp pt) =? b) pts).

Definition pick (better : Z -> Z -> bool) (vs : list Z) : Z :=
  match vs with [] => 0 | v :: vs' => foldl (fun m v => if better v m then v else m) v vs' end.

(** What a bucket is meant to be: count, sum in the order of the points, minimum, maximum. *)
Definition bucket_spec (secs b : Z) (pts : list Point) : RollupBucket :=
  let vs := bucket_values secs b pts in
  mkBucket b (wrap32 (zlen vs)) (foldl add_float64 0 vs) (pick less_float64 vs) (pick (fun v m => less_float64 m v) vs).

Definition acc_of (vs : list Z) : bucketAcc := foldl (fun acc v => add_value v acc) empty_acc vs.

Lemma pick_snoc better v vs w : pick better ((v :: vs) ++ [w]) = if better w (pick better (v :: vs)) then w else pick better (v :: vs).
Proof. cbn. by rewrite foldl_app. Qed.

Lemma acc_of_spec v vs :
  acc_of (v :: vs) = mkAcc (wrap32 (zlen (v :: vs))) (foldl add_float64 0 (v :: vs)) (pick less_float64 (v :: vs))
    (pick (fun v m => less_float64 m v) (v :: vs)) true.
Proof.
  induction vs as [|w vs IH] using rev_ind; [done|]. unfold acc_of in *. rewrite app_comm_cons, foldl_app, IH. cbn [foldl].
  unfold add_value. cbn [hasFirst negb acc_count acc_sum acc_min acc_max]. rewrite !pick_snoc, foldl_app, zlen_app. cbn [foldl].
  f_equal. unfold wrap32. rewrite Zplus_mod_idemp_l. done.
Qed.

Lemma collect_lookup secs pts b :
  collect secs pts !! b = match bucket_values secs b pts with [] => None | vs => Some (acc_of vs) end.
Proof.
  induction pts as [|pt pts IH] using rev_ind; [done|]. unfold collect, bucket_values in *. rewrite foldl_app, List.filter_app, map_app.
  cbn [foldl List.filter]. unfold add_to_bucket at 1. destruct (Z.eqb_spec (bucket_start secs (Timestamp pt)) b) as [->|Hne].
  - rewrite lookup_insert_eq, IH. cbn [map]. destruct (map Value _) as [|v vs]; [done|]. cbn. unfold acc_of. cbn. by rewrite foldl_app.
  - rewrite lookup_insert_ne by done. cbn [map]. by rewrite app_nil_r.
Qed.

(** The buckets of a downsampling. *)
Definition summary (secs : Z) (pts : list Point) : list RollupBucket := map bucket_of (map_to_list (collect secs pts)).

Lemma summary_elem secs pts rb :
  rb ∈ summary secs pts <-> exists b, bucket_values secs b pts <> [] /\ rb = bucket_spec secs b pts.
Proof.
  unfold summary. rewrite list_elem_of_fmap. split.
  - intros ([b acc] & -> & Hin). apply elem_of_map_to_list in Hin. rewrite collect_lookup in Hin. exists b.
    unfold bucket_spec. destruct (bucket_values secs b pts) as [|v vs]; [done|]. split; [done|]. injection Hin as <-.
    rewrite acc_of_spec. done.
  - intros (b & Hne & ->). exists (b, acc_of (bucket_values secs b pts)). split.
    + unfold bucket_of, bucket_spec. destruct (bucket_values secs b pts) as [|v vs]; [done|]. by rewrite acc_of_spec.
    + apply elem_of_map_to_list. rewrite collect_lookup. by destruct (bucket_values secs b pts).
Qed.

Lemma summary_starts secs pts : NoDup (map BucketStart (summary secs pts)).
Proof. unfold summary. rewrite map_map. apply NoDup_fst_map_to_list. Qed.

Lemma collect_size secs pts : (size (collect secs pts) <= length pts)%nat.
Proof.
  induction pts as [|pt pts IH] using rev_ind; [done|]. unfold collect in *. rewrite foldl_app, length_app. cbn [foldl length].
  unfold add_to_bucket at 1. rewrite map_size_insert. destruct (_ !! _); cbn; lia.
Qed.

Lemma length_summary secs pts : (length (summary secs pts) <= length pts)%nat.
Proof. unfold summary. rewrite length_map, length_map_to_list. apply collect_size. Qed.

Lemma float_bits_range f : u64 (Float64bits f).
Proof. apply wrap64_range. Qed.

Lemma sum_range vs a : u64 a -> u64 (foldl add_float64 a vs).
Proof. revert a. induction vs as [|v vs IH]; intros a Ha; [done|]. apply IH, float_bits_range. Qed.

Lemma pick_range better vs : Forall u64 vs -> u64 (pick better vs).
Proof.
  intros Hv. destruct Hv as [|v vs Hv Hvs]; [done|]. cbn. revert v Hv. induction Hvs as [|w vs Hw _ IH]; intros v Hv; [done|].
  cbn. apply IH. by destruct (better w v).
Qed.

Lemma swrap64_in_range z : i64 (swrap64 z).
Proof. unfold swrap64, i64. pose proof (Z.mod_pos_bound (z + 2 ^ 63) (2 ^ 64) ltac:(lia)). lia. Qed.

Lemma summary_ok secs pts : Forall point_ok pts -> Forall bucket_ok (summary secs pts).
Proof.
  intros Hok. apply Forall_forall. intros rb Hrb. apply list_elem_of_In in Hrb. apply list_elem_of_In, summary_elem in Hrb as (b & Hne & ->).
  assert (Forall u64 (bucket_values secs b pts)) as Hv.
  { unfold bucket_values. apply Forall_forall. intros v Hin. apply list_elem_of_fmap in Hin as (pt & -> & Hin). apply list_elem_of_In in Hin.
    apply filter_In in Hin as [Hin _].
    rewrite Forall_forall in Hok. apply Hok. by apply list_elem_of_In. }
  split; cbn [BucketStart PointCount SumValue MinValue MaxValue bucket_spec]; try by apply pick_range; try done.
  - unfold bucket_values in Hne. destruct (List.filter _ pts) as [|pt l] eqn:E; [done|].
    assert (In pt (List.filter (fun pt => bucket_start secs (Timestamp pt) =? b) pts)) as Hin by (rewrite E; by left).
    apply filter_In in Hin as [_ Hb]. apply Z.eqb_eq in Hb. rewrite <- Hb. apply swrap64_in_range.
  - unfold wrap32. apply Z.mod_pos_bound. lia.
  - by apply sum_range.
Qed.

(** * Downsampling *)

Section rollup.
Context {P : Type} `{FilePager P} `{GoRuntimeLaws}.
Implicit Types s : RollupManager P.

(** The source holds the points of [pps], the rollup pages the buckets of [bps]. *)
Record rollup_rel s (n : nat) (pps : list (list Point)) (bps : list (list RollupBucket)) : Prop := {
  rr_source : exists src m, sourceStore s = Some src /\ metrics_rel src m pps;
  rr_dense : dense_rel rollupHeaderSize encodeRollup (rm_flat s) n bps;
  rr_ok : Forall (Forall bucket_ok) bps }.

Lemma on_rollup_ok {A} (c : st (flat P) store_err A) s a f :
  c (rm_flat s) = (Ok a, f) -> on_rollup c s = (Ok a, mkRollup (sourceStore s) f (resolutions s)).
Proof. intros E. unfold on_rollup. by rewrite E. Qed.

Lemma open_rollup src m pps p n res :
  metrics_rel src m pps -> pf_files p (S n) FirstDataPageID ∅ ->
  exists s, OpenRollup None (NewRollupManager (Some src) p res) = (Ok tt, s) /\ rollup_rel s n pps [[]].
Proof.
  intros Hsrc Hp. destruct (open_new rollupHeaderSize encodeRollup rhs_ok p n Hp) as (f & E & Hr).
  exists (mkRollup (Some src) f res). split; [|split; [by exists src, m|done|by repeat constructor]].
  unfold OpenRollup. erewrite bind_ok by (apply on_rollup_ok; reflexivity). cbn [opened FlatStore.NewStore rm_flat NewRollupManager].
  rewrite bind_gets. cbn [sourceStore]. by apply (on_rollup_ok _ (mkRollup _ _ _)).
Qed.

Lemma append_bucket_ok s n pps bps rb :
  rollup_rel s (S n) pps bps -> bucket_ok rb ->
  exists s', appendRollupBucket None rb s = (Ok tt, s') /\ rollup_rel s' n pps (add_rec rollupHeaderSize encodeRollup rb bps).
Proof.
  intros [Hsrc Hr Hok] Hrb.
  destruct (append_dense rollupHeaderSize encodeRollup rhs_ok rollup_not_nil (rm_flat s) n bps rb Hr) as (f1 & f2 & E);
    [rewrite zlen_rollup; by vm_compute|].
  destruct (next_place rollupHeaderSize encodeRollup rb bps) as [id off]. destruct E as (E1 & _ & Hoff & Hin & E2 & Hr2).
  rewrite zlen_rollup in *. exists (mkRollup (sourceStore s) f2 (resolutions s)).
  split; [|split; [exact Hsrc|exact Hr2|by apply add_rec_ok]].
  apply on_rollup_ok. rewrite bind_gets. destruct (fr_cur _ _ _ _ _ _ (dr_flat _ _ _ _ _ Hr)) as (rs & Hl & Hb).
  rewrite Hb, zlen_img by (apply rhs_ok || by apply (fr_fits _ _ _ _ _ _ (dr_flat _ _ _ _ _ Hr) _ _ Hl)).
  change (maxBodySize <? 8) with false. cbn iota.
  rewrite (bind_ok _ _ _ _ _ E1). rewrite bind_modify. unfold writeHeader. rewrite bind_modify.
  rewrite write_bucket_put by (unfold rollupHeaderSize in Hoff; lia). rewrite <- (zlen_rollup rb). exact E2.
Qed.

Lemma append_buckets_ok s n pps bps l :
  rollup_rel s (n + length l) pps bps -> Forall bucket_ok (map bucket_of l) ->
  exists s' bps', for_each l (fun kv => appendRollupBucket None (bucket_of kv)) s = (Ok tt, s') /\
    rollup_rel s' n pps bps' /\ concat bps' = concat bps ++ map bucket_of l.
Proof.
  revert s bps. induction l as [|kv l IH]; intros s bps Hr Hok; cbn [for_each map length] in *.
  - exists s, bps. rewrite app_nil_r. replace (n + 0)%nat with n in Hr by lia. done.
  - inversion Hok as [|? ? Hkv Hok']; subst. replace (n + S (length l))%nat with (S (n + length l)) in Hr by lia.
    destruct (append_bucket_ok s _ pps bps _ Hr Hkv) as (s1 & E1 & Hr1).
    destruct (IH s1 _ Hr1 Hok') as (s2 & bps' & E2 & Hr2 & Hc). exists s2, bps'. rewrite (bind_ok _ _ _ _ _ E1).
    split; [done|]. split; [done|]. rewrite Hc, add_rec_concat by (eapply dense_not_nil, Hr). by rewrite <- app_assoc.
Qed.

Lemma source_points_ok s n pps bps : rollup_rel s n pps bps ->
  exists s', source_points None s = (Ok (points pps), s') /\ rollup_rel s' n pps bps.
Proof.
  intros [(src & m & Hs & [Hd Hok]) Hr Hb].
  destruct (scan_dense headerSize encodeRawPoint hs_ok parse_point point_ok parse_raw (ms_flat src) m pps (fun _ => true)
    (fun pts => Ok pts) (fun pts => pts) Hd Hok) as (p & E & Hd'); [done|].
  exists (mkRollup (Some (mkMetrics (with_pager p (ms_flat src)) (tagIndex src))) (rm_flat s) (resolutions s)). split.
  - unfold source_points, on_source. rewrite Hs. erewrite (on_flat_ok _ src); [|exact E]. unfold points. by rewrite map_id.
  - split; [|done..]. eexists _, m. split; [done|]. by split.
Qed.

(** Each run of [downsample] adds the buckets of all points. *)
Lemma downsample_ok s n pps bps secs :
  rollup_rel s (n + length (points pps)) pps bps -> Forall (Forall point_ok) pps -> 1 <= secs ->
  exists s' bps', downsample None secs s = (Ok tt, s') /\ rollup_rel s' n pps bps' /\
    concat bps' ≡ₚ concat bps ++ summary secs (points pps).
Proof.
  intros Hr Hok Hsecs. destruct (source_points_ok _ _ _ _ Hr) as (s1 & E1 & Hr1).
  set (l := map_order (map_to_list (collect secs (points pps)))).
  assert (map bucket_of l ≡ₚ summary secs (points pps)) as Hp by (apply Permutation_map, map_order_perm).
  destruct (append_buckets_ok s1 n pps bps l) as (s2 & bps' & E2 & Hr2 & Hc).
  - pose proof (length_summary secs (points pps)) as Hle. rewrite <- Hp, length_map in Hle.
    destruct Hr1 as [H1' H2' H3']. split; [done| |done]. apply (dense_weaken _ _ _ (n + length (points pps))); [lia|exact H2'].
  - rewrite Hp. apply summary_ok. unfold points. by apply Forall_concat.
  - exists s2, bps'. split; [|split; [done|by rewrite Hc, Hp]]. unfold downsample. rewrite (bind_ok _ _ _ _ _ E1).
    rewrite (proj2 (Z.ltb_ge _ _)) by lia. exact E2.
Qed.

Definition bucket_in (start stop : Z) (rb : RollupBucket) : bool := (start <=? BucketStart rb) && (BucketStart rb <=? stop).

Lemma ScanRollups_ok s n pps bps start stop : rollup_rel s n pps bps ->
  exists s', ScanRollups None start stop s = (Ok (List.filter (bucket_in start stop) (concat bps)), s') /\ rollup_rel s' n pps bps.
Proof.
  intros [Hs Hr Hok].
  destruct (scan_dense rollupHeaderSize encodeRollup rhs_ok parse_bucket bucket_ok parse_rollup (rm_flat s) n bps (fun _ => true)
    (fun rbs => Ok (List.filter (bucket_in start stop) rbs)) (List.filter (bucket_in start stop)) Hr Hok) as (p & E & Hr'); [done|].
  rewrite filter_concat in E. exists (mkRollup (sourceStore s) (with_pager p (rm_flat s)) (resolutions s)).
  split; [by apply on_rollup_ok|]. split; done.
Qed.

(** C32: A downsampling of a store into new rollup pages, read back: one bucket for each bucket
    of time with a point in it, with the count, the sum, the minimum and the maximum of
    its points. *)
Theorem downsample_then_scan src m pps p res secs start stop :
  metrics_rel src m pps -> pf_files p (S (length (points pps))) FirstDataPageID ∅ -> 1 <= secs ->
  exists s1 s2 s3 r, OpenRollup None (NewRollupManager (Some src) p res) = (Ok tt, s1) /\
    ForceDownsample None secs s1 = (Ok tt, s2) /\ ScanRollups None start stop s2 = (Ok r, s3) /\
    NoDup (map BucketStart r) /\
    forall rb, rb ∈ r <-> exists b, start <= b <= stop /\ bucket_values secs b (points pps) <> [] /\ rb = bucket_spec secs b (points pps).
Proof.
  intros Hsrc Hp Hsecs. destruct (open_rollup src m pps p (length (points pps)) res Hsrc Hp) as (s1 & E1 & Hr1).
  destruct (downsample_ok s1 0 pps [[]] secs Hr1 (mr_ok _ _ _ Hsrc) Hsecs) as (s2 & bps & E2 & Hr2 & Hperm). cbn [concat app] in Hperm.
  destruct (ScanRollups_ok s2 0 pps bps start stop Hr2) as (s3 & E3 & _). exists s1, s2, s3. eexists. split; [exact E1|].
  split; [exact E2|]. split; [exact E3|]. split.
  - assert (NoDup (map BucketStart (concat bps))) as Hn by (rewrite Hperm; apply summary_starts). clear -Hn.
    induction (concat bps) as [|rb l IH]; [constructor|]. cbn in *. inversion Hn as [|? ? Hni Hn']; subst. destruct (bucket_in _ _ rb); cbn; [|by apply IH].
    constructor; [|by apply IH]. intros Hin. apply Hni. apply list_elem_of_fmap in Hin as (rb' & E & Hin).
    apply list_elem_of_In, filter_In in Hin as [Hin _]. rewrite E. apply list_elem_of_In, in_map, Hin.
  - intros rb. rewrite list_elem_of_In, filter_In, <- list_elem_of_In, Hperm, summary_elem. unfold bucket_in. rewrite andb_true_iff, !Z.leb_le. split.
    + intros [(b & Hne & ->) Hb]. by exists b.
    + intros (b & Hb & Hne & ->). split; [by exists b|done].
Qed.

(** Running it again, as every tick does, stores every bucket again. *)
Theorem downsample_again_duplicates src m pps p res secs k :
  metrics_rel src m pps -> pf_files p (S (k * length (points pps))) FirstDataPageID ∅ -> 1 <= secs ->
  exists s1 s2 s3 r, OpenRollup None (NewRollupManager (Some src) p res) = (Ok tt, s1) /\
    for_each (replicate k secs) (ForceDownsample None) s1 = (Ok tt, s2) /\
    ScanRollups None (- 2 ^ 63) (2 ^ 63 - 1) s2 = (Ok r, s3) /\
    r ≡ₚ concat (replicate k (summary secs (points pps))).
Proof.
  intros Hsrc Hp Hsecs. destruct (open_rollup src m pps p _ res Hsrc Hp) as (s1 & E1 & Hr1).
  assert (exists s2 bps, for_each (replicate k secs) (ForceDownsample None) s1 = (Ok tt, s2) /\ rollup_rel s2 0 pps bps /\
    concat bps ≡ₚ concat ([[]] : list (list RollupBucket)) ++ concat (replicate k (summary secs (points pps)))) as (s2 & bps & E2 & Hr2 & Hperm).
  { clear E1 Hp. revert s1 Hr1. generalize ([[]] : list (list RollupBucket)). induction k as [|k IH]; intros bps0 s1 Hr1; cbn [replicate for_each concat].
    - exists s1, bps0. by rewrite app_nil_r.
    - cbn [Nat.mul] in Hr1. rewrite Nat.add_comm in Hr1.
      destruct (downsample_ok s1 _ pps bps0 secs Hr1 (mr_ok _ _ _ Hsrc) Hsecs) as (s' & bps' & E & Hr' & Hperm).
      destruct (IH bps' s' Hr') as (s2 & bps & E2 & Hr2 & Hperm2). exists s2, bps.
      unfold ForceDownsample at 1. rewrite (bind_ok _ _ _ _ _ E). split; [done|]. split; [done|]. by rewrite Hperm2, Hperm, <- app_assoc. }
  destruct (ScanRollups_ok s2 0 pps bps (- 2 ^ 63) (2 ^ 63 - 1) Hr2) as (s3 & E3 & _).
  assert (List.filter (bucket_in (- 2 ^ 63) (2 ^ 63 - 1)) (concat bps) = concat bps) as Hall.
  { apply forallb_filter_id, forallb_forall. intros rb Hrb. pose proof (rr_ok _ _ _ _ Hr2) as Hok.
    apply Forall_concat in Hok. rewrite Forall_forall in Hok. apply list_elem_of_In in Hrb. destruct (Hok rb Hrb) as [Hs _ _ _ _].
    unfold bucket_in. rewrite andb_true_iff, !Z.leb_le. unfold i64 in Hs. lia. }
  rewrite Hall in E3. exists s1, s2, s3, (concat bps). done.
Qed.
End rollup.
