(* ===== verification/LogRecord.v ===== *)
(** The data of [internal/engine/logs]: the records and their binary form ([store.go]),
    the tokenizer ([token.go]) and the token index ([index.go]).

    What the tokenizer asks of package [unicode] is the class [GoUnicode].  The list and
    the map of the index's LRU order change together, so they are one list of terms here,
    the most recent first. *)

From Stdlib Require Import ZArith Lia.
From Stdlib Require Strings.String.
From stdpp Require Import gmap list.
From S2P Require Import Prelude OrdMap Page FlatStore MetricsPoint GoFmt Binder.
Import String.StringSyntax.
Open Scope Z_scope.

Definition logsHeaderSize : Z := 8.

Definition SeverityDebug : Z := 1.
Definition SeverityInfo : Z := 2.
Definition SeverityWarn : Z := 3.
Definition SeverityError : Z := 4.
Definition SeverityFatal : Z := 5.

Record LogRecord := mkLog { lr_Timestamp : Z; Severity : Z; Attributes : list byte; lr_Body : list byte }.

Definition log_size (r : LogRecord) : Z := 8 + 1 + 2 + zlen (Attributes r) + 4 + zlen (lr_Body r).

(** The bytes of a record. *)
Definition encodeLog (r : LogRecord) : list byte :=
  le_encode 8 (wrap64 (lr_Timestamp r)) ++ [z2b (Severity r)] ++ le_encode 2 (zlen (Attributes r)) ++ Attributes r ++
  le_encode 4 (zlen (lr_Body r)) ++ lr_Body r.

(** The writes of [AppendLog]. *)
Definition write_log (r : LogRecord) (offset : Z) (body : list byte) : list byte :=
  let body := put64 offset (wrap64 (lr_Timestamp r)) body in
  let offset := offset + 8 in
  let body := put offset [z2b (Severity r)] body in
  let offset := offset + 1 in
  let body := put offset (le_encode 2 (zlen (Attributes r))) body in
  let offset := offset + 2 in
  let body := put offset (Attributes r) body in
  let offset := offset + zlen (Attributes r) in
  let body := put32 offset (zlen (lr_Body r)) body in
  let offset := offset + 4 in
  put offset (lr_Body r) body.

(** One round of the loop of [decodeLogPage]. *)
Definition parse_log (rest : list byte) : option (LogRecord * list byte) :=
  '(ts, rest) ← take_bytes 8 rest;
  '(sev, rest) ← take_bytes 1 rest;
  '(attrsLen, rest) ← take_bytes 2 rest;
  '(attrs, rest) ← take_bytes (le_decode attrsLen) rest;
  '(bodyLen, rest) ← take_bytes 4 rest;
  '(body, rest) ← take_bytes (le_decode bodyLen) rest;
  Some (mkLog (swrap64 (le_decode ts)) (le_decode sev) attrs body, rest).

Definition decodeLogPage (body : list byte) : list LogRecord := decode_records parse_log logsHeaderSize body.

Definition severityToString (sev : Z) : list byte :=
  if sev =? SeverityDebug then go_string "DEBUG" else if sev =? SeverityInfo then go_string "INFO"
  else if sev =? SeverityWarn then go_string "WARN" else if sev =? SeverityError then go_string "ERROR"
  else if sev =? SeverityFatal then go_string "FATAL" else go_string "INFO".

Definition is_one_of (s : list byte) (names : list (list byte)) : bool := existsb (fun n => bool_decide (s = n)) names.

Definition parseSeverity `{GoText} (s : list byte) : Z :=
  let u := ToUpper s in
  if is_one_of u [go_string "DEBUG"] then SeverityDebug
  else if is_one_of u [go_string "INFO"; go_string "INFORMATION"] then SeverityInfo
  else if is_one_of u [go_string "WARN"; go_string "WARNING"] then SeverityWarn
  else if is_one_of u [go_string "ERROR"] then SeverityError
  else if is_one_of u [go_string "FATAL"; go_string "CRITICAL"] then SeverityFatal
  else SeverityInfo.

(** * Runes *)

Class GoUnicode := { IsLetter : Z -> bool; IsDigit : Z -> bool; rune_ToLower : Z -> Z }.

Definition continuation (b : byte) : bool := Z.land (b2z b) 0xC0 =? 0x80.

(** The first rune of a string that is not empty, and its width: U+FFFD and one byte when
    it is not valid UTF-8. *)
Definition decode_rune (s : list byte) : Z * Z :=
  match s with
  | [] => (0xFFFD, 0)
  | b0 :: s1 =>
      let c0 := b2z b0 in
      let bad := (0xFFFD, 1) in
      if c0 <? 0x80 then (c0, 1)
      else if (0xC2 <=? c0) && (c0 <=? 0xDF) then
        match s1 with
        | b1 :: _ => if continuation b1 then (Z.lor (Z.shiftl (Z.land c0 0x1F) 6) (Z.land (b2z b1) 0x3F), 2) else bad
        | _ => bad
        end
      else if (0xE0 <=? c0) && (c0 <=? 0xEF) then
        match s1 with
        | b1 :: b2 :: _ =>
            let r := Z.lor (Z.shiftl (Z.land c0 0x0F) 12) (Z.lor (Z.shiftl (Z.land (b2z b1) 0x3F) 6) (Z.land (b2z b2) 0x3F)) in
            if continuation b1 && continuation b2 && (0x800 <=? r) && negb ((0xD800 <=? r) && (r <=? 0xDFFF)) then (r, 3) else bad
        | _ => bad
        end
      else if (0xF0 <=? c0) && (c0 <=? 0xF4) then
        match s1 with
        | b1 :: b2 :: b3 :: _ =>
            let r := Z.lor (Z.shiftl (Z.land c0 0x07) 18) (Z.lor (Z.shiftl (Z.land (b2z b1) 0x3F) 12)
                       (Z.lor (Z.shiftl (Z.land (b2z b2) 0x3F) 6) (Z.land (b2z b3) 0x3F))) in
            if continuation b1 && continuation b2 && continuation b3 && (0x10000 <=? r) && (r <=? 0x10FFFF) then (r, 4) else bad
        | _ => bad
        end
      else bad
  end.

(** [strings.Builder.WriteRune] *)
Definition encode_rune (r : Z) : list byte :=
  let r := if (r <? 0) || (0x10FFFF <? r) || ((0xD800 <=? r) && (r <=? 0xDFFF)) then 0xFFFD else r in
  if r <? 0x80 then [z2b r]
  else if r <? 0x800 then [z2b (0xC0 + Z.shiftr r 6); z2b (0x80 + Z.land r 0x3F)]
  else if r <? 0x10000 then [z2b (0xE0 + Z.shiftr r 12); z2b (0x80 + Z.land (Z.shiftr r 6) 0x3F); z2b (0x80 + Z.land r 0x3F)]
  else [z2b (0xF0 + Z.shiftr r 18); z2b (0x80 + Z.land (Z.shiftr r 12) 0x3F); z2b (0x80 + Z.land (Z.shiftr r 6) 0x3F);
        z2b (0x80 + Z.land r 0x3F)].

(** [for _, r := range text], a byte at least for each rune. *)
Fixpoint runes_of (fuel : nat) (s : list byte) : list Z :=
  match fuel, s with
  | S fuel', _ :: _ => let '(r, w) := decode_rune s in r :: runes_of fuel' (zdrop w s)
  | _, _ => []
  end.
Definition runes (s : list byte) : list Z := runes_of (length s) s.

Section tokens.
Context `{GoUnicode}.

Fixpoint token_loop (current : list byte) (rs : list Z) : list (list byte) :=
  match rs with
  | [] => match current with [] => [] | _ => [current] end
  | r :: rs' =>
      if IsLetter r || IsDigit r then token_loop (current ++ encode_rune (rune_ToLower r)) rs'
      else match current with [] => token_loop [] rs' | _ => current :: token_loop [] rs' end
  end.

Fixpoint dedup (seen : list (list byte)) (l : list (list byte)) : list (list byte) :=
  match l with
  | [] => []
  | s :: l' => if (zlen s <? 2) || bool_decide (s ∈ seen) then dedup seen l' else s :: dedup (s :: seen) l'
  end.

Definition deduplicateTokens (l : list (list byte)) : list (list byte) := dedup [] l.

Definition Tokenize (text : list byte) : list (list byte) := deduplicateTokens (token_loop [] (runes text)).
End tokens.

(** * Token index *)

Record RecordLocator := mkLogLoc { ll_PageID : Z; ll_RecordIdx : Z; ll_Timestamp : Z }.

#[export] Instance LogLocator_eq_dec : EqDecision RecordLocator.
Proof. solve_decision. Defined.

Record TokenIndex := mkTokenIndex {
  termLocs : gmap (list byte) (list RecordLocator); lruList : list (list byte); maxMemBytes : Z; curMemBytes : Z }.

Definition NewTokenIndex (max : Z) : TokenIndex := mkTokenIndex ∅ [] max 0.

Definition term_locs (term : list byte) (idx : TokenIndex) : list RecordLocator := default [] (termLocs idx !! term).

Definition evictOldest (idx : TokenIndex) : TokenIndex :=
  match last (lruList idx) with
  | None => idx
  | Some term =>
      let freedSize := zlen (term_locs term idx) * 16 + zlen term + 64 in
      let cur := curMemBytes idx - freedSize in
      mkTokenIndex (delete term (termLocs idx)) (removelast (lruList idx)) (maxMemBytes idx) (if cur <? 0 then 0 else cur)
  end.

(** A round for each term at most. *)
Fixpoint make_room (fuel : nat) (added : Z) (idx : TokenIndex) : TokenIndex :=
  match fuel with
  | O => idx
  | S fuel' =>
      if (maxMemBytes idx <=? curMemBytes idx + added) && negb (bool_decide (lruList idx = []))
      then make_room fuel' added (evictOldest idx) else idx
  end.

Definition to_front (term : list byte) (l : list (list byte)) : list (list byte) :=
  term :: filter (fun t => t <> term) l.

Section token_index.
Context `{GoText}.

(** The term's locators are read before the evictions. *)
Definition Insert (token : list byte) (loc : RecordLocator) (idx : TokenIndex) : TokenIndex :=
  let term := ToLower token in
  let locs := term_locs term idx in
  let added := 16 + match locs with [] => zlen term + 64 | _ => 0 end in
  let idx := make_room (length (lruList idx)) added idx in
  if maxMemBytes idx <=? curMemBytes idx + added then idx
  else mkTokenIndex (<[term := locs ++ [loc]]> (termLocs idx)) (to_front term (lruList idx)) (maxMemBytes idx) (curMemBytes idx + added).

Definition Search (token : list byte) (idx : TokenIndex) : option (list RecordLocator) := termLocs idx !! ToLower token.

Definition intersectLocators (sets : list (list RecordLocator)) : list RecordLocator :=
  match sets with
  | [] => []
  | [s] => s
  | s0 :: s1 :: rest =>
      foldl (fun result cur => filter (fun loc => loc ∈ cur) result) (filter (fun loc => loc ∈ s0) s1) rest
  end.

(** [None] is [nil]. *)
Definition SearchAll (tokens : list (list byte)) (idx : TokenIndex) : option (list RecordLocator) :=
  match tokens with
  | [] => None
  | _ => sets ← mapM (fun tok => termLocs idx !! ToLower tok) tokens; Some (intersectLocators sets)
  end.

Definition kept_locs (cutoff : Z) (locs : list RecordLocator) : option (list RecordLocator) :=
  match filter (fun loc => cutoff <= ll_Timestamp loc) locs with [] => None | kept => Some kept end.

(** The memory in use is not counted down. *)
Definition Sweep (cutoff : Z) (idx : TokenIndex) : TokenIndex :=
  let kept := omap (kept_locs cutoff) (termLocs idx) in
  mkTokenIndex kept (filter (fun t => termLocs idx !! t = None \/ is_Some (kept !! t)) (lruList idx)) (maxMemBytes idx) (curMemBytes idx).
End token_index.
