(* ===== verification/Logs.v ===== *)
(** [internal/engine/logs/store.go] and [retention.go]: the store of log records and its
    retention.

    The block directory and the token index are part of the store's state; the retention
    worker frees pages of the store's own pager.  The cutoff of a sweep is computed from
    the clock and is an argument here. *)

From Stdlib Require Import ZArith Lia.
From stdpp Require Import gmap list.
From Stdlib Require Import ZArith Lia Permutation.
From S2P Require Import MetricsPoint Metrics Prelude OrdMap Page Monad PagerSpec PagerFile FlatStore FlatList GoRuntime Binder.
From S2P Require Import LogRecord.
Open Scope Z_scope.
Open Scope st_scope.

Record BlockDirectoryEntry := mkBlockEntry { StartPageID : Z; be_PageCount : Z; MinTimestamp : Z; MaxTimestamp : Z }.

Record LogsStore (P : Type) := mkLogs { ls_flat : flat P; blockDirectory : list BlockDirectoryEntry; tokenIndex : option TokenIndex }.
Arguments mkLogs {P}.
Arguments ls_flat {P}.
Arguments blockDirectory {P}.
Arguments tokenIndex {P}.

Section logs.
Context {P : Type} `{FilePagerOps P} `{GoRuntime} `{GoText} `{GoUnicode}.
Implicit Types s : LogsStore P.

Definition lstore : Type -> Type := st (LogsStore P) store_err.

Definition NewStoreWithIndex (pg : P) (idx : option TokenIndex) : LogsStore P := mkLogs (FlatStore.NewStore pg) [] idx.
Definition NewStore (pg : P) : LogsStore P := NewStoreWithIndex pg None.

Definition on_logs {A} (c : st (flat P) store_err A) : lstore A := fun s =>
  let '(r, f) := c (ls_flat s) in (r, mkLogs f (blockDirectory s) (tokenIndex s)).

Definition OpenLogs (cx : ctx) : lstore unit := on_logs (FlatStore.Open logsHeaderSize cx).
Definition CloseLogs (cx : ctx) : lstore unit := on_logs (FlatStore.Close cx).

Definition index_log (r : LogRecord) (recordIdx : Z) : lstore unit :=
  modify (fun s =>
    match tokenIndex s, lr_Body r with
    | Some idx, _ :: _ =>
        let loc := mkLogLoc (currentPageID (ls_flat s)) recordIdx (lr_Timestamp r) in
        mkLogs (ls_flat s) (blockDirectory s) (Some (foldl (fun i tok => Insert tok loc i) idx (Tokenize (lr_Body r))))
    | _, _ => s
    end).

Definition AppendLog (cx : ctx) (r : LogRecord) : lstore unit :=
  o <- on_logs (gets opened) ;;
  if negb o then fail ErrStoreNotOpen
  else
    let recSize := log_size r in
    if maxBodySize - logsHeaderSize <? recSize then fail ErrRecordTooLarge
    else
      ' (numRecs, nextOffset) <- on_logs (reserve logsHeaderSize cx recSize) ;;
      on_logs (modify (fun f => with_body (write_log r nextOffset (currentBody f)) f)) ;;;
      on_logs (writeHeader (numRecs + 1) (nextOffset + recSize)) ;;;
      index_log r numRecs ;;;
      on_logs (flushPage cx).

(** * Reading *)

(** A bound of 0 is none. *)
Definition log_in_range (start stop : Z) (r : LogRecord) : bool :=
  negb (negb (start =? 0) && (lr_Timestamp r <? start)) && negb (negb (stop =? 0) && (stop <? lr_Timestamp r)).

(** [strings.Contains(s, sub)] *)
Fixpoint has_prefix (p s : list byte) : bool :=
  match p, s with
  | [], _ => true
  | b :: p', c :: s' => bool_decide (b = c) && has_prefix p' s'
  | _ :: _, [] => false
  end.
Fixpoint Contains (s sub : list byte) : bool :=
  has_prefix sub s || match s with [] => false | _ :: s' => Contains s' sub end.

Definition log_selected (start stop : Z) (bodyFilter : list byte) (r : LogRecord) : bool :=
  log_in_range start stop r && (bool_decide (bodyFilter = []) || Contains (lr_Body r) bodyFilter).

(** Freed pages are passed over. *)
Definition is_freed (e : pager_err) : bool := bool_decide (e = ErrInvalidPageID).

Definition ScanRange (cx : ctx) (start stop : Z) (bodyFilter : list byte) : lstore (list LogRecord) :=
  o <- on_logs (gets opened) ;;
  if negb o then fail ErrStoreNotOpen
  else on_logs (scan_all cx is_freed (fun body => Ok (List.filter (log_selected start stop bodyFilter) (decodeLogPage body)))).

Definition group_log_locs (locs : list RecordLocator) : gmap Z (list Z) :=
  foldl (fun m loc => <[ll_PageID loc := default [] (m !! ll_PageID loc) ++ [ll_RecordIdx loc]]> m) ∅ locs.

(** The records at some indexes of a page. *)
Definition read_indexes (start stop : Z) (recs : list LogRecord) (indexes : list Z) : list LogRecord :=
  List.filter (log_in_range start stop) (omap (fun i => recs !! Z.to_nat i) indexes).

Fixpoint read_log_groups (cx : ctx) (start stop : Z) (groups : list (Z * list Z)) : lstore (list LogRecord) :=
  match groups with
  | [] => ret []
  | (pageID, indexes) :: groups' => fun s =>
      match pg_ReadPage cx pageID (pager (ls_flat s)) with
      | (Err _, p) => read_log_groups cx start stop groups' (mkLogs (with_pager p (ls_flat s)) (blockDirectory s) (tokenIndex s))
      | (Ok body, p) =>
          (b <- read_log_groups cx start stop groups' ;; ret (read_indexes start stop (decodeLogPage body) indexes ++ b))
            (mkLogs (with_pager p (ls_flat s)) (blockDirectory s) (tokenIndex s))
      end
  end.

Definition readLogLocations (cx : ctx) (locs : list RecordLocator) (start stop : Z) : lstore (list LogRecord) :=
  read_log_groups cx start stop (map_order (map_to_list (group_log_locs locs))).

Definition ScanRangeWithIndex (cx : ctx) (start stop : Z) (tokens : list (list byte)) : lstore (list LogRecord) :=
  o <- on_logs (gets opened) ;;
  if negb o then fail ErrStoreNotOpen
  else
    idx <- gets tokenIndex ;;
    match idx, tokens with
    | Some i, _ :: _ =>
        match SearchAll tokens i with
        | Some locs => readLogLocations cx locs start stop
        | None => ret []
        end
    | _, _ => ScanRange cx start stop match tokens with [tok] => tok | _ => [] end
    end.

(** [BlockDirectory] *)
Definition BlockDirectory s : list BlockDirectoryEntry := blockDirectory s.

Definition AddBlockDirectoryEntry (entry : BlockDirectoryEntry) : lstore unit :=
  modify (fun s => mkLogs (ls_flat s) (blockDirectory s ++ [entry]) (tokenIndex s)).

(** * Retention *)

(** The pages of a block; numbers wrap around. *)
Definition block_pages (entry : BlockDirectoryEntry) : list Z :=
  map (fun i => wrap64 (StartPageID entry + i)) (seqZ 0 (be_PageCount entry)).

Definition sweep (cx : ctx) (cutoff : Z) : lstore unit :=
  dir <- gets blockDirectory ;;
  for_each (List.filter (fun e => MaxTimestamp e <? cutoff) dir)
    (fun e => for_each (block_pages e) (fun id => ignore (on_logs (on_pager (pg_FreePage cx id))))) ;;;
  modify (fun s => mkLogs (ls_flat s) (List.filter (fun e => negb (MaxTimestamp e <? cutoff)) dir) (Sweep cutoff <$> tokenIndex s)).
End logs.

(** * The theorems of the log store: the codec of records, the refinement of a list of
    records, and what a retention sweep leaves. *)

(** * Records *)

Record log_ok (r : LogRecord) : Prop := {
  lo_time : i64 (lr_Timestamp r);
  lo_severity : 0 <= Severity r < 256;
  lo_size : log_size r <= maxBodySize - logsHeaderSize }.

Lemma lhs_ok : 8 <= logsHeaderSize <= maxBodySize.
Proof. vm_compute. by split. Qed.

Lemma zlen_log r : zlen (encodeLog r) = log_size r.
Proof.
  unfold encodeLog, log_size. rewrite !zlen_app, !zlen_le_encode. change (zlen [z2b (Severity r)]) with 1. lia.
Qed.

Lemma log_not_nil r : encodeLog r <> [].
Proof.
  intros E. pose proof (zlen_log r) as Hz. rewrite E in Hz. unfold log_size in Hz. change (zlen (@nil byte)) with 0 in Hz.
  pose proof (zlen_nonneg (Attributes r)). pose proof (zlen_nonneg (lr_Body r)). lia.
Qed.

Lemma decode_byte v : 0 <= v < 256 -> le_decode [z2b v] = v.
Proof.
  intros Hv. change (le_decode [z2b v]) with (0 * 256 + b2z (z2b v)). rewrite b2z_z2b, Z.mod_small by done. lia.
Qed.

Lemma decode_len4 n : 0 <= n < 2 ^ 32 -> le_decode (le_encode 4 n) = n.
Proof. exact (le_decode_encode 4 n). Qed.

Lemma parse_encoded r rest : log_ok r -> parse_log (encodeLog r ++ rest) = Some (r, rest).
Proof.
  intros [H1 H2 H3]. unfold log_size in H3. pose proof (zlen_nonneg (Attributes r)). pose proof (zlen_nonneg (lr_Body r)).
  change (maxBodySize - logsHeaderSize) with 4076 in H3.
  unfold parse_log, encodeLog. rewrite <- !app_assoc.
  rewrite take_bytes_app by apply zlen_le_encode. cbn [mbind option_bind].
  rewrite take_bytes_app by done. cbn [mbind option_bind].
  rewrite take_bytes_app by apply zlen_le_encode. cbn [mbind option_bind].
  rewrite decode_len, take_bytes_app by lia. cbn [mbind option_bind].
  rewrite take_bytes_app by apply zlen_le_encode. cbn [mbind option_bind].
  rewrite decode_len4, take_bytes_app by lia. cbn [mbind option_bind].
  rewrite decode_word by apply wrap64_range. rewrite decode_byte, swrap64_wrap64 by done. by destruct r.
Qed.

Lemma write_log_put r off body :
  0 <= off -> off + log_size r <= zlen body -> write_log r off body = put off (encodeLog r) body.
Proof.
  intros Ho Hle. unfold log_size in Hle. unfold write_log, put64, put32, encodeLog.
  pose proof (zlen_nonneg (Attributes r)). pose proof (zlen_nonneg (lr_Body r)).
  pose proof (zlen_le_encode 8 (wrap64 (lr_Timestamp r))) as L1. pose proof (zlen_le_encode 2 (zlen (Attributes r))) as L2.
  pose proof (zlen_le_encode 4 (zlen (lr_Body r))) as L3. assert (zlen [z2b (Severity r)] = 1) as L4 by done.
  revert L1 L2 L3 L4. generalize (le_encode 8 (wrap64 (lr_Timestamp r))) (le_encode 2 (zlen (Attributes r)))
    (le_encode 4 (zlen (lr_Body r))) [z2b (Severity r)]. intros a c d b L1 L2 L3 L4.
  replace (off + 8) with (off + zlen a) by lia. rewrite (put_app off a b) by lia.
  replace (off + zlen a + 1) with (off + zlen (a ++ b)) by (rewrite zlen_app; lia). rewrite (put_app off _ c) by (rewrite ?zlen_app; lia).
  replace (off + zlen (a ++ b) + 2) with (off + zlen ((a ++ b) ++ c)) by (rewrite !zlen_app; lia).
  rewrite (put_app off _ (Attributes r)) by (rewrite ?zlen_app; lia).
  replace (off + zlen ((a ++ b) ++ c) + zlen (Attributes r)) with (off + zlen (((a ++ b) ++ c) ++ Attributes r)) by (rewrite !zlen_app; lia).
  rewrite (put_app off _ d) by (rewrite ?zlen_app; lia).
  replace (off + zlen (((a ++ b) ++ c) ++ Attributes r) + 4)
    with (off + zlen ((((a ++ b) ++ c) ++ Attributes r) ++ d)) by (rewrite !zlen_app; lia).
  rewrite (put_app off _ (lr_Body r)) by (rewrite ?zlen_app; lia). by rewrite <- !app_assoc.
Qed.

(** * A list of records *)

Section store.
Context {P : Type} `{FilePager P} `{GoRuntimeLaws} `{GoText} `{GoUnicode}.
Implicit Types s : LogsStore P.

Record logs_rel s (n : nat) (pps : list (list LogRecord)) : Prop := {
  lr_dense : dense_rel logsHeaderSize encodeLog (ls_flat s) n pps;
  lr_ok : Forall (Forall log_ok) pps }.

Definition add_log : LogRecord -> list (list LogRecord) -> list (list LogRecord) := add_rec logsHeaderSize encodeLog.

Lemma logs_not_nil s n pps : logs_rel s n pps -> pps <> [].
Proof. intros [Hr _]. by eapply dense_not_nil. Qed.

Lemma logs_weaken s n n' pps : (n' <= n)%nat -> logs_rel s n pps -> logs_rel s n' pps.
Proof. intros Hle [Hf Hok]. split; [|done]. by apply (dense_weaken _ _ _ n). Qed.

Lemma on_logs_ok {A} (c : st (flat P) store_err A) s a f :
  c (ls_flat s) = (Ok a, f) -> on_logs c s = (Ok a, mkLogs f (blockDirectory s) (tokenIndex s)).
Proof. intros E. unfold on_logs. by rewrite E. Qed.

Lemma open_new_logs p n idx : pf_files p (S n) FirstDataPageID ∅ ->
  exists s, OpenLogs None (NewStoreWithIndex p idx) = (Ok tt, s) /\ tokenIndex s = idx /\ blockDirectory s = [] /\ logs_rel s n [[]].
Proof.
  intros Hp. destruct (open_new logsHeaderSize encodeLog lhs_ok p n Hp) as (f & E & Hr). exists (mkLogs f [] idx).
  split; [by apply (on_logs_ok _ (mkLogs _ _ _))|]. split; [done|]. split; [done|]. split; [done|by repeat constructor].
Qed.

Lemma open_again_logs p n pps idx :
  holds logsHeaderSize encodeLog p n pps -> Forall (Forall log_ok) pps ->
  exists s, OpenLogs None (NewStoreWithIndex p idx) = (Ok tt, s) /\ tokenIndex s = idx /\ logs_rel s n pps.
Proof.
  intros Hp Hok. destruct (open_again logsHeaderSize encodeLog p n pps Hp) as (f & E & Hr). exists (mkLogs f [] idx).
  split; [by apply (on_logs_ok _ (mkLogs _ _ _))|]. by split.
Qed.

(** The end of a process, after [Close] or without it. *)
Definition logs_left_by s (clean : bool) : P := pf_restart (pager (ls_flat (if clean then snd (CloseLogs None s) else s))).

Lemma logs_left_holds s n pps clean : logs_rel s n pps -> holds logsHeaderSize encodeLog (logs_left_by s clean) n pps.
Proof.
  intros [Hr _]. unfold logs_left_by. destruct clean; [|by apply crash_holds].
  destruct (close_holds logsHeaderSize encodeLog lhs_ok _ _ _ Hr) as (f & E & Hh). unfold CloseLogs, on_logs. by rewrite E.
Qed.

(** The locator a new record gets, and the index afterwards. *)
Definition next_log_loc (r : LogRecord) (pps : list (list LogRecord)) : RecordLocator :=
  mkLogLoc (fst (next_place logsHeaderSize encodeLog r pps)) (next_index logsHeaderSize encodeLog r pps) (lr_Timestamp r).

Definition index_with (r : LogRecord) (loc : RecordLocator) (idx : TokenIndex) : TokenIndex :=
  foldl (fun i tok => Insert tok loc i) idx (Tokenize (lr_Body r)).

Lemma tokenize_nil : Tokenize [] = [].
Proof. done. Qed.

Lemma index_log_ok r num s :
  index_log r num s = (Ok tt, mkLogs (ls_flat s) (blockDirectory s)
    (index_with r (mkLogLoc (currentPageID (ls_flat s)) num (lr_Timestamp r)) <$> tokenIndex s)).
Proof.
  unfold index_log, modify, index_with. destruct s as [f d [i|]]; cbn [tokenIndex ls_flat blockDirectory]; [|done].
  destruct (lr_Body r); [|done]. by rewrite tokenize_nil.
Qed.

Lemma append_log_ok s n pps r :
  logs_rel s (S n) pps -> log_ok r ->
  exists s', AppendLog None r s = (Ok tt, s') /\ logs_rel s' n (add_log r pps) /\ blockDirectory s' = blockDirectory s /\
    tokenIndex s' = index_with r (next_log_loc r pps) <$> tokenIndex s.
Proof.
  intros [Hr Hok] Hlog. pose proof (lo_size _ Hlog) as Hsz. unfold next_log_loc.
  destruct (append_dense logsHeaderSize encodeLog lhs_ok log_not_nil (ls_flat s) n pps r Hr) as (f1 & f2 & E); [rewrite zlen_log; lia|].
  destruct (next_place logsHeaderSize encodeLog r pps) as [id off]. destruct E as (E1 & Hid & Hoff & Hin & E2 & Hr2).
  rewrite zlen_log in *. cbn [fst].
  exists (mkLogs f2 (blockDirectory s) (index_with r (mkLogLoc id (next_index logsHeaderSize encodeLog r pps) (lr_Timestamp r)) <$> tokenIndex s)).
  split; [|split; [split; [exact Hr2|by apply add_rec_ok]|done]].
  unfold AppendLog. erewrite bind_ok by (apply on_logs_ok; reflexivity).
  rewrite (fr_opened _ _ _ _ _ _ (dr_flat _ _ _ _ _ Hr)). cbn [negb]. rewrite (proj2 (Z.ltb_ge _ _)) by lia.
  erewrite bind_ok by (apply on_logs_ok; exact E1). cbn [fst snd].
  erewrite bind_ok by (apply on_logs_ok; reflexivity). erewrite bind_ok by (apply on_logs_ok; reflexivity).
  cbn [ls_flat]. rewrite write_log_put by (unfold logsHeaderSize in Hoff; lia). rewrite <- zlen_log.
  erewrite bind_ok by apply index_log_ok.
  cbn [ls_flat tokenIndex blockDirectory currentPageID with_body with_page]. rewrite Hid.
  apply (on_logs_ok _ (mkLogs _ _ _)). exact E2.
Qed.

Lemma append_log_large s n pps r cx :
  logs_rel s n pps -> maxBodySize - logsHeaderSize < log_size r -> AppendLog cx r s = (Err ErrRecordTooLarge, s).
Proof.
  intros [Hr _] Hsz. unfold AppendLog. erewrite bind_ok by (apply on_logs_ok; reflexivity).
  rewrite (fr_opened _ _ _ _ _ _ (dr_flat _ _ _ _ _ Hr)). cbn [negb]. rewrite (proj2 (Z.ltb_lt _ _)) by lia. by destruct s.
Qed.

Definition records (pps : list (list LogRecord)) : list LogRecord := concat pps.

Lemma scan_logs_ok s n pps start stop bodyFilter : logs_rel s n pps ->
  exists s', ScanRange None start stop bodyFilter s = (Ok (List.filter (log_selected start stop bodyFilter) (records pps)), s') /\
    logs_rel s' n pps /\ tokenIndex s' = tokenIndex s /\ blockDirectory s' = blockDirectory s.
Proof.
  intros [Hr Hok]. unfold ScanRange. erewrite bind_ok by (apply on_logs_ok; reflexivity).
  rewrite (fr_opened _ _ _ _ _ _ (dr_flat _ _ _ _ _ Hr)). cbn [negb].
  destruct (scan_dense logsHeaderSize encodeLog lhs_ok parse_log log_ok parse_encoded (ls_flat s) n pps is_freed
    (fun rs => Ok (List.filter (log_selected start stop bodyFilter) rs)) (List.filter (log_selected start stop bodyFilter)) Hr Hok)
    as (p & E & Hr'); [done|].
  exists (mkLogs (with_pager p (ls_flat s)) (blockDirectory s) (tokenIndex s)). split; [|by split].
  apply (on_logs_ok _ (mkLogs _ _ _)). by rewrite filter_concat in E.
Qed.

(** ** The store against a list of records *)

Inductive log_op : Type :=
| LogAppend (r : LogRecord)
| LogScan (start stop : Z) (bodyFilter : list byte)
| LogRestart (clean : bool).

Inductive log_out : Type :=
| LogDone (r : res store_err unit)
| LogRows (r : res store_err (list LogRecord)).

Definition run_log (o : log_op) (s : LogsStore P) : log_out * LogsStore P :=
  match o with
  | LogAppend r => let '(x, s') := AppendLog None r s in (LogDone x, s')
  | LogScan start stop bodyFilter => let '(x, s') := ScanRange None start stop bodyFilter s in (LogRows x, s')
  | LogRestart clean => let '(x, s') := OpenLogs None (NewStoreWithIndex (logs_left_by s clean) (tokenIndex s)) in (LogDone x, s')
  end.

Definition spec_log (o : log_op) (l : list LogRecord) : log_out * list LogRecord :=
  match o with
  | LogAppend r =>
      if maxBodySize - logsHeaderSize <? log_size r then (LogDone (Err ErrRecordTooLarge), l) else (LogDone (Ok tt), l ++ [r])
  | LogScan start stop bodyFilter => (LogRows (Ok (List.filter (log_selected start stop bodyFilter) l)), l)
  | LogRestart _ => (LogDone (Ok tt), l)
  end.

Fixpoint run_logs {S} (step : log_op -> S -> log_out * S) (os : list log_op) (s : S) : list log_out :=
  match os with [] => [] | o :: os' => let '(x, s') := step o s in x :: run_logs step os' s' end.

Definition log_op_ok (o : log_op) : Prop :=
  match o with LogAppend r => i64 (lr_Timestamp r) /\ 0 <= Severity r < 256 | _ => True end.

Lemma log_op_refines o s n pps :
  log_op_ok o -> logs_rel s (S n) pps ->
  exists s' pps', run_log o s = (fst (spec_log o (records pps)), s') /\ logs_rel s' n pps' /\ records pps' = snd (spec_log o (records pps)).
Proof.
  intros Hok Hr. pose proof (logs_weaken s (S n) n pps ltac:(lia) Hr) as Hr'. destruct o as [r|start stop bf|clean]; cbn [run_log spec_log].
  - destruct Hok as (H1' & H2'). destruct (Z.ltb_spec (maxBodySize - logsHeaderSize) (log_size r)) as [Hlt|Hle].
    + rewrite (append_log_large _ _ _ _ _ Hr) by done. by exists s, pps.
    + destruct (append_log_ok s n pps r Hr) as (s' & -> & Hs' & _); [by split|]. exists s', (add_log r pps).
      split; [done|]. split; [done|]. apply add_rec_concat. by eapply logs_not_nil.
  - destruct (scan_logs_ok s n pps start stop bf Hr') as (s' & -> & Hs' & _). by exists s', pps.
  - destruct (open_again_logs _ n pps (tokenIndex s) (logs_left_holds s n pps clean Hr')) as (s' & -> & _ & Hs'); [apply Hr|].
    by exists s', pps.
Qed.

(** C13: The store behaves as a list of records, through restarts and crashes. *)
Theorem logs_refine_list os p idx :
  pf_files p (S (length os)) FirstDataPageID ∅ -> Forall log_op_ok os ->
  exists s, OpenLogs None (NewStoreWithIndex p idx) = (Ok tt, s) /\ run_logs run_log os s = run_logs spec_log os [].
Proof.
  intros Hp Hos. destruct (open_new_logs p (length os) idx Hp) as (s & E & _ & _ & Hr). exists s. split; [exact E|].
  change (@nil LogRecord) with (records [[]]). clear E Hp p. revert s Hr. generalize ([[]] : list (list LogRecord)).
  induction Hos as [|o os Ho _ IH]; intros pps s Hs; [done|]. cbn [run_logs]. cbn [length] in Hs.
  destruct (log_op_refines o s (length os) pps Ho Hs) as (s' & pps' & -> & Hs' & Hp'). destruct (spec_log o (records pps)) as [x l'].
  cbn [fst snd] in *. subst l'. f_equal. by apply IH.
Qed.
End store.

(** * Retention: a sweep frees the pages of expired blocks and leaves the other records; a
    block with the current page in it stops the store. *)

Section retention.
Context {P : Type} `{FilePager P} `{GoText} `{GoUnicode} `{GoRuntimeLaws}.
Implicit Types s : LogsStore P.

(** The blocks lie among the data pages. *)
Definition block_ok (e : BlockDirectoryEntry) : Prop :=
  FirstDataPageID <= StartPageID e /\ 0 <= be_PageCount e /\ StartPageID e + be_PageCount e <= 2 ^ 64.

Definition expired (cutoff : Z) (dir : list BlockDirectoryEntry) : list BlockDirectoryEntry :=
  List.filter (fun e => MaxTimestamp e <? cutoff) dir.

Definition freed (cutoff : Z) (dir : list BlockDirectoryEntry) : list Z := concat (map block_pages (expired cutoff dir)).

Lemma block_pages_data e : block_ok e -> Forall (fun id => FirstDataPageID <= id) (block_pages e).
Proof.
  intros (H1' & H2' & H3'). unfold FirstDataPageID in *. apply Forall_forall. intros id Hid.
  apply list_elem_of_In, in_map_iff in Hid as (i & <- & Hi). apply list_elem_of_In, elem_of_seqZ in Hi. rewrite wrap64_id; [lia|]. unfold u64. lia.
Qed.

Lemma freed_data cutoff dir : Forall block_ok dir -> Forall (fun id => FirstDataPageID <= id) (freed cutoff dir).
Proof.
  intros Hd. unfold freed, expired. apply Forall_concat, Forall_map. apply Forall_forall. intros e He.
  apply list_elem_of_In, filter_In in He as [He _]. apply block_pages_data. rewrite Forall_forall in Hd. by apply Hd, list_elem_of_In.
Qed.

(** ** Freeing *)

Definition free_one (id : Z) : st (LogsStore P) store_err unit := ignore (on_logs (on_pager (pg_FreePage None id))).

Lemma free_one_ok s n c (m : gmap Z (list byte)) id :
  pf_rel (pager (ls_flat s)) n c m -> FirstDataPageID <= id ->
  exists p, free_one id s = (Ok tt, mkLogs (with_pager p (ls_flat s)) (blockDirectory s) (tokenIndex s)) /\ pf_rel p n c (delete id m).
Proof.
  intros Hp Hid. unfold free_one, ignore, on_logs, on_pager. destruct (decide (is_Some (m !! id))) as [Hs|Hn].
  - destruct (pf_free _ _ _ _ id Hp Hs) as (p & -> & Hp'). by exists p.
  - assert (m !! id = None) as Hm by (by apply eq_None_not_Some). destruct (pf_free_none _ _ _ _ id Hp Hid Hm) as (r & p & -> & Hp').
    exists p. rewrite delete_id by done. by destruct r.
Qed.

Lemma free_all_ok ids s n c (m : gmap Z (list byte)) :
  pf_rel (pager (ls_flat s)) n c m -> Forall (fun id => FirstDataPageID <= id) ids ->
  exists p, for_each ids free_one s = (Ok tt, mkLogs (with_pager p (ls_flat s)) (blockDirectory s) (tokenIndex s)) /\
    pf_rel p n c (foldr delete m ids).
Proof.
  intros Hp Hids. revert s m Hp. induction Hids as [|id ids Hid _ IH]; intros s m Hp; cbn [for_each foldr].
  - exists (pager (ls_flat s)). split; [by destruct s as [[] ? ?]|done].
  - destruct (free_one_ok s n c m id Hp Hid) as (p & E & Hp'). rewrite (bind_ok _ _ _ _ _ E).
    destruct (IH (mkLogs (with_pager p (ls_flat s)) (blockDirectory s) (tokenIndex s)) _ Hp') as (p2 & E2 & Hp2). exists p2. split; [exact E2|].
    assert (delete id (foldr delete m ids) = foldr delete (delete id m) ids) as ->; [|done].
    clear. induction ids as [|i ids IH]; [done|]. cbn. by rewrite delete_delete, IH.
Qed.

Lemma for_each_concat {A} (g : A -> list Z) l s :
  for_each l (fun e => for_each (g e) free_one) s = for_each (concat (map g l)) free_one s.
Proof.
  assert (forall a b s, for_each (a ++ b) free_one s = bind (for_each a free_one) (fun _ => for_each b free_one) s) as Happ.
  { induction a as [|x a IH]; intros b t'; [done|]. cbn [app for_each]. rewrite bind_assoc.
    destruct (free_one x t') as [[[]|e] t''] eqn:E.
    - rewrite !(bind_ok _ _ _ _ _ E). apply IH.
    - by rewrite !(Monad.bind_err _ _ _ _ _ E). }
  revert s. induction l as [|e l IH]; intros s; [done|]. cbn [map concat for_each]. rewrite Happ.
  destruct (for_each (g e) free_one s) as [[[]|x] s'] eqn:E.
  - rewrite !(bind_ok _ _ _ _ _ E). apply IH.
  - by rewrite !(Monad.bind_err _ _ _ _ _ E).
Qed.

Lemma sweep_pages s n c (m : gmap Z (list byte)) cutoff :
  pf_rel (pager (ls_flat s)) n c m -> Forall block_ok (blockDirectory s) ->
  exists p, sweep None cutoff s = (Ok tt, mkLogs (with_pager p (ls_flat s)) (List.filter (fun e => negb (MaxTimestamp e <? cutoff)) (blockDirectory s))
      (Sweep cutoff <$> tokenIndex s)) /\ pf_rel p n c (foldr delete m (freed cutoff (blockDirectory s))).
Proof.
  intros Hp Hd. destruct (free_all_ok (freed cutoff (blockDirectory s)) s n c m Hp (freed_data cutoff _ Hd)) as (p & E & Hp').
  exists p. split; [|done]. unfold sweep. rewrite bind_gets. fold (expired cutoff (blockDirectory s)).
  pose proof (for_each_concat block_pages (expired cutoff (blockDirectory s)) s) as Ec. unfold free_one in Ec, E. fold (freed cutoff (blockDirectory s)) in Ec.
  rewrite E in Ec. rewrite (bind_ok _ _ _ _ _ Ec). done.
Qed.

Lemma fold_delete_lookup {A} (m : gmap Z A) ids id :
  foldr delete m ids !! id = if decide (id ∈ ids) then None else m !! id.
Proof.
  induction ids as [|i ids IH]; cbn [foldr]; [by rewrite decide_False by apply not_elem_of_nil|].
  destruct (decide (i = id)) as [->|Hne].
  - rewrite lookup_delete_eq. by rewrite decide_True by by left.
  - rewrite lookup_delete_ne, IH by done. destruct (decide (id ∈ ids)); [by rewrite decide_True by by right|].
    rewrite decide_False; [done|]. by intros [?|?]%elem_of_cons.
Qed.

Lemma fold_delete_fmap {A B} (f : A -> B) (m : gmap Z A) ids : f <$> foldr delete m ids = foldr delete (f <$> m) ids.
Proof. induction ids as [|i ids IH]; [done|]. cbn. by rewrite fmap_delete, IH. Qed.

(** ** What remains *)

(** The pages of a store, without some. *)
Definition remaining (ids : list Z) (pps : list (list LogRecord)) : list LogRecord :=
  concat (map (fun id => if decide (id ∈ ids) then [] else default [] (table pps !! id)) (seqZ FirstDataPageID (zlen pps))).

(** C33: A sweep frees the pages of the expired blocks and forgets these; a scan afterwards
    passes over them and returns the records of all other pages. *)
Theorem sweep_frees_expired s n pps cutoff start stop bodyFilter :
  logs_rel s n pps -> Forall block_ok (blockDirectory s) ->
  FirstDataPageID + zlen pps - 1 ∉ freed cutoff (blockDirectory s) ->
  exists s1 s2, sweep None cutoff s = (Ok tt, s1) /\
    blockDirectory s1 = List.filter (fun e => negb (MaxTimestamp e <? cutoff)) (blockDirectory s) /\
    ScanRange None start stop bodyFilter s1 =
      (Ok (List.filter (log_selected start stop bodyFilter) (remaining (freed cutoff (blockDirectory s)) pps)), s2).
Proof.
  intros [[Hf Hcur] Hok] Hd Hnot. set (ids := freed cutoff (blockDirectory s)) in *.
  destruct (sweep_pages s n _ _ cutoff (fr_pager _ _ _ _ _ _ Hf) Hd) as (p & E & Hp). fold ids in Hp.
  rewrite <- fold_delete_fmap in Hp. set (pages := foldr delete (table pps) ids) in *.
  assert (flat_rel logsHeaderSize encodeLog (with_pager p (ls_flat s)) n (FirstDataPageID + zlen pps) pages) as Hf1.
  { destruct Hf as [Ho _ Hfit (rs & Hl & Hb)]. split; [done|exact Hp| |].
    - intros id rs' Hid. unfold pages in Hid. rewrite fold_delete_lookup in Hid. destruct (decide _); [done|]. by apply (Hfit id).
    - exists rs. split; [|done]. unfold pages. rewrite fold_delete_lookup. cbn [currentPageID with_pager]. by rewrite Hcur, decide_False, <- Hcur. }
  set (s1 := mkLogs (with_pager p (ls_flat s)) _ _) in E. change (with_pager p (ls_flat s)) with (ls_flat s1) in Hf1.
  destruct (scan_pages_ok logsHeaderSize encodeLog (ls_flat s1) n _ pages is_freed
    (fun body => Ok (List.filter (log_selected start stop bodyFilter) (decodeLogPage body)))
    (List.filter (log_selected start stop bodyFilter)) (seqZ FirstDataPageID (zlen pps)) Hf1) as (p2 & E2 & _).
  { intros id rs Hid. unfold decodeLogPage. rewrite (decode_img logsHeaderSize encodeLog lhs_ok parse_log log_ok parse_encoded); [done| |by apply (fr_fits _ _ _ _ _ _ Hf1 id)].
    unfold pages in Hid. rewrite fold_delete_lookup in Hid. destruct (decide _); [done|]. by eapply table_Forall. }
  { apply Forall_forall. intros id Hid. apply list_elem_of_In, list_elem_of_In, elem_of_seqZ in Hid. unfold FirstDataPageID in Hid.
    split; [lia|]. by right. }
  exists s1, (mkLogs (with_pager p2 (ls_flat s1)) (blockDirectory s1) (tokenIndex s1)). split; [exact E|]. split; [done|].
  unfold ScanRange. erewrite bind_ok by (apply on_logs_ok; reflexivity).
  change (opened (ls_flat s1)) with (opened (ls_flat s)). rewrite (fr_opened _ _ _ _ _ _ Hf). cbn [negb]. change (mkLogs (ls_flat s1) (blockDirectory s1) (tokenIndex s1)) with s1. apply (on_logs_ok _ s1). unfold scan_all.
  erewrite bind_ok; cycle 1. { unfold on_pager. rewrite (pf_count _ _ _ _ (fr_pager _ _ _ _ _ _ Hf1)). reflexivity. }
  assert (with_pager (pager (ls_flat s1)) (ls_flat s1) = ls_flat s1) as -> by (by destruct (ls_flat s1)).
  rewrite Z.add_simpl_l, E2. do 2 f_equal. unfold remaining. rewrite <- filter_concat, map_map. f_equal. apply map_ext. intros id.
  unfold pages. rewrite fold_delete_lookup. destruct (decide _); [done|]. by destruct (table pps !! id).
Qed.

(** ** Freeing the current page *)

(** An open store whose current page is not allocated. *)
Record stuck s (n : nat) (c : Z) (m : gmap Z (list byte)) : Prop := {
  sk_opened : opened (ls_flat s) = true;
  sk_pager : pf_rel (pager (ls_flat s)) n c m;
  sk_page : 0 <= currentPageID (ls_flat s);
  sk_none : m !! currentPageID (ls_flat s) = None }.

Lemma stuck_flush (f : flat P) n c (m : gmap Z (list byte)) :
  pf_rel (pager f) n c m -> 0 <= currentPageID f -> m !! currentPageID f = None ->
  flushPage None f = (Err (ErrPager ErrInvalidPageID), f).
Proof.
  intros Hp H0' Hn. unfold flushPage, on_pager. rewrite (pf_write_none _ _ _ _ _ (currentBody f) Hp H0' Hn). by destruct f.
Qed.

Lemma stuck_append s n c m r : stuck s n c m -> log_ok r ->
  exists s', AppendLog None r s = (Err (ErrPager ErrInvalidPageID), s') /\ stuck s' n c m.
Proof.
  intros [Ho Hp H0' Hn] Hr. pose proof (lo_size _ Hr) as Hsz. unfold AppendLog. erewrite bind_ok by (apply on_logs_ok; reflexivity).
  rewrite Ho. cbn [negb]. rewrite (proj2 (Z.ltb_ge _ _)) by lia.
  assert (mkLogs (ls_flat s) (blockDirectory s) (tokenIndex s) = s) as -> by (by destruct s).
  pose proof (stuck_flush _ _ _ _ Hp H0' Hn) as Ef.
  destruct (reserve logsHeaderSize None (log_size r) (ls_flat s)) as [[[num off]|e] f1] eqn:Er.
  - assert (f1 = ls_flat s) as ->.
    { unfold reserve, readNum, readNextWriteOffset in Er. rewrite !bind_gets in Er. destruct (_ <? _); [|by injection Er].
      by rewrite (Monad.bind_err _ _ _ _ _ Ef) in Er. }
    erewrite bind_ok by (apply on_logs_ok; exact Er). cbn [fst snd]. erewrite bind_ok by (apply on_logs_ok; reflexivity).
    erewrite bind_ok by (apply on_logs_ok; reflexivity). cbn [ls_flat]. erewrite bind_ok by apply index_log_ok.
    set (f2 := with_body _ _). eexists. split.
    + unfold on_logs. cbn [ls_flat]. rewrite (stuck_flush f2 n c m); [reflexivity|done..].
    + by split.
  - assert (e = ErrPager ErrInvalidPageID /\ f1 = ls_flat s) as [-> ->].
    { unfold reserve, readNum, readNextWriteOffset in Er. rewrite !bind_gets in Er. destruct (_ <? _); [|done].
      rewrite (Monad.bind_err _ _ _ _ _ Ef) in Er. by injection Er. }
    exists s. split; [|by split]. erewrite Monad.bind_err; [reflexivity|]. unfold on_logs. rewrite Er. by destruct s.
Qed.

(** The results of appends, one after the other. *)
Fixpoint append_each (rs : list LogRecord) (s : LogsStore P) : list (res store_err unit) :=
  match rs with [] => [] | r :: rs' => let '(x, s') := AppendLog None r s in x :: append_each rs' s' end.

(** When an expired block contains the current page, a sweep frees it under the store:
    every later append fails, and after the process ends the file cannot be opened. *)
Theorem sweep_of_current_page_stops_store s n pps cutoff rs idx :
  logs_rel s n pps -> Forall block_ok (blockDirectory s) ->
  FirstDataPageID + zlen pps - 1 ∈ freed cutoff (blockDirectory s) -> Forall log_ok rs ->
  exists s1, sweep None cutoff s = (Ok tt, s1) /\
    append_each rs s1 = replicate (length rs) (Err (ErrPager ErrInvalidPageID)) /\
    fst (OpenLogs None (NewStoreWithIndex (logs_left_by s1 false) idx)) = Err (ErrPager ErrInvalidPageID).
Proof.
  intros Hlr Hd Hin Hrs. pose proof (logs_not_nil _ _ _ Hlr) as Hne. destruct Hlr as [[Hf Hcur] Hok].
  destruct (sweep_pages s n _ _ cutoff (fr_pager _ _ _ _ _ _ Hf) Hd) as (p & E & Hp). eexists. split; [exact E|].
  set (s1 := mkLogs _ _ _). set (m := foldr delete _ _) in Hp.
  assert (m !! currentPageID (ls_flat s) = None) as Hm by (unfold m; by rewrite fold_delete_lookup, Hcur, decide_True).
  assert (0 < zlen pps) as Hpos by (destruct pps; [done|rewrite zlen_cons; pose proof (zlen_nonneg pps); lia]).
  split.
  - assert (stuck s1 n (FirstDataPageID + zlen pps) m) as Hs.
    { split; [apply Hf|exact Hp| |exact Hm]. cbn. rewrite Hcur. unfold FirstDataPageID. lia. }
    clear -Hs Hrs. revert Hs. generalize s1. clear s1. induction Hrs as [|r rs Hr _ IH]; intros s1 Hs; [done|]. cbn [append_each length replicate].
    destruct (stuck_append s1 _ _ _ r Hs Hr) as (s' & -> & Hs'). by rewrite IH.
  - unfold OpenLogs, on_logs, logs_left_by. cbn [ls_flat NewStoreWithIndex]. pose proof (pf_crash _ _ _ _ Hp) as Hfiles.
    change (pager (ls_flat s1)) with p. destruct (pf_open _ _ _ _ Hfiles) as (p1 & E1 & Hp1).
    assert (0 <= FirstDataPageID + zlen pps - 1) as H0' by (unfold FirstDataPageID; lia). rewrite Hcur in Hm.
    destruct (pf_read_none _ _ _ _ _ Hp1 H0' Hm) as (p2 & E2 & _).
    unfold FlatStore.Open. rewrite bind_gets. cbn [opened FlatStore.NewStore].
    erewrite bind_ok by (unfold on_pager; cbn [pager FlatStore.NewStore]; by rewrite E1).
    erewrite bind_ok by (unfold on_pager; cbn [pager with_pager]; by rewrite (pf_count _ _ _ _ Hp1)).
    rewrite (proj2 (Z.leb_gt _ _)) by lia. rewrite last_page_eq by lia. rewrite bind_assoc, bind_modify, bind_assoc.
    erewrite Monad.bind_err by (unfold on_pager; cbn [pager with_page with_pager]; by rewrite E2). done.
Qed.
End retention.
