(* ===== verification/LogQuery.v ===== *)
(** The token index: what bounds its memory and what does not, and its answers against
    the records of the store. *)

From Stdlib Require Import ZArith Lia Permutation.
From stdpp Require Import gmap list.
From S2P Require Import MetricsPoint Metrics TagIndexProof Prelude OrdMap Page Monad PagerSpec PagerFile FlatStore FlatList.
From S2P Require Import GoRuntime Binder LogRecord Logs.
Open Scope Z_scope.

(** * The LRU list and the count of memory *)

(** The terms of the list are those of the map, each once, with a locator at least; the
    count stays below the limit. *)
Record index_wf (idx : TokenIndex) : Prop := {
  iw_nodup : NoDup (lruList idx);
  iw_terms t : t ∈ lruList idx <-> is_Some (termLocs idx !! t);
  iw_locs t : termLocs idx !! t <> Some [];
  iw_mem : 0 <= curMemBytes idx < maxMemBytes idx }.

Lemma new_wf max : 0 < max -> index_wf (NewTokenIndex max).
Proof.
  intros Hm. split; cbn; [constructor| |done|lia]. intros t. rewrite lookup_empty. split; [by intros ?%not_elem_of_nil|by intros [? ?]].
Qed.

Lemma removelast_snoc {A} (l : list A) x : removelast (l ++ [x]) = l.
Proof. apply removelast_last. Qed.

Lemma evict_wf idx : index_wf idx -> index_wf (evictOldest idx).
Proof.
  intros Hw. pose proof Hw as [Hn Ht Hl Hm]. unfold evictOldest.
  destruct (lruList idx) as [|t l _] eqn:E using rev_ind; [exact Hw|].
  rewrite last_snoc. pose proof (zlen_nonneg (term_locs t idx)). pose proof (zlen_nonneg t).
  apply NoDup_app in Hn as (Hn & Hd & _).
  split; cbn [lruList termLocs curMemBytes maxMemBytes]; rewrite ?E, ?removelast_snoc; [done| | |].
  - intros u. rewrite lookup_delete_is_Some, <- Ht, elem_of_app, list_elem_of_singleton. split; [|intros [? [?| ->]]; done].
    intros Hu. split; [|by left]. intros <-. apply (Hd t Hu). by apply list_elem_of_singleton.
  - intros u. rewrite lookup_delete_Some. intros [_ Hu]. by apply (Hl u).
  - destruct (_ <? 0) eqn:Ec; [lia|]. apply Z.ltb_ge in Ec. lia.
Qed.

Lemma make_room_wf fuel added idx : index_wf idx -> index_wf (make_room fuel added idx).
Proof.
  revert idx. induction fuel as [|fuel IH]; intros idx Hw; cbn [make_room]; [done|]. destruct (_ && _); [|done].
  by apply IH, evict_wf.
Qed.

Section text.
Context `{GoText}.

Lemma insert_wf token loc idx : index_wf idx -> index_wf (Insert token loc idx).
Proof.
  intros Hw. unfold Insert. set (term := ToLower token). set (locs := term_locs term idx). cbn zeta.
  set (added := 16 + _). assert (0 <= added) as Ha.
  { unfold added. pose proof (zlen_nonneg term). destruct locs; lia. }
  pose proof (make_room_wf (length (lruList idx)) added idx Hw) as Hw1. set (idx1 := make_room _ _ _) in *.
  destruct (Z.leb_spec (maxMemBytes idx1) (curMemBytes idx1 + added)) as [|Hlt]; [done|]. destruct Hw1 as [Hn Ht Hl Hm].
  split; cbn [lruList termLocs curMemBytes maxMemBytes]; unfold to_front.
  - constructor; [|by apply NoDup_filter]. rewrite list_elem_of_filter. by intros [? _].
  - intros t. rewrite elem_of_cons, list_elem_of_filter, Ht, lookup_insert_is_Some'. destruct (decide (t = term)) as [->|Hne]; naive_solver.
  - intros t. rewrite lookup_insert_Some. intros [[_ E]|[_ E]]; [by destruct locs|by apply (Hl t)].
  - lia.
Qed.

Lemma sweep_wf cutoff idx : index_wf idx -> index_wf (Sweep cutoff idx).
Proof.
  intros [Hn Ht Hl Hm]. unfold Sweep. split; cbn [lruList termLocs curMemBytes maxMemBytes]; [by apply NoDup_filter| | |done].
  - intros t. rewrite list_elem_of_filter, Ht. split; [|].
    + intros [[E|Hs] [l E']]; [congruence|done].
    + intros Hs. split; [by right|]. destruct Hs as [l Hs]. rewrite lookup_omap in Hs. by destruct (termLocs idx !! t).
  - intros t. rewrite lookup_omap. destruct (termLocs idx !! t) as [l|]; [|done]. cbn. unfold kept_locs. by destruct (filter _ l).
Qed.

Inductive index_op : Type := IxInsert (token : list byte) (loc : RecordLocator) | IxSweep (cutoff : Z).
Definition index_step (o : index_op) (idx : TokenIndex) : TokenIndex :=
  match o with IxInsert token loc => Insert token loc idx | IxSweep cutoff => Sweep cutoff idx end.

(** Whatever is inserted and swept, the list and the map of the index agree and the
    count of its memory stays below the limit. *)
Theorem index_invariant max os : 0 < max -> index_wf (foldr index_step (NewTokenIndex max) os).
Proof. intros Hm. induction os as [|[token loc|cutoff] os IH]; cbn; [by apply new_wf|by apply insert_wf|by apply sweep_wf]. Qed.

(** The count is not the memory: the locators read before the eviction of their own term
    come back, and are not counted.  Under any limit that admits one locator, one term
    takes any number of them. *)
Theorem cap_not_enforced max token locs :
  zlen (ToLower token) + 16 + 64 < max ->
  term_locs (ToLower token) (foldl (fun idx loc => Insert token loc idx) (NewTokenIndex max) locs) = locs.
Proof.
  intros Hmax. set (term := ToLower token) in *. pose proof (zlen_nonneg term) as Hz.
  assert (forall pre, exists idx, foldl (fun idx loc => Insert token loc idx) (NewTokenIndex max) pre = idx /\
    maxMemBytes idx = max /\ 0 <= curMemBytes idx < max /\
    ((pre = [] /\ idx = NewTokenIndex max) \/ (termLocs idx = {[term := pre]} /\ lruList idx = [term] /\ pre <> []))) as Hinv.
  { intros pre. induction pre as [|loc pre IH] using rev_ind; [eexists; split; [done|]; cbn; split; [done|]; split; [lia|by left]|].
    rewrite foldl_app. cbn [foldl]. destruct IH as (idx & -> & Hm & Hc & Hcase). eexists. split; [reflexivity|].
    unfold Insert. fold term. cbn zeta. destruct Hcase as [[-> ->]|(Ht & Hl & Hne)].
    - unfold term_locs. cbn [termLocs NewTokenIndex lruList length make_room maxMemBytes curMemBytes]. rewrite lookup_empty. cbn [default from_option id].
      rewrite (proj2 (Z.leb_gt _ _)) by lia. cbn [maxMemBytes curMemBytes termLocs lruList]. split; [done|]. split; [lia|]. right. done.
    - assert (term_locs term idx = pre) as Hp by (unfold term_locs; rewrite Ht, lookup_singleton_eq; done). rewrite Hp, Hl.
      assert (match pre with [] => zlen term + 64 | _ => 0 end = 0) as Ez by (by destruct pre). rewrite Ez.
      cbn [length make_room]. rewrite Hm, Hl.
      destruct (Z.leb_spec max (curMemBytes idx + (16 + 0))) as [Hge|Hlt]; cbn [andb].
      + rewrite bool_decide_false by done. cbn [negb make_room]. unfold evictOldest. rewrite Hl. cbn [last]. rewrite Hp. cbn [removelast maxMemBytes curMemBytes].
        pose proof (zlen_nonneg pre).
        assert (0 <= (if curMemBytes idx - (zlen pre * 16 + zlen term + 64) <? 0 then 0 else curMemBytes idx - (zlen pre * 16 + zlen term + 64)) < max - 16) as Hb.
        { destruct (Z.ltb_spec (curMemBytes idx - (zlen pre * 16 + zlen term + 64)) 0); lia. }
        rewrite Hm. rewrite (proj2 (Z.leb_gt _ _)) by lia. cbn [maxMemBytes curMemBytes termLocs lruList]. split; [done|]. split; [lia|]. right.
        rewrite Ht, delete_singleton_eq. split; [done|]. split; [done|]. by destruct pre.
      + cbn [make_room]. rewrite Hm, (proj2 (Z.leb_gt _ _)) by lia. cbn [maxMemBytes curMemBytes termLocs lruList]. split; [done|]. split; [lia|]. right.
        rewrite Ht, insert_singleton_eq, Hl. split; [done|]. split; [|by destruct pre].
        unfold to_front. rewrite filter_cons_False, filter_nil by (by intros ?). done. }
  destruct (Hinv locs) as (idx & -> & _ & _ & [[-> ->]|(Ht & _ & _)]); [done|]. unfold term_locs. by rewrite Ht, lookup_singleton_eq.
Qed.

(** A sweep does not give memory back: an index whose terms were all swept stays full, and
    drops everything from then on. *)
Theorem swept_index_is_full idx cutoff token loc :
  index_wf idx -> map_Forall (fun _ locs => Forall (fun l => ll_Timestamp l < cutoff) locs) (termLocs idx) ->
  maxMemBytes idx <= curMemBytes idx + (zlen (ToLower token) + 16 + 64) ->
  let swept := Sweep cutoff idx in
  termLocs swept = ∅ /\ Insert token loc swept = swept.
Proof.
  intros Hw Hold Hfull swept. assert (termLocs swept = ∅) as He.
  { apply map_eq. intros t. unfold swept, Sweep. cbn [termLocs]. rewrite lookup_omap, lookup_empty. destruct (termLocs idx !! t) as [locs|] eqn:E; [|done].
    cbn. unfold kept_locs. specialize (Hold t locs E). cbn in Hold.
    assert (filter (fun loc => cutoff <= ll_Timestamp loc) locs = []) as ->; [|done].
    clear -Hold. induction Hold as [|l locs Hl _ IH]; [done|]. rewrite filter_cons_False; [done|lia]. }
  split; [done|]. pose proof (sweep_wf cutoff idx Hw) as [_ Ht _ _]. fold swept in Ht.
  assert (lruList swept = []) as Hl.
  { destruct (lruList swept) as [|t l] eqn:E; [done|]. destruct (proj1 (Ht t)) as [? E']; [by left|]. by rewrite He in E'. }
  unfold Insert. unfold term_locs. rewrite He, lookup_empty, Hl. cbn [default from_option id length make_room].
  change (maxMemBytes swept) with (maxMemBytes idx). change (curMemBytes swept) with (curMemBytes idx).
  rewrite (proj2 (Z.leb_le _ _)) by lia. done.
Qed.
End text.

(** * Queries by tokens: an index with room for every token answers with the records that
    contain the tokens; one of a new process answers with nothing. *)

(** * Tokens *)

Lemma dedup_elem seen l t : t ∈ dedup seen l -> t ∉ seen /\ 2 <= zlen t.
Proof.
  revert seen. induction l as [|s l IH]; intros seen; cbn [dedup]; [by intros ?%not_elem_of_nil|].
  destruct (Z.ltb_spec (zlen s) 2); cbn [orb]; [apply IH|]. destruct (decide (s ∈ seen)) as [Hs|Hs].
  - rewrite bool_decide_true by done. apply IH.
  - rewrite bool_decide_false by done. intros [->|Hin]%elem_of_cons; [done|]. destruct (IH _ Hin) as [Hn Hz]. set_solver.
Qed.

Lemma dedup_nodup seen l : NoDup (dedup seen l).
Proof.
  revert seen. induction l as [|s l IH]; intros seen; cbn [dedup]; [constructor|].
  destruct (_ || _); [apply IH|]. constructor; [|apply IH]. intros Hin. apply dedup_elem in Hin as [Hn _]. set_solver.
Qed.

Section tokens.
Context `{GoUnicode}.

(** The tokens of a text are distinct and have two bytes at least. *)
Theorem tokens_distinct text : NoDup (Tokenize text) /\ Forall (fun t => 2 <= zlen t) (Tokenize text).
Proof. split; [apply dedup_nodup|]. apply Forall_forall. intros t Ht. exact (proj2 (dedup_elem [] _ t Ht)). Qed.
End tokens.

Section query.
Context {P : Type} `{FilePager P} `{GoRuntimeLaws} `{GoText} `{GoUnicode}.
(** Lower-case letters are their own lower case. *)
Hypothesis tokens_lower : forall text t, t ∈ Tokenize text -> ToLower t = t.
Implicit Types s : LogsStore P.

Definition has_term (t : list byte) (lp : RecordLocator * LogRecord) : bool := bool_decide (t ∈ Tokenize (lr_Body lp.2)).

(** Under every term, the locators of the records that contain it. *)
Definition index_holds (idx : TokenIndex) (l : list (RecordLocator * LogRecord)) : Prop :=
  forall t, termLocs idx !! t = as_nil (map fst (List.filter (has_term t) l)).

(** What indexing a text costs at most. *)
Definition cost (text : list byte) : Z := foldr (fun t n => zlen t + 80 + n) 0 (Tokenize text).

Lemma insert_room t loc idx :
  ToLower t = t -> curMemBytes idx + (zlen t + 80) < maxMemBytes idx ->
  termLocs (Insert t loc idx) = <[t := term_locs t idx ++ [loc]]> (termLocs idx) /\
  maxMemBytes (Insert t loc idx) = maxMemBytes idx /\ curMemBytes (Insert t loc idx) <= curMemBytes idx + (zlen t + 80).
Proof.
  intros Hlow Hroom. unfold Insert. rewrite Hlow. cbn zeta. pose proof (zlen_nonneg t).
  set (added := 16 + _). assert (added <= zlen t + 80) as Ha by (unfold added; destruct (term_locs t idx); lia).
  assert (make_room (length (lruList idx)) added idx = idx) as ->.
  { destruct (length (lruList idx)); cbn [make_room]; [done|]. by rewrite (proj2 (Z.leb_gt _ _)) by lia. }
  rewrite (proj2 (Z.leb_gt _ _)) by lia. cbn. split; [done|]. split; [done|lia].
Qed.

Lemma insert_tokens toks loc idx :
  NoDup toks -> (forall t, t ∈ toks -> ToLower t = t) -> curMemBytes idx + foldr (fun t n => zlen t + 80 + n) 0 toks < maxMemBytes idx ->
  let idx' := foldl (fun i t => Insert t loc i) idx toks in
  (forall t, termLocs idx' !! t = if decide (t ∈ toks) then Some (term_locs t idx ++ [loc]) else termLocs idx !! t) /\
  maxMemBytes idx' = maxMemBytes idx /\ curMemBytes idx' <= curMemBytes idx + foldr (fun t n => zlen t + 80 + n) 0 toks.
Proof.
  intros Hn. revert idx. induction Hn as [|u toks Hu Hn IH]; intros idx Hlow Hroom; cbn [foldr foldl] in *.
  { cbn zeta. split; [|split; [done|lia]]. intros t. by rewrite decide_False by apply not_elem_of_nil. }
  assert (0 <= foldr (fun t n => zlen t + 80 + n) 0 toks) as Hpos.
  { clear. induction toks as [|t toks IH]; cbn [foldr]; [lia|]. pose proof (zlen_nonneg t). lia. }
  destruct (insert_room u loc idx) as (E1 & E2 & E3); [apply Hlow; by left|lia|].
  destruct (IH (Insert u loc idx)) as (F1 & F2 & F3); [intros t Ht; apply Hlow; by right|lia|].
  cbn zeta. split; [|split; [congruence|lia]]. intros t. rewrite F1, E1. destruct (decide (t = u)) as [->|Hne].
  - rewrite decide_False by done. rewrite decide_True by by left. by rewrite lookup_insert_eq.
  - unfold term_locs. rewrite E1, !lookup_insert_ne by done. destruct (decide (t ∈ toks)).
    + by rewrite decide_True by by right.
    + rewrite decide_False; [done|]. by intros [?|?]%elem_of_cons.
Qed.

Lemma index_holds_add r loc idx l :
  index_holds idx l -> curMemBytes idx + cost (lr_Body r) < maxMemBytes idx ->
  index_holds (index_with r loc idx) (l ++ [(loc, r)]) /\ maxMemBytes (index_with r loc idx) = maxMemBytes idx /\
  curMemBytes (index_with r loc idx) <= curMemBytes idx + cost (lr_Body r).
Proof.
  intros Hh Hroom. unfold index_with.
  destruct (insert_tokens (Tokenize (lr_Body r)) loc idx) as (F1 & F2 & F3); [apply dedup_nodup|by apply tokens_lower|done|].
  cbn zeta in *. split; [|done]. intros t. rewrite F1, List.filter_app, map_app. unfold term_locs. rewrite Hh. cbn [List.filter].
  change (has_term t (loc, r)) with (bool_decide (t ∈ Tokenize (lr_Body r))). destruct (decide (t ∈ Tokenize (lr_Body r))).
  - rewrite bool_decide_true by done. cbn. by destruct (map fst _).
  - rewrite bool_decide_false by done. cbn. by rewrite app_nil_r.
Qed.

Lemma new_holds max : index_holds (NewTokenIndex max) [].
Proof. intros t. done. Qed.

(** * Searching *)

Definition has_terms (toks : list (list byte)) (lp : RecordLocator * LogRecord) : bool := forallb (fun t => has_term t lp) toks.

Lemma nodup_fst {A B} (l : list (A * B)) x y : NoDup (map fst l) -> x ∈ l -> y ∈ l -> x.1 = y.1 -> x = y.
Proof.
  induction l as [|z l IH]; [by intros _ ?%not_elem_of_nil|]. cbn. intros Hn Hx Hy E. inversion Hn as [|? ? Hz Hn']; subst.
  apply elem_of_cons in Hx as [->|Hx], Hy as [->|Hy]; [done| | |by apply IH].
  - destruct Hz. rewrite E. by apply list_elem_of_In, in_map, list_elem_of_In.
  - destruct Hz. rewrite <- E. by apply list_elem_of_In, in_map, list_elem_of_In.
Qed.

Lemma filter_locs (f g : RecordLocator * LogRecord -> bool) l :
  NoDup (map fst l) ->
  filter (fun loc => loc ∈ map fst (List.filter f l)) (map fst (List.filter g l)) = map fst (List.filter (fun lp => g lp && f lp) l).
Proof.
  intros Hn. assert (forall lp, lp ∈ l -> (lp.1 ∈ map fst (List.filter f l) <-> f lp = true)) as Hiff.
  { intros lp Hlp. rewrite list_elem_of_fmap. split.
    - intros (lp' & E & Hin). apply list_elem_of_In, filter_In in Hin as [Hin Hf]. apply list_elem_of_In in Hin.
      by rewrite (nodup_fst l lp lp' Hn Hlp Hin E).
    - intros Hf. exists lp. split; [done|]. apply list_elem_of_In, filter_In. split; [by apply list_elem_of_In|done]. }
  revert Hiff. generalize (map fst (List.filter f l)) as ls. intros ls Hiff. clear Hn. induction l as [|lp l IH]; [done|]. cbn [List.filter].
  specialize (IH (fun lp' Hlp' => Hiff lp' (list_elem_of_further _ _ _ Hlp'))). pose proof (Hiff lp (list_elem_of_here _ _)) as Hlp.
  destruct (g lp); cbn [map andb]; [|exact IH]. destruct (f lp).
  - rewrite filter_cons_True by (by apply Hlp). cbn. by f_equal.
  - rewrite filter_cons_False by (intros Hin; by apply Hlp in Hin). exact IH.
Qed.

Lemma search_terms idx l toks :
  index_holds idx l -> NoDup (map fst l) -> toks <> [] -> Forall (fun t => ToLower t = t) toks ->
  match SearchAll toks idx with
  | Some locs => locs = map fst (List.filter (has_terms toks) l)
  | None => List.filter (has_terms toks) l = []
  end.
Proof.
  intros Hh Hn Hne Hlow. unfold SearchAll. destruct toks as [|t0 toks]; [done|]. set (all := t0 :: toks) in *.
  destruct (mapM (fun tok => termLocs idx !! ToLower tok) all) as [sets|] eqn:E; cbn [mbind option_bind].
  - apply mapM_Some in E. assert (sets = map (fun t => map fst (List.filter (has_term t) l)) all) as ->.
    { clear Hne. induction E as [|t locs ts sets Ht _ IH]; [done|]. inversion Hlow as [|? ? Hl Hlow']; subst. cbn. rewrite (IH Hlow'). f_equal.
      rewrite Hl, Hh in Ht. destruct (map fst (List.filter (has_term t) l)); cbn in Ht; congruence. }
    subst all. cbn [map]. destruct toks as [|t1 toks]; cbn [map intersectLocators].
    + f_equal. apply List.filter_ext. intros lp. unfold has_terms. cbn. by rewrite andb_true_r.
    + rewrite filter_locs by done. clear Hlow Hne E.
      assert (forall f, foldl (fun result cur => filter (fun loc => loc ∈ cur) result) (map fst (List.filter f l))
        (map (fun t => map fst (List.filter (has_term t) l)) toks) = map fst (List.filter (fun lp => f lp && has_terms toks lp) l)) as Hf.
      { induction toks as [|t toks IH]; intros f; cbn [map foldl].
        - f_equal. apply List.filter_ext. intros lp. symmetry. apply andb_true_r.
        - rewrite filter_locs by done. rewrite IH. f_equal. apply List.filter_ext. intros lp. unfold has_terms. cbn. by rewrite andb_assoc. }
      rewrite Hf. f_equal. apply List.filter_ext. intros lp. unfold has_terms. cbn. by rewrite (andb_comm (has_term t1 lp)), andb_assoc.
  - apply mapM_None in E as E'. clear E. apply Exists_exists in E' as (t & Hin & Ht). rewrite Forall_forall in Hlow.
    rewrite (Hlow t) in Ht by done. rewrite Hh in Ht. destruct (map fst (List.filter (has_term t) l)) as [|] eqn:Ef; [|done]. apply map_eq_nil in Ef.
    rewrite (List.filter_ext _ (fun lp => has_term t lp && has_terms all lp)); [by apply filter_and_nil|].
    intros lp. destruct (has_terms all lp) eqn:Ea; [|by rewrite andb_false_r]. unfold has_terms in Ea. rewrite forallb_forall in Ea.
    rewrite (Ea t); [done|]. by apply list_elem_of_In.
Qed.

(** * Locators *)

Fixpoint page_log_locs (id k : Z) (rs : list LogRecord) : list (RecordLocator * LogRecord) :=
  match rs with [] => [] | r :: rs' => (mkLogLoc id k (lr_Timestamp r), r) :: page_log_locs id (k + 1) rs' end.

Fixpoint located_logs (id : Z) (pps : list (list LogRecord)) : list (RecordLocator * LogRecord) :=
  match pps with [] => [] | rs :: pps' => page_log_locs id 0 rs ++ located_logs (id + 1) pps' end.

Lemma page_log_locs_app id k a b : page_log_locs id k (a ++ b) = page_log_locs id k a ++ page_log_locs id (k + zlen a) b.
Proof.
  revert k. induction a as [|r a IH]; intros k; cbn [app page_log_locs].
  - change (zlen (@nil LogRecord)) with 0. by rewrite Z.add_0_r.
  - rewrite IH, zlen_cons. by rewrite Z.add_assoc.
Qed.

Lemma located_logs_app id a b : located_logs id (a ++ b) = located_logs id a ++ located_logs (id + zlen a) b.
Proof.
  revert id. induction a as [|p a IH]; intros id; cbn [app located_logs].
  - change (zlen (@nil (list LogRecord))) with 0. by rewrite Z.add_0_r.
  - rewrite IH, zlen_cons, <- app_assoc. by rewrite Z.add_assoc.
Qed.

Lemma located_logs_add r pps : pps <> [] ->
  located_logs FirstDataPageID (add_log r pps) = located_logs FirstDataPageID pps ++ [(next_log_loc r pps, r)].
Proof.
  intros Hne. destruct pps as [|last pre _] using rev_ind; [done|]. unfold add_log. rewrite add_rec_snoc.
  unfold next_log_loc, next_place, next_index. rewrite rev_app_distr. cbn [rev app].
  assert (zlen (pre ++ [last]) = zlen pre + 1) as El by (rewrite zlen_app; done).
  destruct (_ <? _); cbn [fst].
  - rewrite located_logs_app, El. cbn [located_logs page_log_locs app]. done.
  - rewrite !located_logs_app. cbn [located_logs]. rewrite page_log_locs_app, !app_nil_r. cbn [page_log_locs]. rewrite El, <- app_assoc.
    replace (FirstDataPageID + (zlen pre + 1) - 1) with (FirstDataPageID + zlen pre) by lia. by rewrite Z.add_0_l.
Qed.

Lemma page_log_locs_snd id k rs : map snd (page_log_locs id k rs) = rs.
Proof. revert k. induction rs as [|r rs IH]; intros k; [done|]. cbn. by rewrite IH. Qed.

Lemma located_logs_snd id pps : map snd (located_logs id pps) = records pps.
Proof. revert id. induction pps as [|p pps IH]; intros id; [done|]. cbn. by rewrite map_app, page_log_locs_snd, IH. Qed.

Lemma page_log_locs_above id k rs : Forall (fun x => ll_PageID x = id /\ k <= ll_RecordIdx x) (map fst (page_log_locs id k rs)).
Proof.
  revert k. induction rs as [|r rs IH]; intros k; constructor; [by cbn|].
  eapply Forall_impl; [apply IH|]. cbn. intros x [? ?]. split; [done|lia].
Qed.

Lemma located_logs_above id pps : Forall (fun x => id <= ll_PageID x) (map fst (located_logs id pps)).
Proof.
  revert id. induction pps as [|p pps IH]; intros id; [constructor|]. cbn [located_logs]. rewrite map_app. apply Forall_app. split.
  - eapply Forall_impl; [apply page_log_locs_above|]. cbn. intros x [-> _]. lia.
  - eapply Forall_impl; [apply IH|]. cbn. lia.
Qed.

Lemma located_logs_nodup id pps : NoDup (map fst (located_logs id pps)).
Proof.
  revert id. induction pps as [|p pps IH]; intros id; [constructor|]. cbn [located_logs]. rewrite map_app. apply NoDup_app. split_and!; [| |apply IH].
  - generalize 0. induction p as [|r p IHp]; intros k; [constructor|]. cbn. constructor; [|apply IHp]. intros Hin.
    pose proof (page_log_locs_above id (k + 1) p) as Hp. rewrite Forall_forall in Hp. destruct (Hp _ Hin) as [_ Hk]. cbn in Hk. lia.
  - intros x Hx Hy. pose proof (page_log_locs_above id 0 p) as Hp. pose proof (located_logs_above (id + 1) pps) as Hl.
    rewrite Forall_forall in Hp, Hl. specialize (Hp x Hx). specialize (Hl x Hy). cbn in *. lia.
Qed.

(** The locators on one page. *)
Lemma located_log_page (f : RecordLocator * LogRecord -> bool) id start pps :
  List.filter (fun x => ll_PageID x =? id) (map fst (List.filter f (located_logs start pps))) =
  map fst (List.filter f (from_option (page_log_locs id 0) [] ((map_seqZ start pps : gmap Z (list LogRecord)) !! id))).
Proof.
  revert start. induction pps as [|p pps IH]; intros start; [done|]. cbn [located_logs map_seqZ].
  rewrite List.filter_app, map_app, List.filter_app. replace (Z.succ start) with (start + 1) by lia. rewrite IH.
  destruct (decide (start = id)) as [->|Hne].
  - rewrite lookup_insert_eq. cbn [from_option].
    assert ((map_seqZ (id + 1) pps : gmap Z (list LogRecord)) !! id = None) as -> by (apply lookup_map_seqZ_None; lia). cbn. rewrite app_nil_r.
    apply forallb_filter_id, forallb_forall. intros x Hx. apply list_elem_of_In, list_elem_of_fmap in Hx as (y & -> & Hy).
    apply list_elem_of_In, filter_In in Hy as [Hy _]. apply Z.eqb_eq.
    pose proof (page_log_locs_above id 0 p) as Hp. rewrite Forall_forall in Hp. apply Hp. apply list_elem_of_In, in_map, Hy.
  - rewrite lookup_insert_ne by done.
    assert (List.filter (fun x => ll_PageID x =? id) (map fst (List.filter f (page_log_locs start 0 p))) = []) as ->; [|done].
    generalize 0. induction p as [|r p IHp]; intros k; [done|]. cbn. destruct (f _); cbn; [|apply IHp].
    rewrite (proj2 (Z.eqb_neq _ _)) by done. apply IHp.
Qed.

(** * Reading by locators *)

Section range.
Context (start stop : Z).

Lemma read_indexes_suffix f id a b :
  read_indexes start stop (a ++ b) (map ll_RecordIdx (map fst (List.filter f (page_log_locs id (zlen a) b)))) =
  map snd (List.filter (fun lp => f lp && log_in_range start stop lp.2) (page_log_locs id (zlen a) b)).
Proof.
  revert a. induction b as [|r b IH]; intros a; [done|]. cbn [page_log_locs List.filter].
  specialize (IH (a ++ [r])). rewrite zlen_app in IH. change (zlen [r]) with 1 in IH. rewrite <- app_assoc in IH. cbn [app] in IH.
  destruct (f _); cbn [map andb]; [|exact IH]. unfold read_indexes in *. cbn [omap list_omap fst ll_RecordIdx snd].
  assert ((a ++ r :: b) !! Z.to_nat (zlen a) = Some r) as -> by (unfold zlen; rewrite Nat2Z.id; by apply list_lookup_middle).
  cbn [List.filter]. destruct (log_in_range start stop r); cbn [map]; by rewrite IH.
Qed.

Definition log_hits (f : RecordLocator * LogRecord -> bool) (pps : list (list LogRecord)) (id : Z) : list LogRecord :=
  from_option (fun rs => map snd (List.filter (fun lp => f lp && log_in_range start stop lp.2) (page_log_locs id 0 rs))) [] (table pps !! id).

Lemma read_log_groups_ok f n pps groups s :
  logs_rel s n pps ->
  Forall (fun g => exists rs, table pps !! g.1 = Some rs /\ g.2 = map ll_RecordIdx (map fst (List.filter f (page_log_locs g.1 0 rs)))) groups ->
  exists s', read_log_groups None start stop groups s = (Ok (concat (map (log_hits f pps) (map fst groups))), s') /\ logs_rel s' n pps.
Proof.
  intros Hr Hg. revert s Hr. induction Hg as [|[id idxs] groups (rs & Hl & Ho) _ IH]; intros s Hr; [by exists s|].
  cbn [fst snd] in Hl, Ho. subst idxs. cbn [read_log_groups map concat fst]. destruct Hr as [Hd Hok]. pose proof (dr_flat _ _ _ _ _ Hd) as Hf.
  destruct (pf_read _ _ _ _ id (image logsHeaderSize encodeLog rs) (fr_pager _ _ _ _ _ _ Hf)) as (p & E & Hp).
  { by rewrite lookup_fmap, Hl. }
  rewrite E. assert (logs_rel (mkLogs (with_pager p (ls_flat s)) (blockDirectory s) (tokenIndex s)) n pps) as Hr1.
  { split; [|done]. destruct Hd as [Hf' Hc]. split; [by destruct Hf'|done]. }
  destruct (IH _ Hr1) as (s' & E' & Hr'). exists s'. rewrite (bind_ok _ _ _ _ _ E'). split; [|done]. unfold ret. do 3 f_equal.
  unfold decodeLogPage. rewrite (decode_dense logsHeaderSize encodeLog lhs_ok parse_log log_ok parse_encoded _ _ _ id rs Hd Hok Hl).
  unfold log_hits. rewrite Hl. cbn [from_option]. exact (read_indexes_suffix f id [] rs).
Qed.

Lemma log_hits_all f pps :
  concat (map (log_hits f pps) (seqZ FirstDataPageID (zlen pps)))
    = map snd (List.filter (fun lp => f lp && log_in_range start stop lp.2) (located_logs FirstDataPageID pps)).
Proof.
  unfold log_hits, table. generalize FirstDataPageID as start0. induction pps as [|p pps IH]; intros start0; [done|].
  rewrite zlen_cons, seqZ_cons by (pose proof (zlen_nonneg pps); lia). cbn [map concat located_logs].
  rewrite List.filter_app, map_app, <- (IH (start0 + 1)). replace (Z.pred (1 + zlen pps)) with (zlen pps) by lia.
  rewrite map_seqZ_cons, lookup_insert_eq. cbn [from_option]. f_equal. f_equal. apply map_ext_in. intros id Hid.
  apply list_elem_of_In, elem_of_seqZ in Hid. by rewrite lookup_insert_ne by lia.
Qed.

Lemma read_log_locations_ok f n pps s :
  logs_rel s n pps ->
  exists r s', readLogLocations None (map fst (List.filter f (located_logs FirstDataPageID pps))) start stop s = (Ok r, s') /\
    r ≡ₚ map snd (List.filter (fun lp => f lp && log_in_range start stop lp.2) (located_logs FirstDataPageID pps)).
Proof.
  intros Hr. unfold readLogLocations. set (locs := map fst _). set (groups := map_order (map_to_list (group_log_locs locs))).
  assert (forall id, group_log_locs locs !! id =
    as_nil (map ll_RecordIdx (map fst (List.filter f (from_option (page_log_locs id 0) [] (table pps !! id)))))) as Hl.
  { intros id. etransitivity; [exact (group_pages_lookup ll_PageID ll_RecordIdx locs id)|]. unfold locs. by rewrite located_log_page. }
  assert (forall g, g ∈ groups -> group_log_locs locs !! g.1 = Some g.2) as Hin.
  { intros [id idxs] Hg. unfold groups in Hg. rewrite (map_order_perm _ _) in Hg. by apply elem_of_map_to_list in Hg. }
  destruct (read_log_groups_ok f n pps groups s Hr) as (s' & E & Hr').
  { apply Forall_forall. intros g Hg. apply list_elem_of_In, list_elem_of_In in Hg. pose proof (Hin g Hg) as Hg'. rewrite Hl in Hg'.
    destruct (table pps !! g.1) as [rs|]; [|done]. exists rs. split; [done|]. cbn [from_option] in Hg'.
    destruct (map ll_RecordIdx _); [done|]. by injection Hg' as <-. }
  eexists _, s'. split; [exact E|]. rewrite <- log_hits_all. apply concat_missing.
  - unfold groups. rewrite (Permutation_map fst (map_order_perm _ _)). apply NoDup_fst_map_to_list.
  - apply NoDup_seqZ.
  - intros id Hid. apply list_elem_of_fmap in Hid as (g & -> & Hg). specialize (Hin g Hg). rewrite Hl in Hin.
    destruct (table pps !! g.1) as [rs|] eqn:Et; [|done]. apply lookup_map_seqZ_Some in Et as [Hle Et].
    apply lookup_lt_Some in Et. apply elem_of_seqZ. unfold zlen. lia.
  - intros id Hid. unfold log_hits. destruct (table pps !! id) as [rs|] eqn:Et; [|done]. cbn [from_option].
    destruct (group_log_locs locs !! id) as [idxs|] eqn:Eg.
    { destruct Hid. apply list_elem_of_fmap. exists (id, idxs). split; [done|]. unfold groups. rewrite (map_order_perm _ _).
      by apply elem_of_map_to_list. }
    rewrite Hl, Et in Eg. cbn [from_option] in Eg. rewrite filter_and_nil; [done|].
    by destruct (List.filter f (page_log_locs id 0 rs)).
Qed.
End range.

(** ** Queries *)

(** A record in the range with all of the tokens. *)
Definition matches_tokens (start stop : Z) (toks : list (list byte)) (r : LogRecord) : bool :=
  log_in_range start stop r && forallb (fun t => bool_decide (t ∈ Tokenize (lr_Body r))) toks.


(** After a restart the index is empty and is not filled from the pages: a search by
    tokens finds none of the records of the file. *)
Theorem restart_empties_search p n pps max start stop tok toks :
  holds logsHeaderSize encodeLog p n pps -> Forall (Forall log_ok) pps ->
  exists s s' r, OpenLogs None (NewStoreWithIndex p (Some (NewTokenIndex max))) = (Ok tt, s) /\
    ScanRange None start stop [] s = (Ok (List.filter (log_selected start stop []) (records pps)), s') /\
    ScanRangeWithIndex None start stop (tok :: toks) s = (Ok r, s) /\ r = [].
Proof.
  intros Hp Hok. destruct (open_again_logs p n pps (Some (NewTokenIndex max)) Hp Hok) as (s & E & Hi & Hr).
  destruct (scan_logs_ok s n pps start stop [] Hr) as (s' & E' & _). exists s, s', []. split; [done|]. split; [done|]. split; [|done].
  unfold ScanRangeWithIndex. erewrite bind_ok by (apply on_logs_ok; reflexivity).
  rewrite (fr_opened _ _ _ _ _ _ (dr_flat _ _ _ _ _ (lr_dense _ _ _ Hr))). cbn [negb].
  assert (mkLogs (ls_flat s) (blockDirectory s) (tokenIndex s) = s) as -> by (by destruct s). rewrite bind_gets, Hi. done.
Qed.
End query.
