(* ===== verification/LogBlock.v ===== *)
(** [internal/engine/logs/compress.go]: compressed blocks of logs on consecutive pages.

    The DEFLATE streams of [compress/flate] are the class [GoFlate]: what a writer
    produces for some bytes, and what a reader delivers from a stream before it ends, with
    whether it ended because the stream is corrupt.  Slices have no room behind their
    length, so slicing past it panics. *)

From Stdlib Require Import ZArith Lia.
From stdpp Require Import gmap list.
From S2P Require Import Prelude Page Monad PagerSpec PagerFile FlatStore.
Open Scope Z_scope.
Open Scope st_scope.

Class GoFlate := { flate_write : list byte -> list byte; flate_read : list byte -> list byte * bool }.
Class GoFlateLaws `{GoFlate} := flate_roundtrip : forall d, flate_read (flate_write d) = (d, false).

Definition BlockMagic : Z := 0x4C4F4743.
Definition BlockHeaderSize : Z := 32.
Definition ChunkSize : Z := DataPageBodySize.

Record BlockHeader := mkBlockHeader {
  bh_Magic : Z; UncompressedLength : Z; CompressedLength : Z; RecordCount : Z; bh_MinTimestamp : Z; bh_MaxTimestamp : Z }.

Inductive block_err : Type := ErrBlockTooSmall | ErrBlockMagic | ErrDecompress | ErrBlockPanic | ErrBlockPager (e : pager_err).

Definition encode_block_header (h : BlockHeader) : list byte :=
  be_encode 4 (bh_Magic h) ++ be_encode 4 (UncompressedLength h) ++ be_encode 4 (CompressedLength h) ++
  be_encode 4 (RecordCount h) ++ be_encode 8 (wrap64 (bh_MinTimestamp h)) ++ be_encode 8 (wrap64 (bh_MaxTimestamp h)).

Definition decode_block_header (d : list byte) : BlockHeader :=
  mkBlockHeader (be_decode (slice d 0 4)) (be_decode (slice d 4 8)) (be_decode (slice d 8 12)) (be_decode (slice d 12 16))
    (swrap64 (be_decode (slice d 16 24))) (swrap64 (be_decode (slice d 24 32))).

Section flate.
Context `{GoFlate}.

(** Also the header with its lengths, which the code writes into the caller's. *)
Definition CompressBlock (rawBytes : list byte) (header : BlockHeader) : list byte * BlockHeader :=
  let compressedBytes := flate_write rawBytes in
  let header := mkBlockHeader BlockMagic (wrap32 (zlen rawBytes)) (wrap32 (zlen compressedBytes)) (RecordCount header)
                  (bh_MinTimestamp header) (bh_MaxTimestamp header) in
  (encode_block_header header ++ compressedBytes, header).

(** A short stream leaves zeros at the end, without an error. *)
Definition DecompressBlock (compressedBlock : list byte) : res block_err (list byte * BlockHeader) :=
  if zlen compressedBlock <? BlockHeaderSize then Err ErrBlockTooSmall
  else
    let header := decode_block_header compressedBlock in
    if negb (bh_Magic header =? BlockMagic) then Err ErrBlockMagic
    else
      let stop := wrap32 (BlockHeaderSize + CompressedLength header) in
      if (stop <? BlockHeaderSize) || (zlen compressedBlock <? stop) then Err ErrBlockPanic
      else
        let '(data, corrupt) := flate_read (slice compressedBlock BlockHeaderSize stop) in
        if (zlen data <? UncompressedLength header) && corrupt then Err ErrDecompress
        else Ok (copy_into (zrep (UncompressedLength header) x00) 0 (UncompressedLength header) data, header).
End flate.

(** * Blocks on pages *)

Section pages.
Context {P : Type} `{PagerOps P}.

Definition block_op {A} (op : P -> res pager_err A * P) : st P block_err A := fun p =>
  match op p with (Ok a, p') => (Ok a, p') | (Err e, p') => (Err (ErrBlockPager e), p') end.

(** A chunk of at least one byte a round. *)
Fixpoint write_chunks (fuel : nat) (cx : ctx) (pageID : Z) (data : list byte) : st P block_err unit :=
  match fuel, data with
  | S fuel', _ :: _ =>
      let chunk := ztake ChunkSize data in
      block_op (pg_WritePage cx pageID (copy_into (zrep ChunkSize x00) 0 ChunkSize chunk)) ;;;
      write_chunks fuel' cx (wrap64 (pageID + 1)) (zdrop ChunkSize data)
  | _, _ => ret tt
  end.

Definition WriteBlock (cx : ctx) (startPageID : Z) (data : list byte) : st P block_err unit :=
  write_chunks (length data) cx startPageID data.

(** [for i := 1; i < pageCount; i++] *)
Fixpoint read_chunks (cx : ctx) (startPageID : Z) (ids : list Z) (blockData : list byte) : st P block_err (list byte) :=
  match ids with
  | [] => ret blockData
  | i :: ids' =>
      pageBody <- block_op (pg_ReadPage cx (wrap64 (startPageID + i))) ;;
      read_chunks cx startPageID ids' (copy_into blockData (i * ChunkSize) (zlen blockData) pageBody)
  end.

Definition ReadBlock (cx : ctx) (startPageID : Z) : st P block_err (list byte) :=
  firstPage <- block_op (pg_ReadPage cx startPageID) ;;
  if zlen firstPage <? BlockHeaderSize then fail ErrBlockTooSmall
  else if negb (be_decode (slice firstPage 0 4) =? BlockMagic) then fail ErrBlockMagic
  else
    let compressedLen := be_decode (slice firstPage 8 12) in
    let totalBlockSize := BlockHeaderSize + compressedLen in
    let pageCount := (totalBlockSize + ChunkSize - 1) / ChunkSize in
    let blockData := copy_into (zrep totalBlockSize x00) 0 totalBlockSize firstPage in
    read_chunks cx startPageID (seqZ 1 (pageCount - 1)) blockData.
End pages.

(** * Blocks of logs: compression and the pages under it, there and back. *)

(** * Headers *)

Record header_ok (h : BlockHeader) : Prop := {
  ho_count : 0 <= RecordCount h < 2 ^ 32; ho_min : i64 (bh_MinTimestamp h); ho_max : i64 (bh_MaxTimestamp h) }.

Lemma zlen_block_header h : zlen (encode_block_header h) = BlockHeaderSize.
Proof. unfold encode_block_header. by rewrite !zlen_app, !zlen_be_encode. Qed.

Lemma slice_between {A} (a b c : list A) x y : x = zlen a -> y = x + zlen b -> slice (a ++ b ++ c) x y = b.
Proof.
  intros -> ->. pose proof (zlen_nonneg a). pose proof (zlen_nonneg b). rewrite slice_app_r by lia.
  rewrite slice_app_l by lia. apply slice_full; lia.
Qed.

Lemma decode4 v : 0 <= v < 2 ^ 32 -> be_decode (be_encode 4 v) = v.
Proof. exact (be_decode_encode 4 v). Qed.
Lemma decode8 v : u64 v -> be_decode (be_encode 8 v) = v.
Proof. exact (be_decode_encode 8 v). Qed.

Lemma decode_header h rest :
  header_ok h -> 0 <= bh_Magic h < 2 ^ 32 -> 0 <= UncompressedLength h < 2 ^ 32 -> 0 <= CompressedLength h < 2 ^ 32 ->
  decode_block_header (encode_block_header h ++ rest) = h.
Proof.
  intros [Hc Hmin Hmax] Hm Hu Hcl. unfold decode_block_header, encode_block_header.
  pose proof (decode4 _ Hm) as D1. pose proof (decode4 _ Hu) as D2. pose proof (decode4 _ Hcl) as D3. pose proof (decode4 _ Hc) as D4.
  pose proof (decode8 _ (wrap64_range (bh_MinTimestamp h))) as D5. pose proof (decode8 _ (wrap64_range (bh_MaxTimestamp h))) as D6.
  pose proof (zlen_be_encode 4 (bh_Magic h)) as L1. pose proof (zlen_be_encode 4 (UncompressedLength h)) as L2.
  pose proof (zlen_be_encode 4 (CompressedLength h)) as L3. pose proof (zlen_be_encode 4 (RecordCount h)) as L4.
  pose proof (zlen_be_encode 8 (wrap64 (bh_MinTimestamp h))) as L5. pose proof (zlen_be_encode 8 (wrap64 (bh_MaxTimestamp h))) as L6.
  revert D1 D2 D3 D4 D5 D6 L1 L2 L3 L4 L5 L6.
  generalize (be_encode 4 (bh_Magic h)) (be_encode 4 (UncompressedLength h)) (be_encode 4 (CompressedLength h)) (be_encode 4 (RecordCount h))
    (be_encode 8 (wrap64 (bh_MinTimestamp h))) (be_encode 8 (wrap64 (bh_MaxTimestamp h))).
  intros a b c d e f D1 D2 D3 D4 D5 D6 L1 L2 L3 L4 L5 L6. rewrite <- !app_assoc.
  rewrite (slice_app_l a) by (rewrite ?L1; done). rewrite slice_full by (rewrite ?L1; done).
  rewrite (slice_between a b) by (rewrite ?L1, ?L2; done).
  rewrite (app_assoc a b). rewrite (slice_between (a ++ b) c) by (rewrite ?zlen_app, ?L1, ?L2, ?L3; done).
  rewrite (app_assoc (a ++ b) c). rewrite (slice_between ((a ++ b) ++ c) d) by (rewrite ?zlen_app, ?L1, ?L2, ?L3, ?L4; done).
  rewrite (app_assoc ((a ++ b) ++ c) d). rewrite (slice_between (((a ++ b) ++ c) ++ d) e) by (rewrite ?zlen_app, ?L1, ?L2, ?L3, ?L4, ?L5; done).
  rewrite (app_assoc (((a ++ b) ++ c) ++ d) e).
  rewrite (slice_between ((((a ++ b) ++ c) ++ d) ++ e) f) by (rewrite ?zlen_app, ?L1, ?L2, ?L3, ?L4, ?L5, ?L6; done).
  rewrite D1, D2, D3, D4, D5, D6, !swrap64_wrap64 by done. by destruct h.
Qed.

(** * Compression *)

Section flate.
Context `{GoFlateLaws}.

Definition block_fits (raw : list byte) : Prop := zlen raw < 2 ^ 32 /\ BlockHeaderSize + zlen (flate_write raw) < 2 ^ 32.

Lemma compressed_header raw h : header_ok h -> block_fits raw ->
  let '(block, h') := CompressBlock raw h in
  block = encode_block_header h' ++ flate_write raw /\ header_ok h' /\ bh_Magic h' = BlockMagic /\
  UncompressedLength h' = zlen raw /\ CompressedLength h' = zlen (flate_write raw).
Proof.
  intros [Hc Hmin Hmax] [Hr Hf]. unfold CompressBlock. cbn. split; [done|]. split; [by split|]. split; [done|].
  pose proof (zlen_nonneg raw). pose proof (zlen_nonneg (flate_write raw)). unfold BlockHeaderSize, wrap32 in *. rewrite !Z.mod_small by lia. done.
Qed.

(** A block decompresses to what was compressed, with its header. *)
Theorem block_roundtrip raw h :
  header_ok h -> block_fits raw ->
  DecompressBlock (fst (CompressBlock raw h)) = Ok (raw, snd (CompressBlock raw h)).
Proof.
  intros Hh Hfit. pose proof (compressed_header raw h Hh Hfit) as Hc. destruct (CompressBlock raw h) as [block h'].
  destruct Hc as (-> & Hh' & Hm & Hu & Hl). destruct Hfit as [Hr Hf]. cbn [fst snd].
  pose proof (zlen_nonneg raw). pose proof (zlen_nonneg (flate_write raw)). unfold BlockHeaderSize in *.
  unfold DecompressBlock. rewrite zlen_app, zlen_block_header. unfold BlockHeaderSize. rewrite (proj2 (Z.ltb_ge _ _)) by lia.
  rewrite decode_header by (rewrite ?Hm, ?Hu, ?Hl; try lia; done). rewrite Hm, Z.eqb_refl. cbn [negb].
  rewrite Hl. assert (wrap32 (32 + zlen (flate_write raw)) = 32 + zlen (flate_write raw)) as -> by (apply Z.mod_small; lia).
  rewrite (proj2 (Z.ltb_ge _ 32)), (proj2 (Z.ltb_ge _ (32 + _))) by lia. cbn [orb].
  rewrite slice_app_r by (rewrite zlen_block_header; unfold BlockHeaderSize; lia).
  rewrite zlen_block_header. unfold BlockHeaderSize. rewrite slice_full by lia. rewrite flate_roundtrip. rewrite Hu, andb_false_r.
  unfold copy_into, splice. rewrite ztake_0, ztake_all, zdrop_all; [by rewrite app_nil_r|rewrite zlen_rep by lia; lia|lia].
Qed.
End flate.

(** * Pages *)

Definition chunk (data : list byte) (k : Z) : list byte := ztake ChunkSize (zdrop (k * ChunkSize) data).
Definition chunk_page (data : list byte) (k : Z) : list byte := copy_into (zrep ChunkSize x00) 0 ChunkSize (chunk data k).
Definition chunks (data : list byte) : Z := (zlen data + ChunkSize - 1) / ChunkSize.

Lemma chunk_size : ChunkSize = 4084.
Proof. reflexivity. Qed.

Lemma chunk_page_eq data k : chunk_page data k = chunk data k ++ zrep (ChunkSize - zlen (chunk data k)) x00.
Proof.
  unfold chunk_page, copy_into, splice. rewrite ztake_0. cbn [app].
  assert (zlen (chunk data k) <= ChunkSize) as Hle.
  { unfold chunk, zlen, ztake. rewrite length_take. rewrite chunk_size. lia. }
  rewrite ztake_all by lia. rewrite zdrop_zrep; [done|]. pose proof (zlen_nonneg (chunk data k)). lia.
Qed.

Lemma zlen_chunk_page data k : zlen (chunk_page data k) = DataPageBodySize.
Proof.
  rewrite chunk_page_eq, zlen_app, zlen_rep; [rewrite chunk_size; unfold DataPageBodySize, PageSize; lia|].
  unfold chunk, zlen, ztake. rewrite length_take. rewrite chunk_size. lia.
Qed.

Lemma chunks_nil : chunks [] = 0.
Proof. reflexivity. Qed.

Lemma chunks_pos data : data <> [] -> chunks data = 1 + chunks (zdrop ChunkSize data).
Proof.
  intros Hne. unfold chunks. assert (0 < zlen data) by (destruct data; [done|rewrite zlen_cons; pose proof (zlen_nonneg data); lia]).
  assert (zlen (zdrop ChunkSize data) = Z.max 0 (zlen data - ChunkSize)) as ->.
  { unfold zlen, zdrop. rewrite length_drop, chunk_size. lia. }
  rewrite chunk_size. Z.to_euclidean_division_equations; lia.
Qed.

Lemma chunk_page_shift data k : 0 <= k -> chunk_page (zdrop ChunkSize data) k = chunk_page data (k + 1).
Proof.
  intros Hk. unfold chunk_page, chunk. rewrite zdrop_zdrop by (rewrite chunk_size; lia). do 3 f_equal. rewrite chunk_size. lia.
Qed.

Section pages.
Context {P : Type} `{FilePager P}.
Implicit Types (p : P) (m : gmap Z (list byte)).

(** The pages from [start] on hold the data. *)
Definition block_written (start : Z) (data : list byte) m m' : Prop :=
  forall id, m' !! id = if decide (start <= id < start + chunks data) then Some (chunk_page data (id - start)) else m !! id.

Lemma chunks_nonneg data : 0 <= chunks data.
Proof. unfold chunks. apply Z.div_pos; [|by rewrite chunk_size]. pose proof (zlen_nonneg data). rewrite chunk_size. lia. Qed.

Lemma write_chunks_ok fuel start data p n c m :
  pf_rel p n c m -> (length data <= fuel)%nat ->
  (forall id, start <= id < start + chunks data -> is_Some (m !! id)) ->
  exists p' m', write_chunks fuel None start data p = (Ok tt, p') /\ pf_rel p' n c m' /\ block_written start data m m'.
Proof.
  revert start data p m. induction fuel as [|fuel IH]; intros start data p m Hp Hf Hids.
  - destruct data; [|cbn in Hf; lia]. exists p, m. split; [done|]. split; [done|]. intros id. rewrite decide_False by (rewrite chunks_nil; lia). done.
  - destruct data as [|b data']; [exists p, m; split; [done|]; split; [done|]; intros id; rewrite decide_False by (rewrite chunks_nil; lia); done|].
    cbn [write_chunks]. set (data := b :: data') in *. pose proof (chunks_pos data ltac:(done)) as Hc. pose proof (chunks_nonneg (zdrop ChunkSize data)) as Hc0.
    destruct (pf_write p n c m start (chunk_page data 0) Hp) as (p1 & E1 & Hp1); [apply Hids; lia|apply zlen_chunk_page|].
    assert (copy_into (zrep ChunkSize x00) 0 ChunkSize (ztake ChunkSize data) = chunk_page data 0) as -> by done.
    erewrite bind_ok by (unfold block_op; by rewrite E1).
    destruct (pf_ok _ _ _ _ Hp) as [Hcount Hdom].
    assert (FirstDataPageID <= start < c) as Hs by (destruct (Hids start ltac:(lia)) as [b0 Hb0]; apply (Hdom _ _ Hb0)).
    unfold max_pages, FirstDataPageID in *. rewrite wrap64_id by (unfold u64; lia).
    destruct (IH (start + 1) (zdrop ChunkSize data) p1 _ Hp1) as (p2 & m2 & E2 & Hp2 & Hw).
    { unfold zdrop. rewrite length_drop, chunk_size. subst data. cbn [length] in *. lia. }
    { intros id Hid. rewrite lookup_insert_ne by lia. apply Hids. lia. }
    exists p2, m2. split; [exact E2|]. split; [done|]. intros id. rewrite (Hw id). destruct (decide (start + 1 <= id < _)) as [Hin|Hout].
    + rewrite decide_True by lia. rewrite chunk_page_shift by lia. do 2 f_equal. lia.
    + destruct (decide (id = start)) as [->|Hne]; [rewrite decide_True by lia; rewrite lookup_insert_eq; do 2 f_equal; lia|].
      rewrite decide_False by lia. by rewrite lookup_insert_ne by lia.
Qed.

(** ** Reading *)

(** What the first [k] pages give. *)
Definition read_so_far (data : list byte) (k : Z) : list byte :=
  ztake (k * ChunkSize) data ++ zrep (zlen data - k * ChunkSize) x00.

Lemma ztake_add {A} a b (l : list A) : 0 <= a -> 0 <= b -> ztake (a + b) l = ztake a l ++ ztake b (zdrop a l).
Proof.
  intros Ha Hb. rewrite <- (ztake_zdrop a (ztake (a + b) l)). rewrite ztake_ztake, zdrop_ztake by lia. f_equal; f_equal; lia.
Qed.

Lemma zlen_so_far data k : 0 <= k -> zlen (read_so_far data k) = zlen data.
Proof.
  intros Hk. unfold read_so_far. rewrite zlen_app, zlen_ztake_min by (rewrite chunk_size; lia). rewrite chunk_size.
  destruct (Z.le_ge_cases (zlen data) (k * 4084)).
  - rewrite zrep_nil by lia. change (zlen (@nil byte)) with 0. lia.
  - rewrite zlen_rep by lia. lia.
Qed.

Lemma read_step data k : 0 <= k -> k * ChunkSize < zlen data ->
  copy_into (read_so_far data k) (k * ChunkSize) (zlen (read_so_far data k)) (chunk_page data k) = read_so_far data (k + 1).
Proof.
  intros Hk Hlt. rewrite zlen_so_far by done. unfold copy_into, splice, read_so_far. set (o := k * ChunkSize) in *.
  assert (0 <= o) as Ho by (unfold o; rewrite chunk_size; lia).
  rewrite ztake_app_eq by (by rewrite zlen_ztake by lia).
  replace ((k + 1) * ChunkSize) with (o + ChunkSize) by (unfold o; lia).
  rewrite ztake_add by (rewrite ?chunk_size; lia). rewrite <- app_assoc. f_equal. fold (chunk data k).
  change (ztake ChunkSize (zdrop o data)) with (chunk data k).
  assert (zlen (chunk data k) = Z.min ChunkSize (zlen data - o)) as Hl.
  { unfold chunk. rewrite zlen_ztake_min by (rewrite chunk_size; lia). fold o. rewrite zlen_zdrop by lia. done. }
  rewrite chunk_page_eq. destruct (Z.le_ge_cases (o + ChunkSize) (zlen data)) as [Hfull|Hlast].
  - rewrite Z.min_l in Hl by lia. rewrite (zrep_nil (ChunkSize - _)) by lia. rewrite app_nil_r, ztake_all by lia. f_equal.
    rewrite zdrop_app_r by (rewrite zlen_ztake by lia; rewrite chunk_size in *; lia). rewrite zlen_ztake by lia. rewrite Hl.
    rewrite zdrop_zrep by (rewrite chunk_size in *; lia). f_equal. lia.
  - rewrite Z.min_r in Hl by lia. rewrite ztake_app_eq by lia. rewrite (zrep_nil (zlen data - (o + ChunkSize))) by lia. rewrite app_nil_r. f_equal.
    rewrite zdrop_app_r by (rewrite zlen_ztake by lia; lia). rewrite zlen_ztake by lia.
    rewrite zdrop_all; [by rewrite app_nil_r|]. rewrite zlen_rep by lia. lia.
Qed.

Lemma read_chunks_ok start data p n c m ks k :
  pf_rel p n c m -> 0 <= k -> (forall id, start <= id < start + chunks data -> m !! id = Some (chunk_page data (id - start))) ->
  start + chunks data <= 2 ^ 64 -> 0 <= start -> k + Z.of_nat ks = chunks data ->
  exists p', read_chunks None start (seqZ k (Z.of_nat ks)) (read_so_far data k) p = (Ok data, p') /\ pf_rel p' n c m.
Proof.
  intros Hp Hk Hids H64 Hstart. revert k p Hp Hk. induction ks as [|ks IH]; intros k p Hp Hk Hsum.
  - exists p. split; [|done]. change (seqZ k (Z.of_nat 0)) with (@nil Z). cbn [read_chunks]. unfold ret, read_so_far.
    assert (zlen data <= k * ChunkSize) as Hle.
    { unfold chunks in Hsum. rewrite chunk_size in *. pose proof (zlen_nonneg data). revert Hsum. Z.to_euclidean_division_equations; lia. }
    rewrite ztake_all, zrep_nil by lia. by rewrite app_nil_r.
  - rewrite seqZ_cons by lia. replace (Z.pred (Z.of_nat (S ks))) with (Z.of_nat ks) by lia. cbn [read_chunks].
    rewrite wrap64_id by (unfold u64; lia).
    destruct (pf_read p n c m (start + k) (chunk_page data k) Hp) as (p1 & E1 & Hp1).
    { rewrite Hids by lia. do 2 f_equal. lia. }
    erewrite bind_ok by (unfold block_op; by rewrite E1). rewrite read_step; [|done|].
    + replace (Z.succ k) with (k + 1) by lia. apply IH; [done|lia|lia].
    + unfold chunks in Hsum. rewrite chunk_size in *. revert Hsum. Z.to_euclidean_division_equations; lia.
Qed.

Context `{GoFlateLaws}.

(** A compressed block written to allocated pages is read back, and decompresses to what
    was written; the other pages stay. *)
Theorem block_pages_roundtrip raw h start p n c m :
  pf_rel p n c m -> header_ok h -> block_fits raw ->
  (forall id, start <= id < start + chunks (fst (CompressBlock raw h)) -> is_Some (m !! id)) ->
  exists p1 p2 m', WriteBlock None start (fst (CompressBlock raw h)) p = (Ok tt, p1) /\ pf_rel p1 n c m' /\
    (forall id, ~ (start <= id < start + chunks (fst (CompressBlock raw h))) -> m' !! id = m !! id) /\
    ReadBlock None start p1 = (Ok (fst (CompressBlock raw h)), p2) /\
    DecompressBlock (fst (CompressBlock raw h)) = Ok (raw, snd (CompressBlock raw h)).
Proof.
  intros Hp Hh Hfit Hids. pose proof (block_roundtrip raw h Hh Hfit) as Hd. pose proof (compressed_header raw h Hh Hfit) as Hc.
  destruct (CompressBlock raw h) as [data h']. destruct Hc as (Hdata & Hh' & Hm & Hu & Hl). cbn [fst snd] in *.
  destruct (write_chunks_ok (length data) start data p n c m Hp (le_n _) Hids) as (p1 & m' & E1 & Hp1 & Hw).
  destruct Hfit as [Hr Hf]. pose proof (zlen_nonneg (flate_write raw)).
  assert (zlen data = BlockHeaderSize + zlen (flate_write raw)) as Hz by (by rewrite Hdata, zlen_app, zlen_block_header).
  assert (1 <= chunks data) as Hc1.
  { rewrite (chunks_pos data); [pose proof (chunks_nonneg (zdrop ChunkSize data)); lia|]. intros ->. unfold BlockHeaderSize in Hz. change (zlen (@nil byte)) with 0 in Hz. lia. }
  destruct (pf_ok _ _ _ _ Hp) as [Hcount Hdom]. unfold max_pages, FirstDataPageID in Hcount.
  assert (0 <= start /\ start + chunks data <= 2 ^ 64) as [Hs0 Hs64].
  { destruct (Hids start ltac:(lia)) as [b Hb]. destruct (Hids (start + chunks data - 1) ltac:(lia)) as [b' Hb'].
    pose proof (Hdom _ _ Hb) as [_ Hd1]. pose proof (Hdom _ _ Hb') as [_ Hd2]. unfold FirstDataPageID in *. lia. }
  assert (forall id, start <= id < start + chunks data -> m' !! id = Some (chunk_page data (id - start))) as Hpages
    by (intros id Hid; rewrite (Hw id); by rewrite decide_True).
  destruct (pf_read p1 n c m' start (chunk_page data 0) Hp1) as (p2 & E2 & Hp2); [rewrite Hpages by lia; do 2 f_equal; lia|].
  destruct (read_chunks_ok start data p2 n c m' (Z.to_nat (chunks data - 1)) 1 Hp2) as (p3 & E3 & _); [lia|done|done|done|lia|].
  exists p1, p3, m'. split; [exact E1|]. split; [done|]. split; [intros id Hid; rewrite (Hw id); by rewrite decide_False|]. split; [|done].
  unfold ReadBlock. erewrite bind_ok by (unfold block_op; by rewrite E2). rewrite zlen_chunk_page.
  change (DataPageBodySize <? BlockHeaderSize) with false. cbn iota.
  assert (forall x y, 0 <= x -> y <= BlockHeaderSize -> slice (chunk_page data 0) x y = slice data x y) as Hsl.
  { intros x y Hx Hy. rewrite chunk_page_eq. unfold chunk. rewrite Z.mul_0_l, zdrop_0. rewrite slice_app_l; [|done|rewrite zlen_ztake_min by (rewrite chunk_size; lia); unfold BlockHeaderSize in *; rewrite chunk_size; lia].
    unfold slice. rewrite zdrop_ztake by done. rewrite ztake_ztake. f_equal. unfold BlockHeaderSize in *. rewrite chunk_size. lia. }
  rewrite !Hsl by (unfold BlockHeaderSize; lia).
  pose proof (decode_header h' (flate_write raw) Hh') as Hdec. rewrite <- Hdata in Hdec. unfold BlockHeaderSize in *.
  specialize (Hdec ltac:(rewrite Hm; done) ltac:(pose proof (zlen_nonneg raw); lia) ltac:(lia)).
  assert (be_decode (slice data 0 4) = BlockMagic) as -> by (rewrite <- Hm, <- Hdec; done).
  assert (be_decode (slice data 8 12) = zlen (flate_write raw)) as -> by (rewrite <- Hl, <- Hdec; done).
  rewrite Z.eqb_refl. cbn [negb]. rewrite <- Hz. fold (chunks data).
  rewrite Z2Nat.id in E3 by lia. rewrite <- E3. f_equal.
  replace (read_so_far data 1) with (read_so_far data (0 + 1)) by done.
  rewrite <- (read_step data 0) by (rewrite ?chunk_size; lia). rewrite zlen_so_far by lia. unfold read_so_far. rewrite Z.mul_0_l, ztake_0, Z.sub_0_r. done.
Qed.

(** Writing does not allocate: on a page that is not allocated it fails. *)
Theorem write_block_does_not_allocate start data p n c m :
  pf_rel p n c m -> data <> [] -> 0 <= start -> m !! start = None ->
  WriteBlock None start data p = (Err (ErrBlockPager ErrInvalidPageID), p).
Proof.
  intros Hp Hne Hs Hm. unfold WriteBlock. destruct data as [|b data]; [done|]. cbn [length write_chunks].
  apply bind_err. unfold block_op. by rewrite (pf_write_none p n c m start _ Hp Hs Hm).
Qed.
End pages.
