(* ===== verification/MetricsEngine.v ===== *)
(** [internal/engine/metrics/engine.go]: SQL on the store of metric points.

    A SELECT becomes a time range and tags; the table is not looked at.  The order in
    which [range] visits the columns of an INSERT decides which column is the value. *)

From Stdlib Require Import ZArith Lia SpecFloat.
From Stdlib Require Strings.String.
From stdpp Require Import gmap list.
From S2P Require Import Rollup.
From S2P Require Import Prelude OrdMap Page Monad PagerSpec PagerFile FlatStore FlatList GoRuntime GoFmt Datum Binder DmlRow MetricsPoint Metrics.
Import String.StringSyntax.
Open Scope Z_scope.
Open Scope st_scope.

(** [json.Unmarshal] into the columns of a schema, with their names and types. *)
Class SchemaJSON := schema_columns : list byte -> option (list (list byte * list byte)).

Inductive metrics_err : Type :=
| ErrUnsupportedQuery | ErrMissingTimeColumn | ErrNoMetricValueColumn | ErrSchemaJSON | ErrNotInsert | ErrNotSelect
| ErrInvalidTime | ErrInvalidValue (col : list byte) | ErrMetricsStore (e : store_err).

Definition col_time : list byte := go_string "time".
Definition col_tags : list byte := go_string "tags".
Definition col_metric_name : list byte := go_string "metric_name".

(** * ValidateSchema *)

Section schema.
Context `{GoText} `{SchemaJSON}.

Definition is_integer_type (t : list byte) : bool := bool_decide (t ∈ [go_string "int64"; go_string "uint64"]).
Definition is_numeric_type (t : list byte) : bool := is_integer_type t || bool_decide (t = go_string "float64").
Definition is_time_column (c : list byte * list byte) : bool := bool_decide (ToLower c.1 = col_time).

Definition ValidateSchema (schemaJSON : list byte) : res metrics_err unit :=
  match schema_columns schemaJSON with
  | None => Err ErrSchemaJSON
  | Some cols =>
      if negb (existsb (fun c => is_time_column c && is_integer_type c.2) cols) then Err ErrMissingTimeColumn
      else if negb (existsb (fun c => negb (is_time_column c) && is_numeric_type c.2) cols) then Err ErrNoMetricValueColumn
      else Ok tt
  end.
End schema.

(** * WHERE *)

Section where_clause.
Context `{GoText}.

(** The bounds and the tags found so far. *)
Record filters := mkFilters { f_start : Z; f_end : Z; f_tags : tag_pairs }.

Definition set_start (v : option Z) (f : filters) : filters :=
  match v with Some v => mkFilters v (f_end f) (f_tags f) | None => f end.
Definition set_end (v : option Z) (f : filters) : filters :=
  match v with Some v => mkFilters (f_start f) v (f_tags f) | None => f end.

Fixpoint walkWhere (expr : Query.expr) (f : filters) : filters :=
  match expr with
  | Query.AndExpr l r => walkWhere r (walkWhere l f)
  | Query.ComparisonExpr o l r =>
      let colName := ToLower (Query.o_String l) in
      let v := ParseInt (Query.o_String r) in
      match o with
      | Query.GreaterEqualOp => if bool_decide (colName = col_time) then set_start v f else f
      | Query.LessEqualOp => if bool_decide (colName = col_time) then set_end v f else f
      | Query.GreaterThanOp => if bool_decide (colName = col_time) then set_start ((fun v => swrap64 (v + 1)) <$> v) f else f
      | Query.LessThanOp => if bool_decide (colName = col_time) then set_end ((fun v => swrap64 (v - 1)) <$> v) f else f
      | Query.EqualOp => mkFilters (f_start f) (f_end f) (<[colName := stripQuotes (Query.o_String r)]> (f_tags f))
      | _ => f
      end
  | Query.BetweenExpr IsBetween l from to =>
      if negb IsBetween then f
      else if negb (bool_decide (ToLower (Query.o_String l) = col_time)) then f
      else
        match ParseInt (Query.o_String from), ParseInt (Query.o_String to) with
        | Some v1, Some v2 => mkFilters v1 v2 (f_tags f)
        | _, _ => f
        end
  | _ => f
  end.

(** Nothing is ever unsupported. *)
Definition parseWhere (whereExpr : option Query.expr) : filters * bool :=
  match whereExpr with
  | None => (mkFilters 0 0 ∅, false)
  | Some e => (walkWhere e (mkFilters 0 0 ∅), false)
  end.
End where_clause.

(** * The engine *)

Section engine.
Context {P : Type} `{FilePagerOps P} `{GoRuntime} `{GoText} `{GoFloat}.

(** [has_index]: the engine was made with the index that its store keeps. *)
Record MetricsEngine := mkMetricsEngine { me_store : MetricsStore P; has_index : bool }.

(** The catalog is not used, the rollups are kept apart. *)
Definition NewMetricsEngineWithIndex (store : MetricsStore P) (idx : option TagIndex) : MetricsEngine :=
  mkMetricsEngine store (bool_decide (is_Some idx)).

Definition em : Type -> Type := st MetricsEngine metrics_err.

Definition on_store {A} (c : mstore A) : em A := fun e =>
  match c (me_store e) with
  | (Ok a, s) => (Ok a, mkMetricsEngine s (has_index e))
  | (Err x, s) => (Err (ErrMetricsStore x), mkMetricsEngine s (has_index e))
  end.

Definition exprToInt64 (o : Query.operand) : option Z := ParseInt (default (Query.o_String o) (Query.o_Literal o)).
Definition exprToFloat64 (o : Query.operand) : option spec_float := ParseFloat (default (Query.o_String o) (Query.o_Literal o)).
Definition exprToString (o : Query.operand) : list byte := stripQuotes (Query.o_String o).

(** [colMap]: the position of each column; a later one of the same name counts. *)
Fixpoint column_map (i : nat) (cols : list (list byte)) (m : gmap (list byte) nat) : gmap (list byte) nat :=
  match cols with [] => m | c :: cols' => column_map (S i) cols' (<[ToLower c := i]> m) end.

Definition cell (colMap : gmap (list byte) nat) (name : list byte) (row : list Query.operand) : option Query.operand :=
  colMap !! name ≫= fun idx => row !! idx.

(** The loop over the columns for the value, in the order of [range]. *)
Fixpoint value_column (row : list Query.operand) (cols : list (list byte * nat)) : res metrics_err Z :=
  match cols with
  | [] => Ok 0
  | (colName, idx) :: cols' =>
      if bool_decide (colName ∈ [col_time; col_tags; col_metric_name]) then value_column row cols'
      else
        match row !! idx with
        | None => value_column row cols'
        | Some e => match exprToFloat64 e with Some v => Ok (Float64bits v) | None => Err (ErrInvalidValue colName) end
        end
  end.

Definition rowToPoint (tableName : list byte) (colMap : gmap (list byte) nat) (row : list Query.operand) : res metrics_err Point :=
  match (match cell colMap col_time row with
         | Some e => match exprToInt64 e with Some ts => Ok ts | None => Err ErrInvalidTime end
         | None => Ok 0
         end) with
  | Err e => Err e
  | Ok ts =>
      let tags := match cell colMap col_tags row with Some e => exprToString e | None => [] end in
      let name := match cell colMap col_metric_name row with Some e => exprToString e | None => tableName end in
      match value_column row (map_order (map_to_list colMap)) with
      | Err e => Err e
      | Ok v => Ok (mkPoint ts tags name v)
      end
  end.

Fixpoint insert_rows (cx : ctx) (tableName : list byte) (colMap : gmap (list byte) nat) (rowsAffected : Z)
    (rows : list (list Query.operand)) : em Z :=
  match rows with
  | [] => ret rowsAffected
  | row :: rows' =>
      pt <- lift (rowToPoint tableName colMap row) ;;
      on_store (AppendPoint cx pt) ;;;
      insert_rows cx tableName colMap (rowsAffected + 1) rows'
  end.

Definition executeInsert (cx : ctx) (insert : option Query.insert) : em Z :=
  match insert with
  | None => fail ErrNotInsert
  | Some i =>
      match Query.ins_Rows i with
      | Query.Values rows => insert_rows cx (ToLower (Query.ins_Table i)) (column_map 0 (Query.ins_Columns i) ∅) 0 rows
      | Query.SelectRows => fail ErrUnsupportedQuery
      end
  end.

Record metricsRowStream := mkStream { st_points : list Point; st_pos : nat }.

Definition executeSelect (cx : ctx) (sel : option Query.select) : em metricsRowStream :=
  match sel with
  | None => fail ErrNotSelect
  | Some sel =>
      let '(f, unsupported) := parseWhere (Query.sel_Where sel) in
      if unsupported : bool then fail ErrUnsupportedQuery
      else
        indexed <- gets has_index ;;
        pts <- (if indexed && negb (bool_decide (f_tags f = ∅))
                then on_store (ScanRangeWithIndex cx (f_start f) (f_end f) (f_tags f))
                else on_store (ScanRange cx (f_start f) (f_end f) (f_tags f))) ;;
        ret (mkStream pts 0)
  end.

Inductive result := RowsAffected (n : Z) | Stream (s : metricsRowStream).

Definition Execute (cx : ctx) (stmt : Query.stmt) : em result :=
  match stmt with
  | Query.StmtInsert i => n <- executeInsert cx i ;; ret (RowsAffected n)
  | Query.StmtSelect s => r <- executeSelect cx s ;; ret (Stream r)
  | Query.StmtOther => fail ErrUnsupportedQuery
  end.

(** ** The rows of the answer *)

Definition point_row (pt : Point) : Row :=
  mkRow [mkDatum TypeInt64 (VInt64 (Timestamp pt)); mkDatum TypeString (VString (Tags pt));
         mkDatum TypeString (VString (MetricName pt)); mkDatum TypeFloat64 (VFloat64 (Float64frombits (Value pt)))] 0.

(** [None] is [io.EOF]. *)
Definition stream_Next (s : metricsRowStream) : option Row * metricsRowStream :=
  match st_points s !! st_pos s with
  | None => (None, s)
  | Some pt => (Some (point_row pt), mkStream (st_points s) (S (st_pos s)))
  end.

Definition stream_Schema : Datum.Schema :=
  [mkColumn col_time TypeInt64 false None; mkColumn col_tags TypeString false None;
   mkColumn col_metric_name TypeString false None; mkColumn (go_string "value") TypeFloat64 false None].
End engine.

Arguments MetricsEngine P : clear implicits.

(** * What is inserted is selected *)

Section theorems.
Context {P : Type} `{FilePager P} `{GoRuntimeLaws} `{GoText} `{GoFloat}.

(** A row of the four columns and the point it says. *)
Definition row_denotes (row : list Query.operand) (pt : Point) : Prop :=
  exists a b c d v, row = [a; b; c; d] /\
    exprToInt64 a = Some (Timestamp pt) /\ exprToString b = Tags pt /\ exprToString c = MetricName pt /\
    exprToFloat64 d = Some v /\ Float64bits v = Value pt.

Definition col_value : list byte := go_string "value".

Definition four_columns (cols : list (list byte)) : Prop := map ToLower cols = [col_time; col_tags; col_metric_name; col_value].

Lemma column_map_lower cols i m :
  column_map i cols m = foldl (fun m ci => <[ci.1 := ci.2]> m) m (zip (map ToLower cols) (seq i (length cols))).
Proof. revert i m. induction cols as [|c cols IH]; intros i m; [done|]. cbn. apply IH. Qed.

Lemma column_map_four cols :
  four_columns cols -> column_map 0 cols ∅ = <[col_value := 3%nat]> (<[col_metric_name := 2%nat]> (<[col_tags := 1%nat]> {[col_time := 0%nat]})).
Proof.
  intros E0. rewrite column_map_lower, E0. apply (f_equal length) in E0. rewrite length_map in E0. by rewrite E0.
Qed.

Lemma value_not_meta : col_value ∉ [col_time; col_tags; col_metric_name].
Proof. apply (bool_decide_eq_false_1 _). by vm_compute. Qed.

(** Only one column is not for metadata. *)
Lemma value_column_only row l d v :
  (forall c i, (c, i) ∈ l -> c ∉ [col_time; col_tags; col_metric_name] -> (c, i) = (col_value, 3%nat)) ->
  (col_value, 3%nat) ∈ l -> row !! 3%nat = Some d -> exprToFloat64 d = Some v -> value_column row l = Ok (Float64bits v).
Proof.
  intros Honly Hin Hd Hv. induction l as [|[c i] l IH]; [by apply not_elem_of_nil in Hin|]. cbn [value_column].
  case_bool_decide as Hm.
  - apply IH; [intros c' i' Hc'; apply Honly; by right|]. apply elem_of_cons in Hin as [[= <- <-]|?]; [|done].
    by apply value_not_meta in Hm.
  - injection (Honly c i ltac:(by left) Hm) as -> ->. by rewrite Hd, Hv.
Qed.

Lemma four_entries (a b c d k : list byte) (i : nat) :
  (<[d := 3%nat]> (<[c := 2%nat]> (<[b := 1%nat]> {[a := 0%nat]})) : gmap (list byte) nat) !! k = Some i ->
  (k, i) = (d, 3%nat) \/ k ∈ [a; b; c].
Proof.
  rewrite !lookup_insert_Some, lookup_singleton_Some.
  intros [[<- <-]|[_ [[<- _]|[_ [[<- _]|[_ [<- _]]]]]]]; [by left|right; set_solver..].
Qed.

Lemma in_map_order (m : gmap (list byte) nat) k i : (k, i) ∈ map_order (map_to_list m) <-> m !! k = Some i.
Proof. by rewrite list_elem_of_In, map_order_In, <- list_elem_of_In, elem_of_map_to_list. Qed.

(** What the map of the four columns says. *)
Lemma four_map cols (m := column_map 0 cols ∅) : four_columns cols ->
  m !! col_time = Some 0%nat /\ m !! col_tags = Some 1%nat /\ m !! col_metric_name = Some 2%nat /\ m !! col_value = Some 3%nat /\
  forall k i, m !! k = Some i -> (k, i) = (col_value, 3%nat) \/ k ∈ [col_time; col_tags; col_metric_name].
Proof.
  intros Hc. unfold m. rewrite (column_map_four cols Hc). split; [reflexivity|]. split; [reflexivity|].
  split; [reflexivity|]. split; [reflexivity|]. intros k i. apply four_entries.
Qed.

Lemma row_point t cols row pt : four_columns cols -> row_denotes row pt -> rowToPoint t (column_map 0 cols ∅) row = Ok pt.
Proof.
  intros (E0 & E1 & E2 & E3 & Hfour)%four_map (a & b & c & d & v & -> & Ha & Hb & Hcn & Hd & Hv). unfold rowToPoint, cell.
  rewrite E0, E1, E2. cbn. rewrite Ha, Hb, Hcn.
  rewrite (value_column_only _ _ d v); [destruct pt; cbn in *; by subst| |by apply in_map_order|done|done].
  intros c' i Hin%in_map_order Hm. by destruct (Hfour _ _ Hin).
Qed.

(** The tag index takes every point whose tags can be split. *)
Lemma indexed_some pt loc idx : tags_ok pt -> exists idx', indexed pt loc idx = Some idx'.
Proof.
  unfold tags_ok, indexed. intros Ht. destruct idx as [i|]; [|by eexists]. destruct (Tags pt) as [|b t] eqn:Et; [by eexists|].
  unfold Insert. destruct (splitTagPairs (b :: t)); [by eexists|done].
Qed.

Lemma insert_rows_ok t cols rows pts s n pps ix k :
  four_columns cols -> Forall2 row_denotes rows pts -> Forall point_ok pts -> Forall tags_ok pts ->
  metrics_rel s (length rows + n) pps ->
  exists s' pps', insert_rows None t (column_map 0 cols ∅) k rows (mkMetricsEngine s ix) = (Ok (k + zlen rows), mkMetricsEngine s' ix) /\
    metrics_rel s' n pps' /\ points pps' = points pps ++ pts.
Proof.
  intros Hc Hrows. revert s pps k. induction Hrows as [|row pt rows pts Hrow _ IH]; intros s pps k Hok Htag Hr.
  { exists s, pps. split; [cbn; by rewrite Z.add_0_r|]. by rewrite app_nil_r. }
  inversion Hok as [|? ? Hpt Hpts]; inversion Htag as [|? ? Ht Hts]; subst. cbn [insert_rows length].
  rewrite (row_point t cols row pt Hc Hrow). rewrite bind_lift.
  destruct (indexed_some pt (next_loc pt pps) (tagIndex s) Ht) as [idx Hi].
  destruct (append_ok s (length rows + n) pps pt idx Hr Hpt Hi) as (s1 & Ea & Hr1 & _).
  erewrite bind_ok by (unfold on_store; cbn [me_store has_index]; by rewrite Ea).
  destruct (IH s1 (add_point pt pps) (k + 1) Hpts Hts Hr1) as (s' & pps' & E0 & Hr' & Hp'). exists s', pps'.
  rewrite E0. split; [f_equal; f_equal; unfold zlen; cbn [length]; lia|]. split; [done|].
  rewrite Hp', add_point_points by (by eapply rel_not_nil). by rewrite <- app_assoc.
Qed.

Lemma scan_no_tags s n pps ix start stop :
  metrics_rel s n pps ->
  exists s', on_store (ScanRange None start stop ∅) (mkMetricsEngine s ix)
      = (Ok (List.filter (Metrics.in_range start stop) (points pps)), mkMetricsEngine s' ix) /\ metrics_rel s' n pps.
Proof.
  intros Hr. destruct (ScanRange_ok s n pps start stop ∅ Hr) as (s' & E0 & Hr' & _); [by left|]. exists s'.
  unfold on_store. cbn [me_store has_index]. rewrite E0. split; [|done]. do 2 f_equal. apply List.filter_ext. intros pt.
  unfold selected, matchTags. rewrite decide_True by done. rewrite bool_decide_eq_true_2 by done. apply andb_true_r.
Qed.


(** A condition that bounds the time from above. *)
Fixpoint bounds_above (e : Query.expr) : bool :=
  match e with
  | Query.AndExpr l r => bounds_above l || bounds_above r
  | Query.ComparisonExpr (Query.LessEqualOp | Query.LessThanOp) l _ => bool_decide (ToLower (Query.o_String l) = col_time)
  | Query.BetweenExpr b l _ _ => b && bool_decide (ToLower (Query.o_String l) = col_time)
  | _ => false
  end.

Lemma walk_no_end e f : bounds_above e = false -> f_end (walkWhere e f) = f_end f.
Proof.
  revert f. induction e as [l IHl r IHr| | |o l r|b l from to|]; intros f Hb; cbn in *; try done.
  - apply orb_false_iff in Hb as [? ?]. by rewrite IHr, IHl.
  - destruct o; try done; try (rewrite Hb; done); try (case_bool_decide; [|done]; by destruct (ParseInt _)).
  - destruct b; cbn in *; [|done]. by rewrite Hb.
Qed.

Definition where_filters (w : option Query.expr) : filters := fst (parseWhere w).

(** A SELECT without an upper bound on the time, the one without a WHERE among them,
    returns no point with a time after 0: the absent bound is the bound 0.  So it misses
    every point of the present. *)
Theorem select_without_upper_bound s n pps ix from w :
  metrics_rel s n pps -> (forall e, w = Some e -> bounds_above e = false) -> f_tags (where_filters w) = ∅ ->
  exists s', Execute None (Query.StmtSelect (Some (Query.mkSelect from w))) (mkMetricsEngine s ix)
    = (Ok (Stream (mkStream (List.filter (fun pt => (f_start (where_filters w) <=? Timestamp pt) && (Timestamp pt <=? 0)) (points pps)) 0)),
       mkMetricsEngine s' ix).
Proof.
  intros Hr Hb Ht. cbn [Execute executeSelect Query.sel_Where].
  assert (parseWhere w = (where_filters w, false)) as -> by (by destruct w).
  assert (f_end (where_filters w) = 0) as He by (destruct w as [e|]; [by apply (walk_no_end e (mkFilters 0 0 ∅)), Hb|done]).
  rewrite Ht, He, bool_decide_eq_true_2 by done.
  destruct (scan_no_tags s n pps ix (f_start (where_filters w)) 0 Hr) as (s' & E0 & _). exists s'.
  unfold bind, gets. cbn [has_index negb]. rewrite andb_false_r, E0. done.
Qed.

(** The engine that the runtime makes stores nothing and finds nothing: nobody opens its
    store, so every statement fails and leaves it as it is, whatever came before; only an
    INSERT of no rows succeeds. *)
Theorem wired_metrics_store_nothing pg idx stmt :
  let e := NewMetricsEngineWithIndex (NewStoreWithIndex pg idx) idx in
  exists r, Execute None stmt e = (r, e) /\
    match r with
    | Ok (RowsAffected _) => exists t cols, stmt = Query.StmtInsert (Some (Query.mkInsert t cols (Query.Values [])))
    | Ok (Stream _) => False
    | Err _ => True
    end.
Proof.
  intros e. destruct stmt as [[[t cols [rows|]]|]|[sel|]|]; cbn [Execute executeInsert executeSelect Query.ins_Rows]; try by (eexists; split).
  - destruct rows as [|row rows]; cbn [insert_rows].
    + exists (Ok (RowsAffected 0)). split; [done|]. by exists t, cols.
    + unfold bind. destruct (rowToPoint _ _ row) as [pt|x]; by (eexists; split).
  - destruct (parseWhere (Query.sel_Where sel)) as [f []]; [by (eexists; split)|]. unfold bind, gets.
    destruct (has_index e && negb (bool_decide (f_tags f = ∅))); by (eexists; split).
Qed.
End theorems.
