(* ===== verification/LogsEngine.v ===== *)
(** [internal/engine/logs/engine.go]: SQL on the store of log records.

    An inserted body that is a JSON object is taken apart into severity, text and
    attributes.  A SELECT becomes a time range and a text to look for; conditions on other
    columns are passed over, and the table is not looked at. *)

From Stdlib Require Import ZArith Lia SpecFloat.
From Stdlib Require Strings.String.
From stdpp Require Import gmap list.
From S2P Require Import Prelude OrdMap Page Monad PagerSpec PagerFile FlatStore FlatList GoRuntime GoFmt Datum Binder DmlRow MetricsEngine LogRecord Logs.
Import String.StringSyntax.
Open Scope Z_scope.
Open Scope st_scope.

(** A value in a JSON object: a string, or another value by a number that stands for it. *)
Inductive json_value := JString (s : list byte) | JOther (n : Z).

(** [json.Unmarshal] of an object, an error without one, and [json.Marshal]. *)
Class LogJSON := {
  Unmarshal : list byte -> option (gmap (list byte) json_value);
  Marshal : gmap (list byte) json_value -> option (list byte) }.

Inductive logs_err : Type :=
| ErrUnsupportedQuery | ErrSchemaJSON | ErrNoTime | ErrNoSeverity | ErrNoBody | ErrNotInsert | ErrNotSelect | ErrInvalidTime
| ErrLogsStore (e : store_err).

Definition col_severity : list byte := go_string "severity".
Definition col_attributes : list byte := go_string "attributes".
Definition col_body : list byte := go_string "body".

Section schema.
Context `{GoText} `{SchemaJSON}.

Definition is_column (name : list byte) (c : list byte * list byte) : bool := bool_decide (ToLower c.1 = name).
Definition is_string_type (t : list byte) : bool := bool_decide (t = go_string "string").

Definition ValidateSchema (schemaJSON : list byte) : res logs_err unit :=
  match schema_columns schemaJSON with
  | None => Err ErrSchemaJSON
  | Some cols =>
      if negb (existsb (fun c => is_column col_time c && is_integer_type c.2) cols) then Err ErrNoTime
      else if negb (existsb (fun c => is_column col_severity c && is_string_type c.2) cols) then Err ErrNoSeverity
      else if negb (existsb (fun c => is_column col_body c && is_string_type c.2) cols) then Err ErrNoBody
      else Ok tt
  end.
End schema.

(** * Payloads *)

Section payload.
Context `{GoText} `{LogJSON}.

(** The first of some keys that has a string, with the object without it. *)
Fixpoint take_string (keys : list (list byte)) (m : gmap (list byte) json_value) : option (list byte * gmap (list byte) json_value) :=
  match keys with
  | [] => None
  | k :: keys' => match m !! k with Some (JString s) => Some (s, delete k m) | _ => take_string keys' m end
  end.

Definition severity_keys : list (list byte) := [go_string "level"; go_string "severity"; go_string "status"].
Definition message_keys : list (list byte) := [go_string "message"; go_string "msg"; go_string "body"].

Definition parseLogPayload (raw : list byte) : list byte * Z * list byte :=
  match Unmarshal raw with
  | None => (raw, SeverityInfo, [])
  | Some m =>
      let '(sev, m) := match take_string severity_keys m with Some (s, m') => (parseSeverity s, m') | None => (SeverityInfo, m) end in
      let '(text, m) := match take_string message_keys m with Some (s, m') => (s, m') | None => ([], m) end in
      match text with
      | [] => (raw, sev, [])
      | _ => (text, sev, if bool_decide (m = ∅) then [] else default [] (Marshal m))
      end
  end.
End payload.

(** * WHERE *)

Section where_clause.
Context `{GoText}.

Record log_filters := mkLogFilters { lf_start : Z; lf_end : Z; lf_body : list byte; lf_unsupported : bool }.

Definition unsupported (f : log_filters) : log_filters := mkLogFilters (lf_start f) (lf_end f) (lf_body f) true.

(** A bound on [time], which must be a number. *)
Definition on_time (colName : list byte) (v : option Z) (set : Z -> log_filters -> log_filters) (f : log_filters) : log_filters :=
  if bool_decide (colName = col_time) then match v with Some v => set v f | None => unsupported f end else f.

Definition set_lo (v : Z) (f : log_filters) : log_filters := mkLogFilters v (lf_end f) (lf_body f) (lf_unsupported f).
Definition set_hi (v : Z) (f : log_filters) : log_filters := mkLogFilters (lf_start f) v (lf_body f) (lf_unsupported f).

(** [strings.TrimPrefix(s, "%")] and [strings.TrimSuffix(s, "%")] *)
Definition trim_percent (s : list byte) : list byte :=
  let s := match s with b :: s' => if bool_decide (b = x25) then s' else s | [] => [] end in
  if bool_decide (last s = Some x25) then removelast s else s.

Fixpoint walkLogsWhere (expr : Query.expr) (f : log_filters) : log_filters :=
  match expr with
  | Query.AndExpr l r => walkLogsWhere r (walkLogsWhere l f)
  | Query.ComparisonExpr o l r =>
      let colName := ToLower (Query.o_String l) in
      let v := ParseInt (Query.o_String r) in
      match o with
      | Query.GreaterEqualOp => on_time colName v set_lo f
      | Query.LessEqualOp => on_time colName v set_hi f
      | Query.GreaterThanOp => on_time colName v (fun v => set_lo (swrap64 (v + 1))) f
      | Query.LessThanOp => on_time colName v (fun v => set_hi (swrap64 (v - 1))) f
      | Query.EqualOp => on_time colName v (fun v f => set_hi v (set_lo v f)) f
      | Query.LikeOp =>
          if negb (bool_decide (colName = col_body)) then f
          else if Query.is_ColName r || Query.is_Argument r then unsupported f
          else mkLogFilters (lf_start f) (lf_end f) (trim_percent (stripQuotes (Query.o_String r))) (lf_unsupported f)
      | Query.NotLikeOp | Query.OtherOp => unsupported f
      end
  | Query.BetweenExpr IsBetween l from to =>
      if negb IsBetween then f
      else if negb (bool_decide (ToLower (Query.o_String l) = col_time)) then unsupported f
      else
        match ParseInt (Query.o_String from), ParseInt (Query.o_String to) with
        | Some v1, Some v2 => mkLogFilters v1 v2 (lf_body f) (lf_unsupported f)
        | _, _ => unsupported f
        end
  | Query.OrExpr _ _ | Query.NotExpr _ => unsupported f
  | Query.OtherExpr => f
  end.

Definition no_filters : log_filters := mkLogFilters 0 0 [] false.

Definition parseLogsWhere (whereExpr : option Query.expr) : res logs_err log_filters :=
  match whereExpr with
  | None => Ok no_filters
  | Some e => let f := walkLogsWhere e no_filters in if lf_unsupported f then Err ErrUnsupportedQuery else Ok f
  end.
End where_clause.

(** * The engine *)

Section engine.
Context {P : Type} `{FilePagerOps P} `{GoRuntime} `{GoText} `{GoUnicode} `{LogJSON}.

(** [le_index]: the engine was made with the token index that its store keeps. *)
Record LogsEngine := mkLogsEngine { le_store : LogsStore P; le_index : bool }.

(** The catalog is not used, the retention is kept apart. *)
Definition NewLogsEngineWithIndex (store : LogsStore P) (idx : option TokenIndex) : LogsEngine :=
  mkLogsEngine store (bool_decide (is_Some idx)).

Definition lem : Type -> Type := st LogsEngine logs_err.

Definition on_log_store {A} (c : lstore A) : lem A := fun e =>
  match c (le_store e) with
  | (Ok a, s) => (Ok a, mkLogsEngine s (le_index e))
  | (Err x, s) => (Err (ErrLogsStore x), mkLogsEngine s (le_index e))
  end.

Definition text_of (o : Query.operand) : list byte := stripQuotes (Query.o_String o).

Definition rowToLogRecord (colMap : gmap (list byte) nat) (row : list Query.operand) : res logs_err LogRecord :=
  match (match cell colMap col_time row with
         | Some e => match exprToInt64 e with Some ts => Ok ts | None => Err ErrInvalidTime end
         | None => Ok 0
         end) with
  | Err e => Err e
  | Ok ts =>
      let '(body, sev, attrs) :=
        match cell colMap col_body row with Some e => parseLogPayload (text_of e) | None => ([], SeverityInfo, []) end in
      let sev := match cell colMap col_severity row with Some e => parseSeverity (text_of e) | None => sev end in
      let attrs := match cell colMap col_attributes row with Some e => text_of e | None => attrs end in
      Ok (mkLog ts sev attrs body)
  end.

Fixpoint insert_logs (cx : ctx) (colMap : gmap (list byte) nat) (rowsAffected : Z) (rows : list (list Query.operand)) : lem Z :=
  match rows with
  | [] => ret rowsAffected
  | row :: rows' =>
      rec <- lift (rowToLogRecord colMap row) ;;
      on_log_store (AppendLog cx rec) ;;;
      insert_logs cx colMap (rowsAffected + 1) rows'
  end.

Definition executeLogInsert (cx : ctx) (insert : option Query.insert) : lem Z :=
  match insert with
  | None => fail ErrNotInsert
  | Some i =>
      match Query.ins_Rows i with
      | Query.Values rows => insert_logs cx (column_map 0 (Query.ins_Columns i) ∅) 0 rows
      | Query.SelectRows => fail ErrUnsupportedQuery
      end
  end.

Record logsRowStream := mkLogStream { lst_records : list LogRecord; lst_pos : nat }.

Definition executeLogSelect (cx : ctx) (sel : option Query.select) : lem logsRowStream :=
  match sel with
  | None => fail ErrNotSelect
  | Some sel =>
      f <- lift (parseLogsWhere (Query.sel_Where sel)) ;;
      indexed <- gets le_index ;;
      recs <- (if indexed && negb (bool_decide (lf_body f = []))
               then on_log_store (ScanRangeWithIndex cx (lf_start f) (lf_end f) (Tokenize (lf_body f)))
               else on_log_store (ScanRange cx (lf_start f) (lf_end f) (lf_body f))) ;;
      ret (mkLogStream recs 0)
  end.

Inductive log_result := LogsAffected (n : Z) | LogStream (s : logsRowStream).

Definition ExecuteLogs (cx : ctx) (stmt : Query.stmt) : lem log_result :=
  match stmt with
  | Query.StmtInsert i => n <- executeLogInsert cx i ;; ret (LogsAffected n)
  | Query.StmtSelect s => r <- executeLogSelect cx s ;; ret (LogStream r)
  | Query.StmtOther => fail ErrUnsupportedQuery
  end.

Definition log_row (r : LogRecord) : Row :=
  mkRow [mkDatum TypeInt64 (VInt64 (lr_Timestamp r)); mkDatum TypeString (VString (severityToString (Severity r)));
         mkDatum TypeString (VString (Attributes r)); mkDatum TypeString (VString (lr_Body r))] 0.

(** [None] is [io.EOF]. *)
Definition log_stream_Next (s : logsRowStream) : option Row * logsRowStream :=
  match lst_records s !! lst_pos s with
  | None => (None, s)
  | Some r => (Some (log_row r), mkLogStream (lst_records s) (S (lst_pos s)))
  end.

Definition log_stream_Schema : Datum.Schema :=
  [mkColumn col_time TypeInt64 false None; mkColumn col_severity TypeString false None;
   mkColumn col_attributes TypeString false None; mkColumn col_body TypeString false None].
End engine.

Arguments LogsEngine P : clear implicits.

(** * What is inserted is selected *)

Section theorems.
Context {P : Type} `{FilePager P} `{GoRuntimeLaws} `{GoText} `{GoUnicode} `{LogJSON}.

(** A row of the four columns and the record it says. *)
Definition log_row_denotes (row : list Query.operand) (r : LogRecord) : Prop :=
  exists a b c d, row = [a; b; c; d] /\
    exprToInt64 a = Some (lr_Timestamp r) /\ parseSeverity (text_of b) = Severity r /\ text_of c = Attributes r /\
    (parseLogPayload (text_of d)).1.1 = lr_Body r.

Definition log_columns (cols : list (list byte)) : Prop := map ToLower cols = [col_time; col_severity; col_attributes; col_body].

Lemma log_map cols (m := column_map 0 cols ∅) : log_columns cols ->
  m !! col_time = Some 0%nat /\ m !! col_severity = Some 1%nat /\ m !! col_attributes = Some 2%nat /\ m !! col_body = Some 3%nat.
Proof.
  intros Hc. unfold m. rewrite column_map_lower, Hc. apply (f_equal length) in Hc. rewrite length_map in Hc. rewrite Hc.
  split_and!; reflexivity.
Qed.

Lemma row_record cols row r : log_columns cols -> log_row_denotes row r -> rowToLogRecord (column_map 0 cols ∅) row = Ok r.
Proof.
  intros (E0 & E1 & E2 & E3)%log_map (a & b & c & d & -> & Ha & Hb & Hc & Hd). unfold rowToLogRecord, cell.
  rewrite E0, E1, E2, E3. cbn. rewrite Ha, Hb, Hc. destruct (parseLogPayload (text_of d)) as [[body sev] attrs]. cbn in Hd.
  destruct r; cbn in *; by subst.
Qed.

Lemma insert_logs_ok cols rows rs s n pps ix k :
  log_columns cols -> Forall2 log_row_denotes rows rs -> Forall log_ok rs -> logs_rel s (length rows + n) pps ->
  exists s' pps', insert_logs None (column_map 0 cols ∅) k rows (mkLogsEngine s ix) = (Ok (k + zlen rows), mkLogsEngine s' ix) /\
    logs_rel s' n pps' /\ records pps' = records pps ++ rs.
Proof.
  intros Hc Hrows. revert s pps k. induction Hrows as [|row r rows rs Hrow _ IH]; intros s pps k Hok Hr.
  { exists s, pps. split; [cbn; by rewrite Z.add_0_r|]. by rewrite app_nil_r. }
  inversion Hok as [|? ? Hr0 Hrs]; subst. cbn [insert_logs length].
  rewrite (row_record cols row r Hc Hrow). rewrite bind_lift.
  destruct (append_log_ok s (length rows + n) pps r Hr Hr0) as (s1 & Ea & Hr1 & _).
  erewrite bind_ok by (unfold on_log_store; cbn [le_store le_index]; by rewrite Ea).
  destruct (IH s1 (add_log r pps) (k + 1) Hrs Hr1) as (s' & pps' & E0 & Hr' & Hp'). exists s', pps'.
  rewrite E0. split; [f_equal; f_equal; unfold zlen; cbn [length]; lia|]. split; [done|].
  rewrite Hp'. unfold add_log, records. rewrite add_rec_concat by (by eapply logs_not_nil). by rewrite <- app_assoc.
Qed.

Lemma scan_log_run s n pps ix start stop text :
  logs_rel s n pps ->
  exists s', on_log_store (ScanRange None start stop text) (mkLogsEngine s ix)
    = (Ok (List.filter (log_selected start stop text) (records pps)), mkLogsEngine s' ix) /\ logs_rel s' n pps.
Proof.
  intros Hr. destruct (scan_logs_ok s n pps start stop text Hr) as (s' & E0 & Hr' & _). exists s'.
  unfold on_log_store. cbn [le_store le_index]. by rewrite E0.
Qed.

(** The records of an INSERT are those that a SELECT over their time with a text of
    their bodies returns, after the records that were there and in the order of the rows,
    when the engine has no token index; the table that the SELECT names does not matter. *)
Theorem logs_insert_select s n pps table cols rows rs :
  log_columns cols -> Forall2 log_row_denotes rows rs -> Forall log_ok rs -> logs_rel s (length rows + n) pps ->
  exists s1,
    ExecuteLogs None (Query.StmtInsert (Some (Query.mkInsert table cols (Query.Values rows)))) (mkLogsEngine s false)
      = (Ok (LogsAffected (zlen rows)), mkLogsEngine s1 false) /\
    forall from e f, walkLogsWhere e no_filters = f -> lf_unsupported f = false ->
      exists s2, ExecuteLogs None (Query.StmtSelect (Some (Query.mkSelect from (Some e)))) (mkLogsEngine s1 false)
        = (Ok (LogStream (mkLogStream (List.filter (log_selected (lf_start f) (lf_end f) (lf_body f)) (records pps ++ rs)) 0)),
           mkLogsEngine s2 false).
Proof.
  intros Hc Hrows Hok Hr. destruct (insert_logs_ok cols rows rs s n pps false 0 Hc Hrows Hok Hr) as (s1 & pps' & E0 & Hr1 & Hp).
  exists s1. split.
  - cbn [ExecuteLogs executeLogInsert Query.ins_Rows Query.ins_Columns]. unfold bind at 1. rewrite Z.add_0_l in E0. by rewrite E0.
  - intros from e f Hf Hu. cbn [ExecuteLogs executeLogSelect Query.sel_Where parseLogsWhere]. rewrite Hf, Hu.
    destruct (scan_log_run s1 n pps' false (lf_start f) (lf_end f) (lf_body f) Hr1) as (s2 & E2 & _). rewrite Hp in E2. exists s2.
    unfold bind, lift, gets. cbn [le_index andb]. by rewrite E2.
Qed.

(** With the token index, a SELECT for a text without a token, one letter or marks
    only, returns every record of the time range, whatever is in its body. *)
Theorem like_without_token_returns_all s n pps from e f :
  logs_rel s n pps -> walkLogsWhere e no_filters = f -> lf_unsupported f = false -> lf_body f <> [] -> Tokenize (lf_body f) = [] ->
  exists s', ExecuteLogs None (Query.StmtSelect (Some (Query.mkSelect from (Some e)))) (mkLogsEngine s true)
    = (Ok (LogStream (mkLogStream (List.filter (log_in_range (lf_start f) (lf_end f)) (records pps)) 0)), mkLogsEngine s' true).
Proof.
  intros Hr Hf Hu Hb Ht. cbn [ExecuteLogs executeLogSelect Query.sel_Where parseLogsWhere]. rewrite Hf, Hu.
  destruct (scan_log_run s n pps true (lf_start f) (lf_end f) [] Hr) as (s' & E0 & _). exists s'.
  unfold bind, lift, gets. cbn [le_index andb]. rewrite bool_decide_eq_false_2 by done. cbn [negb]. rewrite Ht.
  assert (on_log_store (ScanRangeWithIndex None (lf_start f) (lf_end f) []) (mkLogsEngine s true)
    = on_log_store (ScanRange None (lf_start f) (lf_end f) []) (mkLogsEngine s true)) as ->.
  { unfold on_log_store, ScanRangeWithIndex. cbn [le_store]. erewrite bind_ok by (apply on_logs_ok; reflexivity).
    rewrite (fr_opened _ _ _ _ _ _ (dr_flat _ _ _ _ _ (lr_dense _ _ _ Hr))). cbn [negb].
    assert (mkLogs (ls_flat s) (blockDirectory s) (tokenIndex s) = s) as -> by (by destruct s). rewrite bind_gets.
    by destruct (tokenIndex s). }
  rewrite (List.filter_ext _ (log_in_range (lf_start f) (lf_end f))) in E0; [by rewrite E0|].
  intros r. unfold log_selected. rewrite bool_decide_eq_true_2 by done. apply andb_true_r.
Qed.

(** Conditions that the walk passes over without an error. *)
Fixpoint other_columns (e : Query.expr) : bool :=
  match e with
  | Query.AndExpr l r => other_columns l && other_columns r
  | Query.ComparisonExpr (Query.EqualOp | Query.LessThanOp | Query.GreaterThanOp | Query.LessEqualOp | Query.GreaterEqualOp) l _ =>
      negb (bool_decide (ToLower (Query.o_String l) = col_time))
  | Query.ComparisonExpr Query.LikeOp l _ => negb (bool_decide (ToLower (Query.o_String l) = col_body))
  | Query.OtherExpr => true
  | _ => false
  end.

Lemma walk_other e f : other_columns e = true -> walkLogsWhere e f = f.
Proof.
  revert f. induction e as [l IHl r IHr| | |o l r| |]; intros f Ho; cbn in *; try done.
  - apply andb_true_iff in Ho as [? ?]. by rewrite IHl, IHr.
  - unfold on_time. destruct o; cbn in *; try done; apply negb_true_iff in Ho; by rewrite Ho.
Qed.

(** A condition on another column than the time, such as the severity being an error,
    filters nothing: the SELECT returns what the one without it returns. *)
Theorem other_conditions_ignored s from e e' ix :
  other_columns e = true ->
  ExecuteLogs None (Query.StmtSelect (Some (Query.mkSelect from (Some (Query.AndExpr e e'))))) (mkLogsEngine s ix)
  = ExecuteLogs None (Query.StmtSelect (Some (Query.mkSelect from (Some e')))) (mkLogsEngine s ix).
Proof.
  intros Ho. cbn [ExecuteLogs executeLogSelect Query.sel_Where parseLogsWhere walkLogsWhere]. by rewrite (walk_other e).
Qed.

(** The engine that the runtime makes keeps no log and finds none: nobody opens its
    store, so every statement fails and leaves it as it is, whatever came before; only an
    INSERT of no rows succeeds. *)
Theorem wired_logs_store_nothing pg idx stmt :
  let e := NewLogsEngineWithIndex (NewStoreWithIndex pg idx) idx in
  exists r, ExecuteLogs None stmt e = (r, e) /\
    match r with
    | Ok (LogsAffected _) => exists t cols, stmt = Query.StmtInsert (Some (Query.mkInsert t cols (Query.Values [])))
    | Ok (LogStream _) => False
    | Err _ => True
    end.
Proof.
  intros e. destruct stmt as [[[t cols [rows|]]|]|[sel|]|];
    cbn [ExecuteLogs executeLogInsert executeLogSelect Query.ins_Rows]; try by (eexists; split).
  - destruct rows as [|row rows]; cbn [insert_logs].
    + exists (Ok (LogsAffected 0)). split; [done|]. by exists t, cols.
    + unfold bind. destruct (rowToLogRecord _ row) as [r|x]; by (eexists; split).
  - unfold bind. destruct (parseLogsWhere (Query.sel_Where sel)) as [f|x]; [|by (eexists; split)]. unfold gets, lift.
    destruct (le_index e && negb (bool_decide (lf_body f = []))); by (eexists; split).
Qed.
End theorems.
