(* ===== verification/SystemHeap.v ===== *)
(** [internal/engine/sql/system/factory.go], [internal/catalog/storage.go],
    [internal/systemids]: the stores of the system tables.

    A system table keeps bytes under byte keys in a key-value store of its own, each value
    behind the number of the transaction that wrote it; an empty value is a deleted key.
    The adapter finds a key by scanning everything.  [system_table_refines]: it is a map. *)

From Stdlib Require Import ZArith Lia Permutation.
From Stdlib Require Strings.String.
From stdpp Require Import gmap.
From S2P Require Import Prelude OrdMap Key KvNode Monad KvSpec GoRuntime GoFmt Datum.
Import String.StringSyntax.
Open Scope Z_scope.
Open Scope st_scope.

Definition SystemTableMinID : Z := 1.
Definition SystemTableMaxID : Z := 999.
Definition SystemTableTables : Z := 1.
Definition SystemTableColumns : Z := 2.
Definition SystemTableUsers : Z := 3.

Definition maxUint64 : Z := 2 ^ 64 - 1.

Inductive sys_err (E : Type) : Type :=
| ErrTooFewColumns | ErrKeyType | ErrSysKey (e : key_err) | ErrSysStore (e : E) | ErrNotFound.
Arguments ErrTooFewColumns {E}. Arguments ErrKeyType {E}. Arguments ErrSysKey {E} e.
Arguments ErrSysStore {E} e. Arguments ErrNotFound {E}.

(** * Rows in the store *)

Definition rowToKey {E} (d : Datum) : res (sys_err E) Key :=
  match d_Value d with
  | VBytes v => Ok (EncodeBytes v)
  | VString v => match EncodeString v with Ok k => Ok k | Err e => Err (ErrSysKey e) end
  | _ => Err ErrKeyType
  end.

(** [[version(8)][value_bytes]], or nothing *)
Definition encodeSystemValue (version : Z) (row : Row) : list byte :=
  match Datums row with
  | _ :: d :: _ =>
      match d_Value d with VBytes v | VString v => be_encode 8 version ++ v | _ => [] end
  | _ => []
  end.

Definition decodeSystemValue (b : list byte) (readTxID : Z) : option (list byte) :=
  if zlen b <? 8 then None
  else if readTxID <? be_decode (ztake 8 b) then None
  else if zlen (zdrop 8 b) =? 0 then None else Some (zdrop 8 b).

Record directIterator := mkIter { it_entries : list Entry; it_idx : nat; it_readTxID : Z }.

Definition system_row (k v : list byte) : Row := mkRow [mkDatum TypeBytes (VBytes k); mkDatum TypeBytes (VBytes v)] 0.

(** The loop of [Next] from the entry with number [idx]; no row is [io.EOF]. *)
Fixpoint next_row (readTxID : Z) (idx : nat) (rest : list Entry) : option Row * nat :=
  match rest with
  | [] => (None, idx)
  | e :: rest' =>
      match decodeSystemValue (eValue e) readTxID with
      | None => next_row readTxID (S idx) rest'
      | Some val => (Some (system_row (data (eKey e)) val), S idx)
      end
  end.

Definition Next (it : directIterator) : option Row * directIterator :=
  let '(r, idx) := next_row (it_readTxID it) (it_idx it) (drop (it_idx it) (it_entries it)) in
  (r, mkIter (it_entries it) idx (it_readTxID it)).

(** The rows a loop over an iterator sees, in at most [fuel] turns. *)
Fixpoint iterate (fuel : nat) (it : directIterator) : list Row :=
  match fuel with
  | O => []
  | S fuel => match Next it with (Some r, it') => r :: iterate fuel it' | (None, _) => [] end
  end.

(** [bytes] of a datum, [None] when it is of another type. *)
Definition datum_bytes (d : Datum) : option (list byte) := match d_Value d with VBytes b => Some b | _ => None end.

(** What a row says of its key: [Some None] is a tombstone. *)
Definition row_value (d : Datum) : option (option (list byte)) :=
  match d_Value d with VNil => Some None | VBytes [] => Some None | VBytes b => Some (Some b) | _ => None end.

Section adapter.
Context {S E : Type} `{KvOps S E} `{GoRuntime}.

(** * Heap and adapter *)

(** [SystemHeapAdapter] over a [concreteSystemHeap]. *)
Record SystemHeapAdapter := mkAdapter { sh_store : S; sh_nextTxID : Z }.

Definition sysM : Type -> Type := st SystemHeapAdapter (sys_err E).

Definition NewSystemHeapAdapter (s : S) : SystemHeapAdapter := mkAdapter s 0.

Definition on_store {A} (c : st S E A) : sysM A := fun a =>
  match c (sh_store a) with
  | (Ok x, s') => (Ok x, mkAdapter s' (sh_nextTxID a))
  | (Err e, s') => (Err (ErrSysStore e), mkAdapter s' (sh_nextTxID a))
  end.

Definition heap_Insert (writeTxID : Z) (row : Row) : sysM unit :=
  match Datums row with
  | d :: _ :: _ => k <- lift (rowToKey d) ;; on_store (kv_Set k (encodeSystemValue writeTxID row))
  | _ => fail ErrTooFewColumns
  end.

(** [key.Key{}] *)
Definition no_key : Key := mkKey [] [].

Definition heap_Scan (readTxID : Z) : sysM directIterator :=
  entries <- on_store (kv_Scan no_key no_key) ;;
  ret (mkIter entries 0 readTxID).

(** [a.nextTxID.Add(1)] *)
Definition next_tx : sysM Z := fun a =>
  let tx := wrap64 (sh_nextTxID a + 1) in (Ok tx, mkAdapter (sh_store a) tx).

Definition Put (key value : list byte) : sysM unit :=
  txID <- next_tx ;; heap_Insert txID (system_row key value).

Definition Delete (key : list byte) : sysM unit :=
  txID <- next_tx ;; heap_Insert txID (system_row key []).

(** The loop of [Get] with [found] and [latestValue]. *)
Fixpoint find_key (key : list byte) (found : bool) (latestValue : option (list byte)) (rows : list Row) : option (list byte) :=
  match rows with
  | [] => if found then latestValue else None
  | row :: rows' =>
      match Datums row with
      | dk :: dv :: _ =>
          if bool_decide (datum_bytes dk = Some key)
          then find_key key true (default latestValue (row_value dv)) rows'
          else find_key key found latestValue rows'
      | _ => find_key key found latestValue rows'
      end
  end.

Definition all_rows : sysM (list Row) :=
  it <- heap_Scan maxUint64 ;; ret (iterate (Datatypes.S (length (it_entries it))) it).

Definition Get (key : list byte) : sysM (list byte) :=
  rows <- all_rows ;;
  match find_key key false None rows with Some v => ret v | None => fail ErrNotFound end.

(** The loop of [Scan] that fills [latest]. *)
Fixpoint collect (latest : gmap (list byte) (option (list byte))) (rows : list Row) : gmap (list byte) (option (list byte)) :=
  match rows with
  | [] => latest
  | row :: rows' =>
      match Datums row with
      | dk :: dv :: _ =>
          match datum_bytes dk, row_value dv with
          | Some k, Some v => collect (<[k := v]> latest) rows'
          | _, _ => collect latest rows'
          end
      | _ => collect latest rows'
      end
  end.

(** The calls of [fn], which has a state [F] of its own and may stop the scan. *)
Definition Scan {F X} (fn : list byte -> list byte -> st F X unit) (a : SystemHeapAdapter) (f : F)
  : (res (sys_err E + X) unit * SystemHeapAdapter * F) :=
  match all_rows a with
  | (Err e, a') => (Err (inl e), a', f)
  | (Ok rows, a') =>
      match for_each (map_order (map_to_list (collect ∅ rows)))
              (fun kv => match kv.2 with Some v => fn kv.1 v | None => ret tt end) f with
      | (Ok tt, f') => (Ok tt, a', f')
      | (Err x, f') => (Err (inr x), a', f')
      end
  end.
End adapter.

Arguments SystemHeapAdapter : clear implicits.

(** * The factory *)

(** Opening a pager and a key-value store, over the state [W] of the file system. *)
Class StoreOpener (W P S E : Type) := {
  pager_Open : list byte -> st W E P;
  pager_Close : P -> st W E unit;
  kv_Open : P -> st W E S;
  filepath_Join : list byte -> list byte -> list byte }.

Section factory.
Context {W P S E : Type} `{StoreOpener W P S E}.

Definition heapPath (dataDir : list byte) (tableID : Z) : list byte :=
  filepath_Join dataDir (go_string "heap_" ++ fmt_d tableID ++ go_string ".db").

Definition makeStore (dataDir : list byte) (id : Z) : st W E S :=
  pg <- pager_Open (heapPath dataDir id) ;;
  cleanup (kv_Open pg) (pager_Close pg).

Definition OpenOrCreateSystemHeaps (dataDir : list byte)
  : st W E (SystemHeapAdapter S * SystemHeapAdapter S * SystemHeapAdapter S) :=
  tablesHeap <- makeStore dataDir SystemTableTables ;;
  columnsHeap <- makeStore dataDir SystemTableColumns ;;
  usersHeap <- makeStore dataDir SystemTableUsers ;;
  ret (NewSystemHeapAdapter tablesHeap, NewSystemHeapAdapter columnsHeap, NewSystemHeapAdapter usersHeap).
End factory.

(** * Rows and the map they stand for *)

Definition entry_row (readTxID : Z) (e : Entry) : option Row :=
  match decodeSystemValue (eValue e) readTxID with Some val => Some (system_row (data (eKey e)) val) | None => None end.

Lemma next_row_cases readTxID entries rest idx :
  rest = drop idx entries -> (idx <= length entries)%nat ->
  match next_row readTxID idx rest with
  | (None, _) => omap (entry_row readTxID) rest = []
  | (Some r, idx') => omap (entry_row readTxID) rest = r :: omap (entry_row readTxID) (drop idx' entries) /\
      (idx < idx' <= length entries)%nat
  end.
Proof.
  revert idx. induction rest as [|e rest IH]; intros idx Hd Hi; [done|].
  assert (rest = drop (Datatypes.S idx) entries) as Hd' by (by rewrite <- Nat.add_1_r, <- drop_drop, <- Hd).
  assert (idx < length entries)%nat as Hlt.
  { apply (f_equal length) in Hd. rewrite length_drop in Hd. cbn in Hd. lia. }
  cbn [next_row]. change (omap (entry_row readTxID) (e :: rest))
    with (match entry_row readTxID e with Some r => r :: omap (entry_row readTxID) rest | None => omap (entry_row readTxID) rest end).
  change (entry_row readTxID e) with (match decodeSystemValue (eValue e) readTxID with
    Some val => Some (system_row (data (eKey e)) val) | None => None end).
  destruct (decodeSystemValue (eValue e) readTxID) as [v|].
  - rewrite Hd'. split; [done|lia].
  - specialize (IH (Datatypes.S idx) Hd' Hlt). revert IH. destruct (next_row _ _ rest) as [[r|] idx']; [|done].
    intros [-> ?]. split; [done|lia].
Qed.

Lemma iterate_all fuel readTxID entries idx :
  (length entries - idx < fuel)%nat -> (idx <= length entries)%nat ->
  iterate fuel (mkIter entries idx readTxID) = omap (entry_row readTxID) (drop idx entries).
Proof.
  revert idx. induction fuel as [|fuel IH]; intros idx Hf Hi; [lia|]. cbn [iterate]. unfold Next. cbn.
  pose proof (next_row_cases readTxID entries _ idx eq_refl Hi) as Hn.
  destruct (next_row readTxID idx (drop idx entries)) as [[r|] idx']; [|by rewrite Hn].
  destruct Hn as [-> ?]. rewrite IH by lia. done.
Qed.

Lemma decode_encode version k v :
  u64 version -> decodeSystemValue (encodeSystemValue version (system_row k v)) maxUint64 = match v with [] => None | _ => Some v end.
Proof.
  intros Hv. unfold encodeSystemValue, decodeSystemValue. cbn [Datums system_row d_Value].
  rewrite zlen_app, zlen_be_encode. rewrite (proj2 (Z.ltb_ge _ _)) by (pose proof (zlen_nonneg v); lia).
  rewrite ztake_app_eq, zdrop_app_eq by (by rewrite zlen_be_encode).
  rewrite be_decode_encode by done. rewrite (proj2 (Z.ltb_ge _ _)) by (unfold maxUint64, u64 in *; lia).
  destruct v; done.
Qed.

(** A value as the map has it. *)
Definition live_value (b : list byte) : option (list byte) := decodeSystemValue b maxUint64.

Definition map_rows (l : list (list byte * list byte)) : list Row := omap (entry_row maxUint64) (map to_entry l).

Lemma map_rows_cons k b l :
  map_rows ((k, b) :: l) = match live_value b with Some v => system_row k v :: map_rows l | None => map_rows l end.
Proof. unfold map_rows, live_value. cbn. unfold entry_row at 1. cbn. by destruct (decodeSystemValue b maxUint64). Qed.

Lemma live_not_empty b v : live_value b = Some v -> v <> [].
Proof.
  unfold live_value, decodeSystemValue. destruct (_ <? _); [done|]. destruct (_ <? _); [done|].
  destruct (zlen (zdrop 8 b) =? 0) eqn:E0; [done|]. intros [= <-] E1. rewrite E1 in E0. done.
Qed.

Lemma row_value_bytes v : v <> [] -> row_value (mkDatum TypeBytes (VBytes v)) = Some (Some v).
Proof. by destruct v. Qed.

Lemma find_key_absent key found v l :
  om_get key l = None -> find_key key found v (map_rows l) = if found then v else None.
Proof.
  induction l as [|[k b] l IH]; [done|]. intros Hn. rewrite map_rows_cons.
  destruct (decide (k = key)) as [->|Hne]; [by rewrite om_get_cons_eq in Hn|]. rewrite om_get_cons_ne in Hn by done.
  destruct (live_value b) as [w|]; [|by apply IH]. cbn. rewrite bool_decide_eq_false_2 by (unfold datum_bytes; cbn; congruence).
  by apply IH.
Qed.

Lemma find_key_map key l : om_sorted l -> find_key key false None (map_rows l) = om_get key l ≫= live_value.
Proof.
  induction l as [|[k b] l IH]; [done|]. intros Hs. pose proof Hs as [Hs' Hk]%om_sorted_cons. rewrite map_rows_cons.
  destruct (decide (k = key)) as [->|Hne].
  - assert (om_get key l = None) as Hn.
    { apply om_get_None, Forall_forall. intros [y z] Hy. cbn. intros ->. apply (bytes_lt_irrefl key), Hk.
      apply in_map_iff. exists (key, z). split; [done|]. by apply list_elem_of_In. }
    rewrite om_get_cons_eq. cbn [mbind option_bind]. destruct (live_value b) as [w|] eqn:Hw.
    + cbn [find_key system_row Datums]. rewrite bool_decide_eq_true_2 by done.
      rewrite (row_value_bytes w) by (by eapply live_not_empty). by apply (find_key_absent key true).
    + by apply (find_key_absent key false).
  - rewrite om_get_cons_ne by done. destruct (live_value b) as [w|]; [|by apply IH].
    cbn. rewrite bool_decide_eq_false_2 by (unfold datum_bytes; cbn; congruence). by apply IH.
Qed.

Lemma collect_map l latest k :
  om_sorted l ->
  collect latest (map_rows l) !! k = match om_get k l ≫= live_value with Some v => Some (Some v) | None => latest !! k end.
Proof.
  revert latest. induction l as [|[k' b] l IH]; intros latest Hs; [done|].
  pose proof Hs as [Hs' Hk]%om_sorted_cons. rewrite map_rows_cons.
  destruct (decide (k' = k)) as [->|Hne].
  - assert (om_get k l = None) as Hn.
    { apply om_get_None, Forall_forall. intros [y z] Hy. cbn. intros ->. apply (bytes_lt_irrefl k), Hk.
      apply in_map_iff. exists (k, z). split; [done|]. by apply list_elem_of_In. }
    rewrite om_get_cons_eq. cbn [mbind option_bind]. destruct (live_value b) as [w|] eqn:Hw.
    + cbn [collect system_row Datums datum_bytes d_Value]. rewrite (row_value_bytes w) by (by eapply live_not_empty).
      rewrite IH, Hn by done. cbn. apply lookup_insert_eq.
    + by rewrite IH, Hn by done.
  - rewrite om_get_cons_ne by done. destruct (live_value b) as [w|] eqn:Hw; [|by apply IH].
    cbn [collect system_row Datums datum_bytes d_Value]. rewrite (row_value_bytes w) by (by eapply live_not_empty).
    rewrite IH by done. by rewrite lookup_insert_ne.
Qed.

(** * The table is a map *)

Section refinement.
Context {S E : Type} `{KvLaws S E} `{GoRuntime} {RL : GoRuntimeLaws}.
Notation pairs := (list (list byte * list byte)).

Inductive sys_request :=
| SPut (key value : list byte)
| SGet (key : list byte)
| SDelete (key : list byte)
| SScan.

Inductive sys_answer :=
| ADone (r : res (sys_err E) unit)
| AValue (r : res (sys_err E) (list byte))
| APairs (r : res (sys_err E) pairs).

(** A scan whose [fn] keeps what it is given. *)
Definition keep (k v : list byte) : st pairs Empty_set unit := modify (fun l => l ++ [(k, v)]).

Definition sys_serve (q : sys_request) (a : SystemHeapAdapter S) : sys_answer * SystemHeapAdapter S :=
  match q with
  | SPut k v => let '(r, a') := Put (E:=E) k v a in (ADone r, a')
  | SGet k => let '(r, a') := Get (E:=E) k a in (AValue r, a')
  | SDelete k => let '(r, a') := Delete (E:=E) k a in (ADone r, a')
  | SScan =>
      match Scan (E:=E) keep a [] with
      | (Ok _, a', l) => (APairs (Ok l), a')
      | (Err (inl e), a', _) => (APairs (Err e), a')
      | (Err (inr e), a', _) => match e with end
      end
  end.

Fixpoint sys_serve_all (qs : list sys_request) (a : SystemHeapAdapter S) : list sys_answer * SystemHeapAdapter S :=
  match qs with
  | [] => ([], a)
  | q :: qs' => let '(r, a1) := sys_serve q a in let '(rs, a2) := sys_serve_all qs' a1 in (r :: rs, a2)
  end.

Notation kvmap := (gmap (list byte) (list byte)).

(** The answers of a map: a scan may visit it in any order, and an empty value is no value. *)
Inductive map_answers : sys_request -> kvmap -> sys_answer -> kvmap -> Prop :=
| answer_put k v m : zlen k <= MaxKeySize -> v <> [] -> map_answers (SPut k v) m (ADone (Ok tt)) (<[k := v]> m)
| answer_put_empty k m : zlen k <= MaxKeySize -> map_answers (SPut k []) m (ADone (Ok tt)) (delete k m)
| answer_put_large k v m : MaxKeySize < zlen k -> map_answers (SPut k v) m (ADone (Err (ErrSysStore kv_too_large))) m
| answer_get k v m : m !! k = Some v -> map_answers (SGet k) m (AValue (Ok v)) m
| answer_get_none k m : m !! k = None -> map_answers (SGet k) m (AValue (Err ErrNotFound)) m
| answer_delete k m : zlen k <= MaxKeySize -> map_answers (SDelete k) m (ADone (Ok tt)) (delete k m)
| answer_delete_large k m : MaxKeySize < zlen k -> map_answers (SDelete k) m (ADone (Err (ErrSysStore kv_too_large))) m
| answer_scan m l : Permutation l (map_to_list m) -> map_answers SScan m (APairs (Ok l)) m.

Inductive map_serves : list sys_request -> kvmap -> list sys_answer -> kvmap -> Prop :=
| map_serves_nil m : map_serves [] m [] m
| map_serves_cons q qs m r m1 rs m' :
    map_answers q m r m1 -> map_serves qs m1 rs m' -> map_serves (q :: qs) m (r :: rs) m'.

(** The adapter stands for a map, with room for [n] more writes. *)
Definition sys_rep (n : nat) (a : SystemHeapAdapter S) (m : kvmap) : Prop :=
  exists l, kv_rel (sh_store a) n l /\ forall k, m !! k = om_get k l ≫= live_value.

(** What fits into a value of the store. *)
Definition sys_request_ok (q : sys_request) : Prop :=
  match q with SPut _ v => zlen v + 8 <= MaxValSize | _ => True end.

Lemma sys_rep_weaken n n' a m : (n' <= n)%nat -> sys_rep n a m -> sys_rep n' a m.
Proof. intros Hn (l & Hr & Hm). exists l. split; [by eapply kv_rel_weaken|done]. Qed.

Lemma adapter_insert_run n a m k v :
  sys_rep (Datatypes.S n) a m -> zlen v + 8 <= MaxValSize ->
  exists r a' m', Put (E:=E) k v a = (r, a') /\ map_answers (SPut k v) m (ADone r) m' /\ sys_rep n a' m' /\
    (MaxKeySize < zlen k -> m' = m) /\ (v = [] -> zlen k <= MaxKeySize -> m' = delete k m).
Proof.
  intros (l & Hr & Hm) Hv. unfold Put, heap_Insert, bind, next_tx, lift, on_store. cbn [Datums system_row rowToKey d_Value].
  set (tx := wrap64 (sh_nextTxID a + 1)). cbn [sh_store].
  destruct (Z.le_gt_cases (zlen k) MaxKeySize) as [Hk|Hk].
  - destruct (kv_set_law (sh_store a) n l (EncodeBytes k) (encodeSystemValue tx (system_row k v)) Hr Hk) as (s' & Es & Hr').
    { unfold encodeSystemValue. cbn. rewrite zlen_app, zlen_be_encode. lia. }
    rewrite Es. cbn [data EncodeBytes] in Hr'. pose proof (kv_rel_sorted _ _ _ Hr) as Hs.
    assert (forall k', om_get k' (om_set k (encodeSystemValue tx (system_row k v)) l) ≫= live_value
        = if decide (k' = k) then match v with [] => None | _ => Some v end else m !! k') as Hget.
    { intros k'. rewrite om_get_set by done. case_decide; [|by rewrite Hm]. cbn [mbind option_bind].
      unfold live_value. rewrite decode_encode by apply wrap64_range. done. }
    destruct (decide (v = [])) as [->|Hne].
    + eexists _, _, (delete k m). split; [done|]. split; [by constructor|]. split_and!; [|lia|done].
      eexists. split; [exact Hr'|]. intros k'. rewrite Hget. case_decide; [subst; by rewrite lookup_delete_eq|by rewrite lookup_delete_ne].
    + eexists _, _, (<[k := v]> m). split; [done|]. split; [by constructor|]. split_and!; [|lia|done].
      eexists. split; [exact Hr'|]. intros k'. rewrite Hget. case_decide; [subst; rewrite lookup_insert_eq; by destruct v|by rewrite lookup_insert_ne].
  - rewrite (kv_set_large (sh_store a) (Datatypes.S n) l (EncodeBytes k) _ Hr Hk).
    eexists _, _, m. split; [done|]. split; [by constructor|]. split_and!; [|done|lia].
    exists l. split; [by eapply kv_rel_weaken; [|exact Hr]; lia|done].
Qed.

Lemma all_rows_run n a m :
  sys_rep n a m -> exists l a', all_rows (E:=E) a = (Ok (map_rows l), a') /\ sys_rep n a' m /\ om_sorted l /\
    forall k, m !! k = om_get k l ≫= live_value.
Proof.
  intros (l & Hr & Hm). destruct (kv_scan_law _ _ _ no_key no_key Hr) as (s' & Es & Hr').
  unfold all_rows, heap_Scan, bind, on_store. rewrite Es. cbn [it_entries ret]. exists l.
  assert (om_range (scan_bound (data no_key)) (scan_bound (data no_key)) l = l) as ->.
  { unfold om_range. cbn. clear. induction l as [|e l IH]; [done|]. cbn. by f_equal. }
  rewrite iterate_all by lia. rewrite drop_0. eexists. split; [done|]. split; [by exists l|].
  split; [by eapply kv_rel_sorted|done].
Qed.

Lemma for_each_keep (l : list (list byte * option (list byte))) acc :
  for_each l (fun kv => match kv.2 with Some v => keep kv.1 v | None => ret tt end) acc
  = (Ok tt, acc ++ omap (fun kv => match kv.2 with Some v => Some (kv.1, v) | None => None end) l).
Proof.
  revert acc. induction l as [|[k [v|]] l IH]; intros acc; cbn; [by rewrite app_nil_r| |apply IH].
  unfold bind, keep, modify. rewrite IH, <- app_assoc. done.
Qed.

(** Collecting live values and dropping the tombstones gives the map. *)
Lemma scanned_pairs l m :
  om_sorted l -> (forall k, m !! k = om_get k l ≫= live_value) ->
  Permutation (omap (fun kv => match kv.2 with Some v => Some (kv.1, v) | None => None end)
    (map_order (map_to_list (collect ∅ (map_rows l))))) (map_to_list m).
Proof.
  intros Hs Hm. rewrite (map_order_perm _ _).
  assert (collect ∅ (map_rows l) = Some <$> m) as ->.
  { apply map_eq. intros k. rewrite collect_map, lookup_fmap, <- Hm by done. rewrite lookup_empty. by destruct (m !! k). }
  rewrite map_to_list_fmap. induction (map_to_list m) as [|[k v] xs IH]; [done|]. cbn. by constructor.
Qed.

Lemma sys_serve_run n q a m :
  sys_rep (Datatypes.S n) a m -> sys_request_ok q ->
  let '(r, a') := sys_serve q a in exists m', map_answers q m r m' /\ sys_rep n a' m'.
Proof.
  intros Hrep Hq. destruct q as [k v|k|k|]; cbn [sys_serve].
  - destruct (adapter_insert_run n a m k v Hrep Hq) as (r & a' & m' & -> & ? & ? & _). by exists m'.
  - destruct (all_rows_run _ a m Hrep) as (l & a' & Ea & Hr' & Hs & Hm). unfold Get, bind. rewrite Ea, find_key_map, <- Hm by done.
    destruct (m !! k) as [v|] eqn:Hk; cbn; (exists m; split; [by constructor|by apply (sys_rep_weaken (Datatypes.S n)); [lia|]]).
  - destruct (adapter_insert_run n a m k [] Hrep) as (r & a' & m' & E0 & Ha & ? & Hl & Hd); [by vm_compute|].
    change (Delete k a) with (Put (E:=E) k [] a). rewrite E0. exists m'. split; [|done].
    destruct (Z.le_gt_cases (zlen k) MaxKeySize) as [Hk|Hk].
    + rewrite Hd by done. inversion Ha; subst; [done|by constructor|lia].
    + rewrite Hl by lia. inversion Ha; subst; [lia..|by constructor; lia].
  - destruct (all_rows_run _ a m Hrep) as (l & a' & Ea & Hr' & Hs & Hm). unfold Scan. rewrite Ea, for_each_keep. cbn [app].
    exists m. split; [constructor; by apply scanned_pairs|by apply (sys_rep_weaken (Datatypes.S n)); [lia|]].
Qed.

End refinement.
