(* ===== verification/Catalog.v ===== *)
(** [internal/catalog]: the system catalog.

    The catalog keeps its tables, users, roles and grants in eight heap tables and in a
    cache, which all reads use.  A catalog made by [New] has a heap; one made by
    [NewWithStores] has none, its table handles stay nil, and a call through one panics.
    [clock] is what [time.Now] returns, [entropy] numbers the random salts.  An operation
    runs from beginning to end here, except that [CreateRole] is also given by its three
    parts, between which the code holds no lock.  A copy of an immutable value is the
    value. *)

From Stdlib Require Import ZArith Lia.
From Stdlib Require Strings.String.
From stdpp Require Import gmap.
From S2P Require Import Prelude OrdMap Key KvNode Monad KvSpec GoRuntime HeapValue Heap HeapScan GoFmt.
Import String.StringSyntax.
Open Scope Z_scope.
Open Scope st_scope.

Definition SystemTableTablesID : Z := 1.
Definition SystemTableUsersID : Z := 2.
Definition SystemTableMetaID : Z := 3.
Definition SystemTableRolesID : Z := 4.
Definition SystemTableGrantsID : Z := 5.
Definition SystemTableUserRolesID : Z := 6.
Definition SystemTableSchemaHistoryID : Z := 7.
Definition SystemTableAuditLogID : Z := 8.

Definition MetaKeyNextTxID : list byte := go_string "catalog_next_tx_id".

Definition Action : Type := list byte.
Definition ActionRead : Action := go_string "READ".
Definition ActionWrite : Action := go_string "WRITE".
Definition ActionDDL : Action := go_string "DDL".

Definition schemaTables : Schema := mkSchema SystemTableTablesID
  [mkColumn (go_string "table_id") KindUint64; mkColumn (go_string "engine_name") KindString;
   mkColumn (go_string "table_name") KindString; mkColumn (go_string "schema_payload") KindBytes;
   mkColumn (go_string "schema_version") KindUint64] [0].
Definition schemaUsers : Schema := mkSchema SystemTableUsersID
  [mkColumn (go_string "user_id") KindUint64; mkColumn (go_string "username") KindString;
   mkColumn (go_string "password_hash") KindBytes; mkColumn (go_string "is_admin") KindUint64] [0].
Definition schemaMeta : Schema := mkSchema SystemTableMetaID
  [mkColumn (go_string "meta_key") KindString; mkColumn (go_string "meta_uint64") KindUint64] [0].
Definition schemaRoles : Schema := mkSchema SystemTableRolesID
  [mkColumn (go_string "role_id") KindUint64; mkColumn (go_string "role_name") KindString] [0].
Definition schemaGrants : Schema := mkSchema SystemTableGrantsID
  [mkColumn (go_string "grant_id") KindUint64; mkColumn (go_string "role_id") KindUint64;
   mkColumn (go_string "table_id") KindUint64; mkColumn (go_string "action") KindString] [0].
Definition schemaUserRoles : Schema := mkSchema SystemTableUserRolesID
  [mkColumn (go_string "user_role_id") KindUint64; mkColumn (go_string "user_id") KindUint64;
   mkColumn (go_string "role_id") KindUint64] [0].
Definition schemaSchemaHistory : Schema := mkSchema SystemTableSchemaHistoryID
  [mkColumn (go_string "history_id") KindUint64; mkColumn (go_string "table_id") KindUint64;
   mkColumn (go_string "version") KindUint64; mkColumn (go_string "action") KindString;
   mkColumn (go_string "schema_payload") KindBytes; mkColumn (go_string "timestamp") KindUint64] [0].
Definition schemaAuditLog : Schema := mkSchema SystemTableAuditLogID
  [mkColumn (go_string "audit_id") KindUint64; mkColumn (go_string "tx_id") KindUint64;
   mkColumn (go_string "user_id") KindUint64; mkColumn (go_string "action") KindString;
   mkColumn (go_string "target_type") KindString; mkColumn (go_string "target_name") KindString;
   mkColumn (go_string "timestamp") KindUint64] [0].

(** * Data *)

Record TableInfo := mkTableInfo {
  ti_TableID : Z; EngineName : list byte; TableName : list byte; SchemaPayload : list byte; SchemaVersion : Z }.
Record UserInfo := mkUserInfo { ui_UserID : Z; Username : list byte; PasswordHash : list byte; IsAdmin : bool }.
Record RoleInfo := mkRoleInfo { ri_RoleID : Z; RoleName : list byte }.
Record GrantInfo := mkGrantInfo { GrantID : Z; gi_RoleID : Z; gi_TableID : Z; gi_Action : Action }.
Record SchemaHistoryEntry := mkHistory {
  HistoryID : Z; he_TableID : Z; he_Version : Z; he_Action : list byte; he_SchemaPayload : list byte; he_Timestamp : Z }.

Inductive cat_err (E : Type) : Type :=
| ErrEngineNotFound | ErrDuplicateEngine | ErrInvalidEngine | ErrTableNotFound | ErrDuplicateTable | ErrDuplicateUser
| ErrInvalidSchema | ErrAuthFailed | ErrCatalogNotStarted | ErrCatalogAlreadyStarted | ErrEmptyName | ErrConflict
| ErrRoleNotFound | ErrDuplicateRole | ErrInvalidAction | ErrDuplicateRoleAssignment | ErrDuplicateGrant | ErrGrantNotFound
| ErrBcrypt | ErrHeap (e : table_err E) | ErrCatPanic.
Arguments ErrEngineNotFound {E}. Arguments ErrDuplicateEngine {E}. Arguments ErrInvalidEngine {E}.
Arguments ErrTableNotFound {E}. Arguments ErrDuplicateTable {E}. Arguments ErrDuplicateUser {E}.
Arguments ErrInvalidSchema {E}. Arguments ErrAuthFailed {E}. Arguments ErrCatalogNotStarted {E}.
Arguments ErrCatalogAlreadyStarted {E}. Arguments ErrEmptyName {E}. Arguments ErrConflict {E}.
Arguments ErrRoleNotFound {E}. Arguments ErrDuplicateRole {E}. Arguments ErrInvalidAction {E}.
Arguments ErrDuplicateRoleAssignment {E}. Arguments ErrDuplicateGrant {E}. Arguments ErrGrantNotFound {E}.
Arguments ErrBcrypt {E}. Arguments ErrHeap {E} e. Arguments ErrCatPanic {E}.

Notation grantKey := (Z * Z * Action)%type.
Notation userRoleKey := (Z * Z)%type.

Record cache := mkCache {
  tables : gmap (list byte) TableInfo; users : gmap (list byte) UserInfo; usersByID : gmap Z UserInfo;
  pendingTables : gset (list byte); pendingUsers : gset (list byte); nextTableID : Z; nextUserID : Z;
  roles : gmap (list byte) RoleInfo; rolesByID : gmap Z RoleInfo; grants : gmap Z (list GrantInfo);
  grantsByKey : gmap grantKey GrantInfo; userRoles : gmap Z (list Z);
  userRoleAssignments : gmap userRoleKey Z; nextRoleID : Z; nextGrantID : Z; nextUserRoleID : Z;
  nextHistoryID : Z; nextAuditLogID : Z }.

Definition on_tables (f : gmap (list byte) TableInfo -> gmap (list byte) TableInfo) (c : cache) : cache :=
  mkCache (f (tables c)) (users c) (usersByID c) (pendingTables c) (pendingUsers c) (nextTableID c)
    (nextUserID c) (roles c) (rolesByID c) (grants c) (grantsByKey c) (userRoles c) (userRoleAssignments c)
    (nextRoleID c) (nextGrantID c) (nextUserRoleID c) (nextHistoryID c) (nextAuditLogID c).
Definition on_users (f : gmap (list byte) UserInfo -> gmap (list byte) UserInfo) (c : cache) : cache :=
  mkCache (tables c) (f (users c)) (usersByID c) (pendingTables c) (pendingUsers c) (nextTableID c)
    (nextUserID c) (roles c) (rolesByID c) (grants c) (grantsByKey c) (userRoles c) (userRoleAssignments c)
    (nextRoleID c) (nextGrantID c) (nextUserRoleID c) (nextHistoryID c) (nextAuditLogID c).
Definition on_usersByID (f : gmap Z UserInfo -> gmap Z UserInfo) (c : cache) : cache :=
  mkCache (tables c) (users c) (f (usersByID c)) (pendingTables c) (pendingUsers c) (nextTableID c)
    (nextUserID c) (roles c) (rolesByID c) (grants c) (grantsByKey c) (userRoles c) (userRoleAssignments c)
    (nextRoleID c) (nextGrantID c) (nextUserRoleID c) (nextHistoryID c) (nextAuditLogID c).
Definition on_pendingTables (f : gset (list byte) -> gset (list byte)) (c : cache) : cache :=
  mkCache (tables c) (users c) (usersByID c) (f (pendingTables c)) (pendingUsers c) (nextTableID c)
    (nextUserID c) (roles c) (rolesByID c) (grants c) (grantsByKey c) (userRoles c) (userRoleAssignments c)
    (nextRoleID c) (nextGrantID c) (nextUserRoleID c) (nextHistoryID c) (nextAuditLogID c).
Definition on_pendingUsers (f : gset (list byte) -> gset (list byte)) (c : cache) : cache :=
  mkCache (tables c) (users c) (usersByID c) (pendingTables c) (f (pendingUsers c)) (nextTableID c)
    (nextUserID c) (roles c) (rolesByID c) (grants c) (grantsByKey c) (userRoles c) (userRoleAssignments c)
    (nextRoleID c) (nextGrantID c) (nextUserRoleID c) (nextHistoryID c) (nextAuditLogID c).
Definition on_nextTableID (f : Z -> Z) (c : cache) : cache :=
  mkCache (tables c) (users c) (usersByID c) (pendingTables c) (pendingUsers c) (f (nextTableID c))
    (nextUserID c) (roles c) (rolesByID c) (grants c) (grantsByKey c) (userRoles c) (userRoleAssignments c)
    (nextRoleID c) (nextGrantID c) (nextUserRoleID c) (nextHistoryID c) (nextAuditLogID c).
Definition on_nextUserID (f : Z -> Z) (c : cache) : cache :=
  mkCache (tables c) (users c) (usersByID c) (pendingTables c) (pendingUsers c) (nextTableID c)
    (f (nextUserID c)) (roles c) (rolesByID c) (grants c) (grantsByKey c) (userRoles c) (userRoleAssignments c)
    (nextRoleID c) (nextGrantID c) (nextUserRoleID c) (nextHistoryID c) (nextAuditLogID c).
Definition on_roles (f : gmap (list byte) RoleInfo -> gmap (list byte) RoleInfo) (c : cache) : cache :=
  mkCache (tables c) (users c) (usersByID c) (pendingTables c) (pendingUsers c) (nextTableID c) (nextUserID c)
    (f (roles c)) (rolesByID c) (grants c) (grantsByKey c) (userRoles c) (userRoleAssignments c) (nextRoleID c)
    (nextGrantID c) (nextUserRoleID c) (nextHistoryID c) (nextAuditLogID c).
Definition on_rolesByID (f : gmap Z RoleInfo -> gmap Z RoleInfo) (c : cache) : cache :=
  mkCache (tables c) (users c) (usersByID c) (pendingTables c) (pendingUsers c) (nextTableID c) (nextUserID c)
    (roles c) (f (rolesByID c)) (grants c) (grantsByKey c) (userRoles c) (userRoleAssignments c) (nextRoleID c)
    (nextGrantID c) (nextUserRoleID c) (nextHistoryID c) (nextAuditLogID c).
Definition on_grants (f : gmap Z (list GrantInfo) -> gmap Z (list GrantInfo)) (c : cache) : cache :=
  mkCache (tables c) (users c) (usersByID c) (pendingTables c) (pendingUsers c) (nextTableID c) (nextUserID c)
    (roles c) (rolesByID c) (f (grants c)) (grantsByKey c) (userRoles c) (userRoleAssignments c) (nextRoleID c)
    (nextGrantID c) (nextUserRoleID c) (nextHistoryID c) (nextAuditLogID c).
Definition on_grantsByKey (f : gmap grantKey GrantInfo -> gmap grantKey GrantInfo) (c : cache) : cache :=
  mkCache (tables c) (users c) (usersByID c) (pendingTables c) (pendingUsers c) (nextTableID c) (nextUserID c)
    (roles c) (rolesByID c) (grants c) (f (grantsByKey c)) (userRoles c) (userRoleAssignments c) (nextRoleID c)
    (nextGrantID c) (nextUserRoleID c) (nextHistoryID c) (nextAuditLogID c).
Definition on_userRoles (f : gmap Z (list Z) -> gmap Z (list Z)) (c : cache) : cache :=
  mkCache (tables c) (users c) (usersByID c) (pendingTables c) (pendingUsers c) (nextTableID c) (nextUserID c)
    (roles c) (rolesByID c) (grants c) (grantsByKey c) (f (userRoles c)) (userRoleAssignments c) (nextRoleID c)
    (nextGrantID c) (nextUserRoleID c) (nextHistoryID c) (nextAuditLogID c).
Definition on_userRoleAssignments (f : gmap userRoleKey Z -> gmap userRoleKey Z) (c : cache) : cache :=
  mkCache (tables c) (users c) (usersByID c) (pendingTables c) (pendingUsers c) (nextTableID c) (nextUserID c)
    (roles c) (rolesByID c) (grants c) (grantsByKey c) (userRoles c) (f (userRoleAssignments c)) (nextRoleID c)
    (nextGrantID c) (nextUserRoleID c) (nextHistoryID c) (nextAuditLogID c).
Definition on_nextRoleID (f : Z -> Z) (c : cache) : cache :=
  mkCache (tables c) (users c) (usersByID c) (pendingTables c) (pendingUsers c) (nextTableID c) (nextUserID c)
    (roles c) (rolesByID c) (grants c) (grantsByKey c) (userRoles c) (userRoleAssignments c) (f (nextRoleID c))
    (nextGrantID c) (nextUserRoleID c) (nextHistoryID c) (nextAuditLogID c).
Definition on_nextGrantID (f : Z -> Z) (c : cache) : cache :=
  mkCache (tables c) (users c) (usersByID c) (pendingTables c) (pendingUsers c) (nextTableID c) (nextUserID c)
    (roles c) (rolesByID c) (grants c) (grantsByKey c) (userRoles c) (userRoleAssignments c) (nextRoleID c)
    (f (nextGrantID c)) (nextUserRoleID c) (nextHistoryID c) (nextAuditLogID c).
Definition on_nextUserRoleID (f : Z -> Z) (c : cache) : cache :=
  mkCache (tables c) (users c) (usersByID c) (pendingTables c) (pendingUsers c) (nextTableID c) (nextUserID c)
    (roles c) (rolesByID c) (grants c) (grantsByKey c) (userRoles c) (userRoleAssignments c) (nextRoleID c)
    (nextGrantID c) (f (nextUserRoleID c)) (nextHistoryID c) (nextAuditLogID c).
Definition on_nextHistoryID (f : Z -> Z) (c : cache) : cache :=
  mkCache (tables c) (users c) (usersByID c) (pendingTables c) (pendingUsers c) (nextTableID c) (nextUserID c)
    (roles c) (rolesByID c) (grants c) (grantsByKey c) (userRoles c) (userRoleAssignments c) (nextRoleID c)
    (nextGrantID c) (nextUserRoleID c) (f (nextHistoryID c)) (nextAuditLogID c).
Definition on_nextAuditLogID (f : Z -> Z) (c : cache) : cache :=
  mkCache (tables c) (users c) (usersByID c) (pendingTables c) (pendingUsers c) (nextTableID c) (nextUserID c)
    (roles c) (rolesByID c) (grants c) (grantsByKey c) (userRoles c) (userRoleAssignments c) (nextRoleID c)
    (nextGrantID c) (nextUserRoleID c) (nextHistoryID c) (f (nextAuditLogID c)).

Definition newCache : cache := mkCache ∅ ∅ ∅ ∅ ∅ 1 1 ∅ ∅ ∅ ∅ ∅ ∅ 1 1 1 1 1.

(** A counter of 64 bits. *)
Definition incr (n : Z) : Z := wrap64 (n + 1).

(** The engines are known by what their [ValidateSchema] accepts. *)
Record catalog (S : Type) := mkCatalog {
  h : option S; engines : gmap (list byte) (list byte -> bool); started : bool; starting : bool; cat_cache : option cache;
  nextTxID : Z; schemaVersion : Z; clock : Z; entropy : Z }.
Arguments mkCatalog {S}. Arguments h {S}. Arguments engines {S}. Arguments started {S}. Arguments starting {S}.
Arguments cat_cache {S}. Arguments nextTxID {S}. Arguments schemaVersion {S}. Arguments clock {S}. Arguments entropy {S}.

(** * Passwords *)

(** bcrypt, by the number of a random salt, and SHA-256. *)
Class Passwords := {
  GenerateFromPassword : Z -> list byte -> option (list byte);
  CompareHashAndPassword : list byte -> list byte -> bool;
  Sum256 : list byte -> list byte }.

Definition isLegacyHash (hash : list byte) : bool := (zlen hash <? 4) || negb (bool_decide (ztake 4 hash = go_string "$2a$")).

Definition verifyPassword `{Passwords} (hash password : list byte) : bool :=
  match hash with
  | [] => false
  | _ =>
      if isLegacyHash hash then
        if zlen hash <? 16 then false
        else bool_decide (zdrop 16 hash = Sum256 (ztake 16 hash ++ password))
      else CompareHashAndPassword hash password
  end.

Definition isValidAction (a : Action) : bool := bool_decide (a ∈ [ActionRead; ActionWrite; ActionDDL]).

Definition boolToUint64 (b : bool) : Z := if b then 1 else 0.

Section catalog.
Context {S E : Type} `{KvOps S E} `{GoRuntime} `{Passwords}.
Implicit Types (c : catalog S).

Definition cm : Type -> Type := st (catalog S) (cat_err E).

Definition with_heap (s : S) c : catalog S :=
  mkCatalog (Some s) (engines c) (started c) (starting c) (cat_cache c) (nextTxID c) (schemaVersion c) (clock c) (entropy c).
Definition with_engines e c : catalog S :=
  mkCatalog (h c) e (started c) (starting c) (cat_cache c) (nextTxID c) (schemaVersion c) (clock c) (entropy c).
Definition with_run (st sg : bool) (cc : option cache) c : catalog S :=
  mkCatalog (h c) (engines c) st sg cc (nextTxID c) (schemaVersion c) (clock c) (entropy c).
Definition with_cache cc c : catalog S := with_run (started c) (starting c) cc c.
Definition with_tx (tx : Z) c : catalog S :=
  mkCatalog (h c) (engines c) (started c) (starting c) (cat_cache c) tx (schemaVersion c) (clock c) (entropy c).
Definition with_version (v : Z) c : catalog S :=
  mkCatalog (h c) (engines c) (started c) (starting c) (cat_cache c) (nextTxID c) v (clock c) (entropy c).
Definition with_entropy (n : Z) c : catalog S :=
  mkCatalog (h c) (engines c) (started c) (starting c) (cat_cache c) (nextTxID c) (schemaVersion c) (clock c) n.

Definition New (s : S) : catalog S := mkCatalog (Some s) ∅ false false None 0 0 0 0.
Definition NewWithStores : catalog S := mkCatalog None ∅ false false None 0 0 0 0.

(** A call of a method of a table handle. *)
Definition on_heap {A} (op : st S (table_err E) A) : cm A := fun c =>
  match h c with
  | None => (Err ErrCatPanic, c)
  | Some s => match op s with (Ok a, s') => (Ok a, with_heap s' c) | (Err e, s') => (Err (ErrHeap e), with_heap s' c) end
  end.

(** [c.cache.f], which panics when there is no cache. *)
Definition from_cache {A} (f : cache -> A) : cm A := fun c =>
  match cat_cache c with Some cc => (Ok (f cc), c) | None => (Err ErrCatPanic, c) end.
Definition on_cache (f : cache -> cache) : cm unit := fun c =>
  match cat_cache c with Some cc => (Ok tt, with_cache (Some (f cc)) c) | None => (Err ErrCatPanic, c) end.

(** [!c.started || c.cache == nil] *)
Definition running : cm cache := fun c =>
  match cat_cache c with
  | Some cc => if started c then (Ok cc, c) else (Err ErrCatalogNotStarted, c)
  | None => (Err ErrCatalogNotStarted, c)
  end.

(** [defer] of a function that only changes the cache, if there is one. *)
Definition deferred {A} (op : cm A) (f : cache -> cache) : cm A := fun c =>
  let '(r, c') := op c in (r, with_cache (f <$> cat_cache c') c').

Definition reserveTx : cm Z := fun c => let tx := incr (nextTxID c) in (Ok tx, with_tx tx c).

(** An engine is its name and its [ValidateSchema]; [None] is nil. *)
Definition RegisterEngine (e : option (list byte * (list byte -> bool))) : cm unit :=
  match e with
  | None | Some ([], _) => fail ErrInvalidEngine
  | Some (name, validate) =>
      busy <- gets (fun c => started c || starting c) ;;
      if busy : bool then fail ErrCatalogAlreadyStarted
      else
        known <- gets (fun c => engines c !! name) ;;
        match known with
        | Some _ => fail ErrDuplicateEngine
        | None => modify (fun c => with_engines (<[name := validate]> (engines c)) c)
        end
  end.

(** * Start and Stop *)

Definition maxTx : Z := 2 ^ 64 - 1.

(** [c.h.OpenTable] of each schema. *)
Definition open_tables : cm unit :=
  for_each [schemaTables; schemaUsers; schemaMeta; schemaRoles; schemaGrants; schemaUserRoles; schemaSchemaHistory; schemaAuditLog]
    (fun T => on_heap (checked (OpenTable T) ;;; ret tt)).

Definition bootstrap : cm unit := fun c =>
  match h c with
  | None => (Ok tt, c)
  | Some _ =>
      (open_tables ;;;
       (fun c => match on_heap (Get schemaMeta maxTx [AString MetaKeyNextTxID]) c with
                 | (Ok _, c') => (Ok tt, c')
                 | (Err (ErrHeap (HeapErr ErrRowNotFound)), c') =>
                     on_heap (Insert schemaMeta 1 [AString MetaKeyNextTxID; AUint64 1]) c'
                 | (Err e, c') => (Err e, c')
                 end)) c
  end.

(** [if id >= next { next = id + 1 }] *)
Definition above (id next : Z) : Z := if next <=? id then incr id else next.

(** What the loops of [loadCache] do with a row; [None] is a panic. *)
Definition load_table (cc : cache) (vals : list GoAny) : option cache :=
  match vals with
  | AUint64 id :: AString engine :: AString name :: ABytes payload :: AUint64 version :: _ =>
      Some (on_nextTableID (above id) (on_tables <[name := mkTableInfo id engine name payload version]> cc))
  | _ => None
  end.
Definition load_user (cc : cache) (vals : list GoAny) : option cache :=
  match vals with
  | AUint64 id :: AString name :: ABytes hash :: AUint64 admin :: _ =>
      let ui := mkUserInfo id name hash (admin =? 1) in
      Some (on_nextUserID (above id) (on_usersByID <[id := ui]> (on_users <[name := ui]> cc)))
  | _ => None
  end.
Definition load_role (cc : cache) (vals : list GoAny) : option cache :=
  match vals with
  | AUint64 id :: AString name :: _ =>
      let ri := mkRoleInfo id name in
      Some (on_nextRoleID (above id) (on_rolesByID <[id := ri]> (on_roles <[name := ri]> cc)))
  | _ => None
  end.

(** [m[k] = append(m[k], x)] *)
Definition append_to {A} (k : Z) (x : A) (m : gmap Z (list A)) : gmap Z (list A) := <[k := default [] (m !! k) ++ [x]]> m.

Definition load_grant (cc : cache) (vals : list GoAny) : option cache :=
  match vals with
  | AUint64 id :: AUint64 role :: AUint64 table :: AString action :: _ =>
      let gi := mkGrantInfo id role table action in
      Some (on_nextGrantID (above id) (on_grantsByKey <[(role, table, action) := gi]> (on_grants (append_to role gi) cc)))
  | _ => None
  end.
Definition load_user_role (cc : cache) (vals : list GoAny) : option cache :=
  match vals with
  | AUint64 id :: AUint64 user :: AUint64 role :: _ =>
      Some (on_nextUserRoleID (above id) (on_userRoleAssignments <[(user, role) := id]> (on_userRoles (append_to user role) cc)))
  | _ => None
  end.
Definition load_history (cc : cache) (vals : list GoAny) : option cache :=
  match vals with AUint64 id :: _ => Some (on_nextHistoryID (above id) cc) | _ => None end.
Definition load_audit (cc : cache) (vals : list GoAny) : option cache :=
  match vals with AUint64 id :: _ => Some (on_nextAuditLogID (above id) cc) | _ => None end.

(** What the loop over an iterator sees. *)
Definition scanned_rows (r : enterpriseRows) : list (list GoAny) := omap id (drain (length (rows r)) r).

Fixpoint load_rows (f : cache -> list GoAny -> option cache) (cc : cache) (l : list (list GoAny)) : option cache :=
  match l with [] => Some cc | vals :: l' => cc' ← f cc vals; load_rows f cc' l' end.

Definition load_from (T : Schema) (f : cache -> list GoAny -> option cache) (cc : cache) : cm cache :=
  r <- on_heap (Scan T maxTx) ;;
  match load_rows f cc (scanned_rows r) with Some cc' => ret cc' | None => fail ErrCatPanic end.

(** The loops, over the tables in their order. *)
Definition load_all (cc : cache) : cm cache :=
  cc <- load_from schemaTables load_table cc ;;
  cc <- load_from schemaUsers load_user cc ;;
  cc <- load_from schemaRoles load_role cc ;;
  cc <- load_from schemaGrants load_grant cc ;;
  cc <- load_from schemaUserRoles load_user_role cc ;;
  cc <- load_from schemaSchemaHistory load_history cc ;;
  load_from schemaAuditLog load_audit cc.

Definition loadCache : cm cache := fun c =>
  match h c with
  | None => (Ok newCache, c)
  | Some _ =>
      match on_heap (Get schemaMeta maxTx [AString MetaKeyNextTxID]) c with
      | (Ok (_ :: AUint64 tx :: _), c') => load_all newCache (with_tx tx c')
      | (Ok _, c') => (Err ErrCatPanic, c')
      | (Err (ErrHeap (HeapErr ErrRowNotFound)), c') => load_all newCache c'
      | (Err e, c') => (Err e, c')
      end
  end.

Definition Start : cm unit :=
  up <- gets started ;;
  if up : bool then ret tt
  else
    busy <- gets starting ;;
    if busy : bool then fail ErrCatalogAlreadyStarted
    else
      modify (fun c => with_run (started c) true (cat_cache c) c) ;;;
      cc <- cleanup (bootstrap ;;; loadCache) (modify (fun c => with_run (started c) false (cat_cache c) c)) ;;
      modify (with_run true false (Some cc)).

Definition Stop : cm unit := fun c =>
  if negb (started c) then (Ok tt, c)
  else if match cat_cache c with
          | Some cc => negb (bool_decide (pendingTables cc = ∅)) || negb (bool_decide (pendingUsers cc = ∅))
          | None => false
          end
  then (Err ErrConflict, c) else (Ok tt, with_run false false None c).

(** * Parts of the operations *)

Definition systemUserID : Z := 0.

Definition update_meta (txID : Z) : cm unit :=
  on_heap (Update schemaMeta txID [AString MetaKeyNextTxID] [AString MetaKeyNextTxID; AUint64 txID]).

(** [uint64(time.Now().Unix())] *)
Definition now : cm Z := gets (fun c => wrap64 (clock c)).

Definition auditLog (txID : Z) (action targetType targetName : list byte) : cm unit :=
  ts <- now ;;
  id <- from_cache nextAuditLogID ;;
  on_heap (Insert schemaAuditLog txID
    [AUint64 id; AUint64 txID; AUint64 systemUserID; AString action; AString targetType; AString targetName; AUint64 ts]).

Definition insert_history (txID tableID version : Z) (action payload : list byte) : cm unit :=
  ts <- now ;;
  id <- from_cache nextHistoryID ;;
  on_heap (Insert schemaSchemaHistory txID
    [AUint64 id; AUint64 tableID; AUint64 version; AString action; ABytes payload; AUint64 ts]).

Definition genBcryptHash (password : list byte) : cm (list byte) := fun c =>
  match GenerateFromPassword (entropy c) password with
  | Some hash => (Ok hash, with_entropy (entropy c + 1) c)
  | None => (Err ErrBcrypt, with_entropy (entropy c + 1) c)
  end.

Definition pend_table (name : list byte) : cm unit := on_cache (on_pendingTables (fun p => {[name]} ∪ p)).
Definition unpend_table (name : list byte) : cache -> cache := on_pendingTables (fun p => p ∖ {[name]}).
Definition pend_user (name : list byte) : cm unit := on_cache (on_pendingUsers (fun p => {[name]} ∪ p)).
Definition unpend_user (name : list byte) : cache -> cache := on_pendingUsers (fun p => p ∖ {[name]}).

Definition bump_version : cm unit := modify (fun c => with_version (incr (schemaVersion c)) c).

(** The rows of a new table and its place in the cache. *)
Definition store_table (txID tableID : Z) (engineName tableName payload : list byte) (count : cache -> cache) : cm unit :=
  update_meta txID ;;;
  on_heap (Insert schemaTables txID [AUint64 tableID; AString engineName; AString tableName; ABytes payload; AUint64 1]) ;;;
  insert_history txID tableID 1 (go_string "CREATE") payload ;;;
  auditLog txID (go_string "CREATE_TABLE") (go_string "table") tableName ;;;
  on_cache (fun cc =>
    on_nextAuditLogID incr (on_nextHistoryID incr (count
      (on_tables <[tableName := mkTableInfo tableID engineName tableName payload 1]> cc)))) ;;;
  bump_version.

(** * Tables *)

Definition CreateTable (engineName tableName schemaJSON : list byte) : cm unit :=
  if bool_decide (engineName = []) || bool_decide (tableName = []) then fail ErrEmptyName
  else
    up <- gets started ;;
    if negb up then fail ErrCatalogNotStarted
    else
      eng <- gets (fun c => engines c !! engineName) ;;
      match eng with
      | None => fail ErrEngineNotFound
      | Some validate =>
          if negb (validate schemaJSON) then fail ErrInvalidSchema
          else
            cc <- running ;;
            if bool_decide (is_Some (tables cc !! tableName)) then fail ErrDuplicateTable
            else if bool_decide (tableName ∈ pendingTables cc) then fail ErrConflict
            else
              txID <- reserveTx ;;
              pend_table tableName ;;;
              deferred (store_table txID (nextTableID cc) engineName tableName schemaJSON (on_nextTableID incr)) (unpend_table tableName)
      end.

Definition RegisterTable (tableID : Z) (engineName tableName schemaPayload : list byte) : cm unit :=
  if bool_decide (engineName = []) || bool_decide (tableName = []) then fail ErrEmptyName
  else
    cc <- running ;;
    if bool_decide (is_Some (tables cc !! tableName)) then fail ErrDuplicateTable
    else if bool_decide (tableName ∈ pendingTables cc) then fail ErrConflict
    else
      txID <- reserveTx ;;
      pend_table tableName ;;;
      deferred (store_table txID tableID engineName tableName schemaPayload id) (unpend_table tableName).

Definition AllocateTableID : cm Z :=
  cc <- running ;;
  on_cache (on_nextTableID incr) ;;;
  ret (nextTableID cc).

Definition DropTable (tableName : list byte) : cm unit :=
  if bool_decide (tableName = []) then fail ErrEmptyName
  else
    cc <- running ;;
    match tables cc !! tableName with
    | None => fail ErrTableNotFound
    | Some ti =>
        if bool_decide (tableName ∈ pendingTables cc) then fail ErrConflict
        else
          txID <- reserveTx ;;
          pend_table tableName ;;;
          deferred
            (update_meta txID ;;;
             on_heap (Delete schemaTables txID [AUint64 (ti_TableID ti)]) ;;;
             insert_history txID (ti_TableID ti) (incr (SchemaVersion ti)) (go_string "DROP") (SchemaPayload ti) ;;;
             auditLog txID (go_string "DROP_TABLE") (go_string "table") tableName ;;;
             on_cache (fun cc => on_nextAuditLogID incr (on_nextHistoryID incr (on_tables (delete tableName) cc))) ;;;
             bump_version) (unpend_table tableName)
    end.

Definition GetTable (tableName : list byte) : cm TableInfo :=
  cc <- running ;;
  match tables cc !! tableName with Some ti => ret ti | None => fail ErrTableNotFound end.

Definition history_entry (vals : list GoAny) : option SchemaHistoryEntry :=
  match vals with
  | AUint64 id :: AUint64 table :: AUint64 version :: AString action :: ABytes payload :: AUint64 ts :: _ =>
      Some (mkHistory id table version action payload ts)
  | _ => None
  end.

(** A row of another type than its column is a panic. *)
Definition GetSchemaHistory (tableName : list byte) : cm (list SchemaHistoryEntry) :=
  ts <- from_cache tables ;;
  match ts !! tableName with
  | None => fail ErrTableNotFound
  | Some ti =>
      r <- on_heap (Scan schemaSchemaHistory maxTx) ;;
      match mapM history_entry (scanned_rows r) with
      | Some entries => ret (List.filter (fun e => he_TableID e =? ti_TableID ti) entries)
      | None => fail ErrCatPanic
      end
  end.

Definition cat_schemaVersion c : Z := schemaVersion c.

(** * Users *)

Definition user_row (ui : UserInfo) : list GoAny :=
  [AUint64 (ui_UserID ui); AString (Username ui); ABytes (PasswordHash ui); AUint64 (boolToUint64 (IsAdmin ui))].

Definition cache_user (ui : UserInfo) (cc : cache) : cache :=
  on_usersByID <[ui_UserID ui := ui]> (on_users <[Username ui := ui]> cc).

Definition CreateUser (username password : list byte) (isAdmin : bool) : cm unit :=
  if bool_decide (username = []) then fail ErrEmptyName
  else
    cc <- running ;;
    if bool_decide (is_Some (users cc !! username)) then fail ErrDuplicateUser
    else if bool_decide (username ∈ pendingUsers cc) then fail ErrConflict
    else
      txID <- reserveTx ;;
      pend_user username ;;;
      deferred
        (hash <- genBcryptHash password ;;
         update_meta txID ;;;
         userID <- from_cache nextUserID ;;
         let ui := mkUserInfo userID username hash isAdmin in
         on_heap (Insert schemaUsers txID (user_row ui)) ;;;
         auditLog txID (go_string "CREATE_USER") (go_string "user") username ;;;
         on_cache (fun cc => on_nextAuditLogID incr (on_nextUserID incr (cache_user ui cc)))) (unpend_user username).

Definition migrateLegacyPassword (ui : UserInfo) (password : list byte) : cm unit :=
  cc <- running ;;
  if bool_decide (Username ui ∈ pendingUsers cc) then fail ErrConflict
  else
    txID <- reserveTx ;;
    pend_user (Username ui) ;;;
    deferred
      (hash <- genBcryptHash password ;;
       update_meta txID ;;;
       let ui' := mkUserInfo (ui_UserID ui) (Username ui) hash (IsAdmin ui) in
       on_heap (Update schemaUsers txID [AUint64 (ui_UserID ui)] (user_row ui')) ;;;
       on_cache (cache_user ui')) (unpend_user (Username ui)).

Definition Authenticate (username password : list byte) : cm UserInfo :=
  cc <- running ;;
  match users cc !! username with
  | None => fail ErrAuthFailed
  | Some ui =>
      if negb (verifyPassword (PasswordHash ui) password) then fail ErrAuthFailed
      else
        (if isLegacyHash (PasswordHash ui) then fun c => (Ok tt, snd (migrateLegacyPassword ui password c)) else ret tt) ;;;
        ret ui
  end.

(** * Roles *)

(** [CreateRole] under its first lock, without a lock, and under its second lock. *)
Definition CreateRole_begin (roleName : list byte) : cm Z :=
  if bool_decide (roleName = []) then fail ErrEmptyName
  else
    cc <- running ;;
    if bool_decide (is_Some (roles cc !! roleName)) then fail ErrDuplicateRole else reserveTx.

Definition CreateRole_store (txID : Z) (roleName : list byte) : cm Z :=
  update_meta txID ;;;
  roleID <- from_cache nextRoleID ;;
  on_heap (Insert schemaRoles txID [AUint64 roleID; AString roleName]) ;;;
  auditLog txID (go_string "CREATE_ROLE") (go_string "role") roleName ;;;
  ret roleID.

Definition CreateRole_commit (roleID : Z) (roleName : list byte) : cm unit :=
  let ri := mkRoleInfo roleID roleName in
  on_cache (fun cc => on_nextAuditLogID incr (on_nextRoleID incr (on_rolesByID <[roleID := ri]> (on_roles <[roleName := ri]> cc)))).

Definition CreateRole (roleName : list byte) : cm unit :=
  txID <- CreateRole_begin roleName ;;
  roleID <- CreateRole_store txID roleName ;;
  CreateRole_commit roleID roleName.

(** The errors of the deletions are dropped. *)
Definition drop_rows (T : Schema) (txID : Z) (ids : list Z) : cm unit :=
  for_each ids (fun id c => (Ok tt, snd (on_heap (Delete T txID [AUint64 id]) c))).

Definition uncache_role (ri : RoleInfo) (roleName : list byte) (cc : cache) : cache :=
  let rid := ri_RoleID ri in
  on_userRoles (fmap (List.filter (fun r => negb (r =? rid))))
    (on_userRoleAssignments (filter (fun kv => kv.1.2 <> rid))
      (on_grantsByKey (filter (fun kv => kv.1.1.1 <> rid))
        (on_grants (delete rid) (on_rolesByID (delete rid) (on_roles (delete roleName) cc))))).

Definition DropRole (roleName : list byte) : cm unit :=
  if bool_decide (roleName = []) then fail ErrEmptyName
  else
    cc <- running ;;
    match roles cc !! roleName with
    | None => fail ErrRoleNotFound
    | Some ri =>
        txID <- reserveTx ;;
        update_meta txID ;;;
        drop_rows schemaGrants txID (map GrantID (default [] (grants cc !! ri_RoleID ri))) ;;;
        drop_rows schemaUserRoles txID
          (map snd (List.filter (fun kv => kv.1.2 =? ri_RoleID ri) (map_order (map_to_list (userRoleAssignments cc))))) ;;;
        on_heap (Delete schemaRoles txID [AUint64 (ri_RoleID ri)]) ;;;
        auditLog txID (go_string "DROP_ROLE") (go_string "role") roleName ;;;
        on_cache (fun cc => on_nextAuditLogID incr (uncache_role ri roleName cc))
    end.

(** [username+":"+roleName] *)
Definition colon_join (a b : list byte) : list byte := a ++ go_string ":" ++ b.

(** The user and the role; the same error for both. *)
Definition find_user_role (cc : cache) (username roleName : list byte) : option (UserInfo * RoleInfo) :=
  match users cc !! username, roles cc !! roleName with Some ui, Some ri => Some (ui, ri) | _, _ => None end.

Definition AssignRole (username roleName : list byte) : cm unit :=
  if bool_decide (username = []) || bool_decide (roleName = []) then fail ErrEmptyName
  else
    cc <- running ;;
    match find_user_role cc username roleName with
    | None => fail ErrRoleNotFound
    | Some (ui, ri) =>
        if bool_decide (is_Some (userRoleAssignments cc !! (ui_UserID ui, ri_RoleID ri))) then fail ErrDuplicateRoleAssignment
        else
          txID <- reserveTx ;;
          update_meta txID ;;;
          urID <- from_cache nextUserRoleID ;;
          on_heap (Insert schemaUserRoles txID [AUint64 urID; AUint64 (ui_UserID ui); AUint64 (ri_RoleID ri)]) ;;;
          auditLog txID (go_string "ASSIGN_ROLE") (go_string "user_role") (colon_join username roleName) ;;;
          on_cache (fun cc =>
            on_nextAuditLogID incr (on_nextUserRoleID incr
              (on_userRoleAssignments <[(ui_UserID ui, ri_RoleID ri) := urID]>
                (on_userRoles (append_to (ui_UserID ui) (ri_RoleID ri)) cc))))
    end.

Definition RevokeRole (username roleName : list byte) : cm unit :=
  if bool_decide (username = []) || bool_decide (roleName = []) then fail ErrEmptyName
  else
    cc <- running ;;
    match find_user_role cc username roleName with
    | None => fail ErrRoleNotFound
    | Some (ui, ri) =>
        match userRoleAssignments cc !! (ui_UserID ui, ri_RoleID ri) with
        | None => fail ErrRoleNotFound
        | Some urID =>
            txID <- reserveTx ;;
            update_meta txID ;;;
            on_heap (Delete schemaUserRoles txID [AUint64 urID]) ;;;
            auditLog txID (go_string "REVOKE_ROLE") (go_string "user_role") (colon_join username roleName) ;;;
            on_cache (fun cc =>
              on_nextAuditLogID incr
                (on_userRoles (fun m => <[ui_UserID ui := List.filter (fun r => negb (r =? ri_RoleID ri)) (default [] (m !! ui_UserID ui))]> m)
                  (on_userRoleAssignments (delete (ui_UserID ui, ri_RoleID ri)) cc)))
        end
    end.

(** * Grants *)

(** The table a grant is for; no name is every table. *)
Definition grant_table (cc : cache) (tableName : list byte) : option Z :=
  match tableName with [] => Some 0 | _ => ti_TableID <$> tables cc !! tableName end.

Definition Grant (roleName tableName : list byte) (action : Action) : cm unit :=
  if bool_decide (roleName = []) then fail ErrEmptyName
  else if negb (isValidAction action) then fail ErrInvalidAction
  else
    cc <- running ;;
    match roles cc !! roleName with
    | None => fail ErrRoleNotFound
    | Some ri =>
        match grant_table cc tableName with
        | None => fail ErrTableNotFound
        | Some tableID =>
            if bool_decide (is_Some (grantsByKey cc !! (ri_RoleID ri, tableID, action))) then fail ErrDuplicateGrant
            else
              txID <- reserveTx ;;
              update_meta txID ;;;
              grantID <- from_cache nextGrantID ;;
              on_heap (Insert schemaGrants txID [AUint64 grantID; AUint64 (ri_RoleID ri); AUint64 tableID; AString action]) ;;;
              auditLog txID (go_string "GRANT") (go_string "grant") (colon_join roleName (colon_join tableName action)) ;;;
              let gi := mkGrantInfo grantID (ri_RoleID ri) tableID action in
              on_cache (fun cc =>
                on_nextAuditLogID incr (on_nextGrantID incr
                  (on_grantsByKey <[(ri_RoleID ri, tableID, action) := gi]> (on_grants (append_to (ri_RoleID ri) gi) cc))))
        end
    end.

Definition Revoke (roleName tableName : list byte) (action : Action) : cm unit :=
  if bool_decide (roleName = []) then fail ErrEmptyName
  else if negb (isValidAction action) then fail ErrInvalidAction
  else
    cc <- running ;;
    match roles cc !! roleName with
    | None => fail ErrRoleNotFound
    | Some ri =>
        match grant_table cc tableName with
        | None => fail ErrTableNotFound
        | Some tableID =>
            match grantsByKey cc !! (ri_RoleID ri, tableID, action) with
            | None => fail ErrGrantNotFound
            | Some gi =>
                txID <- reserveTx ;;
                update_meta txID ;;;
                on_heap (Delete schemaGrants txID [AUint64 (GrantID gi)]) ;;;
                auditLog txID (go_string "REVOKE") (go_string "grant") (colon_join roleName (colon_join tableName action)) ;;;
                on_cache (fun cc =>
                  on_nextAuditLogID incr
                    (on_grants (fun m => <[ri_RoleID ri := List.filter (fun g => negb (GrantID g =? GrantID gi)) (default [] (m !! ri_RoleID ri))]> m)
                      (on_grantsByKey (delete (ri_RoleID ri, tableID, action)) cc)))
            end
        end
    end.

(** * Permissions *)

Definition grants_action (tableID : Z) (action : Action) (gi : GrantInfo) : bool :=
  ((gi_TableID gi =? 0) || (gi_TableID gi =? tableID)) && bool_decide (gi_Action gi = action).

Definition permitted (cc : cache) (userID tableID : Z) (action : Action) : bool :=
  match usersByID cc !! userID with
  | None => false
  | Some u =>
      IsAdmin u ||
      existsb (fun roleID => bool_decide (is_Some (rolesByID cc !! roleID)) && existsb (grants_action tableID action) (default [] (grants cc !! roleID)))
        (default [] (userRoles cc !! userID))
  end.

Definition CheckPermission (userID tableID : Z) (action : Action) : cm bool :=
  if negb (isValidAction action) then fail ErrInvalidAction
  else cc <- running ;; ret (permitted cc userID tableID action).

Definition CheckGlobalPermission (userID : Z) (action : Action) : cm bool := CheckPermission userID 0 action.
End catalog.
