(* ===== verification/CatalogProof.v ===== *)
(** The catalog as an access-control policy.

    [policy] is what the catalog promises: tables, users, roles, who is in which role and
    what a role may do, all by name.  [cache_inv] ties the maps of the cache to it, and
    every operation of the catalog refines [policy_step], whatever the store answers. *)

From Stdlib Require Import ZArith Lia Sorted.
From Stdlib Require Strings.String.
From stdpp Require Import gmap sets.
From S2P Require Import Prelude OrdMap Key RowKey KvNode Monad KvSpec GoRuntime HeapValue Heap HeapRows HeapProof HeapScan GoFmt Catalog.
Import String.StringSyntax.
Open Scope Z_scope.
Open Scope st_scope.

Notation name := (list byte).

(** * The policy *)

Record policy := mkPolicy {
  p_tables : gmap name TableInfo; p_nextTable : Z; p_users : gmap name bool; p_roles : gset name;
  p_members : gset (name * name); p_grants : gset (name * Z * Action) }.

(** Whether a user may: administrators may all, others what a role of theirs may on the
    table or on every table. *)
Definition allowed (p : policy) (u : name) (tableID : Z) (a : Action) : Prop :=
  p_users p !! u = Some true \/
  exists r, (u, r) ∈ p_members p /\ ((r, 0, a) ∈ p_grants p \/ (r, tableID, a) ∈ p_grants p).

Inductive admin_request :=
| RCreateTable (engineName tableName schemaJSON : name)
| RRegisterTable (tableID : Z) (engineName tableName schemaPayload : name)
| RAllocateTableID
| RDropTable (tableName : name)
| RCreateUser (username password : name) (isAdmin : bool)
| RCreateRole (roleName : name)
| RDropRole (roleName : name)
| RAssignRole (username roleName : name)
| RRevokeRole (username roleName : name)
| RGrant (roleName tableName : name) (a : Action)
| RRevoke (roleName tableName : name) (a : Action).

Section policy.
Context {E : Type} (engs : gmap name (name -> bool)).
Implicit Types (p : policy).

Definition p_grant_table p (t : name) : option Z := match t with [] => Some 0 | _ => ti_TableID <$> p_tables p !! t end.

Definition add_table (id : Z) (engine t payload : name) (next : Z) p : policy :=
  mkPolicy (<[t := mkTableInfo id engine t payload 1]> (p_tables p)) next (p_users p) (p_roles p) (p_members p) (p_grants p).
Definition drop_role (r : name) p : policy :=
  mkPolicy (p_tables p) (p_nextTable p) (p_users p) (p_roles p ∖ {[r]})
    (filter (fun ur => ur.2 <> r) (p_members p)) (filter (fun g => g.1.1 <> r) (p_grants p)).
Definition on_members f p : policy := mkPolicy (p_tables p) (p_nextTable p) (p_users p) (p_roles p) (f (p_members p)) (p_grants p).
Definition on_rules f p : policy := mkPolicy (p_tables p) (p_nextTable p) (p_users p) (p_roles p) (p_members p) (f (p_grants p)).

Definition unless (b : bool) (e : cat_err E) (r : res (cat_err E) policy) : res (cat_err E) policy := if b then Err e else r.

(** The condition under which a request is refused, with the error, or the new policy. *)
Definition policy_step (q : admin_request) p : res (cat_err E) policy :=
  match q with
  | RCreateTable engine t schema =>
      unless (bool_decide (engine = []) || bool_decide (t = [])) ErrEmptyName
        match engs !! engine with
        | None => Err ErrEngineNotFound
        | Some validate =>
            unless (negb (validate schema)) ErrInvalidSchema
              (unless (bool_decide (is_Some (p_tables p !! t))) ErrDuplicateTable
                (Ok (add_table (p_nextTable p) engine t schema (incr (p_nextTable p)) p)))
        end
  | RRegisterTable id engine t schema =>
      unless (bool_decide (engine = []) || bool_decide (t = [])) ErrEmptyName
        (unless (bool_decide (is_Some (p_tables p !! t))) ErrDuplicateTable
          (Ok (add_table id engine t schema (p_nextTable p) p)))
  | RAllocateTableID =>
      Ok (mkPolicy (p_tables p) (incr (p_nextTable p)) (p_users p) (p_roles p) (p_members p) (p_grants p))
  | RDropTable t =>
      unless (bool_decide (t = [])) ErrEmptyName
        (unless (bool_decide (p_tables p !! t = None)) ErrTableNotFound
          (Ok (mkPolicy (delete t (p_tables p)) (p_nextTable p) (p_users p) (p_roles p) (p_members p) (p_grants p))))
  | RCreateUser u _ admin =>
      unless (bool_decide (u = [])) ErrEmptyName
        (unless (bool_decide (is_Some (p_users p !! u))) ErrDuplicateUser
          (Ok (mkPolicy (p_tables p) (p_nextTable p) (<[u := admin]> (p_users p)) (p_roles p) (p_members p) (p_grants p))))
  | RCreateRole r =>
      unless (bool_decide (r = [])) ErrEmptyName
        (unless (bool_decide (r ∈ p_roles p)) ErrDuplicateRole
          (Ok (mkPolicy (p_tables p) (p_nextTable p) (p_users p) ({[r]} ∪ p_roles p) (p_members p) (p_grants p))))
  | RDropRole r =>
      unless (bool_decide (r = [])) ErrEmptyName
        (unless (bool_decide (r ∉ p_roles p)) ErrRoleNotFound (Ok (drop_role r p)))
  | RAssignRole u r =>
      unless (bool_decide (u = []) || bool_decide (r = [])) ErrEmptyName
        (unless (bool_decide (p_users p !! u = None) || bool_decide (r ∉ p_roles p)) ErrRoleNotFound
          (unless (bool_decide ((u, r) ∈ p_members p)) ErrDuplicateRoleAssignment
            (Ok (on_members (fun s => {[(u, r)]} ∪ s) p))))
  | RRevokeRole u r =>
      unless (bool_decide (u = []) || bool_decide (r = [])) ErrEmptyName
        (unless (bool_decide ((u, r) ∉ p_members p)) ErrRoleNotFound
          (Ok (on_members (fun s => s ∖ {[(u, r)]}) p)))
  | RGrant r t a =>
      unless (bool_decide (r = [])) ErrEmptyName
        (unless (negb (isValidAction a)) ErrInvalidAction
          (unless (bool_decide (r ∉ p_roles p)) ErrRoleNotFound
            match p_grant_table p t with
            | None => Err ErrTableNotFound
            | Some id =>
                unless (bool_decide ((r, id, a) ∈ p_grants p)) ErrDuplicateGrant
                  (Ok (on_rules (fun s => {[(r, id, a)]} ∪ s) p))
            end))
  | RRevoke r t a =>
      unless (bool_decide (r = [])) ErrEmptyName
        (unless (negb (isValidAction a)) ErrInvalidAction
          (unless (bool_decide (r ∉ p_roles p)) ErrRoleNotFound
            match p_grant_table p t with
            | None => Err ErrTableNotFound
            | Some id =>
                unless (bool_decide ((r, id, a) ∉ p_grants p)) ErrGrantNotFound
                  (Ok (on_rules (fun s => s ∖ {[(r, id, a)]}) p))
            end))
  end.
End policy.

(** * The cache *)

(** Entries by name and by id, with the ids below the next one. *)
Definition named {A} (nm : A -> name) (idOf : A -> Z) (next : Z) (byName : gmap name A) (byID : gmap Z A) : Prop :=
  (forall n x, byName !! n = Some x -> nm x = n /\ idOf x < next) /\
  (forall i x, byID !! i = Some x <-> byName !! nm x = Some x /\ idOf x = i).

Record cache_inv (cc : cache) (p : policy) : Prop := {
  ci_tables : tables cc = p_tables p;
  ci_nextTable : nextTableID cc = p_nextTable p;
  ci_pending : pendingTables cc = ∅ /\ pendingUsers cc = ∅;
  ci_users : named Username ui_UserID (nextUserID cc) (users cc) (usersByID cc);
  ci_policy_users : p_users p = IsAdmin <$> users cc;
  ci_roles : named RoleName ri_RoleID (nextRoleID cc) (roles cc) (rolesByID cc);
  ci_policy_roles : p_roles p = dom (roles cc);
  (** Every assignment has its user and its role. *)
  ci_assigned i j : is_Some (userRoleAssignments cc !! (i, j)) -> is_Some (usersByID cc !! i) /\ is_Some (rolesByID cc !! j);
  ci_members u r : (u, r) ∈ p_members p <->
    exists ui ri, users cc !! u = Some ui /\ roles cc !! r = Some ri /\
      is_Some (userRoleAssignments cc !! (ui_UserID ui, ri_RoleID ri));
  ci_userRoles i j : j ∈ default [] (userRoles cc !! i) <-> is_Some (userRoleAssignments cc !! (i, j));
  (** Every grant has its role, and its own id. *)
  ci_granted j t a gi : grantsByKey cc !! (j, t, a) = Some gi ->
    is_Some (rolesByID cc !! j) /\ gi = mkGrantInfo (GrantID gi) j t a /\ GrantID gi < nextGrantID cc;
  ci_grant_ids k k' gi gi' : grantsByKey cc !! k = Some gi -> grantsByKey cc !! k' = Some gi' ->
    GrantID gi = GrantID gi' -> k = k';
  ci_rules r t a : (r, t, a) ∈ p_grants p <->
    exists ri, roles cc !! r = Some ri /\ is_Some (grantsByKey cc !! (ri_RoleID ri, t, a));
  ci_grants j gi : gi ∈ default [] (grants cc !! j) <-> grantsByKey cc !! (j, gi_TableID gi, gi_Action gi) = Some gi }.

Definition no_policy : policy := mkPolicy ∅ 1 ∅ ∅ ∅ ∅.

Lemma cache_inv_new : cache_inv newCache no_policy.
Proof.
  constructor; cbn; try done; try (intros; split; [set_solver|naive_solver]); try (by intros ? ? [? ?]).
  all: intros; rewrite ?lookup_empty in *; cbn in *; try done; try (split; [set_solver|naive_solver]).
Qed.

(** The counters have not reached their end. *)
Definition room (cc : cache) : Prop :=
  0 <= nextUserID cc < 2 ^ 64 - 1 /\ 0 <= nextRoleID cc < 2 ^ 64 - 1 /\ 0 <= nextGrantID cc < 2 ^ 64 - 1.

(** * The operations *)

Section refinement.
Context {S E : Type} `{KvOps S E} `{GoRuntime} `{Passwords} (engs : gmap name (name -> bool)).
Implicit Types (c : catalog S) (cc : cache) (p : policy).

(** A started catalog with its heap, and its cache. *)
Definition live c cc : Prop :=
  is_Some (h c) /\ started c = true /\ starting c = false /\ engines c = engs /\ cat_cache c = Some cc.

(** The failures of what is below the catalog. *)
Definition store_failure (e : cat_err E) : Prop := e = ErrBcrypt \/ exists he, e = ErrHeap he.

(** [does cc op G Q]: [op] fails with an error of [G], and then the cache is as before, or
    it succeeds and [Q] holds. *)
Definition does {A} cc (op : cm A) (G : cat_err E -> Prop) (Q : A -> cache -> Prop) : Prop :=
  forall c, live c cc ->
    match op c with
    | (Ok a, c') => exists cc', live c' cc' /\ Q a cc'
    | (Err e, c') => live c' cc /\ G e
    end.

(** An operation that only uses the store. *)
Definition stores {A} (op : cm A) : Prop :=
  forall c cc, live c cc -> live (snd (op c)) cc /\ match op c with (Err e, _) => store_failure e | _ => True end.

Lemma does_store {A B} cc (op : cm A) (k : A -> cm B) G Q :
  stores op -> (forall e, store_failure e -> G e) -> (forall a, does cc (k a) G Q) -> does cc (bind op k) G Q.
Proof.
  intros Hop HG Hk c Hc. specialize (Hop c cc Hc). unfold bind.
  destruct (op c) as [[a|e] c'] eqn:E0; cbn [snd] in Hop; destruct Hop as [Hl He].
  - by apply Hk.
  - split; [done|by apply HG].
Qed.

Lemma does_fail {A} cc (e : cat_err E) G Q : G e -> does cc (fail e : cm A) G Q.
Proof. by intros Hg c Hc. Qed.

Lemma does_running {A} cc (k : cache -> cm A) G Q : does cc (k cc) G Q -> does cc (bind running k) G Q.
Proof.
  intros Hk c Hc. unfold bind, running. pose proof Hc as (_ & Hs & _ & _ & E0). rewrite E0, Hs. by apply Hk.
Qed.

Lemma does_from_cache {A B} cc (f : cache -> A) (k : A -> cm B) G Q :
  does cc (k (f cc)) G Q -> does cc (bind (from_cache f) k) G Q.
Proof. intros Hk c Hc. unfold bind, from_cache. pose proof Hc as (_ & _ & _ & _ & E0). rewrite E0. by apply Hk. Qed.

Lemma does_gets {A B} cc (f : catalog S -> A) (k : A -> cm B) G Q x :
  (forall c, live c cc -> f c = x) -> does cc (k x) G Q -> does cc (bind (gets f) k) G Q.
Proof. intros Hf Hk c Hc. unfold bind, gets. rewrite (Hf c Hc). by apply Hk. Qed.

Lemma does_tx {B} cc (k : Z -> cm B) G Q : (forall t, does cc (k t) G Q) -> does cc (bind reserveTx k) G Q.
Proof. intros Hk c Hc. unfold bind, reserveTx. apply Hk. exact Hc. Qed.

Lemma does_commit cc f G (Q : unit -> cache -> Prop) : Q tt (f cc) -> does cc (on_cache f) G Q.
Proof.
  intros HQ c Hc. unfold on_cache. pose proof Hc as (Hh & Hs & Hg & He & E0). rewrite E0.
  by exists (f cc).
Qed.

Lemma does_commit_bump cc f G (Q : unit -> cache -> Prop) : Q tt (f cc) -> does cc (on_cache f ;;; bump_version) G Q.
Proof.
  intros HQ c Hc. unfold bind, on_cache. pose proof Hc as (Hh & Hs & Hg & He & E0). rewrite E0.
  by exists (f cc).
Qed.

Lemma does_assoc {A B C} cc (op : cm A) (f : A -> cm B) (k : B -> cm C) G Q :
  does cc (bind op (fun a => bind (f a) k)) G Q -> does cc (bind (bind op f) k) G Q.
Proof. intros Hk c Hc. rewrite bind_assoc. by apply Hk. Qed.

Lemma does_refused {A B} cc (e : cat_err E) (k : A -> cm B) G Q : G e -> does cc (bind (fail e) k) G Q.
Proof. by intros Hg c Hc. Qed.

Lemma does_ret {A} cc (a : A) G (Q : A -> cache -> Prop) : Q a cc -> does cc (ret a) G Q.
Proof. intros HQ c Hc. by exists cc. Qed.

Lemma does_deferred {A} cc (op : cm A) pend unpend G Q :
  unpend (pend cc) = cc -> does (pend cc) op G (fun a cc' => Q a (unpend cc')) ->
  does cc (on_cache pend ;;; deferred op unpend) G Q.
Proof.
  intros Hu Hop c Hc. unfold bind, on_cache. pose proof Hc as (Hh & Hs & Hg & He & E0). rewrite E0.
  unfold deferred. specialize (Hop (with_cache (Some (pend cc)) c)).
  destruct (op _) as [[a|e] c'].
  - destruct Hop as (cc' & (? & ? & ? & ? & E1) & HQ); [done|]. exists (unpend cc'). rewrite E1. by repeat split.
  - destruct Hop as [(? & ? & ? & ? & E1) HG]; [done|]. rewrite E1. cbn. rewrite Hu. by repeat split.
Qed.

Lemma does_weaken {A} cc (op : cm A) (G G' : cat_err E -> Prop) (Q Q' : A -> cache -> Prop) :
  (forall e, G e -> G' e) -> (forall a cc', Q a cc' -> Q' a cc') -> does cc op G Q -> does cc op G' Q'.
Proof.
  intros HG HQ Hop c Hc. specialize (Hop c Hc). destruct (op c) as [[a|e] c'].
  - destruct Hop as (cc' & ? & ?). exists cc'. auto.
  - destruct Hop; auto.
Qed.

Lemma stores_heap {A} (op : st S (table_err E) A) : stores (on_heap op).
Proof.
  intros c cc ([s Hh] & Hs & Hg & He & E0). unfold on_heap. rewrite Hh.
  destruct (op s) as [[a|e] s']; cbn; (split; [by repeat split|]); [done|]. right. by eexists.
Qed.

Lemma stores_bind {A B} (op : cm A) (k : A -> cm B) : stores op -> (forall a, stores (k a)) -> stores (bind op k).
Proof.
  intros Hop Hk c cc Hc. specialize (Hop c cc Hc). unfold bind. destruct (op c) as [[a|e] c']; cbn [snd] in Hop;
    destruct Hop as [Hl He].
  - by apply Hk.
  - done.
Qed.

Lemma stores_from_cache {A} (f : cache -> A) : stores (from_cache f).
Proof. intros c cc Hc. unfold from_cache. pose proof Hc as (_ & _ & _ & _ & E0). by rewrite E0. Qed.

Lemma stores_ret {A} (a : A) : stores (ret a).
Proof. by intros c cc Hc. Qed.

Lemma stores_now : stores now.
Proof. by intros c cc Hc. Qed.

Lemma stores_hash pw : stores (genBcryptHash pw).
Proof.
  intros c cc Hc. unfold genBcryptHash. destruct (GenerateFromPassword _ _); cbn; split; try done. by left.
Qed.

Lemma stores_drop_rows T txID ids : stores (drop_rows T txID ids).
Proof.
  induction ids as [|i ids IH]; [apply stores_ret|]. apply (stores_bind (B:=unit)); [|intros _; exact IH].
  intros c cc Hc. destruct (stores_heap (Delete T txID [AUint64 i]) c cc Hc) as [Hl _]. split; [exact Hl|done].
Qed.
End refinement.

Create HintDb catalog.
#[export] Hint Resolve stores_heap stores_bind stores_from_cache stores_ret stores_now stores_hash stores_drop_rows : catalog.

(** Steps over what does not change the cache. *)
Ltac store_step :=
  lazymatch goal with
  | |- stores _ (update_meta _) => apply stores_heap
  | |- stores _ (insert_history _ _ _ _ _) => unfold insert_history; store_step
  | |- stores _ (auditLog _ _ _ _) => unfold auditLog; store_step
  | |- stores _ (bind _ _) => apply stores_bind; [store_step|intros ?; store_step]
  | |- _ => solve [eauto with catalog]
  end.

(** Only what the policy allows can fail with the store. *)
Ltac store_may_fail := intros ? ?; first [exact I | assumption | right; split; [eexists; reflexivity|assumption]].

Ltac does_steps :=
  repeat lazymatch goal with
  | |- does _ _ (bind running _) _ _ => apply does_running
  | |- does _ _ (bind (from_cache _) _) _ _ => apply does_from_cache
  | |- does _ _ (bind reserveTx _) _ _ => apply does_tx; intros ?
  | |- does _ _ (bind (on_cache _) (fun _ => bump_version)) _ _ => apply does_commit_bump
  | |- does _ _ (on_cache _) _ _ => apply does_commit
  | |- does _ _ (fail _) _ _ => apply does_fail
  | |- does _ _ (bind _ _) _ _ => apply does_store; [store_step|store_may_fail|intros ?]
  end.

(** * What the operations do to the cache *)

Lemma incr_room n : 0 <= n < 2 ^ 64 - 1 -> incr n = n + 1.
Proof. intros Hn. unfold incr. apply wrap64_id. unfold u64. lia. Qed.

Section names.
Context {A : Type} (nm : A -> name) (idOf : A -> Z).
Implicit Types (byName : gmap name A) (byID : gmap Z A).

Lemma named_by_id next byName byID n x : named nm idOf next byName byID -> byName !! n = Some x -> byID !! idOf x = Some x.
Proof. intros [Hn Hi] Hx. apply Hi. by destruct (Hn n x Hx) as [-> _]. Qed.

Lemma named_unique next byName byID n n' x x' :
  named nm idOf next byName byID -> byName !! n = Some x -> byName !! n' = Some x' -> idOf x = idOf x' -> n = n'.
Proof.
  intros Hn Hx Hx' Hid. pose proof (named_by_id _ _ _ _ _ Hn Hx) as H1. pose proof (named_by_id _ _ _ _ _ Hn Hx') as H2.
  rewrite Hid, H2 in H1. injection H1 as ->. destruct Hn as [Hn _].
  destruct (Hn _ _ Hx) as [<- _]. by destruct (Hn _ _ Hx') as [<- _].
Qed.

Lemma named_insert next byName byID x :
  named nm idOf next byName byID -> byName !! nm x = None -> idOf x = next -> 0 <= next < 2 ^ 64 - 1 ->
  named nm idOf (incr next) (<[nm x := x]> byName) (<[idOf x := x]> byID).
Proof.
  intros [Hn Hi] Hnew Hid Hroom. rewrite incr_room by done. split.
  - intros n y. rewrite lookup_insert_Some. intros [[<- <-]|[_ Hy]]; [split; [done|lia]|].
    destruct (Hn n y Hy). split; [done|lia].
  - intros i y. rewrite !lookup_insert_Some. split.
    + intros [[<- <-]|[Hne Hy]]; [by split; [left|]|]. apply Hi in Hy as [Hy <-]. split; [|done]. right.
      split; [congruence|done].
    + intros [[[_ <-]|[Hne Hy]] <-]; [by left|]. right. destruct (Hn _ _ Hy) as [_ Hlt]. split; [lia|]. by apply Hi.
Qed.

Lemma named_delete next byName byID n x :
  named nm idOf next byName byID -> byName !! n = Some x ->
  named nm idOf next (delete n byName) (delete (idOf x) byID).
Proof.
  intros Hnd Hx. pose proof Hnd as [Hn Hi]. split.
  - intros m y. rewrite lookup_delete_Some. intros [_ Hy]. by apply Hn.
  - intros i y. rewrite !lookup_delete_Some. split.
    + intros [Hne Hy]. apply Hi in Hy as [Hy <-]. repeat split; [|done]. intros Heq.
      rewrite <- Heq, Hx in Hy. congruence.
    + intros [[Hne Hy] <-]. split; [|by apply Hi]. intros Heq. apply Hne.
      apply (named_unique next byName byID n (nm y) x y Hnd Hx Hy Heq).
Qed.
End names.

Lemma elem_append_to {A} k k' (x y : A) m :
  y ∈ default [] (append_to k x m !! k') <-> y ∈ default [] (m !! k') \/ (k = k' /\ y = x).
Proof.
  unfold append_to. destruct (decide (k = k')) as [<-|Hne].
  - rewrite lookup_insert_eq. cbn. rewrite elem_of_app, list_elem_of_singleton. naive_solver.
  - rewrite lookup_insert_ne by done. naive_solver.
Qed.

Lemma elem_filter {A} (f : A -> bool) (x : A) l : x ∈ List.filter f l <-> x ∈ l /\ f x = true.
Proof. rewrite !list_elem_of_In. apply filter_In. Qed.

Section steps.
Implicit Types (cc : cache) (p : policy).

Lemma pend_undo_table t cc : pendingTables cc = ∅ -> unpend_table t (on_pendingTables (fun s => {[t]} ∪ s) cc) = cc.
Proof. intros Hp. destruct cc; cbn in *; subst. unfold unpend_table, on_pendingTables; cbn. f_equal. set_solver. Qed.

Lemma pend_undo_user u cc : pendingUsers cc = ∅ -> unpend_user u (on_pendingUsers (fun s => {[u]} ∪ s) cc) = cc.
Proof. intros Hp. destruct cc; cbn in *; subst. unfold unpend_user, on_pendingUsers; cbn. f_equal. set_solver. Qed.

(** The counters of the log tables are outside the policy. *)
Lemma inv_counters cc p f g : cache_inv cc p -> cache_inv (on_nextAuditLogID f (on_nextHistoryID g cc)) p.
Proof. intros []. by constructor. Qed.
Lemma inv_audit cc p f : cache_inv cc p -> cache_inv (on_nextAuditLogID f cc) p.
Proof. intros []. by constructor. Qed.
Lemma inv_next_member cc p f : cache_inv cc p -> cache_inv (on_nextUserRoleID f cc) p.
Proof. intros []. by constructor. Qed.

Lemma inv_add_table cc p id engine t payload f :
  cache_inv cc p ->
  cache_inv (on_nextTableID f (on_tables <[t := mkTableInfo id engine t payload 1]> cc))
    (add_table id engine t payload (f (nextTableID cc)) p).
Proof. intros []. constructor; try done. cbn. by f_equal. Qed.

Lemma inv_drop_table cc p t :
  cache_inv cc p ->
  cache_inv (on_tables (delete t) cc)
    (mkPolicy (delete t (p_tables p)) (p_nextTable p) (p_users p) (p_roles p) (p_members p) (p_grants p)).
Proof. intros []. constructor; try done. cbn. by f_equal. Qed.

Lemma inv_add_user cc p u hash admin :
  cache_inv cc p -> users cc !! u = None -> 0 <= nextUserID cc < 2 ^ 64 - 1 ->
  cache_inv (on_nextUserID incr (cache_user (mkUserInfo (nextUserID cc) u hash admin) cc))
    (mkPolicy (p_tables p) (p_nextTable p) (<[u := admin]> (p_users p)) (p_roles p) (p_members p) (p_grants p)).
Proof.
  intros [] Hnew Hroom. set (ui := mkUserInfo (nextUserID cc) u hash admin).
  pose proof (named_insert Username ui_UserID _ _ _ ui ci_users0 Hnew eq_refl Hroom) as Hu.
  constructor; try done.
  - cbn. by rewrite ci_policy_users0, fmap_insert.
  - intros i j Ha. cbn. destruct (ci_assigned0 i j Ha) as [Hi Hj]. split; [|done].
    destruct (decide (nextUserID cc = i)) as [<-|?]; [by rewrite lookup_insert_eq; eexists|by rewrite lookup_insert_ne].
  - intros u' r. cbn. rewrite ci_members0. split; intros (x & ri & Hx & Hr & Ha); exists x, ri.
    + rewrite lookup_insert_ne by (intros <-; congruence). done.
    + apply lookup_insert_Some in Hx as [[<- <-]|[_ Hx]]; [|done]. exfalso.
      destruct (ci_assigned0 _ _ Ha) as [[y Hy] _]. apply ci_users0 in Hy as [Hy Hid].
      apply ci_users0 in Hy as [_ Hlt]. unfold ui in *. cbn in *. lia.
Qed.

Lemma inv_add_role cc p r :
  cache_inv cc p -> roles cc !! r = None -> 0 <= nextRoleID cc < 2 ^ 64 - 1 ->
  cache_inv (on_nextRoleID incr (on_rolesByID <[nextRoleID cc := mkRoleInfo (nextRoleID cc) r]>
      (on_roles <[r := mkRoleInfo (nextRoleID cc) r]> cc)))
    (mkPolicy (p_tables p) (p_nextTable p) (p_users p) ({[r]} ∪ p_roles p) (p_members p) (p_grants p)).
Proof.
  intros [] Hnew Hroom. set (ri := mkRoleInfo (nextRoleID cc) r).
  pose proof (named_insert RoleName ri_RoleID _ _ _ ri ci_roles0 Hnew eq_refl Hroom) as Hu.
  assert (forall j, is_Some (rolesByID cc !! j) -> is_Some (<[nextRoleID cc := ri]> (rolesByID cc) !! j)) as Hmono.
  { intros j Hj. destruct (decide (nextRoleID cc = j)) as [<-|?];
      [by rewrite lookup_insert_eq; eexists|by rewrite lookup_insert_ne]. }
  assert (~ is_Some (rolesByID cc !! nextRoleID cc)) as Hfresh.
  { intros [x Hx]. apply ci_roles0 in Hx as [Hx Hid]. apply ci_roles0 in Hx as [_ Hlt]. lia. }
  constructor; try done.
  - cbn. by rewrite ci_policy_roles0, dom_insert_L.
  - intros i j Ha. destruct (ci_assigned0 i j Ha). auto.
  - intros u r'. cbn. rewrite ci_members0. split; intros (x & y & Hx & Hy & Ha); exists x, y.
    + rewrite lookup_insert_ne by (intros <-; congruence). done.
    + apply lookup_insert_Some in Hy as [[<- <-]|[_ Hy]]; [|done].
      by destruct (ci_assigned0 _ _ Ha) as [_ Hj].
  - intros j t a gi Hg. destruct (ci_granted0 _ _ _ _ Hg). auto.
  - intros r' t a. cbn. rewrite ci_rules0. split; intros (y & Hy & Hg); exists y.
    + rewrite lookup_insert_ne by (intros <-; congruence). done.
    + apply lookup_insert_Some in Hy as [[<- <-]|[_ Hy]]; [|done].
      destruct Hg as [gi Hg]. by destruct (ci_granted0 _ _ _ _ Hg) as [Hj _].
Qed.

Ltac same_name :=
  symmetry; first [eapply (named_unique Username ui_UserID); eassumption | eapply (named_unique RoleName ri_RoleID); eassumption].

Lemma inv_assign cc p u r ui ri urID :
  cache_inv cc p -> users cc !! u = Some ui -> roles cc !! r = Some ri ->
  userRoleAssignments cc !! (ui_UserID ui, ri_RoleID ri) = None ->
  cache_inv (on_userRoleAssignments <[(ui_UserID ui, ri_RoleID ri) := urID]>
      (on_userRoles (append_to (ui_UserID ui) (ri_RoleID ri)) cc)) (on_members (fun s => {[(u, r)]} ∪ s) p).
Proof.
  intros [] Hu Hr Hnone.
  pose proof (named_by_id _ _ _ _ _ _ _ ci_users0 Hu) as Hui. pose proof (named_by_id _ _ _ _ _ _ _ ci_roles0 Hr) as Hri.
  constructor; try done; cbn.
  - intros i j. destruct (decide ((ui_UserID ui, ri_RoleID ri) = (i, j))) as [[= <- <-]|Hne].
    + intros _. split; by eexists.
    + rewrite lookup_insert_ne by done. apply ci_assigned0.
  - intros u' r'. rewrite elem_of_union, elem_of_singleton. split.
    + intros [[= -> ->]|Hm].
      * exists ui, ri. rewrite lookup_insert_eq. split_and!; [done..|by eexists].
      * apply ci_members0 in Hm as (x & y & Hx & Hy & Ha). exists x, y. repeat split; try done.
        apply lookup_insert_is_Some. destruct (decide ((ui_UserID ui, ri_RoleID ri) = (ui_UserID x, ri_RoleID y))); auto.
    + intros (x & y & Hx & Hy & Ha). destruct (decide ((ui_UserID ui, ri_RoleID ri) = (ui_UserID x, ri_RoleID y))) as [[= H1 H2]|Hne].
      * left. f_equal; same_name.
      * right. rewrite lookup_insert_ne in Ha by done. apply ci_members0. by exists x, y.
  - intros i j. rewrite elem_append_to, ci_userRoles0, lookup_insert_is_Some.
    destruct (decide ((ui_UserID ui, ri_RoleID ri) = (i, j))) as [[= <- <-]|Hne]; [naive_solver|].
    split; [intros [?|[<- ->]]; [by right|done]|]. intros [[= <- <-]|[_ ?]]; [done|by left].
Qed.

Lemma inv_revoke_role cc p u r ui ri :
  cache_inv cc p -> users cc !! u = Some ui -> roles cc !! r = Some ri ->
  cache_inv (on_userRoles (fun m => <[ui_UserID ui :=
        List.filter (fun r => negb (r =? ri_RoleID ri)) (default [] (m !! ui_UserID ui))]> m)
      (on_userRoleAssignments (delete (ui_UserID ui, ri_RoleID ri)) cc)) (on_members (fun s => s ∖ {[(u, r)]}) p).
Proof.
  intros [] Hu Hr. constructor; try done; cbn.
  - intros i j [x Hx]. apply lookup_delete_Some in Hx as [_ Hx]. apply ci_assigned0. by exists x.
  - intros u' r'. rewrite elem_of_difference, elem_of_singleton, ci_members0. split.
    + intros [(x & y & Hx & Hy & Ha) Hne]. exists x, y. repeat split; try done.
      rewrite lookup_delete_ne; [done|]. intros [= H1 H2]. apply Hne.
      f_equal; same_name.
    + intros (x & y & Hx & Hy & [z Hz]). apply lookup_delete_Some in Hz as [Hne Hz]. split.
      * exists x, y. split_and!; [done..|by eexists].
      * intros [= -> ->]. apply Hne. congruence.
  - intros i j. destruct (decide (ui_UserID ui = i)) as [<-|Hne].
    + rewrite lookup_insert_eq. cbn. rewrite elem_filter, ci_userRoles0, negb_true_iff, Z.eqb_neq.
      destruct (decide (j = ri_RoleID ri)) as [->|?]; [rewrite lookup_delete_eq|rewrite lookup_delete_ne by congruence].
      * split; [naive_solver|intros []; done].
      * naive_solver.
    + rewrite lookup_insert_ne, lookup_delete_ne by congruence. apply ci_userRoles0.
Qed.

Lemma inv_grant cc p r ri t a :
  cache_inv cc p -> roles cc !! r = Some ri -> grantsByKey cc !! (ri_RoleID ri, t, a) = None ->
  0 <= nextGrantID cc < 2 ^ 64 - 1 ->
  let gi := mkGrantInfo (nextGrantID cc) (ri_RoleID ri) t a in
  cache_inv (on_nextGrantID incr (on_grantsByKey <[(ri_RoleID ri, t, a) := gi]> (on_grants (append_to (ri_RoleID ri) gi) cc)))
    (on_rules (fun s => {[(r, t, a)]} ∪ s) p).
Proof.
  intros [] Hr Hnone Hroom gi. pose proof (named_by_id _ _ _ _ _ _ _ ci_roles0 Hr) as Hri.
  constructor; try done; cbn; rewrite ?incr_room by done.
  - intros j t' a' g. rewrite lookup_insert_Some. intros [[[= <- <- <-] <-]|[_ Hg]].
    + repeat split; [by eexists|cbn; lia].
    + destruct (ci_granted0 _ _ _ _ Hg) as (? & ? & ?). repeat split; [done..|lia].
  - intros [[j t'] a'] [[j' t''] a''] g g'. rewrite !lookup_insert_Some.
    intros [[<- <-]|[_ Hg]] [[<- <-]|[_ Hg']] Heq; [done| | |by eapply ci_grant_ids0].
    + apply ci_granted0 in Hg' as (_ & _ & Hlt). cbn in Heq. lia.
    + apply ci_granted0 in Hg as (_ & _ & Hlt). cbn in Heq. lia.
  - intros r' t' a'. rewrite elem_of_union, elem_of_singleton, ci_rules0. split.
    + intros [[= -> -> ->]|(y & Hy & Hg)].
      * exists ri. rewrite lookup_insert_eq. split; [done|by eexists].
      * exists y. split; [done|]. apply lookup_insert_is_Some.
        destruct (decide ((ri_RoleID ri, t, a) = (ri_RoleID y, t', a'))); auto.
    + intros (y & Hy & Hg). destruct (decide ((ri_RoleID ri, t, a) = (ri_RoleID y, t', a'))) as [[= H1 <- <-]|Hne].
      * left. do 2 f_equal. same_name.
      * right. rewrite lookup_insert_ne in Hg by done. by exists y.
  - intros j g. rewrite elem_append_to, ci_grants0, lookup_insert_Some. split.
    + intros [Hg|[<- ->]]; [|by left]. right. split; [|done]. intros E0. rewrite <- E0 in Hg. congruence.
    + intros [[[= <- <- <-] <-]|[_ Hg]]; [by right|by left].
Qed.

Lemma inv_revoke cc p r ri t a gi :
  cache_inv cc p -> roles cc !! r = Some ri -> grantsByKey cc !! (ri_RoleID ri, t, a) = Some gi ->
  cache_inv (on_grants (fun m => <[ri_RoleID ri :=
        List.filter (fun g => negb (GrantID g =? GrantID gi)) (default [] (m !! ri_RoleID ri))]> m)
      (on_grantsByKey (delete (ri_RoleID ri, t, a)) cc)) (on_rules (fun s => s ∖ {[(r, t, a)]}) p).
Proof.
  intros [] Hr Hgi. constructor; try done; cbn.
  - intros j t' a' g. rewrite lookup_delete_Some. intros [_ Hg]. by apply ci_granted0.
  - intros k k' g g'. rewrite !lookup_delete_Some. intros [_ Hg] [_ Hg']. by apply ci_grant_ids0.
  - intros r' t' a'. rewrite elem_of_difference, elem_of_singleton, ci_rules0. split.
    + intros [(y & Hy & Hg) Hne]. exists y. split; [done|]. rewrite lookup_delete_ne; [done|].
      intros [= H1 <- <-]. apply Hne. do 2 f_equal. same_name.
    + intros (y & Hy & [g Hg]). apply lookup_delete_Some in Hg as [Hne Hg]. split; [by exists y; split; [|exists g]|].
      intros [= -> -> ->]. apply Hne. congruence.
  - intros j g. destruct (decide (ri_RoleID ri = j)) as [<-|Hne].
    + rewrite lookup_insert_eq. cbn. rewrite elem_filter, ci_grants0, negb_true_iff, Z.eqb_neq, lookup_delete_Some.
      split; (intros [Hg Hid]; split; [|done || idtac]).
      * intros E0. apply Hid. f_equal. congruence.
      * done.
      * intros E0. apply Hg. by apply (ci_grant_ids0 _ _ gi g).
    + rewrite lookup_insert_ne, lookup_delete_ne by congruence. apply ci_grants0.
Qed.

Lemma inv_drop_role cc p r ri :
  cache_inv cc p -> roles cc !! r = Some ri -> cache_inv (uncache_role ri r cc) (drop_role r p).
Proof.
  intros [] Hr.
  assert (forall r' y, roles cc !! r' = Some y -> ri_RoleID y = ri_RoleID ri <-> r' = r) as Hid.
  { intros r' y Hy. split; [intros Heq; symmetry in Heq; same_name|]. intros ->. congruence. }
  pose proof (named_delete _ _ _ _ _ _ _ ci_roles0 Hr) as Hnamed.
  constructor; try done; cbn.
  - by rewrite dom_delete_L, ci_policy_roles0.
  - intros i j [x Hx]. apply map_lookup_filter_Some in Hx as [Hx Hne]. cbn in Hne.
    rewrite lookup_delete_ne by done. apply ci_assigned0. by exists x.
  - intros u' r'. rewrite elem_of_filter, ci_members0. cbn. split.
    + intros [Hne (x & y & Hx & Hy & [z Hz])]. exists x, y. rewrite lookup_delete_ne by done.
      repeat split; [done..|]. exists z. apply map_lookup_filter_Some. split; [done|]. cbn. by rewrite Hid.
    + intros (x & y & Hx & Hy & [z Hz]). apply lookup_delete_Some in Hy as [Hne Hy].
      apply map_lookup_filter_Some in Hz as [Hz _]. split; [done|]. exists x, y. split_and!; [done..|by eexists].
  - intros i j. rewrite lookup_fmap. transitivity (j ∈ default [] (userRoles cc !! i) /\ j <> ri_RoleID ri).
    + destruct (userRoles cc !! i) as [l|]; cbn; [|set_solver]. by rewrite elem_filter, negb_true_iff, Z.eqb_neq.
    + rewrite ci_userRoles0. unfold is_Some. setoid_rewrite map_lookup_filter_Some. cbn. naive_solver.
  - intros j t a gi Hg. apply map_lookup_filter_Some in Hg as [Hg Hne]. cbn in Hne.
    rewrite lookup_delete_ne by done. by apply ci_granted0.
  - intros k k' g g' Hg Hg'. apply map_lookup_filter_Some in Hg as [Hg _], Hg' as [Hg' _]. by apply ci_grant_ids0.
  - intros r' t a. rewrite elem_of_filter, ci_rules0. cbn. split.
    + intros [Hne (y & Hy & [z Hz])]. exists y. rewrite lookup_delete_ne by done. split; [done|].
      exists z. apply map_lookup_filter_Some. split; [done|]. cbn. by rewrite Hid.
    + intros (y & Hy & [z Hz]). apply lookup_delete_Some in Hy as [Hne Hy].
      apply map_lookup_filter_Some in Hz as [Hz _]. split; [done|]. exists y. by split; [|exists z].
  - intros j gi. rewrite map_lookup_filter_Some. cbn. destruct (decide (ri_RoleID ri = j)) as [<-|Hne].
    + rewrite lookup_delete_eq. cbn. set_solver.
    + rewrite lookup_delete_ne, ci_grants0 by done. naive_solver.
Qed.
End steps.

(** What is pending while a request runs is not, afterwards. *)
Lemma undo_create t x f cc :
  pendingTables cc = ∅ ->
  unpend_table t (on_nextAuditLogID incr (on_nextHistoryID incr (on_nextTableID f (on_tables <[t := x]>
    (on_pendingTables (fun s => {[t]} ∪ s) cc)))))
  = on_nextAuditLogID incr (on_nextHistoryID incr (on_nextTableID f (on_tables <[t := x]> cc))).
Proof. intros Hp. by rewrite <- (pend_undo_table t cc Hp) at 2. Qed.

Lemma undo_drop t cc :
  pendingTables cc = ∅ ->
  unpend_table t (on_nextAuditLogID incr (on_nextHistoryID incr (on_tables (delete t) (on_pendingTables (fun s => {[t]} ∪ s) cc))))
  = on_nextAuditLogID incr (on_nextHistoryID incr (on_tables (delete t) cc)).
Proof. intros Hp. by rewrite <- (pend_undo_table t cc Hp) at 2. Qed.

Lemma undo_user u x cc :
  pendingUsers cc = ∅ ->
  unpend_user u (on_nextAuditLogID incr (on_nextUserID incr (cache_user x (on_pendingUsers (fun s => {[u]} ∪ s) cc))))
  = on_nextAuditLogID incr (on_nextUserID incr (cache_user x cc)).
Proof. intros Hp. by rewrite <- (pend_undo_user u cc Hp) at 2. Qed.

Lemma same_next cc : on_nextTableID id cc = cc.
Proof. by destruct cc. Qed.

(** * Refinement *)

Section requests.
Context {S E : Type} `{KvOps S E} `{GoRuntime} `{Passwords}.

Definition exec (q : admin_request) : cm (S:=S) (E:=E) unit :=
  match q with
  | RCreateTable engine t schema => CreateTable engine t schema
  | RRegisterTable id engine t payload => RegisterTable id engine t payload
  | RAllocateTableID => AllocateTableID ;;; ret tt
  | RDropTable t => DropTable t
  | RCreateUser u pw admin => CreateUser u pw admin
  | RCreateRole r => CreateRole r
  | RDropRole r => DropRole r
  | RAssignRole u r => AssignRole u r
  | RRevokeRole u r => RevokeRole u r
  | RGrant r t a => Grant r t a
  | RRevoke r t a => Revoke r t a
  end.

Definition exec_all (qs : list admin_request) : cm (S:=S) (E:=E) unit := for_each qs exec.

(** A request uses at most one new id of a kind, and the ids of users in order. *)
Definition grown (cc cc' : cache) : Prop :=
  (nextUserID cc' = nextUserID cc \/ nextUserID cc' = incr (nextUserID cc)) /\
  (nextRoleID cc' = nextRoleID cc \/ nextRoleID cc' = incr (nextRoleID cc)) /\
  (nextGrantID cc' = nextGrantID cc \/ nextGrantID cc' = incr (nextGrantID cc)) /\
  (forall i, usersByID cc !! i = None -> i <> nextUserID cc -> usersByID cc' !! i = None).

Ltac by_growth := unfold grown; split_and!; cbn; auto.

Section step.
Context (engs : gmap name (name -> bool)) (cc : cache) (p : policy) (Hinv : cache_inv cc p) (Hroom : room cc).

(** What a request must do from here. *)
Definition refines (q : admin_request) : Prop :=
  does engs cc (exec q)
    (fun e => policy_step (E:=E) engs q p = Err e \/
      ((exists p', policy_step (E:=E) engs q p = Ok p') /\ store_failure e))
    (fun _ cc' => exists p', policy_step (E:=E) engs q p = Ok p' /\ cache_inv cc' p' /\ grown cc cc').

Lemma users_of u : p_users p !! u = IsAdmin <$> users cc !! u.
Proof. by rewrite (ci_policy_users _ _ Hinv), lookup_fmap. Qed.

Lemma role_of r : r ∈ p_roles p <-> is_Some (roles cc !! r).
Proof. by rewrite (ci_policy_roles _ _ Hinv), elem_of_dom. Qed.

Lemma member_of u r ui ri :
  users cc !! u = Some ui -> roles cc !! r = Some ri ->
  (u, r) ∈ p_members p <-> is_Some (userRoleAssignments cc !! (ui_UserID ui, ri_RoleID ri)).
Proof.
  intros Hu Hr. rewrite (ci_members _ _ Hinv). split; [intros (x & y & Hx & Hy & Ha)|intros Ha; by exists ui, ri].
  rewrite Hu in Hx. rewrite Hr in Hy. by injection Hx as <-; injection Hy as <-.
Qed.

Lemma granted_to r t a ri :
  roles cc !! r = Some ri -> (r, t, a) ∈ p_grants p <-> is_Some (grantsByKey cc !! (ri_RoleID ri, t, a)).
Proof.
  intros Hr. rewrite (ci_rules _ _ Hinv). split; [intros (y & Hy & Ha)|intros Ha; by exists ri].
  rewrite Hr in Hy. by injection Hy as <-.
Qed.

Lemma table_known t : p_grant_table p t = grant_table cc t.
Proof. unfold p_grant_table, grant_table. by rewrite (ci_tables _ _ Hinv). Qed.

Lemma not_known {A} (o : option A) : ~ is_Some o -> o = None.
Proof. destruct o; [intros Hn; exfalso; by apply Hn; eexists|done]. Qed.

Lemma create_table_refines engine t schema : refines (RCreateTable engine t schema).
Proof.
  unfold refines, exec, CreateTable, policy_step. destruct (_ || _); [by apply does_fail; left|]. cbn [unless].
  apply (does_gets _ _ _ _ _ _ true); [by intros c (_ & -> & _)|]. cbn [negb].
  apply (does_gets _ _ _ _ _ _ (engs !! engine)); [by intros c (_ & _ & _ & -> & _)|].
  destruct (engs !! engine) as [validate|]; [|by apply does_fail; left].
  destruct (negb (validate schema)); [by apply does_fail; left|]. cbn [unless]. apply does_running.
  destruct (ci_pending _ _ Hinv) as [Hpt _]. rewrite (ci_tables _ _ Hinv).
  case_bool_decide as Ht; [by apply does_fail; left|]. cbn [unless]. rewrite Hpt, bool_decide_eq_false_2 by set_solver.
  apply does_tx. intros txID. apply does_deferred; [by apply pend_undo_table|]. unfold store_table. does_steps.
  eexists. split; [done|]. split; [|by_growth]. cbn beta. rewrite undo_create by done.
  rewrite <- (ci_nextTable _ _ Hinv). by apply inv_counters, inv_add_table.
Qed.

(** A table that the policy admits is made, or the store fails. *)
Lemma create_table_run engine t schema validate :
  engine <> [] -> t <> [] -> engs !! engine = Some validate -> validate schema = true -> tables cc !! t = None ->
  does engs cc (CreateTable engine t schema) (store_failure (E:=E))
    (fun _ cc' => cc' = on_nextAuditLogID incr (on_nextHistoryID incr (on_nextTableID incr
       (on_tables <[t := mkTableInfo (nextTableID cc) engine t schema 1]> cc)))).
Proof.
  clear Hroom. intros He Ht Hv Hs Hn. unfold CreateTable. rewrite !bool_decide_eq_false_2 by done. cbn [orb].
  apply (does_gets _ _ _ _ _ _ true); [by intros c (_ & -> & _)|]. cbn [negb].
  apply (does_gets _ _ _ _ _ _ (engs !! engine)); [by intros c (_ & _ & _ & -> & _)|].
  rewrite Hv, Hs. cbn [negb]. apply does_running. destruct (ci_pending _ _ Hinv) as [Hpt _].
  rewrite Hn, bool_decide_eq_false_2 by (by intros [? ?]). rewrite Hpt, bool_decide_eq_false_2 by set_solver.
  apply does_tx. intros txID. apply does_deferred; [by apply pend_undo_table|]. unfold store_table. does_steps.
  by rewrite undo_create.
Qed.

Lemma register_table_refines id engine t payload : refines (RRegisterTable id engine t payload).
Proof.
  unfold refines, exec, RegisterTable, policy_step. destruct (_ || _); [by apply does_fail; left|]. cbn [unless]. apply does_running.
  destruct (ci_pending _ _ Hinv) as [Hpt _]. rewrite (ci_tables _ _ Hinv).
  case_bool_decide as Ht; [by apply does_fail; left|]. cbn [unless]. rewrite Hpt, bool_decide_eq_false_2 by set_solver.
  apply does_tx. intros txID. apply does_deferred; [by apply pend_undo_table|]. unfold store_table. does_steps.
  eexists. split; [done|]. split; [|by_growth]. cbn beta. unfold Datatypes.id. rewrite <- (same_next (on_tables _ _)), undo_create by done.
  rewrite <- (ci_nextTable _ _ Hinv). by apply inv_counters, inv_add_table.
Qed.

Lemma drop_table_refines t : refines (RDropTable t).
Proof.
  unfold refines, exec, DropTable, policy_step. case_bool_decide; [by apply does_fail; left|]. cbn [unless]. apply does_running.
  destruct (ci_pending _ _ Hinv) as [Hpt _]. rewrite (ci_tables _ _ Hinv).
  destruct (p_tables p !! t) as [ti|]; [|by apply does_fail; left]. cbn [unless].
  rewrite Hpt, bool_decide_eq_false_2 by set_solver.
  apply does_tx. intros txID. apply does_deferred; [by apply pend_undo_table|]. does_steps.
  eexists. split; [done|]. split; [|by_growth]. cbn beta. rewrite undo_drop by done. by apply inv_counters, inv_drop_table.
Qed.

Lemma allocate_refines : refines RAllocateTableID.
Proof.
  unfold refines, exec, AllocateTableID. intros c Hc. pose proof Hc as (Hh & Hs & Hg & He & E0).
  unfold bind, running, on_cache. rewrite E0, Hs, E0. exists (on_nextTableID incr cc). split; [done|].
  eexists. split; [done|]. split; [|by_growth]. destruct Hinv. constructor; try done. cbn. by rewrite ci_nextTable0.
Qed.

Lemma create_user_refines u pw admin : refines (RCreateUser u pw admin).
Proof.
  unfold refines, exec, CreateUser, policy_step. case_bool_decide; [by apply does_fail; left|]. cbn [unless]. apply does_running.
  destruct (ci_pending _ _ Hinv) as [_ Hpu]. rewrite users_of.
  rewrite (bool_decide_ext _ _ (fmap_is_Some IsAdmin (users cc !! u))).
  case_bool_decide as Hu; [by apply does_fail; left|]. cbn [unless]. rewrite Hpu, bool_decide_eq_false_2 by set_solver.
  apply does_tx. intros txID. apply does_deferred; [by apply pend_undo_user|]. does_steps.
  eexists. split; [done|]. cbn beta. rewrite undo_user by done. split; [|by_growth].
  - change (nextUserID (on_pendingUsers _ cc)) with (nextUserID cc). apply inv_audit, inv_add_user; [done| |apply Hroom].
    by apply not_known.
  - intros i Hi Hn. by rewrite lookup_insert_ne.
Qed.

Lemma create_role_refines r : refines (RCreateRole r).
Proof.
  unfold refines, exec, CreateRole, CreateRole_begin, policy_step. case_bool_decide as Hr; [by apply does_refused; left|].
  cbn [unless]. apply does_assoc, does_running. rewrite (bool_decide_ext _ _ (role_of r)).
  case_bool_decide as Hk; [by apply does_refused; left|]. cbn [unless].
  apply does_tx. intros txID. unfold CreateRole_store. apply does_assoc.
  apply does_store; [store_step|store_may_fail|intros ?]. apply does_assoc, does_from_cache, does_assoc.
  apply does_store; [store_step|store_may_fail|intros ?]. apply does_assoc.
  apply does_store; [store_step|store_may_fail|intros ?]. apply does_commit. cbn.
  eexists. split; [done|]. split; [|by_growth]. apply inv_audit, inv_add_role; [done|by apply not_known|apply Hroom].
Qed.

Lemma drop_role_refines r : refines (RDropRole r).
Proof.
  unfold refines, exec, DropRole, policy_step. case_bool_decide; [by apply does_fail; left|]. cbn [unless]. apply does_running.
  destruct (roles cc !! r) as [ri|] eqn:Hr.
  - rewrite bool_decide_eq_false_2 by (rewrite role_of, Hr; intros Hn; apply Hn; by eexists). cbn [unless]. does_steps.
    eexists. split; [done|]. split; [|by_growth]. by apply inv_audit, inv_drop_role.
  - rewrite bool_decide_eq_true_2 by (rewrite role_of, Hr; by intros [? ?]). by apply does_fail; left.
Qed.

(** A user and a role the catalog knows. *)
Lemma found_user_role u r :
  match find_user_role cc u r with
  | Some (ui, ri) => users cc !! u = Some ui /\ roles cc !! r = Some ri /\
      bool_decide (p_users p !! u = None) || bool_decide (r ∉ p_roles p) = false
  | None => bool_decide (p_users p !! u = None) || bool_decide (r ∉ p_roles p) = true /\ (u, r) ∉ p_members p
  end.
Proof.
  unfold find_user_role. rewrite users_of.
  destruct (users cc !! u) as [ui|] eqn:Hu; [destruct (roles cc !! r) as [ri|] eqn:Hr|].
  - repeat split. rewrite !bool_decide_eq_false_2; [done| |done]. rewrite role_of, Hr. intros Hn. apply Hn. by eexists.
  - split; [apply orb_true_intro; right; apply bool_decide_eq_true_2; rewrite role_of, Hr; by intros [? ?]|].
    rewrite (ci_members _ _ Hinv). intros (? & ? & ? & ? & ?). congruence.
  - split; [done|]. rewrite (ci_members _ _ Hinv). intros (? & ? & ? & ? & ?). congruence.
Qed.

Lemma assign_role_refines u r : refines (RAssignRole u r).
Proof.
  unfold refines, exec, AssignRole, policy_step. destruct (bool_decide _ || bool_decide _); [by apply does_fail; left|].
  cbn [unless]. apply does_running. pose proof (found_user_role u r) as Hf.
  destruct (find_user_role cc u r) as [[ui ri]|]; [destruct Hf as (Hu & Hr & ->)|destruct Hf as [-> _]; by apply does_fail; left].
  cbn [unless]. rewrite (bool_decide_ext _ _ (member_of u r ui ri Hu Hr)).
  case_bool_decide as Hm; [by apply does_fail; left|]. cbn [unless]. does_steps.
  eexists. split; [done|]. split; [|by_growth]. apply inv_audit, inv_next_member, inv_assign; [done..|by apply not_known].
Qed.

Lemma revoke_role_refines u r : refines (RRevokeRole u r).
Proof.
  unfold refines, exec, RevokeRole, policy_step. destruct (bool_decide _ || bool_decide _); [by apply does_fail; left|].
  cbn [unless]. apply does_running. pose proof (found_user_role u r) as Hf.
  destruct (find_user_role cc u r) as [[ui ri]|];
    [destruct Hf as (Hu & Hr & _)|destruct Hf as [_ Hn]; rewrite bool_decide_eq_true_2 by done; by apply does_fail; left].
  pose proof (member_of u r ui ri Hu Hr) as Hm.
  destruct (userRoleAssignments cc !! _) as [urID|] eqn:Ha; rewrite <- Ha in Hm.
  - rewrite bool_decide_eq_false_2 by (intros Hn; apply Hn, Hm; rewrite Ha; by eexists). cbn [unless]. does_steps.
    eexists. split; [done|]. split; [|by_growth]. by apply inv_audit, inv_revoke_role.
  - rewrite bool_decide_eq_true_2 by (rewrite Hm, Ha; by intros [? ?]). by apply does_fail; left.
Qed.

Lemma grant_refines r t a : refines (RGrant r t a).
Proof.
  unfold refines, exec, Grant, policy_step. case_bool_decide; [by apply does_fail; left|]. cbn [unless].
  destruct (negb (isValidAction a)); [by apply does_fail; left|]. cbn [unless]. apply does_running.
  destruct (roles cc !! r) as [ri|] eqn:Hr;
    [|rewrite bool_decide_eq_true_2 by (rewrite role_of, Hr; by intros [? ?]); by apply does_fail; left].
  rewrite bool_decide_eq_false_2 by (rewrite role_of, Hr; intros Hn; apply Hn; by eexists). cbn [unless].
  rewrite table_known. destruct (grant_table cc t) as [id|]; [|by apply does_fail; left].
  rewrite (bool_decide_ext _ _ (granted_to r id a ri Hr)).
  case_bool_decide as Hg; [by apply does_fail; left|]. cbn [unless].
  does_steps. eexists. split; [done|]. split; [|by_growth]. apply inv_audit, inv_grant; [done..|by apply not_known|apply Hroom].
Qed.

Lemma revoke_refines r t a : refines (RRevoke r t a).
Proof.
  unfold refines, exec, Revoke, policy_step. case_bool_decide; [by apply does_fail; left|]. cbn [unless].
  destruct (negb (isValidAction a)); [by apply does_fail; left|]. cbn [unless]. apply does_running.
  destruct (roles cc !! r) as [ri|] eqn:Hr;
    [|rewrite bool_decide_eq_true_2 by (rewrite role_of, Hr; by intros [? ?]); by apply does_fail; left].
  rewrite bool_decide_eq_false_2 by (rewrite role_of, Hr; intros Hn; apply Hn; by eexists). cbn [unless].
  rewrite table_known. destruct (grant_table cc t) as [id|]; [|by apply does_fail; left].
  pose proof (granted_to r id a ri Hr) as Hg.
  destruct (grantsByKey cc !! _) as [gi|] eqn:Ha; rewrite <- Ha in Hg.
  - rewrite bool_decide_eq_false_2 by (intros Hn; apply Hn, Hg; rewrite Ha; by eexists). cbn [unless]. does_steps.
    eexists. split; [done|]. split; [|by_growth]. by apply inv_audit, inv_revoke.
  - rewrite bool_decide_eq_true_2 by (rewrite Hg, Ha; by intros [? ?]). by apply does_fail; left.
Qed.

Lemma exec_refines q : refines q.
Proof.
  destruct q; auto using create_table_refines, register_table_refines, allocate_refines, drop_table_refines,
    create_user_refines, create_role_refines, drop_role_refines, assign_role_refines, revoke_role_refines,
    grant_refines, revoke_refines.
Qed.
End step.

(** ** Sequences of requests *)

Fixpoint serve_all (qs : list admin_request) (c : catalog S) : list (res (cat_err E) unit) * catalog S :=
  match qs with
  | [] => ([], c)
  | q :: qs' => let '(r, c1) := exec q c in let '(rs, c2) := serve_all qs' c1 in (r :: rs, c2)
  end.

(** The answers a policy allows: a request is executed, refused, or fails with the store. *)
Inductive policy_serves (engs : gmap name (name -> bool)) :
  list admin_request -> policy -> list (res (cat_err E) unit) -> policy -> Prop :=
| serves_nil p : policy_serves engs [] p [] p
| serves_done q qs p p1 rs p' :
    policy_step (E:=E) engs q p = Ok p1 -> policy_serves engs qs p1 rs p' -> policy_serves engs (q :: qs) p (Ok tt :: rs) p'
| serves_refused q qs p e rs p' :
    policy_step engs q p = Err e -> policy_serves engs qs p rs p' -> policy_serves engs (q :: qs) p (Err e :: rs) p'
| serves_failed q qs p p1 e rs p' :
    policy_step (E:=E) engs q p = Ok p1 -> store_failure e -> policy_serves engs qs p rs p' -> policy_serves engs (q :: qs) p (Err e :: rs) p'.

Definition room_for (n : nat) (cc : cache) : Prop :=
  (0 <= nextUserID cc /\ nextUserID cc + Z.of_nat n < 2 ^ 64) /\
  (0 <= nextRoleID cc /\ nextRoleID cc + Z.of_nat n < 2 ^ 64) /\
  (0 <= nextGrantID cc /\ nextGrantID cc + Z.of_nat n < 2 ^ 64).

Lemma room_for_room n cc : room_for (Datatypes.S n) cc -> room cc.
Proof. unfold room_for, room. lia. Qed.

Lemma room_for_less n cc : room_for (Datatypes.S n) cc -> room_for n cc.
Proof. unfold room_for. lia. Qed.

Lemma room_for_grown n cc cc' : room_for (Datatypes.S n) cc -> grown cc cc' -> room_for n cc'.
Proof.
  intros Hr (Hu & Ho & Hg & _). pose proof (room_for_room n cc Hr) as (R1 & R2 & R3).
  rewrite !incr_room in * by done. unfold room_for in *. lia.
Qed.

(** As [catalog_run_refines]; and a user id that was passed over is not used later. *)
Lemma admin_run_refines engs qs c cc p :
  live engs c cc -> cache_inv cc p -> room_for (length qs) cc ->
  let '(rs, c') := serve_all qs c in
  exists cc' p', live engs c' cc' /\ cache_inv cc' p' /\ policy_serves engs qs p rs p' /\
    forall i, usersByID cc !! i = None -> i < nextUserID cc -> usersByID cc' !! i = None.
Proof.
  revert c cc p. induction qs as [|q qs IH]; intros c cc p Hc Hi Hroom.
  { exists cc, p. split_and!; try done. constructor. }
  cbn [serve_all]. pose proof (exec_refines engs cc p Hi (room_for_room _ _ Hroom) q c Hc) as Hq.
  destruct (exec q c) as [[[]|e] c1].
  - destruct Hq as (cc1 & Hc1 & p1 & Hp1 & Hi1 & Hg). specialize (IH c1 cc1 p1 Hc1 Hi1 (room_for_grown _ _ _ Hroom Hg)).
    destruct (serve_all qs c1) as [rs c']. destruct IH as (cc' & p' & ? & ? & ? & Hids). exists cc', p'.
    split_and!; [done..|by eapply serves_done|]. intros i Hn Hlt. destruct Hg as (Hu & _ & _ & Hnew). apply Hids.
    + apply Hnew; [done|lia].
    + rewrite incr_room in Hu by apply (room_for_room _ _ Hroom). lia.
  - destruct Hq as (Hc1 & He). specialize (IH c1 cc p Hc1 Hi (room_for_less _ _ Hroom)).
    destruct (serve_all qs c1) as [rs c']. destruct IH as (cc' & p' & ? & ? & ? & ?). exists cc', p'.
    split_and!; try done. destruct He as [He|[[p1 Hp1] He]]; [by eapply serves_refused|by eapply serves_failed].
Qed.

(** C4: Served one after the other, the administration requests change the catalog exactly
    as the access policy says: each is executed, is refused for the reason the policy
    gives, or would be executed but fails with the store, and the last two change neither the policy nor the
    cache.  The maps of the cache stay consistent. *)
Theorem catalog_run_refines engs qs c cc p :
  live engs c cc -> cache_inv cc p -> room_for (length qs) cc ->
  let '(rs, c') := serve_all qs c in
  exists cc' p', live engs c' cc' /\ cache_inv cc' p' /\ policy_serves engs qs p rs p'.
Proof.
  intros Hc Hi Hroom. pose proof (admin_run_refines engs qs c cc p Hc Hi Hroom) as Hr. destruct (serve_all qs c) as [rs c'].
  destruct Hr as (cc' & p' & ? & ? & ? & _). by exists cc', p'.
Qed.

(** Every table of a policy has an engine with a name. *)
Definition owned (p : policy) : Prop := forall t ti, p_tables p !! t = Some ti -> EngineName ti <> [].

Lemma owned_no_policy : owned no_policy.
Proof. intros t ti. cbn. by rewrite lookup_empty. Qed.

Lemma owned_add id engine t schema next p : engine <> [] -> owned p -> owned (add_table id engine t schema next p).
Proof. intros He Ho u ti. cbn. intros [[_ <-]|[_ Hu]]%lookup_insert_Some; [done|by apply (Ho u)]. Qed.

Lemma owned_step engs q p p' : owned p -> policy_step (E:=E) engs q p = Ok p' -> owned p'.
Proof.
  intros Ho. destruct q; cbn [policy_step]; unfold unless; intros Hs;
    repeat (case_match; try discriminate); injection Hs as <-; try done.
  - apply owned_add; [|done]. intros ->. done.
  - apply owned_add; [|done]. intros ->. done.
  - intros u ti. cbn. intros [_ Hu]%lookup_delete_Some. by apply (Ho u).
Qed.

Lemma owned_serves engs qs p rs p' : owned p -> policy_serves engs qs p rs p' -> owned p'.
Proof. intros Ho. induction 1; eauto using owned_step. Qed.

(** ** Permissions *)

Lemma grants_action_spec t a gi :
  grants_action t a gi = true <-> (gi_TableID gi = 0 \/ gi_TableID gi = t) /\ gi_Action gi = a.
Proof. unfold grants_action. by rewrite andb_true_iff, orb_true_iff, !Z.eqb_eq, bool_decide_eq_true. Qed.

Lemma permitted_allowed cc p u ui t a :
  cache_inv cc p -> users cc !! u = Some ui -> permitted cc (ui_UserID ui) t a = true <-> allowed p u t a.
Proof.
  intros Hi Hu. pose proof Hi as [].
  unfold permitted, allowed. rewrite (named_by_id _ _ _ _ _ _ _ ci_users0 Hu), (users_of cc p Hi u), Hu. cbn.
  rewrite orb_true_iff, existsb_exists. split.
  - intros [->|(j & Hj & Hg)]; [by left|]. right. apply list_elem_of_In, ci_userRoles0 in Hj.
    apply andb_true_iff in Hg as [[ri Hri]%bool_decide_eq_true Hg]. apply ci_roles0 in Hri as [Hri <-].
    exists (RoleName ri). split; [apply ci_members0; by exists ui, ri|].
    apply existsb_exists in Hg as (gi & Hin & [Ht <-]%grants_action_spec). apply list_elem_of_In, ci_grants0 in Hin.
    assert ((RoleName ri, gi_TableID gi, gi_Action gi) ∈ p_grants p) by (apply ci_rules0; exists ri; by split; [|exists gi]).
    destruct Ht as [<-|<-]; auto.
  - intros [[= ->]|(r & Hm & Hg)]; [by left|]. right. apply ci_members0 in Hm as (x & ri & Hx & Hr & Ha).
    rewrite Hu in Hx. injection Hx as <-. exists (ri_RoleID ri).
    split; [by apply list_elem_of_In, ci_userRoles0|]. apply andb_true_iff. split.
    { apply bool_decide_eq_true. eexists. exact (named_by_id _ _ _ _ _ _ _ ci_roles0 Hr). }
    apply existsb_exists. assert (exists t', (t' = 0 \/ t' = t) /\ (r, t', a) ∈ p_grants p) as (t' & Ht' & Hg') by naive_solver.
    apply ci_rules0 in Hg' as (y & Hy & [gi Hgi]). rewrite Hr in Hy. injection Hy as <-.
    destruct (ci_granted0 _ _ _ _ Hgi) as (_ & Egi & _). exists gi. split.
    + apply list_elem_of_In, ci_grants0. rewrite Egi. cbn. by rewrite <- Egi.
    + apply grants_action_spec. rewrite Egi. done.
Qed.

(** C6: A permission check answers what the policy says: an administrator may do
    everything, another user what a role of the user was granted on that table or on all
    tables; an action that does not exist is an error, and nothing changes. *)
Theorem check_permission_policy engs c cc p u ui t a :
  live engs c cc -> cache_inv cc p -> users cc !! u = Some ui ->
  exists r, CheckPermission (S:=S) (E:=E) (ui_UserID ui) t a c = (r, c) /\
    match r with
    | Ok b => isValidAction a = true /\ (b = true <-> allowed p u t a)
    | Err e => isValidAction a = false /\ e = ErrInvalidAction
    end.
Proof.
  intros (_ & Hs & _ & _ & Hc) Hi Hu. unfold CheckPermission. destruct (isValidAction a); [|by eexists].
  cbn [negb]. unfold bind, running. rewrite Hc, Hs. eexists. split; [done|]. split; [done|]. by apply permitted_allowed.
Qed.

(** ** Passwords *)

(** What bcrypt documents of a hash it makes. *)
Definition bcrypt_laws : Prop :=
  forall n pw hash, GenerateFromPassword n pw = Some hash ->
    CompareHashAndPassword hash pw = true /\ 4 <= zlen hash /\ ztake 4 hash = go_string "$2a$".

Lemma new_hash_verifies n pw hash :
  bcrypt_laws -> GenerateFromPassword n pw = Some hash -> isLegacyHash hash = false /\ verifyPassword hash pw = true.
Proof.
  intros Hb Hg. destruct (Hb _ _ _ Hg) as (Hc & Hl & Hp). unfold verifyPassword, isLegacyHash.
  rewrite (proj2 (Z.ltb_ge _ _)), bool_decide_eq_true_2 by done. cbn [orb negb]. split; [done|].
  by destruct hash.
Qed.

Lemma inv_rehash cc p u ui hash :
  cache_inv cc p -> users cc !! u = Some ui ->
  cache_inv (cache_user (mkUserInfo (ui_UserID ui) (Username ui) hash (IsAdmin ui)) cc) p.
Proof.
  intros [] Hu. set (ui' := mkUserInfo _ _ _ _). pose proof ci_users0 as [Hn Hi].
  pose proof (Hn u ui Hu) as [<- Hlt]. pose proof (named_by_id _ _ _ _ _ _ _ ci_users0 Hu) as Hid.
  constructor; try done; cbn.
  - split.
    + intros n x. rewrite lookup_insert_Some. intros [[<- <-]|[_ Hx]]; [done|]. by apply Hn.
    + intros i x. rewrite !lookup_insert_Some, Hi. split.
      * intros [[<- <-]|[Hne [Hx <-]]]; [by split; [left|]|]. split; [|done]. right. split; [|done].
        intros E0. rewrite <- E0, Hu in Hx. by injection Hx as <-.
      * intros [[[_ <-]|[Hne Hx]] <-]; [by left|]. right. split; [|done]. intros E0. apply Hne.
        by apply (named_unique _ _ _ _ _ _ _ _ _ ci_users0 Hu Hx E0).
  - rewrite fmap_insert, ci_policy_users0. symmetry. apply insert_id. rewrite lookup_fmap, Hu. done.
  - intros i j Ha. destruct (ci_assigned0 i j Ha) as [Hx Hj]. split; [|done]. apply lookup_insert_is_Some.
    destruct (decide (ui_UserID ui = i)); auto.
  - intros u' r. rewrite ci_members0. split; intros (x & y & Hx & Hy & Ha).
    + destruct (decide (Username ui = u')) as [<-|Hne].
      * exists ui', y. rewrite lookup_insert_eq. rewrite Hu in Hx. by injection Hx as <-.
      * exists x, y. by rewrite lookup_insert_ne.
    + apply lookup_insert_Some in Hx as [[<- <-]|[_ Hx]]; [by exists ui, y|by exists x, y].
Qed.

(** The migration stores a new hash of the same password or does nothing. *)
Lemma migrate_run engs c cc p u ui pw :
  bcrypt_laws -> live engs c cc -> cache_inv cc p -> users cc !! u = Some ui ->
  exists cc', live engs (snd (migrateLegacyPassword (S:=S) (E:=E) ui pw c)) cc' /\ cache_inv cc' p /\
    (cc' = cc \/ exists hash, isLegacyHash hash = false /\ verifyPassword hash pw = true /\
      cc' = cache_user (mkUserInfo (ui_UserID ui) (Username ui) hash (IsAdmin ui)) cc).
Proof.
  intros Hb Hc Hi Hu.
  assert (does engs cc (migrateLegacyPassword (S:=S) (E:=E) ui pw) (fun _ => True)
    (fun _ cc' => exists hash, isLegacyHash hash = false /\ verifyPassword hash pw = true /\
      cc' = cache_user (mkUserInfo (ui_UserID ui) (Username ui) hash (IsAdmin ui)) cc)) as Hd.
  { unfold migrateLegacyPassword. apply does_running. destruct (ci_pending _ _ Hi) as [_ Hpu].
    rewrite Hpu, bool_decide_eq_false_2 by set_solver. apply does_tx. intros txID.
    apply does_deferred; [by apply pend_undo_user|]. intros c1 Hc1. unfold bind at 1, genBcryptHash.
    destruct (GenerateFromPassword (entropy c1) pw) as [hash|] eqn:Eg; [|by split].
    destruct (new_hash_verifies _ _ _ Hb Eg) as [Hl Hv].
    assert (live engs (with_entropy (entropy c1 + 1) c1) (on_pendingUsers (fun p => {[Username ui]} ∪ p) cc)) as Hc2 by exact Hc1.
    revert Hc2. generalize (with_entropy (entropy c1 + 1) c1).
    change (does engs (on_pendingUsers (fun p => {[Username ui]} ∪ p) cc)
      (update_meta txID ;;; on_heap (Update schemaUsers txID [AUint64 (ui_UserID ui)]
         (user_row (mkUserInfo (ui_UserID ui) (Username ui) hash (IsAdmin ui)))) ;;;
       on_cache (cache_user (mkUserInfo (ui_UserID ui) (Username ui) hash (IsAdmin ui)))) (fun _ => True)
      (fun _ cc' => exists hash, isLegacyHash hash = false /\ verifyPassword hash pw = true /\
        unpend_user (Username ui) cc' = cache_user (mkUserInfo (ui_UserID ui) (Username ui) hash (IsAdmin ui)) cc)).
    does_steps. exists hash. split_and!; [done..|]. by rewrite <- (pend_undo_user (Username ui) cc Hpu) at 2. }
  specialize (Hd c Hc). destruct (migrateLegacyPassword ui pw c) as [[?|?] c']; cbn [snd].
  - destruct Hd as (cc' & Hl & hash & Hh & Hv & ->). eexists. split; [done|]. split; [by apply (inv_rehash cc p u)|]. right. by exists hash.
  - destruct Hd as [Hl _]. exists cc. auto.
Qed.

(** A user is authenticated exactly with a password that matches the stored hash; an
    unknown name and a wrong password give the same error and change nothing.  An old hash
    is replaced by one that the same password still matches, and neither the other users
    nor any permission changes. *)
Theorem authenticate_keeps_password engs c cc p u pw :
  bcrypt_laws -> live engs c cc -> cache_inv cc p ->
  match Authenticate (S:=S) (E:=E) u pw c with
  | (Ok ui, c') => users cc !! u = Some ui /\ verifyPassword (PasswordHash ui) pw = true /\
      exists cc' ui', live engs c' cc' /\ cache_inv cc' p /\ users cc' !! u = Some ui' /\
        ui_UserID ui' = ui_UserID ui /\ verifyPassword (PasswordHash ui') pw = true /\
        forall u', u' <> u -> users cc' !! u' = users cc !! u'
  | (Err e, c') => e = ErrAuthFailed /\ c' = c /\
      forall ui, users cc !! u = Some ui -> verifyPassword (PasswordHash ui) pw = false
  end.
Proof.
  intros Hb Hc Hi. unfold Authenticate. unfold bind at 1, running. pose proof Hc as (_ & Hs & _ & _ & E0). rewrite E0, Hs.
  destruct (users cc !! u) as [ui|] eqn:Hu; [|by split_and!].
  destruct (verifyPassword (PasswordHash ui) pw) eqn:Hv; cbn [negb]; [|split_and!; [done..|by intros ? [= <-]]].
  destruct (isLegacyHash (PasswordHash ui)); [|split; [done|]; split; [done|]; by exists cc, ui].
  destruct (migrate_run engs c cc p u ui pw Hb Hc Hi Hu) as (cc' & Hl & Hi' & Hcc').
  cbn. split; [done|]. split; [done|]. destruct Hcc' as [->|(hash & _ & Hh & ->)]; [by exists cc, ui|].
  eexists _, (mkUserInfo (ui_UserID ui) (Username ui) hash (IsAdmin ui)). split; [exact Hl|].
  assert (Username ui = u) as En by (by apply (ci_users _ _ Hi)).
  split_and!; [done| |done..|]; cbn; rewrite En.
  - apply lookup_insert_eq.
  - intros u' Hne. by rewrite lookup_insert_ne.
Qed.
End requests.

(** * Without a heap *)

Section no_heap.
Context {S E : Type} `{KvOps S E} `{GoRuntime} `{Passwords}.
Implicit Types (c : catalog S).

(** No table, user, role, grant or assignment, under any key. *)
Definition bare (cc : cache) : Prop :=
  tables cc = ∅ /\ users cc = ∅ /\ usersByID cc = ∅ /\ roles cc = ∅ /\ rolesByID cc = ∅ /\
  grants cc = ∅ /\ grantsByKey cc = ∅ /\ userRoles cc = ∅ /\ userRoleAssignments cc = ∅.

(** [op] never succeeds in an empty catalog without table handles, and leaves it one. *)
Definition empty_catalog c : Prop := h c = None /\ exists cc, cat_cache c = Some cc /\ bare cc.

Definition stuck {A} (op : cm (S:=S) (E:=E) A) : Prop :=
  forall c, empty_catalog c -> match op c with (Ok _, _) => False | (Err _, c') => empty_catalog c' end.

Definition harmless {A} (op : cm (S:=S) (E:=E) A) : Prop := forall c, empty_catalog c -> empty_catalog (snd (op c)).

Lemma stuck_heap {A} (op : st S (table_err E) A) : stuck (on_heap op).
Proof. intros c [Hh Hc]. unfold on_heap. by rewrite Hh. Qed.

Lemma stuck_bind {A B} (op : cm A) (k : A -> cm B) : stuck op -> stuck (bind op k).
Proof. intros Hop c Hc. specialize (Hop c Hc). unfold bind. by destruct (op c) as [[a|e] c']. Qed.

Lemma stuck_after {A B} (op : cm A) (k : A -> cm B) : harmless op -> (forall a, stuck (k a)) -> stuck (bind op k).
Proof.
  intros Hop Hk c Hc. specialize (Hop c Hc). unfold bind. destruct (op c) as [[a|e] c']; [by apply Hk|done].
Qed.

Lemma stuck_fail {A} e : stuck (fail e : cm A).
Proof. by intros c Hc. Qed.

Lemma stuck_deferred {A} (op : cm A) f :
  (forall cc, bare cc -> bare (f cc)) -> stuck op -> stuck (deferred op f).
Proof.
  intros Hf Hop c Hc. specialize (Hop c Hc). unfold deferred. destruct (op c) as [[a|e] c']; [done|].
  destruct Hop as (Hh & cc & E0 & Hb). split; [done|]. exists (f cc). cbn. rewrite E0. split; [done|by apply Hf].
Qed.

Lemma harmless_on_cache f : (forall cc, bare cc -> bare (f cc)) -> harmless (on_cache f).
Proof.
  intros Hf c (Hh & cc & E0 & Hb). unfold on_cache. rewrite E0. split; [done|]. exists (f cc). split; [done|by apply Hf].
Qed.

Lemma harmless_running : harmless running.
Proof. intros c Hc. unfold running. destruct (cat_cache c); [by destruct (started c)|done]. Qed.

Lemma harmless_gets {A} (f : catalog S -> A) : harmless (gets f).
Proof. by intros c Hc. Qed.

Lemma harmless_from_cache {A} (f : cache -> A) : harmless (from_cache f).
Proof. intros c Hc. unfold from_cache. by destruct (cat_cache c). Qed.

Lemma harmless_tx : harmless reserveTx.
Proof. by intros c Hc. Qed.

Lemma harmless_hash pw : harmless (genBcryptHash pw).
Proof. intros c Hc. unfold genBcryptHash. by destruct (GenerateFromPassword _ _). Qed.

Lemma stuck_meta {B} txID (k : unit -> cm B) : stuck (bind (update_meta txID) k).
Proof. apply stuck_bind, stuck_heap. Qed.

Ltac stuck_step :=
  repeat lazymatch goal with
  | |- stuck (if ?b then _ else _) => destruct b
  | |- stuck (fail _) => apply stuck_fail
  | |- stuck (match ?x with _ => _ end) => destruct x
  | |- stuck (bind (update_meta _) _) => apply stuck_meta
  | |- stuck (bind running _) => apply stuck_after; [apply harmless_running|intros ?]
  | |- stuck (bind (gets _) _) => apply stuck_after; [apply harmless_gets|intros ?]
  | |- stuck (bind reserveTx _) => apply stuck_after; [apply harmless_tx|intros ?]
  | |- stuck (bind (genBcryptHash _) _) => apply stuck_after; [apply harmless_hash|intros ?]
  | |- stuck (bind (pend_table _) _) => apply stuck_after; [by apply harmless_on_cache|intros ?]
  | |- stuck (bind (pend_user _) _) => apply stuck_after; [by apply harmless_on_cache|intros ?]
  | |- stuck (deferred _ _) => apply stuck_deferred; [done|]
  | |- stuck (store_table _ _ _ _ _ _) => unfold store_table
  | |- stuck (let '(_, _) := ?x in _) => destruct x
  end.

Lemma exec_stuck q : q <> RAllocateTableID -> stuck (exec q).
Proof.
  intros Hq. destruct q; try done; cbn [exec].
  - unfold CreateTable. stuck_step.
  - unfold RegisterTable. stuck_step.
  - unfold DropTable. stuck_step.
  - unfold CreateUser. stuck_step.
  - unfold CreateRole, CreateRole_begin, CreateRole_store. apply stuck_after.
    + intros c Hc. case_bool_decide; [done|]. unfold bind. pose proof (harmless_running c Hc) as Hr.
      destruct (running c) as [[cc|e] c']; [|done]. by case_bool_decide.
    + intros txID. apply stuck_bind, stuck_meta.
  - unfold DropRole. stuck_step.
  - unfold AssignRole. stuck_step.
  - unfold RevokeRole. stuck_step.
  - unfold Grant. stuck_step.
  - unfold Revoke. stuck_step.
Qed.

(** C34: A catalog made by [NewWithStores], which is the one the server runs with, starts
    with no table, user, role, grant or assignment, and stays so: whatever is requested of it,
    every request that would make or change one fails, and no password is accepted. *)
Theorem catalog_without_heap_stays_empty qs u pw :
  let '(r, c) := Start (S:=S) (E:=E) NewWithStores in
  r = Ok tt /\ (exists cc, cat_cache c = Some cc /\ bare cc) /\
  let '(rs, c') := serve_all qs c in
  (exists cc, cat_cache c' = Some cc /\ bare cc) /\
  (forall i r q, rs !! i = Some (Ok r) -> qs !! i = Some q -> q = RAllocateTableID) /\
  exists e, fst (Authenticate u pw c') = Err e.
Proof.
  destruct (Start NewWithStores) as [r c] eqn:Es.
  assert (r = Ok tt /\ empty_catalog c) as [-> Hc].
  { injection Es as <- <-. split; [done|]. split; [done|]. by exists newCache. }
  split; [done|]. split; [apply Hc|]. clear Es. revert c Hc.
  induction qs as [|q qs IH]; intros c Hc; cbn [serve_all].
  - split; [apply Hc|]. split; [by intros [|i] ? ?|]. destruct Hc as (_ & cc & E0 & _ & Hu & _).
    unfold Authenticate, bind, running. rewrite E0. destruct (started c); [|by eexists]. rewrite Hu, lookup_empty. by eexists.
  - assert (empty_catalog (snd (exec q c)) /\ (forall x, fst (exec q c) = Ok x -> q = RAllocateTableID)) as [Hc1 Hq].
    { assert (q = RAllocateTableID \/ q <> RAllocateTableID) as [->|Hne] by (destruct q; auto; by right).
      - split; [|done]. cbn [exec]. unfold AllocateTableID, bind. pose proof (harmless_running c Hc) as Hr.
        destruct (running c) as [[cc|e] c1]; [|done]. pose proof (harmless_on_cache (on_nextTableID incr) (fun _ Hb => Hb) c1 Hr) as Ho.
        by destruct (on_cache _ c1) as [[x|e] c2].
      - pose proof (exec_stuck q Hne c Hc) as He. destruct (exec q c) as [[x|e] c1]; [done|]. by split. }
    destruct (exec q c) as [x c1]. cbn [fst snd] in *. specialize (IH c1 Hc1). destruct (serve_all qs c1) as [rs c'].
    destruct IH as (Hb & Hi & Ha). split; [done|]. split; [|done]. intros [|i] y q' Hy Hq'; cbn in *.
    + injection Hq' as <-. injection Hy as ->. by eapply Hq.
    + by eapply Hi.
Qed.
End no_heap.

(** * Two calls at once *)

Section race.
Context {S E : Type} `{KvOps S E} `{GoRuntime} `{Passwords}.

(** Two calls of [CreateRole]: both look before either stores. *)
Definition two_CreateRole (roleName : name) : cm (S:=S) (E:=E) unit :=
  tx1 <- CreateRole_begin roleName ;;
  tx2 <- CreateRole_begin roleName ;;
  id1 <- CreateRole_store tx1 roleName ;;
  CreateRole_commit id1 roleName ;;;
  id2 <- CreateRole_store tx2 roleName ;;
  CreateRole_commit id2 roleName.

(** What holds when [op] succeeds. *)
Definition yields {A} engs cc (op : cm (S:=S) (E:=E) A) (Q : A -> cache -> Prop) : Prop :=
  forall c, live engs c cc -> match op c with (Ok a, c') => exists cc', live engs c' cc' /\ Q a cc' | (Err _, _) => True end.

Lemma yields_does {A} engs cc (op : cm A) Q : does engs cc op (fun _ => True) Q -> yields engs cc op Q.
Proof. intros Hop c Hc. specialize (Hop c Hc). by destruct (op c) as [[a|e] c']. Qed.

Lemma yields_bind {A B} engs cc (op : cm A) (k : A -> cm B) Q1 Q :
  yields engs cc op Q1 -> (forall a cc1, Q1 a cc1 -> yields engs cc1 (k a) Q) -> yields engs cc (bind op k) Q.
Proof.
  intros Hop Hk c Hc. specialize (Hop c Hc). unfold bind. destruct (op c) as [[a|e] c']; [|done].
  destruct Hop as (cc1 & Hc1 & HQ). by apply (Hk a cc1 HQ c').
Qed.

Lemma begin_yields engs cc r : yields engs cc (CreateRole_begin r) (fun _ cc' => cc' = cc).
Proof.
  apply yields_does. unfold CreateRole_begin. case_bool_decide; [by apply does_fail|]. apply does_running.
  case_bool_decide; [by apply does_fail|]. intros c Hc. by exists cc.
Qed.

Lemma role_store_yields engs cc txID r :
  yields engs cc (CreateRole_store txID r) (fun id cc' => id = nextRoleID cc /\ cc' = cc).
Proof. apply yields_does. unfold CreateRole_store. does_steps. by apply does_ret. Qed.

Lemma commit_yields engs cc f : yields engs cc (on_cache f) (fun _ cc' => cc' = f cc).
Proof. by apply yields_does, does_commit. Qed.

(** When two calls that create the same role have both looked before one of them
    stores, both succeed and the role exists twice, under two numbers; its name leads only
    to the second. *)
Theorem create_role_races engs c cc r c' :
  live engs c cc -> room cc -> two_CreateRole r c = (Ok tt, c') ->
  exists cc', live engs c' cc' /\
    rolesByID cc' !! nextRoleID cc = Some (mkRoleInfo (nextRoleID cc) r) /\
    rolesByID cc' !! (nextRoleID cc + 1) = Some (mkRoleInfo (nextRoleID cc + 1) r) /\
    roles cc' !! r = Some (mkRoleInfo (nextRoleID cc + 1) r).
Proof.
  intros Hc (_ & Hroom & _) Hr.
  assert (yields engs cc (two_CreateRole r) (fun _ cc' =>
    rolesByID cc' !! nextRoleID cc = Some (mkRoleInfo (nextRoleID cc) r) /\
    rolesByID cc' !! (nextRoleID cc + 1) = Some (mkRoleInfo (nextRoleID cc + 1) r) /\
    roles cc' !! r = Some (mkRoleInfo (nextRoleID cc + 1) r))) as Hy.
  { unfold two_CreateRole. eapply yields_bind; [apply begin_yields|]. intros tx1 ? ->.
    eapply yields_bind; [apply begin_yields|]. intros tx2 ? ->.
    eapply yields_bind; [apply role_store_yields|]. intros ? ? [-> ->].
    eapply yields_bind; [apply commit_yields|]. intros [] ? ->.
    eapply yields_bind; [apply role_store_yields|]. intros ? ? [-> ->].
    apply yields_does, does_commit. cbn. rewrite incr_room by done. rewrite !lookup_insert_eq.
    split_and!; [|done..]. rewrite lookup_insert_ne by lia. apply lookup_insert_eq. }
  specialize (Hy c Hc). by rewrite Hr in Hy.
Qed.
End race.

(** * Start *)

Section start.
Context {S E : Type} `{KvLaws S E} `{GoRuntimeLaws} `{Passwords}.

Definition catalog_schemas : list HeapValue.Schema :=
  [schemaTables; schemaUsers; schemaRoles; schemaGrants; schemaUserRoles; schemaSchemaHistory; schemaAuditLog].

Lemma catalog_schema_ok T : T ∈ catalog_schemas -> schema_ok T.
Proof.
  intros HT. assert (Forall schema_ok catalog_schemas) as Hall.
  { repeat (constructor; [split; [reflexivity|split; [done|reflexivity]|repeat constructor; discriminate|by vm_compute]|]). constructor. }
  rewrite Forall_forall in Hall. by apply Hall.
Qed.

(** When the catalog starts, the loop over a system table fills the cache from every
    row that the table has but one: the row with the smallest primary key is skipped, so
    the first table, user, role, grant and assignment are gone after a restart. *)
Theorem start_misses_first_row T f cc (c : catalog S) s n l d :
  T ∈ catalog_schemas -> h c = Some s -> kv_rel s n l -> table_rep T l d ->
  exists rs c', load_from (E:=E) T f cc c
      = (match load_rows f cc (map row_values (tl rs)) with Some cc' => Ok cc' | None => Err ErrCatPanic end, c') /\
    StronglySorted row_lt rs /\
    forall k vals, In (mkRow k vals) rs <-> exists pk, pk_ok T pk /\ k = row_prefix T pk /\ visible maxTx (d pk) = Some vals.
Proof.
  intros HT Hh Hr Hd. destruct (scan_run T (catalog_schema_ok T HT) s n l d maxTx Hr Hd) as (s' & rs & Es & _ & Hs & Hin).
  exists rs. unfold load_from, bind, on_heap. rewrite Hh, Es. unfold scanned_rows. cbn [rows]. rewrite drain_from by lia.
  assert (omap id (map (fun r => Some (row_values r)) (drop (Z.to_nat (0 + 1)) rs)) = map row_values (tl rs)) as ->.
  { replace (drop (Z.to_nat (0 + 1)) rs) with (tl rs) by (by destruct rs). generalize (tl rs). clear.
    intros xs. induction xs as [|x xs IH]; [done|]. cbn. f_equal. exact IH. }
  destruct (load_rows f cc (map row_values (tl rs))) as [cc'|]; (eexists; split; [reflexivity|by split]).
Qed.
End start.
