(* ===== verification/Lifecycle.v ===== *)
(** [internal/lifecycle/lifecycle.go], [internal/runtime/runtime.go], [signals.go]: starting
    and stopping the parts of the server.

    The manager holds its lock only to look and to mark, not while a component starts or
    stops: [begin_start], [mark_started] and [begin_stop] are the locked parts, [Start] and
    [Stop] run them to the end, and [step] interleaves them with other calls.  A component
    works on the world [W] and may fail or panic. *)

From Stdlib Require Import ZArith Lia.
From Stdlib Require Strings.String.
From stdpp Require Import gmap list.
From S2P Require Import Prelude OrdMap Monad GoFmt.
Import String.StringSyntax.
Open Scope Z_scope.
Open Scope st_scope.

Inductive State := StateNew | StateStarting | StateStarted | StateStopping | StateStopped | StateFailed.

#[export] Instance State_eq_dec : EqDecision State.
Proof. solve_decision. Defined.

(** How a method of a component can go wrong. *)
Inductive failure (X : Type) : Type := Returned (e : X) | Panicked.
Arguments Returned {X} e. Arguments Panicked {X}.

Inductive life_err (X : Type) : Type :=
| ErrNilComponent | ErrEmptyComponentName | ErrAlreadyStarted | ErrDuplicateComponent | ErrInvalidState
| ErrStart (name : list byte) (why : failure X) | ErrStop (name : list byte) (why : failure X)
| ErrJoined (errs : list (life_err X)).
Arguments ErrNilComponent {X}. Arguments ErrEmptyComponentName {X}. Arguments ErrAlreadyStarted {X}.
Arguments ErrDuplicateComponent {X}. Arguments ErrInvalidState {X}. Arguments ErrStart {X} name why.
Arguments ErrStop {X} name why. Arguments ErrJoined {X} errs.

Section lifecycle.
Context {W X : Type}.

Record Component := mkComponent { c_Name : list byte; c_Start : st W (failure X) unit; c_Stop : st W (failure X) unit }.

Record Manager := mkManager {
  components : list Component; componentNames : gset (list byte); startedComponents : list Component; state : State }.

Definition NewManager : Manager := mkManager [] ∅ [] StateNew.

(** [None] is the nil receiver. *)
Definition manager_State (m : option Manager) : State := match m with None => StateFailed | Some m => state m end.

Definition with_state (s : State) (m : Manager) : Manager := mkManager (components m) (componentNames m) (startedComponents m) s.

Definition managed : Type -> Type := st Manager (life_err X).

Definition Register (component : option Component) : managed unit := fun m =>
  match component with
  | None => (Err ErrNilComponent, m)
  | Some c =>
      if bool_decide (c_Name c = []) then (Err ErrEmptyComponentName, m)
      else if negb (bool_decide (state m = StateNew)) then (Err ErrAlreadyStarted, m)
      else if bool_decide (c_Name c ∈ componentNames m) then (Err ErrDuplicateComponent, m)
      else (Ok tt, mkManager (components m ++ [c]) ({[c_Name c]} ∪ componentNames m) (startedComponents m) (state m))
  end.

(** * The locked parts *)

Definition begin_start : managed (list Component) := fun m =>
  if bool_decide (state m = StateNew) then (Ok (components m), with_state StateStarting m) else (Err ErrAlreadyStarted, m).

Definition mark_started (c : Component) (m : Manager) : Manager :=
  mkManager (components m) (componentNames m) (startedComponents m ++ [c]) (state m).

(** The components to stop, or that there is nothing to do. *)
Definition begin_stop : managed (option (list Component)) := fun m =>
  match state m with
  | StateNew => (Ok None, with_state StateStopped m)
  | StateStopped => (Ok None, m)
  | StateStarting | StateStopping => (Err ErrInvalidState, m)
  | StateStarted | StateFailed =>
      (Ok (Some (startedComponents m)), mkManager (components m) (componentNames m) [] StateStopping)
  end.

(** * Start and Stop *)

Definition startComponent (c : Component) : st W (life_err X) unit := fun w =>
  match c_Start c w with (Ok tt, w') => (Ok tt, w') | (Err e, w') => (Err (ErrStart (c_Name c) e), w') end.
Definition stopComponent (c : Component) : st W (life_err X) unit := fun w =>
  match c_Stop c w with (Ok tt, w') => (Ok tt, w') | (Err e, w') => (Err (ErrStop (c_Name c) e), w') end.

Fixpoint start_all (l : list Component) : st (Manager * W) (life_err X) unit := fun '(m, w) =>
  match l with
  | [] => (Ok tt, (with_state StateStarted m, w))
  | c :: l' =>
      match startComponent c w with
      | (Err e, w') => (Err e, (with_state StateFailed m, w'))
      | (Ok tt, w') => start_all l' (mark_started c m, w')
      end
  end.

Definition Start : st (Manager * W) (life_err X) unit := fun '(m, w) =>
  match begin_start m with
  | (Err e, m') => (Err e, (m', w))
  | (Ok cs, m') => start_all cs (m', w)
  end.

(** The loop from the last component to the first, with its errors. *)
Fixpoint stop_all (l : list Component) (errs : list (life_err X)) (w : W) : list (life_err X) * W :=
  match l with
  | [] => (errs, w)
  | c :: l' =>
      match stopComponent c w with
      | (Ok tt, w') => stop_all l' errs w'
      | (Err e, w') => stop_all l' (errs ++ [e]) w'
      end
  end.

(** [errors.Join] *)
Definition join (errs : list (life_err X)) : res (life_err X) unit := match errs with [] => Ok tt | _ => Err (ErrJoined errs) end.

Definition Stop : st (Manager * W) (life_err X) unit := fun '(m, w) =>
  match begin_stop m with
  | (Err e, m') => (Err e, (m', w))
  | (Ok None, m') => (Ok tt, (m', w))
  | (Ok (Some cs), m') =>
      let '(errs, w') := stop_all (rev cs) [] w in (join errs, (with_state StateStopped m', w'))
  end.

(** * The runtime *)

Record Options := mkOptions { ConfigPath : list byte; PortOverride : Z; StartupTimeout : Z; ShutdownTimeout : Z }.

Definition DefaultConfigPath : list byte := go_string "config.toml".
(** [30 * time.Second] *)
Definition DefaultStartupTimeout : Z := 30000000000.
Definition DefaultShutdownTimeout : Z := 30000000000.

Definition DefaultOptions : Options := mkOptions DefaultConfigPath 0 DefaultStartupTimeout DefaultShutdownTimeout.

Inductive runtime_err :=
| ErrInvalidOptions | ErrLoadConfig | ErrRegister (e : life_err X)
| ErrStartLifecycle (e : life_err X) | ErrStopLifecycle (timeout : bool) (e : life_err X).

Definition resolveOptions (opts : Options) : res runtime_err Options :=
  let config := if bool_decide (ConfigPath opts = []) then DefaultConfigPath else ConfigPath opts in
  let startup := if StartupTimeout opts =? 0 then DefaultStartupTimeout else StartupTimeout opts in
  if startup <? 0 then Err ErrInvalidOptions
  else
    let shutdown := if ShutdownTimeout opts =? 0 then DefaultShutdownTimeout else ShutdownTimeout opts in
    if shutdown <? 0 then Err ErrInvalidOptions else Ok (mkOptions config (PortOverride opts) startup shutdown).

Record Runtime := mkRuntime { rt_opts : Options; manager : Manager }.

(** The component of [New], in the order of dependency; the workers may be missing. *)
Record Parts := mkParts {
  sharedPager : Component; metricsPager : Component; logsPager : Component; retention : option Component;
  rollup : option Component; sharedKV : Component; catalogPart : Component; vacuumPart : Component; server : Component }.

Definition option_list {A} (o : option A) : list A := match o with Some a => [a] | None => [] end.

Definition parts (p : Parts) : list Component :=
  [sharedPager p; metricsPager p; logsPager p] ++ option_list (retention p) ++ option_list (rollup p) ++
  [sharedKV p; catalogPart p; vacuumPart p; server p].

Fixpoint register_all (l : list Component) (m : Manager) : res runtime_err Manager :=
  match l with
  | [] => Ok m
  | c :: l' => match Register (Some c) m with (Ok tt, m') => register_all l' m' | (Err e, _) => Err (ErrRegister e) end
  end.

(** [build] makes the components from the options and may fail. *)
Definition New (build : Options -> res runtime_err Parts) (opts : Options) : res runtime_err Runtime :=
  match resolveOptions opts with
  | Err e => Err e
  | Ok resolved =>
      match build resolved with
      | Err e => Err e
      | Ok p => match register_all (parts p) NewManager with Ok m => Ok (mkRuntime resolved m) | Err e => Err e end
      end
  end.

(** What the world does besides the components: a context ends, and whether it ended
    because its deadline passed. *)
Class Contexts := { cancel : W -> W; deadline_exceeded : W -> bool }.
Context `{Contexts}.

(** The context of the start ends when [Start] returns. *)
Definition runtime_Start (r : Runtime) (w : W) : res runtime_err unit * (Runtime * W) :=
  let '(res, (m, w')) := Start (manager r, w) in
  (match res with Ok tt => Ok tt | Err e => Err (ErrStartLifecycle e) end, (mkRuntime (rt_opts r) m, cancel w')).

Definition runtime_Stop (r : Runtime) (w : W) : res runtime_err unit * (Runtime * W) :=
  let '(res, (m, w')) := Stop (manager r, w) in
  (match res with Ok tt => Ok tt | Err e => Err (ErrStopLifecycle (deadline_exceeded w') e) end, (mkRuntime (rt_opts r) m, cancel w')).

Definition runtime_State (r : option Runtime) : State := match r with None => StateFailed | Some r => manager_State (Some (manager r)) end.

Definition Run (build : Options -> res runtime_err Parts) (opts : Options) (w : W) : res runtime_err unit * W :=
  match New build opts with
  | Err e => (Err e, w)
  | Ok rt =>
      match runtime_Start rt w with
      | (Err e, (rt', w')) => (Err e, snd (snd (runtime_Stop rt' w')))
      | (Ok tt, (rt', w')) => let '(res, (_, w'')) := runtime_Stop rt' w' in (res, w'')
      end
  end.

(** [RunWithSignals] with a context that ends at a signal, which nothing looks at. *)
Definition RunWithSignals (build : Options -> res runtime_err Parts) (opts : Options) (w : W) : res runtime_err unit * W :=
  let '(res, w') := Run build opts w in (res, cancel w').
End lifecycle.

Arguments Component : clear implicits. Arguments Manager : clear implicits. Arguments Runtime : clear implicits.
Arguments Parts : clear implicits. Arguments runtime_err : clear implicits. Arguments Contexts : clear implicits.

(** * Interleaved calls *)

Section interleaving.
Context {W X : Type}.
Notation Component := (Component W X).
Notation Manager := (Manager W X).

Inductive life_event := Started (c : Component) | StartFailed (c : Component) | Stopped (c : Component).

(** The manager with a call of Start and a call of Stop under way, and what happened. *)
Record config := mkConfig {
  cm : Manager; starter : option (list Component); stopper : option (list Component); log : list life_event }.

(** A locked part of a call, or a component that starts or stops meanwhile. *)
Inductive step : config -> config -> Prop :=
| step_register m o m' r a b l : Register o m = (r, m') -> step (mkConfig m a b l) (mkConfig m' a b l)
| step_start m cs m' b l : begin_start m = (Ok cs, m') -> step (mkConfig m None b l) (mkConfig m' (Some cs) b l)
| step_start_refused m e m' a b l : begin_start m = (Err e, m') -> step (mkConfig m a b l) (mkConfig m' a b l)
| step_started m c cs b l :
    step (mkConfig m (Some (c :: cs)) b l) (mkConfig (mark_started c m) (Some cs) b (l ++ [Started c]))
| step_start_failed m c cs b l :
    step (mkConfig m (Some (c :: cs)) b l) (mkConfig (with_state StateFailed m) None b (l ++ [StartFailed c]))
| step_start_done m b l : step (mkConfig m (Some []) b l) (mkConfig (with_state StateStarted m) None b l)
| step_stop m cs m' a l : begin_stop m = (Ok (Some cs), m') -> step (mkConfig m a None l) (mkConfig m' a (Some (rev cs)) l)
| step_stop_nothing m m' a b l : begin_stop m = (Ok None, m') -> step (mkConfig m a b l) (mkConfig m' a b l)
| step_stop_refused m e m' a b l : begin_stop m = (Err e, m') -> step (mkConfig m a b l) (mkConfig m' a b l)
| step_stopped m c cs a l :
    step (mkConfig m a (Some (c :: cs)) l) (mkConfig m a (Some cs) (l ++ [Stopped c]))
| step_stop_done m a l : step (mkConfig m a (Some []) l) (mkConfig (with_state StateStopped m) a None l).

Inductive reachable : config -> Prop :=
| reachable_new : reachable (mkConfig NewManager None None [])
| reachable_step c c' : reachable c -> step c c' -> reachable c'.

Definition started_of (l : list life_event) : list Component := omap (fun e => match e with Started c => Some c | _ => None end) l.
Definition stopped_of (l : list life_event) : list Component := omap (fun e => match e with Stopped c => Some c | _ => None end) l.

(** What is under way in each state. *)
Definition phase (g : config) : Prop :=
  match state (cm g) with
  | StateNew => starter g = None /\ stopper g = None /\ log g = [] /\ startedComponents (cm g) = []
  | StateStarting => exists rest, starter g = Some rest /\ stopper g = None /\ stopped_of (log g) = [] /\
      startedComponents (cm g) = started_of (log g) /\ components (cm g) = started_of (log g) ++ rest
  | StateStarted => starter g = None /\ stopper g = None /\ stopped_of (log g) = [] /\
      startedComponents (cm g) = started_of (log g) /\ components (cm g) = started_of (log g)
  | StateFailed => starter g = None /\ stopper g = None /\ stopped_of (log g) = [] /\
      startedComponents (cm g) = started_of (log g) /\ (exists rest, components (cm g) = started_of (log g) ++ rest)
  | StateStopping => exists rest, starter g = None /\ stopper g = Some rest /\
      rev (started_of (log g)) = stopped_of (log g) ++ rest /\ (exists rest, components (cm g) = started_of (log g) ++ rest)
  | StateStopped => starter g = None /\ stopper g = None /\
      stopped_of (log g) = rev (started_of (log g)) /\ (exists rest, components (cm g) = started_of (log g) ++ rest)
  end.

Definition registered (m : Manager) : Prop :=
  NoDup (map c_Name (components m)) /\ componentNames m = list_to_set (map c_Name (components m)) /\ [] ∉ map c_Name (components m).

Lemma register_keeps o m r m' :
  Register o m = (r, m') -> registered m ->
  registered m' /\ state m' = state m /\ startedComponents m' = startedComponents m /\
  (state m <> StateNew -> components m' = components m).
Proof.
  unfold Register. destruct o as [c|]; [|by intros [= <- <-]].
  case_bool_decide as Hn; [by intros [= <- <-]|]. destruct (bool_decide_reflect (state m = StateNew)) as [Hs|Hs]; cbn [negb]; [|by intros [= <- <-]].
  case_bool_decide as Hd; [by intros [= <- <-]|]. intros [= <- <-] (Hnd & Hset & He). cbn. split_and!; [|done..].
  unfold registered. cbn. rewrite map_app. cbn. rewrite Hset in Hd. split_and!.
  - apply NoDup_app. split; [done|]. split; [|apply NoDup_singleton]. intros x Hx ->%list_elem_of_singleton.
    apply Hd. by apply elem_of_list_to_set.
  - rewrite list_to_set_app_L, Hset. set_solver.
  - rewrite elem_of_app, list_elem_of_singleton. intros [?|?]; [done|]. congruence.
Qed.

Lemma started_snoc l e : started_of (l ++ [e]) = started_of l ++ match e with Started c => [c] | _ => [] end.
Proof. unfold started_of. rewrite omap_app. by destruct e. Qed.
Lemma stopped_snoc l e : stopped_of (l ++ [e]) = stopped_of l ++ match e with Stopped c => [c] | _ => [] end.
Proof. unfold stopped_of. rewrite omap_app. by destruct e. Qed.

Lemma step_phase g g' : step g g' -> registered (cm g) /\ phase g -> registered (cm g') /\ phase g'.
Proof.
  intros Hst [Hreg Hph]. destruct Hst as
    [m o m' r a b l Hr|m cs m' b l Hs|m e m' a b l Hs|m c cs b l|m c cs b l|m b l|m cs m' a l Hs|m m' a b l Hs|m e m' a b l Hs|m c cs a l|m a l];
    cbn [cm] in *; unfold phase in *; cbn [cm starter stopper log] in *.
  - destruct (register_keeps o m r m' Hr Hreg) as (Hreg' & -> & -> & Hc). split; [done|].
    destruct (state m) eqn:Es; [done|by rewrite Hc..].
  - unfold begin_start in Hs. case_bool_decide as Es; [|done]. injection Hs as <- <-. split; [done|]. cbn. rewrite Es in Hph.
    destruct Hph as (_ & -> & -> & Hst). exists (components m). by rewrite Hst.
  - unfold begin_start in Hs. case_bool_decide; [done|]. by injection Hs as _ <-.
  - cbn. split; [done|]. destruct (state m) eqn:Es; try (destruct Hph as (? & _); done); try (destruct Hph as (? & ? & _); done).
    destruct Hph as (rest & [= <-] & -> & Hso & Hst & Hc). exists cs. rewrite started_snoc, stopped_snoc, app_nil_r, Hst, <- app_assoc. done.
  - cbn. split; [done|]. destruct (state m) eqn:Es; try (destruct Hph as (? & _); done); try (destruct Hph as (? & ? & _); done).
    destruct Hph as (rest & [= <-] & -> & Hso & Hst & Hc). rewrite started_snoc, stopped_snoc, !app_nil_r. split_and!; try done. by eexists.
  - cbn. split; [done|]. destruct (state m) eqn:Es; try (destruct Hph as (? & _); done); try (destruct Hph as (? & ? & _); done).
    destruct Hph as (rest & [= <-] & -> & Hso & Hst & Hc). rewrite app_nil_r in Hc. done.
  - unfold begin_stop in Hs. destruct (state m) eqn:Es; try done; injection Hs as <- <-; cbn; (split; [done|]).
    + destruct Hph as (-> & _ & Hso & Hst & Hc). exists (rev (startedComponents m)). rewrite Hso, Hst. split_and!; try done.
      exists []. by rewrite app_nil_r.
    + destruct Hph as (-> & _ & Hso & Hst & Hc). exists (rev (startedComponents m)). rewrite Hso, Hst. done.
  - unfold begin_stop in Hs. destruct (state m) eqn:Es; try done; injection Hs as <-; [|by rewrite Es]. cbn. split; [done|].
    destruct Hph as (-> & -> & -> & Hst). split_and!; try done. by exists (components m).
  - unfold begin_stop in Hs. destruct (state m) eqn:Es; try done; injection Hs as _ <-; by rewrite Es.
  - split; [done|]. destruct (state m) eqn:Es; try (destruct Hph as (? & ? & _); done); try (destruct Hph as (? & ? & ? & _); done).
    destruct Hph as (rest & -> & [= <-] & Hso & Hc). exists cs. rewrite started_snoc, stopped_snoc, app_nil_r, <- app_assoc. done.
  - cbn. split; [done|]. destruct (state m) eqn:Es; try (destruct Hph as (? & ? & _); done); try (destruct Hph as (? & ? & ? & _); done).
    destruct Hph as (rest & -> & [= <-] & Hso & Hc). rewrite app_nil_r in Hso. done.
Qed.

(** C10: However the calls of Register, Start and Stop interleave, components start in the
    order they were registered and stop in the reverse order of their start, each at most
    once and only if its start succeeded; when the manager is stopped, every component that
    was started has been stopped.  No two components have the same name. *)
Theorem lifecycle_order g :
  reachable g ->
  NoDup (map c_Name (components (cm g))) /\
  (exists rest, components (cm g) = started_of (log g) ++ rest) /\
  (exists rest, rev (started_of (log g)) = stopped_of (log g) ++ rest) /\
  (stopped_of (log g) <> [] -> state (cm g) = StateStopping \/ state (cm g) = StateStopped) /\
  (state (cm g) = StateStopped -> stopped_of (log g) = rev (started_of (log g))).
Proof.
  intros Hr. assert (registered (cm g) /\ phase g) as [(Hnd & _) Hph].
  { induction Hr as [|g g' _ IH Hs]; [|by eapply step_phase]. split; [|done]. split_and!; [constructor|done|]. set_solver. }
  split; [done|]. unfold phase in Hph. destruct (state (cm g)).
  - destruct Hph as (_ & _ & -> & _). split_and!; [by exists (components (cm g))|by exists []|done|done].
  - destruct Hph as (rest & _ & _ & -> & _ & ->). split_and!; [by exists rest|by eexists|done|done].
  - destruct Hph as (_ & _ & -> & _ & ->). split_and!; [by exists []; rewrite app_nil_r|by eexists|done|done].
  - destruct Hph as (rest & _ & _ & -> & Hc). split_and!; [done|by exists rest|by left|done].
  - destruct Hph as (_ & _ & -> & Hc). split_and!; [done|exists []; by rewrite app_nil_r|by right|done].
  - destruct Hph as (_ & _ & -> & _ & Hc). split_and!; [done|by eexists|done|done].
Qed.
End interleaving.

(** * What the production entry point does *)

Section entry_point.
Context {X : Type}.

(** The world is what happened: a component starts, stops, a context ends. *)
Inductive event := EStart (name : list byte) | EStop (name : list byte) | ECancel.

#[export] Instance event_contexts : Contexts (list event) := {| cancel w := w ++ [ECancel]; deadline_exceeded _ := false |}.

(** A component that answers as it is told, and is seen. *)
Definition seen (name : list byte) (start stop : res (failure X) unit) : Component (list event) X :=
  mkComponent name (fun w => (start, w ++ [EStart name])) (fun w => (stop, w ++ [EStop name])).

Definition visible (c : Component (list event) X) : Prop :=
  forall w, c_Start c w = (fst (c_Start c []), w ++ [EStart (c_Name c)]) /\ c_Stop c w = (fst (c_Stop c []), w ++ [EStop (c_Name c)]).

Definition starts (c : Component (list event) X) : Prop := fst (c_Start c []) = Ok tt.

Lemma start_all_ok l m w :
  Forall visible l -> Forall starts l ->
  start_all l (m, w) = (Ok tt, (mkManager (components m) (componentNames m) (startedComponents m ++ l) StateStarted,
    w ++ map (fun c => EStart (c_Name c)) l)).
Proof.
  revert m w. induction l as [|c l IH]; intros m w Hv Hs; cbn [start_all].
  { cbn [map]. by rewrite !app_nil_r. }
  inversion Hv as [|? ? Hvc Hvl]; inversion Hs as [|? ? Hsc Hsl]; subst.
  unfold startComponent. rewrite (proj1 (Hvc w)), Hsc, IH by done. cbn. by rewrite <- !app_assoc.
Qed.

Lemma stop_all_seen l errs w :
  Forall visible l -> exists errs', stop_all l errs w = (errs ++ errs', w ++ map (fun c => EStop (c_Name c)) l).
Proof.
  revert errs w. induction l as [|c l IH]; intros errs w Hv; cbn [stop_all].
  { exists []. cbn [map]. by rewrite !app_nil_r. }
  inversion Hv as [|? ? Hvc Hvl]; subst. unfold stopComponent. rewrite (proj2 (Hvc w)).
  destruct (fst (c_Stop c [])) as [[]|e].
  - destruct (IH errs (w ++ [EStop (c_Name c)]) Hvl) as [errs' ->]. exists errs'. cbn. by rewrite <- app_assoc.
  - destruct (IH (errs ++ [ErrStop (c_Name c) e]) (w ++ [EStop (c_Name c)]) Hvl) as [errs' ->]. exists (ErrStop (c_Name c) e :: errs').
    cbn. by rewrite <- !app_assoc.
Qed.

Lemma register_all_ok (l : list (Component (list event) X)) m :
  state m = StateNew -> NoDup (map c_Name l) -> [] ∉ map c_Name l -> (forall n, n ∈ map c_Name l -> n ∉ componentNames m) ->
  exists m', register_all l m = Ok m' /\ components m' = components m ++ l /\ state m' = StateNew /\
    startedComponents m' = startedComponents m.
Proof.
  revert m. induction l as [|c l IH]; intros m Hs Hnd He Hn; cbn [register_all].
  { exists m. by rewrite app_nil_r. }
  cbn in *. apply NoDup_cons in Hnd as [Hc Hnd]. apply not_elem_of_cons in He as [Hc0 He].
  rewrite bool_decide_eq_false_2 by congruence. rewrite Hs. cbn [negb bool_decide]. rewrite bool_decide_eq_true_2 by done. cbn [negb].
  rewrite bool_decide_eq_false_2 by (apply Hn; by left).
  destruct (IH (mkManager (components m ++ [c]) ({[c_Name c]} ∪ componentNames m) (startedComponents m) StateNew)) as (m' & -> & Hc' & ?);
    [done..| |].
  { cbn. intros n Hin. rewrite not_elem_of_union, not_elem_of_singleton. split; [by intros ->|apply Hn; by right]. }
  exists m'. split; [done|]. rewrite Hc'. cbn. by rewrite <- app_assoc.
Qed.

(** C35: The production entry point starts every part of the server in order and, when all
    have started, goes on to stop them all in reverse order: nothing waits in between for a
    signal or for the server.  The context given to the parts at their start ends before
    the first of them is stopped. *)
Theorem run_stops_at_once (build : Options -> res (runtime_err X) (Parts (list event) X)) opts resolved p :
  resolveOptions (X:=X) opts = Ok resolved -> build resolved = Ok p ->
  NoDup (map c_Name (parts p)) -> [] ∉ map c_Name (parts p) -> Forall visible (parts p) -> Forall starts (parts p) ->
  exists r, RunWithSignals build opts [] = (r,
    map (fun c => EStart (c_Name c)) (parts p) ++ [ECancel] ++ map (fun c => EStop (c_Name c)) (rev (parts p)) ++ [ECancel; ECancel]).
Proof.
  intros Ho Hb. unfold RunWithSignals, Run, New. rewrite Ho, Hb. generalize (parts p). intros l Hnd He Hv Hs.
  destruct (register_all_ok l NewManager eq_refl Hnd He) as (m & -> & Hc & Hm & Hst); [set_solver|].
  cbn in Hc, Hst. unfold runtime_Start, Start, begin_start. cbn [manager]. rewrite bool_decide_eq_true_2 by done. cbn iota zeta.
  rewrite Hc, start_all_ok by done. cbn. unfold runtime_Stop, Stop, begin_stop. cbn [manager state]. rewrite Hst. cbn [startedComponents with_state app manager].
  destruct (stop_all_seen (rev l) [] (map (fun c => EStart (c_Name c)) l ++ [ECancel])) as [errs' ->].
  { by apply Forall_rev. }
  cbn. eexists. f_equal. by rewrite <- !app_assoc.
Qed.
End entry_point.
