(* ===== verification/Router.v ===== *)
(** [internal/router/router.go]: statements to engines.

    The router asks the catalog for the tables of a statement and for the permission of
    the user, and hands the statement to the engine of the tables.  Engines and catalog
    share the state [G]; the catalog is the interface [RouterCatalog], which the catalog
    of [Catalog.v] implements. *)

From Stdlib Require Import ZArith Lia.
From Stdlib Require Strings.String.
From stdpp Require Import gmap.
From S2P Require Import Prelude OrdMap Key KvNode Monad KvSpec GoRuntime HeapValue Heap GoFmt Nodes Binder Translate.
From S2P Require Import Logs SqlEngine Catalog CatalogProof.
Import String.StringSyntax.
Open Scope Z_scope.
Open Scope st_scope.

Inductive router_err (X : Type) : Type :=
| ErrCrossEngineJoinNotSupported | ErrRouterEngineNotFound | ErrPermissionDenied | ErrUnsupportedStatement
| ErrNoTargetTable | ErrNoDefaultEngine | ErrBelow (e : X).
Arguments ErrCrossEngineJoinNotSupported {X}. Arguments ErrRouterEngineNotFound {X}. Arguments ErrPermissionDenied {X}.
Arguments ErrUnsupportedStatement {X}. Arguments ErrNoTargetTable {X}. Arguments ErrNoDefaultEngine {X}. Arguments ErrBelow {X} e.

(** What the router asks the catalog for, and when an error of it is [ErrTableNotFound]. *)
Class RouterCatalog (G X : Type) := {
  rc_GetTable : list byte -> st G X TableInfo;
  rc_CreateTable : list byte -> list byte -> list byte -> st G X unit;
  rc_CheckPermission : Z -> Z -> Action -> st G X bool;
  rc_table_not_found : X -> bool }.

(** Looking and checking changes nothing. *)
Class RouterCatalogLaws (G X : Type) `{RouterCatalog G X} := {
  rc_get_pure name g : snd (rc_GetTable name g) = g;
  rc_check_pure user table action g : snd (rc_CheckPermission user table action g) = g }.

(** ["name"] *)
Definition quoted (s : list byte) : list byte := x22 :: s ++ [x22].

(** [[{"name":...,"type":...},...]] *)
Definition schema_column (c : list byte * list byte) : list byte :=
  go_string "{" ++ quoted (go_string "name") ++ go_string ":" ++ quoted c.1 ++ go_string "," ++
  quoted (go_string "type") ++ go_string ":" ++ quoted c.2 ++ go_string "}".
Fixpoint comma_separated (l : list (list byte)) : list byte :=
  match l with [] => [] | [x] => x | x :: l' => x ++ go_string "," ++ comma_separated l' end.
Definition schema_json (cols : list (list byte * list byte)) : list byte :=
  go_string "[" ++ comma_separated (map schema_column cols) ++ go_string "]".

Definition defaultLogsSchema : list byte := schema_json
  [(go_string "time", go_string "int64"); (go_string "severity", go_string "string");
   (go_string "attributes", go_string "string"); (go_string "body", go_string "string")].
Definition defaultMetricsSchema : list byte := schema_json
  [(go_string "time", go_string "int64"); (go_string "tags", go_string "string");
   (go_string "metric_name", go_string "string"); (go_string "value", go_string "float64")].

Definition resolveAutoTable `{GoText} (tableName : list byte) : list byte * list byte :=
  if Contains (ToLower tableName) (go_string "log") then (go_string "logs", defaultLogsSchema)
  else (go_string "metrics", defaultMetricsSchema).

Section router.
Context {G X R : Type} `{RouterCatalog G X} `{GoText}.

Definition routed : Type -> Type := st G (router_err X).

(** An engine is its [Execute]. *)
Record Router := mkRouter { engines : gmap (list byte) (request -> st G X R); defaultEngine : list byte }.

Definition New : Router := mkRouter ∅ [].

Definition RegisterEngine (name : list byte) (execute : request -> st G X R) (r : Router) : Router :=
  mkRouter (<[name := execute]> (engines r)) (if bool_decide (defaultEngine r = []) then name else defaultEngine r).

Definition below {A} (op : st G X A) : routed A := fun g =>
  match op g with (Ok a, g') => (Ok a, g') | (Err e, g') => (Err (ErrBelow e), g') end.

Section route.
Context (r : Router) (userID : Z) (stmt : sql_stmt) (fingerprint : list byte).

(** [r.engines[name].Execute(ctx, &engine.Request{...})] *)
Definition dispatch (name : list byte) : routed R :=
  match engines r !! name with
  | None => fail ErrRouterEngineNotFound
  | Some execute => below (execute (mkRequest stmt fingerprint userID (mkTx 0 0) false))
  end.

Definition require_permission (info : TableInfo) (action : Action) : routed unit :=
  ok <- below (rc_CheckPermission userID (ti_TableID info) action) ;;
  if ok : bool then ret tt else fail ErrPermissionDenied.

(** The loop over the tables, with [targetEngine]. *)
Fixpoint select_engine (targetEngine : list byte) (tables : list (list byte)) : routed (list byte) :=
  match tables with
  | [] => ret targetEngine
  | tableName :: tables' =>
      info <- below (rc_GetTable tableName) ;;
      require_permission info ActionRead ;;;
      if bool_decide (targetEngine = []) then select_engine (EngineName info) tables'
      else if bool_decide (targetEngine = EngineName info) then select_engine targetEngine tables'
      else fail ErrCrossEngineJoinNotSupported
  end.

Definition routeSelect (tables : list (list byte)) : routed R :=
  match tables with
  | [] => fail ErrNoTargetTable
  | _ => targetEngine <- select_engine [] tables ;; dispatch targetEngine
  end.

Definition routeDDL : routed R :=
  if bool_decide (defaultEngine r = []) then fail ErrNoDefaultEngine else dispatch (defaultEngine r).

(** The table, made when there is none. *)
Definition get_or_create (tableName : list byte) : routed TableInfo := fun g =>
  match rc_GetTable tableName g with
  | (Ok info, g') => (Ok info, g')
  | (Err e, g') =>
      if rc_table_not_found e then
        let '(engineName, schemaJSON) := resolveAutoTable tableName in
        (below (rc_CreateTable engineName tableName schemaJSON) ;;; below (rc_GetTable tableName)) g'
      else (Err (ErrBelow e), g')
  end.

Definition routeInsert (insert : option insert_stmt) : routed R :=
  match insert with
  | None => fail ErrUnsupportedStatement
  | Some insert =>
      if bool_decide (ins_Table insert = []) then fail ErrNoTargetTable
      else
        info <- get_or_create (ins_Table insert) ;;
        require_permission info ActionWrite ;;;
        dispatch (EngineName info)
  end.

Definition extractFromTableExprs (exprs : list table_expr) : res (router_err X) (list byte) :=
  match exprs with
  | [AliasedTableExpr name] => if bool_decide (name = []) then Err ErrNoTargetTable else Ok name
  | _ => Err ErrUnsupportedStatement
  end.

Definition extractUpdateDeleteTableName : res (router_err X) (list byte) :=
  match stmt with
  | StmtUpdate (Some upd) => extractFromTableExprs (upd_TableExprs upd)
  | StmtDelete (Some del) => extractFromTableExprs (del_TableExprs del)
  | _ => Err ErrUnsupportedStatement
  end.

Definition routeUpdateDelete : routed R :=
  tableName <- lift extractUpdateDeleteTableName ;;
  info <- below (rc_GetTable tableName) ;;
  require_permission info ActionWrite ;;;
  dispatch (EngineName info).

Definition Route : routed R :=
  match stmt with
  | StmtSelect s => routeSelect (TargetTables s)
  | StmtDDL _ => routeDDL
  | StmtInsert insert => routeInsert insert
  | StmtUpdate _ | StmtDelete _ => routeUpdateDelete
  | StmtUnknown => fail ErrUnsupportedStatement
  end.
End route.

(** * What is executed is permitted *)

Context `{!RouterCatalogLaws G X}.

(** The user may do [action] on the table, which is of the engine. *)
Definition may (userID : Z) (action : Action) (engine tableName : list byte) (g : G) : Prop :=
  exists info, fst (rc_GetTable tableName g) = Ok info /\ EngineName info = engine /\
    fst (rc_CheckPermission userID (ti_TableID info) action g) = Ok true.

Lemma get_same name g : rc_GetTable name g = (fst (rc_GetTable name g), g).
Proof. rewrite <- (rc_get_pure name g) at 3. apply surjective_pairing. Qed.

Lemma check_same user table action g :
  rc_CheckPermission user table action g = (fst (rc_CheckPermission user table action g), g).
Proof. rewrite <- (rc_check_pure user table action g) at 3. apply surjective_pairing. Qed.

(** A check returns and leaves the state as it was, or fails there. *)
Lemma require_run userID info action g :
  (require_permission userID info action g = (Ok tt, g) /\ fst (rc_CheckPermission userID (ti_TableID info) action g) = Ok true) \/
  (exists e, require_permission userID info action g = (Err e, g)).
Proof.
  unfold require_permission, bind, below. rewrite check_same.
  destruct (fst (rc_CheckPermission _ _ _ g)) as [[]|e]; [by left|right; by eexists..].
Qed.

Lemma get_bind {A} t (k : TableInfo -> routed A) g :
  bind (below (rc_GetTable t)) k g = match fst (rc_GetTable t g) with Ok info => k info g | Err e => (Err (ErrBelow e), g) end.
Proof. unfold bind, below. rewrite get_same. by destruct (fst (rc_GetTable t g)). Qed.

Lemma require_bind {A} userID info action (k : unit -> routed A) g :
  (bind (require_permission userID info action) k g = k tt g /\
     fst (rc_CheckPermission userID (ti_TableID info) action g) = Ok true) \/
  (exists e, bind (require_permission userID info action) k g = (Err e, g)).
Proof.
  unfold bind. destruct (require_run userID info action g) as [[-> Hc]|[e ->]]; [by left|right; by exists e].
Qed.

(** Every table has an engine. *)
Definition tables_named (g : G) : Prop := forall t info, fst (rc_GetTable t g) = Ok info -> EngineName info <> [].

Lemma select_engine_run userID tables targetEngine g :
  tables_named g ->
  (exists engine, select_engine userID targetEngine tables g = (Ok engine, g) /\
     (targetEngine <> [] -> engine = targetEngine) /\
     (forall t, t ∈ tables -> may userID ActionRead engine t g)) \/
  (exists e, select_engine userID targetEngine tables g = (Err e, g)).
Proof.
  intros Hn. revert targetEngine. induction tables as [|t tables IH]; intros targetEngine; cbn [select_engine].
  { left. exists targetEngine. split_and!; [done|done|]. intros t Ht. by apply not_elem_of_nil in Ht. }
  rewrite !get_bind. destruct (fst (rc_GetTable t g)) as [info|e] eqn:Eg; [|right; by eexists].
  cbn beta.
  match goal with |- context [bind (require_permission userID info ActionRead) ?k g] =>
    destruct (require_bind userID info ActionRead k g) as [[E1 Hc]|[e E1]]; rewrite !E1; [|right; by eexists] end.
  cbn beta.
  assert (forall engine, engine = EngineName info ->
    (forall t', t' ∈ tables -> may userID ActionRead engine t' g) ->
    forall t', t' ∈ t :: tables -> may userID ActionRead engine t' g) as Hcons.
  { intros engine -> Ht t' [->|Hin]%elem_of_cons; [|by apply Ht]. by exists info. }
  destruct (bool_decide_reflect (targetEngine = [])) as [->|Hne].
  - destruct (IH (EngineName info)) as [(engine & E0 & He & Ht)|[e E0]]; rewrite E0; [left|right; by eexists].
    exists engine. split_and!; [done|done|]. apply Hcons; [by eapply He, Hn|done].
  - case_bool_decide as He; [|right; by eexists].
    destruct (IH targetEngine) as [(engine & E0 & He' & Ht)|[e E0]]; rewrite E0; [left|right; by eexists].
    exists engine. split_and!; [done|by apply He'|]. apply Hcons; [by rewrite (He' Hne)|done].
Qed.

(** The tables a statement selects rows from, with those of the SELECT of an INSERT, and the
    tables it changes. *)
Definition reads (stmt : sql_stmt) : list (list byte) :=
  match stmt with
  | StmtSelect s => TargetTables s
  | StmtInsert (Some insert) => match ins_Rows insert with SelectRows (Some s) => TargetTables s | _ => [] end
  | _ => []
  end.
Definition writes (stmt : sql_stmt) : list (list byte) :=
  match stmt with
  | StmtSelect _ => []
  | StmtInsert (Some insert) => [ins_Table insert]
  | _ => match extractUpdateDeleteTableName stmt with Ok t => [t] | Err _ => [] end
  end.
Definition inserts_selected (stmt : sql_stmt) : bool :=
  match stmt with StmtInsert (Some insert) => match ins_Rows insert with SelectRows _ => true | Values _ => false end | _ => false end.

(** The tables that the router checks, with the action it checks. *)
Definition checked (stmt : sql_stmt) : list (list byte) * Action :=
  match stmt with
  | StmtSelect s => (TargetTables s, ActionRead)
  | StmtInsert (Some insert) => ([ins_Table insert], ActionWrite)
  | _ => (match extractUpdateDeleteTableName stmt with Ok t => [t] | Err _ => [] end, ActionWrite)
  end.

Definition is_data (stmt : sql_stmt) : bool := match stmt with StmtDDL _ | StmtUnknown => false | _ => true end.

Lemma get_or_create_run t g :
  match get_or_create t g with
  | (Ok info, g') => fst (rc_GetTable t g') = Ok info /\
      (g' = g \/ rc_CreateTable (fst (resolveAutoTable t)) t (snd (resolveAutoTable t)) g = (Ok tt, g'))
  | (Err _, g') => g' = g \/ g' = snd (rc_CreateTable (fst (resolveAutoTable t)) t (snd (resolveAutoTable t)) g)
  end.
Proof.
  unfold get_or_create. rewrite get_same. destruct (fst (rc_GetTable t g)) as [info|e] eqn:Eg; [by auto|].
  destruct (rc_table_not_found e); [|by left]. destruct (resolveAutoTable t) as [en sj]. cbn [fst snd].
  unfold bind, below. destruct (rc_CreateTable en t sj g) as [[[]|e'] g1] eqn:Ec; [|by right].
  rewrite get_same. destruct (fst (rc_GetTable t g1)) as [info|e'] eqn:Eg1; [by auto|by right].
Qed.

Lemma route_run r userID stmt fp g res g' :
  is_data stmt = true -> tables_named g ->
  Route r userID stmt fp g = (res, g') ->
  (exists engine execute g1, engines r !! engine = Some execute /\
     below (execute (mkRequest stmt fp userID (mkTx 0 0) false)) g1 = (res, g') /\
     (checked stmt).1 <> [] /\ (forall t, t ∈ (checked stmt).1 -> may userID (checked stmt).2 engine t g1) /\
     (g1 = g \/ exists insert, stmt = StmtInsert (Some insert) /\
        rc_CreateTable (fst (resolveAutoTable (ins_Table insert))) (ins_Table insert) (snd (resolveAutoTable (ins_Table insert))) g = (Ok tt, g1))) \/
  ((exists e, res = Err e) /\ (g' = g \/ exists insert, stmt = StmtInsert (Some insert) /\
     g' = snd (rc_CreateTable (fst (resolveAutoTable (ins_Table insert))) (ins_Table insert) (snd (resolveAutoTable (ins_Table insert))) g))).
Proof.
  intros Hd Hn HR.
  assert (forall info t g1 g2 res, fst (rc_GetTable t g1) = Ok info ->
    (require_permission userID info ActionWrite ;;; dispatch r userID stmt fp (EngineName info)) g1 = (res, g2) ->
    (exists engine execute, engines r !! engine = Some execute /\
       below (execute (mkRequest stmt fp userID (mkTx 0 0) false)) g1 = (res, g2) /\ may userID ActionWrite engine t g1) \/
    ((exists e, res = Err e) /\ g2 = g1)) as Hwrite.
  { intros info t g1 g2 res' Hg. 
    destruct (require_bind userID info ActionWrite (fun _ => dispatch r userID stmt fp (EngineName info)) g1) as [[-> Hc]|[e ->]];
      [|intros [= <- <-]; right; split; [by eexists|done]].
    unfold dispatch. destruct (engines r !! EngineName info) as [execute|] eqn:Ee;
      [|intros [= <- <-]; right; split; [by eexists|done]].
    intros He. left. exists (EngineName info), execute. split_and!; [done|done|]. by exists info. }
  assert (forall tn, extractUpdateDeleteTableName stmt = tn -> routeUpdateDelete r userID stmt fp g = (res, g') ->
    (exists engine execute, engines r !! engine = Some execute /\
       below (execute (mkRequest stmt fp userID (mkTx 0 0) false)) g = (res, g') /\
       exists t, tn = Ok t /\ may userID ActionWrite engine t g) \/ ((exists e, res = Err e) /\ g' = g)) as Hud.
  { intros tn Htn. unfold routeUpdateDelete. rewrite Htn. unfold bind at 1, lift. destruct tn as [t|e];
      [|intros [= <- <-]; right; split; [by eexists|done]].
    rewrite get_bind. destruct (fst (rc_GetTable t g)) as [info|e] eqn:Eg;
      [|intros [= <- <-]; right; split; [by eexists|done]].
    intros Hr. destruct (Hwrite info t g g' res Eg Hr) as [(en & ex & ? & ? & ?)|?]; [left|by right].
    exists en, ex. split_and!; [done|done|]. by exists t. }
  assert (is_data stmt = true -> (exists t, extractUpdateDeleteTableName stmt = Ok t) -> checked stmt = (match extractUpdateDeleteTableName stmt with Ok t => [t] | Err _ => [] end, ActionWrite)) as Hacc.
  { intros _ [t Ht]. by destruct stmt as [|[]| | | |]. }
  assert (routeUpdateDelete r userID stmt fp g = (res, g') ->
    (exists engine execute g1, engines r !! engine = Some execute /\
       below (execute (mkRequest stmt fp userID (mkTx 0 0) false)) g1 = (res, g') /\
       (checked stmt).1 <> [] /\ (forall t, t ∈ (checked stmt).1 -> may userID (checked stmt).2 engine t g1) /\ g1 = g) \/
    ((exists e, res = Err e) /\ g' = g)) as Hud'.
  { intros Hr. destruct (Hud _ eq_refl Hr) as [(en & ex & ? & ? & t & Ht & Hm)|?]; [left|by right].
    rewrite Hacc by (try done; by exists t). rewrite Ht. exists en, ex, g. split_and!; try done.
    intros t' Ht'%list_elem_of_singleton. by subst. }
  unfold Route in HR. destruct stmt as [s|insert|upd|del|d|]; try done.
  - unfold routeSelect in HR. cbn [checked fst snd]. destruct (TargetTables s) as [|t0 ts] eqn:Et;
      [injection HR as <- <-; right; split; [by eexists|by left]|].
    unfold bind in HR. destruct (select_engine_run userID (t0 :: ts) [] g Hn) as [(en & E0 & _ & Ht)|[e E0]]; rewrite E0 in HR;
      [|injection HR as <- <-; right; split; [by eexists|by left]].
    unfold dispatch in HR. destruct (engines r !! en) as [execute|] eqn:Ee;
      [|injection HR as <- <-; right; split; [by eexists|by left]].
    left. exists en, execute, g. split_and!; try done. by left.
  - destruct insert as [insert|]; cbn [routeInsert] in HR; [|injection HR as <- <-; right; split; [by eexists|by left]].
    case_bool_decide as Hi; [injection HR as <- <-; right; split; [by eexists|by left]|].
    pose proof (get_or_create_run (ins_Table insert) g) as Hg. unfold bind at 1 in HR.
    destruct (get_or_create (ins_Table insert) g) as [[info|e] g1].
    + destruct Hg as [Hg Hg1]. destruct (Hwrite info (ins_Table insert) g1 g' res Hg HR) as [(en & ex & ? & ? & Hm)|[? ->]].
      * left. exists en, ex, g1. cbn [checked fst snd]. split_and!; try done.
        -- intros t Ht%list_elem_of_singleton. by subst.
        -- destruct Hg1; [by left|right; by exists insert].
      * right. split; [done|]. destruct Hg1 as [->|Hc]; [by left|right]. exists insert. by rewrite Hc.
    + injection HR as <- <-. right. split; [by eexists|]. destruct Hg as [->|Hc]; [by left|right; by exists insert].
  - destruct (Hud' HR) as [(en & ex & g1 & ? & ? & ? & ? & ->)|[? ->]]; [left|right; split; [done|by left]].
    exists en, ex, g. split_and!; try done. by left.
  - destruct (Hud' HR) as [(en & ex & g1 & ? & ? & ? & ? & ->)|[? ->]]; [left|right; split; [done|by left]].
    exists en, ex, g. split_and!; try done. by left.
Qed.

Lemma checked_writes stmt t : t ∈ writes stmt -> t ∈ (checked stmt).1 /\ (checked stmt).2 = ActionWrite.
Proof. destruct stmt as [s|[insert|]| | | |]; cbn; (done || by intros ?%not_elem_of_nil). Qed.

Lemma checked_reads stmt t : inserts_selected stmt = false -> t ∈ reads stmt -> t ∈ (checked stmt).1 /\ (checked stmt).2 = ActionRead.
Proof.
  destruct stmt as [s|[insert|]| | | |]; cbn; try (by intros _ ?%not_elem_of_nil); [done|].
  destruct (ins_Rows insert); [by intros _ ?%not_elem_of_nil|done].
Qed.

Lemma checked_some stmt : is_data stmt = true -> (checked stmt).1 <> [] -> reads stmt ++ writes stmt <> [].
Proof.
  intros Hd Hc. destruct stmt as [s|[insert|]| | | |]; cbn in *; try done.
  - by rewrite app_nil_r.
  - by destruct (match ins_Rows insert with SelectRows _ => _ | _ => _ end).
Qed.

(** C5: A SELECT, INSERT, UPDATE or DELETE reaches an engine only if the user has the
    permission to write every table that it changes and, when it is not an INSERT ...
    SELECT, the permission to read every table that it selects from; all these tables are of
    that engine, and the statement and the user are passed on as they are.  Otherwise the
    answer is an error, and nothing has changed except that an INSERT may have made its
    table.  The tables an INSERT ... SELECT reads are not looked at:
    [insert_select_reads_unchecked]. *)
Theorem route_checks_permission r userID stmt fp g res g' :
  is_data stmt = true -> tables_named g ->
  Route r userID stmt fp g = (res, g') ->
  (exists engine execute g1, engines r !! engine = Some execute /\
     below (execute (mkRequest stmt fp userID (mkTx 0 0) false)) g1 = (res, g') /\
     reads stmt ++ writes stmt <> [] /\
     (forall t, t ∈ writes stmt -> may userID ActionWrite engine t g1) /\
     (inserts_selected stmt = false -> forall t, t ∈ reads stmt -> may userID ActionRead engine t g1) /\
     (g1 = g \/ exists insert, stmt = StmtInsert (Some insert) /\
        rc_CreateTable (fst (resolveAutoTable (ins_Table insert))) (ins_Table insert) (snd (resolveAutoTable (ins_Table insert))) g = (Ok tt, g1))) \/
  ((exists e, res = Err e) /\ (g' = g \/ exists insert, stmt = StmtInsert (Some insert) /\
     g' = snd (rc_CreateTable (fst (resolveAutoTable (ins_Table insert))) (ins_Table insert) (snd (resolveAutoTable (ins_Table insert))) g))).
Proof.
  intros Hd Hn HR. destruct (route_run r userID stmt fp g res g' Hd Hn HR) as [(en & ex & g1 & He & Hx & Hc & Hm & Hg)|Herr]; [left|by right].
  exists en, ex, g1. split_and!; [done|done|by apply checked_some| | |done].
  - intros t Ht. destruct (checked_writes stmt t Ht) as [Hin <-]. by apply Hm.
  - intros Hi t Ht. destruct (checked_reads stmt t Hi Ht) as [Hin <-]. by apply Hm.
Qed.

(** An INSERT ... SELECT reaches the engine of its target with no look at the tables that
    it reads: it is enough that the user may write the target. *)
Theorem insert_select_reads_unchecked r userID insert source fp g engine execute :
  ins_Table insert <> [] -> ins_Rows insert = SelectRows (Some source) ->
  may userID ActionWrite engine (ins_Table insert) g -> engines r !! engine = Some execute ->
  Route r userID (StmtInsert (Some insert)) fp g
  = below (execute (mkRequest (StmtInsert (Some insert)) fp userID (mkTx 0 0) false)) g.
Proof.
  intros Ht Hs (info & Hg & <- & Hp) He. cbn [Route routeInsert]. rewrite bool_decide_eq_false_2 by done.
  unfold bind at 1, get_or_create. rewrite get_same, Hg. unfold require_permission, bind, below. rewrite check_same, Hp. cbn.
  unfold dispatch. by rewrite He.
Qed.
End router.

Arguments Router : clear implicits.

(** * The router over the catalog *)

Section over_catalog.
Context {S E R : Type} `{KvOps S E} `{GoRuntime} `{Passwords} `{GoText}.

#[export] Instance catalog_router : RouterCatalog (catalog S) (cat_err E) := {|
  rc_GetTable := GetTable;
  rc_CreateTable := CreateTable;
  rc_CheckPermission := CheckPermission;
  rc_table_not_found e := match e with ErrTableNotFound => true | _ => false end |}.

#[export] Instance catalog_router_laws : RouterCatalogLaws (catalog S) (cat_err E).
Proof.
  split.
  - intros t c. cbn. unfold GetTable, bind, running. destruct (cat_cache c) as [cc|]; [|done].
    destruct (started c); [|done]. by destruct (tables cc !! t).
  - intros u t a c. cbn. unfold CheckPermission. destruct (negb (isValidAction a)); [done|].
    unfold bind, running. destruct (cat_cache c) as [cc|]; [|done]. by destruct (started c).
Qed.

Lemma auto_engine t : fst (resolveAutoTable t) <> [].
Proof. unfold resolveAutoTable. by destruct (Contains _ _). Qed.

(** Looking and checking in a started catalog. *)
Lemma below_get (c : catalog S) cc t :
  started c = true -> cat_cache c = Some cc ->
  below (rc_GetTable t) c = (match tables cc !! t with Some ti => Ok ti | None => Err (ErrBelow ErrTableNotFound) end, c).
Proof.
  intros Hs Hc. unfold below. cbn [rc_GetTable catalog_router]. unfold GetTable, bind, running. rewrite Hc, Hs.
  by destruct (tables cc !! t).
Qed.

Lemma below_check (c : catalog S) cc user table action :
  isValidAction action = true -> started c = true -> cat_cache c = Some cc ->
  below (rc_CheckPermission user table action) c = (Ok (permitted cc user table action), c).
Proof.
  intros Ha Hs Hc. unfold below. cbn [rc_CheckPermission catalog_router]. unfold CheckPermission.
  rewrite Ha. cbn [negb]. unfold bind, running. by rewrite Hc, Hs.
Qed.

(** An INSERT into a table that does not exist makes the table before the permission of
    the user is looked at: the user is refused, and the table stays. *)
Theorem insert_creates_unpermitted engs (r : Router (catalog S) (cat_err E) R) c cc p u ui insert fp validate :
  live engs c cc -> cache_inv cc p -> users cc !! u = Some ui ->
  ins_Table insert <> [] -> tables cc !! ins_Table insert = None ->
  engs !! fst (resolveAutoTable (ins_Table insert)) = Some validate -> validate (snd (resolveAutoTable (ins_Table insert))) = true ->
  ~ allowed p u (nextTableID cc) ActionWrite ->
  match Route r (ui_UserID ui) (StmtInsert (Some insert)) fp c with
  | (Err ErrPermissionDenied, c') => exists cc', live engs c' cc' /\ is_Some (tables cc' !! ins_Table insert)
  | (Err (ErrBelow e), c') => store_failure e /\ live engs c' cc
  | _ => False
  end.
Proof.
  intros Hc Hi Hu Hne Ht Hv Hs Hno. cbn [Route routeInsert]. rewrite bool_decide_eq_false_2 by done.
  pose proof Hc as (_ & Hst & _ & _ & E0). unfold bind at 1, get_or_create.
  assert (rc_GetTable (ins_Table insert) c = (Err ErrTableNotFound, c)) as ->.
  { cbn. unfold GetTable, bind, running. by rewrite E0, Hst, Ht. }
  cbn [rc_table_not_found catalog_router]. destruct (resolveAutoTable (ins_Table insert)) as [en sj] eqn:Er.
  pose proof (auto_engine (ins_Table insert)) as Hen. rewrite Er in *. cbn [fst snd] in *.
  pose proof (create_table_run engs cc p Hi en (ins_Table insert) sj validate Hen Hne Hv Hs Ht c Hc) as Hct.
  unfold bind at 1, below at 1. cbn [rc_CreateTable catalog_router].
  destruct (CreateTable en (ins_Table insert) sj c) as [[[]|e] c1]; [|destruct Hct; by split].
  destruct Hct as (cc1 & Hc1 & ->). pose proof Hc1 as (_ & Hst1 & _ & _ & E1).
  rewrite (below_get c1 _ (ins_Table insert) Hst1 E1). cbn [tables on_tables on_nextAuditLogID on_nextHistoryID on_nextTableID].
  rewrite lookup_insert_eq. unfold require_permission, bind at 1 2. cbn [ti_TableID].
  rewrite (below_check c1 _ (ui_UserID ui) (nextTableID cc) ActionWrite eq_refl Hst1 E1).
  match goal with |- context [permitted ?x _ _ _] => change (permitted x) with (permitted cc) end.
  destruct (permitted cc (ui_UserID ui) (nextTableID cc) ActionWrite) eqn:Hp.
  { exfalso. apply Hno. by apply (permitted_allowed cc p u ui). }
  eexists. split; [exact Hc1|]. cbn. rewrite lookup_insert_eq. by eexists.
Qed.

(** A new table changes no user. *)
Lemma create_keeps_users engs (c : catalog S) cc p en t sj c1 :
  live engs c cc -> cache_inv cc p -> CreateTable en t sj c = (Ok tt, c1) ->
  exists cc1, live engs c1 cc1 /\ usersByID cc1 = usersByID cc.
Proof.
  intros Hc Hi E0. pose proof Hc as (_ & Hst & _ & Heng & Hcc). pose proof E0 as E1. unfold CreateTable in E1.
  destruct (bool_decide (en = []) || bool_decide (t = [])) eqn:Eb; [done|].
  apply orb_false_iff in Eb as [He%bool_decide_eq_false Ht%bool_decide_eq_false].
  rewrite bind_gets, Hst in E1. cbn [negb] in E1. rewrite bind_gets, Heng in E1. destruct (engs !! en) as [v|] eqn:Ev; [|done].
  destruct (v sj) eqn:Es; [|done]. cbn [negb] in E1. unfold bind at 1, running in E1. rewrite Hcc, Hst in E1.
  case_bool_decide as Hn; [done|]. apply eq_None_not_Some in Hn.
  pose proof (create_table_run engs cc p Hi en t sj v He Ht Ev Es Hn c Hc) as Hd. rewrite E0 in Hd.
  destruct Hd as (cc1 & Hl & ->). by eexists.
Qed.

Lemma live_named engs (c : catalog S) cc p : live engs c cc -> cache_inv cc p -> owned p -> tables_named (X:=cat_err E) c.
Proof.
  intros (_ & Hs & _ & _ & Hc) Hi Ho t info Ht. pose proof (below_get c cc t Hs Hc) as Hb. unfold below in Hb.
  destruct (rc_GetTable t c) as [[ti|e] c1]; [|done]. cbn [fst] in Ht. injection Ht as ->. rewrite (ci_tables _ _ Hi) in Hb.
  destruct (p_tables p !! t) as [tj|] eqn:Ej; [|done]. injection Hb as -> _. by apply (Ho t).
Qed.

(** Nobody without a user reaches an engine with a statement on rows. *)
Lemma unknown_user_denied engs (r : Router (catalog S) (cat_err E) R) c cc p u stmt fp :
  live engs c cc -> cache_inv cc p -> usersByID cc !! u = None -> tables_named (X:=cat_err E) c -> is_data stmt = true ->
  exists e, fst (Route r u stmt fp c) = Err e.
Proof.
  intros Hc Hi Hu Hn Hd. destruct (Route r u stmt fp c) as [res c'] eqn:E0.
  destruct (route_run r u stmt fp c res c' Hd Hn E0) as [(en & ex & g1 & _ & _ & Ha & Hm & Hg)|[He _]]; [|exact He]. exfalso.
  assert (exists cc1, live engs g1 cc1 /\ usersByID cc1 !! u = None) as (cc1 & (_ & Hst & _ & _ & Hcc) & Hu1).
  { destruct Hg as [->|(insert & _ & Hcr)]; [by exists cc|].
    destruct (create_keeps_users engs c cc p _ _ _ g1 Hc Hi Hcr) as (cc1 & Hl & Eu). exists cc1. by rewrite Eu. }
  destruct (checked stmt) as [[|t ts] a] eqn:Ea; [done|]. destruct (Hm t) as (info & _ & _ & Hp); [by left|].
  cbn [fst snd] in Hp. cbn [rc_CheckPermission catalog_router] in Hp. unfold CheckPermission in Hp.
  destruct (isValidAction a); [|done]. cbn [negb] in Hp. unfold bind, running in Hp. rewrite Hcc, Hst in Hp.
  unfold permitted in Hp. by rewrite Hu1 in Hp.
Qed.
End over_catalog.
