(* ===== verification/Config.v ===== *)
(** [internal/config/config.go], [internal/logger/logger.go]: the configuration and the
    logger made from it.

    A file is read by the TOML decoder, which lays its keys over the defaults; the decoder,
    [filepath.Clean] and [strings.EqualFold] are interfaces.  A logger is what it was made
    from: where it writes, from which level on, how, and its fixed fields. *)

From Stdlib Require Import ZArith Lia.
From Stdlib Require Strings.String.
From stdpp Require Import base list.
From S2P Require Import Prelude OrdMap GoFmt VacuumManager.
Import String.StringSyntax.
Open Scope Z_scope.

(** * Configuration *)

Record ServerConfig := mkServerConfig {
  Host : list byte; Port : Z; MaxConnections : Z; SSLEnabled : bool; SSLCertPath : list byte; SSLKeyPath : list byte;
  AuthType : list byte }.
Record LoggerConfig := mkLoggerConfig { Level : list byte; Format : list byte; Output : list byte }.
Record SQLConfig := mkSQLConfig { DataDir : list byte; MaxMutationRows : Z; VacuumWorkers : Z; VacuumQueueSize : Z }.
Record StoreConfig := mkStoreConfig {
  DBPath : list byte; WALPath : list byte; MetricsDBPath : list byte; LogsDBPath : list byte; RollupDBPath : list byte;
  TagIndexMemoryMB : Z; LogIndexMemoryMB : Z; LogsRetentionDays : Z; CacheSizeMB : Z; SyncWrites : bool; MaxOpenFiles : Z }.
Record Config := mkConfig { cfg_Server : ServerConfig; cfg_Logger : LoggerConfig; cfg_SQL : SQLConfig; cfg_Store : StoreConfig }.

Definition Default : Config := mkConfig
  (mkServerConfig (go_string "127.0.0.1") 5432 100 false [] [] (go_string "trust"))
  (mkLoggerConfig (go_string "info") (go_string "text") (go_string "stdout"))
  (mkSQLConfig (go_string "data/sql") 1000 2 100)
  (mkStoreConfig (go_string "data/plomvix.db") (go_string "data/plomvix.wal") (go_string "data/metrics.db") (go_string "data/logs.db")
    (go_string "data/metrics_rollups.db") 128 64 7 64 true 256).

Inductive config_err :=
| ErrHostRequired | ErrPort | ErrLevel | ErrFormat | ErrOutput | ErrDataDirRequired | ErrDBPathRequired
| ErrPathRequired | ErrReadConfig | ErrDecodeConfig | ErrValidateConfig (e : config_err).

Definition validLoggerLevel (level : list byte) : bool :=
  bool_decide (level ∈ [go_string "debug"; go_string "info"; go_string "warn"; go_string "error"]).
Definition validLoggerFormat (format : list byte) : bool := bool_decide (format ∈ [go_string "text"; go_string "json"]).
Definition validLoggerOutput (output : list byte) : bool := bool_decide (output ∈ [go_string "stdout"; go_string "stderr"]).

Definition Validate (cfg : Config) : res config_err unit :=
  if bool_decide (Host (cfg_Server cfg) = []) then Err ErrHostRequired
  else if (Port (cfg_Server cfg) <? 0) || (65535 <? Port (cfg_Server cfg)) then Err ErrPort
  else if negb (validLoggerLevel (Level (cfg_Logger cfg))) then Err ErrLevel
  else if negb (validLoggerFormat (Format (cfg_Logger cfg))) then Err ErrFormat
  else if negb (validLoggerOutput (Output (cfg_Logger cfg))) then Err ErrOutput
  else if bool_decide (DataDir (cfg_SQL cfg) = []) then Err ErrDataDirRequired
  else if bool_decide (DBPath (cfg_Store cfg) = []) then Err ErrDBPathRequired
  else Ok tt.

(** [filepath.Clean], and a file laid over a configuration by a decoder that refuses unknown
    keys; no file is an error of [os.Open]. *)
Class ConfigFiles := {
  Clean : list byte -> list byte;
  os_Open : list byte -> option (list byte);
  Decode : list byte -> Config -> option Config }.

(** What the code relies on: a path is not cleaned away, and once is enough. *)
Class ConfigFilesLaws `{ConfigFiles} := {
  Clean_not_empty p : Clean p <> [];
  Clean_Clean p : Clean (Clean p) = Clean p }.

Section load.
Context `{ConfigFiles}.

Definition clean_path (p : list byte) : list byte := match p with [] => [] | _ => Clean p end.

Definition normalize (cfg : Config) : Config :=
  let s := cfg_SQL cfg in
  let t := cfg_Store cfg in
  mkConfig (cfg_Server cfg) (cfg_Logger cfg)
    (mkSQLConfig (clean_path (DataDir s)) (MaxMutationRows s) (VacuumWorkers s) (VacuumQueueSize s))
    (mkStoreConfig (clean_path (DBPath t)) (clean_path (WALPath t)) (clean_path (MetricsDBPath t)) (clean_path (LogsDBPath t))
      (clean_path (RollupDBPath t)) (TagIndexMemoryMB t) (LogIndexMemoryMB t) (LogsRetentionDays t) (CacheSizeMB t)
      (SyncWrites t) (MaxOpenFiles t)).

Definition Load (path : list byte) : res config_err Config :=
  match path with
  | [] => Err ErrPathRequired
  | _ =>
      match os_Open path with
      | None => Err ErrReadConfig
      | Some file =>
          match Decode file Default with
          | None => Err ErrDecodeConfig
          | Some cfg =>
              let cfg := normalize cfg in
              match Validate cfg with Err e => Err (ErrValidateConfig e) | Ok tt => Ok cfg end
          end
      end
  end.
End load.

(** * The logger *)

Inductive slog_Level := LevelDebug | LevelInfo | LevelWarn | LevelError.
Inductive writer := Stdout | Stderr | Discard.
Inductive handler := TextHandler | JSONHandler.

Definition attr : Type := list byte * list byte.
Record Logger := mkLogger { log_to : writer; log_level : slog_Level; log_handler : handler; log_attrs : list attr }.

Definition FieldComponent : list byte := go_string "component".
Definition FieldError : list byte := go_string "error".
Definition RedactedValue : list byte := go_string "[REDACTED]".

Definition sensitiveKeys : list (list byte) :=
  [go_string "password"; go_string "passwd"; go_string "secret"; go_string "token"; go_string "api_key"; go_string "apikey";
   go_string "authorization"; go_string "cookie"; go_string "set-cookie"].

(** The switch on the name of a level. *)
Definition level_of (level : list byte) : res config_err slog_Level :=
  if bool_decide (level = go_string "debug") then Ok LevelDebug
  else if bool_decide (level = go_string "info") then Ok LevelInfo
  else if bool_decide (level = go_string "warn") then Ok LevelWarn
  else if bool_decide (level = go_string "error") then Ok LevelError
  else Err ErrLevel.

Definition newWithWriter (cfg : LoggerConfig) (w : writer) : res config_err Logger :=
  match level_of (Level cfg) with
  | Err e => Err e
  | Ok level =>
      if bool_decide (Format cfg = go_string "text") then Ok (mkLogger w level TextHandler [])
      else if bool_decide (Format cfg = go_string "json") then Ok (mkLogger w level JSONHandler [])
      else Err ErrFormat
  end.

Definition New (cfg : LoggerConfig) : res config_err Logger :=
  if bool_decide (Output cfg = go_string "stdout") then newWithWriter cfg Stdout
  else if bool_decide (Output cfg = go_string "stderr") then newWithWriter cfg Stderr
  else Err ErrOutput.

(** No logger is one that writes nothing. *)
Definition WithComponent (base : option Logger) (component : list byte) : Logger :=
  match base with
  | None => mkLogger Discard LevelInfo TextHandler []
  | Some l => mkLogger (log_to l) (log_level l) (log_handler l) (log_attrs l ++ [(FieldComponent, component)])
  end.

Definition ErrorAttr (err : option (list byte)) : attr := (FieldError, default [] err).

(** [strings.EqualFold] *)
Class GoFold := EqualFold : list byte -> list byte -> bool.

Definition RedactAttr `{GoFold} (a : attr) : attr :=
  if bool_decide (a.1 = []) then a
  else if existsb (EqualFold a.1) sensitiveKeys then (a.1, RedactedValue) else a.

(** [LevelController] *)
Definition NewLevelController (level : list byte) : res config_err slog_Level := level_of level.
Definition SetLevel (level : list byte) (c : slog_Level) : res config_err unit * slog_Level :=
  match level_of level with Ok l => (Ok tt, l) | Err e => (Err e, c) end.

(** * What a loaded configuration is good for *)

Lemma level_ok level : validLoggerLevel level = true <-> exists l, level_of level = Ok l.
Proof.
  unfold validLoggerLevel, level_of. rewrite bool_decide_eq_true, !elem_of_cons. split.
  - intros [->|[->|[->|[->|Hf]]]]; [by eexists..|by apply not_elem_of_nil in Hf].
  - intros [l Hl]. repeat (case_bool_decide; [by auto|]). done.
Qed.

Lemma logger_ok cfg :
  validLoggerLevel (Level cfg) = true -> validLoggerFormat (Format cfg) = true -> validLoggerOutput (Output cfg) = true ->
  exists l, New cfg = Ok l.
Proof.
  unfold validLoggerFormat, validLoggerOutput, New, newWithWriter. rewrite level_ok, !bool_decide_eq_true, !elem_of_cons.
  intros [l ->] Hf Ho. destruct Hf as [->|[->|Hf]]; [| |by apply not_elem_of_nil in Hf];
    (destruct Ho as [->|[->|Ho]]; [by eexists..|by apply not_elem_of_nil in Ho]).
Qed.

Lemma clean_twice `{ConfigFilesLaws} p : clean_path (clean_path p) = clean_path p.
Proof.
  destruct p as [|b p]; [done|]. cbn [clean_path]. destruct (Clean (b :: p)) as [|c q] eqn:Ec; [by apply Clean_not_empty in Ec|].
  cbn [clean_path]. by rewrite <- Ec, Clean_Clean.
Qed.

Section theorems.
Context `{ConfigFilesLaws}.

(** A configuration that Load returns is valid and has clean paths, its port is one of
    TCP, its directory and its file are named, and a logger can be made from it. *)
Theorem loaded_config_valid path cfg :
  Load path = Ok cfg ->
  Validate cfg = Ok tt /\ normalize cfg = cfg /\ 0 <= Port (cfg_Server cfg) <= 65535 /\ DataDir (cfg_SQL cfg) <> [] /\
  DBPath (cfg_Store cfg) <> [] /\ exists l, New (cfg_Logger cfg) = Ok l.
Proof.
  unfold Load. destruct path as [|b path]; [done|]. destruct (os_Open _) as [file|]; [|done].
  destruct (Decode file Default) as [c|]; [|done]. destruct (Validate (normalize c)) as [[]|e] eqn:Hv; [|done]. intros [= <-].
  split; [done|]. split; [unfold normalize; cbn; by rewrite !clean_twice|]. unfold Validate in Hv.
  case_bool_decide; [done|]. destruct (_ || _) eqn:Hp; [done|].
  destruct (validLoggerLevel _) eqn:Hl; [|done]. destruct (validLoggerFormat _) eqn:Hf; [|done].
  destruct (validLoggerOutput _) eqn:Ho; [|done]. cbn [negb] in Hv. do 2 (case_bool_decide; [done|]).
  apply orb_false_iff in Hp as [Hp1%Z.ltb_ge Hp2%Z.ltb_ge]. split_and!; try done. by apply logger_ok.
Qed.

(** A file may set the workers of the vacuum manager to any number: Load does not look. *)
Lemma workers_not_checked path file cfg :
  path <> [] -> os_Open path = Some file ->
  Decode file Default = Some cfg -> Validate (normalize cfg) = Ok tt -> VacuumWorkers (cfg_SQL cfg) < 1 ->
  exists cfg', Load path = Ok cfg' /\
    VacuumManager.NewManager (VacuumWorkers (cfg_SQL cfg')) (VacuumQueueSize (cfg_SQL cfg')) = Err ErrInvalidWorkerCount.
Proof.
  intros Hp Ho Hd Hv Hw. exists (normalize cfg). unfold Load. destruct path as [|b path]; [done|]. rewrite Ho, Hd, Hv. split; [done|].
  unfold VacuumManager.NewManager. cbn [VacuumWorkers cfg_SQL normalize]. by rewrite (proj2 (Z.ltb_lt _ _)).
Qed.
End theorems.
