(* ===== verification/Server.v ===== *)
(** [internal/server]: the PostgreSQL wire protocol.

    A connection is the bytes that the client will send, those it was sent, and how the
    coming writes end.  A session works on its connection, on its prepared statements and
    portals, and on the state of the router.  The parser, the router, the streams of rows,
    TLS and [fmt.Sscanf] are interfaces.  A loop over messages or rows takes [fuel];
    [session_ends] says that enough fuel is. *)

From Stdlib Require Import ZArith Lia SpecFloat.
From Stdlib Require Strings.String.
From stdpp Require Import gmap list.
From S2P Require Import Prelude OrdMap Monad GoFmt Datum Binder Logs.
Import String.StringSyntax.
Open Scope Z_scope.
Open Scope st_scope.

(** * Messages *)

Definition MsgType : Type := byte.
Definition MsgQuery : MsgType := x51.
Definition MsgRowDescription : MsgType := x54.
Definition MsgDataRow : MsgType := x44.
Definition MsgCommandComplete : MsgType := x43.
Definition MsgReadyForQuery : MsgType := x5a.
Definition MsgAuthenticationRequest : MsgType := x52.
Definition MsgErrorResponse : MsgType := x45.
Definition MsgParameterStatus : MsgType := x53.
Definition MsgBackendKeyData : MsgType := x4b.
Definition MsgTerminate : MsgType := x58.
Definition MsgSSLRequestN : byte := x4e.
Definition MsgParse : MsgType := x50.
Definition MsgBind : MsgType := x42.
Definition MsgExecute : MsgType := x45.
Definition MsgDescribeStmt : MsgType := x44.
Definition MsgSync : MsgType := x53.
Definition MsgCloseStmt : MsgType := x43.
Definition MsgParseComplete : MsgType := x31.
Definition MsgBindComplete : MsgType := x32.
Definition MsgCloseComplete : MsgType := x33.

(** [header] of [WritePacket]: the type and the length with its own four bytes. *)
Definition packet_header (t : MsgType) (payload : list byte) : list byte := t :: be_encode 4 (zlen payload + 4).
Definition packet (t : MsgType) (payload : list byte) : list byte := packet_header t payload ++ payload.

(** A string and the byte 0. *)
Definition cstring (s : list byte) : list byte := s ++ [x00].

Definition OIDBool : Z := 16.
Definition OIDInt64 : Z := 20.
Definition OIDFloat64 : Z := 701.
Definition OIDString : Z := 1043.
Definition OIDNull : Z := 0.

Definition engineTypeToOID (t : Ty) : Z :=
  match t with
  | TypeBool => OIDBool
  | TypeInt64 => OIDInt64
  | TypeUint64 => OIDInt64
  | TypeFloat64 => OIDFloat64
  | TypeString => OIDString
  | _ => OIDNull
  end.

Definition typeSize (t : Ty) : Z := match t with TypeInt64 | TypeUint64 | TypeFloat64 | TypeBool => 8 | _ => -1 end.

Definition column_description (col : Column) : list byte :=
  cstring (Name col) ++ be_encode 4 0 ++ be_encode 2 0 ++ be_encode 4 (engineTypeToOID (c_Type col)) ++
  be_encode 2 (typeSize (c_Type col)) ++ be_encode 4 (-1) ++ be_encode 2 0.

Definition row_description (schema : Schema) : list byte := be_encode 2 (zlen schema) ++ concat (map column_description schema).

Definition datumToText (d : Datum) : list byte :=
  match d_Value d with
  | VNil => []
  | VInt64 v | VUint64 v => fmt_d v
  | VFloat64 v => fmt_f v
  | VBool v => go_string (if v then "t" else "f")
  | VString v | VBytes v => v
  end.

Definition field (d : Datum) : list byte :=
  if is_nil (d_Value d) then be_encode 4 (-1) else be_encode 4 (zlen (datumToText d)) ++ datumToText d.

Definition data_row (row : Row) : list byte := be_encode 2 (zlen (Datums row)) ++ concat (map field (Datums row)).

Definition error_fields (severity code message : list byte) : list byte :=
  x53 :: cstring severity ++ x43 :: cstring code ++ x4d :: cstring message ++ [x00].

(** * System catalog queries *)

Section mock.
Context `{GoText}.

Definition isCatalogQuery (sql : list byte) : bool :=
  let lower := ToLower sql in
  Contains lower (go_string "pg_catalog") || Contains lower (go_string "version()") ||
  Contains lower (go_string "current_schema()") || Contains lower (go_string "show ") ||
  Contains lower (go_string "pg_type") || Contains lower (go_string "pg_settings").

Definition text_column (name : list byte) : Column := mkColumn name TypeString false None.
Definition text_datum (s : list byte) : Datum := mkDatum TypeString (VString s).
Definition one_text (s : list byte) : list Row := [mkRow [text_datum s] 0].
Definition type_row (oid : Z) (name : list byte) : Row := mkRow [mkDatum TypeInt64 (VInt64 oid); text_datum name] 0.

Definition executeMockCatalog (sql : list byte) : option (Schema * list Row * list byte) :=
  let lower := ToLower sql in
  if Contains lower (go_string "version()") then
    Some ([text_column (go_string "version")], one_text (go_string "Plomvix 0.1.0 (PostgreSQL 15.0.0 compatibility)"), go_string "SELECT 1")
  else if Contains lower (go_string "current_schema()") || Contains lower (go_string "current_schema") then
    Some ([text_column (go_string "current_schema")], one_text (go_string "public"), go_string "SELECT 1")
  else if Contains lower (go_string "pg_type") then
    Some ([mkColumn (go_string "oid") TypeInt64 false None; text_column (go_string "typname")],
      [type_row 16 (go_string "bool"); type_row 20 (go_string "int8"); type_row 701 (go_string "float8");
       type_row 1043 (go_string "varchar")], go_string "SELECT 4")
  else if Contains lower (go_string "show ") then
    let value :=
      if Contains lower (go_string "client_encoding") then go_string "UTF8"
      else if Contains lower (go_string "standard_conforming_strings") then go_string "on"
      else if Contains lower (go_string "datestyle") then go_string "ISO, YMD"
      else [] in
    Some ([text_column (go_string "setting")], one_text value, go_string "SELECT 1")
  else None.
End mock.

(** * Text *)

(** [strings.Split(s, "\x00")]; there is always a first part. *)
Fixpoint split_on_nul (s : list byte) : list (list byte) :=
  match s with
  | [] => [[]]
  | b :: s' =>
      if bool_decide (b = x00) then [] :: split_on_nul s'
      else match split_on_nul s' with p :: ps => (b :: p) :: ps | [] => [[b]] end
  end.

Definition splitNull (b : list byte) : list (list byte) :=
  let parts := split_on_nul b in
  if bool_decide (last parts = Some []) then removelast parts else parts.

(** [strings.Replace(s, old, new, -1)] for an [old] that is not empty; [skip] bytes of [s]
    belong to the last match. *)
Fixpoint Replace (old new : list byte) (skip : nat) (s : list byte) : list byte :=
  match s with
  | [] => []
  | b :: s' =>
      match skip with
      | S k => Replace old new k s'
      | O => if has_prefix old s then new ++ Replace old new (length old - 1) s' else b :: Replace old new 0 s'
      end
  end.

(** The loop of [handleExecute] over the parameters, from number [i]. *)
Fixpoint substitute (i : Z) (params : list Datum) (sql : list byte) : list byte :=
  match params with
  | [] => sql
  | p :: params' => substitute (i + 1) params' (Replace (go_string "$" ++ fmt_d (i + 1)) (datumToText p) 0 sql)
  end.

(** [fmt.Sscanf] with one verb, [%d] or [%f], when it returns 1 and no error. *)
Class GoScan := { Sscanf_int : list byte -> option Z; Sscanf_float : list byte -> option spec_float }.

Definition textToDatum `{GoScan} (s : list byte) : Datum :=
  match Sscanf_int s with
  | Some i => mkDatum TypeInt64 (VInt64 i)
  | None =>
      match Sscanf_float s with
      | Some f => mkDatum TypeFloat64 (VFloat64 f)
      | None => mkDatum TypeString (VString s)
      end
  end.

(** * The connection *)

(** The ends of the coming writes: [Some (n, e)] fails after [n] bytes with the text [e];
    after the list all succeed.  The client sends nothing more when [inp] is empty. *)
Record conn := mkConn { inp : list byte; out : list byte; writes : list (option (Z * list byte)) }.

Inductive srv_err := ErrText (message : list byte) | ErrEOF | ErrUnexpectedEOF | ErrPanic | ErrFuel.

(** Go's [err.Error()]. *)
Definition Error (e : srv_err) : list byte :=
  match e with
  | ErrText m => m
  | ErrEOF => go_string "EOF"
  | ErrUnexpectedEOF => go_string "unexpected EOF"
  | ErrPanic | ErrFuel => []
  end.

Definition write_conn (bs : list byte) (c : conn) : res srv_err unit * conn :=
  match writes c with
  | Some (n, e) :: ws => (Err (ErrText e), mkConn (inp c) (out c ++ ztake n bs) ws)
  | ws => (Ok tt, mkConn (inp c) (out c ++ bs) (tail ws))
  end.

(** [io.ReadFull] of [n] bytes. *)
Definition read_conn (n : Z) (c : conn) : res srv_err (list byte) * conn :=
  if n <=? zlen (inp c) then (Ok (ztake n (inp c)), mkConn (zdrop n (inp c)) (out c) (writes c))
  else (Err (if bool_decide (inp c = []) then ErrEOF else ErrUnexpectedEOF), mkConn [] (out c) (writes c)).

(** ** TLS *)

Record SSLConfig := mkSSL { CertFile : list byte; KeyFile : list byte }.

Class Tls (C : Type) := {
  LoadX509KeyPair : list byte -> list byte -> option C;
  Handshake : C -> conn -> res (list byte) unit * conn }.

(** What the code relies on: behind a handshake TLS hands on no more bytes than the
    connection has left, since every record is longer than what it carries. *)
Class TlsLaws (C : Type) `{Tls C} := {
  Handshake_shrinks tls c : (length (inp (Handshake tls c).2) <= length (inp c))%nat }.

(** No error and no configuration is [Ok None]. *)
Definition tlsConfig `{Tls C} (cfg : SSLConfig) : res unit (option C) :=
  if bool_decide (CertFile cfg = []) || bool_decide (KeyFile cfg = []) then Ok None
  else match LoadX509KeyPair (CertFile cfg) (KeyFile cfg) with Some c => Ok (Some c) | None => Err tt end.

(** * Sessions *)

Record PreparedPlan := mkPlan { pp_Name : list byte; SQL : list byte; ParamOIDs : list Z }.
Record Portal := mkPortal { po_Name : list byte; PlanName : list byte; Parameters : list Datum }.
Record sessionCache := mkSessionCache { statements : gmap (list byte) PreparedPlan; portals : gmap (list byte) Portal }.

Definition newSessionCache : sessionCache := mkSessionCache ∅ ∅.

(** What a statement returns: its stream of rows, if any. *)
Record Result (Rs : Type) := mkResult { RowsAffected : Z; Message : list byte; Stream : option Rs }.
Arguments mkResult {Rs}. Arguments RowsAffected {Rs}. Arguments Message {Rs}. Arguments Stream {Rs}.

(** Parser and router with their texts of errors, and the streams of rows: no row is any
    error of [Next], the end among them. *)
Class Backend (G St Rs : Type) := {
  Parse : list byte -> res (list byte) St;
  Route : Z -> St -> st G (list byte) (Result Rs);
  rs_Schema : Rs -> Schema;
  rs_Next : Rs -> G -> option Row * (Rs * G);
  rs_Close : Rs -> G -> G }.

(** [int32] *)
Definition int32 (z : Z) : Z := (z + 2 ^ 31) mod 2 ^ 32 - 2 ^ 31.

(** The object identifiers of [handleParse]. *)
Fixpoint param_oids (n : nat) (oidBytes : list byte) : list Z :=
  match n with
  | O => []
  | S n => if zlen oidBytes <? 4 then [] else int32 (be_decode (ztake 4 oidBytes)) :: param_oids n (zdrop 4 oidBytes)
  end.

(** The parameters of [handleBind], from [rest[pos:]]; a negative length panics. *)
Fixpoint bind_params `{GoScan} (n : nat) (rest : list byte) : res srv_err (list Datum) :=
  match n with
  | O => Ok []
  | S n =>
      if zlen rest <? 4 then Ok []
      else
        let paramLen := int32 (be_decode (ztake 4 rest)) in
        let rest := zdrop 4 rest in
        if paramLen =? -1 then ds ← bind_params n rest; Ok (mkDatum TypeNull VNil :: ds)
        else if zlen rest <? paramLen then bind_params n rest
        else if paramLen <? 0 then Err ErrPanic
        else ds ← bind_params n (zdrop paramLen rest); Ok (textToDatum (ztake paramLen rest) :: ds)
  end.

(** The parameters in the part of a Bind message behind its two names. *)
Definition bound_params `{GoScan} (rest : list byte) : res srv_err (list Datum) :=
  if zlen rest <? 2 then Ok []
  else
    let pos := 2 + be_decode (ztake 2 rest) * 2 in
    if zlen rest <? pos + 2 then Ok []
    else bind_params (Z.to_nat (be_decode (ztake 2 (zdrop pos rest)))) (zdrop (pos + 2) rest).

(** The loop of [handleStartup] over the parameters for the user. *)
Fixpoint startup_user (fuel : nat) (pairs : list byte) (username : list byte) : list byte :=
  match fuel with
  | O => username
  | S fuel =>
      if zlen pairs <? 2 then username
      else
        match split_on_nul pairs with
        | key :: value :: (_ :: _) as parts =>
            startup_user fuel (zdrop (zlen key + zlen value + 2) pairs) (if bool_decide (key = go_string "user") then value else username)
        | _ => username
        end
  end.

Section session.
Context {G St Rs C : Type} `{Backend G St Rs} `{Tls C} `{GoText} `{GoScan}.

Record Session := mkSession { s_conn : conn; s_cache : sessionCache; s_router : G }.

Definition sess : Type -> Type := st Session srv_err.

Definition Write (bs : list byte) : sess unit := fun s =>
  let '(r, c) := write_conn bs (s_conn s) in (r, mkSession c (s_cache s) (s_router s)).

Definition ReadFull (n : Z) : sess (list byte) := fun s =>
  let '(r, c) := read_conn n (s_conn s) in (r, mkSession c (s_cache s) (s_router s)).

Definition WritePacket (t : MsgType) (payload : list byte) : sess unit := Write (packet_header t payload) ;;; Write payload.

Definition WriteRowDescription (schema : Schema) : sess unit := WritePacket MsgRowDescription (row_description schema).
Definition WriteDataRow (row : Row) : sess unit := WritePacket MsgDataRow (data_row row).
Definition WriteCommandComplete (tag : list byte) : sess unit := WritePacket MsgCommandComplete (cstring tag).
Definition WriteReadyForQuery (status : byte) : sess unit := WritePacket MsgReadyForQuery [status].
Definition WriteErrorResponse (severity code message : list byte) : sess unit :=
  WritePacket MsgErrorResponse (error_fields severity code message).
Definition WriteAuthOK : sess unit := WritePacket MsgAuthenticationRequest (be_encode 4 0).
Definition WriteParameterStatus (key value : list byte) : sess unit := WritePacket MsgParameterStatus (cstring key ++ cstring value).
Definition WriteBackendKeyData (pid key : Z) : sess unit := WritePacket MsgBackendKeyData (be_encode 4 pid ++ be_encode 4 key).

(** ['I'] *)
Definition idle : byte := x49.

Definition writeError (severity code : String.string) (message : list byte) : sess unit :=
  WriteErrorResponse (go_string severity) (go_string code) message.

Arguments writeError (severity code)%_string_scope message.

(** [fmt.Errorf] with a prefix and [%w] *)
Definition wrap_err {A} (prefix : String.string) (c : sess A) : sess A := fun s =>
  match c s with
  | (Err ((ErrPanic | ErrFuel) as e), s') => (Err e, s')
  | (Err e, s') => (Err (ErrText (go_string prefix ++ Error e)), s')
  | r => r
  end.
Arguments wrap_err {A} prefix%_string_scope c.

(** ** Startup *)

Definition server_parameters : list (list byte * list byte) :=
  [(go_string "server_version", go_string "15.0.0"); (go_string "client_encoding", go_string "UTF8");
   (go_string "DateStyle", go_string "ISO, YMD"); (go_string "standard_conforming_strings", go_string "on")].

(** From a handshake on the connection is what TLS reads and writes. *)
Definition upgrade (tls : C) : sess unit := fun s =>
  let '(r, c) := Handshake tls (s_conn s) in
  (match r with Ok tt => Ok tt | Err e => Err (ErrText (go_string "server: TLS handshake: " ++ e)) end,
   mkSession c (s_cache s) (s_router s)).

Definition greet : sess unit :=
  WriteAuthOK ;;;
  for_each server_parameters (fun kv => WriteParameterStatus kv.1 kv.2) ;;;
  WriteBackendKeyData 42 99 ;;;
  WriteReadyForQuery idle.

Fixpoint handleStartup (fuel : nat) (ssl : SSLConfig) : sess unit :=
  match fuel with
  | O => fail ErrFuel
  | S fuel =>
      lenBuf <- wrap_err "server: startup read: " (ReadFull 4) ;;
      let length := int32 (be_decode lenBuf) in
      if length <? 4 then fail (ErrText (go_string "server: startup message too short"))
      else
        payload <- wrap_err "server: startup payload: " (ReadFull (length - 4)) ;;
        if (4 <=? zlen payload) && (be_decode (ztake 4 payload) =? 80877103) then
          match tlsConfig ssl with
          | Ok (Some tls) => Write [x53] ;;; upgrade tls
          | _ => Write [MsgSSLRequestN]
          end ;;;
          handleStartup fuel ssl
        else if zlen payload <? 4 then fail (ErrText (go_string "server: invalid startup message"))
        else if negb (be_decode (ztake 4 payload) =? 196608) then
          fail (ErrText (go_string "server: unsupported protocol version " ++ fmt_d (be_decode (ztake 4 payload))))
        else
          let username := startup_user (List.length payload) (zdrop 4 payload) [] in
          greet
  end.

(** ** Queries *)

Definition close_stream (r : Rs) : sess unit := modify (fun s => mkSession (s_conn s) (s_cache s) (rs_Close r (s_router s))).

(** The rows of a stream, which is closed when a row cannot be written; the stream
    afterwards. *)
Fixpoint send_rows (fuel : nat) (r : Rs) : sess Rs := fun s =>
  match fuel with
  | O => (Err ErrFuel, s)
  | S fuel =>
      match rs_Next r (s_router s) with
      | (None, (r', g)) => (Ok r', mkSession (s_conn s) (s_cache s) g)
      | (Some row, (r', g)) =>
          (cleanup (WriteDataRow row) (close_stream r') ;;; send_rows fuel r') (mkSession (s_conn s) (s_cache s) g)
      end
  end.

Definition finish (tag : list byte) : sess unit := WriteCommandComplete tag ;;; WriteReadyForQuery idle.

Definition result_tag (result : Result Rs) : list byte :=
  if (RowsAffected result =? 0) && negb (bool_decide (Message result = [])) then Message result
  else go_string "SELECT " ++ fmt_d (RowsAffected result).

(** The stream is closed on every way out behind the description. *)
Definition send_result (fuel : nat) (result : Result Rs) : sess unit :=
  match Stream result with
  | None => finish (result_tag result)
  | Some r =>
      WriteRowDescription (rs_Schema r) ;;;
      r' <- send_rows fuel r ;;
      cleanup (finish (result_tag result)) (close_stream r') ;;;
      close_stream r'
  end.

Definition route (userID : Z) (stmt : St) : sess (Result Rs) := fun s =>
  match Route userID stmt (s_router s) with
  | (Ok r, g) => (Ok r, mkSession (s_conn s) (s_cache s) g)
  | (Err e, g) => (Err (ErrText e), mkSession (s_conn s) (s_cache s) g)
  end.

Definition run_sql (fuel : nat) (sql : list byte) : sess unit :=
  match Parse sql with
  | Err e => writeError "ERROR" "42601" e
  | Ok stmt => fun s =>
      match route 0 stmt s with
      | (Ok result, s') => send_result fuel result s'
      | (Err e, s') => writeError "ERROR" "42000" (Error e) s'
      end
  end.

Definition executeSQL (fuel : nat) (sql : list byte) : sess unit :=
  match (if isCatalogQuery sql then executeMockCatalog sql else None) with
  | Some (schema, rows, tag) =>
      WriteRowDescription schema ;;;
      for_each rows WriteDataRow ;;;
      finish tag
  | None => run_sql fuel sql
  end.

Definition handleQuery (fuel : nat) (payload : list byte) : sess unit :=
  if bool_decide (payload = []) then WriteReadyForQuery idle else executeSQL fuel payload.

(** ** Extended queries *)

Definition on_cache (f : sessionCache -> sessionCache) : sess unit := modify (fun s => mkSession (s_conn s) (f (s_cache s)) (s_router s)).

Definition handleParse (payload : list byte) : sess unit :=
  match splitNull payload with
  | name :: sql :: rest :: _ =>
      let oids := if zlen rest <? 2 then [] else param_oids (Z.to_nat (be_decode (ztake 2 rest))) (zdrop 2 rest) in
      on_cache (fun c => mkSessionCache (<[name := mkPlan name sql oids]> (statements c)) (portals c)) ;;;
      WritePacket MsgParseComplete []
  | [_; _] => writeError "ERROR" "42601" (go_string "Parse message too short")
  | _ => writeError "ERROR" "42601" (go_string "invalid Parse message")
  end.

Definition handleBind (payload : list byte) : sess unit :=
  match splitNull payload with
  | portalName :: stmtName :: rest :: _ =>
      plan <- gets (fun s => statements (s_cache s) !! stmtName) ;;
      if negb (bool_decide (is_Some plan)) && negb (bool_decide (stmtName = [])) then
        writeError "ERROR" "26000" (go_string "prepared statement does not exist")
      else
        params <- lift (bound_params rest) ;;
        on_cache (fun c => mkSessionCache (statements c) (<[portalName := mkPortal portalName stmtName params]> (portals c))) ;;;
        WritePacket MsgBindComplete []
  | _ => writeError "ERROR" "42601" (go_string "invalid Bind message")
  end.

Definition handleExecute (fuel : nat) (payload : list byte) : sess unit :=
  match splitNull payload with
  | [] => writeError "ERROR" "42601" (go_string "invalid Execute message")
  | portalName :: _ =>
      cache <- gets s_cache ;;
      match portals cache !! portalName with
      | None => writeError "ERROR" "34000" (go_string "portal does not exist")
      | Some portal =>
          match statements cache !! PlanName portal with
          | None => writeError "ERROR" "26000" (go_string "prepared statement does not exist")
          | Some plan => executeSQL fuel (substitute 0 (Parameters portal) (SQL plan))
          end
      end
  end.

Definition handleDescribe : sess unit := WritePacket x6e [].
Definition handleSync : sess unit := WriteReadyForQuery idle.
Definition handleClose : sess unit := WritePacket MsgCloseComplete [].

Definition handleExtendedMessage (fuel : nat) (mType : MsgType) (payload : list byte) : sess unit :=
  if bool_decide (mType = MsgParse) then handleParse payload
  else if bool_decide (mType = MsgBind) then handleBind payload
  else if bool_decide (mType = MsgExecute) then handleExecute fuel payload
  else if bool_decide (mType = MsgDescribeStmt) then handleDescribe
  else if bool_decide (mType = MsgSync) then handleSync
  else if bool_decide (mType = MsgCloseStmt) then handleClose
  else writeError "ERROR" "0A000" (go_string "unsupported extended query message").

(** ** The session *)

(** An error of a handler is sent, and an error of that write is dropped; a panic ends the
    process. *)
Definition report (c : sess unit) : sess unit := fun s =>
  match c s with
  | (Err ((ErrPanic | ErrFuel) as e), s') => (Err e, s')
  | (Err e, s') => ignore (writeError "ERROR" "42601" (Error e)) s'
  | r => r
  end.

(** One message, or [None] at the end of the connection. *)
Definition read_message : sess (option (MsgType * list byte)) := fun s =>
  match ReadFull 5 s with
  | (Err ErrEOF, s') => (Ok None, s')
  | (Err e, s') => (Err e, s')
  | (Ok buf, s') =>
      match buf with
      | t :: lenBuf =>
          let length := int32 (int32 (be_decode lenBuf) - 4) in
          if (length <? 0) || (2 ^ 24 <? length) then
            (Err (ErrText (go_string "server: invalid message length " ++ fmt_d length)), s')
          else (payload <- ReadFull length ;; ret (Some (t, payload))) s'
      | [] => (Err ErrUnexpectedEOF, s')
      end
  end.

Definition is_extended (t : MsgType) : bool :=
  bool_decide (t ∈ [MsgParse; MsgBind; MsgExecute; MsgDescribeStmt; MsgSync; MsgCloseStmt]).

(** Whether the session goes on. *)
Definition handle_message (fuel : nat) (mType : MsgType) (payload : list byte) : sess bool :=
  if bool_decide (mType = MsgTerminate) then ret false
  else
    (if bool_decide (mType = MsgQuery) then report (handleQuery fuel payload)
     else if is_extended mType then report (handleExtendedMessage fuel mType payload)
     else ignore (writeError "ERROR" "0A000" (go_string "unsupported protocol message type"))) ;;;
    ret true.

Fixpoint command_loop (messages fuel : nat) : sess unit :=
  match messages with
  | O => fail ErrFuel
  | S messages =>
      msg <- read_message ;;
      match msg with
      | None => ret tt
      | Some (t, payload) => go_on <- handle_message fuel t payload ;; if go_on : bool then command_loop messages fuel else ret tt
      end
  end.

Definition Run (messages fuel : nat) (ssl : SSLConfig) : sess unit := fun s =>
  match handleStartup messages ssl s with
  | (Ok tt, s') => command_loop messages fuel s'
  | (Err ((ErrPanic | ErrFuel) as e), s') => (Err e, s')
  | (Err e, s') => (Err e, snd (writeError "FATAL" "08000" (Error e) s'))
  end.

(** [handleConn], without the end of the connection. *)
Definition handleConn (messages fuel : nat) (ssl : SSLConfig) (c : conn) (g : G) : res srv_err unit * Session :=
  Run messages fuel ssl (mkSession c newSessionCache g).

(** What [acceptLoop] sends on a connection above the limit. *)
Definition refuse : sess unit := ignore (WriteErrorResponse (go_string "FATAL") (go_string "53300") (go_string "too many connections")).
End session.

Arguments Session : clear implicits.
Arguments writeError {G} (severity code)%_string_scope message.
Arguments wrap_err {G A} prefix%_string_scope c.

(** * Throttle *)

(** [active] is an atomic counter; a call that finds it above [max] takes its one back
    later. *)
Record Throttle := mkThrottle { active : Z; max : Z }.

Definition NewThrottle (max : Z) : Throttle := mkThrottle 0 max.

Definition Add (d : Z) (t : Throttle) : Throttle := mkThrottle (active t + d) (max t).

Inductive attempt := Accepted | TakeBack.

(** [TryAcquire] up to its first change of the counter. *)
Definition TryAcquire_add (t : Throttle) : attempt * Throttle :=
  if max t <=? 0 then (Accepted, t)
  else if max t <? active t + 1 then (TakeBack, Add 1 t) else (Accepted, Add 1 t).

Definition TryAcquire (t : Throttle) : bool * Throttle :=
  match TryAcquire_add t with
  | (Accepted, t') => (true, t')
  | (TakeBack, t') => (false, Add (-1) t')
  end.

Definition Release (t : Throttle) : Throttle := Add (-1) t.
Definition Active (t : Throttle) : Z := active t.

(** * What the client reads *)

(** The four bytes of a length at the front. *)
Fixpoint client_fields (n : nat) (bs : list byte) : option (list (option (list byte)) * list byte) :=
  match n with
  | O => Some ([], bs)
  | S n =>
      if zlen bs <? 4 then None
      else
        let len := int32 (be_decode (ztake 4 bs)) in
        let bs := zdrop 4 bs in
        if len =? -1 then match client_fields n bs with Some (fs, r) => Some (None :: fs, r) | None => None end
        else if zlen bs <? len then None
        else match client_fields n (zdrop len bs) with Some (fs, r) => Some (Some (ztake len bs) :: fs, r) | None => None end
  end.

(** The fields of a DataRow message; [None] is NULL. *)
Definition client_row (payload : list byte) : option (list (option (list byte))) :=
  match client_fields (Z.to_nat (be_decode (ztake 2 payload))) (zdrop 2 payload) with
  | Some (fs, []) => Some fs
  | _ => None
  end.

(** Messages one after the other. *)
Fixpoint unpack (n : nat) (bs : list byte) : option (list (MsgType * list byte)) :=
  match n, bs with
  | _, [] => Some []
  | O, _ => None
  | S n, t :: bs =>
      let len := be_decode (ztake 4 bs) - 4 in
      if (zlen bs <? 4) || (len <? 0) || (zlen (zdrop 4 bs) <? len) then None
      else ms ← unpack n (zdrop len (zdrop 4 bs)); Some ((t, ztake len (zdrop 4 bs)) :: ms)
  end.

Definition messages (ms : list (MsgType * list byte)) : list byte := concat (map (fun m => packet m.1 m.2) ms).

Lemma messages_cons m ms : messages (m :: ms) = packet m.1 m.2 ++ messages ms.
Proof. done. Qed.
Lemma messages_app a b : messages (a ++ b) = messages a ++ messages b.
Proof. unfold messages. by rewrite map_app, concat_app. Qed.

Lemma be4_head z rest : 0 <= z < 2 ^ 32 -> be_decode (ztake 4 (be_encode 4 z ++ rest)) = z /\ zdrop 4 (be_encode 4 z ++ rest) = rest.
Proof.
  intros Hz. rewrite ztake_app_eq, zdrop_app_eq by (by rewrite zlen_be_encode). split; [|done]. by apply be_decode_encode.
Qed.

Lemma int32_small z : 0 <= z < 2 ^ 31 -> int32 z = z.
Proof. intros. unfold int32. rewrite Z.mod_small; lia. Qed.

Definition field_ok (d : Datum) : Prop := zlen (datumToText d) < 2 ^ 31.
Definition field_text (d : Datum) : option (list byte) := if is_nil (d_Value d) then None else Some (datumToText d).

Lemma client_fields_ok ds rest :
  Forall field_ok ds -> client_fields (length ds) (concat (map field ds) ++ rest) = Some (map field_text ds, rest).
Proof.
  induction 1 as [|d ds Hd _ IH]; [done|]. cbn [length map concat client_fields]. rewrite <- app_assoc.
  pose proof (zlen_nonneg (concat (map field ds) ++ rest)) as Hr. unfold field_text at 1. destruct (is_nil (d_Value d)) eqn:En.
  - assert (field d = be_encode 4 (2 ^ 32 - 1)) as -> by (unfold field; by rewrite En).
    destruct (be4_head (2 ^ 32 - 1) (concat (map field ds) ++ rest) ltac:(lia)) as [-> ->].
    rewrite zlen_app, zlen_be_encode. rewrite (proj2 (Z.ltb_ge _ _)) by lia. change (int32 (2 ^ 32 - 1)) with (-1). cbn. by rewrite IH.
  - assert (field d = be_encode 4 (zlen (datumToText d)) ++ datumToText d) as -> by (unfold field; by rewrite En).
    rewrite <- app_assoc. pose proof (zlen_nonneg (datumToText d)) as Hn. unfold field_ok in Hd.
    destruct (be4_head (zlen (datumToText d)) (datumToText d ++ concat (map field ds) ++ rest) ltac:(lia)) as [-> ->].
    rewrite !zlen_app, zlen_be_encode. rewrite zlen_app in Hr.
    rewrite (proj2 (Z.ltb_ge _ _)) by lia. rewrite int32_small by lia. rewrite (proj2 (Z.eqb_neq _ _)) by lia.
    rewrite (proj2 (Z.ltb_ge _ _)) by lia. rewrite zdrop_app_eq, ztake_app_eq by done. by rewrite IH.
Qed.

Lemma client_row_ok row :
  zlen (Datums row) < 2 ^ 16 -> Forall field_ok (Datums row) -> client_row (data_row row) = Some (map field_text (Datums row)).
Proof.
  intros Hl Hf. unfold client_row, data_row. rewrite ztake_app_eq, zdrop_app_eq by (by rewrite zlen_be_encode).
  rewrite be_decode_encode by (pose proof (zlen_nonneg (Datums row)); lia).
  assert (Z.to_nat (zlen (Datums row)) = length (Datums row)) as -> by (unfold zlen; lia).
  rewrite <- (app_nil_r (concat _)), client_fields_ok by done. done.
Qed.

Lemma unpack_messages ms n :
  Forall (fun m => zlen m.2 < 2 ^ 32 - 4) ms -> (length ms <= n)%nat -> unpack n (messages ms) = Some ms.
Proof.
  intros Hm. revert n. induction Hm as [|[t p] ms Hp _ IH]; intros n Hn; [by destruct n|].
  destruct n as [|n]; [cbn in Hn; lia|]. cbn in Hp, Hn. pose proof (zlen_nonneg p) as Hp0.
  unfold messages. cbn [map concat fst snd]. unfold packet at 1, packet_header. cbn [app unpack].
  rewrite <- !app_assoc. fold (messages ms).
  destruct (be4_head (zlen p + 4) (p ++ messages ms) ltac:(lia)) as [-> ->].
  rewrite zlen_app, zlen_be_encode, (zlen_app p). pose proof (zlen_nonneg (messages ms)).
  replace (zlen p + 4 - 4) with (zlen p) by lia.
  rewrite !(proj2 (Z.ltb_ge _ _)) by lia. cbn [orb]. rewrite zdrop_app_eq, ztake_app_eq by done. rewrite IH by lia. done.
Qed.

(** * A healthy connection *)

Section theorems.
Context {G St Rs C : Type} `{Backend G St Rs} `{Tls C} `{GoText} `{GoScan}.
Notation Session := (Session G).
Implicit Types (s : Session).

(** No write fails. *)
Definition healthy s : Prop := writes (s_conn s) = [].

Definition says (bs : list byte) s : Session :=
  mkSession (mkConn (inp (s_conn s)) (out (s_conn s) ++ bs) (writes (s_conn s))) (s_cache s) (s_router s).

Lemma says_healthy bs s : healthy s -> healthy (says bs s).
Proof. done. Qed.
Hint Resolve says_healthy : core.

Lemma says_says a b s : says b (says a s) = says (a ++ b) s.
Proof. unfold says. cbn. by rewrite app_assoc. Qed.

Lemma says_nil s : says [] s = s.
Proof. unfold says. rewrite app_nil_r. by destruct s as [[]]. Qed.

Lemma write_says bs s : healthy s -> Write bs s = (Ok tt, says bs s).
Proof. unfold healthy, Write, write_conn, says. destruct s as [[i o w] c g]. cbn. intros ->. done. Qed.

Lemma packet_says t p s : healthy s -> WritePacket t p s = (Ok tt, says (packet t p) s).
Proof.
  intros Hh. unfold WritePacket. erewrite bind_ok by by apply write_says. rewrite write_says by auto. by rewrite says_says.
Qed.

Lemma rows_says rows s : healthy s ->
  for_each rows (fun r => WriteDataRow r) s = (Ok tt, says (messages (map (fun r => (MsgDataRow, data_row r)) rows)) s).
Proof.
  revert s. induction rows as [|r rows IH]; intros s Hh; cbn [for_each map]; [by rewrite says_nil|].
  erewrite bind_ok by by apply packet_says. rewrite IH, says_says by auto. by rewrite messages_cons.
Qed.

(** The rows of a stream that ends within [fuel] calls, with what is left of it. *)
Fixpoint drain (fuel : nat) (r : Rs) (g : G) : option (list Row * Rs * G) :=
  match fuel with
  | O => None
  | S fuel =>
      match rs_Next r g with
      | (None, (r', g')) => Some ([], r', g')
      | (Some row, (r', g')) =>
          match drain fuel r' g' with Some (rows, r'', g'') => Some (row :: rows, r'', g'') | None => None end
      end
  end.

Definition with_router (g : G) s : Session := mkSession (s_conn s) (s_cache s) g.

Lemma send_rows_says fuel r s rows r' g' :
  healthy s -> drain fuel r (s_router s) = Some (rows, r', g') ->
  send_rows fuel r s = (Ok r', with_router g' (says (messages (map (fun r => (MsgDataRow, data_row r)) rows)) s)).
Proof.
  revert r s rows. induction fuel as [|fuel IH]; intros r s rows Hh Hd; [done|]. cbn [drain send_rows] in *.
  destruct (rs_Next r (s_router s)) as [[row|] [r1 g1]].
  - destruct (drain fuel r1 g1) as [[[rows1 r2] g2]|] eqn:E1; [|done]. injection Hd as <- -> ->.
    change (mkSession (s_conn s) (s_cache s) g1) with (with_router g1 s).
    erewrite bind_ok by (apply cleanup_ok; by apply packet_says). rewrite (IH r1 _ rows1) by done. cbn [map]. rewrite messages_cons, <- says_says. done.
  - injection Hd as <- <- <-. cbn [map]. change (messages []) with (@nil byte). by rewrite says_nil.
Qed.

Lemma finish_says tag s : healthy s ->
  finish tag s = (Ok tt, says (messages [(MsgCommandComplete, cstring tag); (MsgReadyForQuery, [idle])]) s).
Proof.
  intros Hh. unfold finish. erewrite bind_ok by by apply packet_says. unfold WriteReadyForQuery. rewrite packet_says, says_says by auto.
  by rewrite messages_cons, messages_cons, app_nil_r.
Qed.

(** C16: A query that the router answers with a stream gets a description of its columns,
    one message for each row in order, the end of the command and the sign that the server
    is ready; read as messages and fields they are these rows.  The tag counts no rows:
    it is the number of changed rows. *)
Theorem query_reply sql stmt s result g1 r rows r' g' fuel :
  healthy s -> sql <> [] -> isCatalogQuery sql = false -> Parse sql = Ok stmt ->
  Route 0 stmt (s_router s) = (Ok result, g1) -> Stream result = Some r -> drain fuel r g1 = Some (rows, r', g') ->
  let reply := (MsgRowDescription, row_description (rs_Schema r)) :: map (fun row => (MsgDataRow, data_row row)) rows ++
    [(MsgCommandComplete, cstring (result_tag result)); (MsgReadyForQuery, [idle])] in
  handle_message fuel MsgQuery sql s = (Ok true, with_router (rs_Close r' g') (says (messages reply) s)) /\
  (Forall (fun m => zlen m.2 < 2 ^ 32 - 4) reply -> unpack (length reply) (messages reply) = Some reply) /\
  forall row, row ∈ rows -> zlen (Datums row) < 2 ^ 16 -> Forall field_ok (Datums row) ->
    client_row (data_row row) = Some (map field_text (Datums row)).
Proof.
  intros Hh Hne Hc Hp Hr Hs Hd reply. split; [|split; [intros; by apply unpack_messages|intros; by apply client_row_ok]].
  unfold handle_message. cbn [bool_decide]. change (bool_decide (MsgQuery = MsgTerminate)) with false.
  change (bool_decide (MsgQuery = MsgQuery)) with true. cbn iota.
  assert (handleQuery fuel sql s = (Ok tt, with_router (rs_Close r' g') (says (messages reply) s))) as E0.
  { unfold handleQuery. rewrite bool_decide_eq_false_2 by done. unfold executeSQL. rewrite Hc. unfold run_sql. rewrite Hp.
    unfold route. rewrite Hr. change (mkSession (s_conn s) (s_cache s) g1) with (with_router g1 s).
    unfold send_result. rewrite Hs. erewrite bind_ok by by apply packet_says.
    erewrite bind_ok by (apply send_rows_says; [done|exact Hd]).
    erewrite bind_ok by (apply cleanup_ok; by apply finish_says).
    unfold reply. rewrite (messages_cons (MsgRowDescription, _)), messages_app, <- !says_says. done. }
  unfold bind, report. by rewrite E0.
Qed.

Lemma failed_query sql s e fuel :
  healthy s -> sql <> [] -> isCatalogQuery sql = false ->
  (Parse sql = Err e \/ exists stmt g, Parse sql = Ok stmt /\ Route 0 stmt (s_router s) = (Err e, g)) ->
  exists code g, handle_message fuel MsgQuery sql s
    = (Ok true, with_router g (says (packet MsgErrorResponse (error_fields (go_string "ERROR") code e)) s)).
Proof.
  intros Hh Hne Hc He. unfold handle_message. change (bool_decide (MsgQuery = MsgTerminate)) with false.
  change (bool_decide (MsgQuery = MsgQuery)) with true. cbn iota.
  assert (exists code g, handleQuery fuel sql s
    = (Ok tt, with_router g (says (packet MsgErrorResponse (error_fields (go_string "ERROR") code e)) s))) as (code & g & E0);
    [|exists code, g; unfold bind, report; by rewrite E0].
  unfold handleQuery. rewrite bool_decide_eq_false_2 by done. unfold executeSQL. rewrite Hc. unfold run_sql.
  destruct He as [->|(stmt & g & -> & Hr)].
  - exists (go_string "42601"), (s_router s). unfold writeError, WriteErrorResponse. rewrite packet_says by done.
    unfold with_router, says. done.
  - exists (go_string "42000"), g. unfold route. rewrite Hr. change (mkSession (s_conn s) (s_cache s) g) with (with_router g s).
    unfold writeError, WriteErrorResponse. rewrite packet_says by done. done.
Qed.

(** A query that does not parse, or that the router refuses, gets the error and nothing
    else: the sign that the server is ready, which a client waits for, is not sent. *)
Theorem failed_query_not_ready sql s e fuel :
  healthy s -> sql <> [] -> isCatalogQuery sql = false ->
  (Parse sql = Err e \/ exists stmt g, Parse sql = Ok stmt /\ Route 0 stmt (s_router s) = (Err e, g)) ->
  exists code g, handle_message fuel MsgQuery sql s
    = (Ok true, with_router g (says (packet MsgErrorResponse (error_fields (go_string "ERROR") code e)) s)).
Proof. apply failed_query. Qed.

(** ** Prepared statements *)

Lemma split_name a rest : x00 ∉ a -> split_on_nul (cstring a ++ rest) = a :: split_on_nul rest.
Proof.
  unfold cstring. induction a as [|b a IH]; intros Ha; [done|]. apply not_elem_of_cons in Ha as [Hb Ha].
  cbn [app split_on_nul]. rewrite bool_decide_eq_false_2 by done. by rewrite IH.
Qed.

Lemma split_not_nil bs : split_on_nul bs <> [].
Proof. destruct bs as [|b bs]; [done|]. cbn. case_bool_decide; [done|]. by destruct (split_on_nul bs). Qed.

(** Only the last part may be dropped. *)
Lemma splitNull_app a ps bs : split_on_nul bs = a ++ ps -> ps <> [] -> exists ps', splitNull bs = a ++ ps' /\ (length ps <= S (length ps'))%nat.
Proof.
  intros E0 Hne. unfold splitNull. rewrite E0. destruct (exists_last Hne) as (q & x & ->).
  case_bool_decide.
  - exists q. split; [|rewrite length_app; cbn; lia]. by rewrite app_assoc, removelast_last.
  - eexists. split; [done|lia].
Qed.

(** A Bind message of the protocol: portal, statement, format codes, parameters with NULL,
    format codes of the result. *)
Definition encode_param (p : option (list byte)) : list byte :=
  match p with None => be_encode 4 (-1) | Some t => be_encode 4 (zlen t) ++ t end.
Definition encode_bind (portal stmt : list byte) (formats : list Z) (params : list (option (list byte))) (results : list Z) : list byte :=
  cstring portal ++ cstring stmt ++ be_encode 2 (zlen formats) ++ concat (map (be_encode 2) formats) ++
  be_encode 2 (zlen params) ++ concat (map encode_param params) ++ be_encode 2 (zlen results) ++ concat (map (be_encode 2) results).

Lemma small_count_head n : 0 <= n < 256 -> be_encode 2 n = [x00; z2b n].
Proof.
  intros Hn. assert (be_decode [x00; z2b n] = n) as E0.
  { change [x00; z2b n] with ([x00] ++ [z2b n]). rewrite be_decode_snoc, b2z_z2b, Z.mod_small by lia.
    assert (be_decode [x00] = 0) as -> by by vm_compute. done. }
  rewrite <- E0 at 1. by apply be_encode_decode.
Qed.

(** Behind the two names nothing is left of the message. *)
Lemma split_bind portal stmt formats params results :
  x00 ∉ portal -> x00 ∉ stmt -> zlen formats < 256 ->
  exists ps, splitNull (encode_bind portal stmt formats params results) = portal :: stmt :: [] :: ps.
Proof.
  intros Hp Hs Hf. unfold encode_bind. set (tail := _ ++ be_encode 2 (zlen params) ++ _).
  assert (exists ps, split_on_nul (cstring portal ++ cstring stmt ++ be_encode 2 (zlen formats) ++ tail) = [portal; stmt; []] ++ ps /\ ps <> [])
    as (ps & E0 & Hne).
  { rewrite !split_name by done. rewrite small_count_head by (pose proof (zlen_nonneg formats); lia). cbn [app split_on_nul].
    change (bool_decide (x00 = x00)) with true. cbn iota. eexists. split; [done|]. exact (split_not_nil (z2b (zlen formats) :: tail)). }
  destruct (splitNull_app _ _ _ E0 Hne) as (ps' & -> & _). by exists ps'.
Qed.

(** C38: Whatever parameters a client binds to a statement, with fewer than 256 format codes,
    the portal has none, and Execute runs the text of the statement with its placeholders. *)
Theorem bound_parameters_lost portal stmt formats params results maxRows plan s fuel :
  healthy s -> x00 ∉ portal -> x00 ∉ stmt -> zlen formats < 256 -> statements (s_cache s) !! stmt = Some plan ->
  exists s', handle_message fuel MsgBind (encode_bind portal stmt formats params results) s = (Ok true, s') /\
    portals (s_cache s') !! portal = Some (mkPortal portal stmt []) /\
    handle_message fuel MsgExecute (cstring portal ++ be_encode 4 maxRows) s' = (report (executeSQL fuel (SQL plan)) ;;; ret true) s'.
Proof.
  intros Hh Hp Hs Hf Hplan. destruct (split_bind portal stmt formats params results Hp Hs Hf) as (ps & Esplit).
  set (s1 := mkSession (s_conn s) (mkSessionCache (statements (s_cache s)) (<[portal := mkPortal portal stmt []]> (portals (s_cache s)))) (s_router s)).
  exists (says (packet MsgBindComplete []) s1). split_and!.
  - unfold handle_message. change (bool_decide (MsgBind = MsgTerminate)) with false. change (bool_decide (MsgBind = MsgQuery)) with false.
    change (is_extended MsgBind) with true. cbn iota. unfold handleExtendedMessage.
    change (bool_decide (MsgBind = MsgParse)) with false. change (bool_decide (MsgBind = MsgBind)) with true. cbn iota.
    unfold handleBind. rewrite Esplit. unfold report, bind, gets, lift. rewrite Hplan. cbn [negb bool_decide].
    rewrite (bool_decide_eq_true_2 (is_Some (Some plan))) by by eexists. cbn [negb andb].
    change (bound_params []) with (@Ok srv_err _ (@nil Datum)). cbn iota. unfold on_cache, modify. fold s1. by rewrite packet_says.
  - cbn. apply lookup_insert_eq.
  - unfold handle_message. change (bool_decide (MsgExecute = MsgTerminate)) with false. change (bool_decide (MsgExecute = MsgQuery)) with false.
    change (is_extended MsgExecute) with true. cbn iota. unfold handleExtendedMessage.
    change (bool_decide (MsgExecute = MsgParse)) with false. change (bool_decide (MsgExecute = MsgBind)) with false.
    change (bool_decide (MsgExecute = MsgExecute)) with true. cbn iota.
    assert (handleExecute fuel (cstring portal ++ be_encode 4 maxRows) (says (packet MsgBindComplete []) s1)
      = executeSQL fuel (SQL plan) (says (packet MsgBindComplete []) s1)) as E1.
    { unfold handleExecute. destruct (splitNull_app [portal] (split_on_nul (be_encode 4 maxRows)) (cstring portal ++ be_encode 4 maxRows))
        as (ps' & -> & _); [by rewrite split_name|apply split_not_nil|]. cbn [app]. rewrite bind_gets. cbn [portals s_cache says s1].
      rewrite lookup_insert_eq. cbn [PlanName statements s_cache]. rewrite Hplan. done. }
    unfold report, bind. by rewrite E1.
Qed.

(** A Bind message with a parameter of length -2, written without the byte 0: 257 format
    codes, 257 parameters. *)
Definition crashing_bind : list byte :=
  [x00; x00] ++ be_encode 2 257 ++ concat (replicate 257 [x01; x01]) ++ be_encode 2 257 ++ be_encode 4 (-2).

(** C39: A client can end the process of the server, without a name or a password: one Bind
    message of less than a thousand bytes makes a slice expression panic, and nothing
    recovers from it. *)
Theorem bind_crashes_server s fuel :
  zlen crashing_bind < 1000 /\ handle_message fuel MsgBind crashing_bind s = (Err ErrPanic, s).
Proof.
  split; [by vm_compute|]. unfold handle_message. change (bool_decide (MsgBind = MsgTerminate)) with false.
  change (bool_decide (MsgBind = MsgQuery)) with false. change (is_extended MsgBind) with true. cbn iota. unfold handleExtendedMessage.
  change (bool_decide (MsgBind = MsgParse)) with false. change (bool_decide (MsgBind = MsgBind)) with true. cbn iota.
  assert (exists rest, splitNull crashing_bind = [[]; []; rest] /\ bound_params rest = Err ErrPanic) as (rest & E0 & E1).
  { eexists. split; [by vm_compute|by vm_compute]. }
  unfold report, bind, handleBind. rewrite E0. unfold bind, gets. rewrite (bool_decide_eq_true_2 (@nil byte = [])) by done.
  cbn [negb]. rewrite andb_false_r. unfold lift. rewrite E1. done.
Qed.

(** ** Every session ends *)

(** The operation never runs out of fuel and gives no bytes back. *)
Definition goes_on {A} s (x : res srv_err A * Session) : Prop :=
  fst x <> Err ErrFuel /\ (length (inp (s_conn (snd x))) <= length (inp (s_conn s)))%nat.
Definition steady {A} (c : sess (G:=G) A) : Prop := forall s, goes_on s (c s).

Lemma bind_goes_on {A B} (c : sess A) (k : A -> sess B) s :
  goes_on s (c s) -> (forall a s1, c s = (Ok a, s1) -> goes_on s (k a s1)) -> goes_on s (bind c k s).
Proof.
  unfold bind. intros [Hr Hl] Hk. destruct (c s) as [[a|e] s1]; [by apply Hk|]. split; [by intros [= ->]|done].
Qed.

Lemma goes_on_trans {A} s s1 (x : res srv_err A * Session) :
  (length (inp (s_conn s1)) <= length (inp (s_conn s)))%nat -> goes_on s1 x -> goes_on s x.
Proof. unfold goes_on. intros ? [? ?]. split; [done|lia]. Qed.

Lemma steady_left {A} (c : sess A) s r s1 : steady c -> c s = (r, s1) -> (length (inp (s_conn s1)) <= length (inp (s_conn s)))%nat.
Proof. intros Hc E0. destruct (Hc s) as [_ Hl]. by rewrite E0 in Hl. Qed.

Lemma steady_ret {A} (a : A) : steady (ret a).
Proof. by split. Qed.
Lemma steady_bind {A B} (c : sess A) (k : A -> sess B) : steady c -> (forall a, steady (k a)) -> steady (bind c k).
Proof.
  intros Hc Hk s. apply bind_goes_on; [apply Hc|]. intros a s1 E0. apply (goes_on_trans s s1); [by eapply steady_left|apply Hk].
Qed.
Lemma steady_cleanup {A B} (c : sess A) (k : sess B) : steady c -> steady k -> steady (cleanup c k).
Proof.
  intros Hc Hk s. unfold cleanup. specialize (Hc s). destruct (c s) as [[a|e] s1]; [done|]. destruct Hc as [Hr Hl], (Hk s1) as [_ Hl1].
  cbn [fst snd] in *. split; [by intros [= ->]|cbn [snd]; lia].
Qed.
Lemma steady_ignore {A} (c : sess A) : steady c -> steady (ignore c).
Proof. intros Hc s. split; [done|]. by destruct (Hc s). Qed.
Lemma steady_gets {A} (f : Session -> A) : steady (gets f).
Proof. by split. Qed.
Lemma steady_lift {A} (r : res srv_err A) : r <> Err ErrFuel -> steady (lift r).
Proof. by split. Qed.
Lemma steady_each {A} (l : list A) (f : A -> sess unit) : (forall a, steady (f a)) -> steady (for_each l f).
Proof. intros Hf. induction l as [|a l IH]; [apply steady_ret|]. by apply steady_bind. Qed.
Lemma steady_write bs : steady (Write bs).
Proof.
  intros s. unfold Write, write_conn. by destruct (writes (s_conn s)) as [|[[n e]|] ws].
Qed.
Lemma steady_packet t p : steady (WritePacket t p).
Proof. apply steady_bind; [apply steady_write|intros; apply steady_write]. Qed.
Lemma steady_read n : steady (ReadFull n).
Proof.
  intros s. unfold ReadFull, read_conn. destruct (n <=? _); unfold goes_on; cbn [fst snd inp s_conn].
  - split; [done|]. unfold zdrop. rewrite length_drop. lia.
  - split; [|cbn; lia]. by case_bool_decide.
Qed.
Lemma steady_cache f : steady (on_cache f).
Proof. by split. Qed.
Lemma steady_close r : steady (close_stream r).
Proof. by split. Qed.
Lemma steady_wrap {A} p (c : sess A) : steady c -> steady (wrap_err p c).
Proof.
  intros Hc s. unfold wrap_err. destruct (Hc s) as [Hr Hl]. by destruct (c s) as [[a|[]] s1].
Qed.
Lemma steady_error a b m : steady (writeError a b m).
Proof. apply steady_packet. Qed.
Lemma steady_report c : steady c -> steady (report c).
Proof.
  intros Hc s. unfold report. destruct (Hc s) as [Hr Hl]. destruct (c s) as [[a|e] s1]; [done|]. cbn [fst snd] in *.
  pose proof (steady_ignore (writeError "ERROR" "42601" (Error e)) (steady_packet _ _)) as Hi.
  destruct (Hi s1) as [? ?]. destruct e; try done; split; try done; lia.
Qed.
Lemma steady_upgrade `{!TlsLaws C} tls : steady (upgrade tls).
Proof.
  intros s. unfold upgrade. pose proof (Handshake_shrinks tls (s_conn s)) as Hl. destruct (Handshake tls (s_conn s)) as [[[]|e] c]; by split.
Qed.
#[local] Hint Resolve steady_ret steady_bind steady_cleanup steady_ignore steady_gets steady_each steady_write steady_packet
  steady_read steady_cache steady_close steady_wrap steady_error steady_report : core.

Lemma steady_greet : steady greet.
Proof. repeat (apply steady_bind; [auto|intros]); auto. Qed.

Lemma steady_finish tag : steady (finish tag).
Proof. apply steady_bind; [apply steady_packet|intros; apply steady_packet]. Qed.

(** With enough fuel the operation does the same for all fuel, and ends. *)
Definition settled {A} (c : nat -> sess A) s : Prop :=
  exists k x, goes_on s x /\ forall fuel, (k <= fuel)%nat -> c fuel s = x.
Definition settles {A} (c : nat -> sess A) : Prop := forall s, settled c s.

Lemma settled_steady {A} (c : sess A) s : steady c -> settled (fun _ => c) s.
Proof. intros Hc. by exists 0%nat, (c s). Qed.

Lemma settled_more {A} (c : nat -> sess A) s s1 :
  (length (inp (s_conn s1)) <= length (inp (s_conn s)))%nat ->
  settled c s1 -> exists k x, goes_on s x /\ forall fuel, (k <= fuel)%nat -> c fuel s1 = x.
Proof. intros Hl (k & x & Hx & Hk). exists k, x. split; [by apply (goes_on_trans s s1)|done]. Qed.

Lemma settled_bind {A B} (c : nat -> sess A) (f : nat -> A -> sess B) s :
  settled c s -> (forall a s1 n, c n s = (Ok a, s1) -> settled (fun fuel => f fuel a) s1) ->
  settled (fun fuel => bind (c fuel) (f fuel)) s.
Proof.
  intros (k & [[a|e] s1] & [Hr Hl] & Hk) Hf; cbn [fst snd] in *.
  - destruct (settled_more _ s s1 Hl (Hf a s1 k (Hk k (Nat.le_refl _)))) as (k' & x & Hx & Hk').
    exists (Nat.max k k'), x. split; [done|]. intros fuel Hm. unfold bind. rewrite Hk by lia. apply Hk'. lia.
  - exists k, (Err e, s1). split; [split; [by intros [= ->]|done]|]. intros fuel Hm. unfold bind. by rewrite Hk.
Qed.

Lemma settles_bind {A B} (c : nat -> sess A) (f : nat -> A -> sess B) :
  settles c -> (forall a, settles (fun fuel => f fuel a)) -> settles (fun fuel => bind (c fuel) (f fuel)).
Proof. intros Hc Hf s. apply settled_bind; [apply Hc|]. intros a s1 n _. apply Hf. Qed.

Lemma settles_report (c : nat -> sess unit) : settles c -> settles (fun fuel => report (c fuel)).
Proof.
  intros Hc s. destruct (Hc s) as (k & x & Hx & Hk). exists k, (report (fun _ => x) s). split.
  - destruct x as [[[]|e] s1]; [done|]. destruct Hx as [Hr Hl]. cbn [fst snd] in *.
    pose proof (steady_ignore (writeError "ERROR" "42601" (Error e)) (steady_packet _ _) s1) as [? ?].
    unfold report. destruct e; try done; split; try done; lia.
  - intros fuel Hm. unfold report. by rewrite Hk.
Qed.

(** Writing leaves the router alone. *)
Lemma packet_router t p s : s_router (snd (WritePacket t p s)) = s_router s.
Proof.
  unfold WritePacket, bind, Write. destruct (write_conn _ (s_conn s)) as [[[]|] c1]; [|done]. cbn [s_conn].
  by destruct (write_conn p c1) as [[[]|] c2].
Qed.

(** The stream ends after finitely many rows. *)
Definition stream_ends (r : Rs) (g : G) : Prop := exists fuel, is_Some (drain fuel r g).

(** A stream whose rows are used up ends, as those of the metrics and the logs engine. *)
Lemma shortening_ends (m : Rs -> nat) :
  (forall r g row r' g', rs_Next r g = (Some row, (r', g')) -> (m r' < m r)%nat) -> forall r g, stream_ends r g.
Proof.
  intros Hm r. remember (m r) as n eqn:En. revert r En. induction n as [n IH] using lt_wf_ind. intros r -> g.
  destruct (rs_Next r g) as [[row|] [r' g']] eqn:E1.
  - destruct (IH (m r') (Hm _ _ _ _ _ E1) r' eq_refl g') as (fuel & [[rows r2] g2] & Ed). exists (S fuel). cbn. rewrite E1, Ed. by eexists.
  - exists 1%nat. cbn. rewrite E1. by eexists.
Qed.

Lemma settled_rows r s : stream_ends r (s_router s) -> settled (fun fuel => send_rows fuel r) s.
Proof.
  intros (fuel & Hd). revert r s Hd. induction fuel as [|fuel IH]; intros r s Hd; [by destruct Hd|]. cbn [drain] in Hd.
  destruct (rs_Next r (s_router s)) as [[row|] [r1 g1]] eqn:E1.
  - assert (is_Some (drain fuel r1 g1)) as Hd1 by (destruct (drain fuel r1 g1); [by eexists|by destruct Hd]).
    set (s0 := mkSession (s_conn s) (s_cache s) g1).
    set (w := cleanup (WriteDataRow row) (close_stream r1)).
    assert (steady w) as Hw by (apply steady_cleanup; [apply steady_packet|apply steady_close]).
    assert (settled (fun fuel => w ;;; send_rows fuel r1) s0) as (k & x & Hx & Hk).
    { apply (settled_bind (fun _ => w)); [by apply settled_steady|]. intros [] s1 _ Ew. apply IH.
      assert (s_router s1 = g1) as ->; [|done]. unfold w, cleanup in Ew. pose proof (packet_router MsgDataRow (data_row row) s0) as Hp.
      unfold WriteDataRow in Ew. destruct (WritePacket _ _ s0) as [[[]|] s2]; [|done]. by injection Ew as <-. }
    exists (S k), x. split; [by apply (goes_on_trans s s0)|]. intros [|f] Hf; [lia|]. cbn [send_rows]. rewrite E1. apply Hk. lia.
  - exists 1%nat, (Ok r1, mkSession (s_conn s) (s_cache s) g1). split; [by split|]. intros [|f] Hf; [lia|]. cbn [send_rows]. by rewrite E1.
Qed.

(** What a router returns ends. *)
Definition streams_end : Prop :=
  forall stmt g result g1 r, Route 0 stmt g = (Ok result, g1) -> Stream result = Some r -> stream_ends r g1.

Lemma settled_result result s :
  (forall r, Stream result = Some r -> stream_ends r (s_router s)) -> settled (fun fuel => send_result fuel result) s.
Proof.
  intros He. unfold send_result. destruct (Stream result) as [r|]; [|apply settled_steady, steady_finish].
  apply (settled_bind (fun _ => WriteRowDescription (rs_Schema r))); [apply settled_steady, steady_packet|]. intros [] s1 _ E1.
  pose proof (packet_router MsgRowDescription (row_description (rs_Schema r)) s) as Hp. unfold WriteRowDescription in E1. rewrite E1 in Hp. cbn [snd] in Hp.
  apply settled_bind; [apply settled_rows; rewrite Hp; by apply He|]. intros r' s2 _ _. apply settled_steady.
  apply steady_bind; [apply steady_cleanup; [apply steady_finish|apply steady_close]|intros; apply steady_close].
Qed.

Lemma settles_sql sql : streams_end -> settles (fun fuel => executeSQL fuel sql).
Proof.
  intros He s. unfold executeSQL. destruct (if isCatalogQuery sql then _ else _) as [[[schema rows] tag]|].
  - apply settled_steady. apply steady_bind; [apply steady_packet|intros _]. apply steady_bind; [|intros; apply steady_finish].
    apply steady_each. intros; apply steady_packet.
  - unfold run_sql. destruct (Parse sql) as [stmt|e]; [|apply settled_steady, steady_error].
    unfold settled, route. destruct (Route 0 stmt (s_router s)) as [[result|e] g] eqn:Er.
    + apply (settled_more (fun fuel => send_result fuel result) s (mkSession (s_conn s) (s_cache s) g) (Nat.le_refl _)).
      apply settled_result. intros r Hr. by apply (He stmt (s_router s) result g r).
    + apply (settled_more (fun _ => writeError "ERROR" "42000" (Error (ErrText e))) s (mkSession (s_conn s) (s_cache s) g) (Nat.le_refl _)).
      apply settled_steady, steady_error.
Qed.

Lemma bind_params_fuel n rest : bind_params n rest <> Err ErrFuel.
Proof.
  revert rest. induction n as [|n IH]; intros rest; [done|]. cbn [bind_params]. destruct (_ <? 4); [done|].
  destruct (_ =? -1); [specialize (IH (zdrop 4 rest)); by destruct (bind_params n (zdrop 4 rest)) as [|[]]|].
  destruct (_ <? _); [apply IH|]. destruct (_ <? 0); [done|].
  match goal with |- context [bind_params n ?r] => specialize (IH r); by destruct (bind_params n r) as [|[]] end.
Qed.

Lemma settles_extended t p : streams_end -> settles (fun fuel => handleExtendedMessage fuel t p).
Proof.
  intros He s. unfold handleExtendedMessage. repeat case_bool_decide; auto using settled_steady.
  - apply settled_steady. unfold handleParse. destruct (splitNull p) as [|? [|? [|? ?]]]; auto.
  - apply settled_steady. unfold handleBind. destruct (splitNull p) as [|? [|? [|rest ?]]]; auto. apply steady_bind; [auto|intros plan].
    destruct (negb _ && _); [auto|]. apply steady_bind; [|auto]. apply steady_lift. unfold bound_params.
    destruct (_ <? 2); [done|]. destruct (_ <? _); [done|]. apply bind_params_fuel.
  - unfold handleExecute. destruct (splitNull p) as [|? ?]; [apply settled_steady; auto|].
    apply (settled_bind (fun _ => gets s_cache)); [apply settled_steady; auto|]. intros cache s1 _ _.
    destruct (portals cache !! _) as [po|]; [|apply settled_steady; auto].
    destruct (statements cache !! _); [by apply settles_sql|apply settled_steady; auto].
  - apply settled_steady, steady_packet.
  - apply settled_steady, steady_packet.
  - apply settled_steady, steady_packet.
Qed.

Lemma settles_message t p : streams_end -> settles (fun fuel => handle_message fuel t p).
Proof.
  intros He s. unfold handle_message. case_bool_decide; [apply settled_steady; auto|].
  apply settled_bind; [|intros; apply settled_steady; auto].
  case_bool_decide; [|destruct (is_extended t); [apply settles_report; intros ?; by apply settles_extended|apply settled_steady; auto]].
  apply settles_report. intros s1. unfold handleQuery. case_bool_decide; [apply settled_steady, steady_packet|by apply settles_sql].
Qed.

(** A message takes at least five bytes. *)
Lemma read_message_run s :
  fst (read_message s) <> Err ErrFuel /\ (length (inp (s_conn (snd (read_message s)))) <= length (inp (s_conn s)))%nat /\
  forall m, fst (read_message s) = Ok (Some m) -> (length (inp (s_conn (snd (read_message s)))) < length (inp (s_conn s)))%nat.
Proof.
  unfold read_message. destruct (steady_read 5 s) as [Hr Hl].
  assert (forall buf s1, ReadFull 5 s = (Ok buf, s1) -> (length (inp (s_conn s1)) < length (inp (s_conn s)))%nat) as Hlt.
  { unfold ReadFull, read_conn. intros buf s1. destruct (5 <=? zlen (inp (s_conn s))) eqn:E5; [|case_bool_decide; done].
    apply Z.leb_le in E5. unfold zlen in E5. intros [= _ <-]. cbn. unfold zdrop. rewrite length_drop. lia. }
  destruct (ReadFull 5 s) as [[buf|e] s1]; cbn [fst snd] in *; [specialize (Hlt _ _ eq_refl)|by destruct e].
  destruct buf as [|t lb]; [cbn [fst snd]; split_and!; [done|lia|done]|].
  destruct (_ || _); [cbn [fst snd]; split_and!; [done|lia|done]|].
  match goal with |- context [ReadFull ?n] => destruct (steady_read n s1) as [Hr2 Hl2]; unfold bind; destruct (ReadFull n s1) as [[p|e] s2] end;
    cbn [fst snd ret] in *; split_and!; try done; try lia; by intros [= ->].
Qed.

Lemma settles_loop n s : streams_end -> (length (inp (s_conn s)) < n)%nat -> settled (fun fuel => command_loop n fuel) s.
Proof.
  intros He. revert s. induction n as [|n IH]; intros s Hn; [lia|]. cbn [command_loop].
  pose proof (read_message_run s) as (Hr & Hl & Hm).
  apply (settled_bind (fun _ => read_message)); [exists 0%nat, (read_message s); by split|].
  intros msg s1 _ E1. rewrite E1 in *. cbn [fst snd] in *. destruct msg as [[t p]|]; [|apply settled_steady; auto].
  specialize (Hm _ eq_refl). destruct (settles_message t p He s1) as (k & x & [Hx1 Hx2] & Hk).
  set (f := fun (fuel : nat) (go_on : bool) => if go_on then command_loop n fuel else ret tt).
  destruct x as [[go_on|e] s2]; cbn [fst snd] in *.
  - assert (settled (fun fuel => f fuel go_on) s2) as Hf by (destruct go_on; [apply IH; lia|apply settled_steady; auto]).
    destruct (settled_more _ s1 s2 Hx2 Hf) as (k' & y & Hy & Hk'). exists (Nat.max k k'), y. split; [done|].
    intros fuel Hm'. unfold bind. rewrite Hk by lia. apply Hk'. lia.
  - exists k, (Err e, s2). split; [split; [by intros [= ->]|done]|]. intros fuel Hm'. unfold bind. by rewrite Hk.
Qed.

(** Four bytes were read. *)
Lemma wrap_read_less p n lb s s1 :
  0 < n -> wrap_err p (ReadFull n) s = (Ok lb, s1) -> (length (inp (s_conn s1)) < length (inp (s_conn s)))%nat.
Proof.
  intros Hn. unfold wrap_err, ReadFull, read_conn. destruct (n <=? zlen (inp (s_conn s))) eqn:E4; [|case_bool_decide; done].
  apply Z.leb_le in E4. unfold zlen in E4. intros [= _ <-]. cbn. unfold zdrop. rewrite length_drop. lia.
Qed.

Lemma startup_ends `{!TlsLaws C} n ssl s :
  (length (inp (s_conn s)) < n)%nat -> goes_on s (handleStartup n ssl s).
Proof.
  revert s. induction n as [|n IH]; intros s Hn; [lia|]. cbn [handleStartup].
  apply bind_goes_on; [apply steady_wrap, steady_read|]. intros lb s1 E1. apply wrap_read_less in E1; [|lia].
  destruct (_ <? 4); [split; [done|cbn; lia]|].
  apply (goes_on_trans s s1); [lia|].
  apply bind_goes_on; [apply steady_wrap, steady_read|]. intros p s2 E2.
  apply steady_left in E2; [|apply steady_wrap, steady_read].
  apply (goes_on_trans s1 s2); [done|].
  destruct (_ && _).
  - assert (steady (match tlsConfig ssl with Ok (Some tls) => Write [x53] ;;; upgrade tls | _ => Write [MsgSSLRequestN] end)) as Ht.
    { destruct (tlsConfig ssl) as [[tls|]|]; auto. apply steady_bind; [auto|intros _]. apply steady_upgrade. }
    apply bind_goes_on; [apply Ht|]. intros [] s3 E3. apply (steady_left _ _ _ _ Ht) in E3.
    apply (goes_on_trans s2 s3); [done|]. apply IH. lia.
  - destruct (zlen p <? 4); [by split|]. destruct (negb _); [by split|]. apply steady_greet.
Qed.

(** C17: Whatever bytes a client sends, however the writes to it end and with or without TLS,
    its session ends, if every stream of rows that the router returns does: some number of
    turns of the row loops is enough, more give the same, and the other loops take at most
    one turn for a byte.  Streams that are used up by their rows end
    ([shortening_ends]); one that does not is in [PlannerSpec.empty_aggregate_endless]. *)
Theorem session_ends `{!TlsLaws C} n ssl c g :
  streams_end -> (length (inp c) < n)%nat ->
  exists k x, fst x <> Err ErrFuel /\ forall fuel, (k <= fuel)%nat -> handleConn n fuel ssl c g = x.
Proof.
  intros He Hn. unfold handleConn, Run. set (s := mkSession c newSessionCache g). change c with (s_conn s) in Hn.
  destruct (startup_ends n ssl s Hn) as [Hr Hl]. destruct (handleStartup n ssl s) as [[[]|e] s1]; cbn [fst snd] in *.
  - destruct (settles_loop n s1 He) as (k & x & [Hx _] & Hk); [lia|]. by exists k, x.
  - exists 0%nat. eexists. split; [|intros; done]. by destruct e.
Qed.
End theorems.

(** * The throttle among many connections *)

(** The connections that were accepted and are open, the calls that have yet to take back
    theirs, and the connections that have ended. *)
Record crowd := mkCrowd { throttle : Throttle; held : Z; leaving : Z; ended : Z }.

Inductive throttle_step : crowd -> crowd -> Prop :=
| step_accepted t t' h l e : TryAcquire_add t = (Accepted, t') -> throttle_step (mkCrowd t h l e) (mkCrowd t' (h + 1) l e)
| step_refused t t' h l e : TryAcquire_add t = (TakeBack, t') -> throttle_step (mkCrowd t h l e) (mkCrowd t' h (l + 1) e)
| step_taken_back t h l e : 0 < l -> throttle_step (mkCrowd t h l e) (mkCrowd (Add (-1) t) h (l - 1) e)
| step_released t h l e : 0 < h -> throttle_step (mkCrowd t h l e) (mkCrowd (Release t) (h - 1) l (e + 1)).

Inductive throttle_reachable (limit : Z) : crowd -> Prop :=
| reachable_idle : throttle_reachable limit (mkCrowd (NewThrottle limit) 0 0 0)
| reachable_next c c' : throttle_reachable limit c -> throttle_step c c' -> throttle_reachable limit c'.

(** C37: However the calls of TryAcquire and Release interleave, with a limit no more
    connections are held than it says, and the counter is theirs and that of the calls
    under way, so that it is back at 0 when all have ended.  Without a limit the counter
    is minus the number of connections that have ended: it goes below 0 with the first
    of them. *)
Theorem throttle_bounds limit c :
  throttle_reachable limit c ->
  0 <= held c /\ 0 <= leaving c /\ 0 <= ended c /\
  (0 < limit -> held c <= limit /\ Active (throttle c) = held c + leaving c) /\
  (limit <= 0 -> leaving c = 0 /\ Active (throttle c) = - ended c).
Proof.
  intros Hr. assert (max (throttle c) = limit /\ 0 <= held c /\ 0 <= leaving c /\ 0 <= ended c /\
    (0 < limit -> held c <= limit /\ active (throttle c) = held c + leaving c) /\
    (limit <= 0 -> leaving c = 0 /\ active (throttle c) = - ended c)) as (_ & H0); [|exact H0].
  induction Hr as [|c c' _ IH Hs]; [cbn; lia|]. destruct IH as (Hm & Hh & Hl & He & Hpos & Hneg).
  destruct Hs as [t t' h l e Ht|t t' h l e Ht|t h l e Ht|t h l e Ht]; cbn [throttle held leaving ended] in *; unfold TryAcquire_add in *.
  - destruct (max t <=? 0) eqn:E0.
    + apply Z.leb_le in E0. injection Ht as <-. lia.
    + apply Z.leb_gt in E0. destruct (_ <? _) eqn:E1; [done|]. apply Z.ltb_ge in E1. injection Ht as <-. cbn. lia.
  - destruct (max t <=? 0) eqn:E0; [done|]. apply Z.leb_gt in E0. destruct (_ <? _) eqn:E1; [|done]. injection Ht as <-. cbn. lia.
  - cbn. lia.
  - cbn. lia.
Qed.

(** * The server over the router and the catalog *)

From S2P Require Import OrdMap Key KvNode KvSpec GoRuntime HeapValue Heap HeapScan SqlEngine Catalog CatalogProof Router.

Section over_router.
Context {S E Rs C : Type} `{KvOps S E} `{GoRuntime} `{Passwords} `{GoText} `{GoScan} `{Tls C}.
Context (parse : list byte -> res (list byte) (sql_stmt * list byte)) (text : router_err (cat_err E) -> list byte).
Context (rows_schema : Rs -> Datum.Schema) (rows_next : Rs -> catalog S -> option Datum.Row * (Rs * catalog S)) (rows_close : Rs -> catalog S -> catalog S).
Context (r : Router (catalog S) (cat_err E) (Server.Result Rs)).

(** The parser gives a statement and its fingerprint; an error of the router has a text. *)
#[local] Instance router_backend : Backend (catalog S) (sql_stmt * list byte) Rs := {|
  Server.Parse := parse;
  Server.Route user stmt c :=
    match Router.Route r user stmt.1 stmt.2 c with (Ok x, c') => (Ok x, c') | (Err e, c') => (Err (text e), c') end;
  rs_Schema := rows_schema; rs_Next := rows_next; rs_Close := rows_close |}.

End over_router.
