(* ===== verification/ExamplesMetrics.v ===== *)
(** The properties of the metric store at concrete inputs: points with the tag [h=a] in
    the pager in memory. *)

From Stdlib Require Import ZArith Lia Permutation.
From Stdlib Require Strings.String.
From stdpp Require Import gmap list.
From Stdlib Require Import SpecFloat.
From S2P Require Import Datum Binder DmlRow MetricsEngine.
From S2P Require Import Prelude OrdMap Page Monad PagerSpec PagerMem PagerFile FlatStore FlatList GoRuntime Gorilla.
From S2P Require Import GoFmt MetricsPoint Metrics TagIndexProof Rollup.
Import String.StringSyntax.
Open Scope Z_scope.
#[local] Existing Instance simple_runtime.
#[local] Existing Instance simple_runtime_laws.

Lemma gorilla_roundtrip_witness :
  decode_like [Gorilla.Time 100; Gorilla.Value 7; Gorilla.Time 160; Gorilla.Value 7]
    (encode 0 [Gorilla.Time 100; Gorilla.Value 7; Gorilla.Time 160; Gorilla.Value 7])
  = Some [Gorilla.Time 100; Gorilla.Value 7; Gorilla.Time 160; Gorilla.Value 7].
Proof.
  apply gorilla_roundtrip; [repeat constructor; vm_compute; (split; (reflexivity || discriminate)) || done|].
  vm_compute. repeat split; intros; discriminate.
Defined.

Lemma timestamp_loss_witness :
  decode_like [Gorilla.Time 100; Gorilla.Time 164] (encode 0 [Gorilla.Time 100; Gorilla.Time 164]) = Some [Gorilla.Time 100; Gorilla.Time 36].
Proof. exact (proj2 (timestamp_loss 0 100 164 ltac:(vm_compute; split; (reflexivity || discriminate)) ltac:(vm_compute; split; (reflexivity || discriminate))) eq_refl). Defined.

Lemma empty_files n : (n <= 100)%nat -> pf_files empty_mem n FirstDataPageID ∅.
Proof. intros Hn. apply empty_mem_file. unfold max_pages. lia. Qed.

(** * Points *)

Definition host_a : list byte := go_string "h=a".
Definition cpu_at (t v : Z) : Point := mkPoint t host_a (go_string "cpu") v.
Definition host_tag : tag_pairs := {[ [x68] := [x61] ]}.

(** Evaluated to a boolean, so that no map is read back. *)
Lemma tags_split pt : match splitTagPairs (Tags pt) with Some _ => true | None => false end = true -> tags_ok pt.
Proof. unfold tags_ok. by destruct (splitTagPairs (Tags pt)). Qed.

Lemma cpu_ok t v : i64 t -> u64 v -> point_ok (cpu_at t v) /\ tags_ok (cpu_at t v).
Proof. intros Ht Hv. split; [split; [exact Ht|exact Hv|vm_compute; discriminate]|apply tags_split; vm_compute; reflexivity]. Qed.

Ltac range := vm_compute; split; (reflexivity || discriminate).

Definition sample_ops : list op := [OpAppend (cpu_at 5 1); OpRestart false; OpAppend (cpu_at 6 2); OpScan 6 9 host_tag].


(** With an upper bound both scans find the same point; with the bound 0 the index finds both
    points and the scan of all pages none. *)
Lemma index_answers_as_scan_witness :
  (exists (s : MetricsStore memPager) r s1 s2, ScanRangeWithIndex None 0 5 host_tag s = (Ok r, s1) /\ r ≡ₚ [cpu_at 5 1] /\
     ScanRange None 0 5 host_tag s = (Ok [cpu_at 5 1], s2)) /\
  (exists (s : MetricsStore memPager) r s1 s2, ScanRangeWithIndex None 0 0 host_tag s = (Ok r, s1) /\ r ≡ₚ [cpu_at 5 1; cpu_at 6 2] /\
     ScanRange None 0 0 host_tag s = (Ok [], s2)).
Proof.
  assert (Forall (fun pt => point_ok pt /\ tags_ok pt) [cpu_at 5 1; cpu_at 6 2]) as Hpts.
  { constructor; [apply cpu_ok; range|]. constructor; [apply cpu_ok; range|constructor]. }
  assert (map_Forall (fun _ v => v <> []) host_tag) as Hv by (by apply map_Forall_singleton).
  split.
  - destruct (index_answers_as_scan (P := memPager) empty_mem [cpu_at 5 1; cpu_at 6 2] 0 0 0 5 host_tag (empty_files 3 ltac:(lia)) Hpts Hv)
      as (s & r & s1 & q & s2 & _ & E1 & E2 & Hq & Hr & _).
    assert (q = [cpu_at 5 1]) as Eq by (rewrite Hq; vm_compute; reflexivity).
    exists s, r, s1, s2. rewrite Eq in E2. split_and!; try done. rewrite Eq in Hr. apply Hr. by left.
  - destruct (index_answers_as_scan (P := memPager) empty_mem [cpu_at 5 1; cpu_at 6 2] 0 0 0 0 host_tag (empty_files 3 ltac:(lia)) Hpts Hv)
      as (s & r & s1 & q & s2 & _ & E1 & E2 & Hq & _ & Hr).
    assert (q = []) as Eq by (rewrite Hq; vm_compute; reflexivity).
    exists s, r, s1, s2. rewrite Eq in E2. split_and!; try done.
    etransitivity; [apply Hr; [done|by apply insert_non_empty]|]. vm_compute. reflexivity.
Defined.

(** A store of one point, opened again with an empty index. *)
Lemma reopened idx : exists s : MetricsStore memPager, metrics_rel s 5 [[cpu_at 5 1]] /\ tagIndex s = idx.
Proof.
  destruct (open_new_store (P := memPager) empty_mem 6 None (empty_files 7 ltac:(lia))) as (s & _ & Hi & Hr).
  destruct (append_ok s 5 [[]] (cpu_at 5 1) None Hr) as (s1 & _ & Hr1 & _); [apply cpu_ok; range|by rewrite Hi|].
  destruct (open_again_store (left_by s1 true) 5 _ idx (left_holds s1 5 _ true Hr1)) as (s2 & _ & Hi2 & Hr2); [apply Hr1|].
  by exists s2.
Qed.

Lemma restart_hides_points_witness :
  exists s1 s2 s3 : MetricsStore memPager,
    ScanRangeWithIndex None 0 9 host_tag s1 = (Ok [cpu_at 6 2], s2) /\ ScanRange None 0 9 host_tag s1 = (Ok [cpu_at 5 1; cpu_at 6 2], s3).
Proof.
  destruct (reopened (Some (NewTagIndex 0 0))) as (s & Hr & Hi).
  destruct (restart_hides_points s 4 [[cpu_at 5 1]] 0 0 (cpu_at 6 2) [x68] [x61] 0 9 Hr Hi) as (s1 & s2 & s3 & _ & E2 & E3).
  - constructor; [apply cpu_ok; range|constructor].
  - apply cpu_ok; range.
  - apply cpu_ok; range.
  - vm_compute. reflexivity.
  - range.
  - done.
  - exists s1, s2, s3. split; [exact E2|]. refine (eq_trans E3 _). vm_compute. reflexivity.
Defined.

(** Tags written as JSON are stored, and found by no query. *)
Lemma json_tags_never_match_witness : matchTags (go_string "{'h':'a'}") host_tag = Some false.
Proof.
  apply (json_tags_never_match (go_string "'h':'a'}") host_tag).
  - discriminate.
  - apply (bool_decide_unpack _). vm_compute. exact I.
  - discriminate.
  - apply map_Forall_singleton. discriminate.
Defined.

Lemma brace_tags_break_queries_witness :
  exists s1 s2 : MetricsStore memPager, ScanRange None 0 9 host_tag s1 = (Err ErrPanic, s2).
Proof.
  destruct (reopened None) as (s & Hr & Hi).
  destruct (brace_tags_break_queries s 4 [[cpu_at 5 1]] (mkPoint 6 [x7b] [x63] 2) 0 9 host_tag Hr Hi) as (s1 & s2 & _ & E).
  - split; [range|range|vm_compute; discriminate].
  - done.
  - range.
  - discriminate.
  - by exists s1, s2.
Defined.

(** * Rollups *)

(** Two points of the minute 60, of the values 1.0 and 2.0, and one of the next. *)
Definition one_bits : Z := 0x3FF0000000000000.
Definition two_bits : Z := 0x4000000000000000.
Definition three_bits : Z := 0x4008000000000000.
Definition three_points : list (list Point) := [[cpu_at 60 one_bits; cpu_at 119 two_bits; cpu_at 120 one_bits]].

Lemma minutes : exists s : MetricsStore memPager, metrics_rel s 5 three_points.
Proof.
  destruct (open_new_store (P := memPager) empty_mem 8 None (empty_files 9 ltac:(lia))) as (s & _ & Hi & Hr).
  destruct (append_ok s 7 [[]] (cpu_at 60 one_bits) None Hr) as (s1 & _ & Hr1 & Hi1); [apply cpu_ok; range|by rewrite Hi|].
  destruct (append_ok s1 6 _ (cpu_at 119 two_bits) None Hr1) as (s2 & _ & Hr2 & Hi2); [apply cpu_ok; range|by rewrite Hi1|].
  destruct (append_ok s2 5 _ (cpu_at 120 one_bits) None Hr2) as (s3 & _ & Hr3 & _); [apply cpu_ok; range|by rewrite Hi2|].
  exists s3. exact Hr3.
Qed.

Lemma downsample_then_scan_witness :
  exists (s2 s3 : RollupManager memPager) r, ScanRollups None 0 60 s2 = (Ok r, s3) /\
    forall rb, rb ∈ r -> rb = mkBucket 60 2 three_bits one_bits two_bits.
Proof.
  destruct minutes as (src & Hm).
  destruct (downsample_then_scan (P := memPager) src 5 three_points empty_mem [60] 60 0 60 Hm (empty_files 4 ltac:(lia)) ltac:(done))
    as (s1 & s2 & s3 & r & _ & _ & E & _ & Hr).
  exists s2, s3, r. split; [exact E|]. intros rb Hrb. apply Hr in Hrb as (b & Hb & Hne & ->).
  assert (b = 0 \/ 0 < b < 60 \/ b = 60) as [ -> |[Hlt| -> ]] by lia.
  - exfalso. by apply Hne.
  - exfalso. apply Hne. unfold bucket_values. cbn -[Z.eqb].
    change (bucket_start 60 60) with 60. change (bucket_start 60 119) with 60. change (bucket_start 60 120) with 120.
    rewrite !(proj2 (Z.eqb_neq _ _)) by lia. reflexivity.
  - vm_compute. reflexivity.
Defined.

Lemma downsample_again_duplicates_witness :
  exists (s2 s3 : RollupManager memPager) r, ScanRollups None (- 2 ^ 63) (2 ^ 63 - 1) s2 = (Ok r, s3) /\
    r ≡ₚ summary 60 (concat three_points) ++ summary 60 (concat three_points).
Proof.
  destruct minutes as (src & Hm).
  destruct (downsample_again_duplicates (P := memPager) src 5 three_points empty_mem [60] 60 2 Hm (empty_files 7 ltac:(lia)) ltac:(done))
    as (s1 & s2 & s3 & r & _ & _ & E & Hr).
  exists s2, s3, r. split; [exact E|]. rewrite Hr. cbn [replicate concat]. by rewrite app_nil_r.
Defined.

(** * SQL *)

(** Text in lower case, and floats that are read as 1. *)
#[local] Instance lower_case : GoText := {| ToLower s := s; ToUpper s := s; Sscanf_f _ := S754_zero false |}.
Definition float_one : spec_float := S754_finite false 4503599627370496 (-52).
#[local] Instance all_ones : GoFloat := {| ParseFloat _ := Some float_one; int64_of_float _ := 1; uint64_of_float _ := 1 |}.

Definition literal (s : list byte) : Query.operand := Query.mkOperand s (Some s) false false.
Definition column (s : list byte) : Query.operand := Query.mkOperand s None true false.
Definition cpu_row : list Query.operand := [literal (go_string "7"); literal (go_string "'h=a'"); literal (go_string "'cpu'"); literal (go_string "1.0")].

Definition insert_cpu : Query.stmt :=
  Query.StmtInsert (Some (Query.mkInsert (go_string "cpu") [col_time; col_tags; col_metric_name; col_value] (Query.Values [cpu_row]))).
Definition select_7_9 : Query.stmt :=
  Query.StmtSelect (Some (Query.mkSelect (go_string "other") (Some (Query.BetweenExpr true (column col_time) (literal (go_string "7")) (literal (go_string "9")))))).
Definition select_all : Query.stmt := Query.StmtSelect (Some (Query.mkSelect (go_string "cpu") None)).


Lemma select_without_upper_bound_witness :
  exists s s' : MetricsStore memPager, Execute None select_all (mkMetricsEngine s false) = (Ok (Stream (mkStream [] 0)), mkMetricsEngine s' false).
Proof.
  destruct (reopened None) as (s & Hr & _).
  destruct (select_without_upper_bound s 5 [[cpu_at 5 1]] false (go_string "cpu") None Hr) as (s' & E); [done|reflexivity|].
  exists s, s'. refine (eq_trans E _). vm_compute. reflexivity.
Defined.
