(* ===== verification/ExamplesLogs.v ===== *)
(** The properties of the log store at concrete inputs: short records in the pager in
    memory, lower-case letters as the letters. *)

From Stdlib Require Import ZArith Lia Permutation.
From Stdlib Require Strings.String.
From stdpp Require Import gmap list.
From Stdlib Require Import SpecFloat.
From S2P Require Import Datum DmlRow MetricsEngine LogsEngine.
From S2P Require Import Prelude OrdMap Page Monad PagerSpec PagerMem PagerFile FlatStore FlatList GoRuntime GoFmt.
From S2P Require Import Binder LogRecord Logs LogQuery LogBlock.
Import String.StringSyntax.
Open Scope Z_scope.
#[local] Existing Instance simple_runtime.
#[local] Existing Instance simple_runtime_laws.

Definition lower_text : GoText := {| ToLower s := s; ToUpper s := s; Sscanf_f _ := S754_zero false |}.
Definition lower_letters : GoUnicode := {| IsLetter r := (0x61 <=? r) && (r <=? 0x7a); IsDigit _ := false; rune_ToLower r := r |}.
#[local] Existing Instance lower_text.
#[local] Existing Instance lower_letters.

(** Streams that hold their data as it is. *)
Definition stored_flate : GoFlate := {| flate_write d := d; flate_read d := (d, false) |}.
#[local] Existing Instance stored_flate.
Lemma stored_flate_laws : GoFlateLaws.
Proof. done. Qed.
#[local] Existing Instance stored_flate_laws.

Lemma empty_mem_files n : (n <= 100)%nat -> pf_files empty_mem n FirstDataPageID ∅.
Proof. intros Hn. apply empty_mem_file. unfold max_pages. lia. Qed.

Ltac bounds := vm_compute; split; (reflexivity || discriminate).

Definition said (t : Z) (text : list byte) : LogRecord := mkLog t SeverityInfo [] text.
Definition hello : list byte := go_string "hello world".
Definition bye : list byte := go_string "bye world".

Lemma said_ok t text : i64 t -> zlen text <= 100 -> log_ok (said t text).
Proof.
  intros Ht Hl. split; [exact Ht|bounds|]. unfold log_size, said. cbn [Attributes lr_Body]. change (maxBodySize - logsHeaderSize) with 4076.
  change (zlen (@nil byte)) with 0. lia.
Qed.

Definition some_log_ops : list log_op := [LogAppend (said 5 hello); LogRestart false; LogAppend (said 6 bye); LogScan 0 5 []].

Lemma logs_refine_list_witness :
  exists s : LogsStore memPager, OpenLogs None (NewStoreWithIndex empty_mem None) = (Ok tt, s) /\
    run_logs run_log some_log_ops s = [LogDone (Ok tt); LogDone (Ok tt); LogDone (Ok tt); LogRows (Ok [said 5 hello])].
Proof.
  destruct (logs_refine_list (P := memPager) some_log_ops empty_mem None (empty_mem_files 5 ltac:(lia))) as (s & E & Hs).
  { constructor; [split; bounds|]. constructor; [exact I|]. constructor; [split; bounds|]. constructor; [exact I|constructor]. }
  exists s. split; [exact E|]. rewrite Hs. vm_compute. reflexivity.
Defined.

(** * The index *)

Lemma index_invariant_witness : index_wf (foldr index_step (NewTokenIndex 100) [IxSweep 7; IxInsert bye (mkLogLoc 2 1 6); IxInsert hello (mkLogLoc 2 0 5)]).
Proof. by apply index_invariant. Defined.

(** 170 bytes admit three locators of this term; a hundred are taken. *)
Lemma cap_not_enforced_witness :
  zlen (term_locs hello (foldl (fun idx loc => Insert hello loc idx) (NewTokenIndex 170) (replicate 100 (mkLogLoc 2 0 5)))) = 100.
Proof. exact (f_equal zlen (cap_not_enforced 170 hello (replicate 100 (mkLogLoc 2 0 5)) eq_refl)). Defined.

(** An index of 100 bytes with one term is full, before and after a sweep. *)
Definition one_term : TokenIndex := Insert hello (mkLogLoc 2 0 5) (NewTokenIndex 100).

Lemma swept_index_is_full_witness : Insert bye (mkLogLoc 2 1 6) (Sweep 7 one_term) = Sweep 7 one_term.
Proof.
  refine (proj2 (swept_index_is_full one_term 7 bye (mkLogLoc 2 1 6) _ _ _)).
  - apply insert_wf, new_wf. reflexivity.
  - assert (termLocs one_term = {[hello := [mkLogLoc 2 0 5]]}) as -> by (apply (bool_decide_unpack _); vm_compute; exact I).
    apply map_Forall_singleton. constructor; [reflexivity|constructor].
  - vm_compute. discriminate.
Defined.


(** A store of one record with one block, the first page. *)
Lemma one_record : exists s : LogsStore memPager, logs_rel s 5 [[said 5 hello]] /\ blockDirectory s = [].
Proof.
  destruct (open_new_logs (P := memPager) empty_mem 6 None (empty_mem_files 7 ltac:(lia))) as (s & _ & _ & Hd & Hr).
  destruct (append_log_ok s 5 [[]] (said 5 hello) Hr) as (s1 & _ & Hr1 & Hd1 & _); [apply said_ok; [bounds|vm_compute; discriminate]|].
  exists s1. split; [exact Hr1|]. by rewrite Hd1.
Qed.

Lemma restart_empties_search_witness :
  exists s s' : LogsStore memPager, ScanRange None 0 0 [] s = (Ok [said 5 hello], s') /\ ScanRangeWithIndex None 0 0 [hello] s = (Ok [], s).
Proof.
  destruct one_record as (s0 & Hr & _).
  destruct (restart_empties_search (P := memPager) (logs_left_by s0 true) 5 [[said 5 hello]] 1000 0 0 hello [])
    as (s & s' & r & _ & E & E' & ->).
  - by apply logs_left_holds.
  - apply Hr.
  - exists s, s'. by split.
Defined.

(** * Retention *)

Definition first_block : BlockDirectoryEntry := mkBlockEntry 2 1 5 5.

Lemma one_block : exists s : LogsStore memPager, logs_rel s 5 [[said 5 hello]] /\ blockDirectory s = [first_block].
Proof.
  destruct one_record as (s & [Hd Hok] & Eb). exists (snd (AddBlockDirectoryEntry first_block s)). split; [by split|]. cbn. by rewrite Eb.
Qed.

Lemma first_block_ok : Forall block_ok [first_block].
Proof. constructor; [|constructor]. vm_compute. repeat split; discriminate. Qed.

(** Nothing is older than 5: the sweep leaves everything. *)
Lemma sweep_frees_expired_witness :
  exists s1 s2 : LogsStore memPager, ScanRange None 0 0 [] s1 = (Ok [said 5 hello], s2) /\ blockDirectory s1 = [first_block].
Proof.
  destruct one_block as (s & Hr & Hd).
  destruct (sweep_frees_expired s 5 [[said 5 hello]] 5 0 0 [] Hr) as (s1 & s2 & _ & Hd1 & E).
  - rewrite Hd. exact first_block_ok.
  - rewrite Hd. vm_compute. intros H. by apply elem_of_nil in H.
  - exists s1, s2. rewrite Hd in *. split; [|exact Hd1]. refine (eq_trans E _). vm_compute. reflexivity.
Defined.

Lemma sweep_of_current_page_stops_store_witness :
  exists s s1 : LogsStore memPager, sweep None 6 s = (Ok tt, s1) /\ append_each [said 7 bye] s1 = [Err (ErrPager ErrInvalidPageID)].
Proof.
  destruct one_block as (s & Hr & Hd).
  destruct (sweep_of_current_page_stops_store s 5 [[said 5 hello]] 6 [said 7 bye] None Hr) as (s1 & E & Ea & _).
  - rewrite Hd. exact first_block_ok.
  - rewrite Hd. vm_compute. by left.
  - constructor; [apply said_ok; [bounds|vm_compute; discriminate]|constructor].
  - by exists s, s1.
Defined.

(** * Blocks *)

Definition some_header : BlockHeader := mkBlockHeader 0 0 0 1 5 5.
Lemma some_header_ok : header_ok some_header.
Proof. split; bounds. Qed.

Lemma hello_fits : block_fits hello.
Proof. vm_compute. split; reflexivity. Qed.

Lemma block_roundtrip_witness : DecompressBlock (fst (CompressBlock hello some_header)) = Ok (hello, mkBlockHeader BlockMagic 11 11 1 5 5).
Proof. refine (eq_trans (block_roundtrip hello some_header some_header_ok hello_fits) _). vm_compute. reflexivity. Defined.

(** A pager with page 2. *)
Lemma one_page : exists p : memPager, pf_rel p 5 3 {[2 := zero_body]}.
Proof.
  destruct (pf_alloc (P := memPager) empty_mem 5 FirstDataPageID ∅) as (id & p & _ & _ & Hid & _ & Hp).
  { exact (empty_mem_files 6 ltac:(lia)). }
  unfold FirstDataPageID in *. assert (id = 2) as -> by lia. exists p. rewrite insert_empty in Hp. exact Hp.
Qed.

Lemma block_pages_roundtrip_witness :
  exists p1 p2 : memPager, ReadBlock None 2 p1 = (Ok (fst (CompressBlock hello some_header)), p2).
Proof.
  destruct one_page as (p & Hp).
  destruct (block_pages_roundtrip hello some_header 2 p 5 3 {[2 := zero_body]} Hp some_header_ok hello_fits)
    as (p1 & p2 & m' & _ & _ & _ & E & _).
  - assert (chunks (fst (CompressBlock hello some_header)) = 1) as -> by (vm_compute; reflexivity). intros id Hid. assert (id = 2) as -> by lia. eexists. apply lookup_singleton_eq.
  - by exists p1, p2.
Defined.

Lemma write_block_does_not_allocate_witness : exists p : memPager, WriteBlock None 3 hello p = (Err (ErrBlockPager ErrInvalidPageID), p).
Proof.
  destruct one_page as (p & Hp). exists p.
  apply (write_block_does_not_allocate 3 hello p 5 3 {[2 := zero_body]} Hp); [discriminate|discriminate|by apply lookup_singleton_ne].
Defined.

(** * SQL *)

(** No text is a JSON object. *)
#[local] Instance no_json : LogJSON := {| Unmarshal _ := None; Marshal _ := None |}.

Definition literal (s : list byte) : Query.operand := Query.mkOperand s (Some s) false false.
Definition column (s : list byte) : Query.operand := Query.mkOperand s None true false.
Definition bye_row : list Query.operand := [literal (go_string "6"); literal (go_string "'INFO'"); literal (go_string "''"); literal (go_string "'bye world'")].

Definition insert_bye : Query.stmt :=
  Query.StmtInsert (Some (Query.mkInsert (go_string "app") [col_time; col_severity; col_attributes; col_body] (Query.Values [bye_row]))).
Definition select_where (e : Query.expr) : Query.stmt := Query.StmtSelect (Some (Query.mkSelect (go_string "other") (Some e))).
Definition like (text : list byte) : Query.expr := Query.ComparisonExpr Query.LikeOp (column col_body) (literal text).
Definition is_error : Query.expr := Query.ComparisonExpr Query.EqualOp (column col_severity) (literal (go_string "'ERROR'")).

Lemma logs_insert_select_witness :
  exists (s s1 s2 : LogsStore memPager),
    ExecuteLogs None insert_bye (mkLogsEngine s false) = (Ok (LogsAffected 1), mkLogsEngine s1 false) /\
    ExecuteLogs None (select_where (like (go_string "'%bye%'"))) (mkLogsEngine s1 false)
      = (Ok (LogStream (mkLogStream [said 6 bye] 0)), mkLogsEngine s2 false).
Proof.
  destruct one_record as (s & Hr & _).
  destruct (logs_insert_select s 4 [[said 5 hello]] (go_string "app") [col_time; col_severity; col_attributes; col_body] [bye_row] [said 6 bye])
    as (s1 & E1 & E2); [..|exact Hr|].
  - reflexivity.
  - constructor; [|constructor]. exists (literal (go_string "6")), (literal (go_string "'INFO'")), (literal (go_string "''")), (literal (go_string "'bye world'")).
    split_and!; vm_compute; reflexivity.
  - constructor; [apply said_ok; [bounds|vm_compute; discriminate]|constructor].
  - destruct (E2 (go_string "other") (like (go_string "'%bye%'")) (mkLogFilters 0 0 (go_string "bye") false)) as (s2 & E3);
      [vm_compute; reflexivity|reflexivity|].
    exists s, s1, s2. split; [exact E1|]. refine (eq_trans E3 _). vm_compute. reflexivity.
Defined.

Lemma like_without_token_returns_all_witness :
  exists s s' : LogsStore memPager, ExecuteLogs None (select_where (like (go_string "'%?%'"))) (mkLogsEngine s true)
    = (Ok (LogStream (mkLogStream [said 5 hello] 0)), mkLogsEngine s' true).
Proof.
  destruct one_record as (s & Hr & _).
  destruct (like_without_token_returns_all s 5 [[said 5 hello]] (go_string "other") (like (go_string "'%?%'")) (mkLogFilters 0 0 (go_string "?") false) Hr)
    as (s' & E); [vm_compute; reflexivity|reflexivity|discriminate|vm_compute; reflexivity|].
  exists s, s'. refine (eq_trans E _). vm_compute. reflexivity.
Defined.

Lemma other_conditions_ignored_witness :
  let s := NewStoreWithIndex empty_mem None in ExecuteLogs None (select_where (Query.AndExpr is_error (like hello))) (mkLogsEngine s true)
  = ExecuteLogs None (select_where (like hello)) (mkLogsEngine s true).
Proof. exact (other_conditions_ignored (NewStoreWithIndex empty_mem None) _ is_error (like hello) true eq_refl). Defined.
