(* ===== verification/ExamplesCatalog.v ===== *)
(** The properties of the catalog, the system tables, the lifecycle, the router, the
    server and the configuration at concrete inputs, over the reference store; and runs
    that lose rows at a restart. *)

From Stdlib Require Import ZArith Lia.
From Stdlib Require Strings.String.
From stdpp Require Import gmap list.
From S2P Require Import MetricsPoint MetricsEngine.
From S2P Require Import Datum Config Server.
From S2P Require Import Prelude OrdMap Key KvNode Monad KvSpec GoRuntime HeapValue Heap HeapScan GoFmt SystemHeap Lifecycle.
From S2P Require Import Nodes Binder Translate Logs SqlEngine Catalog CatalogProof Router.
Import String.StringSyntax.
Open Scope Z_scope.
Open Scope st_scope.
#[local] Existing Instance simple_runtime.
#[local] Existing Instance simple_runtime_laws.

(** A hash that shows its password. *)
#[local] Instance plain_passwords : Passwords := {|
  GenerateFromPassword _ pw := Some (go_string "$2a$" ++ pw);
  CompareHashAndPassword hash pw := bool_decide (zdrop 4 hash = pw);
  Sum256 s := s |}.

Notation rcat := (catalog refStore).
Notation rcm := (cm (S:=refStore) (E:=ref_err)).

Definition ann : list byte := go_string "ann".
Definition bob : list byte := go_string "bob".
Definition pw : list byte := go_string "secret".

(** * Restart *)

(** A new process over what the catalog left. *)
Definition reopened (c : rcat) : rcat := match h c with Some s => Catalog.New s | None => NewWithStores end.

(** Two users are made; then the process ends, and a new one starts. *)
Definition two_users : rcm unit := Catalog.Start ;;; CreateUser ann pw false ;;; CreateUser bob pw false ;;; Catalog.Stop.

Definition is_ok {E A} (r : res E A) : bool := match r with Ok _ => true | Err _ => false end.

(** The users of the new process, and a third user made there. *)
Definition after_restart : bool * bool * bool * bool :=
  let '(r, c) := two_users (Catalog.New []) in
  let '(r', c') := (Catalog.Start : rcm unit) (reopened c) in
  (is_ok r && is_ok r', is_ok (fst ((Authenticate ann pw : rcm _) c')), is_ok (fst ((Authenticate bob pw : rcm _) c')),
   is_ok (fst ((CreateUser ann pw false : rcm _) c'))).

(** Two users are made, the process ends and another one starts over the same store:
    the password of the first user is refused, that of the second accepted, and a new user
    may take the name of the first. *)
Theorem restart_loses_first_user : after_restart = (true, false, true, true).
Proof. vm_compute. reflexivity. Qed.

(** * The started catalog *)

Definition no_engines : gmap (list byte) (list byte -> bool) := {[ go_string "metrics" := fun _ => true ]}.

(** A catalog after [Start] over an empty store. *)
Definition fresh : rcat := snd ((Catalog.Start : rcm unit) (with_engines no_engines (Catalog.New []))).

Lemma fresh_live : live no_engines fresh newCache.
Proof.
  split; [by eexists|]. split; [reflexivity|]. split; [reflexivity|]. split; [reflexivity|]. vm_compute. reflexivity.
Qed.

Lemma room_new n : (n <= 100)%nat -> room_for n newCache.
Proof. unfold room_for. cbn. lia. Qed.

Definition some_requests : list admin_request :=
  [RCreateUser ann pw false; RCreateRole bob; RAssignRole ann bob; RGrant bob [] ActionRead; RRevokeRole ann bob; RDropRole bob].

Lemma catalog_run_refines_witness :
  let '(rs, c') := serve_all (S:=refStore) (E:=ref_err) some_requests fresh in
  exists cc' p', live no_engines c' cc' /\ cache_inv cc' p' /\ policy_serves (E:=ref_err) no_engines some_requests no_policy rs p'.
Proof. apply (catalog_run_refines no_engines some_requests fresh newCache no_policy fresh_live cache_inv_new). apply room_new. cbn. lia. Defined.

#[local] Opaque fresh.

(** One user, who is no administrator. *)
Definition ann_info : UserInfo := mkUserInfo 1 ann (go_string "$2a$" ++ pw) false.
Definition ann_cache : cache := on_nextUserID incr (cache_user ann_info newCache).
Definition ann_policy : policy := mkPolicy ∅ 1 {[ ann := false ]} ∅ ∅ ∅.
Definition with_ann : rcat := with_cache (Some ann_cache) fresh.

Lemma ann_inv : cache_inv ann_cache ann_policy.
Proof. apply (inv_add_user newCache no_policy ann (go_string "$2a$" ++ pw) false cache_inv_new eq_refl). cbn. lia. Qed.

Lemma live_with_cache engs (c : rcat) cc cc' : live engs c cc -> live engs (with_cache (Some cc') c) cc'.
Proof. by intros (? & ? & ? & ? & ?). Qed.

Lemma ann_live : live no_engines with_ann ann_cache.
Proof. exact (live_with_cache _ _ _ _ fresh_live). Qed.

Lemma check_permission_policy_witness :
  exists r, CheckPermission (S:=refStore) (E:=ref_err) 1 7 ActionRead with_ann = (r, with_ann) /\
    match r with
    | Ok b => isValidAction ActionRead = true /\ (b = true <-> allowed ann_policy ann 7 ActionRead)
    | Err e => isValidAction ActionRead = false /\ e = ErrInvalidAction
    end.
Proof. exact (check_permission_policy no_engines with_ann ann_cache ann_policy ann ann_info 7 ActionRead ann_live ann_inv eq_refl). Defined.

Lemma plain_bcrypt : bcrypt_laws.
Proof.
  intros n p hash. cbn. intros [= <-]. split; [by apply bool_decide_eq_true|].
  change (x24 :: x32 :: x61 :: x24 :: p) with (go_string "$2a$" ++ p).
  split; [rewrite zlen_app; pose proof (zlen_nonneg p); change (zlen (go_string "$2a$")) with 4; lia|].
  by rewrite ztake_app_eq.
Qed.

Lemma authenticate_keeps_password_witness :
  match Authenticate (S:=refStore) (E:=ref_err) ann pw with_ann with
  | (Ok ui, c') => users ann_cache !! ann = Some ui /\ verifyPassword (PasswordHash ui) pw = true /\
      exists cc' ui', live no_engines c' cc' /\ cache_inv cc' ann_policy /\ users cc' !! ann = Some ui' /\
        ui_UserID ui' = ui_UserID ui /\ verifyPassword (PasswordHash ui') pw = true /\
        forall u', u' <> ann -> users cc' !! u' = users ann_cache !! u'
  | (Err e, c') => e = ErrAuthFailed /\ c' = with_ann /\
      forall ui, users ann_cache !! ann = Some ui -> verifyPassword (PasswordHash ui) pw = false
  end.
Proof. exact (authenticate_keeps_password no_engines with_ann ann_cache ann_policy ann pw plain_bcrypt ann_live ann_inv). Defined.

Lemma create_role_races_witness :
  exists c', two_CreateRole (S:=refStore) (E:=ref_err) bob fresh = (Ok tt, c') /\
    exists cc', live no_engines c' cc' /\ rolesByID cc' !! 1 = Some (mkRoleInfo 1 bob) /\
      rolesByID cc' !! 2 = Some (mkRoleInfo 2 bob) /\ roles cc' !! bob = Some (mkRoleInfo 2 bob).
Proof.
  assert (fst (two_CreateRole (S:=refStore) (E:=ref_err) bob fresh) = Ok tt) as E0 by (vm_compute; reflexivity).
  exists (snd (two_CreateRole (S:=refStore) (E:=ref_err) bob fresh)). rewrite <- E0.
  split; [apply surjective_pairing|].
  apply (create_role_races (S:=refStore) (E:=ref_err) no_engines fresh newCache bob _ fresh_live).
  - unfold room. cbn. lia.
  - rewrite <- E0. apply surjective_pairing.
Defined.

Lemma start_misses_first_row_witness :
  exists rs c', load_from (E:=ref_err) schemaUsers load_user newCache (Catalog.New [] : rcat)
      = (match load_rows load_user newCache (map row_values (tl rs)) with Some cc' => Ok cc' | None => Err ErrCatPanic end, c') /\
    Sorted.StronglySorted HeapScan.row_lt rs /\
    forall k vals, In (mkRow k vals) rs <-> exists pk, HeapRows.pk_ok schemaUsers pk /\ k = HeapRows.row_prefix schemaUsers pk /\
      HeapProof.visible maxTx [] = Some vals.
Proof.
  apply (start_misses_first_row schemaUsers load_user newCache (Catalog.New [] : rcat) [] 0 [] (fun _ => [])).
  - set_solver.
  - reflexivity.
  - split; [done|constructor].
  - split; [by intros ? ? ? ? []|done].
Defined.

(** * System tables *)

Definition sys_requests : list sys_request := [SPut ann pw; SGet ann; SScan; SDelete ann; SGet ann].


(** * Lifecycle *)

Notation part := (Lifecycle.Component (list event) unit).

Definition part_a : part := Lifecycle.seen (go_string "storage.pager") (Ok tt) (Ok tt).
Definition part_b : part := Lifecycle.seen (go_string "pg-wire-server") (Ok tt) (Err Lifecycle.Panicked).

(** The manager with one part, and a call of Start that has just begun. *)
Definition one_part : Lifecycle.Manager (list event) unit := snd (Lifecycle.Register (Some part_a) Lifecycle.NewManager).
Definition starting_up : Lifecycle.config := Lifecycle.mkConfig (Lifecycle.with_state Lifecycle.StateStarting one_part) (Some [part_a]) None [].
Definition started_up : Lifecycle.config := Lifecycle.mkConfig (Lifecycle.mark_started part_a (Lifecycle.with_state Lifecycle.StateStarting one_part)) (Some []) None [Lifecycle.Started part_a].

Lemma started_reachable : Lifecycle.reachable started_up.
Proof.
  apply (Lifecycle.reachable_step starting_up); [|exact (Lifecycle.step_started _ _ _ _ _)].
  apply (Lifecycle.reachable_step (Lifecycle.mkConfig one_part None None [])); [|by apply Lifecycle.step_start].
  apply (Lifecycle.reachable_step (Lifecycle.mkConfig Lifecycle.NewManager None None [])); [constructor|].
  by apply (Lifecycle.step_register Lifecycle.NewManager (Some part_a) one_part (Ok tt)).
Qed.

Lemma lifecycle_order_witness :
  NoDup (map Lifecycle.c_Name (Lifecycle.components (Lifecycle.cm started_up))) /\
  (exists rest, Lifecycle.components (Lifecycle.cm started_up) = Lifecycle.started_of (Lifecycle.log started_up) ++ rest) /\
  (exists rest, rev (Lifecycle.started_of (Lifecycle.log started_up)) = Lifecycle.stopped_of (Lifecycle.log started_up) ++ rest) /\
  (Lifecycle.stopped_of (Lifecycle.log started_up) <> [] -> Lifecycle.state (Lifecycle.cm started_up) = Lifecycle.StateStopping \/ Lifecycle.state (Lifecycle.cm started_up) = Lifecycle.StateStopped) /\
  (Lifecycle.state (Lifecycle.cm started_up) = Lifecycle.StateStopped -> Lifecycle.stopped_of (Lifecycle.log started_up) = rev (Lifecycle.started_of (Lifecycle.log started_up))).
Proof. exact (lifecycle_order started_up started_reachable). Defined.

Definition quiet_part (name : list byte) : part := Lifecycle.seen name (Ok tt) (Ok tt).

(** The parts of the server by their names. *)
Definition server_parts : Lifecycle.Parts (list event) unit :=
  Lifecycle.mkParts part_a (quiet_part (go_string "metrics.pager")) (quiet_part (go_string "logs.pager")) (Some (quiet_part (go_string "logs.retention")))
    (Some (quiet_part (go_string "metrics.rollup"))) (quiet_part (go_string "storage.kv")) (quiet_part (go_string "catalog")) (quiet_part (go_string "vacuum")) part_b.

Lemma run_stops_at_once_witness :
  exists r, Lifecycle.RunWithSignals (fun _ => Ok server_parts) Lifecycle.DefaultOptions [] = (r,
    map (fun c => Lifecycle.EStart (Lifecycle.c_Name c)) (Lifecycle.parts server_parts) ++ [Lifecycle.ECancel] ++
    map (fun c => Lifecycle.EStop (Lifecycle.c_Name c)) (rev (Lifecycle.parts server_parts)) ++ [Lifecycle.ECancel; Lifecycle.ECancel]).
Proof.
  apply (run_stops_at_once (fun _ => Ok server_parts) Lifecycle.DefaultOptions Lifecycle.DefaultOptions server_parts).
  - reflexivity.
  - reflexivity.
  - apply (bool_decide_unpack _). by vm_compute.
  - apply (bool_decide_unpack _). by vm_compute.
  - repeat constructor.
  - repeat constructor.
Defined.

(** * Router *)

#[local] Instance as_is_text : GoText := {| ToLower s := s; ToUpper s := s; Sscanf_f _ := SpecFloat.S754_nan |}.

Definition cpu_table : list byte := go_string "cpu".
Definition metrics_engine : list byte := go_string "metrics".

(** An administrator, and a table of the metrics engine. *)
Definition admin_cache : cache :=
  on_nextTableID incr (on_tables <[cpu_table := mkTableInfo 1 metrics_engine cpu_table [] 1]>
    (on_nextUserID incr (cache_user (mkUserInfo 1 bob [] true) newCache))).
Definition with_admin : rcat := with_cache (Some admin_cache) fresh.

Definition echo_router : Router rcat (cat_err ref_err) Z :=
  RegisterEngine metrics_engine (fun r => ret (r_UserID r)) (Router.New (G:=rcat) (X:=cat_err ref_err) (R:=Z)).

Definition cpu_select : sql_stmt := StmtSelect (mkStatement [cpu_table] None).

Lemma admin_live : live no_engines with_admin admin_cache.
Proof. exact (live_with_cache _ _ _ _ fresh_live). Qed.

Lemma cpu_named : tables_named (X:=cat_err ref_err) with_admin.
Proof.
  destruct admin_live as (_ & Hs & _ & _ & Hc). intros t info. pose proof (below_get (E:=ref_err) with_admin admin_cache t Hs Hc) as Hb.
  unfold below in Hb. destruct (rc_GetTable t with_admin) as [[i|e] c']; [|by destruct (tables admin_cache !! t)].
  cbn. intros [= <-]. unfold admin_cache in Hb. cbn [tables on_nextTableID on_tables] in Hb.
  destruct (<[cpu_table:=_]> _ !! t) as [j|] eqn:Ej; [|done]. injection Hb as -> _.
  apply lookup_insert_Some in Ej as [[_ <-]|[_ Ej]]; [done|]. by cbn in Ej.
Qed.

(** The administrator reads a table of the metrics engine. *)
Lemma route_checks_permission_witness :
  fst (Route echo_router 1 cpu_select [] with_admin) = Ok 1 /\
  exists engine g1, (forall t, t ∈ [cpu_table] -> may (X:=cat_err ref_err) 1 ActionRead engine t g1) /\ g1 = with_admin.
Proof.
  assert (fst (Route echo_router 1 cpu_select [] with_admin) = Ok 1) as E1 by (vm_compute; reflexivity).
  split; [exact E1|]. destruct (Route echo_router 1 cpu_select [] with_admin) as [r c'] eqn:E0. cbn [fst] in E1. subst r.
  destruct (route_checks_permission echo_router 1 cpu_select [] with_admin (Ok 1) c' eq_refl cpu_named E0)
    as [(engine & execute & g1 & _ & _ & _ & _ & Hr & Hg)|[[e He] _]]; [|discriminate].
  exists engine, g1. split; [exact (Hr eq_refl)|]. destruct Hg as [->|(i & Hi & _)]; [reflexivity|discriminate].
Defined.

Definition cpu_insert : insert_stmt := mkInsert cpu_table [] (Values []).

Lemma insert_creates_unpermitted_witness :
  match Route echo_router 1 (StmtInsert (Some cpu_insert)) [] with_ann with
  | (Err ErrPermissionDenied, c') => exists cc', live no_engines c' cc' /\ is_Some (tables cc' !! cpu_table)
  | (Err (ErrBelow e), c') => store_failure e /\ live no_engines c' ann_cache
  | _ => False
  end.
Proof.
  apply (insert_creates_unpermitted no_engines echo_router with_ann ann_cache ann_policy ann ann_info cpu_insert [] (fun _ => true)).
  - exact ann_live.
  - exact ann_inv.
  - reflexivity.
  - done.
  - reflexivity.
  - reflexivity.
  - reflexivity.
  - intros [Ha|(r & Hm & _)]; [by vm_compute in Ha|]. by apply not_elem_of_empty in Hm.
Defined.

(** * Server

    Every query gets a stream of one row, a number and a NULL. *)

#[local] Instance no_tls : Server.Tls unit := {| Server.LoadX509KeyPair _ _ := None; Server.Handshake _ c := (Ok tt, c) |}.
#[local] Instance no_scan : Server.GoScan := {| Server.Sscanf_int _ := None; Server.Sscanf_float _ := None |}.

Definition seven : Datum.Row :=
  Datum.mkRow [Datum.mkDatum Datum.TypeInt64 (Datum.VInt64 7); Datum.mkDatum Datum.TypeNull Datum.VNil] 0.

Definition one_row : Server.Result bool := Server.mkResult 0 [] (Some true).

#[local] Instance one_row_backend : Server.Backend unit (list byte) bool := {|
  Server.Parse sql := Ok sql;
  Server.Route _ _ := ret one_row;
  Server.rs_Schema _ := [];
  Server.rs_Next more g := if more then (Some seven, (false, g)) else (None, (false, g));
  Server.rs_Close _ g := g |}.

Definition connected {G} (g : G) : Server.Session G := Server.mkSession (Server.mkConn [] [] []) Server.newSessionCache g.
Definition select_seven : list byte := go_string "SELECT 7".

Definition seven_reply : list (Server.MsgType * list byte) :=
  [(Server.MsgRowDescription, Server.row_description []); (Server.MsgDataRow, Server.data_row seven);
   (Server.MsgCommandComplete, Server.cstring (Server.result_tag one_row)); (Server.MsgReadyForQuery, [Server.idle])].

Lemma query_reply_witness :
  Server.handle_message 2 Server.MsgQuery select_seven (connected tt)
    = (Ok true, Server.with_router tt (Server.says (Server.messages seven_reply) (connected tt))) /\
  Server.unpack 4 (Server.messages seven_reply) = Some seven_reply /\
  Server.client_row (Server.data_row seven) = Some [Some [x37]; None].
Proof.
  destruct (Server.query_reply select_seven select_seven (connected tt) one_row tt true [seven] false tt 2
    eq_refl ltac:(done) ltac:(by vm_compute) eq_refl eq_refl eq_refl eq_refl) as (E1 & E2 & E3).
  split; [exact E1|split].
  - apply E2. repeat (apply Forall_cons; split; [by vm_compute|]). by apply Forall_nil.
  - refine (eq_trans (E3 seven _ _ _) _); [by left|by vm_compute| |by vm_compute].
    repeat (apply Forall_cons; split; [by vm_compute|]). by apply Forall_nil.
Defined.

(** A statement with a placeholder, under the empty name. *)
Definition prepared : Server.Session unit :=
  Server.mkSession (Server.mkConn [] [] [])
    (Server.mkSessionCache {[ [] := Server.mkPlan [] (go_string "SELECT $1") [] ]} ∅) tt.

Lemma bound_parameters_lost_witness :
  exists s', Server.handle_message 2 Server.MsgBind (Server.encode_bind [] [] [] [Some [x37]] []) prepared = (Ok true, s') /\
    Server.portals (Server.s_cache s') !! [] = Some (Server.mkPortal [] [] []) /\
    Server.handle_message 2 Server.MsgExecute (Server.cstring [] ++ be_encode 4 0) s'
      = (Server.report (Server.executeSQL 2 (go_string "SELECT $1")) ;;; ret true) s'.
Proof.
  apply (Server.bound_parameters_lost [] [] [] [Some [x37]] [] 0 (Server.mkPlan [] (go_string "SELECT $1") []) prepared 2).
  - reflexivity.
  - apply not_elem_of_nil.
  - apply not_elem_of_nil.
  - by vm_compute.
  - reflexivity.
Defined.

(** A router whose streams are those of the metrics engine, with one point each. *)
Definition a_point : Point := mkPoint 7 [] [x61] 0.

Definition points_backend : Server.Backend unit (list byte) metricsRowStream := {|
  Server.Parse sql := Ok sql;
  Server.Route _ _ := ret (Server.mkResult 0 [] (Some (MetricsEngine.mkStream [a_point] 0)));
  Server.rs_Schema _ := MetricsEngine.stream_Schema;
  Server.rs_Next r g := let '(row, r') := MetricsEngine.stream_Next r in (row, (r', g));
  Server.rs_Close _ g := g |}.

Lemma points_end : Server.streams_end (H:=points_backend).
Proof.
  intros _ _ _ g1 r _ _. apply (Server.shortening_ends (H:=points_backend) (fun r => length (MetricsEngine.st_points r) - MetricsEngine.st_pos r)%nat).
  intros [pts pos] g row r' g'. cbn. unfold MetricsEngine.stream_Next. cbn [MetricsEngine.st_points MetricsEngine.st_pos].
  destruct (pts !! pos) as [pt|] eqn:Ep; [|done]. apply lookup_lt_Some in Ep. intros [= _ <- _]. cbn. lia.
Qed.

#[local] Instance no_tls_laws : Server.TlsLaws unit.
Proof. by split. Qed.

(** A startup message of the protocol 3.0 and a query. *)
Definition short_session : list byte :=
  be_encode 4 8 ++ be_encode 4 196608 ++ Server.packet Server.MsgQuery select_seven.

Lemma session_ends_witness :
  exists k x, fst x <> Err Server.ErrFuel /\ forall fuel, (k <= fuel)%nat ->
    Server.handleConn (H:=points_backend) 22 fuel (Server.mkSSL [] []) (Server.mkConn short_session [] []) tt = x.
Proof.
  apply (Server.session_ends (H:=points_backend) 22 (Server.mkSSL [] []) (Server.mkConn short_session [] []) tt points_end).
  apply Nat.ltb_lt. by vm_compute.
Defined.

(** One connection of at most one, and one that was refused; and one that has ended where
    there is no limit. *)
Definition crowded : Server.crowd := Server.mkCrowd (Server.mkThrottle 2 1) 1 1 0.
Definition ended_one : Server.crowd := Server.mkCrowd (Server.mkThrottle (-1) 0) 0 0 1.

Lemma crowded_reachable : Server.throttle_reachable 1 crowded.
Proof.
  apply (Server.reachable_next 1 (Server.mkCrowd (Server.mkThrottle 1 1) 1 0 0)); [|by apply (Server.step_refused (Server.mkThrottle 1 1))].
  apply (Server.reachable_next 1 (Server.mkCrowd (Server.NewThrottle 1) 0 0 0)); [constructor|by apply (Server.step_accepted (Server.NewThrottle 1))].
Qed.

Lemma ended_reachable : Server.throttle_reachable 0 ended_one.
Proof.
  apply (Server.reachable_next 0 (Server.mkCrowd (Server.NewThrottle 0) 1 0 0)); [|by apply (Server.step_released (Server.NewThrottle 0))].
  apply (Server.reachable_next 0 (Server.mkCrowd (Server.NewThrottle 0) 0 0 0)); [constructor|by apply (Server.step_accepted (Server.NewThrottle 0))].
Qed.

Lemma throttle_bounds_witness :
  (Server.held crowded <= 1 /\ Server.Active (Server.throttle crowded) = 2) /\ Server.Active (Server.throttle ended_one) = -1.
Proof.
  destruct (Server.throttle_bounds 1 crowded crowded_reachable) as (_ & _ & _ & Hb & _).
  destruct (Server.throttle_bounds 0 ended_one ended_reachable) as (_ & _ & _ & _ & He).
  split; [exact (Hb eq_refl)|]. by apply He.
Defined.

(** An administration that makes a user with a role and a grant. *)
Definition hired : list admin_request :=
  [RCreateUser ann pw true; RCreateRole bob; RAssignRole ann bob; RGrant bob [] ActionRead].

Definition hiring : rcat := snd (serve_all (S:=refStore) (E:=ref_err) hired fresh).

#[local] Opaque hiring.

Lemma hiring_served : serve_all (S:=refStore) (E:=ref_err) hired fresh
  = (fst (serve_all (S:=refStore) (E:=ref_err) hired fresh), Server.s_router (connected hiring)).
Proof. exact (surjective_pairing _). Qed.


(** * Configuration *)

(** A file that changes nothing, and paths that are clean. *)
#[local] Instance defaults_file : Config.ConfigFiles := {|
  Config.Clean p := match p with [] => [x2e] | _ => p end;
  Config.os_Open _ := Some [];
  Config.Decode _ cfg := Some cfg |}.

#[local] Instance defaults_file_laws : Config.ConfigFilesLaws.
Proof. split; by intros []. Qed.

Lemma loaded_config_valid_witness :
  Config.Load [x63] = Ok Config.Default /\ exists l, Config.New (Config.cfg_Logger Config.Default) = Ok l.
Proof.
  split; [by vm_compute|]. by apply (Config.loaded_config_valid [x63] Config.Default).
Defined.
